(* ===== verification/_CoqProject ===== *)
-Q . S2P
Prelude.v
Text.v
Types.v
LogFormat.v
LogParser.v
PidRecord.v
Control.v
Executor.v
Yaml.v
Canonical.v
Paths.v
PidReap.v
PidTree.v
PidFile.v
PidSafety.v
PidDeath.v
DarwinPids.v
WindowsPids.v
WindowsHelpers.v
NativeStore.v
NativeStoreSafety.v
NativeLease.v
Diff.v
Config.v
LogSink.v
Wire.v
Events.v
Health.v
Supervisor.v
Engine.v
EngineSafety.v
Kind.v
Bridge.v
Monitor.v
MonitorSafety.v
MonitorRuns.v
Instance.v
Capability.v
RuntimeStore.v
AtomicFs.v
RuntimeDisk.v
StoreDirectory.v
ManagerState.v
ManagerDns.v
ManagerCore.v
ManagerSwitch.v
ManagerApply.v
ManagerOps.v
ManagerLogic.v
ManagerSafety.v
ManagerTransactions.v
ManagerReplace.v
ManagerReconcile.v
ManagerRecovery.v
ManagerProperties.v
ApiClient.v
ApiTypes.v
ApiCalls.v
ManagerClient.v
SerdeMaps.v
SerdeScalars.v
Access.v
WindowsAccess.v
Backend.v
ManagerBuild.v
HostDns.v
IpcClient.v
ControlWait.v
ServiceCommands.v
ServiceHost.v
LegacyInstance.v
