(* ===== verification/Prelude.v ===== *)
(** * Verification of the Chimera core manager and its service

    The repository is a Rust workspace around one job: keep exactly one proxy
    core (mihomo, clash-rs, ...) running on a host and change its configuration
    without losing it.  [crates/chimera-core-manager] carries that logic.  It
    stands on [crates/chimera-core-metadata] (shared vocabulary) and on
    [crates/chimera-utils] (process supervision, pid records, file primitives),
    and a system service, [chimera_service], drives it for the clients of
    [chimera_ipc].  It talks to a running core through [crates/clash-api] and
    [crates/chimera-clash-api], whose answers are decoded by the derives of
    [crates/chimera-serde] and [crates/chimera-serde-derive].  This development models these parts; what it leaves out is
    listed at the end.

    ** How the parts interact

    A client sends a request to the service, which turns it into a command of
    the control plane ([manager_bridge.rs], [control/mod.rs]).  The registry
    admits it, one executor task runs the commands in order
    ([control/executor.rs]), and each becomes one transaction of the manager
    ([manager/*.rs]).  A transaction loads and prepares a configuration
    ([config/*.rs]), stages and dry-runs it ([kind.rs]), commits it to the
    artifact store ([config/runtime_store.rs]), launches, probes and stops
    processes through the runtime interface, brings the host's DNS override to
    what the running document asks for ([manager/dns_sync.rs]), and publishes
    the status ([manager/publish.rs]).  A process whose death cannot be confirmed
    latches its epoch ([manager/quarantine.rs]), and a latch refuses every
    further launch.  Behind the runtime interface an epoch is an instance
    ([instance.rs]): a supervisor ([supervisor.rs]) starts the process again
    when it dies, a probe driver asks whether it is healthy
    ([health/driver.rs]), a monitor turns both into the status, and a pid file
    ([pid_file.rs]) lets a later manager find and kill what this one left
    behind.  The console lines of the process become frames ([log.rs]), an
    archive on disk ([log_sink.rs]) and events; the service forwards those and
    the manager's transitions to its clients ([events.rs], [routing/ws.rs]).

    ** Files

    - [Prelude]: results, machine integers, text, digests, durations.
    - [Text]: UTF-8, white space, searching and splitting, numbers in text.
    - [Types]: the shared data ([epoch.rs], [spec.rs], [state.rs], [error.rs],
      [kind.rs], [error_kind.rs]).
    - [LogFormat], [LogParser]: the formats of console lines and the assembly of
      records ([log.rs]).
    - [LogSink]: the archive, with a fault possible at every system call.
    - [Control]: operation ids, command digests, the operation registry.
    - [Executor]: [submit], [shutdown], the executor loop and its drain as a
      step relation over all interleavings, for any bounded queue that satisfies
      the laws of class [BoundedQueueLaws]; [ListQueue] is an implementation.
    - [Yaml], [Canonical]: documents and their normal form ([config/mod.rs]).
    - [Paths]: paths as text, and [native_store/paths.rs].
    - [NativeStore]: the data a core keeps across epochs and the lease on it
      ([native_store/fs.rs]), over inodes, names and advisory locks with a fault
      possible at every system call; class [StoreText] is the YAML and JSON
      readers.  [NativeStoreSafety]: a logic of what operations never touch.
      [NativeLease]: managers, cores and crashes around one store as a step
      relation.
    - [Diff]: what changed between two documents, and what the change needs
      ([config/diff.rs], [config/mihomo.rs]); class [ClashApi] is the typed
      patch of the API crate.
    - [Config]: loading and preparing a configuration ([config/mod.rs],
      [config/clash.rs]); class [ConfigHost] is YAML text and path resolution.
    - [PidRecord], [PidReap], [PidTree], [PidFile]: the text of a pid record,
      reaping recorded processes, the descendants of a process, and the life of
      the file ([pid_file.rs]), over a host that may change between any two
      system calls; [PidSafety] and [PidDeath]: whom a reap kills, and what its
      outcome proves.  [DarwinPids], [WindowsPids]: the same file as compiled for the
      other two hosts.
    - [WindowsHelpers]: requests to a busy pipe ([reqwest_ext.rs]; class [PipeSender]
      is the HTTP client and its clock) and the helper that asks a core to stop
      ([process/windows_shutdown.rs]).
    - [Health]: the health tracker ([health/mod.rs]) and its specification over
      histories of probes.
    - [Supervisor]: back-off, restart policies and the supervision loop as a
      step relation ([supervisor.rs], [event.rs]).
    - [Engine], [EngineSafety]: commands, starting a child, its handle, and the
      task between the child's pipes and its events ([process/command.rs],
      [process/handle.rs], [process/engine.rs]); class [ProcessKit] is the crate
      that starts processes.
    - [Kind]: command lines and the dry-run ([kind.rs]).
    - [Monitor], [MonitorSafety], [MonitorRuns]: the monitor of an instance, its
      probe driver and its callers as a step relation, what its status means,
      and concrete histories ([instance.rs], [health/driver.rs]).
    - [Instance]: starting and stopping an epoch around the monitor.
    - [Capability]: version banners, the support matrix and the version cache
      ([capability.rs], [feature/clash.rs]); class [Semver] is the version
      requirement parser, [SemverLaws] the one fact used of it.
    - [RuntimeStore]: the artifact directory, its atomic publications, backups
      and the orphan sweep, with a fault possible at every system call.
    - [AtomicFs], [RuntimeDisk], [StoreDirectory]: the primitives below it
      ([io/atomic_fs.rs]): publications and the lock of the directory on Unix and
      Windows, the same store over a disk that may lose power at any step, and the
      directory from its creation to its lock.
    - [ManagerState]: the control state, the published status, the class
      [ManagerHost] of everything a transaction awaits, and the state monad the
      transactions are written in.  Its [Mgr] record is the [Inner] of the code
      with the control state, the forwarder task, and a trace of events.
    - [ManagerDns], [ManagerCore], [ManagerSwitch], [ManagerApply]: the
      transactions, one definition per function of [manager/dns_sync.rs],
      [manager/quarantine.rs], [manager/mod.rs], [manager/switching.rs],
      [manager/apply.rs] and [manager/reconcile.rs].
    - [ManagerOps]: construction, the read operations, [Op] and [perform], the
      reachable states, and a scripted host.
    - [ManagerLogic]: weakest preconditions of transaction steps, quiet steps,
      and what a trace must look like ([trace_ok]).
    - [ManagerSafety]: the invariant [Inv] and the rules of the steps that are
      not quiet; [ManagerTransactions], [ManagerReplace], [ManagerReconcile],
      [ManagerRecovery]: one rule per transaction.
    - [ManagerProperties]: what follows for every reachable state and every
      accepted transaction.
    - [ManagerBuild]: the builder and the construction of a manager, the orphan
      DNS record included; class [BuildHost] is the store and the log archive.
    - [HostDns]: the DNS controller of macOS ([dns.rs]).
    - [ApiClient], [ApiTypes], [ApiCalls]: the client of a core's control API
      ([crates/clash-api]): endpoint, builder, retries, errors and streams; the
      values and the JSON of its requests; one definition per call.  Class
      [ApiKit] is the crates below (URLs, HTTP, JSON, back-off), [Decode] the
      decoders that serde derives.
    - [ManagerClient]: the client the manager links to, [crates/chimera-clash-api],
      and where it does what the other crate does.
    - [SerdeMaps], [SerdeScalars]: the derives that decode those answers and the code
      they generate ([crates/chimera-serde-derive], [crates/chimera-serde]); classes
      [AttributeParser] and [SerdeKit] are the parser of attributes and Serde.
    - [WindowsAccess]: security descriptors and the permissions of named pipes
      ([utils/acl.rs] of [chimera_ipc], [pipe_security.rs]); classes [SidKit] and
      [PipeHost] are the kernel.
    - [Access], [Backend]: who may talk to a controller, the probes that do, and
      the backend that wires both into an instance ([controller_access.rs] of
      the service and the manager, [health/probe.rs], [runtime/process.rs]).
    - [Wire]: the types of the wire, the projections of the manager's values
      onto them, and the client's view of an error ([chimera_ipc]).
    - [Bridge]: requests, legacy operations, the echoed core type and the
      shutdown of the service ([manager_bridge.rs]).
    - [Events]: the status bridge, the event hub and the socket of a client as
      one step relation ([manager_bridge.rs], [events.rs], [routing/ws.rs]).
    - [IpcClient]: routes, envelopes and the client of the service ([chimera_ipc],
      [server/routing]).
    - [ControlWait]: who waits for an operation and checks a configuration beside the
      executor ([control/mod.rs], [control/executor.rs], [manager_bridge.rs]).
    - [ServiceCommands]: the command line of the service, its installation, update and
      exit codes ([cmds/*.rs], [utils/*.rs]); class [CommandHost] is the service
      manager, the file system and the IPC client of a command.
    - [ServiceHost]: the life of a server, its pid file, its log buffer and the states
      of a Windows service ([cmds/server.rs], [server/mod.rs], [win_service.rs],
      [chimera-utils/src/os/mod.rs]); class [ServerHost].
    - [LegacyInstance]: the instance runner that older callers of [chimera-utils] use
      ([core/instance.rs], [core/utils.rs], [os/child.rs]).

    ** What the theorems show

    - Manager ([ManagerProperties]): no process is lost, overrides are owned,
      transactions answer, accepted ones leave what they report, refused ones
      leave everything alone, documents are checked before they are committed,
      epochs are never reused.  [Inv] is preserved by each transaction on every
      answer of the host, so these hold behind any sequence of failures.
    - Executor and registry ([Executor], [Control]): every admitted operation
      ends, in order, at most once, under every interleaving.
    - Store ([RuntimeStore]): publications are atomic, a restore returns the
      backup, a sweep leaves no artifact.
    - Configuration ([Canonical], [Diff], [Config]): diffs, patches and reloads
      are exact and confined; preparation is consistent; the identity of a
      source does not depend on the order of its entries.
    - Processes ([PidSafety], [PidDeath], [PidTree], [Supervisor],
      [MonitorSafety], [Instance]): a reap signals nobody else and its outcome
      accounts for the recorded process, which is dead unless its executable was renamed
      meanwhile; restarts stay within their budget and crash storms end; a
      running status was earned by a probe of that very process; a start is
      bounded in time; a stop that succeeds was told the end or accounts for
      the record.
    - Process engine ([EngineSafety]): events are what the child printed, with its
      end last; promised kills come; the pump ends behind the child.
    - Native store ([NativeStoreSafety], [NativeLease]): what a core has stored
      stays, and no two cores ever share a store, crashes of managers included.
    - Logs ([LogParser], [LogFormat], [LogSink]): no line is lost between the
      console and the frames, a printed line is read back, the archive is
      append-only and loses its oldest files only behind any fault, and is the stream
      itself without one.
    - Service ([Wire], [Bridge], [Events]): clients read the classification the
      control plane decided on, submissions are what was asked, the echoed core
      type follows the youngest reconcile, a shutdown is confirmed, and every
      client is told what holds after a bounded number of steps.
    - Construction and DNS ([ManagerBuild], [HostDns]): a construction locks the
      directory first and settles what a crash left; an override is reported only
      as it was read back; the password dialog runs its script and nothing else,
      and is not opened again after a refusal.
    - Directory and disk ([AtomicFs], [RuntimeDisk], [StoreDirectory]): one owner per
      directory; a power loss tears no configuration; a directory that is not private
      is refused.
    - API client ([ApiClient], [ApiTypes], [ApiCalls], [ManagerClient]): calls are repeated within
      their policy, what the linked client sends is never repeated except for the calls
      that declare that they may be, the text of an error is
      bounded, secrets go to HTTP controllers only, and patches that differ are
      written differently.
    - Decoding ([SerdeMaps], [SerdeScalars]): generated decoders agree with the meaning
      of the attributes over a buffered value, whatever groups are flattened and
      whatever kinds are mixed.
    - Other hosts ([DarwinPids], [WindowsPids], [WindowsAccess], [WindowsHelpers]): a
      kill through a handle hits the recorded process only, tokens are exact, a pipe is
      authorized with its policy and behind the look at its server, a busy pipe is
      asked again within a budget.
    - Service process ([IpcClient], [ControlWait], [ServiceCommands], [ServiceHost]):
      clients read what the service answered, waiters read the outcome of their
      operation, the core goes down first and once, an update replaces a service that answers only
      when the running program is newer, success
      was seen, unprivileged runs change nothing.
    - Controllers ([Access], [Backend]): a socket is examined before it is opened
      to its group, and a readiness probe is sent only behind that.
    - Health and capabilities ([Health], [Capability]): the tracker implements
      its specification over probe histories; a feature is never granted to a
      build that may lack it.

    ** Modelling choices

    Rust results are [result], a panic is [Panicked] of [outcome].  Integers are
    [N] with their wrap-around or saturation written out.  A transaction holds
    the control lock, so transactions run one after the other; the forwarder
    task of the running instance is run at every awaited host operation
    ([pump]) and between transactions.  The host's answers are arbitrary
    functions of an arbitrary environment, so the theorems hold for every host;
    a launch that answers with an error is taken to have left no process, which
    is what the code assumes ([ManagerProperties.unconfirmed_launches_are_forgotten]
    shows where it is wrong).  A drop of a staged file is written where the
    value goes out of scope.  Log messages are left out.

    Tasks that run beside each other (the executor, the supervisor, the monitor
    and its driver, the status bridge and a socket) are step relations in which
    every [await], every read of a channel and every arm of a [select!] is a
    step of its own.  Files and processes are those of a Unix host whose system
    calls answer arbitrarily; what the host may do by itself between two calls
    is said by [Later] of [PidSafety] and by the outside steps of the relations.

    Fuel: [diff_value] recurses to the depth of the two documents and
    [str_replace] to the length of the text, both of which are enough
    ([Diff.diff_value_fuel_le]); [evict_loop] runs at most once per entry of the
    order; [descend] has one unit per process of a listing
    ([PidTree.descendants_are_the_closure]); [repair_tree] has one unit per
    inode, and no path of directories is longer; [retry_loop] has one unit per round
    that fits its budget ([WindowsHelpers.retries_end_within_their_budget]),
    [free_marker] one per field ([SerdeMaps.markers_are_fresh]) and [link] one per level
    of flattened groups.  Everything else is structural.

    The files of one host model the branches compiled for it: Linux, or any Unix,
    unless a file says otherwise.

    ** Not modelled

    Process groups, pipes and signals below [process/engine.rs]; HTTP, URLs, JSON text
    and web sockets below the API clients ([vendor/reqwest-websocket] is third-party);
    the decoders that Serde itself derives, and generics, lifetimes and trait bounds of
    generated code; values, queries and errors of [crates/chimera-clash-api] that are
    word for word those of [crates/clash-api]; the text of versions, completions and
    log messages; the Windows arms of the native store and of the process engine; the
    remaining macOS network scripts; and the tests. *)

From Stdlib Require Export Strings.Ascii.
From stdpp Require Export base tactics option list numbers strings gmap pretty.
From Stdlib Require Import Strings.Byte.
Open Scope N_scope.

(** ** Results, as [std::result::Result] *)

Inductive result (T E : Type) : Type :=
| Ok (t : T)
| Err (e : E).
Arguments Ok {T E} t.
Arguments Err {T E} e.

#[export] Instance result_eq_dec {T E} `{EqDecision T, EqDecision E} : EqDecision (result T E).
Proof. solve_decision. Defined.

Definition is_ok {T E} (r : result T E) : bool :=
  match r with Ok _ => true | Err _ => false end.

Definition map_ok {T U E} (f : T -> U) (r : result T E) : result U E :=
  match r with Ok t => Ok (f t) | Err e => Err e end.

Definition map_err {T E F} (f : E -> F) (r : result T E) : result T F :=
  match r with Ok t => Ok t | Err e => Err (f e) end.

Definition ok_or {T E} (o : option T) (e : E) : result T E :=
  match o with Some t => Ok t | None => Err e end.

Definition result_bind {T U E} (r : result T E) (k : T -> result U E) : result U E :=
  match r with Ok t => k t | Err e => Err e end.

Declare Scope rust_scope.
Delimit Scope rust_scope with rust.

(** [let? x := r in k] is Rust's [let x = r?; k]. *)
Notation "'let?' x ':=' r 'in' k" := (result_bind r (fun x => k))
  (at level 10, x pattern, r at level 100, k at level 200) : rust_scope.

(** [collect] of an iterator of results into a [Result<Vec<_>, _>]: the first
    error wins. *)
Fixpoint collect_results {T E} (rs : list (result T E)) : result (list T) E :=
  match rs with
  | [] => Ok []
  | Err e :: _ => Err e
  | Ok t :: rest => map_ok (cons t) (collect_results rest)
  end.

(** ** Machine integers *)

Definition u32_max : N := 2 ^ 32 - 1.
Definition u64_modulus : N := 2 ^ 64.
Definition i64_max : Z := 2 ^ 63 - 1.

Definition saturating_add (max a b : N) : N := N.min max (a + b).
Definition checked_add (modulus a b : N) : option N :=
  if decide (a + b < modulus) then Some (a + b) else None.
Definition wrapping_mul (modulus a b : N) : N := (a * b) mod modulus.

(** ** Strings *)

Fixpoint strip_prefix (p s : string) : option string :=
  match p, s with
  | EmptyString, _ => Some s
  | String a p', String b s' => if decide (a = b) then strip_prefix p' s' else None
  | String _ _, EmptyString => None
  end.

Fixpoint strip_suffix (p s : string) : option string :=
  if decide (s = p) then Some EmptyString
  else match s with
       | EmptyString => None
       | String a s' => String a <$> strip_suffix p s'
       end.

Definition starts_with (p s : string) : bool := bool_decide (is_Some (strip_prefix p s)).
Definition ends_with (p s : string) : bool := bool_decide (is_Some (strip_suffix p s)).

(** [str::split_once]: around the first occurrence of the pattern. *)
Fixpoint split_once (p s : string) : option (string * string) :=
  match strip_prefix p s with
  | Some r => Some (EmptyString, r)
  | None =>
      match s with
      | EmptyString => None
      | String a s' => (fun '(l, r) => (String a l, r)) <$> split_once p s'
      end
  end.

(** [str::rsplit_once]: around the last occurrence of the pattern. *)
Fixpoint rsplit_once (p s : string) : option (string * string) :=
  match s with
  | EmptyString => (fun r => (EmptyString, r)) <$> strip_prefix p s
  | String a s' =>
      match rsplit_once p s' with
      | Some (l, r) => Some (String a l, r)
      | None => (fun r => (EmptyString, r)) <$> strip_prefix p s
      end
  end.

Definition str_contains (p s : string) : bool := bool_decide (is_Some (split_once p s)).

(** [str::replace] of a non-empty pattern; the fuel is the length of the text,
    which every step consumes at least one byte of. *)
Fixpoint str_replace_fuel (fuel : nat) (p q s : string) : string :=
  match fuel with
  | O => s
  | S fuel' =>
      match split_once p s with
      | Some (l, r) => l +:+ q +:+ str_replace_fuel fuel' p q r
      | None => s
      end
  end.
Definition str_replace (p q s : string) : string :=
  str_replace_fuel (String.length s) p q s.

(** [<[String]>::join]. *)
Fixpoint str_join (sep : string) (l : list string) : string :=
  match l with
  | [] => ""
  | [x] => x
  | x :: rest => x +:+ sep +:+ str_join sep rest
  end.

Fixpoint str_all (f : Ascii.ascii -> bool) (s : string) : bool :=
  match s with
  | EmptyString => true
  | String a s' => f a && str_all f s'
  end.

Definition bytes_of_string : string -> list Byte.byte := String.list_byte_of_string.

(** ** Numbers in text *)

Definition digit_value (a : Ascii.ascii) : option N :=
  let c := Ascii.N_of_ascii a in
  if bool_decide (48 <= c /\ c <= 57) then Some (c - 48)
  else if bool_decide (97 <= c /\ c <= 122) then Some (c - 87)
  else if bool_decide (65 <= c /\ c <= 90) then Some (c - 55)
  else None.

(** The digit loop of [from_str_radix]: every multiplication and addition is
    checked against the width of the target type. *)
Fixpoint radix_digits (radix modulus acc : N) (s : string) : option N :=
  match s with
  | EmptyString => Some acc
  | String a s' =>
      d ← digit_value a;
      if decide (d < radix) then
        if decide (acc * radix + d < modulus)
        then radix_digits radix modulus (acc * radix + d) s'
        else None
      else None
  end.

(** [uN::from_str_radix]: an empty text is an error, one leading [+] is
    skipped (a lone sign is an error), a [-] is not a digit. *)
Definition from_str_radix (radix modulus : N) (s : string) : option N :=
  match s with
  | EmptyString => None
  | String "+"%char EmptyString => None
  | String "+"%char s' => radix_digits radix modulus 0 s'
  | _ => radix_digits radix modulus 0 s
  end.

(** [str::parse::<u64>]. *)
Definition parse_u64 (s : string) : option N := from_str_radix 10 u64_modulus s.

Definition nibble (n : N) : Ascii.ascii :=
  Ascii.ascii_of_N (if decide (n < 10) then 48 + n else 87 + n).

(** [{:0w$x}] of a number below [16 ^ w]. *)
Fixpoint hex_fixed (w : nat) (n : N) : string :=
  match w with
  | O => EmptyString
  | S w' => hex_fixed w' (n / 16) +:+ String (nibble (n mod 16)) EmptyString
  end.

Definition show_N (n : N) : string := pretty n.

(** ** The 64-bit FNV-1a digest used as a change identity *)

Definition fnv1a_step (hash : N) (byte : Byte.byte) : N :=
  wrapping_mul u64_modulus (N.lxor hash (Byte.to_N byte)) 1099511628211.
Definition fnv1a (bytes : list Byte.byte) : N :=
  fold_left fnv1a_step bytes 14695981039346656037.

(** ** Durations, in nanoseconds *)

Definition Duration := N.
Definition duration_from_millis (n : N) : Duration := n * 1000000.
Definition duration_from_secs (n : N) : Duration := n * 1000000000.
Definition duration_is_zero (d : Duration) : bool := bool_decide (d = 0).

(** The fractional digits of [fmt_decimal]: printed from the most significant
    one until the remainder is zero. *)
Fixpoint fraction_digits (fuel : nat) (fractional divisor : N) : string :=
  match fuel with
  | O => EmptyString
  | S fuel' =>
      if decide (fractional = 0) then EmptyString
      else show_N (fractional / divisor)
             +:+ fraction_digits fuel' (fractional mod divisor) (divisor / 10)
  end.

Definition fmt_decimal (integer fractional divisor : N) (suffix : string) : string :=
  show_N integer
    +:+ (if decide (fractional = 0) then "" else "." +:+ fraction_digits 9 fractional divisor)
    +:+ suffix.

(** [{:?}] of [std::time::Duration]. *)
Definition fmt_duration (d : Duration) : string :=
  let secs := d / 1000000000 in
  let nanos := d mod 1000000000 in
  if decide (0 < secs) then fmt_decimal secs nanos 100000000 "s"
  else if decide (1000000 <= nanos) then fmt_decimal (nanos / 1000000) (nanos mod 1000000) 100000 "ms"
  else if decide (1000 <= nanos) then
    fmt_decimal (nanos / 1000) (nanos mod 1000) 100
      (String (Ascii.ascii_of_N 194) (String (Ascii.ascii_of_N 181) "s"))
  else fmt_decimal nanos 0 1 "ns".

(** ** Paths *)

Definition is_absolute (path : string) : bool := starts_with "/" path.

(** [Utf8Path::join] on a Unix host: an absolute operand replaces the base. *)
Definition path_join (base rest : string) : string :=
  if is_absolute rest then rest
  else if decide (base = "") then rest
  else if ends_with "/" base then base +:+ rest
  else base +:+ "/" +:+ rest.

(** ** String lemmas *)

Lemma string_app_cons (x : Ascii.ascii) (a b : string) : String x a +:+ b = String x (a +:+ b).
Proof. reflexivity. Qed.

Lemma string_app_nil_l (a : string) : "" +:+ a = a.
Proof. reflexivity. Qed.

Lemma string_app_nil_r (a : string) : a +:+ "" = a.
Proof. induction a as [|x a IH]; [done|]. by rewrite string_app_cons, IH. Qed.

#[export] Hint Rewrite string_app_cons string_app_nil_l string_app_nil_r : str.

Lemma string_app_assoc (a b c : string) : a +:+ (b +:+ c) = (a +:+ b) +:+ c.
Proof. induction a as [|x a IH]; [done|]. by rewrite !string_app_cons, IH. Qed.

Lemma string_length_app (a b : string) :
  String.length (a +:+ b) = (String.length a + String.length b)%nat.
Proof. induction a as [|x a IH]; [done|]. rewrite string_app_cons; cbn; by rewrite IH. Qed.

Lemma string_app_inj_r (a b c : string) : a +:+ c = b +:+ c -> a = b.
Proof.
  intros H. pose proof (f_equal String.length H) as HL.
  rewrite !string_length_app in HL. revert b H HL.
  induction a as [|x a IH]; intros [|y b] H HL; cbn in HL; try lia; [done|].
  rewrite !string_app_cons in H. injection H as -> H. f_equal. apply IH; [done|lia].
Qed.

Lemma strip_prefix_Some (p s r : string) : strip_prefix p s = Some r <-> s = p +:+ r.
Proof.
  revert s; induction p as [|a p IH]; intros s; cbn.
  { rewrite string_app_nil_l. split; [by intros [= ->]|by intros ->]. }
  rewrite string_app_cons.
  destruct s as [|b s]; [done|]. case_decide as E; subst.
  - rewrite IH. split; [by intros ->|by intros [= ->]].
  - split; [done|]. intros [= -> _]; done.
Qed.

Lemma strip_prefix_app (p r : string) : strip_prefix p (p +:+ r) = Some r.
Proof. by apply strip_prefix_Some. Qed.

Lemma strip_suffix_Some (p s r : string) : strip_suffix p s = Some r <-> s = r +:+ p.
Proof.
  revert r; induction s as [|a s IH]; intros r; cbn.
  - case_decide as E.
    + subst p. rewrite string_app_nil_r. split; [by intros [= <-]|by intros <-].
    + split; [done|]. intros H; destruct r; [by subst|discriminate H].
  - case_decide as E.
    + subst p. split; [by intros [= <-]|]. intros H; destruct r as [|x r]; [done|].
      apply (f_equal String.length) in H; rewrite string_length_app in H; cbn in H; lia.
    + rewrite fmap_Some. setoid_rewrite IH. split.
      * intros (x & -> & ->); done.
      * intros H; destruct r as [|x r]; [done|]. rewrite string_app_cons in H.
        injection H as -> ->; eauto.
Qed.

Lemma strip_suffix_app (p r : string) : strip_suffix p (r +:+ p) = Some r.
Proof. by apply strip_suffix_Some. Qed.

Lemma starts_with_true (p s : string) : starts_with p s = true <-> exists r, s = p +:+ r.
Proof.
  unfold starts_with. rewrite bool_decide_eq_true. unfold is_Some.
  setoid_rewrite strip_prefix_Some. done.
Qed.

Lemma starts_with_app (p r : string) : starts_with p (p +:+ r) = true.
Proof. apply starts_with_true. eauto. Qed.

Lemma split_once_eq (p s : string) :
  split_once p s =
    match strip_prefix p s with
    | Some r => Some (EmptyString, r)
    | None =>
        match s with
        | EmptyString => None
        | String a s' => (fun '(l, r) => (String a l, r)) <$> split_once p s'
        end
    end.
Proof. by destruct s. Qed.

Lemma split_once_Some (p s l r : string) :
  split_once p s = Some (l, r) -> s = l +:+ p +:+ r.
Proof.
  revert l r; induction s as [|a s IH]; intros l r; rewrite split_once_eq;
    destruct (strip_prefix p _) as [x|] eqn:E.
  - intros [= <- <-]. by apply strip_prefix_Some in E.
  - done.
  - intros [= <- <-]. by apply strip_prefix_Some in E.
  - intros ([l' r'] & H & E2)%fmap_Some. apply IH in H as ->. by simplify_eq.
Qed.

(** A separator whose first character does not occur before it is found where
    it stands. *)
Lemma split_once_app (a : Ascii.ascii) (p l r : string) :
  str_all (fun c => negb (bool_decide (c = a))) l = true ->
  split_once (String a p) (l +:+ String a p +:+ r) = Some (l, r).
Proof.
  induction l as [|c l IH]; intros H; rewrite split_once_eq.
  - by rewrite string_app_nil_l, strip_prefix_app.
  - apply andb_true_iff in H as [Hc Hl].
    apply negb_true_iff, bool_decide_eq_false in Hc.
    rewrite string_app_cons. destruct (strip_prefix _ _) eqn:E.
    { apply strip_prefix_Some in E. rewrite string_app_cons in E. by injection E. }
    by rewrite (IH Hl).
Qed.

(** ** Number/text lemmas *)

(** The Euclidean division facts of [n] by the positive literal [d]. *)
Ltac div_facts n d :=
  pose proof (N.mod_lt n d ltac:(lia)); pose proof (N.div_mod n d ltac:(lia));
  pose proof (N.le_0_l (n / d)); pose proof (N.le_0_l (n mod d)).

Lemma str_all_app f (a b : string) : str_all f (a +:+ b) = str_all f a && str_all f b.
Proof.
  induction a as [|x a IH]; [done|].
  rewrite string_app_cons; cbn; rewrite IH. by rewrite andb_assoc.
Qed.

Definition is_digit (a : Ascii.ascii) : bool :=
  bool_decide (48 <= Ascii.N_of_ascii a /\ Ascii.N_of_ascii a <= 57).

Lemma N_of_ascii_of_N (n : N) : n < 256 -> Ascii.N_of_ascii (Ascii.ascii_of_N n) = n.
Proof. apply Ascii.N_ascii_embedding. Qed.

Lemma digit_value_digit (n : N) :
  n < 10 -> digit_value (Ascii.ascii_of_N (48 + n)) = Some n.
Proof.
  intros H. unfold digit_value. rewrite N_of_ascii_of_N by lia.
  rewrite bool_decide_true by lia. f_equal; lia.
Qed.

Lemma pretty_N_char_eq (n : N) : n < 10 -> pretty_N_char n = Ascii.ascii_of_N (48 + n).
Proof.
  destruct n as [|p]; [done|]. intros H.
  do 4 (destruct p as [p|p|]; try done; try lia).
Qed.

Lemma pretty_N_go_digits (x : N) (s : string) :
  str_all is_digit s = true -> str_all is_digit (pretty_N_go x s) = true.
Proof.
  revert s. induction (N.lt_wf_0 x) as [x _ IH]; intros s Hs.
  destruct (decide (x = 0)) as [->|Hx].
  { by rewrite pretty_N_go_0. }
  rewrite pretty_N_go_step by lia.
  assert (Hm : x mod 10 < 10) by (apply N.mod_lt; lia).
  apply IH; [apply N.div_lt; lia|]. cbn [str_all]. rewrite Hs, andb_true_r.
  rewrite pretty_N_char_eq by done. generalize dependent (x mod 10).
  intros d Hd. unfold is_digit. rewrite N_of_ascii_of_N by lia.
  apply bool_decide_eq_true. lia.
Qed.

Lemma show_N_digits (n : N) : str_all is_digit (show_N n) = true.
Proof.
  unfold show_N, pretty, pretty_N. destruct (decide (n = 0)); [done|].
  by apply pretty_N_go_digits.
Qed.

Lemma radix_digits_show (modulus x : N) (s : string) :
  x < modulus ->
  radix_digits 10 modulus 0 (pretty_N_go x s) = radix_digits 10 modulus x s.
Proof.
  revert s. induction (N.lt_wf_0 x) as [x _ IH]; intros s Hx.
  destruct (decide (x = 0)) as [->|Hx0]; [done|].
  rewrite pretty_N_go_step by lia.
  div_facts x 10.
  rewrite IH by lia. cbn [radix_digits].
  rewrite pretty_N_char_eq, digit_value_digit by done. cbn.
  rewrite decide_True by done.
  replace (x / 10 * 10 + x mod 10) with x by lia.
  by rewrite decide_True.
Qed.

Lemma pretty_N_go_nonempty (x : N) (s : string) : s <> "" -> pretty_N_go x s <> "".
Proof.
  revert s. induction (N.lt_wf_0 x) as [x _ IH]; intros s Hs.
  destruct (decide (x = 0)) as [->|Hx]; [by rewrite pretty_N_go_0|].
  rewrite pretty_N_go_step by lia. apply IH; [apply N.div_lt; lia|done].
Qed.

Lemma show_N_nonempty (n : N) : show_N n <> "".
Proof.
  unfold show_N, pretty, pretty_N. destruct (decide (n = 0)); [done|].
  rewrite pretty_N_go_step by lia. by apply pretty_N_go_nonempty.
Qed.

Lemma from_str_radix_digits (radix modulus : N) (s : string) :
  s <> "" -> str_all (fun a => negb (bool_decide (a = "+"%char))) s = true ->
  from_str_radix radix modulus s = radix_digits radix modulus 0 s.
Proof.
  destruct s as [|a s]; [done|]. intros _ H. cbn in H.
  apply andb_true_iff in H as [H _].
  apply negb_true_iff, bool_decide_eq_false in H.
  destruct a as [[] [] [] [] [] [] [] []]; try reflexivity; by destruct H.
Qed.

Lemma str_all_impl (f g : Ascii.ascii -> bool) (s : string) :
  (forall a, f a = true -> g a = true) -> str_all f s = true -> str_all g s = true.
Proof.
  intros Hfg. induction s as [|a s IH]; cbn; [done|].
  intros [Ha Hs]%andb_true_iff. rewrite (Hfg _ Ha). by apply IH.
Qed.

Lemma is_digit_not (c a : Ascii.ascii) :
  is_digit c = false -> is_digit a = true -> negb (bool_decide (a = c)) = true.
Proof. intros Hc Ha. apply negb_true_iff, bool_decide_eq_false. congruence. Qed.

(** Every number of a width is read back from its decimal text. *)
Lemma from_str_radix_show (modulus n : N) : n < modulus -> from_str_radix 10 modulus (show_N n) = Some n.
Proof.
  intros Hn. rewrite from_str_radix_digits.
  - unfold show_N, pretty, pretty_N. destruct (decide (n = 0)) as [->|]; [|by rewrite radix_digits_show].
    change (radix_digits _ _ _ _) with (if decide (0 * 10 + 0 < modulus) then Some (0 * 10 + 0) else None). by rewrite decide_True.
  - apply show_N_nonempty.
  - eapply str_all_impl, show_N_digits. intros a. by apply is_digit_not.
Qed.
Lemma parse_u64_show (n : N) : n < u64_modulus -> parse_u64 (show_N n) = Some n.
Proof. apply from_str_radix_show. Qed.

Definition is_lower_hex (a : Ascii.ascii) : bool :=
  is_digit a || bool_decide (97 <= Ascii.N_of_ascii a /\ Ascii.N_of_ascii a <= 102).

Lemma nibble_hex (n : N) :
  n < 16 -> digit_value (nibble n) = Some n /\ is_lower_hex (nibble n) = true.
Proof.
  intros H. assert (forall k, (k < 16)%nat -> digit_value (nibble (N.of_nat k)) = Some (N.of_nat k)
    /\ is_lower_hex (nibble (N.of_nat k)) = true) as Hk.
  { intros k Hk. do 16 (destruct k as [|k]; [by vm_compute|]). lia. }
  specialize (Hk (N.to_nat n)). rewrite N2Nat.id in Hk. apply Hk. lia.
Qed.

Lemma lower_hex_nibble (a : Ascii.ascii) :
  is_lower_hex a = true ->
  exists d, digit_value a = Some d /\ d < 16 /\ nibble d = a.
Proof.
  destruct a as [[] [] [] [] [] [] [] []]; vm_compute; intros H; try discriminate H; eauto.
Qed.

Lemma hex_fixed_length (w : nat) (n : N) : String.length (hex_fixed w n) = w.
Proof.
  revert n; induction w as [|w IH]; intros n; cbn; [done|].
  rewrite string_length_app, IH; cbn; lia.
Qed.

Lemma hex_fixed_lower (w : nat) (n : N) : str_all is_lower_hex (hex_fixed w n) = true.
Proof.
  revert n; induction w as [|w IH]; intros n; cbn; [done|].
  rewrite str_all_app, IH; cbn. rewrite andb_true_r.
  apply nibble_hex, N.mod_lt; lia.
Qed.

Lemma radix_digits_app (radix modulus acc : N) (a b : string) :
  radix_digits radix modulus acc (a +:+ b) =
    radix_digits radix modulus acc a ≫= fun acc' => radix_digits radix modulus acc' b.
Proof.
  revert acc; induction a as [|x a IH]; intros acc; [done|].
  rewrite string_app_cons; cbn [radix_digits].
  destruct (digit_value x) as [d|]; cbn; [|done].
  do 2 (case_decide; [|done]). apply IH.
Qed.

Lemma radix_digits_hex (modulus : N) (w : nat) (n : N) :
  n < 16 ^ N.of_nat w -> n < modulus ->
  radix_digits 16 modulus 0 (hex_fixed w n) = Some n.
Proof.
  revert n; induction w as [|w IH]; intros n Hn Hm; cbn [hex_fixed].
  { cbn in Hn |- *. f_equal; lia. }
  rewrite Nat2N.inj_succ, N.pow_succ_r' in Hn.
  div_facts n 16.
  assert (Hv : n / 16 * 16 + n mod 16 = n) by lia.
  rewrite radix_digits_app, IH by lia.
  cbn [radix_digits mbind option_bind]. rewrite (proj1 (nibble_hex _ H)).
  cbn [mbind option_bind]. rewrite decide_True by done.
  rewrite Hv. by rewrite decide_True.
Qed.

(** The most significant nibble stands first. *)
Lemma hex_fixed_head (w : nat) (n : N) :
  hex_fixed (S w) n = String (nibble (n / 16 ^ N.of_nat w mod 16)) (hex_fixed w n).
Proof.
  revert n; induction w as [|w IH]; intros n.
  { cbn. by rewrite N.div_1_r. }
  change (hex_fixed (S (S w)) n)
    with (hex_fixed (S w) (n / 16) +:+ String (nibble (n mod 16)) EmptyString).
  rewrite IH, string_app_cons. f_equal.
  rewrite N.Div0.div_div, Nat2N.inj_succ, N.pow_succ_r'. done.
Qed.

Lemma radix_digits_value (modulus acc : N) (s : string) (n : N) :
  str_all is_lower_hex s = true ->
  radix_digits 16 modulus acc s = Some n ->
  hex_fixed (String.length s) n = s
  /\ n / 16 ^ N.of_nat (String.length s) = acc.
Proof.
  revert acc; induction s as [|a s IH]; intros acc Hs Hr.
  { cbn in *. injection Hr as ->. by rewrite N.div_1_r. }
  cbn [str_all] in Hs. apply andb_true_iff in Hs as [Ha Hs].
  destruct (lower_hex_nibble _ Ha) as (d & Hd & Hd16 & Hn).
  cbn [radix_digits] in Hr. rewrite Hd in Hr. cbn in Hr.
  rewrite decide_True in Hr by done. case_decide; [|done].
  destruct (IH _ Hs Hr) as [IH1 IH2]. cbn [String.length].
  rewrite hex_fixed_head, IH1, IH2.
  rewrite Nat2N.inj_succ, N.pow_succ_r', (N.mul_comm 16), <- N.Div0.div_div, IH2.
  rewrite N.mul_comm, N.add_comm.
  rewrite (N.mul_comm 16 acc), N.Div0.mod_add, N.mod_small by done.
  rewrite N.div_add, N.div_small by lia. by rewrite Hn.
Qed.

Lemma show_N_inj (n m : N) : show_N n = show_N m -> n = m.
Proof. apply (inj pretty). Qed.

Lemma radix_digits_bound (radix modulus acc : N) (s : string) (n : N) :
  acc < modulus -> radix_digits radix modulus acc s = Some n -> n < modulus.
Proof.
  revert acc; induction s as [|a s IH]; intros acc Ha; cbn.
  { by intros [= <-]. }
  destruct (digit_value a); cbn; [|done].
  do 2 (case_decide; [|done]). by apply IH.
Qed.

(** ** Panics

    A computation that can hit an [expect], [unwrap] or [unreachable!]. *)
Inductive outcome (A : Type) : Type :=
| Return (a : A)
| Panicked (message : string).
Arguments Return {A} a.
Arguments Panicked {A} message.

(** ** Maps that keep the order of insertion *)

(** [IndexMap::insert]: a known key keeps its place. *)
Fixpoint index_insert {A} (key : string) (value : A) (m : list (string * A)) : list (string * A) :=
  match m with
  | [] => [(key, value)]
  | (k, v) :: m => if decide (k = key) then (k, value) :: m else (k, v) :: index_insert key value m
  end.

Lemma index_insert_keys {A} key (value : A) m k : k ∈ map fst (index_insert key value m) <-> k = key \/ k ∈ map fst m.
Proof.
  induction m as [|[k' v'] m IH]; cbn [index_insert map fst]; [by rewrite list_elem_of_singleton, elem_of_nil; naive_solver|].
  case_decide as Heq; cbn [map fst]; rewrite !elem_of_cons; [|rewrite IH]; subst; tauto.
Qed.
Lemma index_insert_nodup {A} key (value : A) m : NoDup (map fst m) -> NoDup (map fst (index_insert key value m)).
Proof.
  induction m as [|[k v] m IH]; cbn [index_insert map fst]; [intros _; apply NoDup_singleton|].
  intros [Hnew Hnd]%NoDup_cons; case_decide as Heq; cbn [map fst]; apply NoDup_cons; [done|].
  split; [|by apply IH]. rewrite index_insert_keys; intros [|]; congruence.
Qed.
