(* ===== verification/Text.v ===== *)
(** * Text

    Strings of the model are byte strings; a Rust [str] is one that is valid
    UTF-8.  This file has the validity check, the character boundaries that
    slicing needs, and the white space functions of [str], which the components
    that handle text share. *)

From S2P Require Export Prelude.
Open Scope rust_scope.

(** ** UTF-8 *)

(** A byte [10xxxxxx]. *)
Definition is_continuation (a : Ascii.ascii) : bool :=
  bool_decide (128 <= Ascii.N_of_ascii a /\ Ascii.N_of_ascii a < 192).

Definition in_range (lo hi : N) (a : Ascii.ascii) : bool :=
  (lo <=? Ascii.N_of_ascii a) && (Ascii.N_of_ascii a <=? hi).

(** The encodings of one character, by their length. *)
Definition utf8_1 (a : Ascii.ascii) : bool := in_range 0 127 a.
Definition utf8_2 (a b : Ascii.ascii) : bool := in_range 194 223 a && in_range 128 191 b.
Definition utf8_3 (a b c : Ascii.ascii) : bool :=
  ((in_range 224 224 a && in_range 160 191 b) || (in_range 225 236 a && in_range 128 191 b)
   || (in_range 237 237 a && in_range 128 159 b) || (in_range 238 239 a && in_range 128 191 b))
  && in_range 128 191 c.
Definition utf8_4 (a b c d : Ascii.ascii) : bool :=
  ((in_range 240 240 a && in_range 144 191 b) || (in_range 241 243 a && in_range 128 191 b)
   || (in_range 244 244 a && in_range 128 143 b))
  && in_range 128 191 c && in_range 128 191 d.

(** The check of [String::from_utf8]. *)
Fixpoint utf8_valid (s : string) : bool :=
  match s with
  | EmptyString => true
  | String a s1 =>
      if utf8_1 a then utf8_valid s1
      else match s1 with
      | String b s2 =>
          if utf8_2 a b then utf8_valid s2
          else match s2 with
          | String c s3 =>
              if utf8_3 a b c then utf8_valid s3
              else match s3 with
              | String d s4 => utf8_4 a b c d && utf8_valid s4
              | EmptyString => false
              end
          | EmptyString => false
          end
      | EmptyString => false
      end
  end.

Definition utf8_char (c : string) : bool :=
  match c with
  | String a "" => utf8_1 a
  | String a (String b "") => utf8_2 a b
  | String a (String b (String c "")) => utf8_3 a b c
  | String a (String b (String c (String d ""))) => utf8_4 a b c d
  | _ => false
  end.

(** Valid text is a sequence of encoded characters. *)
Inductive Utf8 : string -> Prop :=
| Utf8_nil : Utf8 ""
| Utf8_char c rest : utf8_char c = true -> Utf8 rest -> Utf8 (c +:+ rest).

(** ** Character boundaries *)

(** [str::is_char_boundary]. *)
Definition is_char_boundary (s : string) (index : nat) : bool :=
  match index with
  | O => true
  | _ =>
      match String.get index s with
      | Some a => negb (is_continuation a)
      | None => (index =? String.length s)%nat
      end
  end.

(** The loop [while !text.is_char_boundary(end) { end -= 1; }]. *)
Fixpoint floor_boundary (s : string) (end_ : nat) : nat :=
  if is_char_boundary s end_ then end_
  else match end_ with O => O | S end' => floor_boundary s end' end.

Fixpoint str_drop (n : nat) (s : string) : string :=
  match n, s with
  | S n', String _ s' => str_drop n' s'
  | _, _ => s
  end.

(** [str::get(..n)] and [str::get(n..)]. *)
Definition get_to (n : nat) (s : string) : option string :=
  if is_char_boundary s n then Some (String.substring 0 n s) else None.
Definition get_from (n : nat) (s : string) : option string :=
  if is_char_boundary s n then Some (str_drop n s) else None.

(** ** White space *)

(** The length of the white space character a text starts with
    ([char::is_whitespace], in UTF-8).  No white space character starts with a
    continuation byte, so looking at every byte finds what looking at every
    character finds. *)
Definition whitespace_1 (a : N) : bool := bool_decide (9 <= a <= 13 \/ a = 32).
Definition whitespace_2 (a b : N) : bool := bool_decide (a = 194 /\ (b = 133 \/ b = 160)).
Definition whitespace_3 (a b c : N) : bool :=
  bool_decide ((a = 225 /\ b = 154 /\ c = 128) \/ (a = 227 /\ b = 128 /\ c = 128)
               \/ (a = 226 /\ b = 129 /\ c = 159)
               \/ (a = 226 /\ b = 128 /\ (128 <= c <= 138 \/ c = 168 \/ c = 169 \/ c = 175))).
Definition whitespace_bytes (bytes : list N) : option nat :=
  match bytes with
  | [] => None
  | a :: bytes =>
      if whitespace_1 a then Some 1%nat
      else match bytes with
      | [] => None
      | b :: bytes =>
          if whitespace_2 a b then Some 2%nat
          else match bytes with
          | [] => None
          | c :: _ => if whitespace_3 a b c then Some 3%nat else None
          end
      end
  end.
Definition whitespace_prefix (s : string) : option nat :=
  whitespace_bytes (map Ascii.N_of_ascii (String.list_ascii_of_string (String.substring 0 3 s))).

(** [str::find(char::is_whitespace)] and [rfind]. *)
Fixpoint find_whitespace (s : string) : option nat :=
  match whitespace_prefix s, s with
  | Some _, _ => Some 0%nat
  | None, String _ s' => S <$> find_whitespace s'
  | None, EmptyString => None
  end.
Fixpoint rfind_whitespace (s : string) : option nat :=
  match s with
  | EmptyString => None
  | String _ s' =>
      match rfind_whitespace s' with
      | Some n => Some (S n)
      | None => (fun _ => 0%nat) <$> whitespace_prefix s
      end
  end.

(** [str::trim_start]; [skip] is the rest of a white space character. *)
Fixpoint trim_whitespace_start (skip : nat) (s : string) : string :=
  match s with
  | EmptyString => EmptyString
  | String _ s' =>
      match skip with
      | S skip' => trim_whitespace_start skip' s'
      | O =>
          match whitespace_prefix s with
          | Some n => trim_whitespace_start (Nat.pred n) s'
          | None => s
          end
      end
  end.
Fixpoint trim_whitespace_end (s : string) : string :=
  match s with
  | EmptyString => EmptyString
  | String a s' =>
      if decide (trim_whitespace_start 0 s = "") then EmptyString else String a (trim_whitespace_end s')
  end.
(** [str::trim]. *)
Definition trim (s : string) : string := trim_whitespace_end (trim_whitespace_start 0 s).

(** [split_whitespace]; [cur] is the word being read and [skip] the rest of a
    white space character. *)
Fixpoint split_words (cur : string) (skip : nat) (s : string) : list string :=
  let flush := if decide (cur = "") then [] else [cur] in
  match s with
  | EmptyString => flush
  | String a s' =>
      match skip with
      | S skip' => split_words cur skip' s'
      | O =>
          match whitespace_prefix s with
          | Some n => flush ++ split_words "" (Nat.pred n) s'
          | None => split_words (cur +:+ String a "") 0 s'
          end
      end
  end.
Definition split_whitespace (s : string) : list string := split_words "" 0 s.

(** [u8::is_ascii_whitespace]. *)
Definition is_ascii_whitespace (a : Ascii.ascii) : bool :=
  match Ascii.N_of_ascii a with 9 | 10 | 12 | 13 | 32 => true | _ => false end.

(** [str::lines]. *)
Definition newline : Ascii.ascii := Ascii.ascii_of_N 10.
Fixpoint split_lines (cur : string) (s : string) : list string :=
  match s with
  | EmptyString => if decide (cur = "") then [] else [cur]
  | String a s' =>
      if decide (a = newline)
      then default cur (strip_suffix (String (Ascii.ascii_of_N 13) "") cur) :: split_lines "" s'
      else split_lines (cur +:+ String a "") s'
  end.
Definition str_lines (s : string) : list string := split_lines "" s.

(** ** Lemmas on UTF-8 *)

Lemma in_range_spec (lo hi : N) (a : Ascii.ascii) :
  in_range lo hi a = true <-> lo <= Ascii.N_of_ascii a <= hi.
Proof. unfold in_range. rewrite andb_true_iff, !N.leb_le. lia. Qed.

Ltac utf8_facts :=
  unfold utf8_1, utf8_2, utf8_3, utf8_4 in *;
  repeat match goal with
  | H : _ && _ = true |- _ => apply andb_true_iff in H as [? ?]
  | H : _ || _ = true |- _ => apply orb_true_iff in H as [?|?]
  | H : in_range _ _ _ = true |- _ => apply in_range_spec in H
  end.

Lemma continuation_range (a : Ascii.ascii) : 128 <= Ascii.N_of_ascii a <= 191 -> is_continuation a = true.
Proof. intros. apply bool_decide_eq_true. lia. Qed.
Lemma lead_range (a : Ascii.ascii) : Ascii.N_of_ascii a < 128 \/ 192 <= Ascii.N_of_ascii a -> is_continuation a = false.
Proof. intros. apply bool_decide_eq_false. lia. Qed.

(** A character is one lead byte and at most three continuations. *)
Lemma utf8_char_shape (c : string) :
  utf8_char c = true ->
  exists lead conts, c = String lead conts /\ is_continuation lead = false
    /\ (String.length conts <= 3)%nat /\ str_all is_continuation conts = true.
Proof.
  destruct c as [|a [|b [|c [|d [|e c']]]]]; cbn; intros H; try done; utf8_facts;
    (eexists _, _; split; [done|]; split; [apply lead_range; lia|]; split; [cbn; lia|]; cbn;
     rewrite ?continuation_range by lia; done).
Qed.

Lemma utf8_valid_char (c rest : string) : utf8_char c = true -> utf8_valid (c +:+ rest) = utf8_valid rest.
Proof.
  destruct c as [|a [|b [|c [|d [|e c']]]]]; cbn [utf8_char]; intros H; try done;
    rewrite ?string_app_cons, ?string_app_nil_l; cbn [utf8_valid]; rewrite ?H; try done.
  all: assert (utf8_1 a = false) as -> by (apply not_true_iff_false; intros ?; utf8_facts; lia).
  - done.
  - assert (utf8_2 a b = false) as -> by (apply not_true_iff_false; intros ?; utf8_facts; lia). done.
  - assert (utf8_2 a b = false) as -> by (apply not_true_iff_false; intros ?; utf8_facts; lia).
    assert (utf8_3 a b c = false) as -> by (apply not_true_iff_false; intros ?; utf8_facts; lia). done.
Qed.

Lemma utf8_valid_Utf8 (s : string) : utf8_valid s = true <-> Utf8 s.
Proof.
  split.
  - revert s. fix IH 1. intros [|a s1]; [constructor|]. cbn [utf8_valid].
    destruct (utf8_1 a) eqn:E1; [intros H; apply (Utf8_char (String a "") s1 E1 (IH s1 H))|].
    destruct s1 as [|b s2]; [done|].
    destruct (utf8_2 a b) eqn:E2; [intros H; apply (Utf8_char (String a (String b "")) s2 E2 (IH s2 H))|].
    destruct s2 as [|c s3]; [done|].
    destruct (utf8_3 a b c) eqn:E3;
      [intros H; apply (Utf8_char (String a (String b (String c ""))) s3 E3 (IH s3 H))|].
    destruct s3 as [|d s4]; [done|].
    destruct (utf8_4 a b c d) eqn:E4; [|done]. intros H.
    apply (Utf8_char (String a (String b (String c (String d "")))) s4 E4 (IH s4 H)).
  - induction 1 as [|c rest Hc _ IH]; [done|]. by rewrite utf8_valid_char.
Qed.

Lemma Utf8_app (a b : string) : Utf8 a -> Utf8 b -> Utf8 (a +:+ b).
Proof.
  induction 1 as [|c rest Hc _ IH]; intros Hb; [done|]. rewrite <- string_app_assoc. constructor; auto.
Qed.

Lemma Utf8_ascii (a : Ascii.ascii) (s : string) : utf8_1 a = true -> Utf8 s -> Utf8 (String a s).
Proof. intros Ha. by apply (Utf8_char (String a "")). Qed.

(** ** Lemmas on boundaries *)

Lemma string_get_app (a b : string) (n : nat) :
  String.get (String.length a + n) (a +:+ b) = String.get n b.
Proof. induction a as [|x a IH]; [done|]. rewrite string_app_cons. exact IH. Qed.

Lemma substring_app_0 (a b : string) : String.substring 0 (String.length a) (a +:+ b) = a.
Proof.
  induction a as [|x a IH]; cbn.
  - by destruct b.
  - rewrite string_app_cons. cbn. by rewrite IH.
Qed.

Lemma substring_split (s : string) (n : nat) :
  (n <= String.length s)%nat ->
  exists rest, s = String.substring 0 n s +:+ rest /\ String.length (String.substring 0 n s) = n.
Proof.
  revert n; induction s as [|x s IH]; intros [|n] Hn; cbn in *; try lia.
  - by exists "".
  - by exists (String x s).
  - destruct (IH n ltac:(lia)) as (rest & Hs & Hl). exists rest.
    rewrite string_app_cons, <- Hs, Hl. done.
Qed.

Lemma floor_boundary_spec (s : string) (n : nat) :
  (floor_boundary s n <= n)%nat /\ is_char_boundary s (floor_boundary s n) = true
  /\ forall k, (floor_boundary s n < k <= n)%nat -> is_char_boundary s k = false.
Proof.
  induction n as [|n IH]; cbn [floor_boundary].
  - cbn. split; [done|]. split; [done|]. lia.
  - destruct (is_char_boundary s (S n)) eqn:E.
    + split; [done|]. split; [done|]. lia.
    + destruct IH as (IH1 & IH2 & IH3). split; [lia|]. split; [done|]. intros k Hk.
      destruct (decide (k = S n)) as [->|]; [done|]. apply IH3. lia.
Qed.

Lemma boundary_shift (a b : string) (n : nat) :
  b <> "" -> is_char_boundary (a +:+ b) (String.length a + S n) = is_char_boundary b (S n).
Proof.
  intros Hb. rewrite Nat.add_succ_r. unfold is_char_boundary. rewrite <- Nat.add_succ_r, string_get_app.
  destruct (String.get (S n) b); [done|]. rewrite string_length_app.
  destruct (Nat.eqb_spec (S n) (String.length b)) as [->|Hne]; [apply Nat.eqb_refl|].
  apply Nat.eqb_neq. lia.
Qed.

(** The prefix of a text up to a character boundary is a text, and the
    boundaries before an index are at most three bytes away. *)
Lemma Utf8_boundary (s : string) :
  Utf8 s -> forall n, (n <= String.length s)%nat ->
  (is_char_boundary s n = true -> Utf8 (String.substring 0 n s))
  /\ exists k, (k <= n)%nat /\ (n <= k + 3)%nat /\ is_char_boundary s k = true.
Proof.
  induction 1 as [|c rest Hchar Hrest IH]; intros n Hn.
  { cbn in Hn. assert (n = 0%nat) as -> by lia. split; [intros _; constructor|]. exists 0%nat; split; [lia|split; [lia|done]]. }
  destruct (utf8_char_shape c Hchar) as (lead & conts & Hceq & Hlead & Hlen & Hconts).
  assert (String.length c = S (String.length conts)) as Hc by (by rewrite Hceq).
  destruct (decide (n = 0%nat)) as [->|Hn0].
  { split; [intros _|exists 0%nat; split; [lia|split; [lia|done]]]. destruct (c +:+ rest); constructor. }
  destruct (decide (String.length c <= n)%nat) as [Hge|Hlt].
  - rewrite string_length_app in Hn. destruct (IH (n - String.length c)%nat ltac:(lia)) as [IHu (k & Hk1 & Hk2 & Hk3)].
    destruct (decide (n = String.length c)) as [->|Hne].
    + split.
      * intros _. rewrite substring_app_0. rewrite <- (string_app_nil_r c). constructor; [done|constructor].
      * exists (String.length c). split; [done|]. split; [lia|].
        rewrite Hc. unfold is_char_boundary. rewrite <- Hc.
        rewrite <- (Nat.add_0_r (String.length c)), string_get_app, Nat.add_0_r.
        destruct Hrest as [|c' r (l & cs & -> & Hl & _)%utf8_char_shape _]; rewrite ?string_app_cons; cbn; [|by rewrite Hl].
        rewrite string_app_nil_r. apply Nat.eqb_refl.
    + assert (n = String.length c + S (n - String.length c - 1))%nat as Hn' by lia.
      assert (rest <> "") as Hr by (intros ->; cbn in Hn; lia).
      split.
      * intros Hb. rewrite Hn', boundary_shift in Hb by done.
        replace (S (n - String.length c - 1)) with (n - String.length c)%nat in Hb by lia.
        specialize (IHu Hb).
        destruct (substring_split rest (n - String.length c) ltac:(lia)) as (tl & Htl & Hlen').
        assert (String.substring 0 n (c +:+ rest) = c +:+ String.substring 0 (n - String.length c) rest) as ->.
        { rewrite Htl at 1. rewrite string_app_assoc.
          replace n with (String.length (c +:+ String.substring 0 (n - String.length c) rest)) at 1
            by (rewrite string_length_app; lia).
          by rewrite substring_app_0. }
        by constructor.
      * destruct k as [|k].
        { exists (String.length c). split; [lia|]. split; [lia|].
          rewrite Hc. unfold is_char_boundary. rewrite <- Hc.
          rewrite <- (Nat.add_0_r (String.length c)), string_get_app, Nat.add_0_r.
          destruct Hrest as [|c' r (l & cs & -> & Hl & _)%utf8_char_shape _]; rewrite ?string_app_cons; cbn; [done|by rewrite Hl]. }
        exists (String.length c + S k)%nat. split; [lia|]. split; [lia|]. by rewrite boundary_shift.
  - split; [|exists 0%nat; split; [lia|split; [lia|done]]]. intros Hb. exfalso.
    destruct n as [|n]; [done|]. unfold is_char_boundary in Hb.
    assert (forall m, (m < String.length conts)%nat ->
      exists a, String.get m (conts +:+ rest) = Some a /\ is_continuation a = true) as Hget.
    { clear -Hconts. induction conts as [|x conts IHc]; intros m Hm; cbn in Hm; [lia|].
      cbn in Hconts. apply andb_true_iff in Hconts as [Hx Hconts]. rewrite string_app_cons.
      destruct m as [|m]; cbn; [by eexists|]. apply IHc; [done|lia]. }
    destruct (Hget n ltac:(lia)) as (a & Ha & Hca).
    rewrite Hceq in Hb. change (String.get (S n) (String lead conts +:+ rest)) with (String.get n (conts +:+ rest)) in Hb.
    rewrite Ha, Hca in Hb. done.
Qed.
