(* ===== verification/Types.v ===== *)
(** * Shared vocabulary of the core manager

    The data types every component exchanges: epochs ([epoch.rs]), core kinds
    and error kinds ([chimera-core-metadata]), launch specifications
    ([spec.rs]), the instance and manager state machines ([state.rs]) and the
    domain error with its classification ([error.rs]). *)

From S2P Require Export Prelude.

(** ** Epochs ([epoch.rs]) *)

(** A [NonZeroU64]: never zero by construction. *)
Definition Epoch := positive.

Definition Epoch_new (value : N) : option Epoch :=
  match value with N0 => None | Npos p => Some p end.
Definition Epoch_get (e : Epoch) : N := Npos e.
Definition Epoch_fmt (e : Epoch) : string := show_N (Epoch_get e).

(** ** Core kinds ([chimera-core-metadata/src/kind.rs]) *)

(** [ClashCoreKind], which the manager imports as its [CoreKind]. *)
Inductive CoreKind := Mihomo | ClashRust | ClashPremium | Meow | ChimeraClient.
#[export] Instance CoreKind_eq_dec : EqDecision CoreKind.
Proof. solve_decision. Defined.

Definition CoreKind_as_ref (k : CoreKind) : string :=
  match k with
  | Mihomo => "mihomo"
  | ClashRust => "clash-rs"
  | ClashPremium => "clash"
  | Meow => "meow"
  | ChimeraClient => "chimera-client"
  end.

(** ** Error kinds ([chimera-core-metadata/src/error_kind.rs]) *)

Inductive CoreErrorKind :=
| KNotStarted | KAlreadyRunning | KRevisionConflict | KQuarantined
| KConfigCheckFailed | KConfigNotFound | KBinaryNotFound | KInvalidConfig
| KControllerMissing | KApplyFailed | KApplyRollbackFailed | KStopUnconfirmed
| KNativeStoreUnavailable | KShuttingDown | KQueueFull | KOperationConflict
| KBackendUnavailable | KInternal.
#[export] Instance CoreErrorKind_eq_dec : EqDecision CoreErrorKind.
Proof. solve_decision. Defined.

Definition CoreErrorKind_ALL : list CoreErrorKind :=
  [KNotStarted; KAlreadyRunning; KRevisionConflict; KQuarantined;
   KConfigCheckFailed; KConfigNotFound; KBinaryNotFound; KInvalidConfig;
   KControllerMissing; KApplyFailed; KApplyRollbackFailed; KStopUnconfirmed;
   KNativeStoreUnavailable; KShuttingDown; KQueueFull; KOperationConflict;
   KBackendUnavailable; KInternal].

Definition CoreErrorKind_as_str (k : CoreErrorKind) : string :=
  match k with
  | KNotStarted => "not_started"
  | KAlreadyRunning => "already_running"
  | KRevisionConflict => "revision_conflict"
  | KQuarantined => "quarantined"
  | KConfigCheckFailed => "config_check_failed"
  | KConfigNotFound => "config_not_found"
  | KBinaryNotFound => "binary_not_found"
  | KInvalidConfig => "invalid_config"
  | KControllerMissing => "controller_missing"
  | KApplyFailed => "apply_failed"
  | KApplyRollbackFailed => "apply_rollback_failed"
  | KStopUnconfirmed => "stop_unconfirmed"
  | KNativeStoreUnavailable => "native_store_unavailable"
  | KShuttingDown => "shutting_down"
  | KQueueFull => "queue_full"
  | KOperationConflict => "operation_conflict"
  | KBackendUnavailable => "backend_unavailable"
  | KInternal => "internal"
  end.

Definition default_retryable (k : CoreErrorKind) : bool :=
  match k with KQueueFull | KBackendUnavailable => true | _ => false end.

Definition CoreErrorKind_from_wire (value : string) : option CoreErrorKind :=
  List.find (fun kind => bool_decide (CoreErrorKind_as_str kind = value)) CoreErrorKind_ALL.

(** ** Launch specifications ([spec.rs]) *)

Record CoreSpec := {
  cs_kind : CoreKind;
  cs_binary_path : string;
  cs_version : option string;
  cs_features : list string;
}.
#[export] Instance CoreSpec_eq_dec : EqDecision CoreSpec.
Proof. solve_decision. Defined.

Inductive LocalIpcPolicy := Force | Prefer | Disable.
#[export] Instance LocalIpcPolicy_eq_dec : EqDecision LocalIpcPolicy.
Proof. solve_decision. Defined.

Record LocalIpcSettings := {
  li_policy : LocalIpcPolicy;
  li_keep_http_controller : bool;
}.
#[export] Instance LocalIpcSettings_eq_dec : EqDecision LocalIpcSettings.
Proof. solve_decision. Defined.

Inductive RestartPolicy := Never | OnFailure (max_restarts : N).
#[export] Instance RestartPolicy_eq_dec : EqDecision RestartPolicy.
Proof. solve_decision. Defined.

Record Backoff := { bo_initial : Duration; bo_max : Duration; bo_jitter : bool }.
#[export] Instance Backoff_eq_dec : EqDecision Backoff.
Proof. solve_decision. Defined.

(** [HealthPolicy]; the thresholds are [NonZeroU32]. *)
Record HealthPolicy := {
  hp_interval : Duration;
  hp_timeout : Duration;
  hp_failure_threshold : positive;
  hp_success_threshold : positive;
  hp_start_period : Duration;
}.
#[export] Instance HealthPolicy_eq_dec : EqDecision HealthPolicy.
Proof. solve_decision. Defined.

Record InstanceOptions := {
  io_local_ipc : option LocalIpcSettings;
  io_startup_timeout : Duration;
  io_health : HealthPolicy;
  io_restart_policy : RestartPolicy;
  io_backoff : Backoff;
}.
#[export] Instance InstanceOptions_eq_dec : EqDecision InstanceOptions.
Proof. solve_decision. Defined.

Record InstanceSpec := {
  is_core : CoreSpec;
  is_config_path : string;
  is_working_dir : string;
  is_pid_file : option string;
  is_options : InstanceOptions;
}.
#[export] Instance InstanceSpec_eq_dec : EqDecision InstanceSpec.
Proof. solve_decision. Defined.

Definition with_config_path (path : string) (s : InstanceSpec) : InstanceSpec :=
  {| is_core := is_core s; is_config_path := path; is_working_dir := is_working_dir s;
     is_pid_file := is_pid_file s; is_options := is_options s |}.
Definition with_working_dir (dir : string) (s : InstanceSpec) : InstanceSpec :=
  {| is_core := is_core s; is_config_path := is_config_path s; is_working_dir := dir;
     is_pid_file := is_pid_file s; is_options := is_options s |}.
Definition with_pid_file (p : option string) (s : InstanceSpec) : InstanceSpec :=
  {| is_core := is_core s; is_config_path := is_config_path s;
     is_working_dir := is_working_dir s; is_pid_file := p; is_options := is_options s |}.

(** [clash_api::Host]; an HTTP endpoint is kept as the text of its URL. *)
Inductive Host := NamedPipe (path : string) | UnixSocket (path : string) | Http (url : string).
#[export] Instance Host_eq_dec : EqDecision Host.
Proof. solve_decision. Defined.

Record ResolvedController := { rc_host : Host; rc_secret : option string }.
#[export] Instance ResolvedController_eq_dec : EqDecision ResolvedController.
Proof. solve_decision. Defined.

(** The cancellation token and the Windows shutdown helper only reach code that
    is not modelled. *)
Record ManagerOptions := {
  mo_runtime_dir : option string;
  mo_local_ipc_policy : LocalIpcPolicy;
  mo_controller_template : option string;
  mo_controller_dir : option string;
  mo_control_timeout : Duration;
  mo_reconcile_timeout : Duration;
  mo_stop_timeout : Duration;
  mo_dns_timeout : Duration;
  mo_log_sink_enabled : bool;
  mo_log_max_bytes : N;
  mo_log_max_files : N;
}.

Definition ManagerOptions_default : ManagerOptions :=
  {| mo_runtime_dir := None;
     mo_local_ipc_policy := Disable;
     mo_controller_template := None;
     mo_controller_dir := None;
     mo_control_timeout := duration_from_secs 10;
     mo_reconcile_timeout := duration_from_secs 30;
     mo_stop_timeout := duration_from_secs 10;
     mo_dns_timeout := duration_from_secs 10;
     mo_log_sink_enabled := true;
     mo_log_max_bytes := 4 * 1024 * 1024;
     mo_log_max_files := 5 |}.

(** ** Capabilities *)

Inductive Feature :=
| NamedPipeIpc | UnixSocketIpc | DisableTcpController | NamedPipeSecurityDescriptor.
#[export] Instance Feature_eq_dec : EqDecision Feature.
Proof. solve_decision. Defined.

Inductive RuntimeFeature := LocalIpc.
#[export] Instance RuntimeFeature_eq_dec : EqDecision RuntimeFeature.
Proof. solve_decision. Defined.

(** ** State machines ([state.rs]) *)

Inductive HealthState := HStarting | HHealthy | HUnhealthy.
#[export] Instance HealthState_eq_dec : EqDecision HealthState.
Proof. solve_decision. Defined.

Record HealthStatus := {
  hs_state : HealthState;
  hs_changed_at : Z;
  hs_consecutive_failures : N;
  hs_last_error : option string;
  hs_last_success_at : option Z;
}.
#[export] Instance HealthStatus_eq_dec : EqDecision HealthStatus.
Proof. solve_decision. Defined.

Definition HealthStatus_starting (now_ms : Z) : HealthStatus :=
  {| hs_state := HStarting; hs_changed_at := now_ms; hs_consecutive_failures := 0;
     hs_last_error := None; hs_last_success_at := None |}.

Inductive StopReason := Finished | User | StopError (message : string).
#[export] Instance StopReason_eq_dec : EqDecision StopReason.
Proof. solve_decision. Defined.

Definition StopReason_fmt (r : StopReason) : string :=
  match r with
  | Finished => "core exited"
  | User => "stopped by user"
  | StopError message => message
  end.

Inductive InstanceState :=
| IStarting
| IRunning (pid : N)
| IRestarting (attempt : N)
| IStopping
| IStopped (reason : StopReason).
#[export] Instance InstanceState_eq_dec : EqDecision InstanceState.
Proof. solve_decision. Defined.

Definition is_terminal (s : InstanceState) : bool :=
  match s with IStopped _ => true | _ => false end.

(** A process identity ([uuid::Uuid]), as its 128-bit value. *)
Definition Uuid := N.

Record InstanceStatus := {
  ist_instance_id : option Uuid;
  ist_state : InstanceState;
  ist_health : option HealthStatus;
}.
#[export] Instance InstanceStatus_eq_dec : EqDecision InstanceStatus.
Proof. solve_decision. Defined.

Definition InstanceStatus_initial (now_ms : Z) : InstanceStatus :=
  {| ist_instance_id := None; ist_state := IStarting;
     ist_health := Some (HealthStatus_starting now_ms) |}.

Inductive CoreState :=
| CStopped (reason : option StopReason)
| CStarting (epoch : Epoch)
| CRunning (epoch : Epoch) (pid : N)
| CRestarting (epoch : Epoch) (attempt : N)
| CSwitching (from : option Epoch) (to : Epoch)
| CStopping (epoch : Epoch).
#[export] Instance CoreState_eq_dec : EqDecision CoreState.
Proof. solve_decision. Defined.

Record SpecSummary := {
  ss_kind : CoreKind;
  ss_config_path : string;
  ss_capabilities : list Feature;
  ss_runtime_features : list RuntimeFeature;
}.
#[export] Instance SpecSummary_eq_dec : EqDecision SpecSummary.
Proof. solve_decision. Defined.

Record ConfigRevision := {
  cr_epoch : Epoch;
  cr_generation : N;
  cr_source_hash : string;
  cr_effective_hash : string;
  cr_runtime_path : string;
}.
#[export] Instance ConfigRevision_eq_dec : EqDecision ConfigRevision.
Proof. solve_decision. Defined.

Record RevisionId := {
  rid_epoch : Epoch;
  rid_generation : N;
  rid_effective_hash : string;
}.
#[export] Instance RevisionId_eq_dec : EqDecision RevisionId.
Proof. solve_decision. Defined.

Definition ConfigRevision_id (r : ConfigRevision) : RevisionId :=
  {| rid_epoch := cr_epoch r; rid_generation := cr_generation r;
     rid_effective_hash := cr_effective_hash r |}.

Definition RevisionId_fmt (r : RevisionId) : string :=
  "epoch " +:+ Epoch_fmt (rid_epoch r) +:+ " generation " +:+ show_N (rid_generation r)
    +:+ " (" +:+ rid_effective_hash r +:+ ")".

Record CoreStatus := {
  st_instance_id : option Uuid;
  st_state : CoreState;
  st_changed_at : Z;
  st_health : option HealthStatus;
  st_spec : option SpecSummary;
  st_controller : option Host;
  st_revision : option ConfigRevision;
}.

Definition CoreStatus_initial (now_ms : Z) : CoreStatus :=
  {| st_instance_id := None; st_state := CStopped None; st_changed_at := now_ms;
     st_health := None; st_spec := None; st_controller := None; st_revision := None |}.

(** ** Transaction outcomes ([manager/mod.rs]) *)

Inductive DegradeReason :=
| DNotRunning | DUnsupportedKind | DDnsListen | DInboundConflict | DPatchFailed
| DHttpController | DNativeStoreShared.
#[export] Instance DegradeReason_eq_dec : EqDecision DegradeReason.
Proof. solve_decision. Defined.

Inductive SwitchOutcome :=
| Graceful
| Hard (reason : DegradeReason)
| SwitchDurabilityUncertain (outcome : SwitchOutcome) (warning : string).
#[export] Instance SwitchOutcome_eq_dec : EqDecision SwitchOutcome.
Proof. solve_decision. Defined.

Inductive ApplyOutcome :=
| Started (revision : ConfigRevision)
| Noop (revision : ConfigRevision)
| Patched (revision : ConfigRevision)
| Reloaded (revision : ConfigRevision)
| Restarted (revision : ConfigRevision)
| Switched (revision : ConfigRevision)
| RolledBack (revision : ConfigRevision) (failed_apply : string)
| ApplyDurabilityUncertain (outcome : ApplyOutcome) (warning : string).
#[export] Instance ApplyOutcome_eq_dec : EqDecision ApplyOutcome.
Proof. solve_decision. Defined.

(** ** The domain error ([error.rs]) *)

(** An [std::io::Error], by the two things the code reads off it. *)
Record IoError := { ioe_not_found : bool; ioe_text : string }.

(** Variants carrying an error of another crate ([NativeStore], [Process],
    [Api], [Yaml]) keep its text. *)
Inductive Error :=
| AlreadyRunning
| NotStarted
| ConfigNotFound (path : string)
| BinaryNotFound (path : string)
| CoreVersionProbeFailed (binary_path detail : string)
| ControllerMissing
| RequiredLocalIpcUnsupported (kind : CoreKind) (version : string)
| ConfigCheckFailed (text : string)
| InvalidConfig (text : string)
| InvalidManagerOptions (text : string)
| InvalidHealthPolicy (text : string)
| UnsafeRuntimeArtifact (path : string)
| RuntimeDirectoryOwned (path : string)
| StopUnconfirmed (text : string)
| ManagerQuarantined (epoch : Epoch) (reason : string)
| RevisionConflict (expected : RevisionId) (actual : option RevisionId)
| ApplyFailed (text : string)
| ApplyRollbackFailed (apply rollback : string)
| DurabilityUncertain (source : Error) (warning : string)
| StartupTimeout (stderr_tail : string)
| StartupFailed (stderr_tail : string)
| NativeStoreErr (text : string)
| ProcessErr (text : string)
| ApiErr (text : string)
| YamlErr (text : string)
| IoErr (error : IoError).

Fixpoint Error_kind (e : Error) : option CoreErrorKind :=
  match e with
  | AlreadyRunning => Some KAlreadyRunning
  | NotStarted => Some KNotStarted
  | ConfigNotFound _ => Some KConfigNotFound
  | BinaryNotFound _ => Some KBinaryNotFound
  | ControllerMissing => Some KControllerMissing
  | ConfigCheckFailed _ => Some KConfigCheckFailed
  | InvalidConfig _ | YamlErr _ => Some KInvalidConfig
  | StopUnconfirmed _ => Some KStopUnconfirmed
  | NativeStoreErr _ => Some KNativeStoreUnavailable
  | ManagerQuarantined _ _ => Some KQuarantined
  | RevisionConflict _ _ => Some KRevisionConflict
  | ApplyFailed _ => Some KApplyFailed
  | ApplyRollbackFailed _ _ => Some KApplyRollbackFailed
  | DurabilityUncertain source _ => Error_kind source
  | CoreVersionProbeFailed _ _ | RequiredLocalIpcUnsupported _ _
  | InvalidManagerOptions _ | InvalidHealthPolicy _ | UnsafeRuntimeArtifact _
  | RuntimeDirectoryOwned _ | StartupTimeout _ | StartupFailed _
  | ProcessErr _ | ApiErr _ | IoErr _ => None
  end.

(** [{:?}] of a string: quotes, backslashes and the named control characters
    are escaped; other control bytes are written [\u{..}]. *)
Definition char_debug (a : Ascii.ascii) : string :=
  let c := Ascii.N_of_ascii a in
  if decide (c = 34) then "\" +:+ String a ""
  else if decide (c = 92) then "\\"
  else if decide (c = 10) then "\n"
  else if decide (c = 13) then "\r"
  else if decide (c = 9) then "\t"
  else if decide (c = 0) then "\0"
  else if decide (c < 32 \/ c = 127) then
    "\u{" +:+ (if decide (c < 16) then hex_fixed 1 c else hex_fixed 2 c) +:+ "}"
  else String a "".
Fixpoint str_debug_body (s : string) : string :=
  match s with
  | EmptyString => ""
  | String a s' => char_debug a +:+ str_debug_body s'
  end.
Definition quote : string := String (Ascii.ascii_of_N 34) "".
Definition str_debug (s : string) : string := quote +:+ str_debug_body s +:+ quote.

Definition RevisionId_debug (r : RevisionId) : string :=
  "RevisionId { epoch: Epoch(" +:+ Epoch_fmt (rid_epoch r) +:+ "), generation: "
    +:+ show_N (rid_generation r) +:+ ", effective_hash: "
    +:+ str_debug (rid_effective_hash r) +:+ " }".
Definition option_debug {A} (f : A -> string) (o : option A) : string :=
  match o with Some a => "Some(" +:+ f a +:+ ")" | None => "None" end.

Fixpoint Error_to_string (e : Error) : string :=
  match e with
  | AlreadyRunning => "core is already running"
  | NotStarted => "core is not running"
  | ConfigNotFound p => "config file not found: " +:+ p
  | BinaryNotFound p => "core binary not found: " +:+ p
  | CoreVersionProbeFailed p d =>
      "failed to probe version from core binary `" +:+ p +:+ "`: " +:+ d
  | ControllerMissing =>
      "no external controller configured; the version health probe needs one"
  | RequiredLocalIpcUnsupported k v =>
      "core `" +:+ CoreKind_as_ref k +:+ "` version `" +:+ v
        +:+ "` does not support the required local IPC transport; use LocalIpcPolicy::Prefer or LocalIpcPolicy::Disable"
  | ConfigCheckFailed t => "config check failed: " +:+ t
  | InvalidConfig t => "invalid runtime config: " +:+ t
  | InvalidManagerOptions t => "invalid manager options: " +:+ t
  | InvalidHealthPolicy t => "invalid health policy: " +:+ t
  | UnsafeRuntimeArtifact p => "unsafe runtime artifact: " +:+ p
  | RuntimeDirectoryOwned p =>
      "runtime directory is already owned by another manager: " +:+ p
  | StopUnconfirmed t => "core process death could not be confirmed: " +:+ t
  | ManagerQuarantined e r =>
      "manager is quarantined by uncertain epoch " +:+ Epoch_fmt e +:+ ": " +:+ r
  | RevisionConflict expected actual =>
      "config revision conflict: expected " +:+ RevisionId_fmt expected
        +:+ ", actual " +:+ option_debug RevisionId_debug actual
  | ApplyFailed t => "config apply failed: " +:+ t
  | ApplyRollbackFailed a r =>
      "config apply failed (" +:+ a +:+ "); rollback also failed (" +:+ r +:+ ")"
  | DurabilityUncertain source w =>
      Error_to_string source +:+ "; runtime durability warning: " +:+ w
  | StartupTimeout t =>
      "core did not become healthy before the startup timeout; diagnostic log tail:"
        +:+ String (Ascii.ascii_of_N 10) t
  | StartupFailed t =>
      "core failed to start; diagnostic log tail:" +:+ String (Ascii.ascii_of_N 10) t
  | NativeStoreErr t | ProcessErr t | ApiErr t => t
  | YamlErr t => "failed to process config YAML: " +:+ t
  | IoErr e => ioe_text e
  end.

(** [matches!(error, Error::StopUnconfirmed(_))]. *)
Definition is_stop_unconfirmed (e : Error) : bool :=
  match e with StopUnconfirmed _ => true | _ => false end.

(** ** Lemmas *)

Lemma Epoch_new_get (e : Epoch) : Epoch_new (Epoch_get e) = Some e.
Proof. done. Qed.

Lemma CoreErrorKind_ALL_complete (k : CoreErrorKind) : List.In k CoreErrorKind_ALL.
Proof. destruct k; cbn; tauto. Qed.

Lemma CoreErrorKind_as_str_inj : Inj (=) (=) CoreErrorKind_as_str.
Proof. intros [] []; by intros. Qed.
