(* ===== verification/LogFormat.v ===== *)
(** * Console lines

    [chimera-core-manager/src/log.rs] and the frame types of
    [chimera-core-metadata/src/log.rs]: ANSI stripping and the four header
    formats.  Calendar arithmetic is the crate [chrono], a parameter; slices that
    can split a character and the [expect] of the stripping are panics of the
    model. *)

From S2P Require Export Text Types.
Open Scope rust_scope.

Inductive LogLevel := LTrace | LDebug | LInfo | LWarning | LError | LFatal.
#[export] Instance LogLevel_eq_dec : EqDecision LogLevel.
Proof. solve_decision. Defined.
(** The derived order. *)
Definition level_rank (l : LogLevel) : N :=
  match l with LTrace => 0 | LDebug => 1 | LInfo => 2 | LWarning => 3 | LError => 4 | LFatal => 5 end.

Inductive LogStream := Stdout | Stderr.
#[export] Instance LogStream_eq_dec : EqDecision LogStream.
Proof. solve_decision. Defined.

Record LogTimestamp := { lt_raw : string; lt_unix_ms : option Z; lt_inferred : bool }.
Record LogField := { lf_key : string; lf_value : string }.
Record ParsedLine := {
  pl_timestamp : option LogTimestamp;
  pl_level : LogLevel;
  pl_target : option string;
  pl_message : string;
  pl_fields : list LogField;
}.

(** What the parsers use of [chrono].  Durations are nanoseconds and instants
    Unix milliseconds. *)
Class Chrono := {
  NaiveDate : Type;
  NaiveTime : Type;
  FixedOffset : Type;
  from_ymd_opt : Z -> N -> N -> option NaiveDate;
  from_hms_nano_opt : N -> N -> N -> N -> option NaiveTime;
  parse_hms : string -> option NaiveTime;            (* [parse_from_str] with [%H:%M:%S] *)
  succ_opt : NaiveDate -> option NaiveDate;
  pred_opt : NaiveDate -> option NaiveDate;
  signed_duration_since : NaiveTime -> NaiveTime -> Z;
  from_local_single : FixedOffset -> NaiveDate -> NaiveTime -> option Z;
  rfc3339_millis : string -> option Z;
}.
Record DateTime `{Chrono} := {
  dt_millis : Z;
  dt_date : NaiveDate;
  dt_time : NaiveTime;
  dt_offset : FixedOffset;
}.

(** ** Escape sequences *)

Definition escape : Ascii.ascii := Ascii.ascii_of_N 27.

(** The two loops of [strip_ansi]; [csi] tells whether the rest is inside a
    sequence. *)
Fixpoint strip_escapes (csi : bool) (s : string) : string :=
  match s with
  | EmptyString => EmptyString
  | String a s' =>
      if csi then strip_escapes (negb (in_range 64 126 a)) s'
      else if decide (a = escape) then
        match s' with
        | String b s'' =>
            if decide (b = "["%char) then strip_escapes true s'' else strip_escapes false s'
        | EmptyString => EmptyString
        end
      else String a (strip_escapes false s')
  end.

Definition strip_ansi (line : string) : outcome string :=
  if str_all (fun a => negb (bool_decide (a = escape))) line then Return line
  else
    let output := strip_escapes false line in
    if utf8_valid output then Return output
    else Panicked "dropping ASCII escapes preserves UTF-8".

(** ** Tokens *)

Definition parse_level (level : string) : option LogLevel :=
  if decide (level ∈ ["trace"; "TRC"; "TRACE"]) then Some LTrace
  else if decide (level ∈ ["debug"; "DBG"; "DEBUG"]) then Some LDebug
  else if decide (level ∈ ["info"; "INF"; "INFO"]) then Some LInfo
  else if decide (level ∈ ["warn"; "warning"; "WRN"; "WARN"]) then Some LWarning
  else if decide (level ∈ ["error"; "ERR"; "ERROR"]) then Some LError
  else if decide (level ∈ ["fatal"; "panic"; "FTL"; "PNC"]) then Some LFatal
  else if decide (level = "???") then Some LInfo
  else None.

(** A word and the text behind it; the index [find] answers is a boundary. *)
Definition take_token (input : string) : option (string * string) :=
  let input := trim_whitespace_start 0 input in
  end_ ← find_whitespace input;
  Some (String.substring 0 end_ input, trim_whitespace_start 0 (str_drop end_ input)).

(** [str::get(a..b)]. *)
Definition get_range (a b : nat) (s : string) : option string :=
  if is_char_boundary s a && is_char_boundary s b then Some (String.substring a (b - a) s) else None.

(** ** mihomo: logfmt *)

Definition double_quote : Ascii.ascii := Ascii.ascii_of_N 34.
Definition backslash : Ascii.ascii := Ascii.ascii_of_N 92.

(** The scanner works on the rest of the line instead of an index into it.
    [get(start..index)] of the piece between them answers when both ends are
    character boundaries. *)
Definition head_boundary (s : string) : bool :=
  match s with String a _ => negb (is_continuation a) | EmptyString => true end.
Definition slice (piece rest : string) : option string :=
  if head_boundary (piece +:+ rest) && head_boundary rest then Some piece else None.

Fixpoint skip_ascii_whitespace (s : string) : string :=
  match s with
  | String a s' => if is_ascii_whitespace a then skip_ascii_whitespace s' else s
  | EmptyString => EmptyString
  end.

(** The bytes up to the equals sign, which the rest starts with. *)
Fixpoint scan_key (s : string) : option (string * string) :=
  match s with
  | EmptyString => None
  | String a s' =>
      if decide (a = "="%char) then Some (EmptyString, s)
      else if is_ascii_whitespace a then None
      else (fun '(k, r) => (String a k, r)) <$> scan_key s'
  end.

Definition unescape (escaped : Ascii.ascii) : string :=
  if decide (escaped = double_quote \/ escaped = backslash) then String escaped ""
  else if decide (escaped = "n"%char) then String (Ascii.ascii_of_N 10) ""
  else if decide (escaped = "r"%char) then String (Ascii.ascii_of_N 13) ""
  else if decide (escaped = "t"%char) then String (Ascii.ascii_of_N 9) ""
  else String backslash (String escaped "").

(** The value up to its closing quote and the rest behind it. *)
Fixpoint scan_quoted (s : string) : option (string * string) :=
  match s with
  | EmptyString => None
  | String a s' =>
      if decide (a = double_quote) then Some (EmptyString, s')
      else if decide (a = backslash) then
        match s' with
        | EmptyString => None
        | String escaped s'' => (fun '(v, r) => (unescape escaped +:+ v, r)) <$> scan_quoted s''
        end
      else (fun '(v, r) => (String a v, r)) <$> scan_quoted s'
  end.

Fixpoint scan_bare (s : string) : string * string :=
  match s with
  | EmptyString => (EmptyString, EmptyString)
  | String a s' =>
      if is_ascii_whitespace a then (EmptyString, s)
      else let '(v, r) := scan_bare s' in (String a v, r)
  end.

(** The value behind the equals sign. *)
Definition scan_value (s : string) : option (string * string) :=
  match strip_prefix (String double_quote "") s with
  | Some s' =>
      '(value, rest) ← scan_quoted s';
      if match rest with String a _ => negb (is_ascii_whitespace a) | EmptyString => false end then None
      else if utf8_valid value then Some (value, rest) else None
  | None =>
      let '(value, rest) := scan_bare s in
      value ← slice value rest;
      Some (value, rest)
  end.

(** The loop of [scan_logfmt]; every round consumes at least two bytes. *)
Fixpoint scan_fields (fuel : nat) (s : string) : option (list (string * string)) :=
  match fuel with
  | O => None
  | S fuel' =>
      let s := skip_ascii_whitespace s in
      if decide (s = "") then Some []
      else
        '(key, rest) ← scan_key s;
        if decide (key = "") then None
        else
          key ← slice key rest;
          '(value, rest) ← scan_value (str_drop 1 rest);
          fields ← scan_fields fuel' rest;
          Some ((key, value) :: fields)
  end.
Definition scan_logfmt (line : string) : option (list (string * string)) :=
  scan_fields (S (String.length line)) line.

(** ** clash-rs *)

Definition clash_rs_separators : list (nat * Ascii.ascii) :=
  [(2, "-"%char); (5, "-"%char); (8, " "%char); (11, ":"%char); (14, ":"%char); (17, ":"%char)]%nat.
Definition clash_rs_numbers : list (nat * nat) :=
  [(0, 2); (3, 5); (6, 8); (9, 11); (12, 14); (15, 17)]%nat.

Fixpoint count_digits (s : string) : nat :=
  match s with
  | String a s' => if is_digit a then S (count_digits s') else O
  | EmptyString => O
  end.

Definition clash_rs_timestamp_end (line : string) : option nat :=
  if negb (forallb (fun '(index, separator) => bool_decide (String.get index line = Some separator))
             clash_rs_separators)
     || negb (forallb (fun '(start, end_) => str_all is_digit (String.substring start (end_ - start) line))
                clash_rs_numbers)
  then None
  else
    let digits := count_digits (str_drop 18 line) in
    if decide ((1 <= digits <= 9)%nat /\ String.get (18 + digits) line = Some " "%char)
    then Some (18 + digits)%nat else None.

(** Steps past every [": "] of the text; [before] is what was passed. *)
Fixpoint clash_rs_anchor (fuel : nat) (before rest : string) : outcome (option (string * string)) :=
  match fuel with
  | O => Return None
  | S fuel' =>
      match split_once ": " rest with
      | None => Return None
      | Some (piece, behind) =>
          let head := before +:+ piece in
          let next := clash_rs_anchor fuel' (head +:+ ": ") behind in
          match rsplit_once ":" head with
          | None => next
          | Some (path, number) =>
              if bool_decide (number = "") || negb (str_all is_digit number) then next
              else
                let start := match rfind_whitespace path with Some index => S index | None => O end in
                if decide (start = String.length path) then next
                else
                  match get_from start head with
                  | Some target => Return (Some (target, behind))
                  | None => Panicked "byte index is not a char boundary"
                  end
          end
      end
  end.
Definition clash_rs_source (rest : string) : outcome (option (string * string)) :=
  clash_rs_anchor (S (String.length rest)) "" rest.

(** [str::parse::<u32>]. *)
Definition parse_u32 (s : string) : option N := from_str_radix 10 (2 ^ 32) s.

Definition clash_rs_nanos (subsecond : string) : option N :=
  n ← parse_u32 subsecond;
  Some (wrapping_mul (2 ^ 32) n (10 ^ N.of_nat (9 - String.length subsecond))).

(** ** clash premium *)

Definition premium_target (body : string) : option string * string :=
  match strip_prefix "[" body ≫= split_once "] " with
  | Some (tag, message) =>
      if negb (bool_decide (tag = "")) && negb (str_contains " " tag) then (Some tag, message) else (None, body)
  | None => (None, body)
  end.

Definition hours (n : Z) : Z := n * 3600 * 1000000000.

Section Formats.
Context `{Chrono}.

(** [premium_clock]. *)
Definition Clock := option (NaiveDate * NaiveTime).

(** The loop body over the scanned fields. *)
Definition mihomo_field
    (state : option string * option LogLevel * option string * list LogField) (f : string * string)
    : option string * option LogLevel * option string * list LogField :=
  let '(raw_time, level, message, fields) := state in
  let '(key, value) := f in
  if decide (key = "time") then (Some value, level, message, fields)
  else if decide (key = "level") then (raw_time, parse_level value, message, fields)
  else if decide (key = "msg") then (raw_time, level, Some value, fields)
  else (raw_time, level, message, fields ++ [{| lf_key := key; lf_value := value |}]).

Definition parse_mihomo (line : string) : option ParsedLine :=
  scanned ← scan_logfmt line;
  let '(raw_time, level, message, fields) :=
    fold_left mihomo_field scanned (None, None, None, []) in
  raw_time ← raw_time;
  level ← level;
  message ← message;
  Some {| pl_timestamp := Some {| lt_raw := raw_time; lt_unix_ms := rfc3339_millis raw_time; lt_inferred := false |};
          pl_level := level; pl_target := None; pl_message := message; pl_fields := fields |}.

Definition parse_meow (line : string) : option ParsedLine :=
  '(raw_time, rest) ← take_token line;
  '(level, rest) ← take_token rest;
  level ← parse_level level;
  '(target, message) ← split_once ": " rest;
  if decide (target = "") then None
  else Some {| pl_timestamp := Some {| lt_raw := raw_time; lt_unix_ms := rfc3339_millis raw_time; lt_inferred := false |};
               pl_level := level; pl_target := Some target; pl_message := message; pl_fields := [] |}.

Definition local_unix_ms (date : NaiveDate) (time : NaiveTime) (offset : FixedOffset) : option Z :=
  from_local_single offset date time.

Definition clash_rs_unix_ms (raw : string) (offset : FixedOffset) : option Z :=
  let number a b := get_range a b raw ≫= parse_u32 in
  subsecond ← get_from 18 raw;
  nanos ← clash_rs_nanos subsecond;
  year ← number 0%nat 2%nat; month ← number 3%nat 5%nat; day ← number 6%nat 8%nat;
  date ← from_ymd_opt (2000 + Z.of_N year) month day;
  hour ← number 9%nat 11%nat; minute ← number 12%nat 14%nat; second ← number 15%nat 17%nat;
  time ← from_hms_nano_opt hour minute second nanos;
  local_unix_ms date time offset.

Definition parse_clash_rs (line : string) (observed_at : DateTime) : outcome (option ParsedLine) :=
  match
    timestamp_end ← clash_rs_timestamp_end line;
    raw_time ← get_to timestamp_end line;
    '(level, rest) ← get_from timestamp_end line ≫= take_token;
    level ← parse_level level;
    Some (raw_time, level, rest)
  with
  | None => Return None
  | Some (raw_time, level, rest) =>
      match clash_rs_source rest with
      | Panicked message => Panicked message
      | Return None => Return None
      | Return (Some (target, message)) =>
          Return (Some
            {| pl_timestamp := Some {| lt_raw := raw_time;
                                       lt_unix_ms := clash_rs_unix_ms raw_time (dt_offset observed_at);
                                       lt_inferred := true |};
               pl_level := level; pl_target := Some target; pl_message := message; pl_fields := [] |})
      end
  end.

(** The date a printed time belongs to, and the clock for the next line, which
    stays as it was when the date leaves the calendar. *)
Definition premium_unix_ms (time : NaiveTime) (observed_at : DateTime) (clock : Clock) : option Z * Clock :=
  let date :=
    match clock with
    | Some (date, previous) =>
        if decide (hours 12 < signed_duration_since previous time)%Z then succ_opt date else Some date
    | None =>
        if decide (hours 12 < signed_duration_since time (dt_time observed_at))%Z
        then pred_opt (dt_date observed_at) else Some (dt_date observed_at)
    end in
  match date with
  | None => (None, clock)
  | Some date => (local_unix_ms date time (dt_offset observed_at), Some (date, time))
  end.

Definition parse_premium (line : string) (observed_at : DateTime) (clock : Clock) : option ParsedLine * Clock :=
  match
    (if decide (String.get 8 line = Some " "%char /\ String.get 12 line = Some " "%char) then Some tt else None)
      ≫= fun _ =>
    raw_time ← get_to 8 line;
    time ← parse_hms raw_time;
    level ← get_range 9 12 line ≫= parse_level;
    body ← get_from 13 line;
    Some (raw_time, time, level, premium_target body)
  with
  | None => (None, clock)
  | Some (raw_time, time, level, (target, message)) =>
      let '(unix_ms, clock) := premium_unix_ms time observed_at clock in
      (Some {| pl_timestamp := Some {| lt_raw := raw_time; lt_unix_ms := unix_ms; lt_inferred := true |};
               pl_level := level; pl_target := target; pl_message := message; pl_fields := [] |},
       clock)
  end.

(** [LogParser::parse_header]. *)
Definition parse_header (kind : CoreKind) (line : string) (observed_at : DateTime) (clock : Clock)
    : outcome (option ParsedLine * Clock) :=
  match kind with
  | Mihomo => Return (parse_mihomo line, clock)
  | Meow => Return (parse_meow line, clock)
  | ClashRust | ChimeraClient =>
      match parse_clash_rs line observed_at with
      | Return parsed => Return (parsed, clock)
      | Panicked message => Panicked message
      end
  | ClashPremium => Return (parse_premium line observed_at clock)
  end.

End Formats.

(** ** Stripping keeps text *)

Lemma ascii_1 (a : Ascii.ascii) : Ascii.N_of_ascii a < 128 -> utf8_1 a = true.
Proof. intros. apply in_range_spec. lia. Qed.

(** What follows an ASCII byte of a text is a text. *)
Lemma Utf8_behind_ascii (a : Ascii.ascii) (s : string) : Ascii.N_of_ascii a < 128 -> Utf8 (String a s) -> Utf8 s.
Proof.
  intros Ha Hs. apply utf8_valid_Utf8 in Hs. cbn in Hs. rewrite ascii_1 in Hs by done. by apply utf8_valid_Utf8.
Qed.

(** Bytes of a character longer than one are neither escapes nor final bytes. *)
Lemma strip_escapes_wide (csi : bool) (c rest : string) :
  str_all (fun a => in_range 128 255 a) c = true ->
  strip_escapes csi (c +:+ rest)
  = if csi then strip_escapes true rest else c +:+ strip_escapes false rest.
Proof.
  revert csi. induction c as [|a c IH]; intros csi; [by destruct csi|].
  cbn [str_all]. intros [Ha%in_range_spec Hc]%andb_true_iff. rewrite !string_app_cons. cbn [strip_escapes].
  destruct csi.
  - replace (in_range 64 126 a) with false by (symmetry; apply not_true_iff_false; intros ?%in_range_spec; lia).
    cbn [negb]. by rewrite (IH true Hc).
  - rewrite decide_False by (intros ->; cbn in Ha; lia). by rewrite (IH false Hc).
Qed.

Lemma utf8_char_cases (c : string) :
  utf8_char c = true ->
  (exists a, c = String a "" /\ Ascii.N_of_ascii a < 128) \/ str_all (fun a => in_range 128 255 a) c = true.
Proof.
  destruct c as [|a [|b [|c [|d [|e c']]]]]; cbn [utf8_char]; intros H; try done.
  { left. exists a. split; [done|]. utf8_facts. lia. }
  all: right; cbn [str_all]; utf8_facts;
    repeat (apply andb_true_iff; split); try done; apply N.leb_le;
    lia.
Qed.

Lemma strip_escapes_Utf8 (s : string) : Utf8 s -> forall csi, Utf8 (strip_escapes csi s).
Proof.
  remember (String.length s) as n eqn:Hn. assert (String.length s <= n)%nat as Hle by lia. clear Hn.
  revert s Hle. induction n as [|n IH]; intros s Hle Hs csi.
  { destruct s; [constructor|cbn in Hle; lia]. }
  destruct Hs as [|c rest Hc Hrest]; [constructor|].
  destruct (utf8_char_cases c Hc) as [(a & -> & Ha)|Hwide].
  - change (String a "" +:+ rest) with (String a rest) in *. cbn in Hle. cbn [strip_escapes].
    destruct csi; [apply IH; [lia|done]|]. case_decide.
    + destruct rest as [|b rest']; [constructor|]. cbn in Hle. case_decide; [subst b|by apply IH; [cbn; lia|]].
      apply IH; [lia|]. by eapply Utf8_behind_ascii; [|exact Hrest].
    + apply Utf8_ascii; [by apply ascii_1|]. apply IH; [lia|done].
  - rewrite string_length_app in Hle. assert (1 <= String.length c)%nat by (destruct c; [done|cbn; lia]).
    rewrite strip_escapes_wide by done. destruct csi; [apply IH; [lia|done]|].
    apply Utf8_app; [|apply IH; [lia|done]]. rewrite <- (string_app_nil_r c). by constructor; [|constructor].
Qed.

Definition no_escape (s : string) : bool := str_all (fun a => negb (bool_decide (a = escape))) s.

Lemma strip_escapes_id (s : string) : no_escape s = true -> strip_escapes false s = s.
Proof.
  unfold no_escape. induction s as [|a s IH]; [done|]. cbn.
  intros [Ha%negb_true_iff%bool_decide_eq_false Hs]%andb_true_iff. rewrite decide_False by done. by rewrite IH.
Qed.

Lemma strip_escapes_clean (csi : bool) (s : string) : no_escape (strip_escapes csi s) = true.
Proof.
  remember (String.length s) as n eqn:Hn. assert (String.length s <= n)%nat as Hle by lia. clear Hn.
  revert s Hle csi. induction n as [|n IH]; intros [|a s] Hle csi; try done; [cbn in Hle; lia|].
  cbn in Hle. cbn [strip_escapes]. destruct csi; [apply IH; lia|]. case_decide.
  - destruct s as [|b s']; [done|]. cbn in Hle. case_decide; apply IH; cbn; lia.
  - unfold no_escape. cbn [str_all]. rewrite bool_decide_false by done. apply IH. lia.
Qed.

(** Stripping a text never panics; it answers the text without its escape
    sequences, which is text again and has no escape byte left. *)
Lemma strip_ansi_text (line : string) :
  Utf8 line ->
  strip_ansi line = Return (strip_escapes false line)
  /\ Utf8 (strip_escapes false line) /\ no_escape (strip_escapes false line) = true.
Proof.
  intros Hu. pose proof (strip_escapes_Utf8 line Hu false) as Hs.
  split; [|by split; [|apply strip_escapes_clean]].
  unfold strip_ansi. fold (no_escape line). destruct (no_escape line) eqn:E; [by rewrite strip_escapes_id|].
  by apply utf8_valid_Utf8 in Hs as ->.
Qed.

Lemma strip_ansi_Return (line line' : string) : strip_ansi line = Return line' -> line' = strip_escapes false line.
Proof.
  unfold strip_ansi. fold (no_escape line). destruct (no_escape line) eqn:E.
  - intros [= <-]. by rewrite strip_escapes_id.
  - destruct (utf8_valid _); [|done]. by intros [= <-].
Qed.

(** ** logfmt: what is printed is scanned *)

(** A printer for the format, for specification: values are printed bare or
    quoted, with the escapes the scanner knows. *)
Definition quote_char (a : Ascii.ascii) : string :=
  if decide (a = double_quote \/ a = backslash) then String backslash (String a "")
  else if decide (a = Ascii.ascii_of_N 10) then "\n"
  else if decide (a = Ascii.ascii_of_N 13) then "\r"
  else if decide (a = Ascii.ascii_of_N 9) then "\t"
  else String a "".
Fixpoint quote_body (s : string) : string :=
  match s with EmptyString => EmptyString | String a s' => quote_char a +:+ quote_body s' end.
Definition print_value (quoted : bool) (value : string) : string :=
  if quoted then String double_quote (quote_body value +:+ String double_quote "") else value.
Definition print_field (f : bool * (string * string)) : string :=
  f.2.1 +:+ "=" +:+ print_value f.1 f.2.2.
Definition print_logfmt (fields : list (bool * (string * string))) : string :=
  str_join " " (print_field <$> fields).

Definition key_char (a : Ascii.ascii) : bool := negb (bool_decide (a = "="%char)) && negb (is_ascii_whitespace a).
Definition key_ok (key : string) : bool := negb (bool_decide (key = "")) && head_boundary key && str_all key_char key.
Definition bare_ok (value : string) : bool :=
  str_all (fun a => negb (is_ascii_whitespace a)) value && head_boundary value
  && negb (starts_with (String double_quote "") value).
Definition printable (f : bool * (string * string)) : bool :=
  key_ok f.2.1 && if f.1 then utf8_valid f.2.2 else bare_ok f.2.2.

Definition ends_field (s : string) : Prop := match s with EmptyString => True | String a _ => a = " "%char end.

Lemma scan_key_app (key rest : string) :
  str_all key_char key = true -> scan_key (key +:+ String "="%char rest) = Some (key, String "="%char rest).
Proof.
  induction key as [|a key IH]; [done|]. cbn [str_all]. intros [[Ha Hw]%andb_true_iff Hk]%andb_true_iff.
  rewrite string_app_cons. cbn [scan_key]. apply negb_true_iff, bool_decide_eq_false in Ha.
  rewrite decide_False by done. apply negb_true_iff in Hw as ->. by rewrite IH.
Qed.

Lemma scan_quoted_app (value rest : string) :
  scan_quoted (quote_body value +:+ String double_quote rest) = Some (value, rest).
Proof.
  induction value as [|a value IH]; [done|]. cbn [quote_body]. rewrite <- string_app_assoc. unfold quote_char.
  repeat case_decide; subst; rewrite ?string_app_cons, ?string_app_nil_l; cbn [scan_quoted].
  1: { rewrite decide_False, decide_True by done. rewrite IH. cbn. unfold unescape. by rewrite decide_True. }
  1-3: rewrite decide_False, decide_True by done; by rewrite IH.
  rewrite decide_False by (intros ->; auto). rewrite decide_False by (intros ->; auto). by rewrite IH.
Qed.

Lemma scan_bare_app (value rest : string) :
  str_all (fun a => negb (is_ascii_whitespace a)) value = true -> ends_field rest ->
  scan_bare (value +:+ rest) = (value, rest).
Proof.
  induction value as [|a value IH]; intros Hv Hr.
  - rewrite string_app_nil_l. destruct rest as [|a rest]; [done|]. cbn in Hr. by subst.
  - cbn [str_all] in Hv. apply andb_true_iff in Hv as [Ha%negb_true_iff Hv].
    rewrite string_app_cons. cbn [scan_bare]. by rewrite Ha, IH.
Qed.

Lemma slice_ok (piece rest : string) :
  (piece <> "" -> head_boundary piece = true) -> head_boundary rest = true -> slice piece rest = Some piece.
Proof.
  intros Hp Hr. unfold slice. rewrite Hr, andb_true_r. destruct piece as [|a piece]; [by rewrite string_app_nil_l, Hr|].
  rewrite string_app_cons. cbn [head_boundary]. cbn in Hp. by rewrite Hp.
Qed.

Lemma ends_field_boundary (rest : string) : ends_field rest -> head_boundary rest = true.
Proof. destruct rest; [done|]. by intros ->. Qed.

Lemma scan_value_print (quoted : bool) (value rest : string) :
  (if quoted then utf8_valid value else bare_ok value) = true -> ends_field rest ->
  scan_value (print_value quoted value +:+ rest) = Some (value, rest).
Proof.
  intros Hv Hr. unfold scan_value, print_value. destruct quoted.
  - rewrite string_app_cons, <- string_app_assoc, string_app_cons, string_app_nil_l.
    change (String double_quote ?s) with (String double_quote "" +:+ s) at 2. rewrite strip_prefix_app.
    rewrite scan_quoted_app. cbn [mbind option_bind]. rewrite Hv. destruct rest as [|a rest]; [done|]. by cbn in Hr; subst.
  - unfold bare_ok in Hv. apply andb_true_iff in Hv as [[Hw Hb]%andb_true_iff Hq%negb_true_iff].
    destruct (strip_prefix _ _) as [s|] eqn:E.
    { apply strip_prefix_Some in E. destruct value as [|a value].
      - rewrite string_app_nil_l in E. subst rest. by cbn in Hr.
      - rewrite !string_app_cons in E. injection E as -> _. unfold starts_with in Hq.
        apply bool_decide_eq_false in Hq. destruct Hq. exists value. apply (strip_prefix_app (String double_quote "")). }
    rewrite scan_bare_app by done. rewrite slice_ok; [done|done|by apply ends_field_boundary].
Qed.

Lemma key_head (key : string) : key_ok key = true -> exists a key', key = String a key' /\ key_char a = true.
Proof.
  unfold key_ok. destruct key as [|a key]; [done|]. cbn. intros [_ [Ha _]%andb_true_iff]%andb_true_iff. by eexists _, _.
Qed.

(** One field and whatever ends it. *)
Lemma scan_fields_field (fuel : nat) (f : bool * (string * string)) (rest : string) :
  printable f = true -> ends_field rest ->
  scan_fields (S fuel) (print_field f +:+ rest) = fields ← scan_fields fuel rest; Some (f.2 :: fields).
Proof.
  destruct f as (quoted & key & value). unfold printable, print_field. cbn [fst snd].
  intros [Hk Hv]%andb_true_iff Hr. rewrite <- !string_app_assoc, string_app_cons, string_app_nil_l.
  destruct (key_head key Hk) as (a & key' & Heq & Ha).
  assert (skip_ascii_whitespace (key +:+ String "="%char (print_value quoted value +:+ rest))
          = key +:+ String "="%char (print_value quoted value +:+ rest)) as Hskip.
  { rewrite Heq, string_app_cons. cbn. apply andb_true_iff in Ha as [_ ->%negb_true_iff]. done. }
  cbn [scan_fields]. rewrite Hskip. unfold key_ok in Hk.
  apply andb_true_iff in Hk as [[Hne%negb_true_iff%bool_decide_eq_false Hb]%andb_true_iff Hc].
  rewrite decide_False by (rewrite Heq; by rewrite string_app_cons).
  rewrite scan_key_app by done. cbn [mbind option_bind]. rewrite decide_False by done.
  rewrite slice_ok by done. cbn [mbind option_bind str_drop]. by rewrite scan_value_print.
Qed.

Lemma scan_fields_print (fields : list (bool * (string * string))) (fuel : nat) :
  Forall (fun f => printable f = true) fields -> (length fields < fuel)%nat ->
  scan_fields fuel (print_logfmt fields) = Some (snd <$> fields)
  /\ (fields <> [] -> scan_fields fuel (String " " (print_logfmt fields)) = Some (snd <$> fields)).
Proof.
  intros Hf. revert fuel. induction Hf as [|f fields Hf Hfs IH]; intros fuel Hfuel.
  { destruct fuel; [lia|]. by split. }
  destruct fuel as [|fuel]; [cbn in Hfuel; lia|]. cbn in Hfuel. destruct (IH fuel ltac:(lia)) as [_ IH2].
  assert (scan_fields (S fuel) (print_logfmt (f :: fields)) = Some (snd <$> (f :: fields))) as Hmain.
  { unfold print_logfmt. cbn [fmap list_fmap]. destruct fields as [|f' fields].
    - cbn [str_join fmap list_fmap]. rewrite <- (string_app_nil_r (print_field f)), scan_fields_field by done.
      destruct fuel; [cbn in Hfuel; lia|]. done.
    - change (str_join " " (print_field f :: (print_field <$> f' :: fields)))
        with (print_field f +:+ String " " (print_logfmt (f' :: fields))).
      rewrite scan_fields_field by done. rewrite IH2 by done. done. }
  split; [done|]. intros _. rewrite <- Hmain. done.
Qed.

Lemma print_logfmt_length (fields : list (bool * (string * string))) :
  (length fields <= String.length (print_logfmt fields))%nat.
Proof.
  unfold print_logfmt. induction fields as [|f [|f' fields] IH]; [done| |].
  - cbn. unfold print_field. rewrite !string_length_app. cbn. lia.
  - change (str_join " " (print_field <$> f :: f' :: fields))
      with (print_field f +:+ " " +:+ str_join " " (print_field <$> f' :: fields)).
    rewrite !string_length_app. cbn [length String.length] in *. lia.
Qed.

Lemma scan_logfmt_print (fields : list (bool * (string * string))) :
  Forall (fun f => printable f = true) fields -> scan_logfmt (print_logfmt fields) = Some (snd <$> fields).
Proof.
  intros Hf. apply scan_fields_print; [done|]. pose proof (print_logfmt_length fields). lia.
Qed.

(** ** Where the clash-rs header can panic *)

(** A white space character of more than one byte. *)
Fixpoint wide_whitespace (s : string) : bool :=
  match s with
  | EmptyString => false
  | String _ s' => match whitespace_prefix s with Some (S (S _)) => true | _ => false end || wide_whitespace s'
  end.

(** No continuation byte follows an ASCII byte. *)
Definition ascii_whole (s : string) : Prop :=
  forall i a b, String.get i s = Some a -> Ascii.N_of_ascii a < 128 -> String.get (S i) s = Some b ->
  is_continuation b = false.

Lemma str_drop_0 (s : string) : str_drop 0 s = s.
Proof. by destruct s. Qed.
Lemma str_drop_nil (n : nat) : str_drop n "" = "".
Proof. by destruct n. Qed.

Lemma str_drop_drop (i j : nat) (s : string) : str_drop i (str_drop j s) = str_drop (j + i) s.
Proof.
  revert s. induction j as [|j IH]; intros s; [by rewrite str_drop_0|].
  destruct s as [|a s]; [by rewrite !str_drop_nil|]. apply IH.
Qed.

Lemma get_drop (i k : nat) (s : string) : String.get i (str_drop k s) = String.get (k + i) s.
Proof.
  revert s. induction k as [|k IH]; intros s; [by rewrite str_drop_0|].
  destruct s as [|a s]; [by destruct i|]. apply IH.
Qed.

Lemma get_app_Some (i : nat) (a b : string) (x : Ascii.ascii) :
  String.get i a = Some x -> String.get i (a +:+ b) = Some x.
Proof.
  revert i. induction a as [|y a IH]; intros i; [by destruct i|].
  rewrite string_app_cons. destruct i; cbn; [done|]. apply IH.
Qed.

Lemma ascii_whole_drop (k : nat) (s : string) : ascii_whole s -> ascii_whole (str_drop k s).
Proof. intros Hs i a b. rewrite !get_drop, Nat.add_succ_r. apply Hs. Qed.
Lemma ascii_whole_prefix (a b : string) : ascii_whole (a +:+ b) -> ascii_whole a.
Proof. intros Hs i x y Hx Hlt Hy. by eapply Hs; [apply get_app_Some, Hx|done|apply get_app_Some, Hy]. Qed.

Lemma wide_whitespace_drop (k : nat) (s : string) : wide_whitespace s = false -> wide_whitespace (str_drop k s) = false.
Proof.
  revert s. induction k as [|k IH]; intros s; [by rewrite str_drop_0|].
  destruct s as [|a s]; [done|]. cbn. intros [_ Hs]%orb_false_iff. by apply IH.
Qed.

Lemma whitespace_bytes_app (l l' : list N) (n : nat) :
  whitespace_bytes l = Some n -> whitespace_bytes (l ++ l') = Some n.
Proof.
  destruct l as [|a [|b [|c l]]]; cbn; [done|by destruct (whitespace_1 a)| |done].
  destruct (whitespace_1 a); [done|]. by destruct (whitespace_2 a b).
Qed.

Lemma whitespace_prefix_app (a b : string) (n : nat) :
  whitespace_prefix a = Some n -> whitespace_prefix (a +:+ b) = Some n.
Proof.
  unfold whitespace_prefix. destruct a as [|x [|y [|z a]]]; [done| | |].
  - intros H%(whitespace_bytes_app [_] (map Ascii.N_of_ascii (String.list_ascii_of_string (String.substring 0 2 b)))).
    rewrite <- H. cbn. by destruct b.
  - intros H%(whitespace_bytes_app [_; _] (map Ascii.N_of_ascii (String.list_ascii_of_string (String.substring 0 1 b)))).
    rewrite <- H. cbn. by destruct b.
  - rewrite !string_app_cons. cbn. by destruct a, b.
Qed.

Lemma wide_whitespace_prefix (a b : string) : wide_whitespace (a +:+ b) = false -> wide_whitespace a = false.
Proof.
  induction a as [|x a IH]; [done|]. rewrite string_app_cons. cbn [wide_whitespace].
  intros [Hx Ha]%orb_false_iff. rewrite IH, orb_false_r by done.
  destruct (whitespace_prefix (String x a)) as [n|] eqn:E; [|done].
  apply (whitespace_prefix_app _ b) in E. rewrite string_app_cons in E. by rewrite E in Hx.
Qed.

Lemma rfind_whitespace_get (s : string) (i : nat) :
  wide_whitespace s = false -> rfind_whitespace s = Some i ->
  exists a, String.get i s = Some a /\ Ascii.N_of_ascii a < 128.
Proof.
  revert i. induction s as [|x s IH]; intros i; [done|]. cbn [wide_whitespace rfind_whitespace].
  intros [Hx Hs]%orb_false_iff. destruct (rfind_whitespace s) as [j|]; [intros [= <-]; by apply IH|].
  destruct (whitespace_prefix (String x s)) as [n|] eqn:E; [|done]. intros [= <-]. exists x. split; [done|].
  unfold whitespace_prefix in E. cbn in E. destruct (whitespace_1 (Ascii.N_of_ascii x)) eqn:E1.
  - apply bool_decide_eq_true in E1. lia.
  - destruct n as [|[|n]]; [| |done]; exfalso; revert E; destruct (map _ _) as [|b [|c l]]; [done| | |done| |];
      destruct (whitespace_2 _ b); try done; by destruct (whitespace_3 _ b c).
Qed.

Lemma boundary_behind_ascii (s : string) (i : nat) (a : Ascii.ascii) :
  ascii_whole s -> String.get i s = Some a -> Ascii.N_of_ascii a < 128 -> is_char_boundary s (S i) = true.
Proof.
  intros Hs Ha Hlt. unfold is_char_boundary. destruct (String.get (S i) s) as [b|] eqn:E.
  - by rewrite (Hs i a b).
  - apply Nat.eqb_eq. clear Hs Hlt. revert i Ha E.
    induction s as [|x s IH]; intros i; [by destruct i|]. destruct i as [|i]; cbn; [|by intros; f_equal; apply IH].
    intros _. destruct s; [done|]. by destruct s.
Qed.

Lemma Utf8_ascii_whole (s : string) : Utf8 s -> ascii_whole s.
Proof.
  induction 1 as [|c rest Hc Hrest IH]; [by intros [] a b|]. intros i a b Ha Hlt Hb.
  destruct (utf8_char_cases c Hc) as [(x & -> & Hx)|Hwide].
  - change (String x "" +:+ rest) with (String x rest) in *. destruct i as [|i]; [|by apply (IH i a b)].
    cbn in Hb. destruct Hrest as [|c' rest' (l & cs & -> & Hl & _)%utf8_char_shape _]; [done|].
    rewrite string_app_cons in Hb. by injection Hb as <-.
  - clear Hc. revert i Ha Hb. induction c as [|x c IHc]; intros i Ha Hb; [by apply (IH i a b)|].
    cbn [str_all] in Hwide. apply andb_true_iff in Hwide as [Hx%in_range_spec Hwide].
    rewrite string_app_cons in Ha, Hb. destruct i as [|i].
    + cbn in Ha. injection Ha as ->. lia.
    + by apply (IHc Hwide i).
Qed.

Lemma rsplit_once_eq (p s l r : string) : rsplit_once p s = Some (l, r) -> s = l +:+ p +:+ r.
Proof.
  revert l r. induction s as [|a s IH]; intros l r; cbn [rsplit_once].
  - intros (r' & E & [= -> ->])%fmap_Some. apply strip_prefix_Some in E. by rewrite string_app_nil_l.
  - destruct (rsplit_once p s) as [[l' r']|].
    + intros [= <- <-]. by rewrite string_app_cons, <- (IH l' r').
    + intros (r' & E & [= -> ->])%fmap_Some. apply strip_prefix_Some in E. by rewrite E.
Qed.

Lemma clash_rs_anchor_total (fuel : nat) (before rest : string) :
  ascii_whole (before +:+ rest) -> wide_whitespace (before +:+ rest) = false ->
  exists found, clash_rs_anchor fuel before rest = Return found.
Proof.
  revert before rest. induction fuel as [|fuel IH]; intros before rest Hw Hn; [by eexists|]. cbn [clash_rs_anchor].
  destruct (split_once ": " rest) as [[piece behind]|] eqn:E; [|by eexists].
  apply split_once_Some in E. subst rest. rewrite string_app_assoc in Hw, Hn.
  assert (exists found, clash_rs_anchor fuel ((before +:+ piece) +:+ ": ") behind = Return found) as Hnext.
  { apply IH; by rewrite <- string_app_assoc. }
  destruct (rsplit_once ":" (before +:+ piece)) as [[path number]|] eqn:Er; [|done].
  destruct (_ || _); [done|]. apply rsplit_once_eq in Er.
  destruct (rfind_whitespace path) as [i|] eqn:Ei; case_decide; try done; unfold get_from; [|by eexists].
  rewrite Er in Hw, Hn.
  destruct (rfind_whitespace_get path i) as (a & Ha & Hlt); [by do 2 eapply wide_whitespace_prefix|done|].
  rewrite (boundary_behind_ascii _ i a).
  - by eexists.
  - rewrite Er. by eapply ascii_whole_prefix.
  - rewrite Er. by apply get_app_Some.
  - done.
Qed.

Lemma trim_start_drop (n : nat) (s : string) : exists k, trim_whitespace_start n s = str_drop k s.
Proof.
  revert n. induction s as [|a s IH]; intros n; [by exists 0%nat|]. cbn [trim_whitespace_start].
  destruct n as [|n]; [|destruct (IH n) as [k ->]; by exists (S k)].
  destruct (whitespace_prefix _) as [m|]; [|by exists 0%nat].
  destruct (IH (Nat.pred m)) as [k ->]. by exists (S k).
Qed.

Lemma take_token_drop (s token rest : string) : take_token s = Some (token, rest) -> exists k, rest = str_drop k s.
Proof.
  unfold take_token. intros (i & _ & [= _ <-])%bind_Some.
  destruct (trim_start_drop 0 (str_drop i (trim_whitespace_start 0 s))) as [k ->].
  destruct (trim_start_drop 0 s) as [j ->]. rewrite !str_drop_drop. by eexists.
Qed.

Section Panics.
Context `{Chrono}.

(** Only the two formats of the clash-rs family have a header whose parser can
    panic, and only on a line with a white space character outside of ASCII. *)
Lemma parse_clash_rs_total (line : string) (observed_at : DateTime) :
  Utf8 line -> wide_whitespace line = false -> exists parsed, parse_clash_rs line observed_at = Return parsed.
Proof.
  intros Hu Hn. unfold parse_clash_rs.
  destruct (clash_rs_timestamp_end line ≫= _) as [[[raw level] rest]|] eqn:E; [|by eexists].
  apply bind_Some in E as (n & _ & E). apply bind_Some in E as (raw' & _ & E).
  apply bind_Some in E as ([token rest'] & (line' & El & Et)%bind_Some & E).
  apply bind_Some in E as (level' & _ & [= -> -> ->]).
  apply take_token_drop in Et as [k ->]. unfold get_from in El. destruct (is_char_boundary line n); [|done].
  injection El as <-. rewrite str_drop_drop. unfold clash_rs_source.
  destruct (clash_rs_anchor_total (S (String.length (str_drop (n + k) line))) "" (str_drop (n + k) line)) as [found ->].
  - by apply ascii_whole_drop, Utf8_ascii_whole.
  - by apply wide_whitespace_drop.
  - destruct found as [[]|]; by eexists.
Qed.

Definition clash_rs_family (kind : CoreKind) : bool :=
  match kind with ClashRust | ChimeraClient => true | _ => false end.

Lemma parse_header_total (kind : CoreKind) (line : string) (observed_at : DateTime) (clock : Clock) :
  Utf8 line -> clash_rs_family kind = false \/ wide_whitespace line = false ->
  exists parsed, parse_header kind line observed_at clock = Return parsed.
Proof.
  intros Hu Hk. destruct kind; cbn; try (by eexists);
    (destruct Hk as [Hk|Hk]; [done|]; destruct (parse_clash_rs_total line observed_at Hu Hk) as [parsed ->]; by eexists).
Qed.

End Panics.

(** The defect: a line of a clash-rs core whose last white space before the
    [file:line] anchor is an ideographic space. *)
Definition ideographic_space : string :=
  String (Ascii.ascii_of_N 227) (String (Ascii.ascii_of_N 128) (String (Ascii.ascii_of_N 128) "")).
Definition wide_line : string :=
  "26-01-02 03:04:05:6 INFO relay" +:+ ideographic_space +:+ "src/a.rs:12: up".

Lemma wide_line_panics `{Chrono} (observed_at : DateTime) (clock : Clock) :
  Utf8 wide_line /\ parse_header ClashRust wide_line observed_at clock = Panicked "byte index is not a char boundary".
Proof. split; [by apply utf8_valid_Utf8; vm_compute|]. unfold parse_header, parse_clash_rs. by vm_compute. Qed.

(** ** The subsecond never overflows *)

Lemma radix_digits_small (modulus acc : N) (s : string) (n : N) :
  radix_digits 10 modulus acc s = Some n -> n < (acc + 1) * 10 ^ N.of_nat (String.length s).
Proof.
  revert acc. induction s as [|a s IH]; intros acc; cbn [radix_digits String.length].
  - intros [= ->]. change (10 ^ N.of_nat 0) with 1. lia.
  - intros (d & _ & Hd)%bind_Some. case_decide; [|done]. case_decide; [|done]. apply IH in Hd.
    rewrite Nat2N.inj_succ, N.pow_succ_r'. nia.
Qed.

Lemma from_str_radix_small (modulus : N) (s : string) (n : N) :
  from_str_radix 10 modulus s = Some n -> n < 10 ^ N.of_nat (String.length s).
Proof.
  assert (forall t, radix_digits 10 modulus 0 t = Some n -> n < 10 ^ N.of_nat (String.length t)) as H.
  { intros t Ht%radix_digits_small. lia. }
  unfold from_str_radix. destruct s as [|a s]; [done|].
  destruct (decide (a = "+"%char)) as [->|Ha].
  - destruct s as [|b s]; [done|]. intros Hs%H. eapply N.lt_le_trans; [done|]. apply N.pow_le_mono_r; cbn; lia.
  - intros Hs. apply H. by destruct a as [[] [] [] [] [] [] [] []].
Qed.

(** The multiplication of [clash_rs_unix_ms] stays below a second, and so inside
    its 32 bits, for every subsecond the header can have. *)
Lemma clash_rs_nanos_small (subsecond : string) (nanos : N) :
  (1 <= String.length subsecond <= 9)%nat -> clash_rs_nanos subsecond = Some nanos ->
  nanos < 10 ^ 9
  /\ exists n, parse_u32 subsecond = Some n /\ nanos = n * 10 ^ N.of_nat (9 - String.length subsecond).
Proof.
  intros Hl (n & Hn & [= <-])%bind_Some.
  assert (n * 10 ^ N.of_nat (9 - String.length subsecond) < 10 ^ 9) as Hsmall.
  { pose proof (from_str_radix_small _ _ _ Hn) as Hlt.
    replace 9 with (N.of_nat (String.length subsecond) + N.of_nat (9 - String.length subsecond)) by lia.
    rewrite N.pow_add_r. apply N.mul_lt_mono_pos_r; [|done]. apply N.neq_0_lt_0, N.pow_nonzero. lia. }
  unfold wrapping_mul. rewrite N.mod_small; [by split; [|eexists]|].
  etransitivity; [exact Hsmall|]. vm_compute. reflexivity.
Qed.

(** ** The mihomo record *)

Section Mihomo.
Context `{Chrono}.

Definition own_field (f : bool * (string * string)) : bool :=
  negb (bool_decide (f.2.1 ∈ ["time"; "level"; "msg"])).

Lemma own_fields_collected (fields : list (bool * (string * string))) raw_time level message collected :
  Forall (fun f => own_field f = true) fields ->
  fold_left mihomo_field (snd <$> fields) (raw_time, level, message, collected)
  = (raw_time, level, message,
      collected ++ ((fun f => {| lf_key := f.2.1; lf_value := f.2.2 |}) <$> fields)).
Proof.
  intros Hf. revert collected. induction Hf as [|[q [key value]] fields Hk _ IH]; intros collected.
  { cbn. by rewrite app_nil_r. }
  cbn [fmap list_fmap snd fold_left mihomo_field]. apply negb_true_iff, bool_decide_eq_false in Hk. cbn in Hk.
  rewrite !decide_False by set_solver. rewrite IH. by rewrite <- app_assoc.
Qed.

(** The log format of mihomo round-trips.  A line printed from a time, a
    level, a message and further fields - every value bare or quoted, with any
    text in the quotes - is parsed back to exactly these: no escape, quote,
    equals sign or space of a value moves a field boundary. *)
Theorem logfmt_roundtrip (qt qm : bool) (time token message : string) (level : LogLevel)
    (fields : list (bool * (string * string))) :
  parse_level token = Some level ->
  Forall (fun f => printable f = true)
    ((qt, ("time", time)) :: (false, ("level", token)) :: (qm, ("msg", message)) :: fields) ->
  Forall (fun f => own_field f = true) fields ->
  parse_mihomo
    (print_logfmt ((qt, ("time", time)) :: (false, ("level", token)) :: (qm, ("msg", message)) :: fields))
  = Some {| pl_timestamp := Some {| lt_raw := time; lt_unix_ms := rfc3339_millis time; lt_inferred := false |};
            pl_level := level; pl_target := None; pl_message := message;
            pl_fields := (fun f => {| lf_key := f.2.1; lf_value := f.2.2 |}) <$> fields |}.
Proof.
  intros Hl Hp Ho. unfold parse_mihomo. rewrite scan_logfmt_print by done. cbn [mbind option_bind].
  change (fold_left mihomo_field _ _)
    with (fold_left mihomo_field (snd <$> fields) (Some time, parse_level token, Some message, [])).
  rewrite own_fields_collected by done. cbn. by rewrite Hl.
Qed.

End Mihomo.

(** A calendar of days and nanoseconds, for the witnesses. *)
Definition demo_chrono : Chrono := {|
  NaiveDate := Z; NaiveTime := Z; FixedOffset := Z;
  from_ymd_opt y m d := Some (y * 372 + Z.of_N m * 31 + Z.of_N d)%Z;
  from_hms_nano_opt h m s n := Some (((Z.of_N h * 60 + Z.of_N m) * 60 + Z.of_N s) * 1000000000 + Z.of_N n)%Z;
  parse_hms s := Some (Z.of_nat (String.length s));
  succ_opt d := Some (d + 1)%Z;
  pred_opt d := Some (d - 1)%Z;
  signed_duration_since a b := (a - b)%Z;
  from_local_single offset d t := Some (d * 86400000 + t / 1000000 - offset * 1000)%Z;
  rfc3339_millis s := None;
|}.
Definition demo_observed : @DateTime demo_chrono := @Build_DateTime demo_chrono 1700000000000%Z 19675%Z 80000000000000%Z 0%Z.

Lemma logfmt_roundtrip_witness :
  @parse_mihomo demo_chrono
    (print_logfmt [(true, ("time", "2026-01-02T03:04:05Z")); (false, ("level", "warning"));
                   (true, ("msg", "a=b \ c")); (false, ("proxy", "x"))])
  = Some {| pl_timestamp := Some {| lt_raw := "2026-01-02T03:04:05Z"; lt_unix_ms := None; lt_inferred := false |};
            pl_level := LWarning; pl_target := None; pl_message := "a=b \ c";
            pl_fields := [{| lf_key := "proxy"; lf_value := "x" |}] |}.
Proof.
  apply (@logfmt_roundtrip demo_chrono true true "2026-01-02T03:04:05Z" "warning" "a=b \ c" LWarning [(false, ("proxy", "x"))]).
  - reflexivity.
  - repeat constructor.
  - repeat constructor.
Defined.
