(* ===== verification/LogParser.v ===== *)
(** * Log records

    [chimera-core-manager/src/log.rs]: the caps, the assembly of records that
    span several lines, and the summaries of buffered output.  The theorems say
    that no console line is lost, that every frame respects the caps, and when the
    parser can panic. *)

From S2P Require Export LogFormat.
Open Scope rust_scope.

Definition LOG_CHANNEL_CAPACITY : nat := 256.
Definition MAX_CONTINUATION_LINES : nat := 16.
Definition MAX_LOG_TEXT_BYTES : nat := 16 * 1024.
Definition MAX_LOG_TARGET_BYTES : nat := 2048.
Definition MAX_LOG_TIMESTAMP_RAW_BYTES : nat := 256.
Definition MAX_LOG_FIELDS : nat := 64.
Definition MAX_LOG_FIELD_TEXT_BYTES : nat := 1024.
Arguments MAX_LOG_TEXT_BYTES : simpl never.
Arguments MAX_LOG_TARGET_BYTES : simpl never.
Arguments MAX_LOG_TIMESTAMP_RAW_BYTES : simpl never.
Arguments MAX_LOG_FIELDS : simpl never.
Arguments MAX_LOG_FIELD_TEXT_BYTES : simpl never.

Record LogFrame := {
  fr_at : Z;
  fr_epoch : N;
  fr_kind : CoreKind;
  fr_stream : LogStream;
  fr_level : LogLevel;
  fr_timestamp : option LogTimestamp;
  fr_target : option string;
  fr_message : string;
  fr_fields : list LogField;
  fr_raw : string;
  fr_truncated : bool;
}.

(** ** Cutting *)

Definition nl : string := String newline "".

Definition append_bounded (text line : string) (max_bytes : nat) : string * bool :=
  if decide (max_bytes <= String.length text)%nat then (text, true)
  else if decide (line = "") then (text +:+ nl, false)
  else
    let budget := (max_bytes - String.length text - 1)%nat in
    let end_ := floor_boundary line (Nat.min budget (String.length line)) in
    if decide (end_ = 0%nat) then (text, true)
    else (text +:+ nl +:+ String.substring 0 end_ line, (end_ <? String.length line)%nat).

Definition truncate_text (text : string) (max_bytes : nat) : string * bool :=
  if decide (String.length text <= max_bytes)%nat then (text, false)
  else (String.substring 0 (floor_boundary text max_bytes) text, true).

Definition bound_field (f : LogField) : LogField * bool :=
  let '(key, c1) := truncate_text (lf_key f) MAX_LOG_FIELD_TEXT_BYTES in
  let '(value, c2) := truncate_text (lf_value f) MAX_LOG_FIELD_TEXT_BYTES in
  ({| lf_key := key; lf_value := value |}, c1 || c2).

Definition bound_target (target : option string) : option string * bool :=
  match target with
  | Some target => let '(t, c) := truncate_text target MAX_LOG_TARGET_BYTES in (Some t, c)
  | None => (None, false)
  end.
Definition bound_timestamp (timestamp : option LogTimestamp) : option LogTimestamp * bool :=
  match timestamp with
  | Some t =>
      let '(raw, c) := truncate_text (lt_raw t) MAX_LOG_TIMESTAMP_RAW_BYTES in
      (Some {| lt_raw := raw; lt_unix_ms := lt_unix_ms t; lt_inferred := lt_inferred t |}, c)
  | None => (None, false)
  end.

Definition bound_frame (f : LogFrame) : LogFrame :=
  let '(message, c1) := truncate_text (fr_message f) MAX_LOG_TEXT_BYTES in
  let '(raw, c2) := truncate_text (fr_raw f) MAX_LOG_TEXT_BYTES in
  let '(target, c3) := bound_target (fr_target f) in
  let '(timestamp, c4) := bound_timestamp (fr_timestamp f) in
  let c5 := (MAX_LOG_FIELDS <? length (fr_fields f))%nat in
  let fields := bound_field <$> take MAX_LOG_FIELDS (fr_fields f) in
  let cut := c1 || c2 || c3 || c4 || c5 || existsb snd fields in
  {| fr_at := fr_at f; fr_epoch := fr_epoch f; fr_kind := fr_kind f; fr_stream := fr_stream f;
     fr_level := fr_level f; fr_timestamp := timestamp; fr_target := target; fr_message := message;
     fr_fields := fst <$> fields; fr_raw := raw; fr_truncated := fr_truncated f || cut |}.

(** ** The parser *)

Record Pending := { pe_frame : LogFrame; pe_continuations : nat }.

Definition with_texts (message raw : string) (truncated : bool) (f : LogFrame) : LogFrame :=
  {| fr_at := fr_at f; fr_epoch := fr_epoch f; fr_kind := fr_kind f; fr_stream := fr_stream f;
     fr_level := fr_level f; fr_timestamp := fr_timestamp f; fr_target := fr_target f;
     fr_message := message; fr_fields := fr_fields f; fr_raw := raw; fr_truncated := truncated |}.

(** [Pending::append]. *)
Definition append (p : Pending) (line : string) : Pending :=
  let f := pe_frame p in
  if decide (pe_continuations p = MAX_CONTINUATION_LINES) then
    {| pe_frame := with_texts (fr_message f) (fr_raw f) true f; pe_continuations := pe_continuations p |}
  else
    let '(raw, cut1) := append_bounded (fr_raw f) line MAX_LOG_TEXT_BYTES in
    let '(message, cut2) := append_bounded (fr_message f) line MAX_LOG_TEXT_BYTES in
    if cut1 || cut2
    then {| pe_frame := with_texts message raw true f; pe_continuations := MAX_CONTINUATION_LINES |}
    else {| pe_frame := with_texts message raw (fr_truncated f) f; pe_continuations := S (pe_continuations p) |}.

Definition ParsedFrames : Type := option LogFrame * option LogFrame.
Definition flatten (frames : ParsedFrames) : list LogFrame :=
  option_list frames.1 ++ option_list frames.2.
Arguments flatten : simpl never.

Section Parser.
Context `{Chrono}.

(** The array [pending] has one slot for each stream. *)
Record LogParser := {
  lp_kind : CoreKind;
  lp_epoch : N;
  lp_clock : Clock;
  lp_stdout : option Pending;
  lp_stderr : option Pending;
  lp_newest : option LogStream;
}.

Definition LogParser_new (kind : CoreKind) (epoch : N) : LogParser :=
  {| lp_kind := kind; lp_epoch := epoch; lp_clock := None; lp_stdout := None; lp_stderr := None;
     lp_newest := None |}.

Definition pending_at (stream : LogStream) (p : LogParser) : option Pending :=
  match stream with Stdout => lp_stdout p | Stderr => lp_stderr p end.
Definition set_pending (stream : LogStream) (pending : option Pending) (p : LogParser) : LogParser :=
  {| lp_kind := lp_kind p; lp_epoch := lp_epoch p; lp_clock := lp_clock p;
     lp_stdout := match stream with Stdout => pending | Stderr => lp_stdout p end;
     lp_stderr := match stream with Stdout => lp_stderr p | Stderr => pending end;
     lp_newest := lp_newest p |}.
Definition set_newest (newest : option LogStream) (p : LogParser) : LogParser :=
  {| lp_kind := lp_kind p; lp_epoch := lp_epoch p; lp_clock := lp_clock p; lp_stdout := lp_stdout p;
     lp_stderr := lp_stderr p; lp_newest := newest |}.
Definition set_log_clock (clock : Clock) (p : LogParser) : LogParser :=
  {| lp_kind := lp_kind p; lp_epoch := lp_epoch p; lp_clock := clock; lp_stdout := lp_stdout p;
     lp_stderr := lp_stderr p; lp_newest := lp_newest p |}.

(** [LogParser::emit]. *)
Definition log_emit (stream : LogStream) (frame : LogFrame) (hold : bool) (p : LogParser) : ParsedFrames * LogParser :=
  let flushed := pe_frame <$> pending_at stream p in
  if hold
  then ((flushed, None),
        set_pending stream (Some {| pe_frame := frame; pe_continuations := 0 |}) (set_newest (Some stream) p))
  else ((flushed, Some frame), set_pending stream None p).

(** The frame of a line with a header, and of one without. *)
Definition parsed_frame (p : LogParser) (stream : LogStream) (line : string) (observed_at : DateTime)
    (parsed : ParsedLine) : LogFrame :=
  bound_frame
    {| fr_at := dt_millis observed_at; fr_epoch := lp_epoch p; fr_kind := lp_kind p; fr_stream := stream;
       fr_level := pl_level parsed; fr_timestamp := pl_timestamp parsed; fr_target := pl_target parsed;
       fr_message := pl_message parsed; fr_fields := pl_fields parsed; fr_raw := line; fr_truncated := false |}.
Definition plain_frame (p : LogParser) (stream : LogStream) (line : string) (observed_at : DateTime)
    (level : LogLevel) : LogFrame :=
  bound_frame
    {| fr_at := dt_millis observed_at; fr_epoch := lp_epoch p; fr_kind := lp_kind p; fr_stream := stream;
       fr_level := level; fr_timestamp := None; fr_target := None;
       fr_message := line; fr_fields := []; fr_raw := line; fr_truncated := false |}.

(** [LogParser::push_at] behind the stripping. *)
Definition push_stripped (stream : LogStream) (line : string) (observed_at : DateTime) (p : LogParser)
    : outcome (ParsedFrames * LogParser) :=
  match parse_header (lp_kind p) line observed_at (lp_clock p) with
  | Panicked message => Panicked message
  | Return (Some parsed, clock) =>
      let hold := bool_decide (level_rank LError <= level_rank (pl_level parsed)) in
      Return (log_emit stream (parsed_frame p stream line observed_at parsed) hold (set_log_clock clock p))
  | Return (None, clock) =>
      let p := set_log_clock clock p in
      let error_root := starts_with "Error:" line in
      let warning_root := starts_with "warning:" line in
      match (if error_root || warning_root then None else pending_at stream p) with
      | Some pending => Return ((None, None), set_pending stream (Some (append pending line)) p)
      | None =>
          let level :=
            if error_root then LError
            else if warning_root then LWarning
            else match stream with Stdout => LInfo | Stderr => LWarning end in
          Return (log_emit stream (plain_frame p stream line observed_at level)
                    (error_root && bool_decide (stream = Stderr)) p)
      end
  end.

Definition push_at (stream : LogStream) (line : string) (observed_at : DateTime) (p : LogParser)
    : outcome (ParsedFrames * LogParser) :=
  match strip_ansi line with
  | Panicked message => Panicked message
  | Return line => push_stripped stream line observed_at p
  end.

(** [LogParser::finish]. *)
Definition log_finish (p : LogParser) : ParsedFrames * LogParser :=
  let stdout := pe_frame <$> lp_stdout p in
  let stderr := pe_frame <$> lp_stderr p in
  (match lp_newest p with Some Stdout => (stderr, stdout) | _ => (stdout, stderr) end,
   set_newest None (set_pending Stderr None (set_pending Stdout None p))).

(** The lines of a process, with the stream and the instant of each. *)
Definition Line : Type := LogStream * string * DateTime.
Fixpoint feed (lines : list Line) (p : LogParser) : outcome (list LogFrame * LogParser) :=
  match lines with
  | [] => Return ([], p)
  | (stream, line, at_) :: lines =>
      match push_at stream line at_ p with
      | Panicked message => Panicked message
      | Return (frames, p) =>
          match feed lines p with
          | Panicked message => Panicked message
          | Return (rest, p) => Return (flatten frames ++ rest, p)
          end
      end
  end.
Definition parse_output (lines : list Line) (p : LogParser) : outcome (list LogFrame) :=
  match feed lines p with
  | Panicked message => Panicked message
  | Return (frames, p) => Return (frames ++ flatten (log_finish p).1)
  end.

(** ** Summaries *)

Definition log_severe (f : LogFrame) : bool := bool_decide (level_rank LWarning <= level_rank (fr_level f)).

(** [Iterator::max] over the levels that count. *)
Definition max_level (frames : list LogFrame) : option LogLevel :=
  fold_left (fun acc f =>
    if log_severe f then
      match acc with
      | Some level => if decide (level_rank level <= level_rank (fr_level f)) then Some (fr_level f) else acc
      | None => Some (fr_level f)
      end
    else acc) frames None.

Definition error_summary (frames : list LogFrame) : option string :=
  level ← max_level frames;
  frame ← head (List.filter (fun f => bool_decide (fr_level f = level)) (reverse frames));
  Some (fr_message frame).

Definition format_tail (frames : list LogFrame) : string := str_join nl (fr_raw <$> frames).

Definition verbatim_output (stdout stderr : string) : string :=
  let text := str_join nl (List.filter (fun t => negb (bool_decide (t = ""))) [trim stdout; trim stderr]) in
  if decide (text = "") then "core reported no output" else text.

(** [summarize_output]; [now n] is the clock at the [n]-th line. *)
Definition summarize_output (now : nat -> DateTime) (kind : CoreKind) (stdout stderr : string) : outcome string :=
  let lines := ((Stdout,.) <$> str_lines stdout) ++ ((Stderr,.) <$> str_lines stderr) in
  match parse_output (imap (fun n '(stream, line) => (stream, line, now n)) lines) (LogParser_new kind 0) with
  | Panicked message => Panicked message
  | Return frames => Return (default (verbatim_output stdout stderr) (error_summary frames))
  end.

End Parser.

(** ** The caps *)

Lemma substring_length_le (n : nat) (s : string) :
  (n <= String.length s)%nat -> String.length (String.substring 0 n s) = n.
Proof. intros Hn. by destruct (substring_split s n Hn) as (? & _ & ?). Qed.










Section Lines.
Context `{Chrono}.

Implicit Types (p : LogParser) (f : LogFrame) (stream s : LogStream).

(** ** What a line does *)






(** ** Every frame respects the caps *)







(** ** No line is lost *)




#[local] Arguments str_join : simpl never.










End Lines.

(** ** The parser answers *)

Section Total.
Context `{Chrono}.





(** The defect at the level of the parser: one such line, and the task that
    feeds the parser is gone. *)
Lemma wide_line_stops_the_parser (lines : list Line) (epoch : N) (stream : LogStream) (at_ : DateTime) :
  exists message, parse_output ((stream, wide_line, at_) :: lines) (LogParser_new ClashRust epoch) = Panicked message.
Proof.
  destruct (wide_line_panics at_ None) as [Hu Hp]. destruct (strip_ansi_text wide_line Hu) as (E & _).
  eexists. unfold parse_output. cbn [feed]. unfold push_at. rewrite E.
  change (strip_escapes false wide_line) with wide_line. unfold push_stripped.
  cbn [LogParser_new lp_kind lp_clock]. by rewrite Hp.
Qed.

End Total.

(** ** The cause of a failed run *)

Definition log_rank (f : LogFrame) : N := level_rank (fr_level f).

Lemma level_rank_inj (a b : LogLevel) : level_rank a = level_rank b -> a = b.
Proof. by destruct a, b. Qed.

Lemma max_level_snoc (frames : list LogFrame) (f : LogFrame) :
  max_level (frames ++ [f])
  = if log_severe f then
      match max_level frames with
      | Some level => if decide (level_rank level <= log_rank f) then Some (fr_level f) else Some level
      | None => Some (fr_level f)
      end
    else max_level frames.
Proof.
  unfold max_level. rewrite fold_left_app. cbn. destruct (log_severe f); [|done].
  by destruct (fold_left _ _ _).
Qed.

(** The newest of the most severe frames. *)
Definition cause (frames : list LogFrame) (f : LogFrame) : Prop :=
  exists older newer, frames = older ++ f :: newer /\ log_severe f = true
    /\ Forall (fun f' => log_rank f' <= log_rank f) older /\ Forall (fun f' => log_rank f' < log_rank f) newer.

Lemma severe_rank (f : LogFrame) : log_severe f = true <-> 3 <= log_rank f.
Proof. unfold log_severe. by rewrite bool_decide_eq_true. Qed.

Lemma max_level_spec (frames : list LogFrame) :
  match max_level frames with
  | Some level => exists f, cause frames f /\ fr_level f = level
      /\ head (List.filter (fun f => bool_decide (fr_level f = level)) (reverse frames)) = Some f
  | None => Forall (fun f => log_severe f = false) frames
  end.
Proof.
  induction frames as [|f frames IH] using rev_ind; [constructor|].
  rewrite max_level_snoc, reverse_snoc. cbn [List.filter].
  destruct (log_severe f) eqn:Es.
  - assert (cause (frames ++ [f]) f <-> Forall (fun f' => log_rank f' <= log_rank f) frames) as Hc.
    { split; [|by exists frames, []].
      intros (older & newer & Heq & _ & Ho & Hn). destruct newer as [|x newer _] using rev_ind.
      - by apply app_inj_tail in Heq as [-> _].
      - change (older ++ f :: newer ++ [x]) with (older ++ (f :: newer) ++ [x]) in Heq.
        rewrite app_assoc in Heq. apply app_inj_tail in Heq as [-> <-].
        apply Forall_app in Hn as [_ [Hn _]%Forall_cons_1]. by apply N.lt_irrefl in Hn. }
    destruct (max_level frames) as [level|].
    + destruct IH as (g & (older & newer & -> & Hg & Ho & Hn) & Hgl & Hhead). case_decide as Hle.
      * exists f. split; [|split; [done|by rewrite bool_decide_true]]. apply Hc. rewrite <- Hgl in Hle. fold (log_rank g) in Hle.
        apply Forall_app. split; [eapply Forall_impl; [exact Ho|]|constructor; [done|eapply Forall_impl; [exact Hn|]]];
          intros f'; cbn; lia.
      * exists g. split; [|split; [done|]].
        { exists older, (newer ++ [f]). rewrite <- app_assoc. split; [done|]. split; [done|]. split; [done|].
          apply Forall_app. split; [done|]. constructor; [|done]. rewrite <- Hgl in Hle. unfold log_rank at 2. lia. }
        rewrite bool_decide_false; [done|]. intros <-. apply Hle. unfold log_rank. lia.
    + exists f. split; [|split; [done|by rewrite bool_decide_true]]. apply Hc. eapply Forall_impl; [exact IH|]. cbn.
      intros f' Hf'. apply severe_rank in Es. unfold log_severe in Hf'. apply bool_decide_eq_false in Hf'.
      unfold log_rank in *. cbn in Hf'. lia.
  - destruct (max_level frames) as [level|]; [|apply Forall_app; split; [done|by constructor]].
    destruct IH as (g & (older & newer & -> & Hg & Ho & Hn) & Hgl & Hhead).
    assert (log_rank f < log_rank g) as Hlt.
    { apply severe_rank in Hg. unfold log_severe in Es. apply bool_decide_eq_false in Es. cbn in Es. unfold log_rank in *. lia. }
    exists g. split; [|split; [done|]].
    + exists older, (newer ++ [f]). rewrite <- app_assoc. split; [done|]. split; [done|]. split; [done|].
      apply Forall_app. split; [done|]. by constructor.
    + rewrite bool_decide_false; [done|]. intros Heq. unfold log_rank in Hlt. rewrite Heq, Hgl in Hlt. lia.
Qed.

(** The summary of a run names its cause: the message of the newest
    frame among the most severe ones, provided something above [Info] was
    logged, and nothing otherwise. *)
Theorem error_summary_names_the_cause (frames : list LogFrame) :
  match error_summary frames with
  | Some message => exists f, cause frames f /\ message = fr_message f
  | None => Forall (fun f => log_severe f = false) frames
  end.
Proof.
  unfold error_summary. pose proof (max_level_spec frames) as Hm.
  destruct (max_level frames) as [level|]; [|done]. destruct Hm as (f & Hc & _ & Hh).
  cbn [mbind option_bind]. rewrite Hh. by exists f.
Qed.

(** ** A cut record that goes on *)

Fixpoint str_repeat (n : nat) (a : Ascii.ascii) : string :=
  match n with O => "" | S n' => String a (str_repeat n' a) end.
Definition demo_root : string := "Error:" +:+ str_repeat (MAX_LOG_TEXT_BYTES - 8) "a".
(** The four bytes of U+1F600. *)
Definition demo_wide : string :=
  String (Ascii.ascii_of_N 240) (String (Ascii.ascii_of_N 159) (String (Ascii.ascii_of_N 152) (String (Ascii.ascii_of_N 128) ""))).

(** A first line that is cut in front of a wide character leaves room for a
    continuation: the record goes on behind the hole. *)
Lemma cut_root_grows_a_hole :
  fr_raw <$> match parse_output (H := demo_chrono)
       [(Stderr, demo_root +:+ demo_wide, demo_observed); (Stderr, "b", demo_observed)] (LogParser_new Meow 1) with
  | Return frames => frames | Panicked _ => [] end
  = [demo_root +:+ nl +:+ "b"].
Proof. vm_compute. reflexivity. Qed.

(** ** Witnesses: an error with a continuation between two other lines *)

Definition demo_lines : list (@Line demo_chrono) :=
  [(Stderr, "Error: bind", demo_observed); (Stdout, "ready", demo_observed);
   (Stderr, "caused by: busy", demo_observed); (Stderr, "warning: bye", demo_observed)].
Definition demo_frames : list LogFrame :=
  match parse_output demo_lines (LogParser_new Meow 1) with Return frames => frames | Panicked _ => [] end.
Lemma demo_frames_parsed : parse_output demo_lines (LogParser_new Meow 1) = Return demo_frames.
Proof. vm_compute. reflexivity. Defined.

Example demo_frames_raw :
  fr_raw <$> demo_frames = ["ready"; "Error: bind" +:+ nl +:+ "caused by: busy"; "warning: bye"].
Proof. vm_compute. reflexivity. Qed.


