(* ===== verification/PidRecord.v ===== *)
(** * Pid records

    [chimera-utils/src/process/pid_file.rs], the part without effects: the
    versioned text of an epoch's pid record, the names of its files, and the
    comparison of a record with the identity of a live process.  The host is
    Linux. *)

From S2P Require Export Text Types.
Open Scope rust_scope.

(** [std::io::Error] with the kinds the code tells apart and the raw code. *)
Inductive ErrorKind :=
| EkNotFound | EkPermissionDenied | EkAlreadyExists | EkInvalidInput | EkInvalidData | EkWouldBlock | EkTimedOut | EkOther.
#[export] Instance ErrorKind_eq_dec : EqDecision ErrorKind.
Proof. solve_decision. Defined.
Record StdError := { se_kind : ErrorKind; se_raw : option N; se_text : string }.
Definition std_error (kind : ErrorKind) (text : string) : StdError :=
  {| se_kind := kind; se_raw := None; se_text := text |}.
Definition invalid_input : string -> StdError := std_error EkInvalidInput.
Definition invalid_data : string -> StdError := std_error EkInvalidData.
Definition identity_error : string -> StdError := std_error EkPermissionDenied.

Definition EPOCH_PID_VERSION : N := 2.
Definition IDENTITY_WAIT_ATTEMPTS : nat := 20.
Definition KILL_WAIT_ATTEMPTS : nat := 100.

Record EpochPidFile := { ep_path : string; ep_epoch : N; ep_runtime_config : string }.
Record EpochPidRecord := {
  er_pid : N;
  er_epoch : N;
  er_executable : string;
  er_start_token : N;
  er_runtime_config : string;
}.

Inductive OrphanReapOutcome := ReapNotFound | ReapAlreadyExited | ReapKilled.

Record ProcessIdentity := {
  pi_executable : option string;
  pi_start_token : N;
  pi_legacy_start_token : option N;
}.
Inductive IdentityMatch := IdSame | IdReused | IdUncertain.
#[export] Instance IdentityMatch_eq_dec : EqDecision IdentityMatch.
Proof. solve_decision. Defined.

(** ** Identities *)

Definition exe_names_equal (left right : string) : bool := bool_decide (left = right).
Definition recorded_executable_matches (recorded observed : string) : bool :=
  exe_names_equal recorded observed
  || match strip_suffix " (deleted)" observed with
     | Some observed => exe_names_equal recorded observed
     | None => false
     end.

Definition compare_identity (record : EpochPidRecord) (identity : ProcessIdentity) : IdentityMatch :=
  if decide (pi_legacy_start_token identity = Some (er_start_token record)) then IdUncertain
  else if decide (er_start_token record <> pi_start_token identity) then IdReused
  else match pi_executable identity with
       | Some executable =>
           if recorded_executable_matches (er_executable record) executable then IdSame else IdUncertain
       | None => IdUncertain
       end.
Definition record_matches_identity (record : EpochPidRecord) (identity : ProcessIdentity) : bool :=
  bool_decide (compare_identity record identity = IdSame).

(** [u64::to_le_bytes], least significant byte first. *)
Fixpoint le_bytes (width : nat) (n : N) : string :=
  match width with
  | O => EmptyString
  | S width' => String (Ascii.ascii_of_N (n mod 256)) (le_bytes width' (n / 256))
  end.
Definition boot_bound_start_token (boot_id : string) (ticks : N) : N :=
  fnv1a (bytes_of_string (boot_id +:+ le_bytes 8 ticks)).

(** [linux_start_ticks] on the text of [/proc/<pid>/stat]. *)
Definition parse_stat (pid : N) (stat : string) : result N StdError :=
  let path := "/proc/" +:+ show_N pid +:+ "/stat" in
  let? behind := ok_or (snd <$> rsplit_once ")" stat) (invalid_data ("malformed " +:+ path)) in
  let? field := ok_or (split_whitespace behind !! 19%nat) (invalid_data ("missing start time in " +:+ path)) in
  ok_or (parse_u64 field) (invalid_data ("invalid start time in " +:+ path)).

(** ** The text of a record *)

Fixpoint hex_encode (bytes : string) : string :=
  match bytes with
  | EmptyString => EmptyString
  | String byte rest =>
      let n := Ascii.N_of_ascii byte in
      String (nibble (n / 16)) (String (nibble (n mod 16)) (hex_encode rest))
  end.

Definition hex_nibble (value : Ascii.ascii) : result N StdError :=
  if is_digit value then Ok (Ascii.N_of_ascii value - 48)
  else if in_range 97 102 value then Ok (Ascii.N_of_ascii value - 97 + 10)
  else Err (invalid_data "invalid hex field").

Fixpoint decode_pairs (value : string) : result string StdError :=
  match value with
  | String a (String b rest) =>
      let? high := hex_nibble a in
      let? low := hex_nibble b in
      let? rest := decode_pairs rest in
      Ok (String (Ascii.ascii_of_N (16 * high + low)) rest)
  | _ => Ok EmptyString
  end.
Definition hex_decode (value : string) : result string StdError :=
  if Nat.even (String.length value) then decode_pairs value
  else Err (invalid_data "hex field has odd length").

Definition write_epoch_fields (version : N) (record : EpochPidRecord) : string :=
  "version=" +:+ show_N version +:+ String newline
  ("pid=" +:+ show_N (er_pid record) +:+ String newline
  ("epoch=" +:+ show_N (er_epoch record) +:+ String newline
  ("executable=" +:+ hex_encode (er_executable record) +:+ String newline
  ("start-token=" +:+ show_N (er_start_token record) +:+ String newline
  ("runtime-config=" +:+ hex_encode (er_runtime_config record) +:+ String newline ""))))).
Definition serialize_epoch_record (record : EpochPidRecord) : string :=
  write_epoch_fields EPOCH_PID_VERSION record.

Fixpoint record_fields (lines : list string) (fields : gmap string string) : result (gmap string string) StdError :=
  match lines with
  | [] => Ok fields
  | line :: lines =>
      match split_once "=" line with
      | None => Err (invalid_data "malformed epoch pid record line")
      | Some (key, value) =>
          if decide (is_Some (fields !! key)) then Err (invalid_data "duplicate epoch pid record field")
          else record_fields lines (<[key := value]> fields)
      end
  end.

Definition expected_fields : list string :=
  ["epoch"; "executable"; "pid"; "runtime-config"; "start-token"; "version"].

Definition required (fields : gmap string string) (key : string) : result string StdError :=
  ok_or (fields !! key) (invalid_data ("missing epoch pid field `" +:+ key +:+ "`")).
Definition parse_field (modulus : N) (fields : gmap string string) (key : string) : result N StdError :=
  let? value := required fields key in
  ok_or (from_str_radix 10 modulus value) (invalid_data ("invalid epoch pid field `" +:+ key +:+ "`")).

Definition from_utf8 (bytes : string) (message : string) : result string StdError :=
  if utf8_valid bytes then Ok bytes else Err (invalid_data message).

Definition parse_epoch_record (raw : string) : result EpochPidRecord StdError :=
  let? fields := record_fields (str_lines raw) ∅ in
  if decide (size fields <> length expected_fields
             \/ ~ Forall (fun key => is_Some (fields !! key)) expected_fields)
  then Err (invalid_data "epoch pid record fields are incomplete")
  else
    let? version := parse_field (2 ^ 32) fields "version" in
    if decide (version <> EPOCH_PID_VERSION)
    then Err (invalid_data ("unsupported epoch pid record version " +:+ show_N version))
    else
      let? executable := required fields "executable" in
      let? executable := hex_decode executable in
      let? executable := from_utf8 executable "epoch pid executable is not UTF-8" in
      let? runtime_config := required fields "runtime-config" in
      let? runtime_config := hex_decode runtime_config in
      let? runtime_config := from_utf8 runtime_config "epoch pid runtime path is not UTF-8" in
      let? start_token := parse_field u64_modulus fields "start-token" in
      let? pid := parse_field (2 ^ 32) fields "pid" in
      let? epoch := parse_field u64_modulus fields "epoch" in
      Ok {| er_pid := pid; er_epoch := epoch; er_executable := executable; er_start_token := start_token;
            er_runtime_config := runtime_config |}.

(** ** Names *)

(** [name] is the file name of the path, [None] when it has none. *)
Definition epoch_from_name (name : option string) (prefix suffix : string) : result N StdError :=
  let? name := ok_or name (invalid_input "epoch artifact filename must be UTF-8") in
  let? epoch := ok_or (strip_prefix prefix name ≫= strip_suffix suffix)
                  (invalid_input ("invalid epoch artifact name `" +:+ name +:+ "`")) in
  ok_or (parse_u64 epoch) (invalid_input ("invalid epoch in artifact name `" +:+ name +:+ "`")).

(** ** The text round-trips *)

Lemma hex_nibble_nibble (n : N) : n < 16 -> hex_nibble (nibble n) = Ok n.
Proof.
  intros H. assert (forall k, (k < 16)%nat -> hex_nibble (nibble (N.of_nat k)) = Ok (N.of_nat k)) as Hk.
  { intros k Hk. do 16 (destruct k as [|k]; [by vm_compute|]). lia. }
  specialize (Hk (N.to_nat n)). rewrite N2Nat.id in Hk. apply Hk. lia.
Qed.

Lemma hex_encode_length (bytes : string) : String.length (hex_encode bytes) = (2 * String.length bytes)%nat.
Proof. induction bytes as [|b bytes IH]; [done|]. cbn. rewrite IH. lia. Qed.

Lemma hex_decode_encode (bytes : string) : hex_decode (hex_encode bytes) = Ok bytes.
Proof.
  unfold hex_decode. rewrite hex_encode_length, Nat.even_mul. cbn [Nat.even orb].
  induction bytes as [|b bytes IH]; [done|]. cbn [hex_encode decode_pairs].
  pose proof (Ascii.N_ascii_bounded b) as Hb. set (n := Ascii.N_of_ascii b) in *.
  rewrite hex_nibble_nibble by (apply N.Div0.div_lt_upper_bound; lia).
  rewrite hex_nibble_nibble by (apply N.mod_lt; lia). cbn. rewrite IH. cbn.
  rewrite <- N.div_mod' . unfold n. by rewrite Ascii.ascii_N_embedding.
Qed.

Definition line_char (a : Ascii.ascii) : bool := negb (bool_decide (a = newline)) && negb (in_range 13 13 a).

Lemma split_lines_line (cur line rest : string) :
  str_all line_char line = true ->
  split_lines cur (line +:+ String newline rest)
  = default (cur +:+ line) (strip_suffix (String (Ascii.ascii_of_N 13) "") (cur +:+ line)) :: split_lines "" rest.
Proof.
  revert cur. induction line as [|a line IH]; intros cur.
  - intros _. rewrite string_app_nil_l, string_app_nil_r. cbn [split_lines]. by rewrite decide_True.
  - cbn [str_all]. intros [[Ha _]%andb_true_iff Hl]%andb_true_iff. apply negb_true_iff, bool_decide_eq_false in Ha.
    rewrite string_app_cons. cbn [split_lines]. rewrite decide_False by done. rewrite IH by done.
    by rewrite <- string_app_assoc, string_app_cons, string_app_nil_l.
Qed.

Lemma str_lines_line (line rest : string) :
  str_all line_char line = true -> str_lines (line +:+ String newline rest) = line :: str_lines rest.
Proof.
  intros Hl. unfold str_lines. rewrite split_lines_line, string_app_nil_l by done. f_equal.
  destruct (strip_suffix _ line) as [r|] eqn:E; [|done]. exfalso.
  apply strip_suffix_Some in E. subst line. rewrite str_all_app in Hl. by apply andb_true_iff in Hl as [_ Hl].
Qed.

Lemma hex_encode_chars (bytes : string) : str_all is_lower_hex (hex_encode bytes) = true.
Proof.
  induction bytes as [|b bytes IH]; [done|]. cbn. pose proof (Ascii.N_ascii_bounded b) as Hb.
  rewrite IH, andb_true_r. apply andb_true_iff. split; apply nibble_hex; [apply N.Div0.div_lt_upper_bound; lia|].
  apply N.mod_lt. lia.
Qed.

Lemma lower_hex_line (s : string) : str_all is_lower_hex s = true -> str_all line_char s = true.
Proof.
  apply str_all_impl. intros a Ha. apply lower_hex_nibble in Ha as (d & _ & Hd & <-).
  assert (forall k, (k < 16)%nat -> line_char (nibble (N.of_nat k)) = true) as Hk.
  { intros k Hk. do 16 (destruct k as [|k]; [by vm_compute|]). lia. }
  specialize (Hk (N.to_nat d)). rewrite N2Nat.id in Hk. apply Hk. lia.
Qed.
Lemma digits_line (s : string) : str_all is_digit s = true -> str_all line_char s = true.
Proof. intros Hs. apply lower_hex_line. revert Hs. apply str_all_impl. intros a Ha. unfold is_lower_hex. by rewrite Ha. Qed.

Lemma record_fields_line (key value : string) (lines : list string) (fields : gmap string string) :
  str_all (fun a => negb (bool_decide (a = "="%char))) key = true -> fields !! key = None ->
  record_fields ((key +:+ "=" +:+ value) :: lines) fields = record_fields lines (<[key := value]> fields).
Proof.
  intros Hk Hf. cbn [record_fields]. rewrite (split_once_app "="%char "" key value) by done.
  rewrite decide_False; [done|]. rewrite Hf. by intros [].
Qed.

(** The values a record can have, by the widths of its fields and the text types
    of its strings. *)
Record RecordOk (record : EpochPidRecord) : Prop := {
  ok_pid : er_pid record < 2 ^ 32;
  ok_epoch : er_epoch record < u64_modulus;
  ok_token : er_start_token record < u64_modulus;
  ok_executable : Utf8 (er_executable record);
  ok_runtime_config : Utf8 (er_runtime_config record);
}.

(** The fields that are read back from the text of a record. *)
Record Written (version : N) (record : EpochPidRecord) (fields : gmap string string) : Prop := {
  wr_version : fields !! "version" = Some (show_N version);
  wr_pid : fields !! "pid" = Some (show_N (er_pid record));
  wr_epoch : fields !! "epoch" = Some (show_N (er_epoch record));
  wr_executable : fields !! "executable" = Some (hex_encode (er_executable record));
  wr_token : fields !! "start-token" = Some (show_N (er_start_token record));
  wr_config : fields !! "runtime-config" = Some (hex_encode (er_runtime_config record));
  wr_size : size fields = 6%nat;
}.

Lemma written_fields (version : N) (record : EpochPidRecord) :
  exists fields, record_fields (str_lines (write_epoch_fields version record)) ∅ = Ok fields /\ Written version record fields.
Proof.
  assert (str_lines (write_epoch_fields version record)
    = ["version" +:+ "=" +:+ show_N version; "pid" +:+ "=" +:+ show_N (er_pid record);
       "epoch" +:+ "=" +:+ show_N (er_epoch record);
       "executable" +:+ "=" +:+ hex_encode (er_executable record);
       "start-token" +:+ "=" +:+ show_N (er_start_token record);
       "runtime-config" +:+ "=" +:+ hex_encode (er_runtime_config record)]) as ->.
  { unfold write_epoch_fields.
    repeat (rewrite string_app_assoc, str_lines_line;
      [f_equal|rewrite str_all_app; apply andb_true_iff; split; [done|];
               first [apply digits_line, show_N_digits|apply lower_hex_line, hex_encode_chars]]). }
  rewrite !record_fields_line by (first [reflexivity|simplify_map_eq; reflexivity]).
  cbn [record_fields]. eexists; split; [done|]. split; by simplify_map_eq.
Qed.

Lemma written_complete version record fields : Written version record fields ->
  ~ (size fields <> length expected_fields \/ ~ Forall (fun key => is_Some (fields !! key)) expected_fields).
Proof.
  intros [Hf1 Hf2 Hf3 Hf4 Hf5 Hf6 Hsize] [Hs|Hs]; [by apply Hs|]. apply Hs. unfold expected_fields.
  repeat (constructor; [rewrite ?Hf1, ?Hf2, ?Hf3, ?Hf4, ?Hf5, ?Hf6; by eexists|]). constructor.
Qed.

(** C30: pid records round-trip: whatever the names hold - line breaks and
    equals signs included - the text written for a record is read back as
    exactly that record. *)
Theorem pid_record_roundtrip (record : EpochPidRecord) :
  RecordOk record -> parse_epoch_record (serialize_epoch_record record) = Ok record.
Proof.
  intros [Hpid Hepoch Htoken Hexe Hcfg]. unfold parse_epoch_record, serialize_epoch_record.
  destruct (written_fields EPOCH_PID_VERSION record) as (fields & -> & Hw). cbn [result_bind].
  rewrite decide_False by (by eapply written_complete). destruct Hw as [Hf1 Hf2 Hf3 Hf4 Hf5 Hf6 _].
  unfold parse_field, required. rewrite Hf1, Hf2, Hf3, Hf4, Hf5, Hf6. cbn [ok_or result_bind].
  rewrite !from_str_radix_show by (done || (by vm_compute)). cbn [ok_or result_bind].
  rewrite decide_False by (intros Hv; by apply Hv).
  rewrite !hex_decode_encode. cbn [result_bind]. unfold from_utf8.
  apply utf8_valid_Utf8 in Hexe as ->. cbn [result_bind]. apply utf8_valid_Utf8 in Hcfg as ->. cbn [result_bind].
  by destruct record.
Qed.

(** A record whose executable and directory hold a line break and equals
    signs. *)
Definition odd_record : EpochPidRecord :=
  {| er_pid := 4294967295; er_epoch := 3; er_executable := "co=re" +:+ String newline "pid=1"; er_start_token := 7;
     er_runtime_config := "/run/a=b/config-3.yaml" |}.

Lemma pid_record_roundtrip_witness : parse_epoch_record (serialize_epoch_record odd_record) = Ok odd_record.
Proof.
  apply (pid_record_roundtrip odd_record).
  split; [vm_compute; reflexivity..|apply utf8_valid_Utf8; vm_compute; reflexivity|apply utf8_valid_Utf8; vm_compute; reflexivity].
Defined.
