(* ===== verification/Control.v ===== *)
(** * The control plane's command surface

    [control/mod.rs] and the registry of [control/executor.rs]: operation
    identities and their text form, the payload digest the idempotency registry
    compares, the portable error surface, and the bounded registry with its
    admission, eviction, state update and query operations. *)

From S2P Require Export Types.

(** ** Operation identities *)

Record OperationId := { nanos : N; pid : N; counter : N }.
#[export] Instance OperationId_eq_dec : EqDecision OperationId.
Proof. solve_decision. Defined.
#[export] Instance OperationId_countable : Countable OperationId.
Proof.
  apply (inj_countable' (fun i => (nanos i, pid i, counter i))
    (fun '(n, p, c) => {| nanos := n; pid := p; counter := c |})).
  by intros [].
Defined.

(** The field widths of the struct: [u64], [u32], [u32]. *)
Definition OperationId_wf (i : OperationId) : Prop :=
  nanos i < 2 ^ 64 /\ pid i < 2 ^ 32 /\ counter i < 2 ^ 32.

Definition OperationId_fmt (i : OperationId) : string :=
  hex_fixed 16 (nanos i) +:+ "-" +:+ hex_fixed 8 (pid i) +:+ "-" +:+ hex_fixed 8 (counter i).

Definition id_byte_ok (b : Ascii.ascii) : bool :=
  bool_decide (b = "-"%char) || is_digit b
    || bool_decide (97 <= Ascii.N_of_ascii b /\ Ascii.N_of_ascii b <= 102).

Definition OperationId_from_str (value : string) : option OperationId :=
  '(n, rest) ← split_once "-" value;
  '(p, c) ← split_once "-" rest;
  if (negb (String.length n =? 16)%nat || negb (String.length p =? 8)%nat
      || negb (String.length c =? 8)%nat || negb (str_all id_byte_ok value))
  then None
  else
    n' ← from_str_radix 16 (2 ^ 64) n;
    p' ← from_str_radix 16 (2 ^ 32) p;
    c' ← from_str_radix 16 (2 ^ 32) c;
    Some {| nanos := n'; pid := p'; counter := c' |}.

(** [OperationId::generate], from the clock, the process id and the
    process-local counter ([fetch_add] wraps at 32 bits). *)
Definition OperationId_generate (now_nanos process_id count : N) : OperationId * N :=
  ({| nanos := now_nanos mod 2 ^ 64; pid := process_id; counter := count |},
   (count + 1) mod 2 ^ 32).

(** ** Payload digests *)

Definition payload_digest (bytes : list Byte.byte) : string := hex_fixed 16 (fnv1a bytes).

Record ConfigInput := { ci_bytes : list Byte.byte; ci_expected_digest : option string }.

Definition ConfigInput_inline (bytes : list Byte.byte) : ConfigInput :=
  {| ci_bytes := bytes; ci_expected_digest := None |}.

Record ReconcileRequest := {
  rr_core : CoreSpec;
  rr_config : ConfigInput;
  rr_options : InstanceOptions;
  rr_expected_applied : option RevisionId;
}.

Inductive CoreCommand :=
| Reconcile (request : ReconcileRequest)
| Stop
| Recover
| Shutdown.

Definition is_shutdown (c : CoreCommand) : bool :=
  match c with Shutdown => true | _ => false end.

Definition NUL : string := String (Ascii.ascii_of_N 0) "".

Definition LocalIpcPolicy_debug (p : LocalIpcPolicy) : string :=
  match p with Force => "Force" | Prefer => "Prefer" | Disable => "Disable" end.
Definition LocalIpcSettings_debug (s : LocalIpcSettings) : string :=
  "LocalIpcSettings { policy: " +:+ LocalIpcPolicy_debug (li_policy s)
    +:+ ", keep_http_controller: "
    +:+ (if li_keep_http_controller s then "true" else "false") +:+ " }".

Definition reconcile_identity (request : ReconcileRequest) : string :=
  let core := rr_core request in
  "reconcile" +:+ NUL +:+ CoreKind_as_ref (cs_kind core) +:+ NUL
    +:+ cs_binary_path core +:+ NUL +:+ default "" (cs_version core) +:+ NUL
    +:+ str_join "" (map (fun f => f +:+ NUL) (cs_features core))
    +:+ match rr_expected_applied request with
        | Some expected => RevisionId_fmt expected
        | None => ""
        end
    +:+ NUL +:+ "controller:"
    +:+ option_debug LocalIpcSettings_debug (io_local_ipc (rr_options request)) +:+ NUL.

Definition command_digest (c : CoreCommand) : string :=
  match c with
  | Reconcile request =>
      payload_digest
        (bytes_of_string (reconcile_identity request)
           ++ ci_bytes (rr_config request)
           ++ bytes_of_string (NUL +:+ "digest:")
           ++ bytes_of_string (default "" (ci_expected_digest (rr_config request))))
  | Stop => payload_digest (bytes_of_string "stop")
  | Recover => payload_digest (bytes_of_string "recover")
  | Shutdown => payload_digest (bytes_of_string "shutdown")
  end.

Record CoreCommandEnvelope := { env_operation_id : OperationId; env_command : CoreCommand }.

(** ** Results of operations *)

Inductive OperationOutput :=
| Reconciled (outcome : ApplyOutcome)
| OStopped
| Recovered
| ShutDown.

Record CoreError := {
  ce_kind : option CoreErrorKind;
  ce_message : string;
  ce_retryable : bool;
  ce_operation_id : option OperationId;
}.

Definition CoreError_new (kind : CoreErrorKind) (message : string) (retryable : bool) : CoreError :=
  {| ce_kind := Some kind; ce_message := message; ce_retryable := retryable;
     ce_operation_id := None |}.

Definition from_domain (error : Error) (operation_id : option OperationId) : CoreError :=
  let kind := Error_kind error in
  {| ce_kind := kind; ce_message := Error_to_string error;
     ce_retryable := match kind with Some k => default_retryable k | None => false end;
     ce_operation_id := operation_id |}.

Definition with_operation (e : CoreError) (id : OperationId) : CoreError :=
  {| ce_kind := ce_kind e; ce_message := ce_message e; ce_retryable := ce_retryable e;
     ce_operation_id := Some id |}.

Definition CoreError_fmt (e : CoreError) : string :=
  match ce_kind e with
  | Some kind => CoreErrorKind_as_str kind +:+ ": " +:+ ce_message e
  | None => ce_message e
  end.

Inductive OperationState :=
| Queued
| Running
| Succeeded (output : OperationOutput)
| Failed (error : CoreError).

Definition op_terminal (s : OperationState) : bool :=
  match s with Succeeded _ | Failed _ => true | Queued | Running => false end.

(** ** The registry *)

(** A [watch] channel is a cell of the shared heap; the registry entry owns the
    sender, every handle a receiver of the same cell. *)
Notation Chan := N (only parsing).
Notation Heap := (gmap N OperationState) (only parsing).

Record RegisteredOperation := { ro_digest : string; ro_sequence : N; ro_state_tx : Chan }.

Record RegistryInner := {
  operations : gmap OperationId RegisteredOperation;
  order : list OperationId;
  next_sequence : N;
  chans : Heap;
  next_chan : Chan;
}.

Definition Registry_new : RegistryInner :=
  {| operations := ∅; order := []; next_sequence := 0; chans := ∅; next_chan := 0 |}.

Definition borrow (r : RegistryInner) (c : Chan) : OperationState :=
  default Queued (chans r !! c).

Record AdmittedOp := { ad_sequence : N; ad_state_rx : Chan }.
Inductive Admission := Registered (a : AdmittedOp) | Existing (a : AdmittedOp).

(** [tokio::sync::mpsc::error::TrySendError], without the value. *)
Inductive TrySendError := Full | Closed.

(** The first position of [order] whose operation is terminal. *)
Definition terminal_in (r : RegistryInner) (id : OperationId) : bool :=
  match operations r !! id with
  | Some operation => op_terminal (borrow r (ro_state_tx operation))
  | None => false
  end.

Definition evict_position (r : RegistryInner) : option nat :=
  fst <$> list_find (fun id => terminal_in r id = true) (order r).

(** One turn of the eviction loop; [None] is its [break]. *)
Definition evict_one (r : RegistryInner) : option RegistryInner :=
  position ← evict_position r;
  evicted ← order r !! position;
  Some {| operations := delete evicted (operations r);
          order := delete position (order r);
          next_sequence := next_sequence r; chans := chans r; next_chan := next_chan r |}.

(** [while operations.len() >= capacity]; every turn removes one entry of
    [order], so its length is enough fuel. *)
Fixpoint evict_loop (fuel : nat) (capacity : N) (r : RegistryInner) : RegistryInner :=
  match fuel with
  | O => r
  | S fuel' =>
      if decide (capacity <= N.of_nat (size (operations r))) then
        match evict_one r with
        | Some r' => evict_loop fuel' capacity r'
        | None => r
        end
      else r
  end.
Definition evict (capacity : N) (r : RegistryInner) : RegistryInner :=
  evict_loop (length (order r)) capacity r.

(** The insertion half of [Registry_admit]: a fresh channel, the next sequence number,
    and the last place of [order]. *)
Definition insert_operation (id : OperationId) (digest : string) (r : RegistryInner)
    : RegistryInner * AdmittedOp :=
  ({| operations :=
        <[id := {| ro_digest := digest; ro_sequence := next_sequence r;
                   ro_state_tx := next_chan r |}]> (operations r);
      order := order r ++ [id];
      next_sequence := next_sequence r + 1;
      chans := <[next_chan r := Queued]> (chans r);
      next_chan := next_chan r + 1 |},
   {| ad_sequence := next_sequence r; ad_state_rx := next_chan r |}).

(** The undo after a refused enqueue: [operations.remove] and
    [order.pop_back]. The sequence number stays consumed. *)
Definition undo_insert (id : OperationId) (r : RegistryInner) : RegistryInner :=
  {| operations := delete id (operations r); order := take (length (order r) - 1) (order r);
     next_sequence := next_sequence r; chans := chans r; next_chan := next_chan r |}.

Definition conflict_error (id : OperationId) : CoreError :=
  with_operation
    (CoreError_new KOperationConflict
       ("operation " +:+ OperationId_fmt id +:+ " was already submitted with a different payload")
       false) id.

Definition enqueue_error (e : TrySendError) (id : OperationId) : CoreError :=
  with_operation
    match e with
    | Full => CoreError_new KQueueFull "the operation queue is full" true
    | Closed => CoreError_new KInternal "the control executor is gone" false
    end id.

(** [Registry::Registry_admit]: registration and enqueue in one critical section, over
    whatever queue [Q] the [enqueue] closure sends to. *)
Definition Registry_admit {Q} (capacity : N) (id : OperationId) (digest : string)
    (enqueue : Q -> result Q TrySendError) (r : RegistryInner) (q : Q)
    : result Admission CoreError * RegistryInner * Q :=
  match operations r !! id with
  | Some existing =>
      if decide (ro_digest existing = digest) then
        (Ok (Existing {| ad_sequence := ro_sequence existing;
                         ad_state_rx := ro_state_tx existing |}), r, q)
      else (Err (conflict_error id), r, q)
  | None =>
      let '(r', admitted) := insert_operation id digest (evict capacity r) in
      match enqueue q with
      | Ok q' => (Ok (Registered admitted), r', q')
      | Err e => (Err (enqueue_error e id), undo_insert id r', q)
      end
  end.

(** [Registry::set]: [send_replace] on the entry's channel, nothing for an
    unknown id. *)
Definition registry_set (id : OperationId) (state : OperationState) (r : RegistryInner)
    : RegistryInner :=
  match operations r !! id with
  | Some operation =>
      {| operations := operations r; order := order r; next_sequence := next_sequence r;
         chans := <[ro_state_tx operation := state]> (chans r); next_chan := next_chan r |}
  | None => r
  end.

(** [Registry::get]. *)
Definition registry_get (id : OperationId) (r : RegistryInner) : option OperationState :=
  (fun operation => borrow r (ro_state_tx operation)) <$> operations r !! id.

(** [Registry::subscribe]. *)
Definition registry_subscribe (id : OperationId) (r : RegistryInner) : option Chan :=
  ro_state_tx <$> operations r !! id.

Definition live_registry_capacity (registry_capacity queue_capacity : N) : N :=
  N.max registry_capacity (saturating_add (2 ^ 64 - 1) queue_capacity 1).

(** ** Well-formed registries *)

(** [order] lists exactly the registered ids, once each, in increasing
    sequence order, and no two entries share a channel. *)
Record registry_wf (r : RegistryInner) : Prop := {
  wf_nodup : NoDup (order r);
  wf_dom : forall id, id ∈ order r <-> is_Some (operations r !! id);
  wf_sequence : forall id op, operations r !! id = Some op -> ro_sequence op < next_sequence r;
  wf_sorted : forall i j a b opa opb,
    (i < j)%nat -> order r !! i = Some a -> order r !! j = Some b ->
    operations r !! a = Some opa -> operations r !! b = Some opb ->
    ro_sequence opa < ro_sequence opb;
  wf_chan : forall id op, operations r !! id = Some op -> ro_state_tx op < next_chan r;
  wf_chan_inj : forall a b opa opb,
    operations r !! a = Some opa -> operations r !! b = Some opb ->
    ro_state_tx opa = ro_state_tx opb -> a = b;
}.

(** ** Operation identities: text round trip *)

Lemma id_byte_ok_lower (s : string) (modulus acc n : N) :
  str_all id_byte_ok s = true -> radix_digits 16 modulus acc s = Some n ->
  str_all is_lower_hex s = true.
Proof.
  revert acc; induction s as [|a s IH]; intros acc; cbn; [done|].
  intros [Ha Hs]%andb_true_iff Hr.
  destruct (digit_value a) as [d|] eqn:Hd; cbn in Hr; [|done].
  do 2 (case_decide; [|done]). rewrite (IH _ Hs Hr), andb_true_r.
  unfold id_byte_ok in Ha. unfold is_lower_hex.
  apply orb_true_iff in Ha as [[Ha|Ha]%orb_true_iff|Ha].
  - apply bool_decide_eq_true in Ha; subst. by vm_compute in Hd.
  - by rewrite Ha.
  - by rewrite Ha, orb_true_r.
Qed.

Lemma id_byte_ok_no_plus (a : Ascii.ascii) :
  id_byte_ok a = true -> negb (bool_decide (a = "+"%char)) = true.
Proof.
  intros H. apply negb_true_iff, bool_decide_eq_false. intros ->. by vm_compute in H.
Qed.

Lemma lower_hex_id_byte (a : Ascii.ascii) : is_lower_hex a = true -> id_byte_ok a = true.
Proof.
  unfold is_lower_hex, id_byte_ok. intros [->| ->]%orb_true_iff;
    by rewrite ?orb_true_r.
Qed.

Lemma lower_hex_no_dash (a : Ascii.ascii) :
  is_lower_hex a = true -> negb (bool_decide (a = "-"%char)) = true.
Proof.
  intros H. apply negb_true_iff, bool_decide_eq_false. intros ->. by vm_compute in H.
Qed.

(** One fixed-width field, parsed back: the field is the number's text. *)
Lemma hex_field_inv (w : nat) (modulus : N) (s : string) (n : N) :
  String.length s = S w -> str_all id_byte_ok s = true -> 0 < modulus ->
  from_str_radix 16 modulus s = Some n -> hex_fixed (S w) n = s /\ n < modulus.
Proof.
  intros Hl Hs Hm Hr. rewrite from_str_radix_digits in Hr.
  - split; [|by eapply radix_digits_bound].
    rewrite <- Hl. by eapply radix_digits_value; [eapply id_byte_ok_lower|].
  - by intros ->.
  - eapply str_all_impl, Hs. apply id_byte_ok_no_plus.
Qed.

Lemma hex_field_parse (w : nat) (modulus n : N) :
  n < 16 ^ N.of_nat (S w) -> n < modulus ->
  from_str_radix 16 modulus (hex_fixed (S w) n) = Some n.
Proof.
  intros Hn Hm. rewrite from_str_radix_digits.
  - by apply radix_digits_hex.
  - intros H. apply (f_equal String.length) in H. by rewrite hex_fixed_length in H.
  - eapply str_all_impl, hex_fixed_lower. intros a Ha.
    by apply id_byte_ok_no_plus, lower_hex_id_byte.
Qed.

Lemma hex_fixed_no_dash (w : nat) (n : N) :
  str_all (fun c => negb (bool_decide (c = "-"%char))) (hex_fixed w n) = true.
Proof. eapply str_all_impl, hex_fixed_lower. apply lower_hex_no_dash. Qed.

Lemma hex_fixed_id_bytes (w : nat) (n : N) : str_all id_byte_ok (hex_fixed w n) = true.
Proof. eapply str_all_impl, hex_fixed_lower. apply lower_hex_id_byte. Qed.

(** An operation id survives the wire.  Every identifier the program can
    hold is printed as a text that parses back to it, so a client that lost a
    response can ask for the same operation again. *)
Theorem operation_id_roundtrip (i : OperationId) :
  OperationId_wf i -> OperationId_from_str (OperationId_fmt i) = Some i.
Proof.
  intros (Hn & Hp & Hc). unfold OperationId_from_str, OperationId_fmt.
  rewrite split_once_app by apply hex_fixed_no_dash. cbn [mbind option_bind].
  rewrite split_once_app by apply hex_fixed_no_dash. cbn [mbind option_bind].
  rewrite !str_all_app, !hex_fixed_id_bytes, !hex_fixed_length.
  cbn [Nat.eqb negb orb andb str_all].
  rewrite !hex_field_parse by assumption. by destruct i.
Qed.

(** Only the printed form of an identifier parses to it. *)
Theorem operation_id_canonical (value : string) (i : OperationId) :
  OperationId_from_str value = Some i -> OperationId_fmt i = value /\ OperationId_wf i.
Proof.
  unfold OperationId_from_str. intros H.
  apply bind_Some in H as ([n rest] & E1%split_once_Some & H).
  apply bind_Some in H as ([p c] & E2%split_once_Some & H). subst.
  destruct (_ || _) eqn:E; [done|].
  apply orb_false_iff in E as [[[E1 E2]%orb_false_iff E3]%orb_false_iff E4].
  apply negb_false_iff, Nat.eqb_eq in E1, E2, E3. apply negb_false_iff in E4.
  rewrite !str_all_app in E4.
  apply andb_true_iff in E4 as [Hn [_ [Hp [_ Hc]%andb_true_iff]%andb_true_iff]%andb_true_iff].
  apply bind_Some in H as (n' & Fn & H). apply bind_Some in H as (p' & Fp & H).
  apply bind_Some in H as (c' & Fc & [= <-]).
  destruct (hex_field_inv 15 (2 ^ 64) n n' E1 Hn eq_refl Fn) as [Gn Bn].
  destruct (hex_field_inv 7 (2 ^ 32) p p' E2 Hp eq_refl Fp) as [Gp Bp].
  destruct (hex_field_inv 7 (2 ^ 32) c c' E3 Hc eq_refl Fc) as [Gc Bc].
  unfold OperationId_fmt; cbn [nanos pid counter]. rewrite Gn, Gp, Gc. done.
Qed.

(** ** Eviction *)

Lemma evict_one_Some (r r' : RegistryInner) :
  evict_one r = Some r' ->
  exists position id,
    order r !! position = Some id /\ terminal_in r id = true /\
    r' = {| operations := delete id (operations r); order := delete position (order r);
            next_sequence := next_sequence r; chans := chans r; next_chan := next_chan r |}.
Proof.
  unfold evict_one, evict_position. intros H.
  apply bind_Some in H as (p & Hp & H). apply bind_Some in H as (id & Hid & [= <-]).
  apply fmap_Some in Hp as ([p' id'] & Hf & ->). cbn in *.
  apply list_find_Some in Hf as (Hl & Ht & _). exists p', id. simplify_eq. done.
Qed.

Lemma evict_one_None (r : RegistryInner) (id : OperationId) :
  evict_one r = None -> id ∈ order r -> terminal_in r id = false.
Proof.
  unfold evict_one, evict_position. intros H Hid.
  destruct (list_find _ (order r)) as [[p x]|] eqn:E; cbn in H.
  - apply list_find_Some in E as (Hl & _). rewrite Hl in H. done.
  - apply list_find_None in E. rewrite Forall_forall in E.
    apply not_true_is_false. by apply E.
Qed.

(** What eviction may do: drop terminal entries, keep everything else. *)
Record evicts (r r' : RegistryInner) : Prop := {
  ev_subset : operations r' ⊆ operations r;
  ev_live : forall id op, operations r !! id = Some op -> terminal_in r id = false ->
    operations r' !! id = Some op;
  ev_chans : chans r' = chans r;
  ev_seq : next_sequence r' = next_sequence r;
  ev_chan : next_chan r' = next_chan r;
}.

Lemma terminal_in_evicts (r r' : RegistryInner) (id : OperationId) op :
  evicts r r' -> operations r' !! id = Some op -> terminal_in r' id = terminal_in r id.
Proof.
  intros E H. unfold terminal_in, borrow. rewrite H, (ev_chans _ _ E).
  by rewrite (lookup_weaken _ _ _ _ H (ev_subset _ _ E)).
Qed.

Lemma evicts_refl (r : RegistryInner) : evicts r r.
Proof. by split. Qed.

Lemma evicts_trans (r1 r2 r3 : RegistryInner) : evicts r1 r2 -> evicts r2 r3 -> evicts r1 r3.
Proof.
  intros E1 E2. split.
  - etrans; [apply E2|apply E1].
  - intros id op H Ht. pose proof (ev_live _ _ E1 _ _ H Ht) as H2.
    apply (ev_live _ _ E2 _ _ H2). by rewrite (terminal_in_evicts _ _ _ _ E1 H2).
  - by rewrite (ev_chans _ _ E2), (ev_chans _ _ E1).
  - by rewrite (ev_seq _ _ E2), (ev_seq _ _ E1).
  - by rewrite (ev_chan _ _ E2), (ev_chan _ _ E1).
Qed.

Lemma evict_one_evicts (r r' : RegistryInner) : evict_one r = Some r' -> evicts r r'.
Proof.
  intros (p & x & Hp & Ht & ->)%evict_one_Some. split; cbn; try done.
  - apply delete_subseteq.
  - intros id op H Hl. rewrite lookup_delete_ne; [done|]. intros ->. congruence.
Qed.

Lemma evict_evicts (capacity : N) (r : RegistryInner) : evicts r (evict capacity r).
Proof.
  unfold evict. generalize (length (order r)) as fuel. intros fuel. revert r.
  induction fuel as [|fuel IH]; intros r; cbn; [apply evicts_refl|].
  case_decide; [|apply evicts_refl].
  destruct (evict_one r) as [r'|] eqn:E; [|apply evicts_refl].
  eapply evicts_trans; [by apply evict_one_evicts|apply IH].
Qed.

Lemma delete_lookup_inv {A} (l : list A) (p i : nat) (x : A) :
  delete p l !! i = Some x ->
  exists i', l !! i' = Some x /\ i' <> p /\ (forall j y, delete p l !! j = Some y ->
    (i < j)%nat -> exists j', l !! j' = Some y /\ (i' < j')%nat).
Proof.
  intros H. destruct (decide (i < p)%nat) as [Hi|Hi].
  - rewrite list_lookup_delete_lt in H by done. exists i. split_and!; [done|lia|].
    intros j y Hj Hij. destruct (decide (j < p)%nat) as [Hjp|Hjp].
    + rewrite list_lookup_delete_lt in Hj by done. eauto.
    + rewrite list_lookup_delete_ge in Hj by lia. exists (S j). split; [done|lia].
  - rewrite list_lookup_delete_ge in H by lia. exists (S i). split_and!; [done|lia|].
    intros j y Hj Hij. rewrite list_lookup_delete_ge in Hj by lia.
    exists (S j). split; [done|lia].
Qed.

Lemma evict_one_wf (r r' : RegistryInner) :
  registry_wf r -> evict_one r = Some r' -> registry_wf r'.
Proof.
  intros W (p & x & Hp & Ht & ->)%evict_one_Some.
  assert (Hnx : forall id, id ∈ delete p (order r) -> id <> x).
  { intros id (i & Hi)%list_elem_of_lookup ->.
    apply delete_lookup_inv in Hi as (i' & Hi' & Hne & _).
    apply Hne, (NoDup_lookup _ _ _ _ (wf_nodup _ W) Hi' Hp). }
  split; cbn.
  - eapply sublist_NoDup; [apply W|apply sublist_delete].
  - intros id. split.
    + intros H. rewrite lookup_delete_ne by (apply not_eq_sym; by apply Hnx).
      apply (wf_dom _ W). by eapply list_elem_of_delete_inv.
    + intros (op & Hop). apply lookup_delete_Some in Hop as [Hne Hop].
      assert (id ∈ order r) as (i & Hi)%list_elem_of_lookup by (apply (wf_dom _ W); eauto).
      apply list_elem_of_lookup. destruct (decide (i < p)%nat).
      * exists i. by rewrite list_lookup_delete_lt.
      * assert (i <> p) by congruence. exists (i - 1)%nat.
        rewrite list_lookup_delete_ge by lia. by replace (S (i - 1)) with i by lia.
  - intros id op [_ H]%lookup_delete_Some. by eapply (wf_sequence _ W).
  - intros i j a b opa opb Hij Ha Hb [_ Hopa]%lookup_delete_Some [_ Hopb]%lookup_delete_Some.
    apply delete_lookup_inv in Ha as (i' & Hi' & _ & Hmono).
    destruct (Hmono _ _ Hb Hij) as (j' & Hj' & Hlt).
    by eapply (wf_sorted _ W i' j').
  - intros id op [_ H]%lookup_delete_Some. by eapply (wf_chan _ W).
  - intros a b opa opb [_ Ha]%lookup_delete_Some [_ Hb]%lookup_delete_Some.
    by eapply (wf_chan_inj _ W).
Qed.

Lemma evict_wf (capacity : N) (r : RegistryInner) :
  registry_wf r -> registry_wf (evict capacity r).
Proof.
  unfold evict. generalize (length (order r)) as fuel. intros fuel. revert r.
  induction fuel as [|fuel IH]; intros r W; cbn; [done|].
  case_decide; [|done]. destruct (evict_one r) as [r'|] eqn:E; [|done].
  by apply IH, (evict_one_wf r).
Qed.

Lemma registry_size (r : RegistryInner) :
  registry_wf r -> size (operations r) = length (order r).
Proof.
  intros W. rewrite <- (size_dom (operations r)).
  rewrite <- (size_list_to_set (C := gset OperationId) (order r) (wf_nodup _ W)).
  f_equal. apply set_eq. intros id. rewrite elem_of_dom, elem_of_list_to_set.
  symmetry. apply (wf_dom _ W).
Qed.

(** The loop stops below the bound, or with no terminal entry left. *)
Lemma evict_stops (capacity : N) (r : RegistryInner) :
  registry_wf r ->
  N.of_nat (size (operations (evict capacity r))) < capacity
  \/ (forall id, id ∈ order (evict capacity r) -> terminal_in (evict capacity r) id = false).
Proof.
  unfold evict. remember (length (order r)) as fuel eqn:Hf. revert r Hf.
  induction fuel as [|fuel IH]; intros r Hf W; cbn.
  - right. intros id Hid. destruct (order r); [by apply elem_of_nil in Hid|done].
  - case_decide; [|left; lia]. destruct (evict_one r) as [r'|] eqn:E.
    + apply IH; [|by eapply evict_one_wf].
      apply evict_one_Some in E as (p & x & Hp & _ & ->). cbn.
      rewrite length_delete by done. lia.
    + right. intros id Hid. by eapply evict_one_None.
Qed.

(** ** Insertion, undo and update *)

Lemma insert_operation_wf (id : OperationId) (digest : string) (r : RegistryInner) :
  registry_wf r -> operations r !! id = None ->
  registry_wf (insert_operation id digest r).1.
Proof.
  intros W Hid.
  assert (Hno : id ∉ order r).
  { intros Hin. apply (wf_dom _ W) in Hin as (op & Hop). congruence. }
  split; cbn.
  - apply NoDup_app. split_and!; [apply W| |apply NoDup_singleton].
    intros x Hx ->%list_elem_of_singleton. done.
  - intros x. rewrite elem_of_app, list_elem_of_singleton, (wf_dom _ W).
    rewrite lookup_insert. case_decide as E.
    + subst. split; [by eauto|by right].
    + split; [intros [?|?]; [done|congruence]|by left].
  - intros x op. rewrite lookup_insert. case_decide; subst.
    + intros [= <-]; cbn; lia.
    + intros Hs%(wf_sequence _ W). lia.
  - intros i j a b opa opb Hij Ha Hb Hopa Hopb.
    rewrite lookup_insert in Hopa, Hopb.
    apply lookup_app_Some in Hb as [Hb|[Hb1 Hb2]].
    + apply lookup_app_Some in Ha as [Ha|[Ha1 Ha2]].
      2: { apply lookup_lt_Some in Hb. lia. }
      rewrite decide_False in Hopa by (intros ->; by eapply Hno, list_elem_of_lookup_2).
      rewrite decide_False in Hopb by (intros ->; by eapply Hno, list_elem_of_lookup_2).
      by eapply (wf_sorted _ W i j).
    + apply list_lookup_singleton_Some in Hb2 as [Hj ->]. rewrite decide_True in Hopb by done.
      simplify_eq; cbn. apply lookup_app_Some in Ha as [Ha|[Ha1 Ha2]].
      * rewrite decide_False in Hopa by (intros ->; by eapply Hno, list_elem_of_lookup_2).
        by apply (wf_sequence _ W) in Hopa.
      * lia.
  - intros x op. rewrite lookup_insert. case_decide; subst.
    + intros [= <-]; cbn; lia.
    + intros Hs%(wf_chan _ W). lia.
  - intros a b opa opb. rewrite !lookup_insert. do 2 case_decide; subst; try done.
    + intros [= <-] Hb Heq; cbn in Heq. apply (wf_chan _ W) in Hb. lia.
    + intros Ha [= <-] Heq; cbn in Heq. apply (wf_chan _ W) in Ha. lia.
    + apply (wf_chan_inj _ W).
Qed.

(** A registry that only consumed a sequence number and a channel. *)
Definition bumped (r : RegistryInner) : RegistryInner :=
  {| operations := operations r; order := order r; next_sequence := next_sequence r + 1;
     chans := <[next_chan r := Queued]> (chans r); next_chan := next_chan r + 1 |}.

Lemma undo_insert_operation (id : OperationId) (digest : string) (r : RegistryInner) :
  operations r !! id = None ->
  undo_insert id (insert_operation id digest r).1 = bumped r.
Proof.
  intros H. unfold undo_insert, bumped; cbn. f_equal.
  - by rewrite delete_insert_id.
  - rewrite length_app; cbn. rewrite Nat.add_sub. apply take_app_length.
Qed.

Lemma bumped_wf (r : RegistryInner) : registry_wf r -> registry_wf (bumped r).
Proof.
  intros W. split; cbn; try apply W.
  - intros id op H%(wf_sequence _ W). lia.
  - intros id op H%(wf_chan _ W). lia.
Qed.

Lemma registry_set_wf (id : OperationId) (state : OperationState) (r : RegistryInner) :
  registry_wf r -> registry_wf (registry_set id state r).
Proof.
  intros W. unfold registry_set. destruct (operations r !! id); [|done].
  split; cbn; apply W.
Qed.

Lemma evict_absent (capacity : N) (id : OperationId) (r : RegistryInner) :
  operations r !! id = None -> operations (evict capacity r) !! id = None.
Proof.
  intros H. eapply lookup_weaken_None; [done|]. apply (ev_subset _ _ (evict_evicts _ _)).
Qed.

(** The three ways out of [Registry_admit]. *)
Inductive admit_cases {Q} (capacity : N) (id : OperationId) (digest : string)
    (enqueue : Q -> result Q TrySendError) (r : RegistryInner) (q : Q)
    : result Admission CoreError * RegistryInner * Q -> Prop :=
| admit_attached op :
    operations r !! id = Some op -> ro_digest op = digest ->
    admit_cases capacity id digest enqueue r q
      (Ok (Existing {| ad_sequence := ro_sequence op; ad_state_rx := ro_state_tx op |}), r, q)
| admit_conflict op :
    operations r !! id = Some op -> ro_digest op <> digest ->
    admit_cases capacity id digest enqueue r q (Err (conflict_error id), r, q)
| admit_registered q' :
    operations r !! id = None -> enqueue q = Ok q' ->
    admit_cases capacity id digest enqueue r q
      (Ok (Registered (insert_operation id digest (evict capacity r)).2),
       (insert_operation id digest (evict capacity r)).1, q')
| admit_refused e :
    operations r !! id = None -> enqueue q = Err e ->
    admit_cases capacity id digest enqueue r q
      (Err (enqueue_error e id), bumped (evict capacity r), q).

Lemma admit_spec {Q} capacity id digest (enqueue : Q -> result Q TrySendError) r q :
  admit_cases capacity id digest enqueue r q (Registry_admit capacity id digest enqueue r q).
Proof.
  unfold Registry_admit. destruct (operations r !! id) as [op|] eqn:Hid.
  - case_decide; [by eapply admit_attached|by eapply admit_conflict].
  - destruct (enqueue q) as [q'|e] eqn:Hq; cbn.
    + by apply (admit_registered capacity id digest enqueue r q q').
    + change (undo_insert _ _)
        with (undo_insert id (insert_operation id digest (evict capacity r)).1).
      rewrite undo_insert_operation by by apply evict_absent.
      by apply (admit_refused capacity id digest enqueue r q e).
Qed.

(** Admission keeps the registry well formed. *)
Theorem admit_preserves_wf {Q} capacity id digest (enqueue : Q -> result Q TrySendError) r q :
  registry_wf r -> registry_wf (Registry_admit capacity id digest enqueue r q).1.2.
Proof.
  intros W. destruct (admit_spec capacity id digest enqueue r q); cbn; try done.
  - apply insert_operation_wf; [by apply evict_wf|by apply evict_absent].
  - by apply bumped_wf, evict_wf.
Qed.

(** The state of an entry other than the one written survives an update. *)
Lemma borrow_registry_set (id id' : OperationId) state r op op' :
  registry_wf r -> operations r !! id = Some op -> operations r !! id' = Some op' ->
  borrow (registry_set id state r) (ro_state_tx op') =
    if decide (id = id') then state else borrow r (ro_state_tx op').
Proof.
  intros W H H'. unfold registry_set, borrow. rewrite H. cbn [chans].
  rewrite lookup_insert. destruct (decide (id = id')) as [->|Hne].
  - simplify_eq. by rewrite decide_True.
  - rewrite decide_False; [done|]. intros Heq. by eapply Hne, (wf_chan_inj _ W _ _ _ _ H H').
Qed.

Lemma borrow_fresh (r : RegistryInner) (c : Chan) :
  c < next_chan r ->
  default Queued (<[next_chan r := Queued]> (chans r) !! c) = borrow r c.
Proof. intros H. unfold borrow. rewrite lookup_insert_ne by lia. done. Qed.

Lemma evict_borrow (capacity : N) (r : RegistryInner) (c : Chan) :
  borrow (evict capacity r) c = borrow r c.
Proof. unfold borrow. by rewrite (ev_chans _ _ (evict_evicts capacity r)). Qed.

(** ** Entries: what the registry says of one id

    The sequence, the channel and the state; the invariants of the executor
    are stated on entries, and these lemmas say what each operation does to
    them. *)

Definition entry (r : RegistryInner) (id : OperationId) : option (N * N * OperationState) :=
  (fun op => (ro_sequence op, ro_state_tx op, borrow r (ro_state_tx op))) <$> operations r !! id.

Lemma entry_Some r id s c st :
  entry r id = Some (s, c, st) <->
  exists op, operations r !! id = Some op /\ ro_sequence op = s /\ ro_state_tx op = c
    /\ borrow r c = st.
Proof.
  unfold entry. rewrite fmap_Some. split.
  - intros (op & H & [= -> -> ->]). eauto.
  - intros (op & H & <- & <- & <-). eauto.
Qed.

Lemma entry_None r id : entry r id = None <-> operations r !! id = None.
Proof. apply fmap_None. Qed.

Lemma entry_terminal r id s c st :
  entry r id = Some (s, c, st) -> terminal_in r id = op_terminal st.
Proof. intros (op & H & <- & <- & <-)%entry_Some. unfold terminal_in. by rewrite H. Qed.

Lemma entry_evict_live capacity r id s c st :
  entry r id = Some (s, c, st) -> op_terminal st = false ->
  entry (evict capacity r) id = Some (s, c, st).
Proof.
  intros H Hl. pose proof (entry_terminal _ _ _ _ _ H) as Ht.
  apply entry_Some in H as (op & H & <- & <- & <-). apply entry_Some.
  exists op. rewrite evict_borrow. split_and!; try done.
  apply (ev_live _ _ (evict_evicts capacity r)); [done|congruence].
Qed.

Lemma entry_evict_sub capacity r id e :
  entry (evict capacity r) id = Some e -> entry r id = Some e.
Proof.
  destruct e as [[s c] st]. intros (op & H & <- & <- & <-)%entry_Some. apply entry_Some.
  exists op. rewrite evict_borrow. split_and!; try done.
  by eapply lookup_weaken, (ev_subset _ _ (evict_evicts capacity r)).
Qed.

Lemma entry_insert_new id digest r :
  entry (insert_operation id digest r).1 id = Some (next_sequence r, next_chan r, Queued).
Proof.
  apply entry_Some. cbn [insert_operation fst operations].
  rewrite lookup_insert_eq. eexists; split_and!; [done..|].
  unfold borrow; cbn [chans]. by rewrite lookup_insert_eq.
Qed.

Lemma borrow_insert id digest r c :
  c < next_chan r -> borrow (insert_operation id digest r).1 c = borrow r c.
Proof. apply borrow_fresh. Qed.

Lemma borrow_bumped r c : c < next_chan r -> borrow (bumped r) c = borrow r c.
Proof. apply borrow_fresh. Qed.

Lemma entry_chan r id s c st :
  registry_wf r -> entry r id = Some (s, c, st) -> c < next_chan r /\ s < next_sequence r.
Proof.
  intros W (op & H & <- & <- & _)%entry_Some.
  split; [by eapply wf_chan|by eapply wf_sequence].
Qed.

Lemma entry_insert_ne id digest r id' :
  registry_wf r -> id' <> id ->
  entry (insert_operation id digest r).1 id' = entry r id'.
Proof.
  intros W Hne. unfold entry. cbn [insert_operation fst operations].
  rewrite lookup_insert_ne by done.
  destruct (operations r !! id') as [op|] eqn:H; [|done]. cbn. do 2 f_equal.
  by eapply borrow_insert, wf_chan.
Qed.

Lemma entry_bumped r id : registry_wf r -> entry (bumped r) id = entry r id.
Proof.
  intros W. unfold entry. cbn [bumped operations].
  destruct (operations r !! id) as [op|] eqn:H; [|done]. cbn. do 2 f_equal.
  by eapply borrow_bumped, wf_chan.
Qed.

Lemma operations_registry_set id state r :
  operations (registry_set id state r) = operations r.
Proof. unfold registry_set. by destruct (operations r !! id). Qed.

Lemma entry_set_eq id state r s c st :
  registry_wf r -> entry r id = Some (s, c, st) ->
  entry (registry_set id state r) id = Some (s, c, state).
Proof.
  intros W (op & H & <- & <- & <-)%entry_Some. apply entry_Some.
  exists op. rewrite operations_registry_set. split_and!; try done.
  erewrite borrow_registry_set by done. by rewrite decide_True.
Qed.

Lemma entry_set_ne id state r id' :
  registry_wf r -> id' <> id -> entry (registry_set id state r) id' = entry r id'.
Proof.
  intros W Hne. unfold entry. rewrite operations_registry_set.
  destruct (operations r !! id') as [op'|] eqn:H'; [|done]. cbn. do 2 f_equal.
  destruct (operations r !! id) as [op|] eqn:H.
  - erewrite borrow_registry_set by done. by rewrite decide_False by congruence.
  - unfold registry_set. by rewrite H.
Qed.

Lemma entry_inj r id id' s s' c st st' :
  registry_wf r -> entry r id = Some (s, c, st) -> entry r id' = Some (s', c, st') -> id = id'.
Proof.
  intros W (op & H & _ & E & _)%entry_Some (op' & H' & _ & E' & _)%entry_Some.
  eapply (wf_chan_inj _ W); [done..|congruence].
Qed.

(** A cell no entry sends to is not written any more. *)
Lemma borrow_set_other id state r c :
  (forall s st, entry r id <> Some (s, c, st)) ->
  borrow (registry_set id state r) c = borrow r c.
Proof.
  intros H. unfold registry_set. destruct (operations r !! id) as [op|] eqn:Hop; [|done].
  unfold borrow; cbn [chans]. rewrite lookup_insert_ne; [done|].
  intros Heq. eapply H, entry_Some. by exists op.
Qed.

Lemma next_registry_set id state r :
  next_sequence (registry_set id state r) = next_sequence r
  /\ next_chan (registry_set id state r) = next_chan r.
Proof. unfold registry_set. by destruct (operations r !! id). Qed.

Lemma next_evict capacity r :
  next_sequence (evict capacity r) = next_sequence r
  /\ next_chan (evict capacity r) = next_chan r.
Proof. split; apply (evict_evicts capacity r). Qed.

(** ** Witnesses *)

Lemma operation_id_roundtrip_witness :
  OperationId_from_str (OperationId_fmt {| nanos := 1717171717; pid := 4242; counter := 9 |})
    = Some {| nanos := 1717171717; pid := 4242; counter := 9 |}.
Proof. apply operation_id_roundtrip. unfold OperationId_wf. cbn. lia. Defined.
