(* ===== verification/Executor.v ===== *)
(** * The control executor and its concurrency

    [control/executor.rs] and the [CoreControl] operations of
    [control/mod.rs]: submission, shutdown and the executor task run
    concurrently over the registry, the bounded queue and the closing latch.
    Every atomic action is one constructor of [step]; the theorems are
    invariants of every reachable interleaving. *)

From Stdlib Require Export Sorting.Sorted.
From S2P Require Export Control.

(** ** The bounded queue

    What the code relies on of [tokio::sync::mpsc]: a bounded first-in
    first-out channel whose capacity is shared by the buffered values and the
    permits handed out by [reserve], and whose receiver can be closed while
    outstanding permits stay valid. *)

Class BoundedQueue (Q A : Type) := {
  bq_items : Q -> list A;
  bq_permits : Q -> nat;
  bq_capacity : Q -> nat;
  bq_closed : Q -> bool;
  bq_try_send : A -> Q -> result Q TrySendError;
  bq_reserve : Q -> option Q;
  bq_permit_send : A -> Q -> Q;
  bq_permit_drop : Q -> Q;
  bq_close : Q -> Q;
  bq_recv : Q -> option (A * Q);
}.

(** Everything but the named observation is unchanged. *)
Definition same_queue {Q A} `{BoundedQueue Q A} (q q' : Q) (items : list A) (permits : nat)
    (closed : bool) : Prop :=
  bq_items q' = items /\ bq_permits q' = permits /\ bq_closed q' = closed
  /\ bq_capacity q' = bq_capacity q.

Class BoundedQueueLaws (Q A : Type) `{BoundedQueue Q A} : Prop := {
  bq_try_send_ok : forall a q q', bq_try_send a q = Ok q' ->
    bq_closed q = false /\ (length (bq_items q) + bq_permits q < bq_capacity q)%nat
    /\ same_queue q q' (bq_items q ++ [a]) (bq_permits q) (bq_closed q);
  bq_reserve_ok : forall q q', bq_reserve q = Some q' ->
    bq_closed q = false /\ (length (bq_items q) + bq_permits q < bq_capacity q)%nat
    /\ same_queue q q' (bq_items q) (S (bq_permits q)) (bq_closed q);
  bq_permit_send_ok : forall a q n, bq_permits q = S n ->
    same_queue q (bq_permit_send a q) (bq_items q ++ [a]) n (bq_closed q);
  bq_permit_drop_ok : forall q n, bq_permits q = S n ->
    same_queue q (bq_permit_drop q) (bq_items q) n (bq_closed q);
  bq_close_ok : forall q, same_queue q (bq_close q) (bq_items q) (bq_permits q) true;
  bq_recv_Some : forall q a q', bq_recv q = Some (a, q') ->
    bq_items q = a :: bq_items q'
    /\ same_queue q q' (bq_items q') (bq_permits q) (bq_closed q);
  bq_recv_None : forall q, bq_recv q = None -> bq_items q = [];
}.

(** The channel itself, as a list. *)
Record ListQueue (A : Type) := {
  lq_items : list A; lq_permits : nat; lq_capacity : nat; lq_closed : bool;
}.
Arguments lq_items {A}. Arguments lq_permits {A}.
Arguments lq_capacity {A}. Arguments lq_closed {A}.

Definition lq_full {A} (q : ListQueue A) : bool :=
  (lq_capacity q <=? length (lq_items q) + lq_permits q)%nat.

Definition lq_new (A : Type) (n : nat) : ListQueue A :=
  {| lq_items := []; lq_permits := 0; lq_capacity := n; lq_closed := false |}.

#[export] Instance ListQueue_bounded (A : Type) : BoundedQueue (ListQueue A) A := {|
  bq_items := lq_items;
  bq_permits := lq_permits;
  bq_capacity := lq_capacity;
  bq_closed := lq_closed;
  bq_try_send a q :=
    if lq_closed q then Err Closed
    else if lq_full q then Err Full
    else Ok {| lq_items := lq_items q ++ [a]; lq_permits := lq_permits q;
               lq_capacity := lq_capacity q; lq_closed := false |};
  bq_reserve q :=
    if lq_closed q || lq_full q then None
    else Some {| lq_items := lq_items q; lq_permits := S (lq_permits q);
                 lq_capacity := lq_capacity q; lq_closed := false |};
  bq_permit_send a q :=
    {| lq_items := lq_items q ++ [a]; lq_permits := lq_permits q - 1;
       lq_capacity := lq_capacity q; lq_closed := lq_closed q |};
  bq_permit_drop q :=
    {| lq_items := lq_items q; lq_permits := lq_permits q - 1;
       lq_capacity := lq_capacity q; lq_closed := lq_closed q |};
  bq_close q :=
    {| lq_items := lq_items q; lq_permits := lq_permits q;
       lq_capacity := lq_capacity q; lq_closed := true |};
  bq_recv q :=
    match lq_items q with
    | [] => None
    | a :: rest => Some (a, {| lq_items := rest; lq_permits := lq_permits q;
                               lq_capacity := lq_capacity q; lq_closed := lq_closed q |})
    end;
|}.

#[export] Instance ListQueue_laws (A : Type) : BoundedQueueLaws (ListQueue A) A.
Proof.
  split; unfold same_queue, lq_full; intros; cbn in *; try done.
  - destruct (lq_closed q) eqn:Hc; [done|]. unfold lq_full in *.
    destruct (_ <=? _)%nat eqn:E; [done|]. simplify_eq; cbn.
    apply Nat.leb_gt in E. split_and!; (done || lia).
  - destruct (lq_closed q) eqn:Hc; [done|]. cbn in *. unfold lq_full in *.
    destruct (_ <=? _)%nat eqn:E; [done|]. simplify_eq; cbn.
    apply Nat.leb_gt in E. split_and!; (done || lia).
  - split_and!; (done || lia).
  - split_and!; (done || lia).
  - destruct (lq_items q); simplify_eq; cbn. done.
  - by destruct (lq_items q).
Qed.

(** ** Work, commands and their execution *)

Record ExecutorWork := { ew_id : OperationId; ew_command : CoreCommand }.

Definition shutting_down_error (id : OperationId) : CoreError :=
  with_operation (CoreError_new KShuttingDown "the control plane is shutting down" false) id.

(** What the executor calls of the manager and of the file system, over the
    host state [W]. *)
Record ManagerApi (W : Type) := {
  api_reconcile : InstanceSpec -> option RevisionId -> W ->
    outcome (result ApplyOutcome Error) * W;
  api_stop : W -> outcome (result unit Error) * W;
  api_recover_quarantine : W -> outcome (result unit Error) * W;
  api_shutdown : W -> outcome (result unit Error) * W;
  api_create_dir_all : string -> W -> result unit IoError * W;
  api_write : string -> list Byte.byte -> W -> result unit IoError * W;
}.
Arguments api_reconcile {W}. Arguments api_stop {W}.
Arguments api_recover_quarantine {W}. Arguments api_shutdown {W}.
Arguments api_create_dir_all {W}. Arguments api_write {W}.

Definition outcome_map {A B} (f : A -> B) (o : outcome A) : outcome B :=
  match o with Return a => Return (f a) | Panicked m => Panicked m end.

Section Execute.
Context {W : Type} (api : ManagerApi W) (source_dir working_dir : string).

Definition materialize (file_name : string) (config : ConfigInput) (id : OperationId) (w : W)
    : result string CoreError * W :=
  let computed := payload_digest (ci_bytes config) in
  let io := fun error => from_domain (IoErr error) (Some id) in
  let write :=
    match api_create_dir_all api source_dir w with
    | (Err error, w1) => (Err (io error), w1)
    | (Ok _, w1) =>
        let path := path_join source_dir file_name in
        match api_write api path (ci_bytes config) w1 with
        | (Err error, w2) => (Err (io error), w2)
        | (Ok _, w2) => (Ok path, w2)
        end
    end in
  match ci_expected_digest config with
  | Some declared =>
      if decide (declared = computed) then write
      else (Err (with_operation
                   (CoreError_new KInvalidConfig
                      ("config digest mismatch: declared " +:+ declared +:+ ", computed "
                         +:+ computed) false) id), w)
  | None => write
  end.

Definition executor_reconcile (id : OperationId) (request : ReconcileRequest) (w : W)
    : outcome (result ApplyOutcome CoreError) * W :=
  match materialize "reconcile-source.yaml" (rr_config request) id w with
  | (Err error, w1) => (Return (Err error), w1)
  | (Ok config_path, w1) =>
      let spec := {| is_core := rr_core request; is_config_path := config_path;
                     is_working_dir := working_dir; is_pid_file := None;
                     is_options := rr_options request |} in
      let '(r, w2) := api_reconcile api spec (rr_expected_applied request) w1 in
      (outcome_map (map_err (fun error => from_domain error (Some id))) r, w2)
  end.

Definition execute (id : OperationId) (command : CoreCommand) (w : W)
    : outcome (result OperationOutput CoreError) * W :=
  let domain := fun error => from_domain error (Some id) in
  let finish (output : OperationOutput) '(r, w') :=
    (outcome_map (fun r => map_err domain (map_ok (fun _ : unit => output) r)) r, w' : W) in
  match command with
  | Reconcile request =>
      let '(r, w') := executor_reconcile id request w in
      (outcome_map (map_ok Reconciled) r, w')
  | Stop => finish OStopped (api_stop api w)
  | Recover => finish Recovered (api_recover_quarantine api w)
  | Shutdown => finish ShutDown (api_shutdown api w)
  end.
End Execute.

(** ** The control plane as a transition system *)

Inductive ExecutorExit := Clean | Died.

(** Where the executor task is: waiting in [recv], awaiting one operation's
    task, out of the loop, draining a closed queue, or gone. *)
Inductive Exec :=
| EIdle
| ERunning (id : OperationId) (command : CoreCommand)
| ELeaving (why : ExecutorExit)
| EDraining (why : ExecutorExit)
| EExited (why : ExecutorExit).

(** [p_pending]: [submit] calls past the closing check; [p_latches]: [submit]
    calls that registered a shutdown and have not stored the latch yet;
    [p_waiting], [p_holding]: [shutdown] calls waiting for, or holding, a queue
    permit. [p_admitted] and [p_ran] are history: the handles returned by
    admission, and the works taken from the queue with their sequence. *)
Record Plane (Q : Type) := {
  p_registry : RegistryInner;
  p_queue : Q;
  p_closing : bool;
  p_pending : list CoreCommandEnvelope;
  p_latches : nat;
  p_waiting : nat;
  p_holding : nat;
  p_exec : Exec;
  p_admitted : list (OperationId * AdmittedOp);
  p_ran : list N;
}.
Arguments p_registry {Q}. Arguments p_queue {Q}. Arguments p_closing {Q}.
Arguments p_pending {Q}. Arguments p_latches {Q}. Arguments p_waiting {Q}.
Arguments p_holding {Q}. Arguments p_exec {Q}. Arguments p_admitted {Q}. Arguments p_ran {Q}.

Section Plane.
Context {Q : Type} `{!BoundedQueue Q ExecutorWork}.
Context (capacity : N) (default_ipc : LocalIpcSettings).

Notation plane := (Plane Q).

Definition initial (q : Q) : plane :=
  {| p_registry := Registry_new; p_queue := q; p_closing := false; p_pending := [];
     p_latches := 0; p_waiting := 0; p_holding := 0; p_exec := EIdle;
     p_admitted := []; p_ran := [] |}.

(** [get_or_insert] of the manager's controller settings into a reconcile. *)
Definition resolve_local_ipc (c : CoreCommand) : CoreCommand :=
  match c with
  | Reconcile request =>
      let o := rr_options request in
      Reconcile
        {| rr_core := rr_core request; rr_config := rr_config request;
           rr_options :=
             {| io_local_ipc := Some (default default_ipc (io_local_ipc o));
                io_startup_timeout := io_startup_timeout o; io_health := io_health o;
                io_restart_policy := io_restart_policy o; io_backoff := io_backoff o |};
           rr_expected_applied := rr_expected_applied request |}
  | _ => c
  end.

Definition set_registry (r : RegistryInner) (s : plane) : plane :=
  {| p_registry := r; p_queue := p_queue s; p_closing := p_closing s; p_pending := p_pending s;
     p_latches := p_latches s; p_waiting := p_waiting s; p_holding := p_holding s;
     p_exec := p_exec s; p_admitted := p_admitted s; p_ran := p_ran s |}.

(** The admission half of [submit], for a call past the closing check. *)
Definition submit_admit (envelope : CoreCommandEnvelope) (rest : list CoreCommandEnvelope)
    (s : plane) : result Admission CoreError * plane :=
  let id := env_operation_id envelope in
  let command := resolve_local_ipc (env_command envelope) in
  let work := {| ew_id := id; ew_command := command |} in
  let '(answer, registry, queue) :=
    Registry_admit capacity id (command_digest command) (bq_try_send work)
      (p_registry s) (p_queue s) in
  let fresh := match answer with Ok (Registered a) => [(id, a)] | _ => [] end in
  (answer,
   {| p_registry := registry; p_queue := queue; p_closing := p_closing s; p_pending := rest;
      p_latches := (if is_shutdown command then length fresh else 0) + p_latches s;
      p_waiting := p_waiting s; p_holding := p_holding s; p_exec := p_exec s;
      p_admitted := fresh ++ p_admitted s; p_ran := p_ran s |}).

(** The admission half of [CoreControl::shutdown], for a call holding a
    permit: the permit is used only if the command is registered. *)
Definition shutdown_admit (id : OperationId) (rest : nat) (s : plane)
    : result Admission CoreError * plane :=
  let work := {| ew_id := id; ew_command := Shutdown |} in
  let '(answer, registry, queue) :=
    Registry_admit capacity id (command_digest Shutdown) (fun q => Ok (bq_permit_send work q))
      (p_registry s) (p_queue s) in
  let fresh := match answer with Ok (Registered a) => [(id, a)] | _ => [] end in
  (answer,
   {| p_registry := registry;
      p_queue := match fresh with [] => bq_permit_drop queue | _ => queue end;
      p_closing := p_closing s; p_pending := p_pending s; p_latches := p_latches s;
      p_waiting := p_waiting s; p_holding := rest; p_exec := p_exec s;
      p_admitted := fresh ++ p_admitted s; p_ran := p_ran s |}).

Definition sequence_of (r : RegistryInner) (id : OperationId) : N :=
  match operations r !! id with Some op => ro_sequence op | None => 0 end.

(** One turn of the executor's [while let Some(work) = rx.recv()] up to the
    point where the operation's task is awaited. *)
Definition on_recv (work : ExecutorWork) (queue : Q) (s : plane) : plane :=
  let id := ew_id work in
  let refuse := negb (is_shutdown (ew_command work)) && p_closing s in
  {| p_registry :=
       registry_set id (if refuse then Failed (shutting_down_error id) else Running)
         (p_registry s);
     p_queue := queue; p_closing := p_closing s; p_pending := p_pending s;
     p_latches := p_latches s; p_waiting := p_waiting s; p_holding := p_holding s;
     p_exec := if refuse then EIdle else ERunning id (ew_command work);
     p_admitted := p_admitted s; p_ran := p_ran s ++ [sequence_of (p_registry s) id] |}.

Definition panic_error (message : string) (id : OperationId) : CoreError :=
  with_operation
    (CoreError_new KInternal ("the control operation panicked: " +:+ message) false) id.

(** The rest of that turn: the terminal state, the latch when the operation's
    task panicked, the exit from the loop then and after a shutdown. *)
Definition on_finish (id : OperationId) (command : CoreCommand)
    (o : outcome (result OperationOutput CoreError)) (s : plane) : plane :=
  let state :=
    match o with
    | Return (Ok output) => Succeeded output
    | Return (Err error) => Failed error
    | Panicked message => Failed (panic_error message id)
    end in
  let died := match o with Panicked _ => true | Return _ => false end in
  {| p_registry := registry_set id state (p_registry s);
     p_queue := p_queue s;
     p_closing := died || p_closing s; p_pending := p_pending s; p_latches := p_latches s;
     p_waiting := p_waiting s; p_holding := p_holding s;
     p_exec := if died then ELeaving Died
               else if is_shutdown command then ELeaving Clean else EIdle;
     p_admitted := p_admitted s; p_ran := p_ran s |}.

(** The two [terminal] closures given to [drain]. *)
Definition drain_state (why : ExecutorExit) (work : ExecutorWork) : OperationState :=
  match why with
  | Died =>
      Failed (with_operation (CoreError_new KInternal "the control executor died" false)
                (ew_id work))
  | Clean =>
      match ew_command work with
      | Shutdown => Succeeded ShutDown
      | _ =>
          Failed (with_operation
            (CoreError_new KShuttingDown
               "the control plane shut down before this queued operation ran" false)
            (ew_id work))
      end
  end.

Definition on_drain (why : ExecutorExit) (work : ExecutorWork) (queue : Q) (s : plane) : plane :=
  {| p_registry := registry_set (ew_id work) (drain_state why work) (p_registry s);
     p_queue := queue; p_closing := p_closing s; p_pending := p_pending s;
     p_latches := p_latches s; p_waiting := p_waiting s; p_holding := p_holding s;
     p_exec := p_exec s; p_admitted := p_admitted s;
     p_ran := p_ran s ++ [sequence_of (p_registry s) (ew_id work)] |}.

Definition with_exec (e : Exec) (queue : Q) (s : plane) : plane :=
  {| p_registry := p_registry s; p_queue := queue; p_closing := p_closing s;
     p_pending := p_pending s; p_latches := p_latches s; p_waiting := p_waiting s;
     p_holding := p_holding s; p_exec := e; p_admitted := p_admitted s; p_ran := p_ran s |}.

Definition with_calls (queue : Q) (closing : bool) (pending : list CoreCommandEnvelope)
    (latches waiting holding : nat) (s : plane) : plane :=
  {| p_registry := p_registry s; p_queue := queue; p_closing := closing;
     p_pending := pending; p_latches := latches; p_waiting := waiting; p_holding := holding;
     p_exec := p_exec s; p_admitted := p_admitted s; p_ran := p_ran s |}.

(** The channel has ended for the receiver: closed, empty, no permit left. *)
Definition queue_ended (q : Q) : bool :=
  bq_closed q && bool_decide (bq_items q = []) && (bq_permits q =? 0)%nat.

Inductive step : plane -> plane -> Prop :=
| step_submit_check s envelope :
    p_closing s = false ->
    step s (with_calls (p_queue s) false (envelope :: p_pending s) (p_latches s)
              (p_waiting s) (p_holding s) s)
| step_submit_admit s before envelope after :
    p_pending s = before ++ envelope :: after ->
    step s (submit_admit envelope (before ++ after) s).2
| step_submit_latch s n :
    p_latches s = S n ->
    step s (with_calls (p_queue s) true (p_pending s) n (p_waiting s) (p_holding s) s)
| step_shutdown_begin s :
    step s (with_calls (p_queue s) true (p_pending s) (p_latches s)
              (S (p_waiting s)) (p_holding s) s)
| step_shutdown_reserve s n queue :
    p_waiting s = S n -> bq_reserve (p_queue s) = Some queue ->
    step s (with_calls queue (p_closing s) (p_pending s) (p_latches s) n (S (p_holding s)) s)
| step_shutdown_closed s n :
    p_waiting s = S n -> bq_closed (p_queue s) = true ->
    step s (with_calls (p_queue s) (p_closing s) (p_pending s) (p_latches s) n (p_holding s) s)
| step_shutdown_dropped s n :
    (* the caller gives its [shutdown] up while it waits for a permit *)
    p_waiting s = S n ->
    step s (with_calls (p_queue s) (p_closing s) (p_pending s) (p_latches s) n (p_holding s) s)
| step_shutdown_admit s n id :
    p_holding s = S n ->
    step s (shutdown_admit id n s).2
| step_handles_dropped s :
    p_pending s = [] -> p_latches s = 0%nat -> p_waiting s = 0%nat -> p_holding s = 0%nat ->
    step s (with_calls (bq_close (p_queue s)) (p_closing s) [] 0 0 0 s)
| step_exec_recv s work queue :
    p_exec s = EIdle -> bq_recv (p_queue s) = Some (work, queue) ->
    step s (on_recv work queue s)
| step_exec_ended s :
    p_exec s = EIdle -> queue_ended (p_queue s) = true ->
    step s (with_exec (ELeaving Clean) (p_queue s) s)
| step_exec_finish s id command o :
    p_exec s = ERunning id command ->
    step s (on_finish id command o s)
| step_exec_close s why :
    p_exec s = ELeaving why ->
    step s (with_exec (EDraining why) (bq_close (p_queue s)) s)
| step_exec_drain s why work queue :
    p_exec s = EDraining why -> bq_recv (p_queue s) = Some (work, queue) ->
    step s (on_drain why work queue s)
| step_exec_drained s why :
    p_exec s = EDraining why -> queue_ended (p_queue s) = true ->
    step s (with_exec (EExited why) (p_queue s) s).

Inductive reachable (q : Q) : plane -> Prop :=
| reachable_init : reachable q (initial q)
| reachable_step s s' : reachable q s -> step s s' -> reachable q s'.
End Plane.

(** ** The invariant of every interleaving *)

Section Invariant.
Context {Q : Type} `{!BoundedQueue Q ExecutorWork} `{!BoundedQueueLaws Q ExecutorWork}.
Context (capacity : N) (qcap : nat) (default_ipc : LocalIpcSettings).
Context (capacity_live : N.of_nat qcap + 1 <= capacity).

Notation plane := (Plane Q).

Definition queue_ids (s : plane) : list OperationId := map ew_id (bq_items (p_queue s)).
Definition running_ids (s : plane) : list OperationId :=
  match p_exec s with ERunning id _ => [id] | _ => [] end.
Definition active (s : plane) : list OperationId := running_ids s ++ queue_ids s.

(** A handle's channel: still fed by its entry, or terminal for good. *)
Definition handle_ok (r : RegistryInner) (h : OperationId * AdmittedOp) : Prop :=
  let '(id, a) := h in
  ad_state_rx a < next_chan r /\
  ((exists st, entry r id = Some (ad_sequence a, ad_state_rx a, st))
   \/ (op_terminal (borrow r (ad_state_rx a)) = true
       /\ forall id' sq st, entry r id' <> Some (sq, ad_state_rx a, st))).

Definition sequences (s : plane) : list N :=
  p_ran s ++ map (sequence_of (p_registry s)) (queue_ids s).

Definition closed_phase (e : Exec) : Prop :=
  match e with EDraining _ | EExited _ => True | _ => False end.

Record invariant (s : plane) : Prop := {
  inv_wf : registry_wf (p_registry s);
  inv_qcap : bq_capacity (p_queue s) = qcap;
  inv_room : (length (bq_items (p_queue s)) + bq_permits (p_queue s) <= qcap)%nat;
  inv_holding : bq_permits (p_queue s) = p_holding s;
  inv_size : N.of_nat (size (operations (p_registry s))) <= capacity;
  inv_nodup : NoDup (active s);
  inv_queued : forall id, id ∈ queue_ids s -> exists sq c,
    entry (p_registry s) id = Some (sq, c, Queued);
  inv_running : forall id, id ∈ running_ids s -> exists sq c,
    entry (p_registry s) id = Some (sq, c, Running);
  inv_live : forall id sq c st,
    entry (p_registry s) id = Some (sq, c, st) -> op_terminal st = false -> id ∈ active s;
  inv_admitted : Forall (handle_ok (p_registry s)) (p_admitted s);
  inv_sequences : StronglySorted N.lt (sequences s);
  inv_next : Forall (fun sq => sq < next_sequence (p_registry s)) (sequences s);
  inv_closed : closed_phase (p_exec s) -> bq_closed (p_queue s) = true;
  inv_exited : forall why, p_exec s = EExited why ->
    bq_items (p_queue s) = [] /\ bq_permits (p_queue s) = 0%nat;
}.

(** *** Handles under each registry operation *)

Lemma entry_set_inv id state r id' sq c st :
  registry_wf r -> entry (registry_set id state r) id' = Some (sq, c, st) ->
  exists st', entry r id' = Some (sq, c, st').
Proof.
  intros W. destruct (decide (id' = id)) as [->|Hne].
  - destruct (entry r id) as [[[sq' c'] st']|] eqn:E.
    + erewrite entry_set_eq by done. intros [= -> -> _]. eauto.
    + unfold registry_set. apply entry_None in E as E'. rewrite E', E. done.
  - rewrite entry_set_ne by done. eauto.
Qed.

Lemma handle_ok_set id state r h :
  registry_wf r -> handle_ok r h -> handle_ok (registry_set id state r) h.
Proof.
  destruct h as [idh a]. intros W [Hc Hh]. split.
  { by rewrite (proj2 (next_registry_set id state r)). }
  destruct Hh as [[st Hst]|[Ht Hno]].
  - left. destruct (decide (idh = id)) as [->|Hne].
    + eexists. by eapply entry_set_eq.
    + exists st. by rewrite entry_set_ne.
  - right. split.
    + rewrite borrow_set_other; [done|]. intros sq st. apply Hno.
    + intros id' sq st Hs. apply entry_set_inv in Hs as [st' Hs]; [|done]. by eapply Hno.
Qed.

Lemma handle_ok_evict r h :
  registry_wf r -> handle_ok r h -> handle_ok (evict capacity r) h.
Proof.
  destruct h as [idh a]. intros W [Hc Hh]. split.
  { by rewrite (proj2 (next_evict capacity r)). }
  rewrite evict_borrow.
  destruct Hh as [[st Hst]|[Ht Hno]].
  - destruct (entry (evict capacity r) idh) as [e|] eqn:E.
    { left. exists st. by rewrite (entry_evict_sub _ _ _ _ E) in Hst; simplify_eq. }
    right. destruct (op_terminal st) eqn:Ht.
    2: { by rewrite (entry_evict_live _ _ _ _ _ _ Hst Ht) in E. }
    split.
    + apply entry_Some in Hst as (op & _ & _ & <- & <-). done.
    + intros id' sq st' Hs. pose proof (entry_evict_sub _ _ _ _ Hs) as Hs'.
      assert (id' = idh) as -> by (by eapply entry_inj). congruence.
  - right. split; [done|]. intros id' sq st Hs%entry_evict_sub. by eapply Hno.
Qed.

Lemma handle_ok_bumped r h : registry_wf r -> handle_ok r h -> handle_ok (bumped r) h.
Proof.
  destruct h as [idh a]. intros W [Hc Hh]. split; [cbn; lia|].
  setoid_rewrite entry_bumped; [|done..]. by rewrite borrow_bumped.
Qed.

Lemma handle_ok_insert id digest r h :
  registry_wf r -> operations r !! id = None -> handle_ok r h ->
  handle_ok (insert_operation id digest r).1 h.
Proof.
  destruct h as [idh a]. intros W Hid [Hc Hh]. split; [cbn; lia|].
  rewrite borrow_insert by done. destruct Hh as [[st Hst]|[Ht Hno]].
  - left. exists st. rewrite entry_insert_ne; [done|done|].
    intros ->. apply entry_None in Hid. congruence.
  - right. split; [done|]. intros id' sq st. destruct (decide (id' = id)) as [->|Hne].
    + rewrite entry_insert_new. intros [= _ Hx _]. lia.
    + rewrite entry_insert_ne by done. apply Hno.
Qed.

Lemma handle_ok_new id digest r :
  handle_ok (insert_operation id digest r).1 (id, (insert_operation id digest r).2).
Proof. split; [cbn; lia|]. left. exists Queued. apply entry_insert_new. Qed.

Lemma sequence_of_entry r id sq c st :
  entry r id = Some (sq, c, st) -> sequence_of r id = sq.
Proof. intros (op & H & <- & _)%entry_Some. unfold sequence_of. by rewrite H. Qed.

Lemma initial_invariant (q : Q) :
  bq_capacity q = qcap -> bq_items q = [] -> bq_permits q = 0%nat ->
  invariant (initial q).
Proof.
  intros Hc Hi Hp. split; unfold active, running_ids, queue_ids, sequences, queue_ids;
    cbn; rewrite ?Hi, ?Hp; cbn; try done; try lia.
  - split; cbn; try done.
    + apply NoDup_nil_2.
    + intros id. split; [by intros ?%elem_of_nil|by intros [? ?]].
  - rewrite map_size_empty. lia.
  - apply NoDup_nil_2.
  - by intros id ?%elem_of_nil.
  - by intros id ?%elem_of_nil.
  - constructor.
Qed.

(** *** Preservation *)

Lemma StronglySorted_snoc (l : list N) (x : N) :
  StronglySorted N.lt l -> Forall (fun y => y < x) l -> StronglySorted N.lt (l ++ [x]).
Proof.
  induction 1 as [|y l Hl IH Hy]; intros Hx; cbn; [by repeat constructor|].
  apply Forall_cons in Hx as [Hyx Hx]. constructor; [by apply IH|].
  apply Forall_app. split; [done|by apply Forall_singleton].
Qed.

Lemma sequence_of_ext r r' (ids : list OperationId) :
  (forall id, id ∈ ids -> exists sq c st, entry r id = Some (sq, c, st)
    /\ exists c' st', entry r' id = Some (sq, c', st')) ->
  map (sequence_of r') ids = map (sequence_of r) ids.
Proof.
  intros H. apply map_ext_in. intros id Hid%list_elem_of_In.
  destruct (H id Hid) as (sq & c & st & E & c' & st' & E').
  by rewrite (sequence_of_entry _ _ _ _ _ E), (sequence_of_entry _ _ _ _ _ E').
Qed.

(** Steps that leave registry, buffered items and history alone. *)
Lemma invariant_calls (s : plane) (queue : Q) closing pending latches waiting holding (e : Exec) :
  invariant s ->
  bq_items queue = bq_items (p_queue s) -> bq_capacity queue = bq_capacity (p_queue s) ->
  bq_permits queue = holding ->
  (length (bq_items queue) + bq_permits queue <= qcap)%nat ->
  (closed_phase e -> bq_closed queue = true) ->
  (forall why, e = EExited why -> bq_items queue = [] /\ bq_permits queue = 0%nat) ->
  (match e with ERunning id _ => [id] | _ => [] end) = running_ids s ->
  invariant (with_exec e queue (with_calls queue closing pending latches waiting holding s)).
Proof.
  intros I Hi Hc Hp Hroom Hclosed Hexit Hrun.
  split; unfold active, sequences, queue_ids, running_ids in *;
    cbn [with_exec with_calls p_registry p_queue p_exec p_admitted p_ran p_holding] in *;
    rewrite ?Hi, ?Hrun; try apply I; try done; try (by rewrite <- Hi).
  by rewrite Hc, (inv_qcap _ I).
Qed.

Lemma active_entry (s : plane) id :
  invariant s -> id ∈ active s -> exists sq c st,
    entry (p_registry s) id = Some (sq, c, st) /\ op_terminal st = false.
Proof.
  intros I [H|H]%elem_of_app.
  - destruct (inv_running _ I id H) as (sq & c & E). by exists sq, c, Running.
  - destruct (inv_queued _ I id H) as (sq & c & E). by exists sq, c, Queued.
Qed.

(** Steps of the executor: the oldest active operation gets the state [st],
    which is terminal or [Running]. *)
Lemma invariant_advance (s s' : plane) (id : OperationId) rest st :
  invariant s ->
  active s = id :: rest -> queue_ids s' = rest ->
  (op_terminal st = true /\ running_ids s' = [] \/ st = Running /\ running_ids s' = [id]) ->
  p_registry s' = registry_set id st (p_registry s) ->
  p_admitted s' = p_admitted s ->
  p_ran s' ++ map (sequence_of (p_registry s)) rest = sequences s ->
  same_queue (p_queue s) (p_queue s') (bq_items (p_queue s'))
    (bq_permits (p_queue s)) (bq_closed (p_queue s)) ->
  p_holding s' = p_holding s ->
  (closed_phase (p_exec s') -> closed_phase (p_exec s)) ->
  (forall why, p_exec s' <> EExited why) ->
  invariant s'.
Proof.
  intros I Hact Hq Hst Hreg Hadm Hran (Hi & Hp & Hcl & Hcap) Hh Hphase Hexit.
  pose proof (inv_wf _ I) as W. pose proof (inv_nodup _ I) as Hnd. rewrite Hact in Hnd.
  apply NoDup_cons in Hnd as [Hid Hnd].
  destruct (active_entry s id I) as (sq0 & c0 & st0 & E0 & Hl0).
  { rewrite Hact. by left. }
  assert (Hrest : forall x, x ∈ rest -> entry (p_registry s') x = entry (p_registry s) x).
  { intros x Hx. rewrite Hreg. apply entry_set_ne; [done|]. by intros ->. }
  assert (Hseq : map (sequence_of (p_registry s')) rest
                 = map (sequence_of (p_registry s)) rest).
  { apply sequence_of_ext. intros x Hx.
    destruct (active_entry s x I) as (sq & c & st' & E & _).
    { rewrite Hact. by right. }
    exists sq, c, st'. split; [done|]. exists c, st'. by rewrite Hrest. }
  assert (Hlen : (length (queue_ids s') <= length (queue_ids s))%nat).
  { rewrite Hq. assert (length (active s) = S (length rest)) as HL by by rewrite Hact.
    unfold active in HL. rewrite length_app in HL. unfold running_ids in HL.
    destruct (p_exec s); cbn in HL; lia. }
  unfold queue_ids in Hlen. rewrite !length_map in Hlen.
  pose proof (inv_room _ I). pose proof (inv_holding _ I).
  split.
  - rewrite Hreg. by apply registry_set_wf.
  - by rewrite Hcap, (inv_qcap _ I).
  - rewrite Hp. lia.
  - by rewrite Hp, Hh.
  - rewrite Hreg, operations_registry_set. apply I.
  - unfold active. rewrite Hq. destruct Hst as [[_ ->]|[_ ->]]; [done|by constructor].
  - intros x Hx. rewrite Hq in Hx. rewrite Hrest by done.
    destruct (inv_queued _ I x) as (sq & c & E); [|by eauto].
    assert (x ∈ active s) as Hxa by (rewrite Hact; by right).
    unfold active in Hxa. apply elem_of_app in Hxa as [Hxr|]; [|done].
    exfalso. apply Hid. unfold active, running_ids in Hact, Hxr.
    destruct (p_exec s); try by apply elem_of_nil in Hxr.
    apply list_elem_of_singleton in Hxr. cbn in Hact. congruence.
  - intros x Hx. destruct Hst as [[_ Hr]|[-> Hr]]; rewrite Hr in Hx;
      [by apply elem_of_nil in Hx|].
    apply list_elem_of_singleton in Hx as ->.
    exists sq0, c0. rewrite Hreg. by eapply entry_set_eq.
  - intros x sq c stx Hx Hlx. unfold active. rewrite Hq.
    destruct (decide (x = id)) as [->|Hne].
    + rewrite Hreg in Hx. erewrite entry_set_eq in Hx by done. simplify_eq.
      destruct Hst as [[? _]|[-> ->]]; [congruence|by left].
    + rewrite Hreg, entry_set_ne in Hx by done.
      pose proof (inv_live _ I _ _ _ _ Hx Hlx) as Hxa. rewrite Hact in Hxa.
      apply elem_of_cons in Hxa as [?|Hxa]; [done|]. apply elem_of_app. by right.
  - rewrite Hadm, Hreg. eapply Forall_impl; [apply I|]. intros h. by apply handle_ok_set.
  - unfold sequences. rewrite Hq, Hseq, Hran. apply I.
  - unfold sequences. rewrite Hq, Hseq, Hran, Hreg.
    rewrite (proj1 (next_registry_set _ _ _)). apply I.
  - intros Hc. rewrite Hcl. by apply I, Hphase.
  - intros why Hw. by apply Hexit in Hw.
Qed.

(** Admission under a full registry of live operations cannot happen: they
    are the queue's and the running one. *)
Lemma evict_room (s : plane) :
  invariant s -> (length (bq_items (p_queue s)) < qcap)%nat ->
  N.of_nat (size (operations (evict capacity (p_registry s)))) < capacity.
Proof.
  intros I Hlen. pose proof (inv_wf _ I) as W. pose proof (evict_wf capacity _ W) as W'.
  destruct (evict_stops capacity _ W) as [?|Hlive]; [done|].
  rewrite (registry_size _ W').
  assert (order (evict capacity (p_registry s)) ⊆+ active s) as Hsub%submseteq_length.
  { apply NoDup_submseteq; [apply W'|]. intros id Hid.
    pose proof (Hlive _ Hid) as Ht. apply (wf_dom _ W') in Hid as [op Hop].
    destruct (entry (evict capacity (p_registry s)) id) as [[[sq c] st]|] eqn:E.
    2: { apply entry_None in E. congruence. }
    apply (inv_live _ I id sq c st); [by apply entry_evict_sub in E|].
    by rewrite <- (entry_terminal _ _ _ _ _ E). }
  unfold active, queue_ids in Hsub. rewrite length_app, length_map in Hsub.
  assert (length (running_ids s) <= 1)%nat by (unfold running_ids; destruct (p_exec s); cbn; lia).
  lia.
Qed.

Lemma sequences_evict (s : plane) :
  invariant s ->
  map (sequence_of (evict capacity (p_registry s))) (queue_ids s)
  = map (sequence_of (p_registry s)) (queue_ids s).
Proof.
  intros I. apply sequence_of_ext. intros id (sq & c & E)%(inv_queued _ I).
  exists sq, c, Queued. split; [done|]. exists c, Queued. by apply entry_evict_live.
Qed.

(** A registry that kept every live entry and gained none. *)
Lemma invariant_registry (s s' : plane) :
  invariant s ->
  registry_wf (p_registry s') ->
  (forall id sq c st, entry (p_registry s) id = Some (sq, c, st) -> op_terminal st = false ->
     entry (p_registry s') id = Some (sq, c, st)) ->
  (forall id e, entry (p_registry s') id = Some e -> entry (p_registry s) id = Some e) ->
  (forall h, handle_ok (p_registry s) h -> handle_ok (p_registry s') h) ->
  (size (operations (p_registry s')) <= size (operations (p_registry s)))%nat ->
  next_sequence (p_registry s) <= next_sequence (p_registry s') ->
  bq_items (p_queue s') = bq_items (p_queue s) ->
  bq_capacity (p_queue s') = bq_capacity (p_queue s) ->
  bq_closed (p_queue s') = bq_closed (p_queue s) ->
  (bq_permits (p_queue s') <= bq_permits (p_queue s))%nat ->
  bq_permits (p_queue s') = p_holding s' ->
  p_exec s' = p_exec s -> p_admitted s' = p_admitted s -> p_ran s' = p_ran s ->
  invariant s'.
Proof.
  intros I W Hkeep Hsub Hh Hsize Hnext Hi Hcap Hcl Hp Hhold He Ha Hr.
  assert (Hq : queue_ids s' = queue_ids s) by (unfold queue_ids; by rewrite Hi).
  assert (Hrun : running_ids s' = running_ids s) by (unfold running_ids; by rewrite He).
  assert (Hact : active s' = active s) by (unfold active; by rewrite Hq, Hrun).
  assert (Hseq : sequences s' = sequences s).
  { unfold sequences. rewrite Hr, Hq. f_equal. apply sequence_of_ext.
    intros id (sq & c & E)%(inv_queued _ I). exists sq, c, Queued. split; [done|].
    exists c, Queued. by apply Hkeep. }
  pose proof (inv_room _ I). pose proof (inv_size _ I).
  split; rewrite ?Hact, ?Hseq, ?Ha, ?He, ?Hcl, ?Hi; try apply I; try done.
  - by rewrite Hcap, (inv_qcap _ I).
  - lia.
  - lia.
  - intros id Hid. rewrite Hq in Hid. destruct (inv_queued _ I id Hid) as (sq & c & E).
    exists sq, c. by apply Hkeep.
  - intros id Hid. rewrite Hrun in Hid. destruct (inv_running _ I id Hid) as (sq & c & E).
    exists sq, c. by apply Hkeep.
  - intros id sq c st E Hl. apply Hsub in E. by eapply (inv_live _ I).
  - eapply Forall_impl; [apply I|]. done.
  - eapply Forall_impl; [apply (inv_next _ I)|]. cbn. lia.
  - intros why Hw. destruct (inv_exited _ I why Hw) as [Hx Hy]. split; [done|lia].
Qed.

Lemma invariant_refused (s s' : plane) :
  invariant s ->
  p_registry s' = bumped (evict capacity (p_registry s)) ->
  bq_items (p_queue s') = bq_items (p_queue s) ->
  bq_capacity (p_queue s') = bq_capacity (p_queue s) ->
  bq_closed (p_queue s') = bq_closed (p_queue s) ->
  (bq_permits (p_queue s') <= bq_permits (p_queue s))%nat ->
  bq_permits (p_queue s') = p_holding s' ->
  p_exec s' = p_exec s -> p_admitted s' = p_admitted s -> p_ran s' = p_ran s ->
  invariant s'.
Proof.
  intros I Hreg. pose proof (inv_wf _ I) as W. pose proof (evict_wf capacity _ W) as W'.
  apply invariant_registry; [done|rewrite Hreg..].
  - by apply bumped_wf.
  - intros id sq c st E Hl. rewrite entry_bumped by done. by apply entry_evict_live.
  - intros id e. rewrite entry_bumped by done. apply entry_evict_sub.
  - intros h Hh. by apply handle_ok_bumped, handle_ok_evict.
  - cbn. apply map_subseteq_size, (evict_evicts capacity).
  - cbn. rewrite (proj1 (next_evict capacity _)). lia.
Qed.

Lemma invariant_registered (s s' : plane) (id : OperationId) digest work :
  invariant s -> ew_id work = id ->
  operations (p_registry s) !! id = None ->
  p_registry s' = (insert_operation id digest (evict capacity (p_registry s))).1 ->
  bq_items (p_queue s') = bq_items (p_queue s) ++ [work] ->
  bq_capacity (p_queue s') = bq_capacity (p_queue s) ->
  bq_closed (p_queue s') = bq_closed (p_queue s) ->
  (length (bq_items (p_queue s')) + bq_permits (p_queue s') <= qcap)%nat ->
  bq_permits (p_queue s') = p_holding s' ->
  p_exec s' = p_exec s ->
  p_admitted s' =
    (id, (insert_operation id digest (evict capacity (p_registry s))).2) :: p_admitted s ->
  p_ran s' = p_ran s ->
  (forall why, p_exec s <> EExited why) ->
  invariant s'.
Proof.
  intros I Hw Hid Hreg Hi Hcap Hcl Hroom Hhold He Ha Hr Hexit.
  pose proof (inv_wf _ I) as W. pose proof (evict_wf capacity _ W) as W'.
  pose proof (evict_absent capacity _ _ Hid) as Hid'.
  assert (Hq : queue_ids s' = queue_ids s ++ [id]).
  { unfold queue_ids. rewrite Hi, map_app. cbn. by rewrite Hw. }
  assert (Hrun : running_ids s' = running_ids s) by (unfold running_ids; by rewrite He).
  assert (Hact : active s' = active s ++ [id]).
  { unfold active. by rewrite Hq, Hrun, app_assoc. }
  assert (Hna : id ∉ active s).
  { intros (sq & c & st & (op & Hop & _)%entry_Some & _)%(active_entry s id I). congruence. }
  assert (Hold : forall x sq c st, x ∈ active s ->
    entry (p_registry s) x = Some (sq, c, st) -> op_terminal st = false ->
    entry (p_registry s') x = Some (sq, c, st)).
  { intros x sq c st Hx E Hl. rewrite Hreg, entry_insert_ne; [by apply entry_evict_live|done|].
    by intros ->. }
  assert (Hseq : sequences s' = sequences s ++ [next_sequence (p_registry s)]).
  { unfold sequences. rewrite Hr, Hq, map_app, app_assoc. f_equal; [f_equal|].
    - apply sequence_of_ext. intros x Hx. pose proof (inv_queued _ I x Hx) as (sq & c & E).
      exists sq, c, Queued. split; [done|]. exists c, Queued. apply Hold; try done.
      apply elem_of_app. by right.
    - cbn. f_equal. rewrite Hreg. erewrite sequence_of_entry by apply entry_insert_new.
      by rewrite (proj1 (next_evict capacity _)). }
  split.
  - rewrite Hreg. by apply insert_operation_wf.
  - by rewrite Hcap, (inv_qcap _ I).
  - done.
  - done.
  - rewrite Hreg. cbn [insert_operation fst operations].
    rewrite map_size_insert_None by done.
    assert (length (bq_items (p_queue s)) < qcap)%nat as Hlt.
    { rewrite Hi, length_app in Hroom. cbn in Hroom. lia. }
    pose proof (evict_room s I Hlt). lia.
  - rewrite Hact. apply NoDup_app. split_and!; [apply I| |apply NoDup_singleton].
    intros x Hx Hx'%list_elem_of_singleton. by subst x.
  - intros x. rewrite Hq. intros [Hx|Hx]%elem_of_app.
    + destruct (inv_queued _ I x Hx) as (sq & c & E). exists sq, c. apply Hold; try done.
      apply elem_of_app. by right.
    + apply list_elem_of_singleton in Hx as ->. rewrite Hreg. do 2 eexists.
      apply entry_insert_new.
  - intros x. rewrite Hrun. intros Hx. destruct (inv_running _ I x Hx) as (sq & c & E).
    exists sq, c. apply Hold; try done. apply elem_of_app. by left.
  - intros x sq c st E Hl. rewrite Hact. apply elem_of_app.
    destruct (decide (x = id)) as [->|Hne]; [right; by apply list_elem_of_singleton|left].
    rewrite Hreg, entry_insert_ne in E by done. apply entry_evict_sub in E.
    by eapply (inv_live _ I).
  - rewrite Ha, Hreg. constructor; [apply handle_ok_new|].
    eapply Forall_impl; [apply I|]. intros h Hh.
    by apply handle_ok_insert, handle_ok_evict.
  - rewrite Hseq. apply StronglySorted_snoc; [apply I|]. apply (inv_next _ I).
  - rewrite Hseq, Hreg. cbn. rewrite (proj1 (next_evict capacity _)).
    apply Forall_app. split; [|apply Forall_singleton; lia].
    eapply Forall_impl; [apply (inv_next _ I)|]. cbn. lia.
  - rewrite He, Hcl. apply I.
  - intros why. rewrite He. intros ?%Hexit. done.
Qed.

Lemma not_exited (s : plane) :
  invariant s -> bq_closed (p_queue s) = false -> forall why, p_exec s <> EExited why.
Proof. intros I Hc why He. rewrite (inv_closed _ I) in Hc; [done|]. by rewrite He. Qed.

Lemma submit_admit_invariant (s : plane) before envelope after :
  invariant s -> invariant (submit_admit capacity default_ipc envelope (before ++ after) s).2.
Proof.
  intros I. unfold submit_admit.
  set (id := env_operation_id envelope). set (command := resolve_local_ipc _ _).
  destruct (admit_spec capacity id (command_digest command)
    (bq_try_send {| ew_id := id; ew_command := command |}) (p_registry s) (p_queue s))
    as [op Hop Hd|op Hop Hd|q' Hid Hq|e Hid Hq]; cbn [snd app].
  - eapply (invariant_registry s); cbn; try apply I; eauto; lia.
  - eapply (invariant_registry s); cbn; try apply I; eauto; lia.
  - apply bq_try_send_ok in Hq as (Hopen & Hlt & Hi & Hp & Hc & Hcap).
    pose proof (inv_qcap _ I). pose proof (inv_holding _ I).
    eapply (invariant_registered s _ id (command_digest command)
      {| ew_id := id; ew_command := command |});
      cbn [p_registry p_queue p_holding p_exec p_admitted p_ran]; try done.
    + rewrite Hi, Hp, length_app. cbn. lia.
    + by rewrite Hp.
    + by apply not_exited.
  - eapply (invariant_refused s); cbn; try apply I; eauto.
Qed.

Lemma shutdown_admit_invariant (s : plane) n id :
  invariant s -> p_holding s = S n -> invariant (shutdown_admit capacity id n s).2.
Proof.
  intros I Hn. unfold shutdown_admit. pose proof (inv_holding _ I) as Hhold.
  rewrite Hn in Hhold. pose proof (inv_room _ I) as Hroom.
  destruct (bq_permit_drop_ok _ _ Hhold) as (Di & Dp & Dc & Dcap).
  destruct (bq_permit_send_ok {| ew_id := id; ew_command := Shutdown |} _ _ Hhold)
    as (Si & Sp & Sc & Scap).
  destruct (admit_spec capacity id (command_digest Shutdown)
    (fun q => Ok (bq_permit_send {| ew_id := id; ew_command := Shutdown |} q))
    (p_registry s) (p_queue s)) as [op Hop Hd|op Hop Hd|q' Hid Hq|e Hid Hq]; cbn [snd app].
  - eapply (invariant_registry s);
      cbn [p_registry p_queue p_holding p_exec p_admitted p_ran]; try apply I; eauto; lia.
  - eapply (invariant_registry s);
      cbn [p_registry p_queue p_holding p_exec p_admitted p_ran]; try apply I; eauto; lia.
  - injection Hq as <-.
    eapply (invariant_registered s _ id (command_digest Shutdown)
      {| ew_id := id; ew_command := Shutdown |});
      cbn [p_registry p_queue p_holding p_exec p_admitted p_ran]; try done.
    + rewrite Si, Sp, length_app. cbn. lia.
    + intros why He. destruct (inv_exited _ I why He) as [_ Hz]. lia.
  - done.
Qed.

Lemma on_recv_invariant (s : plane) work queue :
  invariant s -> p_exec s = EIdle -> bq_recv (p_queue s) = Some (work, queue) ->
  invariant (on_recv work queue s).
Proof.
  intros I He Hr. apply bq_recv_Some in Hr as [Hi Hsame].
  eapply (invariant_advance s _ (ew_id work) (map ew_id (bq_items queue))
    (if negb (is_shutdown (ew_command work)) && p_closing s
     then Failed (shutting_down_error (ew_id work)) else Running)); try done.
  - unfold active, running_ids, queue_ids. by rewrite He, Hi.
  - unfold running_ids, on_recv. cbn. destruct (_ && _); [by left|by right].
  - unfold sequences, queue_ids, on_recv. cbn [p_ran]. by rewrite Hi, <- app_assoc.
  - unfold on_recv. cbn [p_exec]. by destruct (_ && _).
  - unfold on_recv. cbn [p_exec]. by destruct (_ && _).
Qed.

Lemma on_finish_invariant (s : plane) id command o :
  invariant s -> p_exec s = ERunning id command -> invariant (on_finish id command o s).
Proof.
  intros I He.
  eapply (invariant_advance s _ id (queue_ids s)); try reflexivity.
  - done.
  - unfold active, running_ids. by rewrite He.
  - left. split; [by destruct o as [[]|]|]. unfold running_ids. cbn.
    destruct o; cbn; [|done]. by destruct (is_shutdown command).
  - done.
  - cbn [p_exec on_finish]. destruct o; cbn; [|done]. by destruct (is_shutdown command).
  - cbn [p_exec on_finish]. destruct o; cbn; [|done]. by destruct (is_shutdown command).
Qed.

Lemma on_drain_invariant (s : plane) why work queue :
  invariant s -> p_exec s = EDraining why -> bq_recv (p_queue s) = Some (work, queue) ->
  invariant (on_drain why work queue s).
Proof.
  intros I He Hr. apply bq_recv_Some in Hr as [Hi Hsame].
  eapply (invariant_advance s _ (ew_id work) (map ew_id (bq_items queue))
    (drain_state why work)); try reflexivity.
  - done.
  - unfold active, running_ids, queue_ids. by rewrite He, Hi.
  - left. unfold running_ids. cbn [on_drain p_exec]. rewrite He. split; [|done].
    unfold drain_state. destruct why; [by destruct (ew_command work)|done].
  - unfold sequences, queue_ids, on_drain. cbn [p_ran]. by rewrite Hi, <- app_assoc.
  - done.
  - cbn. done.
  - intros why' Hw. cbn in Hw. congruence.
Qed.

Lemma step_invariant (s s' : plane) :
  invariant s -> step capacity default_ipc s s' -> invariant s'.
Proof.
  intros I Hs. pose proof (inv_room _ I) as Hroom. pose proof (inv_holding _ I) as Hhold.
  pose proof (inv_qcap _ I) as Hqcap.
  destruct Hs as [s envelope Hc|s before envelope after Hp|s n Hl|s|s n queue Hw Hr
    |s n Hw Hc|s n Hw|s n id Hh|s H1 H2 H3 H4|s work queue He Hr|s He Hq|s id command o He
    |s why He|s why work queue He Hr|s why He Hq].
  - by apply (invariant_calls s _ _ _ _ _ _ (p_exec s)); try apply I.
  - by apply submit_admit_invariant.
  - by apply (invariant_calls s _ _ _ _ _ _ (p_exec s)); try apply I.
  - by apply (invariant_calls s _ _ _ _ _ _ (p_exec s)); try apply I.
  - apply bq_reserve_ok in Hr as (Hopen & Hlt & Hi & Hp & Hc & Hcap).
    apply (invariant_calls s _ _ _ _ _ _ (p_exec s)); try done.
    + by rewrite Hp, Hhold.
    + rewrite Hi, Hp. lia.
    + intros Hph. rewrite Hc. by apply I.
    + intros why Hx. by destruct (not_exited s I Hopen why).
  - by apply (invariant_calls s _ _ _ _ _ _ (p_exec s)); try apply I.
  - by apply (invariant_calls s _ _ _ _ _ _ (p_exec s)); try apply I.
  - by apply shutdown_admit_invariant.
  - destruct (bq_close_ok (p_queue s)) as (Hi & Hp & Hc & Hcap).
    apply (invariant_calls s _ _ _ _ _ _ (p_exec s)); rewrite ?Hi, ?Hp; try done.
    + lia.
    + apply I.
  - by apply on_recv_invariant.
  - apply (invariant_calls s _ (p_closing s) (p_pending s) (p_latches s) (p_waiting s)
      (p_holding s) (ELeaving Clean)); try done. unfold running_ids. by rewrite He.
  - by apply on_finish_invariant.
  - destruct (bq_close_ok (p_queue s)) as (Hi & Hp & Hc & Hcap).
    apply (invariant_calls s _ (p_closing s) (p_pending s) (p_latches s) (p_waiting s)
      (p_holding s) (EDraining why)); rewrite ?Hi, ?Hp; try done.
    unfold running_ids. by rewrite He.
  - by apply (on_drain_invariant s why).
  - unfold queue_ended in Hq.
    apply andb_true_iff in Hq as [[Hc Hi%bool_decide_eq_true]%andb_true_iff Hp%Nat.eqb_eq].
    apply (invariant_calls s _ (p_closing s) (p_pending s) (p_latches s) (p_waiting s)
      (p_holding s) (EExited why)); try done. unfold running_ids. by rewrite He.
Qed.

Lemma reachable_invariant (q : Q) (s : plane) :
  bq_capacity q = qcap -> bq_items q = [] -> bq_permits q = 0%nat ->
  reachable capacity default_ipc q s -> invariant s.
Proof.
  intros Hc Hi Hp. induction 1 as [|s s' _ IH Hs].
  - by apply initial_invariant.
  - by eapply step_invariant.
Qed.

(** *** What the invariant gives *)

Context (q : Q) (q_capacity : bq_capacity q = qcap) (q_items : bq_items q = [])
  (q_permits : bq_permits q = 0%nat).

Notation steps := (rtc (step capacity default_ipc)).
Notation reached := (reachable capacity default_ipc q).

Lemma reached_invariant (s : plane) : reached s -> invariant s.
Proof. by apply reachable_invariant. Qed.

Lemma reached_steps (s s' : plane) : reached s -> steps s s' -> reached s'.
Proof. intros Hr. induction 1; [done|]. eauto using reachable_step. Qed.

Lemma active_exited (s : plane) why : invariant s -> p_exec s = EExited why -> active s = [].
Proof.
  intros I He. destruct (inv_exited _ I why He) as [Hi _].
  unfold active, running_ids, queue_ids. by rewrite He, Hi.
Qed.

(** C3: no admitted operation is left hanging.  Whatever the interleaving
    of submissions, shutdowns, the executor's turns, panics of operations and
    dropped handles, once the executor has exited every operation that was ever
    admitted shows its caller a terminal state. *)
Theorem every_admitted_operation_ends (s : plane) (why : ExecutorExit) :
  reached s -> p_exec s = EExited why ->
  Forall (fun h => op_terminal (borrow (p_registry s) (ad_state_rx h.2)) = true)
    (p_admitted s).
Proof.
  intros I%reached_invariant He. eapply Forall_impl; [apply (inv_admitted _ I)|].
  intros [id a] [_ [[st E]|[Ht _]]]; [|done]. cbn.
  pose proof E as (op & _ & _ & Hc & Hb)%entry_Some. rewrite Hb.
  destruct (op_terminal st) eqn:Ht; [done|].
  pose proof (inv_live _ I _ _ _ _ E Ht) as Hact.
  rewrite (active_exited s why I He) in Hact. by apply elem_of_nil in Hact.
Qed.

(** The registry knows exactly the live operations.  It never holds
    more entries than its capacity, and an operation is queued or running if
    and only if its entry is there and not terminal: eviction never takes a
    live operation. *)
Theorem live_operations_are_registered (s : plane) :
  reached s ->
  N.of_nat (size (operations (p_registry s))) <= capacity
  /\ forall id, id ∈ active s <->
       exists sq c st, entry (p_registry s) id = Some (sq, c, st) /\ op_terminal st = false.
Proof.
  intros I%reached_invariant. split; [apply I|]. intros id. split.
  - by apply active_entry.
  - intros (sq & c & st & E & Hl). by eapply (inv_live _ I).
Qed.

(** Operations run in the order they were admitted: the executor takes
    their sequence numbers strictly increasing, each at most once. *)
Theorem works_run_in_sequence_order (s : plane) :
  reached s -> StronglySorted N.lt (sequences s).
Proof. intros I%reached_invariant. apply I. Qed.

(** *** Draining *)

Lemma recv_progress (s : plane) :
  bq_items (p_queue s) <> [] -> exists work queue, bq_recv (p_queue s) = Some (work, queue).
Proof.
  intros H. destruct (bq_recv (p_queue s)) as [[w q']|] eqn:E; [eauto|].
  by apply bq_recv_None in E.
Qed.

Lemma drain_items (n : nat) (s : plane) why :
  invariant s -> p_exec s = EDraining why -> length (bq_items (p_queue s)) = n ->
  p_holding s = 0%nat -> exists s', steps s s' /\ p_exec s' = EExited why.
Proof.
  revert s. induction n as [|n IH]; intros s I He Hn Hh.
  - apply nil_length_inv in Hn.
    exists (with_exec (EExited why) (p_queue s) s). split; [|done].
    apply rtc_once, step_exec_drained; [done|]. unfold queue_ended.
    rewrite (inv_closed _ I) by by rewrite He.
    rewrite bool_decide_true by done. by rewrite (inv_holding _ I), Hh.
  - destruct (recv_progress s) as (work & queue & Hr);
      [intros Hz; by rewrite Hz in Hn|].
    pose proof Hr as [Hi (_ & Hp & _)]%bq_recv_Some.
    destruct (IH (on_drain why work queue s)) as (s' & Hs & He'); try done.
    + by apply (on_drain_invariant s why).
    + cbn. rewrite Hi in Hn. cbn in Hn. lia.
    + exists s'. split; [|done]. eapply rtc_l; [|done]. by apply (step_exec_drain _ _ s why).
Qed.

(** Callers of [shutdown] that hold a permit always get to use or drop it. *)
Lemma drain_permits (n : nat) (s : plane) why :
  invariant s -> p_exec s = EDraining why -> p_holding s = n ->
  exists s', steps s s' /\ p_exec s' = EDraining why /\ p_holding s' = 0%nat /\ invariant s'.
Proof.
  revert s. induction n as [|n IH]; intros s I He Hn; [by exists s|].
  set (id := {| nanos := 0; pid := 0; counter := 0 |}).
  destruct (IH (shutdown_admit capacity id n s).2) as (s' & Hs & H').
  - by apply shutdown_admit_invariant.
  - unfold shutdown_admit. by destruct (Registry_admit _ _ _ _ _ _) as [[? ?] ?].
  - unfold shutdown_admit. by destruct (Registry_admit _ _ _ _ _ _) as [[? ?] ?].
  - exists s'. split; [|done]. eapply rtc_l; [|done]. by apply step_shutdown_admit.
Qed.

(** Draining ends.  From every reachable state in which the executor
    drains its queue it can reach its exit, callers of [shutdown] that hold a
    permit included, and then every admitted operation is terminal. *)
Theorem draining_reaches_exit (s : plane) (why : ExecutorExit) :
  reached s -> p_exec s = EDraining why ->
  exists s', steps s s' /\ p_exec s' = EExited why
    /\ Forall (fun h => op_terminal (borrow (p_registry s') (ad_state_rx h.2)) = true)
         (p_admitted s').
Proof.
  intros Hr He. pose proof (reached_invariant s Hr) as I.
  destruct (drain_permits _ s why I He eq_refl) as (s1 & H1 & He1 & Hh1 & I1).
  destruct (drain_items _ s1 why I1 He1 eq_refl Hh1) as (s2 & H2 & He2).
  assert (Hs : steps s s2) by (by etrans).
  exists s2. split_and!; [done|done|].
  pose proof (reached_invariant s2 (reached_steps _ _ Hr Hs)) as I2.
  eapply Forall_impl; [apply (inv_admitted _ I2)|].
  intros [id a] [_ [[st E]|[Ht _]]]; [|done]. cbn.
  pose proof E as (op & _ & _ & Hc & Hb)%entry_Some. rewrite Hb.
  destruct (op_terminal st) eqn:Ht; [done|].
  pose proof (inv_live _ I2 _ _ _ _ E Ht) as Hact.
  rewrite (active_exited s2 why I2 He2) in Hact. by apply elem_of_nil in Hact.
Qed.

(** *** The closing latch *)

Lemma step_closing (s s' : plane) :
  step capacity default_ipc s s' -> p_closing s = true ->
  p_closing s' = true /\
  forall id c, p_exec s' = ERunning id c -> p_exec s = ERunning id c \/ c = Shutdown.
Proof.
  intros Hs Hc. destruct Hs; cbn [with_calls with_exec p_closing p_exec];
    try (split; [done|by auto]); try congruence.
  - unfold submit_admit. destruct (Registry_admit _ _ _ _ _ _) as [[? ?] ?]. cbn. by auto.
  - unfold shutdown_admit. destruct (Registry_admit _ _ _ _ _ _) as [[? ?] ?]. cbn. by auto.
  - unfold on_recv. cbn. rewrite Hc, andb_true_r. split; [done|]. intros id c.
    destruct work as [wid []]; cbn; try done. intros [= _ <-]. by right.
  - split; [cbn; rewrite Hc; by rewrite orb_true_r|]. intros i c. cbn.
    destruct o; cbn; [|done]. by destruct (is_shutdown command).
Qed.

(** Nothing new runs behind the latch.  Once the plane is closing it
    stays closing, and an operation that runs later either ran already or is
    a shutdown. *)
Theorem nothing_runs_behind_the_latch (s s' : Plane Q) :
  rtc (step capacity default_ipc) s s' -> p_closing s = true ->
  p_closing s' = true /\
  forall id c, p_exec s' = ERunning id c -> p_exec s = ERunning id c \/ c = Shutdown.
Proof.
  induction 1 as [s|s1 s2 s3 H12 H23 IH]; intros Hc; [by auto|].
  destruct (step_closing _ _ H12 Hc) as [Hc2 Hr2].
  destruct (IH Hc2) as [Hc3 Hr3]. split; [done|]. intros id c H3.
  destruct (Hr3 _ _ H3) as [H2| ->]; [by apply Hr2|by right].
Qed.

(** A resubmission attaches.  Submitting an operation id that the
    registry knows answers with the existing operation, or with a conflict when
    the command differs from the registered one, and changes neither the
    registry nor the queue: nothing is queued twice. *)
Theorem resubmission_attaches (s : plane) (envelope : CoreCommandEnvelope) rest sq c st :
  entry (p_registry s) (env_operation_id envelope) = Some (sq, c, st) ->
  exists op, operations (p_registry s) !! env_operation_id envelope = Some op /\
  let '(answer, s') := submit_admit capacity default_ipc envelope rest s in
  answer =
    (if decide (ro_digest op = command_digest (resolve_local_ipc default_ipc (env_command envelope)))
     then Ok (Existing {| ad_sequence := sq; ad_state_rx := c |})
     else Err (conflict_error (env_operation_id envelope)))
  /\ p_registry s' = p_registry s /\ p_queue s' = p_queue s
  /\ p_admitted s' = p_admitted s /\ p_latches s' = p_latches s.
Proof.
  intros (op & Hop & <- & <- & _)%entry_Some. exists op. split; [done|].
  unfold submit_admit, Registry_admit. rewrite Hop. case_decide; cbn; split_and!; try done;
    by destruct (is_shutdown _).
Qed.
End Invariant.

(** ** Witnesses: one plane from its first submission to its exit *)

Definition op_1 : OperationId := {| nanos := 1; pid := 7; counter := 1 |}.
Definition op_2 : OperationId := {| nanos := 2; pid := 7; counter := 2 |}.
Definition stop_1 : CoreCommandEnvelope := {| env_operation_id := op_1; env_command := Stop |}.
Definition plain_ipc : LocalIpcSettings := {| li_policy := Prefer; li_keep_http_controller := false |}.
Definition plain_queue : ListQueue ExecutorWork := lq_new ExecutorWork 16.

Notation demo := (Plane (ListQueue ExecutorWork)).
Notation demo_reachable := (reachable (live_registry_capacity 256 16) plain_ipc plain_queue).
Notation demo_step := (step (live_registry_capacity 256 16) plain_ipc).

Definition demo_0 : demo := initial plain_queue.
Definition demo_pending : demo :=
  with_calls (p_queue demo_0) false [stop_1] 0 0 0 demo_0.
Definition demo_submitted : demo :=
  (submit_admit (live_registry_capacity 256 16) plain_ipc stop_1 [] demo_pending).2.

(** The head of the queue is taken and its operation answers. *)
Definition take_turn (s : demo) : demo :=
  match bq_recv (p_queue s) with
  | Some (work, queue) => on_recv work queue s
  | None => s
  end.
Definition answer_turn (o : OperationOutput) (s : demo) : demo :=
  match p_exec s with
  | ERunning id command => on_finish id command (Return (Ok o)) s
  | _ => s
  end.

Definition demo_running : demo := take_turn demo_submitted.
Definition demo_idle : demo := answer_turn OStopped demo_running.
Definition demo_closing : demo :=
  with_calls (p_queue demo_idle) true [] 0 1 0 demo_idle.
Definition demo_permit : demo :=
  match bq_reserve (p_queue demo_closing) with
  | Some queue => with_calls queue true [] 0 0 1 demo_closing
  | None => demo_closing
  end.
Definition demo_shutdown : demo :=
  (shutdown_admit (live_registry_capacity 256 16) op_2 0 demo_permit).2.
Definition demo_leaving : demo := answer_turn ShutDown (take_turn demo_shutdown).
Definition demo_draining : demo :=
  with_exec (EDraining Clean) (bq_close (p_queue demo_leaving)) demo_leaving.
Definition demo_exited : demo :=
  with_exec (EExited Clean) (p_queue demo_draining) demo_draining.

Lemma take_turn_step (s : demo) :
  p_exec s = EIdle -> bool_decide (is_Some (bq_recv (p_queue s))) = true -> demo_step s (take_turn s).
Proof.
  intros He [[work queue] Hr]%bool_decide_eq_true. unfold take_turn. rewrite Hr. by apply step_exec_recv.
Qed.
Lemma answer_turn_step (s : demo) id command o :
  p_exec s = ERunning id command -> demo_step s (answer_turn o s).
Proof. intros He. unfold answer_turn. rewrite He. by apply step_exec_finish. Qed.

Lemma demo_running_reachable : demo_reachable demo_running.
Proof.
  eapply reachable_step; [|apply take_turn_step; by vm_compute].
  eapply reachable_step; [|by apply (step_submit_admit _ _ demo_pending [] stop_1 [])].
  eapply reachable_step; [apply reachable_init|]. by apply step_submit_check.
Qed.

Lemma demo_idle_reachable : demo_reachable demo_idle.
Proof.
  eapply reachable_step; [apply demo_running_reachable|].
  apply (answer_turn_step _ op_1 Stop). by vm_compute.
Qed.

Lemma demo_draining_reachable : demo_reachable demo_draining.
Proof.
  eapply reachable_step; [|by apply step_exec_close; vm_compute].
  eapply reachable_step; [|apply (answer_turn_step _ op_2 Shutdown); by vm_compute].
  eapply reachable_step; [|apply take_turn_step; by vm_compute].
  eapply reachable_step; [|by apply step_shutdown_admit; vm_compute].
  eapply reachable_step.
  2:{ unfold demo_permit. destruct (bq_reserve (p_queue demo_closing)) as [queue|] eqn:E.
      - by apply (step_shutdown_reserve _ _ demo_closing 0 queue).
      - by vm_compute in E. }
  eapply reachable_step; [apply demo_idle_reachable|]. apply step_shutdown_begin.
Qed.

Lemma demo_exited_reachable : demo_reachable demo_exited.
Proof.
  eapply reachable_step; [apply demo_draining_reachable|]. by apply step_exec_drained; vm_compute.
Qed.

Lemma every_admitted_operation_ends_witness :
  Forall (fun h => op_terminal (borrow (p_registry demo_exited) (ad_state_rx h.2)) = true)
    (p_admitted demo_exited).
Proof.
  eapply (every_admitted_operation_ends (live_registry_capacity 256 16) 16 plain_ipc _ plain_queue).
  - vm_compute. reflexivity.
  - reflexivity.
  - reflexivity.
  - apply demo_exited_reachable.
  - reflexivity.
  Unshelve. vm_compute. discriminate.
Defined.

Lemma live_operations_are_registered_witness :
  exists sq c st, entry (p_registry demo_running) op_1 = Some (sq, c, st) /\ op_terminal st = false.
Proof.
  assert (N.of_nat 16 + 1 <= live_registry_capacity 256 16) as Hcap by (vm_compute; discriminate).
  eapply (live_operations_are_registered (live_registry_capacity 256 16) 16 plain_ipc Hcap plain_queue).
  - reflexivity.
  - reflexivity.
  - reflexivity.
  - apply demo_running_reachable.
  - vm_compute. left.
Defined.

Lemma works_run_in_sequence_order_witness : StronglySorted N.lt (sequences demo_exited).
Proof.
  assert (N.of_nat 16 + 1 <= live_registry_capacity 256 16) as Hcap by (vm_compute; discriminate).
  eapply (works_run_in_sequence_order (live_registry_capacity 256 16) 16 plain_ipc Hcap plain_queue).
  - reflexivity.
  - reflexivity.
  - reflexivity.
  - apply demo_exited_reachable.
Defined.

Lemma draining_reaches_exit_witness : exists s : demo, p_exec s = EExited Clean.
Proof.
  assert (N.of_nat 16 + 1 <= live_registry_capacity 256 16) as Hcap by (vm_compute; discriminate).
  edestruct (draining_reaches_exit (live_registry_capacity 256 16) 16 plain_ipc Hcap plain_queue)
    as (s & _ & He & _).
  - reflexivity.
  - reflexivity.
  - reflexivity.
  - apply demo_draining_reachable.
  - reflexivity.
  - exists s. exact He.
Defined.

Lemma nothing_runs_behind_the_latch_witness : p_closing demo_exited = true.
Proof.
  apply (nothing_runs_behind_the_latch (live_registry_capacity 256 16) plain_ipc demo_draining demo_exited).
  - apply rtc_once. by apply step_exec_drained; vm_compute.
  - reflexivity.
Defined.

(** The stop is submitted again while it runs. *)
Lemma resubmission_attaches_witness :
  p_queue (submit_admit (live_registry_capacity 256 16) plain_ipc stop_1 [] demo_running).2
    = p_queue demo_running.
Proof.
  destruct (entry (p_registry demo_running) op_1) as [[[sq c] st]|] eqn:E; [|by vm_compute in E].
  destruct (resubmission_attaches (live_registry_capacity 256 16) plain_ipc demo_running stop_1 [] sq c st E)
    as (op & _ & Hr).
  destruct (submit_admit _ _ _ _ _) as [answer s']. by destruct Hr as (_ & _ & Hq & _).
Defined.

(** A shutdown that gives up while the queue is full leaves an executor that
    nothing ends: the plane is closing, the executor waits on an empty queue,
    and only a further [shutdown] or the end of every handle moves it. *)
Definition tight_queue : ListQueue ExecutorWork := lq_new ExecutorWork 1.
Definition tight_full : demo :=
  (submit_admit 256 plain_ipc stop_1 [] (with_calls tight_queue false [stop_1] 0 0 0 (initial tight_queue))).2.
Definition tight_waiting : demo := with_calls (p_queue tight_full) true [] 0 1 0 tight_full.
Definition tight_stranded : demo := take_turn (with_calls (p_queue tight_waiting) true [] 0 0 0 tight_waiting).

Lemma abandoned_shutdown_strands_the_executor :
  reachable 256 plain_ipc tight_queue tight_stranded
  /\ bq_reserve (p_queue tight_waiting) = None
  /\ forall s', step 256 plain_ipc tight_stranded s' ->
       p_waiting s' = 1%nat \/ bq_closed (p_queue s') = true.
Proof.
  split_and!; [|by vm_compute|].
  - unfold tight_stranded, take_turn. destruct (bq_recv _) as [[work queue]|] eqn:E; [|by vm_compute in E].
    eapply reachable_step; [|by apply step_exec_recv; [vm_compute|exact E]].
    eapply reachable_step; [|by apply (step_shutdown_dropped _ _ tight_waiting 0)].
    eapply reachable_step; [|apply step_shutdown_begin].
    eapply reachable_step; [|by apply (step_submit_admit _ _ (with_calls tight_queue false [stop_1] 0 0 0 (initial tight_queue)) [] stop_1 [])].
    eapply reachable_step; [apply reachable_init|]. by apply step_submit_check.
  - assert (Hs : p_closing tight_stranded = true /\ p_pending tight_stranded = [] /\ p_latches tight_stranded = 0%nat
      /\ p_waiting tight_stranded = 0%nat /\ p_holding tight_stranded = 0%nat /\ p_exec tight_stranded = EIdle
      /\ bq_recv (p_queue tight_stranded) = None /\ queue_ended (p_queue tight_stranded) = false)
      by (split_and!; by vm_compute).
    revert Hs. generalize tight_stranded as s. intros s (H1 & H2 & H3 & H4 & H5 & H6 & H7 & H8) s' Hs.
    destruct Hs; cbn; try congruence; try (by left; rewrite H4); try (by right).
    + by destruct before; rewrite H2 in *.
Qed.
