(* ===== verification/Yaml.v ===== *)
(** * YAML documents

    The document type the configuration pipeline works on: the value type of
    [serde_yaml_ng] with the constructors the source matches on, mappings as
    their entries in iteration order, and the accessors the source calls. *)

From Stdlib Require Import Floats.SpecFloat.
From S2P Require Export Types.

Inductive Number := PosInt (n : N) | NegInt (z : Z) | Float (f : spec_float).

Inductive Value :=
| VNull
| VBool (b : bool)
| VNumber (n : Number)
| VString (s : string)
| VSequence (items : list Value)
| VMapping (entries : list (Value * Value))
| VTagged (tag : string) (v : Value).

Notation Mapping := (list (Value * Value)) (only parsing).

(** Numbers compare by value; a NaN equals a NaN. *)
Definition number_eqb (a b : Number) : bool :=
  match a, b with
  | PosInt n, PosInt m => bool_decide (n = m)
  | NegInt n, NegInt m => bool_decide (n = m)
  | Float S754_nan, Float S754_nan => true
  | Float f, Float g => SFeqb f g
  | _, _ => false
  end.

(** [PartialEq for Value]: mappings compare without regard to order. *)
Fixpoint value_eqb (a b : Value) {struct a} : bool :=
  match a, b with
  | VNull, VNull => true
  | VBool x, VBool y => Bool.eqb x y
  | VNumber x, VNumber y => number_eqb x y
  | VString x, VString y => bool_decide (x = y)
  | VSequence x, VSequence y =>
      (fix go (x y : list Value) : bool :=
         match x, y with
         | [], [] => true
         | v :: x', w :: y' => value_eqb v w && go x' y'
         | _, _ => false
         end) x y
  | VMapping x, VMapping y =>
      (length x =? length y)%nat &&
      (fix go (x : list (Value * Value)) : bool :=
         match x with
         | [] => true
         | (k, v) :: x' =>
             existsb (fun '(k', v') => value_eqb k k' && value_eqb v v') y && go x'
         end) x
  | VTagged t v, VTagged u w => bool_decide (t = u) && value_eqb v w
  | _, _ => false
  end.

(** ** Accessors

    Every accessor looks through tags. *)

Fixpoint untag (v : Value) : Value :=
  match v with VTagged _ w => untag w | _ => v end.
Definition as_str (v : Value) : option string :=
  match untag v with VString s => Some s | _ => None end.
Definition as_bool (v : Value) : option bool :=
  match untag v with VBool b => Some b | _ => None end.
Definition as_mapping (v : Value) : option Mapping :=
  match untag v with VMapping m => Some m | _ => None end.
Definition as_i64 (v : Value) : option Z :=
  match untag v with
  | VNumber (PosInt n) => if decide (Z.of_N n <= i64_max)%Z then Some (Z.of_N n) else None
  | VNumber (NegInt z) => Some z
  | _ => None
  end.
Definition is_null (v : Value) : bool := match untag v with VNull => true | _ => false end.

(** [Mapping::get] of a string key. *)
Fixpoint map_get (m : Mapping) (key : string) : option Value :=
  match m with
  | [] => None
  | (VString k, v) :: m' => if decide (k = key) then Some v else map_get m' key
  | _ :: m' => map_get m' key
  end.

(** [Mapping::insert]: in place for a present key, at the end otherwise. *)
Fixpoint map_insert (m : Mapping) (key : string) (value : Value) : Mapping :=
  match m with
  | [] => [(VString key, value)]
  | (VString k, v) :: m' =>
      if decide (k = key) then (VString k, value) :: m'
      else (VString k, v) :: map_insert m' key value
  | e :: m' => e :: map_insert m' key value
  end.

(** [Mapping::insert] of any key: a key equal to one of the mapping replaces
    its value and leaves the old key in place. *)
Fixpoint map_insert_value (m : Mapping) (key value : Value) : Mapping :=
  match m with
  | [] => [(key, value)]
  | (k, v) :: m' =>
      if value_eqb k key then (k, value) :: m' else (k, v) :: map_insert_value m' key value
  end.

(** [Mapping::get_mut] followed by an assignment through the reference. *)
Fixpoint map_modify (f : Value -> Value) (key : string) (m : Mapping) : Mapping :=
  match m with
  | [] => []
  | (VString k, v) :: m' =>
      if decide (k = key) then (VString k, f v) :: m' else (VString k, v) :: map_modify f key m'
  | e :: m' => e :: map_modify f key m'
  end.

Definition on_mapping (f : Mapping -> Mapping) (v : Value) : Value :=
  match v with VMapping m => VMapping (f m) | _ => v end.

(** [Value::as_mapping_mut] followed by an update: looks through tags. *)
Fixpoint via_mapping (f : Mapping -> Mapping) (v : Value) : Value :=
  match v with
  | VMapping m => VMapping (f m)
  | VTagged tag w => VTagged tag (via_mapping f w)
  | _ => v
  end.

Definition is_key (key : string) (e : Value * Value) : bool :=
  match e with (VString k, _) => bool_decide (k = key) | _ => false end.

(** [Mapping::remove] (a swap-remove): the last entry takes the place of the
    removed one. *)
Definition map_remove (m : Mapping) (key : string) : Mapping :=
  match list_find (fun e => is_key key e = true) m with
  | None => m
  | Some (i, _) =>
      match last m with
      | Some e =>
          if decide (S i = length m) then take i m
          else <[i := e]> (take (length m - 1) m)
      | None => m
      end
  end.

Definition map_contains (m : Mapping) (key : string) : bool :=
  bool_decide (is_Some (map_get m key)).

(** The string keys, in order ([keys().filter_map(Value::as_str)]). *)
Definition str_keys (m : Mapping) : list string := omap (fun e => as_str e.1) m.

(** Every key is a plain string. *)
Fixpoint string_keyed (m : Mapping) : bool :=
  match m with
  | [] => true
  | (VString _, _) :: m' => string_keyed m'
  | _ => false
  end.

(** [value_at]: descend through mappings along a path of string keys. *)
Fixpoint value_at (v : Value) (path : list string) : option Value :=
  match path with
  | [] => Some v
  | key :: rest =>
      m ← as_mapping v;
      w ← map_get m key;
      value_at w rest
  end.

(** ** Well-formed documents

    What [canonicalize] produces: string keys only, strictly increasing in the
    byte order of strings, no tags, at every depth. *)

Fixpoint str_ltb (a b : string) : bool :=
  match a, b with
  | EmptyString, EmptyString => false
  | EmptyString, String _ _ => true
  | String _ _, EmptyString => false
  | String x a', String y b' =>
      if decide (Ascii.N_of_ascii x < Ascii.N_of_ascii y) then true
      else if decide (x = y) then str_ltb a' b' else false
  end.

Fixpoint keys_sorted (ks : list string) : bool :=
  match ks with
  | [] => true
  | k :: rest =>
      match rest with [] => true | k' :: _ => str_ltb k k' end && keys_sorted rest
  end.

Fixpoint canonical (v : Value) : bool :=
  match v with
  | VSequence items => forallb canonical items
  | VMapping m =>
      (fix go (m : list (Value * Value)) : bool :=
         match m with
         | [] => true
         | (VString _, w) :: m' => canonical w && go m'
         | _ => false
         end) m && keys_sorted (str_keys m)
  | VTagged _ _ => false
  | _ => true
  end.

(** A mapping is canonical as a value. *)
Definition canonical_map (m : Mapping) : bool := canonical (VMapping m).

(** ** Induction over documents *)

Section ValueInd.
Context (P : Value -> Prop).
Context (Hnull : P VNull) (Hbool : forall b, P (VBool b)) (Hnum : forall n, P (VNumber n))
  (Hstr : forall s, P (VString s))
  (Hseq : forall l, Forall P l -> P (VSequence l))
  (Hmap : forall m, Forall (fun e => P e.1 /\ P e.2) m -> P (VMapping m))
  (Htag : forall t v, P v -> P (VTagged t v)).

Fixpoint Value_deep_ind (v : Value) : P v :=
  match v with
  | VNull => Hnull
  | VBool b => Hbool b
  | VNumber n => Hnum n
  | VString s => Hstr s
  | VSequence l =>
      Hseq l ((fix go l : Forall P l :=
        match l with
        | [] => Forall_nil_2 P
        | x :: l' => Forall_cons_2 P x l' (Value_deep_ind x) (go l')
        end) l)
  | VMapping m =>
      Hmap m ((fix go m : Forall (fun e => P e.1 /\ P e.2) m :=
        match m with
        | [] => Forall_nil_2 _
        | e :: m' => Forall_cons_2 _ e m'
            (match e return P e.1 /\ P e.2 with
             | (k, w) => conj (Value_deep_ind k) (Value_deep_ind w) end) (go m')
        end) m)
  | VTagged t w => Htag t w (Value_deep_ind w)
  end.
End ValueInd.

(** ** Lookup lemmas *)

Lemma map_insert_value_string m key value :
  map_insert_value m (VString key) value = map_insert m key value.
Proof.
  induction m as [|[k v] m IH]; [done|]. cbn [map_insert_value map_insert].
  destruct k as [| | |k| | |]; cbn; rewrite IH; try done. by case_bool_decide; case_decide.
Qed.

Lemma map_get_insert (m : Mapping) (key key' : string) (value : Value) :
  map_get (map_insert m key value) key' =
    if decide (key = key') then Some value else map_get m key'.
Proof.
  induction m as [|[k v] m IH]; cbn; [done|].
  destruct k; cbn; try exact IH.
  destruct (decide (s = key)) as [->|Hne]; cbn.
  - by case_decide.
  - rewrite IH. repeat case_decide; congruence.
Qed.

Lemma map_get_Some_key (m : Mapping) (key : string) (v : Value) :
  map_get m key = Some v -> key ∈ str_keys m.
Proof.
  induction m as [|[k w] m IH]; [done|]. unfold str_keys in *. cbn [map_get omap list_omap fst].
  destruct k as [| | |s| | |t u]; cbn; try exact IH.
  - intros Hg. apply elem_of_cons. case_decide; [by left|]. right. by apply IH.
  - intros Hg. destruct (as_str _); [apply elem_of_cons; right|]; by apply IH.
Qed.

Lemma str_keys_get (m : Mapping) (key : string) :
  string_keyed m = true -> key ∈ str_keys m -> is_Some (map_get m key).
Proof.
  induction m as [|[k w] m IH]; cbn; [by intros _ ?%elem_of_nil|].
  destruct k; cbn; try done. intros Hk [->|Hin]%elem_of_cons.
  - rewrite decide_True by done. eauto.
  - case_decide; eauto.
Qed.

Lemma map_get_None_key (m : Mapping) (key : string) :
  string_keyed m = true -> map_get m key = None <-> key ∉ str_keys m.
Proof.
  intros Hk. split.
  - intros Hg Hin. apply str_keys_get in Hin as [v Hv]; congruence.
  - intros Hn. destruct (map_get m key) eqn:E; [|done]. by apply map_get_Some_key in E.
Qed.

Lemma map_get_app (m m' : Mapping) (key : string) :
  map_get (m ++ m') key = match map_get m key with Some v => Some v | None => map_get m' key end.
Proof.
  induction m as [|[k w] m IH]; cbn; [done|]. destruct k; cbn; try exact IH. by case_decide.
Qed.

(** ** Equality is reflexive *)

Lemma number_eqb_refl (n : Number) : number_eqb n n = true.
Proof.
  destruct n as [n|z|f]; cbn; [by rewrite bool_decide_true..|].
  destruct f as [[]|[]| |[] m e]; try done; unfold SFeqb, SFcompare;
    by rewrite Z.compare_refl, Pos.compare_cont_refl.
Qed.

Lemma value_eqb_refl (v : Value) : value_eqb v v = true.
Proof.
  induction v as [|b|n|s|l IH|m IH|t v IH] using Value_deep_ind; cbn.
  - done.
  - apply Bool.eqb_reflx.
  - apply number_eqb_refl.
  - by apply bool_decide_true.
  - induction IH as [|x l Hx _ IHl]; [done|]. by rewrite Hx, IHl.
  - rewrite Nat.eqb_refl, andb_true_l.
    assert (forall x, Forall (fun e => e ∈ m /\ value_eqb e.1 e.1 = true /\ value_eqb e.2 e.2 = true) x ->
      (fix go (x : list (Value * Value)) : bool :=
         match x with
         | [] => true
         | (k, v) :: x' =>
             existsb (fun '(k', v') => value_eqb k k' && value_eqb v v') m && go x'
         end) x = true) as Hg.
    { induction 1 as [|[k v] x (Hin & Hk & Hv) _ IHx]; [done|]. rewrite IHx, andb_true_r.
      apply existsb_exists. exists (k, v). split; [by apply list_elem_of_In|].
      cbn in Hk, Hv. by rewrite Hk, Hv. }
    apply Hg. apply Forall_forall. intros e He. split; [done|].
    rewrite Forall_forall in IH. by apply IH.
  - rewrite bool_decide_true by done. exact IH.
Qed.
