(* ===== verification/Canonical.v ===== *)
(** * Deterministic documents

    [canonicalize], [serialize_mapping] and [semantic_hash] of
    [config/mod.rs]: the normal form every configuration is hashed in.  The
    theorems say that a successful normalisation yields string keys in
    strictly increasing order at every depth, that normal forms are fixed
    points, that the order of entries in the source is forgotten, and exactly
    which documents are refused. *)

From S2P Require Export Yaml.
Open Scope rust_scope.

(** ** Strings as an ordered type *)

Lemma str_ltb_irrefl (a : string) : str_ltb a a = false.
Proof.
  induction a as [|x a IH]; [done|]. cbn. rewrite decide_False by lia. by rewrite decide_True.
Qed.

Lemma str_ltb_trans (a b c : string) :
  str_ltb a b = true -> str_ltb b c = true -> str_ltb a c = true.
Proof.
  revert b c; induction a as [|x a IH]; intros [|y b] [|z c]; cbn; try done.
  repeat case_decide; subst; try done; try lia. apply IH.
Qed.

Lemma str_ltb_total (a b : string) :
  str_ltb a b = false -> a <> b -> str_ltb b a = true.
Proof.
  revert b; induction a as [|x a IH]; intros [|y b]; cbn; try done.
  repeat case_decide; subst; try done; try lia; intros E Hne.
  - apply IH; [done|congruence].
  - exfalso. assert (Ascii.N_of_ascii x = Ascii.N_of_ascii y) as Ex by lia.
    apply (f_equal Ascii.ascii_of_N) in Ex. by rewrite !Ascii.ascii_N_embedding in Ex.
Qed.

Lemma str_ltb_asym (a b : string) : str_ltb a b = true -> str_ltb b a = false.
Proof.
  intros Hab. destruct (str_ltb b a) eqn:E; [|done].
  pose proof (str_ltb_trans _ _ _ Hab E) as Haa. by rewrite str_ltb_irrefl in Haa.
Qed.

Lemma str_ltb_ne (a b : string) : str_ltb a b = true -> a <> b.
Proof. intros Hab ->. by rewrite str_ltb_irrefl in Hab. Qed.

Definition str_leb (a b : string) : bool := negb (str_ltb b a).

(** ** [BTreeSet<&str>]: increasing, without duplicates *)

Fixpoint btree_insert (k : string) (s : list string) : list string :=
  match s with
  | [] => [k]
  | x :: s' =>
      if decide (x = k) then s
      else if str_ltb k x then k :: s
      else x :: btree_insert k s'
  end.
Definition btree_extend (s : list string) (ks : list string) : list string :=
  fold_left (fun s k => btree_insert k s) ks s.

Lemma elem_of_btree_insert (k x : string) (s : list string) :
  x ∈ btree_insert k s <-> x = k \/ x ∈ s.
Proof.
  induction s as [|y s IH]; cbn; [set_solver|].
  case_decide; [set_solver|]. destruct (str_ltb k y); set_solver.
Qed.

Lemma elem_of_btree_extend (x : string) (ks s : list string) :
  x ∈ btree_extend s ks <-> x ∈ s \/ x ∈ ks.
Proof.
  unfold btree_extend. revert s; induction ks as [|k ks IH]; intros s; cbn; [set_solver|].
  rewrite IH, elem_of_btree_insert. set_solver.
Qed.

(** ** Canonicalisation *)

(** One insertion step of the stable [sort_by] on keys. *)
Fixpoint sort_insert (e : string * Value) (l : list (string * Value)) : list (string * Value) :=
  match l with
  | [] => [e]
  | x :: l' => if str_ltb e.1 x.1 then e :: l else x :: sort_insert e l'
  end.
Definition sort_by_key (l : list (string * Value)) : list (string * Value) :=
  fold_left (fun acc e => sort_insert e acc) l [].

Definition build_mapping (entries : list (string * Value)) : Mapping :=
  fold_left (fun acc '(k, v) => map_insert acc k v) entries [].

Definition keys_must_be_strings : Error := InvalidConfig "all YAML mapping keys must be strings".
Definition tags_not_supported : Error :=
  InvalidConfig "tagged YAML values are not supported in runtime configs".

Fixpoint canonicalize (v : Value) : result Value Error :=
  match v with
  | VMapping m =>
      let? entries :=
        (fix go (m : list (Value * Value)) : result (list (string * Value)) Error :=
           match m with
           | [] => Ok []
           | (VString key, value) :: m' =>
               let? value' := canonicalize value in
               let? rest := go m' in
               Ok ((key, value') :: rest)
           | _ => Err keys_must_be_strings
           end) m in
      Ok (VMapping (build_mapping (sort_by_key entries)))
  | VSequence items =>
      let? items' :=
        (fix go (l : list Value) : result (list Value) Error :=
           match l with
           | [] => Ok []
           | x :: l' =>
               let? x' := canonicalize x in
               let? rest := go l' in
               Ok (x' :: rest)
           end) items in
      Ok (VSequence items')
  | VTagged _ _ => Err tags_not_supported
  | scalar => Ok scalar
  end.

Definition canonicalize_entry (e : Value * Value) : result (string * Value) Error :=
  match e with
  | (VString key, value) => map_ok (pair key) (canonicalize value)
  | _ => Err keys_must_be_strings
  end.

Lemma canonicalize_mapping_eq (m : Mapping) :
  canonicalize (VMapping m) =
    map_ok (fun es => VMapping (build_mapping (sort_by_key es)))
      (collect_results (map canonicalize_entry m)).
Proof.
  cbn [canonicalize]. f_equal.
  assert (forall x y : result (list (string * Value)) Error, x = y ->
    (let? es := x in Ok (VMapping (build_mapping (sort_by_key es)))) =
      map_ok (fun es => VMapping (build_mapping (sort_by_key es))) y) as E.
  { by intros [] _ <-. }
  apply E. induction m as [|[k v] m IH]; [done|].
  cbn [map collect_results canonicalize_entry].
  destruct k; try done. rewrite IH. destruct (canonicalize v); cbn; [|done].
  by destruct (collect_results _).
Qed.

Lemma canonicalize_sequence_eq (l : list Value) :
  canonicalize (VSequence l) = map_ok VSequence (collect_results (map canonicalize l)).
Proof.
  cbn [canonicalize].
  assert (forall x y : result (list Value) Error, x = y ->
    (let? es := x in Ok (VSequence es)) = map_ok VSequence y) as E by (by intros [] _ <-).
  apply E. induction l as [|v l IH]; [done|].
  cbn [map collect_results]. rewrite IH. destruct (canonicalize v); cbn; [|done].
  by destruct (collect_results _).
Qed.

Lemma collect_results_Ok {T E} (rs : list (result T E)) (ts : list T) :
  collect_results rs = Ok ts <-> rs = map Ok ts.
Proof.
  revert ts; induction rs as [|[t|e] rs IH]; intros ts; cbn.
  - split; [by intros [= <-]|]. by destruct ts.
  - destruct (collect_results rs) as [ts'|e] eqn:Ers; cbn.
    + split.
      * intros [= <-]. cbn. f_equal. by apply IH.
      * destruct ts as [|t' ts0]; [done|]. cbn. intros [= -> H].
        apply IH in H. by injection H as ->.
    + split; [done|]. destruct ts as [|t' ts0]; [done|]. cbn. intros [= -> H].
      by apply IH in H.
  - split; [done|]. by destruct ts.
Qed.

Definition serialize_failed_yaml (text : string) : Error := YamlErr text.

(** [semantic_hash]: 16 hexadecimal digits of FNV-1a. *)
Definition semantic_hash (bytes : list Byte.byte) : string := hex_fixed 16 (fnv1a bytes).

(** ** Sorting lemmas *)

Lemma sort_insert_comm (a b : string * Value) (l : list (string * Value)) :
  a.1 <> b.1 -> sort_insert a (sort_insert b l) = sort_insert b (sort_insert a l).
Proof.
  revert a b.
  assert (forall a b, str_ltb a.1 b.1 = true ->
    sort_insert a (sort_insert b l) = sort_insert b (sort_insert a l)) as Hlt.
  { intros a b Hab. induction l as [|x l IH]; cbn.
    - by rewrite Hab, (str_ltb_asym _ _ Hab).
    - destruct (str_ltb b.1 x.1) eqn:Hb; cbn.
      + rewrite Hab, (str_ltb_trans _ _ _ Hab Hb). cbn.
        by rewrite (str_ltb_asym _ _ Hab), Hb.
      + destruct (str_ltb a.1 x.1) eqn:Ha; cbn.
        * by rewrite (str_ltb_asym _ _ Hab), Hb.
        * by rewrite Hb, IH. }
  intros a b Hne. destruct (str_ltb a.1 b.1) eqn:E; [by apply Hlt|].
  symmetry. apply Hlt. by apply str_ltb_total.
Qed.

Definition entry_keys (l : list (string * Value)) : list string := map fst l.

(** Non-decreasing keys. *)
Fixpoint keys_weakly_sorted (ks : list string) : bool :=
  match ks with
  | [] => true
  | k :: rest => forallb (str_leb k) rest && keys_weakly_sorted rest
  end.

Lemma entry_keys_sort_insert e l k :
  k ∈ entry_keys (sort_insert e l) <-> k = e.1 \/ k ∈ entry_keys l.
Proof.
  unfold entry_keys. induction l as [|x l IH]; cbn; [set_solver|].
  destruct (str_ltb _ _); cbn; set_solver.
Qed.

Lemma forallb_elem_of {A} (f : A -> bool) (l : list A) :
  forallb f l = true <-> forall x, x ∈ l -> f x = true.
Proof.
  rewrite forallb_forall. setoid_rewrite <- list_elem_of_In. done.
Qed.

Lemma str_leb_trans (a b c : string) :
  str_leb a b = true -> str_leb b c = true -> str_leb a c = true.
Proof.
  unfold str_leb. rewrite !negb_true_iff. intros Hab Hbc.
  destruct (str_ltb c a) eqn:E; [|done].
  destruct (decide (a = b)) as [->|Hne]; [congruence|].
  pose proof (str_ltb_total _ _ Hab (not_eq_sym Hne)).
  pose proof (str_ltb_trans _ _ _ E ltac:(eassumption)). congruence.
Qed.

Lemma str_ltb_leb (a b : string) : str_ltb a b = true -> str_leb a b = true.
Proof. intros Hab. unfold str_leb. by rewrite (str_ltb_asym _ _ Hab). Qed.

Lemma sort_insert_weakly e l :
  keys_weakly_sorted (entry_keys l) = true ->
  keys_weakly_sorted (entry_keys (sort_insert e l)) = true.
Proof.
  induction l as [|x l IH]; cbn; [done|]. intros [Hx Hl]%andb_true_iff.
  destruct (str_ltb e.1 x.1) eqn:E; cbn.
  - rewrite (str_ltb_leb _ _ E). cbn. apply andb_true_iff. split; [|by rewrite Hx].
    apply forallb_elem_of. intros k Hk. eapply str_leb_trans; [by apply str_ltb_leb|].
    revert Hk. by apply forallb_elem_of.
  - apply andb_true_iff. split; [|by apply IH].
    apply forallb_elem_of. intros k Hk. apply entry_keys_sort_insert in Hk as [->|Hk].
    + unfold str_leb. by rewrite E.
    + revert Hk. by apply forallb_elem_of.
Qed.

Lemma fold_sort_weakly l acc :
  keys_weakly_sorted (entry_keys acc) = true ->
  keys_weakly_sorted (entry_keys (fold_left (fun acc e => sort_insert e acc) l acc)) = true.
Proof.
  revert acc; induction l as [|e l IH]; intros acc Ha; cbn; [done|].
  by apply IH, sort_insert_weakly.
Qed.

Lemma sort_by_key_weakly l : keys_weakly_sorted (entry_keys (sort_by_key l)) = true.
Proof. by apply fold_sort_weakly. Qed.

(** ** Normal forms *)

Lemma canonical_mapping_eq (m : Mapping) :
  canonical (VMapping m) =
    string_keyed m && forallb (fun e => canonical e.2) m && keys_sorted (str_keys m).
Proof.
  cbn [canonical]. f_equal. induction m as [|[k v] m IH]; [done|].
  destruct k; cbn; try done. rewrite IH.
  by destruct (canonical v), (string_keyed m), (forallb _ m).
Qed.

Lemma str_keys_cons k v (m : Mapping) : str_keys ((VString k, v) :: m) = k :: str_keys m.
Proof. done. Qed.

Lemma map_insert_keys (m : Mapping) (k : string) (v : Value) :
  string_keyed m = true ->
  string_keyed (map_insert m k v) = true
  /\ str_keys (map_insert m k v) =
       (if decide (k ∈ str_keys m) then str_keys m else str_keys m ++ [k]).
Proof.
  induction m as [|[[| | |k'| | |] w] m IH]; cbn [map_insert string_keyed]; try done.
  intros Hm. destruct (IH Hm) as [IH1 IH2]. destruct (decide (k' = k)) as [->|Hne].
  - split; [done|]. rewrite !str_keys_cons. rewrite decide_True; [done|]. by left.
  - split; [done|]. rewrite !str_keys_cons, IH2.
    destruct (decide (k ∈ str_keys m)) as [Hin|Hout].
    + rewrite decide_True; [done|]. by right.
    + rewrite decide_False; [done|]. intros [->|?]%elem_of_cons; done.
Qed.

Lemma map_insert_forallb (f : Value -> bool) (m : Mapping) (k : string) (v : Value) :
  f v = true -> forallb (fun e => f e.2) m = true ->
  forallb (fun e => f e.2) (map_insert m k v) = true.
Proof.
  intros Hv. induction m as [|[k' w] m IH]; cbn; [by rewrite Hv|].
  intros [Hw Hm]%andb_true_iff. specialize (IH Hm).
  destruct k'; cbn; rewrite ?Hw, ?IH; try done.
  case_decide; cbn; by rewrite ?Hv, ?Hw, ?Hm, ?IH.
Qed.

Lemma keys_sorted_snoc (ks : list string) (k : string) :
  keys_sorted ks = true -> (forall x, x ∈ ks -> str_ltb x k = true) ->
  keys_sorted (ks ++ [k]) = true.
Proof.
  induction ks as [|x ks IH]; [done|]. intros [Hx Hks]%andb_true_iff Hk.
  cbn [app keys_sorted]. fold (ks ++ [k]). apply andb_true_iff. split.
  - destruct ks as [|y ks]; [|done]. cbn. apply Hk. by left.
  - apply IH; [done|]. intros y Hy. apply Hk. by right.
Qed.

(** The mapping built from weakly sorted entries is a normal form. *)
Lemma build_mapping_sorted (es : list (string * Value)) (acc : Mapping) :
  keys_weakly_sorted (entry_keys es) = true ->
  (forall x k, x ∈ str_keys acc -> k ∈ entry_keys es -> str_leb x k = true) ->
  forallb canonical (map snd es) = true ->
  canonical (VMapping acc) = true ->
  canonical (VMapping (fold_left (fun acc '(k, v) => map_insert acc k v) es acc)) = true.
Proof.
  revert acc; induction es as [|[k v] es IH]; intros acc Hs Hle Hc Ha; cbn; [done|].
  cbn in Hs, Hc. apply andb_true_iff in Hs as [Hk Hs]. apply andb_true_iff in Hc as [Hv Hc].
  rewrite canonical_mapping_eq, !andb_true_iff in Ha. destruct Ha as [[Hsk Hfa] Hks].
  destruct (map_insert_keys acc k v Hsk) as [Hsk' Hkeys].
  apply IH; [done| |done|].
  - intros x k' Hx Hk'. rewrite Hkeys in Hx. case_decide.
    + apply Hle; [done|]. by right.
    + apply elem_of_app in Hx as [Hx|Hx%list_elem_of_singleton].
      * apply Hle; [done|]. by right.
      * subst x. revert Hk'. by apply forallb_elem_of.
  - rewrite canonical_mapping_eq, Hsk', Hkeys. rewrite map_insert_forallb by done. cbn.
    case_decide as Hin; [done|]. apply keys_sorted_snoc; [done|].
    intros x Hx. apply str_ltb_total.
    + specialize (Hle x k Hx). unfold str_leb in Hle. apply negb_true_iff, Hle. by left.
    + by intros ->.
Qed.

Lemma sort_insert_forallb (f : Value -> bool) e l :
  forallb f (map snd (sort_insert e l)) = f e.2 && forallb f (map snd l).
Proof.
  induction l as [|x l IH]; cbn; [done|]. destruct (str_ltb _ _); cbn; [done|].
  rewrite IH. by destruct (f e.2), (f x.2).
Qed.

Lemma sort_by_key_forallb (f : Value -> bool) l :
  forallb f (map snd (sort_by_key l)) = forallb f (map snd l).
Proof.
  assert (forall acc, forallb f (map snd (fold_left (fun acc e => sort_insert e acc) l acc)) =
    forallb f (map snd l) && forallb f (map snd acc)) as Hg.
  { induction l as [|e l IH]; intros acc; cbn; [done|]. rewrite IH, sort_insert_forallb.
    by destruct (f e.2), (forallb f (map snd l)). }
  unfold sort_by_key. rewrite Hg. cbn. by rewrite andb_true_r.
Qed.

Lemma canonicalize_entries_Ok (m : Mapping) (es : list (string * Value)) :
  collect_results (map canonicalize_entry m) = Ok es <->
    Forall2 (fun e e' => e.1 = VString e'.1 /\ canonicalize e.2 = Ok e'.2) m es.
Proof.
  rewrite collect_results_Ok. revert es; induction m as [|[k v] m IH]; intros [|[k' v'] es]; cbn.
  - split; [constructor|done].
  - split; [done|]. intros Hf; inversion Hf.
  - split; [done|]. intros Hf; inversion Hf.
  - split.
    + intros Hm. injection Hm as He Hm. apply IH in Hm. constructor; [|done].
      cbn. destruct k; try done. destruct (canonicalize v); cbn in *; [|done].
      by injection He as -> ->.
    + intros Hf. inversion_clear Hf as [|? ? ? ? [Hk Hv] Hm]. cbn in Hk, Hv. subst k.
      cbn. rewrite Hv. cbn. f_equal. by apply IH.
Qed.

Lemma canonicalize_canonical (v w : Value) : canonicalize v = Ok w -> canonical w = true.
Proof.
  revert w; induction v as [|b|n|s|l IH|m IH|t v IH] using Value_deep_ind; intros w.
  1-4: by intros [= <-].
  - rewrite canonicalize_sequence_eq. destruct (collect_results _) as [ws|] eqn:El; [|done].
    cbn. intros [= <-]. cbn. apply collect_results_Ok in El.
    revert ws El; induction IH as [|x l Hx _ IHl]; intros [|y ws]; cbn; try done.
    intros Hm; injection Hm as Hy Hm. rewrite (Hx y Hy). by apply IHl.
  - rewrite canonicalize_mapping_eq. destruct (collect_results _) as [es|] eqn:Em; [|done].
    cbn. intros [= <-]. unfold build_mapping. apply build_mapping_sorted; [| | |done].
    + apply sort_by_key_weakly.
    + intros x k Hx. by apply elem_of_nil in Hx.
    + rewrite sort_by_key_forallb. apply canonicalize_entries_Ok in Em.
      induction Em as [|e e' m es [_ Hv] _ IHm]; [done|].
      inversion_clear IH as [|? ? [_ IHe] IHm']. cbn. rewrite (IHe _ Hv). by apply IHm.
  - done.
Qed.

(** ** Normal forms are fixed points *)

Lemma keys_sorted_cons_elem (k x : string) (ks : list string) :
  keys_sorted (k :: ks) = true -> x ∈ ks -> str_ltb k x = true.
Proof.
  revert k; induction ks as [|y ks IH]; intros k Hs Hx; [by apply elem_of_nil in Hx|].
  cbn [keys_sorted] in Hs. apply andb_true_iff in Hs as [Hky Hs].
  apply elem_of_cons in Hx as [->|Hx]; [done|].
  eapply str_ltb_trans; [exact Hky|]. by apply IH.
Qed.

Lemma keys_sorted_tail (k : string) (ks : list string) :
  keys_sorted (k :: ks) = true -> keys_sorted ks = true.
Proof. cbn [keys_sorted]. by intros [_ Hs]%andb_true_iff. Qed.

(** Inserting an entry that is not below any present key appends it. *)
Lemma sort_insert_snoc e l :
  (forall x, x ∈ entry_keys l -> str_ltb e.1 x = false) -> sort_insert e l = l ++ [e].
Proof.
  induction l as [|x l IH]; cbn; [done|]. intros Hx.
  rewrite Hx by (by left). rewrite IH; [done|]. intros y Hy. apply Hx. by right.
Qed.

Lemma sort_by_key_sorted l : keys_sorted (entry_keys l) = true -> sort_by_key l = l.
Proof.
  assert (forall acc, keys_sorted (entry_keys l) = true ->
    (forall x k, x ∈ entry_keys acc -> k ∈ entry_keys l -> str_ltb x k = true) ->
    fold_left (fun acc e => sort_insert e acc) l acc = acc ++ l) as Hg.
  { induction l as [|e l IH]; intros acc Hs Hlt; cbn; [by rewrite app_nil_r|].
    rewrite sort_insert_snoc.
    2:{ intros x Hx. apply str_ltb_asym, Hlt; [done|]. by left. }
    rewrite IH; [by rewrite <- app_assoc|by eapply keys_sorted_tail|].
    intros x k Hx Hk. unfold entry_keys in Hx. rewrite map_app in Hx.
    apply elem_of_app in Hx as [Hx|Hx%list_elem_of_singleton].
    - apply Hlt; [done|]. by right.
    - subst x. by eapply keys_sorted_cons_elem. }
  intros Hs. unfold sort_by_key. rewrite Hg; [done|done|].
  intros x k Hx. by apply elem_of_nil in Hx.
Qed.

Definition to_entries (l : list (string * Value)) : Mapping :=
  map (fun '(k, v) => (VString k, v)) l.

Lemma str_keys_to_entries l : str_keys (to_entries l) = entry_keys l.
Proof. induction l as [|[k v] l IH]; [done|].
  change (k :: str_keys (to_entries l) = k :: entry_keys l). by rewrite IH.
Qed.

Lemma map_insert_fresh (m : Mapping) (k : string) (v : Value) :
  string_keyed m = true -> k ∉ str_keys m -> map_insert m k v = m ++ [(VString k, v)].
Proof.
  induction m as [|[[| | |k'| | |] w] m IH]; cbn [map_insert string_keyed]; try done.
  intros Hm Hk. rewrite str_keys_cons in Hk. apply not_elem_of_cons in Hk as [Hne Hk].
  rewrite decide_False by done. by rewrite IH.
Qed.

Lemma build_mapping_distinct l :
  keys_sorted (entry_keys l) = true -> build_mapping l = to_entries l.
Proof.
  assert (forall acc, keys_sorted (entry_keys l) = true ->
    (forall x k, x ∈ entry_keys acc -> k ∈ entry_keys l -> str_ltb x k = true) ->
    fold_left (fun acc '(k, v) => map_insert acc k v) l (to_entries acc) = to_entries (acc ++ l)) as Hg.
  { induction l as [|[k v] l IH]; intros acc Hs Hlt; cbn; [by rewrite app_nil_r|].
    rewrite map_insert_fresh.
    - change [(VString k, v)] with (to_entries [(k, v)]). unfold to_entries at 1 2.
      rewrite <- map_app. fold (to_entries (acc ++ [(k, v)])).
      rewrite IH; [by rewrite <- app_assoc|by eapply keys_sorted_tail|].
      intros x k' Hx Hk. unfold entry_keys in Hx. rewrite map_app in Hx.
      apply elem_of_app in Hx as [Hx|Hx%list_elem_of_singleton].
      + apply Hlt; [done|]. by right.
      + subst x. by eapply keys_sorted_cons_elem.
    - clear. by induction acc as [|[k v] acc IH].
    - rewrite str_keys_to_entries. intros Hk. exact (str_ltb_ne _ _ (Hlt k k Hk ltac:(by left)) eq_refl). }
  intros Hs. unfold build_mapping. change [] with (to_entries []).
  rewrite Hg; [done|done|]. intros x k Hx. by apply elem_of_nil in Hx.
Qed.

Lemma canonicalize_fixed (v : Value) : canonical v = true -> canonicalize v = Ok v.
Proof.
  induction v as [|b|n|s|l IH|m IH|t v IH] using Value_deep_ind; try done.
  - intros Hc. rewrite canonicalize_sequence_eq.
    rewrite (proj2 (collect_results_Ok _ l)); [done|]. cbn in Hc.
    induction IH as [|x l Hx _ IHl]; [done|]. cbn in Hc. apply andb_true_iff in Hc as [Hcx Hc].
    cbn. by rewrite Hx, IHl.
  - rewrite canonical_mapping_eq, !andb_true_iff. intros [[Hsk Hc] Hs].
    assert (exists es, m = to_entries es) as [es ->].
    { clear -Hsk. induction m as [|[[| | |k| | |] v] m IH]; try done; [by exists []|].
      destruct (IH Hsk) as [es ->]. by exists ((k, v) :: es). }
    rewrite canonicalize_mapping_eq, (proj2 (canonicalize_entries_Ok _ es)).
    + cbn. rewrite str_keys_to_entries in Hs.
      by rewrite sort_by_key_sorted, build_mapping_distinct.
    + clear Hsk Hs. induction es as [|[k v] es IHes]; [constructor|].
      cbn in Hc. apply andb_true_iff in Hc as [Hv Hc].
      inversion_clear IH as [|? ? [_ IHv] IHm]. constructor; [|by apply IHes].
      split; [done|]. by apply IHv.
Qed.

(** ** Entries survive *)

Lemma sort_insert_Permutation e l : sort_insert e l ≡ₚ e :: l.
Proof.
  induction l as [|x l IH]; cbn; [done|]. destruct (str_ltb _ _); [done|].
  rewrite IH. by rewrite Permutation_swap.
Qed.

Lemma sort_by_key_Permutation l : sort_by_key l ≡ₚ l.
Proof.
  assert (forall acc, fold_left (fun acc e => sort_insert e acc) l acc ≡ₚ acc ++ l) as Hg.
  { induction l as [|e l IH]; intros acc; cbn; [by rewrite app_nil_r|].
    by rewrite IH, sort_insert_Permutation, <- Permutation_middle. }
  apply (Hg []).
Qed.

Lemma build_get_absent es acc k :
  k ∉ entry_keys es ->
  map_get (fold_left (fun acc '(k, v) => map_insert acc k v) es acc) k = map_get acc k.
Proof.
  revert acc; induction es as [|[k' v] es IH]; intros acc Hk; cbn; [done|].
  apply not_elem_of_cons in Hk as [Hne Hk]. rewrite IH by done.
  rewrite map_get_insert. by rewrite decide_False.
Qed.

Lemma build_get_present es acc k v :
  NoDup (entry_keys es) -> (k, v) ∈ es ->
  map_get (fold_left (fun acc '(k, v) => map_insert acc k v) es acc) k = Some v.
Proof.
  revert acc; induction es as [|[k' v'] es IH]; intros acc Hnd Hin.
  { by apply elem_of_nil in Hin. }
  apply NoDup_cons in Hnd as [Hk Hnd]. apply elem_of_cons in Hin as [[= -> ->]|Hin].
  - cbn. rewrite build_get_absent by done. rewrite map_get_insert. by rewrite decide_True.
  - cbn. by apply IH.
Qed.

Lemma map_get_elem_of (m : Mapping) (k : string) (v : Value) :
  map_get m k = Some v -> (VString k, v) ∈ m.
Proof.
  induction m as [|[k' w] m IH]; [done|]. cbn [map_get].
  destruct k'; try (intros Hg; right; by apply IH).
  case_decide; [subst; intros [= ->]; by left|intros Hg; right; by apply IH].
Qed.

Lemma entries_keys (m : Mapping) (es : list (string * Value)) :
  Forall2 (fun e e' => e.1 = VString e'.1 /\ canonicalize e.2 = Ok e'.2) m es ->
  string_keyed m = true /\ str_keys m = entry_keys es.
Proof.
  induction 1 as [|[k v] [k' v'] m es [Hk Hv] _ [IH1 IH2]]; [done|]. cbn in Hk. subst k.
  split; [done|]. rewrite str_keys_cons, IH2. done.
Qed.

(** Every entry of the source is found under its key, normalised, and no other
    key is. *)
Lemma canonicalize_lookup (m m' : Mapping) (k : string) :
  canonicalize (VMapping m) = Ok (VMapping m') -> NoDup (str_keys m) ->
  match map_get m k with
  | Some v => exists v', canonicalize v = Ok v' /\ map_get m' k = Some v'
  | None => map_get m' k = None
  end.
Proof.
  rewrite canonicalize_mapping_eq. destruct (collect_results _) as [es|] eqn:Em; [|done].
  cbn. intros [= <-] Hnd. apply canonicalize_entries_Ok in Em.
  destruct (entries_keys _ _ Em) as [Hsk Hkeys].
  assert (entry_keys (sort_by_key es) ≡ₚ str_keys m) as Hperm.
  { rewrite Hkeys. unfold entry_keys. by rewrite sort_by_key_Permutation. }
  unfold build_mapping. destruct (map_get m k) as [v|] eqn:Hg.
  - apply map_get_elem_of, list_elem_of_lookup in Hg as [i Hi].
    destruct (Forall2_lookup_l _ _ _ _ _ Em Hi) as ([k' v'] & Hi' & Hk & Hv).
    cbn in Hk, Hv. injection Hk as <-. exists v'. split; [done|].
    apply build_get_present; [by rewrite Hperm|]. rewrite sort_by_key_Permutation.
    apply list_elem_of_lookup. by eexists.
  - rewrite build_get_absent; [done|]. rewrite Hperm. by apply map_get_None_key.
Qed.

(** ** The order of entries is forgotten *)

(** [reorders a b]: [b] is [a] with neighbouring entries of mappings swapped,
    at any depth, any number of times. *)
Inductive reorders : Value -> Value -> Prop :=
| reorders_refl v : reorders v v
| reorders_trans u v w : reorders u v -> reorders v w -> reorders u w
| reorders_item l l' x y : reorders x y -> reorders (VSequence (l ++ x :: l')) (VSequence (l ++ y :: l'))
| reorders_value m m' k x y :
    reorders x y -> reorders (VMapping (m ++ (k, x) :: m')) (VMapping (m ++ (k, y) :: m'))
| reorders_swap m e e' m' :
    e.1 <> e'.1 -> reorders (VMapping (m ++ e :: e' :: m')) (VMapping (m ++ e' :: e :: m')).

Lemma sort_by_key_swap l e e' l' :
  e.1 <> e'.1 -> sort_by_key (l ++ e :: e' :: l') = sort_by_key (l ++ e' :: e :: l').
Proof.
  intros Hne. unfold sort_by_key. rewrite !fold_left_app. cbn.
  by rewrite (sort_insert_comm e' e) by congruence.
Qed.

Lemma collect_results_app {T E} (l l' : list (result T E)) (ts : list T) :
  collect_results (l ++ l') = Ok ts ->
  exists t1 t2, ts = t1 ++ t2 /\ collect_results l = Ok t1 /\ collect_results l' = Ok t2.
Proof.
  rewrite collect_results_Ok. intros Heq. symmetry in Heq.
  apply map_eq_app in Heq as (t1 & t2 & -> & <- & <-).
  exists t1, t2. by rewrite !collect_results_Ok.
Qed.

Lemma canonicalize_reorders (a b : Value) :
  reorders a b -> forall w, canonicalize a = Ok w -> canonicalize b = Ok w.
Proof.
  induction 1 as [v|u v w _ IH1 _ IH2|l l' x y _ IH|m m' k x y _ IH|m e e' m' Hne]; intros w'; try done.
  - intros Hu. by apply IH2, IH1.
  - rewrite !canonicalize_sequence_eq, !map_app. cbn [map].
    destruct (collect_results _) as [ts|] eqn:El; [|done]. cbn. intros [= <-].
    apply collect_results_Ok in El. destruct (canonicalize x) as [x'|] eqn:Ex.
    + rewrite (IH _ eq_refl). apply collect_results_Ok in El. by rewrite El.
    + symmetry in El. apply map_eq_app in El as (t1 & t2 & -> & _ & El). by destruct t2.
  - rewrite !canonicalize_mapping_eq, !map_app. cbn [map canonicalize_entry].
    destruct (collect_results _) as [ts|] eqn:El; [|done]. cbn. intros [= <-].
    destruct (canonicalize x) as [x'|] eqn:Ex.
    + rewrite (IH _ eq_refl). by rewrite El.
    + apply collect_results_Ok in El. symmetry in El.
      apply map_eq_app in El as (t1 & t2 & -> & _ & El). destruct t2; [done|]. by destruct k.
  - rewrite !canonicalize_mapping_eq, !map_app. cbn [map].
    destruct (collect_results _) as [ts|] eqn:El; [|done]. cbn. intros [= <-].
    apply collect_results_Ok in El. symmetry in El.
    apply map_eq_app in El as (t1 & t2 & -> & Hl & El).
    destruct t2 as [|f [|f' t2]]; try done. injection El as Hf Hf' Hl'.
    rewrite (proj2 (collect_results_Ok _ (t1 ++ f' :: f :: t2))).
    + cbn. rewrite (sort_by_key_swap t1 f' f t2); [done|]. intros Hk. apply Hne.
      destruct e as [[| | |k| | |] v], e' as [[| | |k'| | |] v']; try done.
      cbn in Hf, Hf'. destruct (canonicalize v), (canonicalize v'); try done.
      cbn in Hf, Hf'. injection Hf as ->. injection Hf' as ->. cbn in *. congruence.
    + rewrite map_app, Hl. cbn. by rewrite Hf, Hf', Hl'.
Qed.

(** ** What is refused *)

(** Documents without tags whose keys are all strings, at every depth. *)
Fixpoint supported (v : Value) : bool :=
  match v with
  | VSequence items => forallb supported items
  | VMapping m =>
      (fix go (m : list (Value * Value)) : bool :=
         match m with
         | [] => true
         | (VString _, w) :: m' => supported w && go m'
         | _ => false
         end) m
  | VTagged _ _ => false
  | _ => true
  end.

Lemma canonicalize_total (v : Value) : supported v = is_ok (canonicalize v).
Proof.
  induction v as [|b|n|s|l IH|m IH|t v IH] using Value_deep_ind; try done.
  - rewrite canonicalize_sequence_eq. cbn [supported].
    induction IH as [|x l Hx _ IHl]; [done|]. cbn. rewrite Hx, IHl.
    destruct (canonicalize x); cbn; [|done]. by destruct (collect_results _).
  - rewrite canonicalize_mapping_eq. cbn [supported].
    induction IH as [|[k v] m [_ Hv] _ IHm]; [done|]. cbn [snd] in Hv. cbn [map canonicalize_entry].
    destruct k; try done. rewrite Hv, IHm. destruct (canonicalize v); cbn; [|done].
    by destruct (collect_results _).
Qed.

(** ** Properties *)

(** C35: a document that canonicalisation accepts comes out in normal form: at
    every depth its mappings have string keys only, in strictly increasing
    byte order, and there are no tags; and the normal form is a fixed point,
    so hashing a canonical document again gives the same identity. *)
Theorem canonicalize_normal_form (v w : Value) :
  canonicalize v = Ok w -> canonical w = true /\ canonicalize w = Ok w.
Proof.
  intros Hw. apply canonicalize_canonical in Hw. by split; [|apply canonicalize_fixed].
Qed.

Definition sample_document : Value :=
  VMapping [(VString "mode", VString "rule");
            (VString "dns", VMapping [(VString "listen", VNull); (VString "enable", VBool true)])].
Definition sample_canonical : Value :=
  VMapping [(VString "dns", VMapping [(VString "enable", VBool true); (VString "listen", VNull)]);
            (VString "mode", VString "rule")].

Lemma canonicalize_normal_form_witness :
  canonicalize sample_document = Ok sample_canonical
  /\ canonical sample_canonical = true /\ canonicalize sample_canonical = Ok sample_canonical.
Proof.
  split; [vm_compute; reflexivity|].
  apply (canonicalize_normal_form sample_document). vm_compute. reflexivity.
Defined.

(** Canonicalisation of a mapping without duplicate keys keeps exactly its
    entries: a key of the source is found in the result with the normal form
    of its value, and no other key is found. *)
Theorem canonicalize_keeps_entries (m m' : Mapping) (k : string) :
  canonicalize (VMapping m) = Ok (VMapping m') -> NoDup (str_keys m) ->
  match map_get m k with
  | Some v => exists v', canonicalize v = Ok v' /\ map_get m' k = Some v'
  | None => map_get m' k = None
  end.
Proof. apply canonicalize_lookup. Qed.

Lemma canonicalize_keeps_entries_witness :
  exists v', canonicalize (VString "rule") = Ok v'
    /\ map_get [(VString "dns", VNull); (VString "mode", VString "rule")] "mode" = Some v'.
Proof.
  apply (canonicalize_keeps_entries [(VString "mode", VString "rule"); (VString "dns", VNull)]
    [(VString "dns", VNull); (VString "mode", VString "rule")] "mode").
  - vm_compute. reflexivity.
  - apply (bool_decide_unpack _). vm_compute. exact I.
Defined.

(** Canonicalisation is total on documents, and refuses exactly those with
    a tag or a mapping key that is not a string, at any depth. *)
Theorem canonicalize_refuses (v : Value) :
  (exists e, canonicalize v = Err e) <-> supported v = false.
Proof.
  rewrite canonicalize_total. destruct (canonicalize v) as [w|e]; cbn.
  - split; [by intros [e He]|done].
  - split; eauto.
Qed.
