(* ===== verification/Paths.v ===== *)
(** * Paths as text

    The operations of [std::path] (through [camino]) that the configuration
    code calls, on a Unix host: components, parent, file name, containment; and
    the path rebasing of [native_store/paths.rs]. *)

From S2P Require Export Yaml.

(** ** Components *)

Fixpoint split_slash (cur s : string) : list string :=
  match s with
  | EmptyString => [cur]
  | String a s' =>
      if decide (a = "/"%char) then cur :: split_slash "" s'
      else split_slash (cur +:+ String a "") s'
  end.
(** The text between the separators, empty segments included. *)
Definition segments (p : string) : list string := split_slash "" p.

(** [Path::components]: the root, then every segment that is neither empty nor
    a [.] (a leading [.] of a relative path counts). *)
Definition components (p : string) : list string :=
  let body := filter (fun s => s <> "" /\ s <> ".") in
  if is_absolute p then "/" :: body (segments p)
  else match segments p with
       | "." :: rest => "." :: body rest
       | l => body l
       end.

Fixpoint list_starts_with (l prefix : list string) : bool :=
  match prefix, l with
  | [], _ => true
  | x :: prefix', y :: l' => bool_decide (x = y) && list_starts_with l' prefix'
  | _ :: _, [] => false
  end.
(** [Path::starts_with]: by whole components. *)
Definition path_starts_with (p base : string) : bool :=
  list_starts_with (components p) (components base).

(** [Path::eq]: component by component. *)
Definition path_eq (p q : string) : bool := bool_decide (components p = components q).

(** [Path::file_name]: the last component unless it is [..], [.] or the root. *)
Definition file_name (p : string) : option string :=
  match last (components p) with
  | Some c => if decide (c = "/" \/ c = ".." \/ c = ".") then None else Some c
  | None => None
  end.

(** Drop the segments behind the last component that are no component
    themselves; the list is reversed, [first] tells how many segments remain
    that are never dropped. *)
Fixpoint trim_segments (rev_segments : list string) : list string :=
  match rev_segments with
  | [] => []
  | [s] => [s]
  | s :: rest => if decide (s = "" \/ s = ".") then trim_segments rest else rev_segments
  end.

(** [Path::parent]: the text of the path without its last component. *)
Definition parent (p : string) : option string :=
  match trim_segments (reverse (segments p)) with
  | [] => None
  | [s] => if decide (s = "") then None else Some ""
  | _ :: rest =>
      match trim_segments rest with
      | [""] => Some "/"
      | rest' => Some (str_join "/" (reverse rest'))
      end
  end.

Example parent_samples :
  map parent ["/run/core.sock"; "/core.sock"; "/"; ""; "core.sock"; "a/b//c"; "/a/./b/"]
  = [Some "/run"; Some "/"; None; None; Some ""; Some "a/b"; Some "/a"].
Proof. vm_compute. reflexivity. Qed.

Example containment_samples :
  (path_starts_with "/run/a/b" "/run/a", path_starts_with "/run/ab" "/run/a",
   path_starts_with "/run//a/./b" "/run/a/", file_name "/run/a/..", file_name "/run/a/")
  = (true, false, true, None, Some "a").
Proof. vm_compute. reflexivity. Qed.

(** ** Rebasing paths of the native store ([native_store/paths.rs]) *)

Definition newline : string := String (Ascii.ascii_of_N 10) "".

Definition rebase (source : string) (value : Value) : Value :=
  match value with
  | VString path =>
      if negb (bool_decide (path = "")) && negb (str_contains newline path)
         && negb (starts_with "-----BEGIN " path) && negb (str_contains "://" path)
         && negb (is_absolute path)
      then VString (path_join source path)
      else value
  | _ => value
  end.

Definition rebase_fields (source : string) (fields : list string) (m : Mapping) : Mapping :=
  fold_left (fun m field => map_modify (rebase source) field m) fields m.

Definition certificate_paths (source : string) (m : Mapping) : Mapping :=
  map_modify (fun v =>
      match v with
      | VSequence certificates => VSequence (map (rebase source) certificates)
      | certificate => rebase source certificate
      end) "client-auth-cert"
    (rebase_fields source ["certificate"; "private-key"] m).

Definition rewrite_provider (source : string) (provider : Mapping) : Mapping :=
  if decide ((map_get provider "type" ≫= as_str) = Some "http") then provider
  else map_modify (rebase source) "path" provider.

Definition rewrite_proxy (source : string) (proxy : Mapping) : Mapping :=
  match map_get proxy "type" ≫= as_str with
  | Some "ssh" => map_modify (rebase source) "private-key" proxy
  | Some "vmess" | Some "vless" | Some "trojan" | Some "hysteria2" | Some "tuic"
  | Some "anytls" =>
      let proxy := certificate_paths source proxy in
      let proxy := map_modify (via_mapping (certificate_paths source)) "realm-opts" proxy in
      map_modify (via_mapping
        (map_modify (via_mapping (certificate_paths source)) "download-settings"))
        "xhttp-opts" proxy
  | Some "zerotier" => map_modify (rebase source) "planet" proxy
  | _ => proxy
  end.

Definition on_sequence (f : Value -> Value) (v : Value) : Value :=
  match v with VSequence l => VSequence (map f l) | _ => v end.
Definition map_values (f : Value -> Value) (m : Mapping) : Mapping :=
  map (fun e => (e.1, f e.2)) m.

Definition rewrite_paths (kind : CoreKind) (document : Mapping) (source : string) : Mapping :=
  let document := rebase_fields source ["external-ui"; "mmdb"; "geosite"; "asn-mmdb"] document in
  let document :=
    fold_left (fun m field =>
        map_modify (on_mapping (map_values (via_mapping (rewrite_provider source)))) field m)
      ["proxy-providers"; "rule-providers"] document in
  let document :=
    fold_left (fun m field => map_modify (on_mapping (certificate_paths source)) field m)
      ["tls"; "tuic-server"; "ss-config"] document in
  let document :=
    map_modify (on_sequence (via_mapping (certificate_paths source))) "listeners" document in
  let document :=
    map_modify (on_sequence (via_mapping (rewrite_proxy source))) "proxies" document in
  match kind with
  | ClashRust | ChimeraClient =>
      map_modify (via_mapping (map_modify (via_mapping (fun listen =>
          fold_left (fun m k =>
              map_modify (via_mapping (rebase_fields source ["ca-cert"; "ca-key"])) k m)
            ["doh"; "dot"; "doh3"] listen)) "listen")) "dns" document
  | _ => document
  end.

(** ** What rebasing may change *)

(** The texts [rebase] rewrites: relative paths that are no inline document
    and no URL. *)
Definition rebasable (path : string) : bool :=
  negb (bool_decide (path = "")) && negb (str_contains newline path)
  && negb (starts_with "-----BEGIN " path) && negb (str_contains "://" path)
  && negb (is_absolute path).

(** [rebased source v w]: [w] is [v] with some rebasable texts below it joined
    to [source]; keys, order and every other value are those of [v]. *)
Inductive rebased (source : string) : Value -> Value -> Prop :=
| rebased_refl v : rebased source v v
| rebased_trans u v w : rebased source u v -> rebased source v w -> rebased source u w
| rebased_text s : rebasable s = true -> rebased source (VString s) (VString (path_join source s))
| rebased_item l l' x y :
    rebased source x y -> rebased source (VSequence (l ++ x :: l')) (VSequence (l ++ y :: l'))
| rebased_value m m' k x y :
    rebased source x y -> rebased source (VMapping (m ++ (k, x) :: m')) (VMapping (m ++ (k, y) :: m'))
| rebased_tag t x y : rebased source x y -> rebased source (VTagged t x) (VTagged t y).
#[export] Hint Constructors rebased : rebased.

Section Rebased.
Context (source : string).

Lemma rebase_rebased (v : Value) : rebased source v (rebase source v).
Proof.
  destruct v; cbn; eauto with rebased.
  match goal with |- context [if ?b then _ else _] => destruct b eqn:E end; eauto with rebased.
Qed.

Lemma rebased_cons e m m' :
  rebased source (VMapping m) (VMapping m') -> rebased source (VMapping (e :: m)) (VMapping (e :: m')).
Proof.
  remember (VMapping m) as a eqn:Ea. remember (VMapping m') as b eqn:Eb. intros Hr.
  revert m m' Ea Eb.
  assert (forall a b, rebased source a b -> forall m, a = VMapping m ->
    exists m', b = VMapping m' /\ rebased source (VMapping (e :: m)) (VMapping (e :: m'))) as Hg.
  { clear Hr a b. induction 1 as [v|u v w _ IH1 _ IH2|s _|l l' x y _ _|m1 m2 k x y Hxy _|t x y _ _];
      intros m Hm; try done; subst.
    - eauto with rebased.
    - destruct (IH1 _ eq_refl) as (m1 & -> & H1). destruct (IH2 _ eq_refl) as (m2 & -> & H2).
      eauto with rebased.
    - injection Hm as <-. eexists; split; [done|].
      change (e :: m1 ++ (k, x) :: m2) with ((e :: m1) ++ (k, x) :: m2).
      change (e :: m1 ++ (k, y) :: m2) with ((e :: m1) ++ (k, y) :: m2).
      by constructor. }
  intros m m' -> ->. destruct (Hg _ _ Hr m eq_refl) as (m0 & [= <-] & Hm). done.
Qed.

Lemma map_modify_rebased f k m :
  (forall v, rebased source v (f v)) -> rebased source (VMapping m) (VMapping (map_modify f k m)).
Proof.
  intros Hf. induction m as [|[k' v] m IH]; cbn; [constructor|].
  destruct k'; try (by apply rebased_cons).
  case_decide; [|by apply rebased_cons]. by apply (rebased_value _ []).
Qed.

Lemma map_values_rebased f m :
  (forall v, rebased source v (f v)) -> rebased source (VMapping m) (VMapping (map_values f m)).
Proof.
  intros Hf. induction m as [|[k' v] m IH]; cbn; [constructor|].
  eapply rebased_trans; [apply (rebased_value _ [] m k' v), Hf|].
  by apply rebased_cons.
Qed.

Lemma map_rebased f l :
  (forall v, rebased source v (f v)) -> rebased source (VSequence l) (VSequence (map f l)).
Proof.
  intros Hf. assert (forall done, rebased source (VSequence (done ++ l)) (VSequence (done ++ map f l))) as Hg.
  { induction l as [|v l IH]; intros d; cbn; [constructor|].
    eapply rebased_trans; [apply (rebased_item _ d l v), Hf|].
    specialize (IH (d ++ [f v])). by rewrite <- !app_assoc in IH. }
  apply (Hg []).
Qed.

Definition preserving (f : Mapping -> Mapping) : Prop :=
  forall m, rebased source (VMapping m) (VMapping (f m)).

Lemma on_mapping_rebased f v : preserving f -> rebased source v (on_mapping f v).
Proof. intros Hf. destruct v; cbn; eauto with rebased. Qed.

Lemma via_mapping_rebased f v : preserving f -> rebased source v (via_mapping f v).
Proof. intros Hf. induction v; cbn; eauto with rebased. Qed.

Lemma on_sequence_rebased f v :
  (forall w, rebased source w (f w)) -> rebased source v (on_sequence f v).
Proof. intros Hf. destruct v; cbn; eauto with rebased. by apply map_rebased. Qed.

Lemma preserving_fold {A} (step : Mapping -> A -> Mapping) (l : list A) :
  (forall a, preserving (fun m => step m a)) -> preserving (fun m => fold_left step l m).
Proof.
  intros Hs m. revert m; induction l as [|a l IH]; intros m; cbn; [constructor|].
  eapply rebased_trans; [apply (Hs a)|apply IH].
Qed.

Lemma preserving_compose f g : preserving f -> preserving g -> preserving (fun m => g (f m)).
Proof. intros Hf Hg m. eapply rebased_trans; [apply Hf|apply Hg]. Qed.

Lemma rebase_fields_preserving fields : preserving (rebase_fields source fields).
Proof.
  apply (preserving_fold (fun m field => map_modify (rebase source) field m)).
  intros a m. apply map_modify_rebased, rebase_rebased.
Qed.

Lemma certificate_paths_preserving : preserving (certificate_paths source).
Proof.
  apply (preserving_compose (rebase_fields source ["certificate"; "private-key"])
    (map_modify _ "client-auth-cert")); [apply rebase_fields_preserving|].
  intros m. apply map_modify_rebased. intros v.
  destruct v; try apply rebase_rebased. apply map_rebased, rebase_rebased.
Qed.

Lemma rewrite_provider_preserving : preserving (rewrite_provider source).
Proof.
  intros m. unfold rewrite_provider. case_decide; [constructor|].
  apply map_modify_rebased, rebase_rebased.
Qed.
#[local] Hint Resolve rebase_fields_preserving certificate_paths_preserving
  rewrite_provider_preserving rebase_rebased on_mapping_rebased via_mapping_rebased : rebased.

Lemma modify_via_preserving f k : preserving f -> preserving (map_modify (via_mapping f) k).
Proof. intros Hf m. apply map_modify_rebased. eauto with rebased. Qed.

Lemma rewrite_proxy_preserving : preserving (rewrite_proxy source).
Proof.
  assert (preserving (fun proxy =>
    map_modify (via_mapping (map_modify (via_mapping (certificate_paths source)) "download-settings"))
      "xhttp-opts" (map_modify (via_mapping (certificate_paths source)) "realm-opts"
        (certificate_paths source proxy)))) as Htls.
  { apply (preserving_compose (fun m => map_modify (via_mapping (certificate_paths source))
      "realm-opts" (certificate_paths source m)) (map_modify _ "xhttp-opts")).
    - apply (preserving_compose (certificate_paths source) (map_modify _ "realm-opts")).
      + apply certificate_paths_preserving.
      + apply modify_via_preserving, certificate_paths_preserving.
    - by apply modify_via_preserving, modify_via_preserving, certificate_paths_preserving. }
  intros m. unfold rewrite_proxy.
  repeat case_match; try constructor; try apply Htls; apply map_modify_rebased, rebase_rebased.
Qed.

Lemma rewrite_paths_preserving kind : preserving (fun m => rewrite_paths kind m source).
Proof.
  intros m. unfold rewrite_paths.
  eapply rebased_trans; [apply rebase_fields_preserving|].
  eapply rebased_trans.
  { apply (preserving_fold (fun m field =>
      map_modify (on_mapping (map_values (via_mapping (rewrite_provider source)))) field m)).
    intros a m'. apply map_modify_rebased. intros v. apply on_mapping_rebased. intros m''.
    apply map_values_rebased. eauto with rebased. }
  eapply rebased_trans.
  { apply (preserving_fold (fun m field =>
      map_modify (on_mapping (certificate_paths source)) field m)).
    intros a m'. apply map_modify_rebased. eauto with rebased. }
  eapply rebased_trans.
  { apply (map_modify_rebased (on_sequence (via_mapping (certificate_paths source))) "listeners").
    intros v. apply on_sequence_rebased. eauto with rebased. }
  eapply rebased_trans.
  { apply (map_modify_rebased (on_sequence (via_mapping (rewrite_proxy source))) "proxies").
    intros v. apply on_sequence_rebased. intros w. apply via_mapping_rebased, rewrite_proxy_preserving. }
  assert (preserving (map_modify (via_mapping (map_modify (via_mapping (fun listen =>
      fold_left (fun m k => map_modify (via_mapping (rebase_fields source ["ca-cert"; "ca-key"])) k m)
        ["doh"; "dot"; "doh3"] listen)) "listen")) "dns")) as Hdns.
  { apply modify_via_preserving, modify_via_preserving.
    apply (preserving_fold (fun m k => map_modify (via_mapping (rebase_fields source _)) k m)).
    intros a. by apply modify_via_preserving, rebase_fields_preserving. }
  destruct kind; try constructor; apply Hdns.
Qed.

End Rebased.

(** ** Normal forms are kept *)

Fixpoint canonical_entries (m : Mapping) : bool :=
  match m with
  | [] => true
  | (VString _, w) :: m' => canonical w && canonical_entries m'
  | _ => false
  end.

Lemma canonical_mapping_unfold m :
  canonical (VMapping m) = canonical_entries m && keys_sorted (str_keys m).
Proof. done. Qed.

Lemma canonical_entries_app m m' :
  canonical_entries (m ++ m') = canonical_entries m && canonical_entries m'.
Proof.
  induction m as [|[k v] m IH]; [done|]. destruct k; cbn; try done.
  rewrite IH. by rewrite andb_assoc.
Qed.

Lemma str_keys_app m m' : str_keys (m ++ m') = str_keys m ++ str_keys m'.
Proof. apply omap_app. Qed.

Lemma rebased_canonical source v w : rebased source v w -> canonical v = canonical w.
Proof.
  induction 1 as [v|u v w _ IH1 _ IH2|s _|l l' x y _ IH|m m' k x y _ IH|t x y _ _]; try done.
  - congruence.
  - cbn. rewrite !forallb_app. cbn. by rewrite IH.
  - rewrite !canonical_mapping_unfold, !canonical_entries_app, !str_keys_app. cbn.
    destruct k; try done. by rewrite IH.
Qed.

(** ** Properties *)

(** Moving a configuration to the native store changes nothing but file
    references: the rewritten document has the keys, the order and the values
    of the original except that some texts which are relative paths (not
    empty, no inline PEM, no URL, no line break, not absolute) are joined to
    the directory of the source; a document in normal form stays in normal
    form. *)
Theorem rewrite_paths_only_rebases (kind : CoreKind) (document : Mapping) (source : string) :
  rebased source (VMapping document) (VMapping (rewrite_paths kind document source))
  /\ canonical (VMapping (rewrite_paths kind document source)) = canonical (VMapping document).
Proof.
  pose proof (rewrite_paths_preserving source kind document) as Hr.
  split; [exact Hr|]. symmetry. by eapply rebased_canonical.
Qed.

Example rewrite_paths_sample :
  rewrite_paths ClashRust
    [(VString "dns", VMapping [(VString "listen", VMapping [(VString "doh", VMapping
        [(VString "ca-cert", VString "ca.pem")])])]);
     (VString "mmdb", VString "geo/country.mmdb");
     (VString "proxies", VSequence [VMapping [(VString "private-key", VString "AAAA=");
        (VString "type", VString "wireguard")]])] "/etc/clash"
  = [(VString "dns", VMapping [(VString "listen", VMapping [(VString "doh", VMapping
        [(VString "ca-cert", VString "/etc/clash/ca.pem")])])]);
     (VString "mmdb", VString "/etc/clash/geo/country.mmdb");
     (VString "proxies", VSequence [VMapping [(VString "private-key", VString "AAAA=");
        (VString "type", VString "wireguard")]])].
Proof. vm_compute. reflexivity. Qed.
