(* ===== verification/PidReap.v ===== *)
(** * Reaping recorded processes

    [chimera-utils/src/process/pid_file.rs], the part with effects, on a Linux
    host: reading the identity of a live process, killing a recorded process,
    and the life of an epoch's pid record.  Every system call may fail, and
    between two of them the host does what it likes: processes exit, their
    numbers are given to others, files change.  The theorems say whom a signal
    can hit and what the outcome of a reap proves. *)

From S2P Require Export PidRecord Paths.
Open Scope rust_scope.

(** ** The host *)

(** A process: a number no other process of the host ever has, its start time,
    what [/proc/<pid>/exe] answers, and its parent.  A process that has
    terminated but is still listed has no executable any more. *)
Record Proc := {
  pr_id : N;
  pr_ticks : N;
  pr_exe : result string StdError;
  pr_parent : option N;
}.
Definition gone (p : Proc) : bool :=
  match pr_exe p with Err e => bool_decide (se_kind e = EkNotFound) | Ok _ => false end.

Inductive PidNode := PnFile (contents : string) | PnSymlink | PnOther.

(** [w_seen] are the processes that ever were, by pid, number and start time;
    [w_signalled] the numbers of those a SIGKILL was sent to; [w_moments] what
    the system calls found, the newest first.  They and the clock are there for
    the statements. *)
Record World := {
  w_now : nat;
  w_procs : gmap N Proc;
  w_seen : list (N * N * N);
  w_signalled : list N;
  w_moments : list (gmap N Proc * gmap string PidNode);
  w_files : gmap string PidNode;
  w_counter : N;
}.
Definition tick (w : World) : World :=
  {| w_now := S (w_now w); w_procs := w_procs w; w_seen := w_seen w; w_signalled := w_signalled w;
     w_moments := w_moments w; w_files := w_files w; w_counter := w_counter w |}.
Definition with_files (files : gmap string PidNode) (w : World) : World :=
  {| w_now := w_now w; w_procs := w_procs w; w_seen := w_seen w; w_signalled := w_signalled w;
     w_moments := w_moments w; w_files := files; w_counter := w_counter w |}.
Definition with_signal (id : N) (w : World) : World :=
  {| w_now := w_now w; w_procs := w_procs w; w_seen := w_seen w; w_signalled := id :: w_signalled w;
     w_moments := w_moments w; w_files := w_files w; w_counter := w_counter w |}.
Definition with_moment (w : World) : World :=
  {| w_now := w_now w; w_procs := w_procs w; w_seen := w_seen w; w_signalled := w_signalled w;
     w_moments := (w_procs w, w_files w) :: w_moments w; w_files := w_files w; w_counter := w_counter w |}.
Definition with_counter (n : N) (w : World) : World :=
  {| w_now := w_now w; w_procs := w_procs w; w_seen := w_seen w; w_signalled := w_signalled w;
     w_moments := w_moments w; w_files := w_files w; w_counter := n |}.

Definition Act (A : Type) : Type := World -> A * World.
Definition Try (A : Type) : Type := Act (result A StdError).
Definition act_ret {A} (a : A) : Act A := fun w => (a, w).
Definition act_bind {A B} (m : Act A) (k : A -> Act B) : Act B := fun w => let '(a, w) := m w in k a w.
Definition try_bind {A B} (m : Try A) (k : A -> Try B) : Try B :=
  act_bind m (fun r => match r with Ok a => k a | Err e => act_ret (Err e) end).
Definition try_ret {A} (a : A) : Try A := act_ret (Ok a).
Definition try_err {A} (e : StdError) : Try A := act_ret (Err e).
Definition try_lift {A} (r : result A StdError) : Try A := act_ret r.

Declare Scope act_scope.
Delimit Scope act_scope with act.
Notation "'do*' x ':=' m 'in' k" := (act_bind m (fun x => k))
  (at level 10, x pattern, m at level 100, k at level 200) : act_scope.
Notation "'try*' x ':=' m 'in' k" := (try_bind m (fun x => k))
  (at level 10, x pattern, m at level 100, k at level 200) : act_scope.
Open Scope act_scope.

(** What the host does between two calls, whether a call fails, whether it is one
    whose signal is refused, and what the code takes from the kernel. *)
Class Host_os := {
  os_env : nat -> World -> World;
  os_fault : nat -> option StdError;
  os_refused : nat -> bool;
  os_pidfds : bool;
  os_boot_id : string;
  os_stat : N -> Proc -> string;
  os_canonicalize : string -> World -> result string StdError;
  os_process_id : N;
}.

Definition ENOSYS : N := 38.
Definition ESRCH : N := 3.
Definition EPERM : N := 1.
Definition EACCES : N := 13.
Definition raw_error (raw : N) (text : string) : StdError :=
  {| se_kind := if decide (raw = EPERM \/ raw = EACCES) then EkPermissionDenied else EkOther;
     se_raw := Some raw; se_text := text |}.
Definition no_process : StdError := raw_error ESRCH "No such process (os error 3)".
Definition not_permitted : StdError := raw_error EPERM "Operation not permitted (os error 1)".
Definition no_entry : StdError :=
  {| se_kind := EkNotFound; se_raw := Some 2; se_text := "No such file or directory (os error 2)" |}.

Section Reap.
Context `{Host_os}.

(** The host moves on, and the call finds what it finds. *)
Definition env_step_w (w : World) : World := with_moment (os_env (w_now w) w).

(** One system call. *)
Definition call {A} (op : World -> result A StdError * World) : Try A :=
  fun w =>
    let w := env_step_w w in
    match os_fault (w_now w) with
    | Some e => (Err e, tick w)
    | None => let '(r, w) := op w in (r, tick w)
    end.

(** ** The identity of a live process *)

Definition linux_start_ticks (pid : N) : Try (option N) :=
  do* stat := call (fun w =>
    (match w_procs w !! pid with Some p => Ok (os_stat pid p) | None => Err no_entry end, w)) in
  match stat with
  | Err error => if decide (se_kind error = EkNotFound) then try_ret None else try_err error
  | Ok stat => try* ticks := try_lift (parse_stat pid stat) in try_ret (Some ticks)
  end.

Definition read_exe (pid : N) : Try string :=
  call (fun w => (match w_procs w !! pid with Some p => pr_exe p | None => Err no_entry end, w)).
Definition read_boot_id : Try string := call (fun w => (Ok os_boot_id, w)).

(** [process_identity] behind the look at the executable; [path] is its target,
    [None] when the kernel refuses to tell. *)
Definition confirm_identity (pid first_ticks : N) (path : option string) : Try (option ProcessIdentity) :=
  try* second := linux_start_ticks pid in
  match second with
  | None => try_ret None
  | Some second_ticks =>
      if decide (first_ticks <> second_ticks) then try_ret None
      else
        try* executable := try_lift (match path with
          | None => Ok None
          | Some path =>
              map_ok Some (ok_or (file_name path)
                (identity_error ("cannot resolve executable for live pid " +:+ show_N pid)))
          end) in
        try* boot_id := read_boot_id in
        try_ret (Some {| pi_executable := executable;
                         pi_start_token := boot_bound_start_token (trim boot_id) first_ticks;
                         pi_legacy_start_token := None |})
  end.

Definition process_identity (pid : N) : Try (option ProcessIdentity) :=
  try* first := linux_start_ticks pid in
  match first with
  | None => try_ret None
  | Some first_ticks =>
      do* exe := read_exe pid in
      match exe with
      | Ok path => confirm_identity pid first_ticks (Some path)
      | Err error =>
          if decide (se_kind error = EkNotFound) then try_ret None
          else if decide (se_kind error = EkPermissionDenied) then confirm_identity pid first_ticks None
          else try_err error
      end
  end.

Definition identity_query_is_provisional (error : StdError) : bool :=
  bool_decide (se_kind error = EkPermissionDenied).

Definition cannot_prove (record : EpochPidRecord) : StdError :=
  identity_error ("cannot prove ownership of live pid " +:+ show_N (er_pid record)).

(** ** Signals *)

(** The open descriptor refers to the process the number belonged to. *)
Definition pidfd_open (pid : N) : Try N :=
  call (fun w =>
    (if os_pidfds then
       match w_procs w !! pid with Some p => Ok (pr_id p) | None => Err no_process end
     else Err (raw_error ENOSYS "Function not implemented (os error 38)"), w)).

Definition listed (id : N) (w : World) : bool :=
  existsb (fun p => pr_id p =? id) (map snd (map_to_list (w_procs w))).
Definition pidfd_kill (id : N) : Try () :=
  do* r := call (fun w =>
    if os_refused (w_now w) then (Err not_permitted, w)
    else if listed id w then (Ok tt, with_signal id w) else (Err no_process, w)) in
  match r with
  | Ok _ => try_ret tt
  | Err error => if decide (se_raw error = Some ESRCH) then try_ret tt else try_err error
  end.
Definition kill_pid (pid : N) : Try () :=
  call (fun w =>
    if os_refused (w_now w) then (Err not_permitted, w)
    else match w_procs w !! pid with
         | Some p => (Ok tt, with_signal (pr_id p) w)
         | None => (Err no_process, w)
         end).

Definition exited_before (pid : N) (what : string) : StdError :=
  std_error EkNotFound ("pid " +:+ show_N pid +:+ " exited before " +:+ what).

Definition kill_revalidated_by_pid (record : EpochPidRecord) : Try () :=
  try* identity := process_identity (er_pid record) in
  try* identity := try_lift (ok_or identity (exited_before (er_pid record) "final validation")) in
  if negb (record_matches_identity record identity) then try_err (cannot_prove record)
  else kill_pid (er_pid record).

Definition kill_recorded_process (record : EpochPidRecord) : Try () :=
  do* pidfd := pidfd_open (er_pid record) in
  match pidfd with
  | Err error => if decide (se_raw error = Some ENOSYS) then kill_revalidated_by_pid record else try_err error
  | Ok pidfd =>
      try* identity := process_identity (er_pid record) in
      try* identity := try_lift (ok_or identity (exited_before (er_pid record) "pidfd validation")) in
      if negb (record_matches_identity record identity) then try_err (cannot_prove record)
      else pidfd_kill pidfd
  end.

(** ** Reaping *)

(** The loop of [identity_for_reap]; [seen] is its [access_error]. *)
Fixpoint identity_attempts (attempts : nat) (pid : N) (seen : option StdError) : Try (option ProcessIdentity) :=
  match attempts with
  | O => try_err (default (std_error EkPermissionDenied ("cannot inspect live pid " +:+ show_N pid)) seen)
  | S attempts =>
      do* r := process_identity pid in
      match r with
      | Ok identity => try_ret identity
      | Err error =>
          if identity_query_is_provisional error then identity_attempts attempts pid (Some error) else try_err error
      end
  end.
Definition identity_for_reap (pid : N) : Try (option ProcessIdentity) :=
  identity_attempts IDENTITY_WAIT_ATTEMPTS pid None.

Definition identity_for_confirmation (r : result (option ProcessIdentity) StdError) (unowned_is_dead : bool)
    : result (option ProcessIdentity) StdError :=
  match r with
  | Ok identity => Ok identity
  | Err error => if unowned_is_dead then Ok None else Err error
  end.

(** The window behind the kill. *)
Fixpoint confirm_death (attempts : nat) (record : EpochPidRecord) (unowned_is_dead : bool)
    (kill_error identity_error : option StdError) : Try OrphanReapOutcome :=
  match attempts with
  | O =>
      match kill_error, identity_error with
      | Some error, _ => try_err error
      | None, Some error => try_err error
      | None, None => try_err (std_error EkTimedOut
          ("pid " +:+ show_N (er_pid record) +:+ " remained alive after validated kill"))
      end
  | S attempts =>
      do* r := process_identity (er_pid record) in
      match r with
      | Ok None => try_ret ReapKilled
      | Ok (Some identity) =>
          if negb (record_matches_identity record identity) then try_ret ReapKilled
          else confirm_death attempts record unowned_is_dead kill_error None
      | Err error =>
          if identity_query_is_provisional error then
            if unowned_is_dead then try_ret ReapKilled
            else confirm_death attempts record unowned_is_dead kill_error (Some error)
          else if unowned_is_dead then try_ret ReapKilled
          else try_err error
      end
  end.

Definition reap_record_with_kill (record : EpochPidRecord) (unowned_is_dead : bool) (kill : Try ())
    : Try OrphanReapOutcome :=
  do* r := identity_for_reap (er_pid record) in
  try* identity := try_lift (identity_for_confirmation r unowned_is_dead) in
  match identity with
  | None => try_ret ReapAlreadyExited
  | Some identity =>
      match compare_identity record identity with
      | IdReused => try_ret ReapAlreadyExited
      | IdUncertain => if unowned_is_dead then try_ret ReapAlreadyExited else try_err (cannot_prove record)
      | IdSame =>
          do* killed := kill in
          confirm_death KILL_WAIT_ATTEMPTS record unowned_is_dead
            (match killed with Ok _ => None | Err error => Some error end) None
      end
  end.

(** The walk of [descendant_pids] over one listing of the processes; every round
    takes one number off the stack, and every number is pushed at most once. *)
Fixpoint descend (fuel : nat) (children : N -> list N) (pending : list N) (found : gset N) : gset N :=
  match fuel, pending with
  | S fuel, parent :: pending =>
      let new := filter (fun pid => pid ∉ found) (children parent) in
      descend fuel children (new ++ pending) (found ∪ list_to_set new)
  | _, _ => found
  end.
Definition children_of (procs : gmap N Proc) (parent : N) : list N :=
  (filter (fun x => pr_parent x.2 = Some parent) (map_to_list procs)).*1.
Definition descendants_in (procs : gmap N Proc) (root : N) : gset N :=
  descend (S (size procs)) (children_of procs) [root] ∅.
Definition descendant_pids (root : N) : Act (list N) :=
  fun w =>
    let w := env_step_w w in
    (elements (descendants_in (w_procs w) root), tick w).

Definition attributable_identity (r : result (option ProcessIdentity) StdError) : option ProcessIdentity :=
  match r with
  | Ok (Some identity) => if decide (pi_executable identity = None) then None else Some identity
  | _ => None
  end.

Fixpoint capture (pids : list N) : Act (list (N * option ProcessIdentity)) :=
  match pids with
  | [] => act_ret []
  | pid :: pids =>
      do* r := process_identity pid in
      do* rest := capture pids in
      act_ret ((pid, attributable_identity r) :: rest)
  end.

Definition merge_descendant_captures (captured : gmap N ProcessIdentity) (second : list (N * option ProcessIdentity))
    : list (N * ProcessIdentity) :=
  map_to_list (fold_left (fun captured '(pid, identity) =>
    match identity with
    | Some identity => <[pid := identity]> captured
    | None => delete pid captured
    end) second captured).

Definition capture_descendants (root : N) : Act (list (N * ProcessIdentity)) :=
  do* first := descendant_pids root in
  do* first := capture first in
  let captured := list_to_map (omap (fun '(pid, identity) => (pid,.) <$> identity) first) in
  do* second := descendant_pids root in
  do* second := capture second in
  act_ret (merge_descendant_captures captured second).

(** [expect]: a captured descendant has an executable. *)
Definition descendant_record (record : EpochPidRecord) (d : N * ProcessIdentity) : EpochPidRecord :=
  {| er_pid := d.1; er_epoch := er_epoch record; er_executable := default "" (pi_executable d.2);
     er_start_token := pi_start_token d.2; er_runtime_config := er_runtime_config record |}.

Fixpoint reap_descendants (record : EpochPidRecord) (descendants : list (N * ProcessIdentity))
    : Act (bool * list string) :=
  match descendants with
  | [] => act_ret (false, [])
  | d :: descendants =>
      let dr := descendant_record record d in
      do* r := reap_record_with_kill dr true (kill_recorded_process dr) in
      do* rest := reap_descendants record descendants in
      let '(killed, failures) := rest in
      act_ret match r with
              | Ok ReapKilled => (true, failures)
              | Ok _ => (killed, failures)
              | Err error => (killed, ("pid " +:+ show_N (er_pid dr) +:+ ": " +:+ se_text error) :: failures)
              end
  end.

Definition reap_record (record : EpochPidRecord) : Try OrphanReapOutcome :=
  try* identity := identity_for_reap (er_pid record) in
  match identity with
  | None => try_ret ReapAlreadyExited
  | Some identity =>
      match compare_identity record identity with
      | IdReused => try_ret ReapAlreadyExited
      | IdUncertain => try_err (cannot_prove record)
      | IdSame =>
          do* descendants := capture_descendants (er_pid record) in
          try* root := reap_record_with_kill record false (kill_recorded_process record) in
          do* rest := reap_descendants record descendants in
          let '(killed, failures) := rest in
          if decide (failures <> []) then
            try_err (std_error EkOther ("failed to confirm death of captured descendants: " +:+ str_join "; " failures))
          else try_ret (if killed : bool then ReapKilled else root)
      end
  end.

(** [recorded_process_is_alive]. *)
Definition recorded_process_is_alive (raw : string) : Try bool :=
  try* record := try_lift (parse_epoch_record raw) in
  try* identity := process_identity (er_pid record) in
  match identity with
  | None => try_ret false
  | Some identity =>
      match compare_identity record identity with
      | IdSame => try_ret true
      | IdReused => try_ret false
      | IdUncertain => try_err (identity_error ("cannot prove whether live pid " +:+ show_N (er_pid record)
                                                +:+ " is the recorded process"))
      end
  end.

End Reap.
