(* ===== verification/PidTree.v ===== *)
(** * The descendants of a process

    [descendant_pids] of [chimera-utils/src/process/pid_file.rs] walks the
    children of a listing with a stack; here is what it computes: the
    transitive closure of the parent relation, whatever the listing looks like,
    cycles of reused parent numbers included. *)

From stdpp Require Import relations.
From S2P Require Export PidReap.

Definition child_of (procs : gmap N Proc) (parent pid : N) : Prop :=
  exists p, procs !! pid = Some p /\ pr_parent p = Some parent.

Lemma children_of_spec procs parent pid : pid ∈ children_of procs parent <-> child_of procs parent pid.
Proof.
  unfold children_of, child_of. rewrite list_elem_of_fmap. split.
  - intros ([q p] & -> & [Hp Hin]%list_elem_of_filter). apply elem_of_map_to_list in Hin. by exists p.
  - intros (p & Hin & Hp). exists (pid, p). split; [done|]. apply list_elem_of_filter. split; [done|]. by apply elem_of_map_to_list.
Qed.

Lemma children_of_NoDup procs parent : NoDup (children_of procs parent).
Proof.
  unfold children_of. eapply sublist_NoDup; [apply (NoDup_fst_map_to_list procs)|]. apply fmap_sublist, sublist_filter.
Qed.

(** What the walk knows between two rounds. *)
Record Walk (procs : gmap N Proc) (root : N) (pending : list N) (found : gset N) : Prop := {
  walk_sound : forall pid, pid ∈ found -> tc (child_of procs) root pid;
  walk_pending : forall pid, pid ∈ pending -> pid = root \/ pid ∈ found;
  walk_listed : found ⊆ dom procs;
  walk_closed : forall pid, pid = root \/ pid ∈ found -> pid ∈ pending \/ forall c, child_of procs pid c -> c ∈ found;
}.

Lemma walk_round procs root parent pending found :
  let new := filter (fun pid => pid ∉ found) (children_of procs parent) in
  Walk procs root (parent :: pending) found ->
  Walk procs root (new ++ pending) (found ∪ list_to_set new)
  /\ size (found ∪ list_to_set new) = (size found + length new)%nat.
Proof.
  intros new [Hs Hp Hl Hc].
  assert (forall c, c ∈ new <-> c ∉ found /\ child_of procs parent c) as Hnew.
  { intros c. unfold new. by rewrite list_elem_of_filter, children_of_spec. }
  split; [split|].
  - intros pid [Hf|Hn]%elem_of_union; [by apply Hs|]. apply elem_of_list_to_set, Hnew in Hn as [_ Hn].
    destruct (Hp parent ltac:(left)) as [->|Hf]; [by apply tc_once|]. eapply tc_r; [by apply Hs|done].
  - intros pid [Hn|Hin]%elem_of_app; [right; apply elem_of_union; right; by apply elem_of_list_to_set|].
    destruct (Hp pid ltac:(by right)) as [?|?]; [by left|right; set_solver].
  - intros pid [Hf|Hn]%elem_of_union; [by apply Hl|]. apply elem_of_list_to_set, Hnew in Hn as [_ (p & Hin & _)].
    by apply elem_of_dom_2 in Hin.
  - intros pid Hpid. destruct (decide (pid ∈ new)) as [Hn|Hn]; [left; apply elem_of_app; by left|].
    assert (pid = root \/ pid ∈ found) as Hold by set_solver.
    destruct (Hc pid Hold) as [[->|Hin]%elem_of_cons|Hcl].
    + right. intros c Hcc. destruct (decide (c ∈ found)) as [?|Hnf]; [set_solver|].
      apply elem_of_union. right. apply elem_of_list_to_set, Hnew. done.
    + left. apply elem_of_app. by right.
    + right. intros c Hcc. apply Hcl in Hcc. set_solver.
  - rewrite size_union by set_solver. rewrite size_list_to_set; [done|]. apply NoDup_filter, children_of_NoDup.
Qed.

Lemma walk_ends procs root fuel pending found :
  Walk procs root pending found -> (length pending + (size procs - size found) <= fuel)%nat ->
  Walk procs root [] (descend fuel (children_of procs) pending found).
Proof.
  revert pending found. induction fuel as [|fuel IH]; intros pending found HW Hf.
  - destruct pending; [done|cbn in Hf; lia].
  - destruct pending as [|parent pending]; [done|]. cbn [descend]. destruct (walk_round _ _ _ _ _ HW) as [HW' Hsize].
    apply IH; [done|]. rewrite Hsize, length_app. cbn in Hf.
    pose proof (subseteq_size _ _ (walk_listed _ _ _ _ HW')) as Hle. rewrite size_dom, Hsize in Hle. lia.
Qed.

(** C21: the walk over a listing computes its meaning: a pid is found exactly
    when a chain of parents leads from it to the root, through any number of
    generations and whatever cycles the listing holds; the rounds the walk is
    given are enough. *)
Theorem descendants_are_the_closure procs root pid :
  pid ∈ descendants_in procs root <-> tc (child_of procs) root pid.
Proof.
  assert (Walk procs root [] (descendants_in procs root)) as [Hs _ _ Hc].
  { apply walk_ends; [|cbn; lia]. split; [set_solver|set_solver|set_solver|]. intros x [->|?]; [left; by left|set_solver]. }
  split; [apply Hs|]. intros Ht.
  assert (forall x y, tc (child_of procs) x y -> x = root \/ x ∈ descendants_in procs root -> y ∈ descendants_in procs root) as Hgo.
  { intros x y Hxy. induction Hxy as [x y Hxy|x y z Hxy Hyz IH]; intros Hx.
    - destruct (Hc x Hx) as [?%elem_of_nil|Hcl]; [done|by apply Hcl].
    - apply IH. right. destruct (Hc x Hx) as [?%elem_of_nil|Hcl]; [done|by apply Hcl]. }
  apply (Hgo root); [done|by left].
Qed.
