(* ===== verification/PidFile.v ===== *)
(** * The life of an epoch's pid file

    [chimera-utils/src/process/pid_file.rs], the part that keeps the record on
    disk: [reap_epoch_pid_file], which the runtime store calls for the leftovers
    of an earlier manager, and [PidFileGuard], which a spawned process holds. *)

From S2P Require Export PidReap.
Open Scope rust_scope.
Open Scope act_scope.

Section Files.
Context `{Host_os}.

(** ** Calls on files *)

Definition canonicalize (path : string) : Try string := call (fun w => (os_canonicalize path w, w)).
Definition symlink_metadata (path : string) : Try PidNode :=
  call (fun w => (match w_files w !! path with Some node => Ok node | None => Err no_entry end, w)).
Definition read_to_string (path : string) : Try string :=
  call (fun w =>
    (match w_files w !! path with
     | Some (PnFile contents) => from_utf8 contents "stream did not contain valid UTF-8"
     | Some _ => Err (std_error EkOther "not a regular file")
     | None => Err no_entry
     end, w)).
Definition try_exists (path : string) : Try bool :=
  call (fun w => (Ok (bool_decide (is_Some (w_files w !! path))), w)).
Definition remove_file (path : string) : Try () :=
  call (fun w =>
    match w_files w !! path with
    | Some _ => (Ok tt, with_files (delete path (w_files w)) w)
    | None => (Err no_entry, w)
    end).
Definition already_exists : StdError :=
  {| se_kind := EkAlreadyExists; se_raw := Some 17; se_text := "File exists (os error 17)" |}.
Definition create_new (path : string) : Try () :=
  call (fun w =>
    match w_files w !! path with
    | Some _ => (Err already_exists, w)
    | None => (Ok tt, with_files (<[path := PnFile ""]> (w_files w)) w)
    end).
(** Writing through the handle of a file that was created or opened at the path. *)
Definition overwrite (contents : string) (node : PidNode) : PidNode :=
  match node with PnFile _ => PnFile contents | _ => node end.
Definition write_all (path contents : string) : Try () :=
  call (fun w => (Ok tt, with_files (alter (overwrite contents) path (w_files w)) w)).
Definition sync_all : Try () := call (fun w => (Ok tt, w)).
(** What a symbolic link leads to is not a file of the model. *)
Definition open_truncated (path : string) : Try () :=
  call (fun w =>
    match w_files w !! path with
    | None | Some (PnFile _) => (Ok tt, with_files (<[path := PnFile ""]> (w_files w)) w)
    | Some PnSymlink => (Ok tt, w)
    | Some PnOther => (Err (std_error EkOther "Is a directory (os error 21)"), w)
    end).
Definition hard_link (source target : string) : Try () :=
  call (fun w =>
    match w_files w !! source, w_files w !! target with
    | None, _ => (Err no_entry, w)
    | _, Some _ => (Err already_exists, w)
    | Some node, None => (Ok tt, with_files (<[target := node]> (w_files w)) w)
    end).

(** [atomic_move_new] on a Unix host. *)
Definition atomic_move_new (source target : string) : Try () :=
  try* _ := hard_link source target in
  remove_file source.

(** ** Records on disk *)

Definition read_epoch_pid_file (path : string) : Try (option EpochPidRecord) :=
  do* metadata := symlink_metadata path in
  match metadata with
  | Ok PnSymlink => try_err (invalid_input ("pid file must not be a symlink: " +:+ path))
  | Ok PnOther => try_err (invalid_input ("pid file must be a regular file: " +:+ path))
  | Ok (PnFile _) =>
      try* raw := read_to_string path in
      try_lift (map_ok Some (parse_epoch_record raw))
  | Err error => if decide (se_kind error = EkNotFound) then try_ret None else try_err error
  end.

Definition validate_target (what path : string) : Try () :=
  do* metadata := symlink_metadata path in
  match metadata with
  | Ok PnSymlink => try_err (invalid_input (what +:+ " must not be a symlink: " +:+ path))
  | Ok PnOther => try_err (invalid_input (what +:+ " must be a regular file: " +:+ path))
  | Ok (PnFile _) => try_ret tt
  | Err error => if decide (se_kind error = EkNotFound) then try_ret tt else try_err error
  end.
Definition validate_pid_target : string -> Try () := validate_target "pid file".
Definition validate_runtime_target : string -> Try () := validate_target "runtime config".

(** The derived equality of records; paths compare by component. *)
Definition record_eq (a b : EpochPidRecord) : bool :=
  bool_decide (er_pid a = er_pid b) && bool_decide (er_epoch a = er_epoch b)
  && bool_decide (er_executable a = er_executable b) && bool_decide (er_start_token a = er_start_token b)
  && path_eq (er_runtime_config a) (er_runtime_config b).

Definition remove_record_if_matches (path : string) (expected : EpochPidRecord) : Try () :=
  try* current := read_epoch_pid_file path in
  match current with
  | Some record =>
      if record_eq record expected then
        do* removed := remove_file path in
        match removed with
        | Ok _ => try_ret tt
        | Err error => if decide (se_kind error = EkNotFound) then try_ret tt else try_err error
        end
      else try_ret tt
  | None => try_ret tt
  end.

Definition epoch_from_file_name (path prefix suffix : string) : result N StdError :=
  epoch_from_name (file_name path) prefix suffix.

Definition parent_or (path message : string) : result string StdError :=
  ok_or (parent path) (invalid_input message).

(** [reap_epoch_pid_file] behind the reading of the record. *)
Definition reap_validated (path runtime_dir : string) (epoch : N) (record : EpochPidRecord) : Try OrphanReapOutcome :=
  if decide (er_epoch record <> epoch) then try_err (invalid_data "pid filename and embedded epoch differ")
  else
    try* runtime_parent := try_lift (parent_or (er_runtime_config record) "runtime config has no parent directory") in
    try* runtime_parent := canonicalize runtime_parent in
    if negb (path_eq runtime_parent runtime_dir)
    then try_err (invalid_input "runtime config escapes the runtime directory")
    else
      try* runtime_epoch := try_lift (epoch_from_file_name (er_runtime_config record) "config-" ".yaml") in
      if decide (runtime_epoch <> epoch)
      then try_err (invalid_data "runtime config filename and embedded epoch differ")
      else
        try* _ := validate_runtime_target (er_runtime_config record) in
        try* outcome := reap_record record in
        try* _ := remove_record_if_matches path record in
        try_ret outcome.

Definition reap_epoch_pid_file (path runtime_dir : string) : Try OrphanReapOutcome :=
  try* runtime_dir := canonicalize runtime_dir in
  try* parent := try_lift (parent_or path "pid file has no parent directory") in
  try* parent := canonicalize parent in
  if negb (path_eq parent runtime_dir) then try_err (invalid_input "pid file escapes the runtime directory")
  else
    try* epoch := try_lift (epoch_from_file_name path "core-" ".pid") in
    try* record := read_epoch_pid_file path in
    match record with
    | None => try_ret ReapNotFound
    | Some record => reap_validated path runtime_dir epoch record
    end.

(** ** The guard of a spawned process *)

Definition normalize_epoch_spec (spec : EpochPidFile) : Try EpochPidFile :=
  try* pid_epoch := try_lift (epoch_from_file_name (ep_path spec) "core-" ".pid") in
  try* config_epoch := try_lift (epoch_from_file_name (ep_runtime_config spec) "config-" ".yaml") in
  if decide (pid_epoch <> ep_epoch spec \/ config_epoch <> ep_epoch spec)
  then try_err (invalid_input "epoch pid/config filenames must match the requested epoch")
  else
    try* pid_parent := try_lift (parent_or (ep_path spec) "pid file has no parent directory") in
    try* config_parent := try_lift (parent_or (ep_runtime_config spec) "runtime config has no parent directory") in
    try* pid_parent := canonicalize pid_parent in
    try* config_parent := canonicalize config_parent in
    if negb (path_eq pid_parent config_parent)
    then try_err (invalid_input "epoch pid and runtime config must share one directory")
    else
      try* _ := validate_runtime_target (ep_runtime_config spec) in
      try_ret {| ep_path := path_join pid_parent ("core-" +:+ show_N (ep_epoch spec) +:+ ".pid");
                 ep_epoch := ep_epoch spec;
                 ep_runtime_config := path_join config_parent ("config-" +:+ show_N (ep_epoch spec) +:+ ".yaml") |}.

Definition validate_record_for_spec (record : EpochPidRecord) (spec : EpochPidFile) (expected_exe : string)
    : result () StdError :=
  if decide (er_epoch record <> ep_epoch spec) then
    Err (identity_error ("pid file belongs to epoch " +:+ show_N (er_epoch record) +:+ ", not "
                         +:+ show_N (ep_epoch spec)))
  else if negb (path_eq (er_runtime_config record) (ep_runtime_config spec)) then
    Err (identity_error "pid record runtime config does not match the requested epoch")
  else if negb (exe_names_equal (er_executable record) expected_exe) then
    Err (identity_error ("pid record executable `" +:+ er_executable record +:+ "` does not match `"
                         +:+ expected_exe +:+ "`"))
  else Ok tt.

(** [Path::with_extension]: what stands in front of the last dot of the file
    name stays. *)
Definition with_extension (path extension : string) : string :=
  match file_name path with
  | None => path
  | Some name =>
      let dir := match rsplit_once name path with Some (dir, _) => dir | None => "" end in
      let stem := match rsplit_once "." name with
                  | Some (before, _) => if decide (before = "") then name else before
                  | None => name
                  end in
      dir +:+ stem +:+ "." +:+ extension
  end.

(** [TEMP_COUNTER.fetch_add]. *)
Definition next_temp : Act N := fun w => (w_counter w, with_counter ((w_counter w + 1) mod u64_modulus) w).

Definition write_epoch_record (path : string) (record : EpochPidRecord) : Try () :=
  try* _ := validate_pid_target path in
  try* exists_ := try_exists path in
  let unexpected := std_error EkAlreadyExists ("pid file unexpectedly exists: " +:+ path) in
  if exists_ : bool then try_err unexpected
  else
    do* counter := next_temp in
    let temp := with_extension path ("pid.tmp-" +:+ show_N os_process_id +:+ "-" +:+ show_N counter) in
    do* result :=
      try* _ := create_new temp in
      try* _ := write_all temp (serialize_epoch_record record) in
      try* _ := sync_all in
      do* moved := atomic_move_new temp path in
      match moved with
      | Ok _ => try_ret tt
      | Err error => if decide (se_kind error = EkAlreadyExists) then try_err unexpected else try_err error
      end in
    do* _ := remove_file temp in
    act_ret result.

Inductive PidFileGuard :=
| GuardLegacy (path : string) (pid : N)
| GuardEpoch (spec : EpochPidFile) (expected_exe : string) (record : option EpochPidRecord).

Definition prepare_legacy (path : string) : Try PidFileGuard :=
  try* _ := validate_pid_target path in
  try_ret (GuardLegacy path 0).

Definition prepare_epoch (spec : EpochPidFile) (expected_exe : string) : Try PidFileGuard :=
  try* spec := normalize_epoch_spec spec in
  try* _ := validate_pid_target (ep_path spec) in
  try* left_over := read_epoch_pid_file (ep_path spec) in
  try* _ :=
    match left_over with
    | Some record =>
        try* _ := try_lift (validate_record_for_spec record spec expected_exe) in
        try* _ := reap_record record in
        remove_record_if_matches (ep_path spec) record
    | None => try_ret tt
    end in
  try_ret (GuardEpoch spec expected_exe None).

(** The loop of [wait_for_process_identity]. *)
Fixpoint wait_attempts (attempts : nat) (pid : N) (expected_exe : string)
    (observed : option ProcessIdentity) (access_error : option StdError) : Try (option ProcessIdentity) :=
  match attempts with
  | O =>
      match observed, access_error with
      | Some identity, _ => try_ret (Some identity)
      | None, Some error => try_err error
      | None, None => try_ret None
      end
  | S attempts =>
      do* r := process_identity pid in
      match r with
      | Ok (Some identity) =>
          if match pi_executable identity with
             | Some executable => exe_names_equal executable expected_exe
             | None => false
             end
          then try_ret (Some identity)
          else wait_attempts attempts pid expected_exe (Some identity) access_error
      | Ok None => wait_attempts attempts pid expected_exe observed access_error
      | Err error =>
          if identity_query_is_provisional error
          then wait_attempts attempts pid expected_exe observed (Some error)
          else try_err error
      end
  end.
Definition wait_for_process_identity (pid : N) (expected_exe : string) : Try (option ProcessIdentity) :=
  wait_attempts IDENTITY_WAIT_ATTEMPTS pid expected_exe None None.

(** [write]: the guard behind it. *)
Definition guard_write (guard : PidFileGuard) (pid : N) : Try PidFileGuard :=
  match guard with
  | GuardLegacy path _ =>
      try* _ := open_truncated path in
      try* _ := write_all path (show_N pid) in
      try_ret (GuardLegacy path pid)
  | GuardEpoch spec expected_exe _ =>
      try* identity := wait_for_process_identity pid expected_exe in
      try* identity := try_lift (ok_or identity
        (identity_error ("spawned pid " +:+ show_N pid +:+ " disappeared before recording"))) in
      try* executable := try_lift (ok_or (pi_executable identity)
        (identity_error ("cannot resolve executable for spawned pid " +:+ show_N pid))) in
      if negb (exe_names_equal executable expected_exe) then
        try_err (identity_error ("spawned pid " +:+ show_N pid +:+ " executable `" +:+ executable
                                 +:+ "` does not match `" +:+ expected_exe +:+ "`"))
      else
        let value := {| er_pid := pid; er_epoch := ep_epoch spec; er_executable := executable;
                        er_start_token := pi_start_token identity; er_runtime_config := ep_runtime_config spec |} in
        try* _ := write_epoch_record (ep_path spec) value in
        try_ret (GuardEpoch spec expected_exe (Some value))
  end.

(** [get_pid_from_file] of [os/mod.rs]. *)
Definition get_pid_from_file (path : string) : Act (option N) :=
  do* content := read_to_string path in
  act_ret (from_str_radix 10 (2 ^ 32) (trim (match content with Ok content => content | Err _ => "" end))).

(** [cleanup]: what it logs, if anything. *)
Definition guard_cleanup (guard : PidFileGuard) : Act (option string) :=
  do* result :=
    match guard with
    | GuardLegacy path pid =>
        do* current := get_pid_from_file path in
        if decide (current <> Some pid) then try_ret tt else remove_file path
    | GuardEpoch spec _ record =>
        match record with
        | Some value => remove_record_if_matches (ep_path spec) value
        | None => try_ret tt
        end
    end in
  act_ret match result with
          | Err error =>
              if decide (se_kind error = EkNotFound) then None
              else Some ("failed to remove pid file: " +:+ se_text error)
          | Ok _ => None
          end.

End Files.
