(* ===== verification/PidSafety.v ===== *)
(** * Whom a reap kills, and what its outcome proves

    Theorems on [PidReap.v].  The host is arbitrary within [Later]: it may
    end processes, start others under the same numbers and change files between
    any two system calls, but no process comes back, and no two processes of one
    pid share a start token.  Signals hit the recorded process and listed
    descendants only.  What an outcome proves is said in [PidDeath]. *)

From S2P Require Export PidFile.
Open Scope rust_scope.
Open Scope act_scope.

(** ** The host between two calls *)

(** The same process at two moments.  Its executable may be renamed, removed or
    replaced in between, and its parent may change. *)
Definition same_proc (p p' : Proc) : Prop :=
  pr_id p' = pr_id p /\ pr_ticks p' = pr_ticks p /\ (gone p = true -> gone p' = true).

Record Later (w w' : World) : Prop := {
  later_seen : forall x, x ∈ w_seen w -> x ∈ w_seen w';
  later_moments : exists new, w_moments w' = new ++ w_moments w;
  later_procs : forall pid p', w_procs w' !! pid = Some p' ->
    (exists p, w_procs w !! pid = Some p /\ same_proc p p')
    \/ (forall pid' t, (pid', pr_id p', t) ∉ w_seen w);
}.

(** A token belongs to one process of its pid, and a number to one process. *)
Record Valid (token : N -> N) (w : World) : Prop := {
  valid_seen : forall pid p, w_procs w !! pid = Some p -> (pid, pr_id p, pr_ticks p) ∈ w_seen w;
  valid_ticks : forall pid p, w_procs w !! pid = Some p -> pr_ticks p < u64_modulus;
  valid_ids : forall pid pid' id t t', (pid, id, t) ∈ w_seen w -> (pid', id, t') ∈ w_seen w -> pid = pid' /\ t = t';
  valid_tokens : forall pid id id' t t', (pid, id, t) ∈ w_seen w -> (pid, id', t') ∈ w_seen w ->
    token t = token t' -> id = id';
}.

Section Safety.
Context `{Host_os}.

(** The start token of a process of this boot. *)
Definition token (ticks : N) : N := boot_bound_start_token (trim os_boot_id) ticks.

Notation Valid := (Valid token).

(** What is assumed of the host: its steps are evolutions, [/proc/<pid>/stat]
    carries the start time, and a call that fails does not fail with the answers
    the kernel gives about processes; a signal may be refused at any call
    ([os_refused]).  Nothing is assumed of the executables of processes. *)
Record HostOk : Prop := {
  host_valid : forall n w, Valid w -> Valid (os_env n w);
  host_later : forall n w, Valid w -> Later w (os_env n w);
  host_ghosts : forall n w, w_signalled (os_env n w) = w_signalled w /\ w_moments (os_env n w) = w_moments w;
  host_stat : forall pid p, pr_ticks p < u64_modulus -> parse_stat pid (os_stat pid p) = Ok (pr_ticks p);
  host_faults : forall n e, os_fault n = Some e ->
    se_kind e <> EkNotFound /\ se_kind e <> EkPermissionDenied /\ se_raw e <> Some ENOSYS;
}.
Context (host : HostOk).

Lemma same_refl p : same_proc p p.
Proof. by repeat split; auto. Qed.
Lemma later_refl w : Later w w.
Proof. split; [done|by exists []|]. intros pid p Hp. left. exists p. split; [done|apply same_refl]. Qed.

Lemma later_of_same w w' :
  w_seen w' = w_seen w -> w_procs w' = w_procs w -> (exists new, w_moments w' = new ++ w_moments w) -> Later w w'.
Proof.
  intros Hs Hp Hm. split; [by rewrite Hs|done|]. rewrite Hp. intros pid p Hpp. left. exists p. split; [done|apply same_refl].
Qed.

Lemma later_trans w1 w2 w3 : Later w1 w2 -> Later w2 w3 -> Later w1 w3.
Proof.
  intros [Hs12 [n1 Hm1] Hp12] [Hs23 [n2 Hm2] Hp23].
  split; [auto|exists (n2 ++ n1); by rewrite Hm2, Hm1, app_assoc|]. intros pid p3 H3.
  destruct (Hp23 pid p3 H3) as [(p2 & H2 & Hid2 & Ht2 & Hg2)|Hfresh]; [|right; naive_solver].
  destruct (Hp12 pid p2 H2) as [(p1 & H1 & Hid1 & Ht1 & Hg1)|Hfresh].
  - left. exists p1. split; [done|]. split; [congruence|]. split; [congruence|]. auto.
  - right. by rewrite Hid2.
Qed.

(** ** Computations *)

Lemma bind_inv {A B} (m : Act A) (k : A -> Act B) w b w'' :
  act_bind m k w = (b, w'') -> exists a w', m w = (a, w') /\ k a w' = (b, w'').
Proof. unfold act_bind. destruct (m w) as [a w'] eqn:E. eauto. Qed.

Lemma try_inv {A B} (m : Try A) (k : A -> Try B) w r w'' :
  try_bind m k w = (r, w'') ->
  (exists a w', m w = (Ok a, w') /\ k a w' = (r, w'')) \/ (exists e, m w = (Err e, w'') /\ r = Err e).
Proof.
  unfold try_bind. intros ([a|e] & w' & E & Hk)%bind_inv; [left; eauto|right].
  unfold act_ret in Hk. injection Hk as <- <-. eauto.
Qed.

(** A world the computation can leave behind. *)
Definition Run (w w' : World) (new : list N) : Prop :=
  Valid w' /\ Later w w' /\ w_signalled w' = new ++ w_signalled w.

(** All signals of a computation satisfy a property of its first and last world
    that only grows. *)
Definition Grows (P : World -> World -> N -> Prop) : Prop :=
  forall w w1 w2 w' id, Later w w1 -> Later w2 w' -> P w1 w2 id -> P w w' id.
Definition Does (P : World -> World -> N -> Prop) {A} (m : Act A) : Prop :=
  forall w r w', Valid w -> m w = (r, w') -> exists new, Run w w' new /\ Forall (P w w') new.
Definition Nothing (w w' : World) (id : N) : Prop := False.

Lemma grows_nothing : Grows Nothing.
Proof. by intros ?????. Qed.

Lemma does_mono {A} (P Q : World -> World -> N -> Prop) (m : Act A) :
  (forall w w' id, P w w' id -> Q w w' id) -> Does P m -> Does Q m.
Proof.
  intros HPQ Hm w r w' Hv E. destruct (Hm w r w' Hv E) as (new & Hr & Hn). exists new. split; [done|].
  eapply Forall_impl; [done|]. auto.
Qed.

Lemma does_nothing {A} (P : World -> World -> N -> Prop) (m : Act A) : Does Nothing m -> Does P m.
Proof. by apply does_mono. Qed.

Lemma does_ret {A} (P : World -> World -> N -> Prop) (a : A) : Does P (act_ret a).
Proof.
  intros w r w' Hv. unfold act_ret. intros [= <- <-]. exists []. split; [|done].
  split; [done|]. by split; [apply later_refl|].
Qed.

Lemma does_bind {A B} (P : World -> World -> N -> Prop) (m : Act A) (k : A -> Act B) :
  Grows P -> Does P m -> (forall a, Does P (k a)) -> Does P (act_bind m k).
Proof.
  intros HG Hm Hk w r w'' Hv (a & w' & E1 & E2)%bind_inv.
  destruct (Hm w a w' Hv E1) as (new1 & (Hv1 & Hl1 & Hs1) & Hn1).
  destruct (Hk a w' r w'' Hv1 E2) as (new2 & (Hv2 & Hl2 & Hs2) & Hn2).
  exists (new2 ++ new1). split.
  - split; [done|]. split; [by eapply later_trans|]. by rewrite Hs2, Hs1, app_assoc.
  - apply Forall_app. split; (eapply Forall_impl; [done|]); intros id Hid.
    + eapply HG; [exact Hl1|apply later_refl|done].
    + eapply HG; [apply later_refl|exact Hl2|done].
Qed.

Lemma does_try {A B} (P : World -> World -> N -> Prop) (m : Try A) (k : A -> Try B) :
  Grows P -> Does P m -> (forall a, Does P (k a)) -> Does P (try_bind m k).
Proof. intros HG Hm Hk. apply does_bind; [done..|]. intros [a|e]; [apply Hk|apply does_ret]. Qed.

(** A call that changes no process and sends no signal. *)
Definition calm {A} (op : World -> result A StdError * World) : Prop :=
  forall w, let w' := (op w).2 in
  w_procs w' = w_procs w /\ w_seen w' = w_seen w /\ w_moments w' = w_moments w /\ w_signalled w' = w_signalled w.

Lemma env_moves w :
  Valid w -> Valid (env_step_w w) /\ Later w (env_step_w w) /\ w_signalled (env_step_w w) = w_signalled w
  /\ w_moments (env_step_w w) = (w_procs (env_step_w w), w_files (env_step_w w)) :: w_moments w.
Proof.
  intros Hv. destruct (host_valid host (w_now w) w Hv) as [V1 V2 V3 V4].
  destruct (host_ghosts host (w_now w) w) as [Hs Hm]. unfold env_step_w.
  split; [by split|]. split; [|split; [done|cbn; by rewrite Hm]].
  eapply later_trans; [by apply (host_later host (w_now w))|].
  apply later_of_same; [done..|]. by eexists [_].
Qed.

Lemma run_ticked w w2 new :
  Valid w -> w_procs w2 = w_procs (env_step_w w) -> w_seen w2 = w_seen (env_step_w w) ->
  w_moments w2 = w_moments (env_step_w w) -> w_signalled w2 = new ++ w_signalled (env_step_w w) ->
  Run w (tick w2) new.
Proof.
  intros Hv Hp Hs Hm Hsig. destruct (env_moves w Hv) as ([V1 V2 V3 V4] & Hl & Hg & _). rewrite Hg in Hsig.
  split; [split; cbn; rewrite ?Hp, ?Hs; auto|]. split; [|done].
  eapply later_trans; [exact Hl|]. apply later_of_same; [done..|]. exists []. cbn. by rewrite Hm.
Qed.

(** The worlds of one call: what it reads is the host's state at some moment of
    it. *)
Lemma call_inv {A} (op : World -> result A StdError * World) w r w' :
  Valid w -> call op w = (r, w') -> calm op ->
  Run w w' []
  /\ ((exists e, r = Err e /\ se_kind e <> EkNotFound /\ se_kind e <> EkPermissionDenied /\ se_raw e <> Some ENOSYS)
      \/ exists wm, Valid wm /\ Later w wm /\ Later wm w' /\ r = (op wm).1
           /\ w_moments w' = (w_procs wm, w_files wm) :: w_moments w).
Proof.
  intros Hv Hc Hop. unfold call in Hc. destruct (env_moves w Hv) as (Hv1 & Hl1 & _ & Hm1).
  set (w1 := env_step_w w) in *. destruct (os_fault (w_now w1)) as [e|] eqn:Ef.
  - injection Hc as <- <-. split; [by apply run_ticked|]. left. exists e. split; [done|]. by apply (host_faults host _ _ Ef).
  - destruct (op w1) as [r' w2] eqn:Eo. injection Hc as <- <-.
    pose proof (Hop w1) as (Hp & Hs & Hm & Hsig). rewrite Eo in Hp, Hs, Hm, Hsig. cbn in *.
    split; [by apply run_ticked|]. right. exists w1. rewrite Eo. split; [done|]. split; [done|].
    split; [|split; [done|cbn; by rewrite Hm]]. apply later_of_same; [done..|]. exists []. cbn. by rewrite Hm.
Qed.

Lemma does_call {A} (op : World -> result A StdError * World) : calm op -> Does Nothing (call op).
Proof. intros Hop w r w' Hv Hc. exists []. split; [|done]. by apply (call_inv op w r w' Hv Hc Hop). Qed.

(** ** Identities *)

Ltac later := solve [eauto 7 using later_trans].

Lemma calm_read {A} (f : World -> result A StdError) : calm (fun w => (f w, w)).
Proof. by intros w. Qed.

Lemma does_start_ticks pid : Does Nothing (linux_start_ticks pid).
Proof.
  apply does_bind; [apply grows_nothing|apply does_call, calm_read|]. intros [stat|e].
  - apply does_try; [apply grows_nothing|apply does_ret|]. intros a. apply does_ret.
  - case_decide; apply does_ret.
Qed.

Lemma does_confirm_identity pid first path : Does Nothing (confirm_identity pid first path).
Proof.
  apply does_try; [apply grows_nothing|apply does_start_ticks|]. intros [second|]; [|apply does_ret].
  case_decide; [apply does_ret|]. apply does_try; [apply grows_nothing|apply does_ret|]. intros exe.
  apply does_try; [apply grows_nothing|apply does_call, calm_read|]. intros boot. apply does_ret.
Qed.

Lemma does_identity pid : Does Nothing (process_identity pid).
Proof.
  unfold process_identity. apply does_try; [apply grows_nothing|apply does_start_ticks|]. intros [first|]; [|apply does_ret].
  apply does_bind; [apply grows_nothing|apply does_call, calm_read|].
  intros [path|e]; [apply does_confirm_identity|].
  case_decide; [apply does_ret|]. case_decide; [apply does_confirm_identity|apply does_ret].
Qed.

(** A computation without signals only moves on. *)
Lemma nothing_run {A} (m : Act A) w r w' : Does Nothing m -> Valid w -> m w = (r, w') -> Run w w' [].
Proof.
  intros Hm Hv E. destruct (Hm w r w' Hv E) as (new & Hr & Hn). destruct new as [|id new]; [done|].
  by apply Forall_cons_1 in Hn as [[] _].
Qed.

Lemma start_ticks_inv pid w r w' :
  Valid w -> linux_start_ticks pid w = (Ok r, w') ->
  exists wm, Valid wm /\ Later w wm /\ Later wm w'
    /\ match r with
       | Some ticks => exists p, w_procs wm !! pid = Some p /\ pr_ticks p = ticks
       | None => w_procs wm !! pid = None
       end.
Proof.
  intros Hv (a & w1 & E1 & E2)%bind_inv.
  apply (call_inv _ w a w1 Hv) in E1 as (_ & [(e & -> & He & _)|(wm & Hvm & Hl & Hl' & -> & _)]); [| |apply calm_read].
  - rewrite decide_False in E2 by done. by injection E2.
  - cbn in E2. destruct (w_procs wm !! pid) as [p|] eqn:Ep.
    + rewrite (host_stat host) in E2 by (by apply (valid_ticks _ _ Hvm pid)). injection E2 as <- <-. exists wm. eauto 10.
    + rewrite decide_True in E2 by done. injection E2 as <- <-. exists wm. eauto 10.
Qed.

Lemma seen_proc w pid p : Valid w -> w_procs w !! pid = Some p -> (pid, pr_id p, pr_ticks p) ∈ w_seen w.
Proof. intros Hv. by apply (valid_seen token). Qed.

Lemma same_ticks w w' pid p p' :
  Valid w -> Valid w' -> Later w w' -> w_procs w !! pid = Some p -> w_procs w' !! pid = Some p' -> pr_ticks p = pr_ticks p' ->
  pr_id p = pr_id p'.
Proof.
  intros Hv Hv' Hl Hp Hp' Ht. eapply (valid_tokens _ _ Hv'); [by apply (later_seen _ _ Hl), seen_proc|by apply seen_proc|].
  by rewrite Ht.
Qed.

(** A process that is met again was there in between. *)
Lemma met_between w1 w2 w3 pid p1 p2 p3 :
  Valid w1 -> Later w1 w2 -> Later w2 w3 -> w_procs w1 !! pid = Some p1 -> w_procs w2 !! pid = Some p2 ->
  w_procs w3 !! pid = Some p3 -> pr_id p1 = pr_id p3 -> pr_id p2 = pr_id p3.
Proof.
  intros Hv Hl12 Hl23 Hp1 Hp2 Hp3 Hid. destruct (later_procs _ _ Hl23 pid p3 Hp3) as [(p & Hp & Hsame)|Hfresh].
  - rewrite Hp2 in Hp. injection Hp as <-. symmetry. apply Hsame.
  - exfalso. apply (Hfresh pid (pr_ticks p1)), (later_seen _ _ Hl12). rewrite <- Hid. by apply seen_proc.
Qed.

(** No process that was ever seen by [w] holds the pid alive in [w']. *)
Definition Ended (pid : N) (w w' : World) : Prop :=
  forall id t p, (pid, id, t) ∈ w_seen w -> w_procs w' !! pid = Some p -> pr_id p = id -> gone p = true.

Lemma ended_later pid w wm w' : Ended pid w wm -> Later w wm -> Later wm w' -> Ended pid w w'.
Proof.
  intros He Hl Hl' id t p Hs Hp Hid. destruct (later_procs _ _ Hl' pid p Hp) as [(p0 & Hp0 & Hid0 & _ & Hg)|Hfresh].
  - apply Hg. eapply (He id t); [done..|congruence].
  - exfalso. apply (Hfresh pid t), (later_seen _ _ Hl). by rewrite Hid.
Qed.

(** What an identity says: the process it was read from, at the moment its
    executable was read ([pe]) and behind it ([p]). *)
Record Identified (pid : N) (w w' : World) (identity : ProcessIdentity) (we wm : World) (pe p : Proc) : Prop := {
  id_valid : Valid we /\ Valid wm;
  id_later : Later w we /\ Later we wm /\ Later wm w';
  id_procs : w_procs we !! pid = Some pe /\ w_procs wm !! pid = Some p;
  id_same : pr_id pe = pr_id p;
  id_token : pi_start_token identity = token (pr_ticks p);
  id_legacy : pi_legacy_start_token identity = None;
  id_exe : pi_executable identity = match pr_exe pe with Ok path => file_name path | Err _ => None end;
  id_kind : match pr_exe pe with Ok path => is_Some (file_name path) | Err e => se_kind e = EkPermissionDenied end;
}.

Lemma identity_inv pid w r w' :
  Valid w -> process_identity pid w = (Ok r, w') ->
  match r with
  | None => Ended pid w w'
  | Some identity => exists we wm pe p, Identified pid w w' identity we wm pe p
  end.
Proof.
  intros Hv [(first & w1 & E1 & E)|(? & ? & [=])]%try_inv.
  destruct (start_ticks_inv _ _ _ _ Hv E1) as (wa & Hva & Hla & Hla' & Hfirst).
  destruct (nothing_run _ _ _ _ (does_start_ticks pid) Hv E1) as (Hv1 & Hl1 & _).
  destruct first as [first|].
  2: { injection E as <- <-. intros id t p Hs Hp Hid.
       destruct (later_procs _ _ Hla' pid p Hp) as [(p0 & Hp0 & _)|Hfresh]; [congruence|].
       exfalso. apply (Hfresh pid t), (later_seen _ _ Hla). by rewrite Hid. }
  destruct Hfirst as (p1 & Hp1 & Ht1). apply bind_inv in E as (exe & w2 & E2 & E).
  destruct (nothing_run _ _ _ _ (does_call _ (calm_read _)) Hv1 E2) as (Hv2 & Hl2 & _).
  apply (call_inv _ w1 exe w2 Hv1) in E2 as (_ & Hexe); [|apply calm_read].
  assert (Later w w2) as Hl02 by later.
  (* the part behind the executable *)
  assert (forall we pe path,
    Valid we -> Later w1 we -> Later we w2 -> w_procs we !! pid = Some pe ->
    match path with Some path => pr_exe pe = Ok path | None => exists e, pr_exe pe = Err e /\ se_kind e = EkPermissionDenied end ->
    confirm_identity pid first path w2 = (Ok r, w') ->
    match r with
    | None => Ended pid w w'
    | Some identity => exists we wm pe p, Identified pid w w' identity we wm pe p
    end) as Hgo.
  { intros we pe path Hve Hle Hle' Hpe Hpath [(second & w3 & E3 & E3')|(? & ? & [=])]%try_inv.
    destruct (start_ticks_inv _ _ _ _ Hv2 E3) as (wm & Hvm & Hlm & Hlm' & Hsecond).
    assert (Later w wm) as Hl0m by later.
    destruct second as [second|].
    2: { injection E3' as <- <-. apply (ended_later pid w wm); [|done..]. intros id t p _ Hp. congruence. }
    destruct Hsecond as (p & Hp & Ht). case_decide as Hne.
    { injection E3' as <- <-. apply (ended_later pid w wm); [|done..]. intros id t q Hs Hq Hid.
      rewrite Hp in Hq. injection Hq as <-.
      assert (Later wa wm) as Hlam by later.
      destruct (later_procs _ _ Hlam pid p Hp) as [(q & Hq & _ & Hqt & _)|Hfresh].
      - exfalso. apply Hne. rewrite Hp1 in Hq. congruence.
      - exfalso. apply (Hfresh pid t), (later_seen _ _ Hla). by rewrite Hid. }
    subst second.
    apply try_inv in E3' as [(executable & w4 & E4 & E4')|(? & ? & [=])]. injection E4 as Eexe <-.
    apply try_inv in E4' as [(boot & w5 & E5 & E5')|(? & ? & [=])]. injection E5' as <- <-.
    destruct (nothing_run _ _ _ _ (does_start_ticks pid) Hv2 E3) as (Hv3 & _ & _).
    destruct (call_inv _ w3 (Ok boot) w5 Hv3 E5) as ((_ & Hl5 & _) & Hboot); [apply calm_read|].
    assert (boot = os_boot_id) as -> by (destruct Hboot as [(? & [=] & _)|(? & _ & _ & _ & [=] & _)]; done).
    exists we, wm, pe, p. split; cbn; try done.
    - split; [later|]. split; [later|later].
    - eapply (met_between wa we wm pid p1 pe p); [done|later|later|done..|].
      eapply (same_ticks wa wm); [done|done| |done|done|congruence]. later.
    - unfold token. by rewrite Ht.
    - destruct path as [path|]; [rewrite Hpath|destruct Hpath as (e & -> & _)]; [|by injection Eexe].
      by destruct (file_name path); [injection Eexe as <-|].
    - destruct path as [path|]; [rewrite Hpath|by destruct Hpath as (e & -> & ->)].
      destruct (file_name path); [by eexists|done]. }
  destruct exe as [path|e].
  - destruct Hexe as [(? & [=] & _)|(we & Hve & Hle & Hle' & Hr & _)].
    destruct (w_procs we !! pid) as [pe|] eqn:Epe; [|done]. cbn in Hr. by eapply (Hgo we pe (Some path)).
  - case_decide as Hnf.
    { injection E as <- <-. destruct Hexe as [(? & [= <-] & ? & _)|(we & Hve & Hle & Hle' & Hr & _)]; [done|].
      apply (ended_later pid w we); [|later|done]. intros id t p _ Hp _. cbn in Hr. rewrite Hp in Hr.
      unfold gone. rewrite <- Hr. by rewrite bool_decide_true. }
    case_decide as Hpd; [|done].
    destruct Hexe as [(? & [= <-] & _ & ? & _)|(we & Hve & Hle & Hle' & Hr & _)]; [done|]. cbn in Hr.
    destruct (w_procs we !! pid) as [pe|] eqn:Epe; [|by injection Hr as ->].
    by eapply (Hgo we pe None); eauto.
Qed.

(** ** Signals *)

(** The process a record names. *)
Definition Recorded (record : EpochPidRecord) (w : World) (id : N) : Prop :=
  exists t, (er_pid record, id, t) ∈ w_seen w /\ token t = er_start_token record.
Lemma grows_recorded record : Grows (fun _ w' id => Recorded record w' id).
Proof. intros w w1 w2 w' id _ Hl (t & Hs & Ht). exists t. split; [by apply (later_seen _ _ Hl)|done]. Qed.

Lemma listed_spec id w : listed id w = true -> exists pid p, w_procs w !! pid = Some p /\ pr_id p = id.
Proof.
  unfold listed. intros (p & Hp & Hid%N.eqb_eq)%existsb_exists. apply in_map_iff in Hp as ([pid p'] & <- & Hp).
  apply list_elem_of_In, elem_of_map_to_list in Hp. by exists pid, p'.
Qed.

(** Why a signal was not sent. *)
Definition signal_error (w : World) : StdError := if os_refused (w_now w) then not_permitted else no_process.

Lemma signal_call_inv (sel : World -> option N) (e : World -> StdError) w r w' :
  Valid w ->
  call (fun w => match sel w with Some id => (Ok tt, with_signal id w) | None => (Err (e w), w) end) w = (r, w') ->
  Run w w' []
  \/ exists wm id, Valid wm /\ Later w wm /\ Later wm w' /\ sel wm = Some id /\ Run w w' [id].
Proof.
  intros Hv Hc. unfold call in Hc. destruct (env_moves w Hv) as (Hv1 & Hl1 & _ & Hm1).
  set (w1 := env_step_w w) in *.
  destruct (os_fault (w_now w1)) as [e'|]; [injection Hc as <- <-; left; by apply run_ticked|].
  destruct (sel w1) as [id|] eqn:Es; injection Hc as <- <-.
  - right. exists w1, id. split; [done|]. split; [done|]. split; [|split; [done|by apply run_ticked]].
    apply later_of_same; [done..|by exists []].
  - left. by apply run_ticked.
Qed.

Lemma pidfd_kill_inv id w r w' :
  Valid w -> pidfd_kill id w = (r, w') ->
  Run w w' []
  \/ exists wm pid p, Valid wm /\ Later w wm /\ Later wm w' /\ w_procs wm !! pid = Some p /\ pr_id p = id /\ Run w w' [id].
Proof.
  intros Hv (a & w1 & E & E')%bind_inv.
  assert (w1 = w') as ->.
  { destruct a as [?|e]; [by injection E'|]. case_decide; by injection E'. }
  pose (sel w := if os_refused (w_now w) then None else if listed id w then Some id else None).
  assert (call (fun w => match sel w with
                         | Some id => (Ok tt, with_signal id w)
                         | None => (Err (signal_error w), w)
                         end) w = (a, w')) as Ec.
  { rewrite <- E. unfold call, sel, signal_error. set (w2 := env_step_w w). destruct (os_fault (w_now w2)); [done|].
    destruct (os_refused (w_now w2)); [done|]. by destruct (listed id w2). }
  apply (signal_call_inv sel signal_error) in Ec; [|done].
  destruct Ec as [?|(wm & id' & Hvm & Hl & Hl' & Hs & Hr)]; [by left|right]. unfold sel in Hs.
  destruct (os_refused (w_now wm)); [done|]. destruct (listed id wm) eqn:El; [|done]. injection Hs as <-. apply listed_spec in El as (pid & p & Hp & Hid).
  by exists wm, pid, p.
Qed.

Lemma match_same record identity :
  record_matches_identity record identity = true -> er_start_token record = pi_start_token identity.
Proof.
  unfold record_matches_identity, compare_identity. intros Hm%bool_decide_eq_true. case_decide; [done|].
  by case_decide as Ht.
Qed.

Lemma does_kill record :
  os_pidfds = true -> Does (fun _ w' id => Recorded record w' id) (kill_recorded_process record).
Proof.
  intros Hfd w r w' Hv (fd & w1 & E1 & E)%bind_inv.
  destruct (nothing_run _ _ _ _ (does_call _ (calm_read _)) Hv E1) as (Hv1 & Hl1 & Hs1).
  assert (forall w'', Run w1 w'' [] -> exists new, Run w w'' new /\ Forall (Recorded record w'') new) as Hquiet.
  { intros w'' (Hv'' & Hl'' & Hs''). exists []. split; [|done]. split; [done|]. split; [later|]. cbn in *. congruence. }
  apply (call_inv _ w fd w1 Hv) in E1 as (_ & Hopen); [|apply calm_read]. rewrite Hfd in Hopen.
  destruct fd as [fd|e].
  2: { rewrite decide_False in E.
       - injection E as <- <-. apply Hquiet. split; [done|]. by split; [apply later_refl|].
       - destruct Hopen as [(? & [= <-] & _ & _ & ?)|(wo & _ & _ & _ & Hr & _)]; [done|].
         cbn in Hr. destruct (_ !! _); [done|]. by injection Hr as ->. }
  destruct Hopen as [(? & [=] & _)|(wo & Hvo & Hlo & Hlo' & Hr & _)]. cbn in Hr.
  destruct (w_procs wo !! er_pid record) as [p0|] eqn:Hp0; [|done]. injection Hr as ->.
  apply try_inv in E as [(identity & w2 & E2 & E)|(e & E2 & ->)].
  2: { apply Hquiet. by apply (nothing_run _ _ _ _ (does_identity _) Hv1 E2). }
  destruct (nothing_run _ _ _ _ (does_identity _) Hv1 E2) as (Hv2 & Hl2 & Hs2).
  apply identity_inv in E2; [|done].
  assert (Run w1 w2 []) as Hr12 by (by split; [|split]).
  destruct identity as [identity|]; [|by injection E as <- <-; apply Hquiet].
  apply try_inv in E as [(? & ? & [= <- <-] & E)|(? & [=] & _)].
  destruct (record_matches_identity record identity) eqn:Em; cbn [negb] in E; [|by injection E as <- <-; apply Hquiet].
  apply match_same in Em. destruct E2 as (we & wm & pe & p & [Hvs (Hle & Hle' & Hlm') (Hpe & Hp) _ Htok _ _ _]).
  destruct (pidfd_kill_inv _ _ _ _ Hv2 E) as [(Hv' & Hl' & Hs')|(wk & pid & q & Hvk & Hlk & Hlk' & Hq & Hqid & (Hv' & Hl' & Hs'))].
  { apply Hquiet. split; [done|]. split; [later|]. cbn in *. congruence. }
  exists [pr_id p0]. split; [split; [done|split; [later|cbn in *; congruence]]|]. constructor; [|done].
  assert (Later wo wm) as Hom by later. assert (Later wm wk) as Hmk by later.
  assert ((er_pid record, pr_id p0, pr_ticks p0) ∈ w_seen wk) as Hs0.
  { apply (later_seen _ _ Hmk), (later_seen _ _ Hom). by apply seen_proc. }
  assert ((pid, pr_id q, pr_ticks q) ∈ w_seen wk) as Hsq by by apply seen_proc.
  rewrite Hqid in Hsq. destruct (valid_ids _ _ Hvk _ _ _ _ _ Hsq Hs0) as [-> _].
  assert (pr_id p = pr_id p0) as Hid.
  { rewrite <- Hqid. eapply (met_between wo wm wk); [exact Hvo|done|done|exact Hp0|done|done|done]. }
  assert (Valid wm) as Hvm by apply Hvs.
  exists (pr_ticks p). split; [|congruence].
  rewrite <- Hid. apply (later_seen _ _ Hlk'), (later_seen _ _ Hmk). by apply seen_proc.
Qed.

(** ** Reaping *)

Lemma does_identity_attempts attempts pid seen : Does Nothing (identity_attempts attempts pid seen).
Proof.
  revert seen. induction attempts as [|attempts IH]; intros seen; [apply does_ret|]. cbn [identity_attempts].
  apply does_bind; [apply grows_nothing|apply does_identity|]. intros [identity|e]; [apply does_ret|].
  destruct (identity_query_is_provisional e); [apply IH|apply does_ret].
Qed.

Lemma does_confirm_death attempts record b ke ie : Does Nothing (confirm_death attempts record b ke ie).
Proof.
  revert ie. induction attempts as [|attempts IH]; intros ie; cbn [confirm_death].
  - destruct ke, ie; apply does_ret.
  - apply does_bind; [apply grows_nothing|apply does_identity|]. intros [[identity|]|e].
    + destruct (negb _); [apply does_ret|apply IH].
    + apply does_ret.
    + destruct (identity_query_is_provisional e), b; first [apply does_ret|apply IH].
Qed.

Lemma does_reap_with_kill P record b kill : Grows P -> Does P kill -> Does P (reap_record_with_kill record b kill).
Proof.
  intros HG Hk. apply does_bind; [done|apply does_nothing, does_identity_attempts|]. intros r.
  apply does_try; [done|apply does_ret|]. intros [identity|]; [|apply does_ret].
  destruct (compare_identity _ _); [|apply does_ret|destruct b; apply does_ret].
  apply does_bind; [done|done|]. intros killed. apply does_nothing, does_confirm_death.
Qed.

Lemma does_descendants P record descendants :
  Grows P -> (forall d, d ∈ descendants -> Does P (kill_recorded_process (descendant_record record d))) ->
  Does P (reap_descendants record descendants).
Proof.
  intros HG. induction descendants as [|d ds IH]; intros HP; [apply does_ret|]. cbn [reap_descendants].
  apply does_bind; [done| |].
  - apply does_reap_with_kill; [done|]. apply HP. by left.
  - intros r. apply does_bind; [done|apply IH; intros d' Hd'; apply HP; by right|]. intros [killed failures]. apply does_ret.
Qed.

Lemma does_capture pids : Does Nothing (capture pids).
Proof.
  induction pids as [|pid pids IH]; [apply does_ret|]. cbn [capture].
  apply does_bind; [apply grows_nothing|apply does_identity|]. intros r.
  apply does_bind; [apply grows_nothing|apply IH|]. intros l. apply does_ret.
Qed.

Lemma does_descendant_pids root : Does Nothing (descendant_pids root).
Proof.
  intros w r w' Hv E. unfold descendant_pids in E. injection E as _ <-. exists []. split; [|done].
  by apply (run_ticked w (env_step_w w)).
Qed.

Lemma does_capture_descendants root : Does Nothing (capture_descendants root).
Proof.
  apply does_bind; [apply grows_nothing|apply does_descendant_pids|]. intros first.
  apply does_bind; [apply grows_nothing|apply does_capture|]. intros captured.
  apply does_bind; [apply grows_nothing|apply does_descendant_pids|]. intros second.
  apply does_bind; [apply grows_nothing|apply does_capture|]. intros l. apply does_ret.
Qed.

(** What a system call of the run found. *)
Definition Moment (m : gmap N Proc * gmap string PidNode) (w w' : World) : Prop :=
  exists new, w_moments w' = new ++ w_moments w /\ m ∈ new.
Lemma moment_grows m w w1 w2 w' : Later w w1 -> Later w2 w' -> Moment m w1 w2 -> Moment m w w'.
Proof.
  intros [_ [n1 H1] _] [_ [n2 H2] _] (n & Hn & Hm). exists (n2 ++ n ++ n1).
  split; [by rewrite H2, Hn, H1, !app_assoc|]. apply elem_of_app. right. apply elem_of_app. by left.
Qed.

(** The pid stood among the descendants of the root in one listing of the run. *)
Definition Listed (root pid : N) (w w' : World) : Prop :=
  exists m, Moment m w w' /\ pid ∈ descendants_in m.1 root.
Lemma listed_grows root pid w w1 w2 w' : Later w w1 -> Later w2 w' -> Listed root pid w1 w2 -> Listed root pid w w'.
Proof. intros Hl Hl' (m & Hm & Hp). exists m. split; [by eapply moment_grows|done]. Qed.

Lemma capture_pids pids w l w' : capture pids w = (l, w') -> l.*1 = pids.
Proof.
  revert w l w'. induction pids as [|pid pids IH]; intros w l w'; cbn [capture].
  - by intros [= <- _].
  - intros (r & w1 & _ & (rest & w2 & E & [= <- _])%bind_inv)%bind_inv. cbn. f_equal. by eapply IH.
Qed.

Lemma descendant_pids_listed root w l w' pid :
  Valid w -> descendant_pids root w = (l, w') -> pid ∈ l -> Listed root pid w w'.
Proof.
  intros Hv E Hp. unfold descendant_pids in E. injection E as <- <-. apply elem_of_elements in Hp.
  destruct (env_moves w Hv) as (_ & _ & _ & Hm).
  exists (w_procs (env_step_w w), w_files (env_step_w w)). split; [|done]. exists [(w_procs (env_step_w w), w_files (env_step_w w))].
  split; [done|]. by left.
Qed.

Lemma merge_keys captured second d :
  d ∈ merge_descendant_captures captured second -> is_Some (captured !! d.1) \/ d.1 ∈ second.*1.
Proof.
  unfold merge_descendant_captures. destruct d as [pid identity]. intros Hd%elem_of_map_to_list. cbn. revert captured Hd.
  induction second as [|[q [i|]] second IH]; intros captured Hd; cbn in Hd.
  - left. by eexists.
  - destruct (IH _ Hd) as [Hs|Hs]; [|right; by right]. destruct (decide (q = pid)) as [->|Hne]; [right; by left|].
    left. by rewrite lookup_insert_ne in Hs.
  - destruct (IH _ Hd) as [Hs|Hs]; [|right; by right]. destruct (decide (q = pid)) as [->|Hne]; [right; by left|].
    left. by rewrite lookup_delete_ne in Hs.
Qed.

Lemma capture_descendants_listed root w ds w' :
  Valid w -> capture_descendants root w = (ds, w') -> forall d, d ∈ ds -> Listed root d.1 w w'.
Proof.
  intros Hv (first & w1 & E1 & (l1 & w2 & E2 & (second & w3 & E3 & (l2 & w4 & E4 & [= <- <-])%bind_inv)%bind_inv)%bind_inv)%bind_inv.
  destruct (nothing_run _ _ _ _ (does_descendant_pids root) Hv E1) as (Hv1 & Hl1 & _).
  destruct (nothing_run _ _ _ _ (does_capture first) Hv1 E2) as (Hv2 & Hl2 & _).
  destruct (nothing_run _ _ _ _ (does_descendant_pids root) Hv2 E3) as (Hv3 & Hl3 & _).
  destruct (nothing_run _ _ _ _ (does_capture second) Hv3 E4) as (Hv4 & Hl4 & _).
  intros d [Hs|Hs]%merge_keys.
  - destruct Hs as [i Hi]. apply elem_of_list_to_map_2 in Hi. apply list_elem_of_omap in Hi as ([pid o] & Hin & Ho).
    destruct o as [i'|]; [|done]. injection Ho as <- <-.
    apply (listed_grows root pid w w w1); [apply later_refl|later|]. apply (descendant_pids_listed root w first w1 pid Hv E1).
    rewrite <- (capture_pids _ _ _ _ E2). apply list_elem_of_fmap. by exists (pid, Some i').
  - rewrite (capture_pids _ _ _ _ E4) in Hs.
    apply (listed_grows root d.1 w w2 w3); [later|later|]. by apply (descendant_pids_listed root w2 second).
Qed.

(** The processes a reap of a record may signal. *)
Definition Attributable (record : EpochPidRecord) (w w' : World) (id : N) : Prop :=
  Recorded record w' id \/ exists pid t, Listed (er_pid record) pid w w' /\ (pid, id, t) ∈ w_seen w'.

Lemma grows_attributable record : Grows (Attributable record).
Proof.
  intros w w1 w2 w' id Hl Hl' [Hr|(pid & t & Hm & Hs)]; [left; by eapply grows_recorded|right].
  exists pid, t. split; [by eapply listed_grows|]. by apply (later_seen _ _ Hl').
Qed.

Lemma does_reap_record record : os_pidfds = true -> Does (Attributable record) (reap_record record).
Proof.
  intros Hfd. apply does_try; [apply grows_attributable|apply does_nothing, does_identity_attempts|].
  intros [identity|]; [|apply does_ret]. destruct (compare_identity _ _); [|apply does_ret..].
  intros w r w' Hv (ds & w1 & E1 & E)%bind_inv.
  destruct (nothing_run _ _ _ _ (does_capture_descendants _) Hv E1) as (Hv1 & Hl1 & Hs1).
  pose proof (capture_descendants_listed _ _ _ _ Hv E1) as Hlisted.
  pose (P (w1' w2' : World) id := Recorded record w2' id \/ exists d t, d ∈ ds /\ (d.1, id, t) ∈ w_seen w2').
  assert (Grows P) as HG.
  { intros v v1 v2 v' id _ Hl [Hr|(d & t & Hd & Hs)]; [left; eapply (grows_recorded record v v); [apply later_refl|exact Hl|exact Hr]|].
    right. exists d, t. split; [done|]. by apply (later_seen _ _ Hl). }
  assert (Does P (try* root := reap_record_with_kill record false (kill_recorded_process record) in
                  do* rest := reap_descendants record ds in
                  let '(killed, failures) := rest in
                  if decide (failures <> []) then
                    try_err (std_error EkOther ("failed to confirm death of captured descendants: " +:+ str_join "; " failures))
                  else try_ret (if killed : bool then ReapKilled else root))) as HD.
  { apply does_try; [done| |].
    - apply does_reap_with_kill; [done|]. eapply does_mono; [|by apply does_kill]. intros ???. by left.
    - intros root. apply does_bind; [done| |].
      + apply does_descendants; [done|]. intros d Hd. eapply does_mono; [|by apply does_kill].
        intros v v' id (t & Hs & _). right. by exists d, t.
      + intros [killed failures]. case_decide; apply does_ret. }
  destruct (HD w1 r w' Hv1 E) as (new & (Hv' & Hl' & Hs') & Hnew). exists new.
  split; [split; [done|split; [later|by rewrite Hs', Hs1]]|]. eapply Forall_impl; [exact Hnew|].
  intros id [Hr|(d & t & Hd & Hs)]; [by left|right]. exists d.1, t. split; [|done].
  eapply listed_grows; [apply later_refl|exact Hl'|by apply Hlisted].
Qed.

(** The record stood in the file at one moment of the run. *)
Definition Stored (path : string) (record : EpochPidRecord) (w w' : World) : Prop :=
  exists m contents, Moment m w w' /\ m.2 !! path = Some (PnFile contents) /\ parse_epoch_record contents = Ok record.

(** ** The whole reap *)

(** Whatever it kills, a computation only moves on. *)
Definition Any (w w' : World) (id : N) : Prop := True.
Lemma grows_any : Grows Any.
Proof. by intros ?????. Qed.
Lemma any_later {A} (m : Act A) w r w' : Does Any m -> Valid w -> m w = (r, w') -> Valid w' /\ Later w w'.
Proof. intros Hm Hv E. by destruct (Hm w r w' Hv E) as (new & (Hv' & Hl & _) & _). Qed.

Lemma does_call_kill_pid pid : Does Any (kill_pid pid).
Proof.
  intros w r w' Hv E.
  assert (call (fun w => match (if os_refused (w_now w) then None else pr_id <$> w_procs w !! pid) with
                         | Some id => (Ok tt, with_signal id w)
                         | None => (Err (signal_error w), w)
                         end) w = (r, w')) as Ec.
  { rewrite <- E. unfold kill_pid, call, signal_error. set (w2 := env_step_w w). destruct (os_fault (w_now w2)); [done|].
    destruct (os_refused (w_now w2)); [done|]. by destruct (w_procs w2 !! pid). }
  apply (signal_call_inv _ signal_error) in Ec; [|done].
  destruct Ec as [Hr|(wm & id & _ & _ & _ & _ & Hr)]; eexists; (split; [exact Hr|]); by repeat constructor.
Qed.

Lemma does_kill_any record : Does Any (kill_recorded_process record).
Proof.
  pose proof grows_any as HG. pose proof grows_nothing as HN.
  apply does_bind; [done|apply does_nothing, does_call, calm_read|]. intros [fd|e].
  - apply does_try; [done|apply does_nothing, does_identity|]. intros identity.
    apply does_try; [done|apply does_ret|]. intros i. destruct (negb _); [apply does_ret|].
    intros w r w' Hv E. destruct (pidfd_kill_inv _ _ _ _ Hv E) as [Hr|(wm & pid & p & _ & _ & _ & _ & _ & Hr)];
      eexists; (split; [exact Hr|]); by repeat constructor.
  - case_decide; [|apply does_ret].
    apply does_try; [done|apply does_nothing, does_identity|]. intros identity.
    apply does_try; [done|apply does_ret|]. intros i. destruct (negb _); [apply does_ret|apply does_call_kill_pid].
Qed.

Lemma does_rest_any record ds root :
  Does Any (do* rest := reap_descendants record ds in
            let '(killed, failures) := rest in
            if decide (failures <> []) then
              try_err (std_error EkOther ("failed to confirm death of captured descendants: " +:+ str_join "; " failures))
            else try_ret (if killed : bool then ReapKilled else root)).
Proof.
  apply does_bind; [apply grows_any|apply does_descendants; [apply grows_any|intros; apply does_kill_any]|].
  intros [killed failures]. case_decide; apply does_ret.
Qed.

Lemma does_reap_record_any record : Does Any (reap_record record).
Proof.
  pose proof grows_any as HG. apply does_try; [done|apply does_nothing, does_identity_attempts|].
  intros [identity|]; [|apply does_ret]. destruct (compare_identity _ _); [|apply does_ret..].
  apply does_bind; [done|apply does_nothing, does_capture_descendants|]. intros ds.
  apply does_try; [done|apply does_reap_with_kill; [done|apply does_kill_any]|]. intros root. apply does_rest_any.
Qed.

Lemma calm_files (f : World -> result () StdError * World) :
  (forall w, exists r, f w = (r, w) \/ exists files, f w = (r, with_files files w)) -> calm f.
Proof. intros Hf w. by destruct (Hf w) as (r & [->|(files & ->)]). Qed.

Lemma does_symlink_metadata path : Does Nothing (symlink_metadata path).
Proof. apply does_call, calm_read. Qed.

Lemma does_read_record path : Does Nothing (read_epoch_pid_file path).
Proof.
  apply does_bind; [apply grows_nothing|apply does_symlink_metadata|]. intros [[contents| |]|e]; try apply does_ret.
  - apply does_try; [apply grows_nothing|apply does_call, calm_read|]. intros raw. apply does_ret.
  - case_decide; apply does_ret.
Qed.

Lemma does_validate_target what path : Does Nothing (validate_target what path).
Proof.
  apply does_bind; [apply grows_nothing|apply does_symlink_metadata|]. intros [[contents| |]|e]; try apply does_ret.
  case_decide; apply does_ret.
Qed.

Lemma does_remove_file path : Does Nothing (remove_file path).
Proof. apply does_call, calm_files. intros w. destruct (w_files w !! path); eauto. Qed.

Lemma does_remove_record path record : Does Nothing (remove_record_if_matches path record).
Proof.
  apply does_try; [apply grows_nothing|apply does_read_record|]. intros [current|]; [|apply does_ret].
  destruct (record_eq _ _); [|apply does_ret]. apply does_bind; [apply grows_nothing|apply does_remove_file|].
  intros [?|e]; [apply does_ret|]. case_decide; apply does_ret.
Qed.

(** The file was not there at one moment of the run. *)
Definition Absent (path : string) (w w' : World) : Prop :=
  exists m, Moment m w w' /\ m.2 !! path = None.
Lemma absent_grows path w w1 w2 w' : Later w w1 -> Later w2 w' -> Absent path w1 w2 -> Absent path w w'.
Proof. intros Hl Hl' (m & Hm & Hp). exists m. split; [by eapply moment_grows|done]. Qed.
Lemma stored_grows path record w w1 w2 w' : Later w w1 -> Later w2 w' -> Stored path record w1 w2 -> Stored path record w w'.
Proof. intros Hl Hl' (m & contents & Hm & Hp). exists m, contents. split; [by eapply moment_grows|done]. Qed.

(** A reading call finds what stood there at its moment. *)
Lemma read_call_moment {A} (f : World -> result A StdError) w r w' :
  Valid w -> call (fun w => (f w, w)) w = (r, w') ->
  (exists e, r = Err e /\ se_kind e <> EkNotFound)
  \/ exists wm, r = f wm /\ Moment (w_procs wm, w_files wm) w w'.
Proof.
  intros Hv E. apply (call_inv _ w r w' Hv) in E as (_ & [(e & -> & He & _)|(wm & _ & _ & _ & -> & Hm)]); [| |apply calm_read].
  - left. by exists e.
  - right. exists wm. split; [done|]. exists [(w_procs wm, w_files wm)]. split; [exact Hm|by left].
Qed.

Lemma read_record_absent path w w' :
  Valid w -> read_epoch_pid_file path w = (Ok None, w') -> Absent path w w'.
Proof.
  intros Hv (node & w1 & E1 & E)%bind_inv. apply (read_call_moment _ _ _ _ Hv) in E1 as [(e & -> & He)|(wm & -> & Hm)].
  - rewrite decide_False in E by done. by injection E.
  - exists (w_procs wm, w_files wm). cbn. destruct (w_files wm !! path) as [[contents| |]|] eqn:Ef; [|by injection E..|].
    + apply try_inv in E as [(raw & w2 & _ & E)|(? & _ & [=])]. unfold try_lift, act_ret in E. by destruct (parse_epoch_record raw).
    + rewrite decide_True in E by done. injection E as <-. done.
Qed.

(** What the record was read from. *)
Lemma read_record_stored path w record w' :
  Valid w -> read_epoch_pid_file path w = (Ok (Some record), w') -> Stored path record w w'.
Proof.
  intros Hv (node & w1 & E1 & E)%bind_inv. destruct (nothing_run _ _ _ _ (does_symlink_metadata path) Hv E1) as (Hv1 & Hl1 & _).
  destruct node as [[contents| |]|e]; [|by injection E..|by case_decide; injection E].
  apply try_inv in E as [(raw & w2 & E2 & E)|(? & _ & [=])]. injection E as E <-.
  assert (parse_epoch_record raw = Ok record) as Hparse by (destruct (parse_epoch_record raw); [by injection E as ->|done]).
  apply (call_inv _ w1 (Ok raw) w2 Hv1) in E2 as (_ & [(? & [=] & _)|(wm & _ & _ & _ & Hr & Hm)]); [|apply calm_read].
  cbn in Hr. destruct (w_files wm !! path) as [[text| |]|] eqn:Ef; [|done..].
  unfold from_utf8 in Hr. destruct (utf8_valid text); [|done]. injection Hr as ->.
  exists (w_procs wm, w_files wm), text. split; [|done].
  apply (moment_grows _ w w1 w2 w2); [done|apply later_refl|]. exists [(w_procs wm, w_files wm)]. split; [done|by left].
Qed.

(** [reap_validated] in front of and behind the kill. *)
Lemma does_reap_validated (P : World -> World -> N -> Prop) path dir epoch record :
  Grows P -> Does P (reap_record record) -> Does P (reap_validated path dir epoch record).
Proof.
  intros HG HP. unfold reap_validated. case_decide; [apply does_ret|].
  apply does_try; [done|apply does_ret|]. intros p1.
  apply does_try; [done|apply does_nothing, does_call, calm_read|]. intros p2.
  destruct (negb _); [apply does_ret|]. apply does_try; [done|apply does_ret|]. intros e.
  case_decide; [apply does_ret|]. apply does_try; [done|apply does_nothing, does_validate_target|]. intros u.
  apply does_try; [done|done|]. intros outcome.
  apply does_try; [done|apply does_nothing, does_remove_record|]. intros u'. apply does_ret.
Qed.

(** Up to the record, [reap_epoch_pid_file] only reads. *)
Lemma reap_file_inv path dir w r w' :
  Valid w -> reap_epoch_pid_file path dir w = (r, w') ->
  Run w w' [] /\ (forall o, r = Ok o -> o = ReapNotFound /\ Absent path w w')
  \/ exists w1 record runtime_dir epoch, Run w w1 [] /\ Stored path record w w1
       /\ reap_validated path runtime_dir epoch record w1 = (r, w').
Proof.
  intros Hv. unfold reap_epoch_pid_file.
  assert (forall v1 v2 v3, Run v1 v2 [] -> Run v2 v3 [] -> Run v1 v3 []) as Hrr.
  { intros v1 v2 v3 (_ & Hl & Hs) (Hv' & Hl' & Hs'). split; [done|]. split; [later|]. cbn in *. congruence. }
  assert (forall path w r w', Valid w -> canonicalize path w = (r, w') -> Run w w' []) as Hcan.
  { intros p v rr v' Hvv E. by apply (nothing_run _ _ _ _ (does_call _ (calm_read _)) Hvv E). }
  intros [(rd & w1 & E1 & E)|(e & E1 & ->)]%try_inv; [|left; by split; [by eapply Hcan|]].
  apply Hcan in E1 as R1; [|done]. assert (Valid w1) as Hv1 by apply R1.
  apply try_inv in E as [(pa & w1' & [= E2 ->] & E)|(e & [= _ ->] & ->)]; [|by left].
  apply try_inv in E as [(pc & w2 & E3 & E)|(e & E3 & ->)].
  2: { left. split; [|done]. apply Hcan in E3; [|done]. by eapply Hrr. }
  apply Hcan in E3 as R2; [|done]. assert (Valid w2) as Hv2 by apply R2. pose proof (Hrr _ _ _ R1 R2) as R12.
  destruct (negb _); [injection E as <- <-; by left|].
  apply try_inv in E as [(epoch & w2' & [= E4 ->] & E)|(e & [= _ ->] & ->)]; [|by left].
  apply try_inv in E as [(rec & w3 & E5 & E)|(e & E5 & ->)].
  2: { left. split; [|done]. eapply Hrr; [exact R12|]. by apply (nothing_run _ _ _ _ (does_read_record path) Hv2 E5). }
  pose proof (nothing_run _ _ _ _ (does_read_record path) Hv2 E5) as R3. pose proof (Hrr _ _ _ R12 R3) as R123.
  destruct rec as [record|].
  2: { injection E as <- <-. left. split; [done|]. intros o [= <-]. split; [done|].
       eapply absent_grows; [apply R12|apply later_refl|]. by eapply read_record_absent. }
  right. exists w3, record, rd, epoch. split; [done|]. split; [|done].
  eapply stored_grows; [apply R12|apply later_refl|]. by apply read_record_stored.
Qed.

Lemma reap_file_moves path dir w r w' :
  Valid w -> reap_epoch_pid_file path dir w = (r, w') -> Valid w' /\ Later w w'.
Proof.
  intros Hv E. destruct (reap_file_inv _ _ _ _ _ Hv E) as [[(Hv' & Hl & _) _]|(w1 & record & rd & epoch & (Hv1 & Hl1 & _) & _ & E')];
    [done|].
  destruct (any_later _ _ _ _ (does_reap_validated Any path rd epoch record grows_any (does_reap_record_any record)) Hv1 E').
  split; [done|later].
Qed.

(** C15: reaping a pid file, on a kernel with process descriptors, signals
    only processes the file vouches for: whatever the host does between the
    calls, which of them fail, and however often the numbers are reused, every
    process that is signalled either is the one a record read from the file
    names, by pid and start token, or held a pid that one listing of the
    processes showed among the descendants of the recorded pid. *)
Theorem reap_spares_others path dir w r w' :
  os_pidfds = true -> Valid w -> reap_epoch_pid_file path dir w = (r, w') ->
  exists new, w_signalled w' = new ++ w_signalled w
    /\ forall id, id ∈ new -> exists record, Stored path record w w' /\ Attributable record w w' id.
Proof.
  intros Hfd Hv E. destruct (reap_file_inv _ _ _ _ _ Hv E) as [[(_ & _ & Hs) _]|(w1 & record & rd & epoch & R1 & Hst & E')].
  { exists []. split; [done|]. by intros id Hid%elem_of_nil. }
  destruct R1 as (Hv1 & Hl1 & Hs1).
  destruct (does_reap_validated _ path rd epoch record (grows_attributable record) (does_reap_record record Hfd)
              w1 r w' Hv1 E') as (new & (Hv' & Hl' & Hs') & Hnew).
  exists new. split; [by rewrite Hs', Hs1|]. intros id Hid. exists record. split.
  - eapply stored_grows; [apply later_refl|exact Hl'|done].
  - eapply grows_attributable; [exact Hl1|apply later_refl|]. by eapply Forall_forall in Hid.
Qed.

End Safety.
