(* ===== verification/PidDeath.v ===== *)
(** * What the outcome of a reap proves

    Theorems on [PidReap.v] and [PidFile.v]: an outcome that is no error proves
    the recorded process dead, or a live one whose executable stopped being the
    recorded one while the reap looked.  At the end, a host for the witnesses, and
    two histories that show what the code does not promise. *)

From S2P Require Export PidSafety.
Open Scope rust_scope.
Open Scope act_scope.

Section Death.
Context `{Host_os} (host : HostOk).

Notation Valid := (Valid token).

Ltac later := solve [eauto 7 using later_trans, later_refl].

(** Every process with the record's pid and start token that was there at the
    first world has ended in the last. *)
Definition Dead (record : EpochPidRecord) (w w' : World) : Prop :=
  forall id t, (er_pid record, id, t) ∈ w_seen w -> token t = er_start_token record ->
  forall p, w_procs w' !! er_pid record = Some p -> pr_id p = id -> gone p = true.

Lemma dead_of_ended record w w' : Ended (er_pid record) w w' -> Dead record w w'.
Proof. intros He id t Hs _ p Hp Hid. by apply (He id t). Qed.

Lemma dead_grows record w w1 w2 w' :
  Later w w1 -> Later w1 w2 -> Later w2 w' -> Dead record w1 w2 -> Dead record w w'.
Proof.
  intros Hl Hl' Hl'' Hd id t Hs Ht p Hp Hid. apply (later_seen _ _ Hl) in Hs.
  destruct (later_procs _ _ Hl'' _ p Hp) as [(p2 & Hp2 & Hid2 & _ & Hg)|Hfresh].
  - apply Hg. eapply (Hd id t); [done..|congruence].
  - exfalso. apply (Hfresh (er_pid record) t), (later_seen _ _ Hl'). by rewrite Hid.
Qed.

(** Another start token at the pid: the recorded process is not there. *)
Lemma dead_other record w wm p :
  Valid wm -> Later w wm -> w_procs wm !! er_pid record = Some p -> token (pr_ticks p) <> er_start_token record ->
  Dead record w wm.
Proof.
  intros Hv Hl Hp Ht id t Hs Htok q Hq Hid. rewrite Hp in Hq. injection Hq as <-. exfalso. apply Ht. rewrite <- Htok. f_equal.
  apply (later_seen _ _ Hl) in Hs. rewrite <- Hid in Hs.
  by apply (valid_ids _ _ Hv _ _ _ _ _ (valid_seen _ _ Hv _ _ Hp) Hs).
Qed.

Lemma attempts_inv attempts pid seen w r w' :
  Valid w -> identity_attempts attempts pid seen w = (Ok r, w') ->
  match r with
  | None => Ended pid w w'
  | Some identity => exists we wm pe p, Identified pid w w' identity we wm pe p
  end.
Proof.
  revert seen w. induction attempts as [|attempts IH]; intros seen w Hv; cbn [identity_attempts]; [done|].
  intros (i & w1 & E & E')%bind_inv.
  destruct (nothing_run _ _ _ _ (does_identity host pid) Hv E) as (Hv1 & Hl1 & _).
  destruct i as [identity|e].
  - injection E' as <- <-. by apply (identity_inv host).
  - destruct (identity_query_is_provisional e); [|done]. apply IH in E'; [|done]. destruct r as [identity|].
    + destruct E' as (we & wm & pe & p & I). exists we, wm, pe, p. destruct I as [V (L1 & L2 & L3) ? ? ? ? ? ?].
      split; try done. split; [eapply later_trans; [exact Hl1|exact L1]|done].
    + intros id t p Hs. apply (E' id t). by apply (later_seen _ _ Hl1).
Qed.

(** The executable of the process is readable and has the recorded name. *)
Definition named (record : EpochPidRecord) (p : Proc) : bool :=
  match pr_exe p with
  | Ok path => match file_name path with
               | Some name => recorded_executable_matches (er_executable record) name
               | None => false
               end
  | Err _ => false
  end.

(** The recorded process, with its recorded executable. *)
Definition Known (record : EpochPidRecord) (w : World) (p : Proc) : Prop :=
  Valid w /\ w_procs w !! er_pid record = Some p /\ token (pr_ticks p) = er_start_token record /\ named record p = true.

(** The recorded process had its recorded executable at one moment and at a later
    one, still alive, had another or one that cannot be read. *)
Definition Renamed (record : EpochPidRecord) (w w' : World) : Prop :=
  exists w1 p1 w2 p2, Later w w1 /\ Later w1 w2 /\ Later w2 w'
    /\ Known record w1 p1 /\ w_procs w2 !! er_pid record = Some p2
    /\ pr_id p2 = pr_id p1 /\ gone p2 = false /\ named record p2 = false.
Lemma renamed_grows record w w1 w2 w' : Later w w1 -> Later w2 w' -> Renamed record w1 w2 -> Renamed record w w'.
Proof.
  intros Hl Hl' (v1 & p1 & v2 & p2 & L1 & L2 & L3 & Hr). exists v1, p1, v2, p2.
  split; [later|]. split; [done|]. by split; [later|].
Qed.

(** What an outcome proves. *)
Definition Settled (record : EpochPidRecord) (w w' : World) : Prop := Dead record w w' \/ Renamed record w w'.
Lemma settled_grows record w w1 w2 w' :
  Later w w1 -> Later w1 w2 -> Later w2 w' -> Settled record w1 w2 -> Settled record w w'.
Proof. intros Hl Hl' Hl'' [Hd|Hr]; [left; by eapply (dead_grows record w w1 w2)|right; by eapply renamed_grows]. Qed.
Lemma settled_ended record w w' : Ended (er_pid record) w w' -> Settled record w w'.
Proof. left. by apply dead_of_ended. Qed.

Lemma same_known record w w' identity we wm pe p :
  Identified (er_pid record) w w' identity we wm pe p -> compare_identity record identity = IdSame -> Known record we pe.
Proof.
  intros [[Hve Hvm] (L1 & L2 & L3) [Hpe Hp] Hid Htok Hleg Hexe Hkind]. unfold compare_identity. rewrite Hleg.
  rewrite decide_False by done. case_decide as Ht; [done|].
  destruct (pi_executable identity) as [name|]; [|done]. destruct (recorded_executable_matches _ _) eqn:Em; [|done].
  intros _. split; [done|]. split; [done|]. split.
  - rewrite Ht, Htok. f_equal. pose proof (later_seen _ _ L2 _ (valid_seen _ _ Hve _ _ Hpe)) as Hse.
    rewrite Hid in Hse. by apply (valid_ids _ _ Hvm _ _ _ _ _ Hse (valid_seen _ _ Hvm _ _ Hp)).
  - unfold named. destruct (pr_exe pe) as [path|]; [|done]. by rewrite <- Hexe.
Qed.

(** A live process that was known and is not recognised any more was renamed. *)
Lemma unmatched_renamed record w0 p0 w w' identity we wm pe p :
  Known record w0 p0 -> Later w0 w -> Identified (er_pid record) w w' identity we wm pe p ->
  pi_start_token identity = er_start_token record -> record_matches_identity record identity = false ->
  Renamed record w0 w'.
Proof.
  intros Hk Hl0 [[Hve Hvm] (L1 & L2 & L3) [Hpe Hp] Hid Htok Hleg Hexe Hkind] Ht Hm.
  destruct Hk as (Hv0 & Hp0 & Ht0 & Hn0). assert (Later w0 we) as L0e by later.
  exists w0, p0, we, pe. split; [apply later_refl|]. split; [done|]. split; [later|]. split; [by split|]. split; [done|].
  split; [|split].
  - rewrite Hid. eapply (valid_tokens _ _ Hvm); [by apply (valid_seen _ _ Hvm)| |rewrite Ht0, <- Ht; by symmetry].
    apply (later_seen _ _ L2), (later_seen _ _ L0e). by apply (valid_seen _ _ Hv0).
  - unfold gone. destruct (pr_exe pe) as [?|e]; [done|]. by rewrite Hkind.
  - unfold record_matches_identity, compare_identity in Hm. rewrite Hleg, Ht in Hm.
    rewrite decide_False in Hm by done. rewrite decide_False in Hm by (intros Hn; by apply Hn).
    unfold named. destruct (pr_exe pe) as [path|]; [|done]. rewrite Hexe in Hm.
    destruct (file_name path) as [name|]; [|done]. destruct (recorded_executable_matches _ _); [|done].
    by rewrite bool_decide_true in Hm.
Qed.

Lemma confirm_death_proves record w0 p0 attempts ke ie w o w' :
  Known record w0 p0 -> Later w0 w -> Valid w ->
  confirm_death attempts record false ke ie w = (Ok o, w') -> Settled record w0 w'.
Proof.
  intros Hk. revert ie w. induction attempts as [|attempts IH]; intros ie w Hl0 Hv; cbn [confirm_death].
  { destruct ke, ie; done. }
  intros (i & w1 & E & E')%bind_inv.
  destruct (nothing_run _ _ _ _ (does_identity host _) Hv E) as (Hv1 & Hl1 & _).
  assert (Later w0 w1) as Hl01 by later.
  destruct i as [[identity|]|e].
  - apply (identity_inv host) in E as (we & wm & pe & p & I); [|done].
    destruct (record_matches_identity record identity) eqn:Em; cbn [negb] in E'; [by eapply IH|].
    injection E' as <- <-. destruct (decide (pi_start_token identity = er_start_token record)) as [Ht|Hne].
    { right. exact (unmatched_renamed _ _ _ _ _ _ _ _ _ _ Hk Hl0 I Ht Em). }
    left. destruct I as [[Hve Hvm] (L1 & L2 & L3) [Hpe Hp] Hid Htok _ _ _].
    eapply (dead_grows record w0 w0 wm); [apply later_refl|later|exact L3|].
    eapply dead_other; [done|later|exact Hp|congruence].
  - injection E' as <- <-. eapply (settled_grows record w0 w); [exact Hl0|exact Hl1|apply later_refl|].
    apply settled_ended. by apply (identity_inv host) in E.
  - destruct (identity_query_is_provisional e); [by eapply IH|done].
Qed.

Lemma reused_dead record w w' identity we wm pe p :
  Identified (er_pid record) w w' identity we wm pe p -> compare_identity record identity = IdReused -> Dead record w w'.
Proof.
  intros [[Hve Hvm] (L1 & L2 & L3) [Hpe Hp] Hid Htok Hleg Hexe Hkind]. unfold compare_identity. rewrite Hleg.
  rewrite decide_False by done. case_decide as Ht.
  2: { destruct (pi_executable identity); [|done]. by destruct (recorded_executable_matches _ _). }
  intros _. eapply (dead_grows record w w wm); [apply later_refl|later|exact L3|].
  eapply dead_other; [done|later|exact Hp|]. intros Hc. apply Ht. congruence.
Qed.

Lemma reap_with_kill_proves record kill w o w' :
  Does Any kill -> Valid w -> reap_record_with_kill record false kill w = (Ok o, w') -> Settled record w w'.
Proof.
  intros Hkill Hv (r & w1 & E1 & E)%bind_inv.
  destruct (nothing_run _ _ _ _ (does_identity_attempts host _ _ _) Hv E1) as (Hv1 & Hl1 & _).
  destruct r as [r|e]; cbn [identity_for_confirmation] in E; [|by apply try_inv in E as [(? & ? & [=] & _)|(? & [=] & [=])]].
  apply try_inv in E as [(i & w1' & [= <- <-] & E)|(? & [=] & _)].
  apply attempts_inv in E1; [|done]. destruct r as [identity|]; [|injection E as <- <-; by apply settled_ended].
  destruct E1 as (we & wm & pe & p & I). destruct (compare_identity record identity) eqn:Ec; [| |done].
  2: { injection E as <- <-. left. by eapply reused_dead. }
  apply bind_inv in E as (killed & w2 & E2 & E). destruct (any_later _ _ _ _ Hkill Hv1 E2) as (Hv2 & Hl2).
  pose proof (same_known _ _ _ _ _ _ _ _ I Ec) as Hk. destruct (id_later _ _ _ _ _ _ _ _ I) as (L1 & L2 & L3).
  destruct (nothing_run _ _ _ _ (does_confirm_death host _ _ _ _ _) Hv2 E) as (_ & Hl' & _).
  assert (Later we w2) as Le2 by (eapply (later_trans we wm); [exact L2|later]).
  eapply (settled_grows record w we w'); [exact L1|later|apply later_refl|].
  eapply confirm_death_proves; [exact Hk|exact Le2|done|exact E].
Qed.

Lemma reap_record_proves record w o w' : Valid w -> reap_record record w = (Ok o, w') -> Settled record w w'.
Proof.
  intros Hv [(i & w1 & E1 & E)|(? & _ & [=])]%try_inv.
  destruct (nothing_run _ _ _ _ (does_identity_attempts host _ _ _) Hv E1) as (Hv1 & Hl1 & _).
  apply attempts_inv in E1; [|done]. destruct i as [identity|]; [|injection E as <- <-; by apply settled_ended].
  destruct E1 as (we & wm & pe & p & I). destruct (compare_identity record identity) eqn:Ec; [| |done].
  2: { injection E as <- <-. left. by eapply reused_dead. }
  apply bind_inv in E as (ds & w2 & E2 & E).
  destruct (nothing_run _ _ _ _ (does_capture_descendants host _) Hv1 E2) as (Hv2 & Hl2 & _).
  apply try_inv in E as [(root & w3 & E3 & E)|(? & _ & [=])].
  destruct (any_later _ _ _ _ (does_reap_with_kill host _ _ _ _ grows_any
              (does_kill_any host record)) Hv2 E3) as (Hv3 & Hl3).
  destruct (any_later _ _ _ _ (does_rest_any host record ds root) Hv3 E) as (_ & Hl4).
  eapply (settled_grows record w w2 w3); [later|exact Hl3|exact Hl4|].
  eapply reap_with_kill_proves; [apply (does_kill_any host)|done|exact E3].
Qed.

(** A record whose process is answered not to be alive: it is not. *)
Lemma alive_false_dead raw w w' :
  Valid w -> recorded_process_is_alive raw w = (Ok false, w') -> exists record, parse_epoch_record raw = Ok record /\ Dead record w w'.
Proof.
  intros Hv [(record & w0 & [= Hp <-] & E)|(? & _ & [=])]%try_inv. exists record. split; [done|].
  apply try_inv in E as [(i & w1 & E1 & E)|(? & _ & [=])]. apply (identity_inv host) in E1; [|done].
  destruct i as [identity|]; [|injection E as <-; by apply dead_of_ended].
  destruct E1 as (we & wm & pe & p & I). destruct (compare_identity record identity) eqn:Ec; [done| |done].
  injection E as <-. by eapply reused_dead.
Qed.

Lemma reap_validated_proves path dir epoch record w o w' :
  Valid w -> reap_validated path dir epoch record w = (Ok o, w') -> Settled record w w'.
Proof.
  intros Hv E. unfold reap_validated in E. case_decide; [done|].
  apply try_inv in E as [(p1 & w0 & [= _ <-] & E)|(? & _ & [=])].
  apply try_inv in E as [(p2 & w1 & E1 & E)|(? & _ & [=])].
  destruct (nothing_run _ _ _ _ (does_call host _ (calm_read _)) Hv E1) as (Hv1 & Hl1 & _).
  destruct (negb _); [done|]. apply try_inv in E as [(e & w1' & [= _ <-] & E)|(? & _ & [=])].
  case_decide; [done|]. apply try_inv in E as [(u & w2 & E2 & E)|(? & _ & [=])].
  destruct (nothing_run _ _ _ _ (does_validate_target host _ _) Hv1 E2) as (Hv2 & Hl2 & _).
  apply try_inv in E as [(o' & w3 & E3 & E)|(? & _ & [=])].
  pose proof (reap_record_proves _ _ _ _ Hv2 E3) as Hd.
  destruct (any_later _ _ _ _ (does_reap_record_any host record) Hv2 E3) as (Hv3 & Hl3).
  apply try_inv in E as [(u' & w4 & E4 & [= _ <-])|(? & _ & [=])].
  destruct (nothing_run _ _ _ _ (does_remove_record host _ _) Hv3 E4) as (Hv4 & Hl4 & _).
  eapply (settled_grows record w w2 w3); [later|exact Hl3|exact Hl4|exact Hd].
Qed.

(** A reap that does not fail found no record, or its process is accounted for. *)
Lemma reap_verdict path dir w o w' :
  Valid w -> reap_epoch_pid_file path dir w = (Ok o, w') ->
  o = ReapNotFound /\ Absent path w w' \/ exists record, Stored path record w w' /\ Settled record w w'.
Proof.
  intros Hv E. destruct (reap_file_inv host _ _ _ _ _ Hv E) as [[_ Ho]|(w1 & record & rd & epoch & R1 & Hst & E')].
  { left. by apply Ho. }
  right. destruct R1 as (Hv1 & Hl1 & _).
  destruct (any_later _ _ _ _ (does_reap_validated host _ path rd epoch record grows_any
              (does_reap_record_any host record)) Hv1 E') as (_ & Hl').
  exists record. split; [eapply stored_grows; [apply later_refl|exact Hl'|done]|].
  eapply (settled_grows record w w1 w'); [exact Hl1|exact Hl'|apply later_refl|]. by eapply reap_validated_proves.
Qed.

(** C16: what the outcome of a reap proves, with the one case in which it proves
    too little.  When the reap of a pid file returns an outcome other than not
    found, it read a record from the file, and either no process that had the
    record's pid and start token when the reap began is alive behind it - also when
    the kill failed, was refused or hit nothing, since an error of the kill is never
    taken for an outcome - or that process was recognised by its executable and
    later, while the reap went on and the process still lived, had an executable of
    another name or one that cannot be read.  Nothing is assumed of the executables
    of processes; that the second case happens is shown by
    [uncertain_identity_counts_as_death]. *)
Theorem reap_outcome_accounts_for_the_process path dir w o w' :
  Valid w -> reap_epoch_pid_file path dir w = (Ok o, w') -> o <> ReapNotFound ->
  exists record, Stored path record w w' /\ (Dead record w w' \/ Renamed record w w').
Proof. intros Hv E Hne. by destruct (reap_verdict _ _ _ _ _ Hv E) as [[? _]|?]. Qed.

End Death.

(** ** A host *)

(** It ends every process that was sent a SIGKILL; nothing else happens. *)
Definition stat_line (pid : N) (p : Proc) : string :=
  show_N pid +:+ " (core) S 1 0 0 0 0 0 0 0 0 0 0 0 0 0 0 0 0 0 " +:+ show_N (pr_ticks p).
Definition end_signalled (w : World) : World :=
  {| w_now := w_now w; w_procs := filter (fun x => pr_id x.2 ∉ w_signalled w) (w_procs w); w_seen := w_seen w;
     w_signalled := w_signalled w; w_moments := w_moments w; w_files := w_files w; w_counter := w_counter w |}.
Definition obedient_host : Host_os :=
  {| os_env _ := end_signalled; os_fault _ := None; os_refused _ := false; os_pidfds := true; os_boot_id := "boot"; os_stat := stat_line;
     os_canonicalize path _ := Ok path; os_process_id := 1 |}.

Lemma whitespace_digit (a : Ascii.ascii) (s : string) : is_digit a = true -> whitespace_prefix (String a s) = None.
Proof.
  unfold is_digit, in_range. intros Ha%bool_decide_eq_true.
  unfold whitespace_prefix. cbn [String.substring String.list_ascii_of_string map whitespace_bytes].
  unfold whitespace_1, whitespace_2, whitespace_3. rewrite bool_decide_false by lia.
  destruct (map _ _) as [|b [|c rest]]; [done|by rewrite bool_decide_false by lia|].
  by rewrite !bool_decide_false by lia.
Qed.

Lemma split_words_digits cur s : str_all is_digit s = true -> cur +:+ s <> "" -> split_words cur 0 s = [cur +:+ s].
Proof.
  revert cur. induction s as [|a s IH]; intros cur Hd Hne.
  - rewrite string_app_nil_r in *. cbn. by rewrite decide_False.
  - cbn [str_all] in Hd. apply andb_true_iff in Hd as [Ha Hd]. cbn [split_words].
    rewrite whitespace_digit by done. rewrite IH; rewrite <- ?string_app_assoc; done.
Qed.

Lemma rsplit_once_other (a : Ascii.ascii) (s : string) :
  str_all (fun b => negb (bool_decide (a = b))) s = true -> rsplit_once (String a "") s = None.
Proof.
  induction s as [|b s IH]; [done|]. cbn [str_all]. intros [Hb Hs]%andb_true_iff.
  apply negb_true_iff, bool_decide_eq_false in Hb. cbn [rsplit_once]. rewrite IH by done. cbn. by rewrite decide_False.
Qed.
Lemma rsplit_once_last (a : Ascii.ascii) (l r : string) :
  str_all (fun b => negb (bool_decide (a = b))) r = true ->
  rsplit_once (String a "") (l +:+ String a r) = Some (l, r).
Proof.
  intros Hr. induction l as [|b l IH].
  - rewrite string_app_nil_l. cbn [rsplit_once]. rewrite rsplit_once_other by done. cbn. by rewrite decide_True.
  - rewrite string_app_cons. cbn [rsplit_once]. by rewrite IH.
Qed.

(** One byte behind the last blank settles that it is followed by a word. *)
Lemma split_stat (d : Ascii.ascii) (rest : string) :
  split_words "" 0 (" S 1 0 0 0 0 0 0 0 0 0 0 0 0 0 0 0 0 0 " +:+ String d rest)
  = ["S"; "1"; "0"; "0"; "0"; "0"; "0"; "0"; "0"; "0"; "0"; "0"; "0"; "0"; "0"; "0"; "0"; "0"; "0"]
    ++ split_words "" 0 (String d rest).
Proof. reflexivity. Qed.

Lemma parse_stat_line pid p : pr_ticks p < u64_modulus -> parse_stat pid (stat_line pid p) = Ok (pr_ticks p).
Proof.
  intros Ht. unfold parse_stat, stat_line. set (digits := show_N (pr_ticks p)).
  assert (str_all is_digit digits = true) as Hd by apply show_N_digits.
  change (" (core) S 1 0 0 0 0 0 0 0 0 0 0 0 0 0 0 0 0 0 ")
    with (" (core" +:+ String ")" " S 1 0 0 0 0 0 0 0 0 0 0 0 0 0 0 0 0 0 ").
  rewrite <- (string_app_assoc " (core"), (string_app_cons ")"%char), (string_app_assoc (show_N pid)).
  rewrite rsplit_once_last.
  2: { rewrite str_all_app. apply andb_true_iff. split; [done|]. eapply str_all_impl; [|exact Hd]. intros b Hb.
       apply negb_true_iff, bool_decide_eq_false. by intros <-. }
  cbn [fmap option_fmap option_map snd ok_or result_bind]. unfold split_whitespace.
  assert (split_words "" 0 digits = [digits]) as Hw.
  { rewrite split_words_digits by (done || (rewrite string_app_nil_l; apply show_N_nonempty)). by rewrite string_app_nil_l. }
  destruct digits as [|d rest] eqn:Ed; [by destruct (show_N_nonempty (pr_ticks p))|].
  rewrite split_stat, Hw.
  enough (forall e, ok_or (parse_u64 (String d rest)) e = Ok (pr_ticks p)) as He by apply He.
  intros e. rewrite <- Ed. unfold digits. by rewrite parse_u64_show.
Qed.

Lemma obedient_ok : @HostOk obedient_host.
Proof.
  assert (forall w pid p, w_procs (end_signalled w) !! pid = Some p -> w_procs w !! pid = Some p) as Hsub.
  { intros w pid p [Hp _]%map_lookup_filter_Some. exact Hp. }
  split.
  - intros n w [V1 V2 V3 V4]. split; eauto.
  - intros n w Hv. split; [done|by exists []|]. intros pid p Hp. left. exists p. split; [by apply Hsub|apply same_refl].
  - by intros n w.
  - intros pid p. apply parse_stat_line.
  - by intros n e.
Qed.

(** A core with a helper, and the record of the core. *)
Definition core_record : EpochPidRecord :=
  {| er_pid := 7; er_epoch := 3; er_executable := "core"; er_start_token := boot_bound_start_token "boot" 5;
     er_runtime_config := "/run/config-3.yaml" |}.
Definition core_process : Proc := {| pr_id := 1; pr_ticks := 5; pr_exe := Ok "/bin/core"; pr_parent := Some 1 |}.
Definition helper_process : Proc := {| pr_id := 2; pr_ticks := 6; pr_exe := Ok "/bin/helper"; pr_parent := Some 7 |}.
Definition other_process : Proc := {| pr_id := 3; pr_ticks := 7; pr_exe := Ok "/bin/editor"; pr_parent := Some 1 |}.
Definition core_world : World :=
  {| w_now := 0; w_procs := {[7 := core_process; 8 := helper_process; 9 := other_process]};
     w_seen := [(7, 1, 5); (8, 2, 6); (9, 3, 7)]; w_signalled := []; w_moments := [];
     w_files := {["/run/core-3.pid" := PnFile (serialize_epoch_record core_record)]}; w_counter := 0 |}.
Definition core_reaped : World := (@reap_epoch_pid_file obedient_host "/run/core-3.pid" "/run" core_world).2.

Lemma core_world_valid : Valid (@token obedient_host) core_world.
Proof.
  assert (forall pid p, w_procs core_world !! pid = Some p ->
    (pid = 7 /\ p = core_process) \/ (pid = 8 /\ p = helper_process) \/ (pid = 9 /\ p = other_process)) as Hp.
  { intros pid p Hp. unfold core_world in Hp. cbn [w_procs] in Hp.
    repeat (apply lookup_insert_Some in Hp as [[<- <-]|[_ Hp]]; [auto|]). apply lookup_singleton_Some in Hp as [<- <-]. auto. }
  assert (forall pid id t, (pid, id, t) ∈ w_seen core_world ->
    (pid = 7 /\ id = 1 /\ t = 5) \/ (pid = 8 /\ id = 2 /\ t = 6) \/ (pid = 9 /\ id = 3 /\ t = 7)) as Hs.
  { intros pid id t Hs. unfold core_world in Hs. cbn [w_seen] in Hs. rewrite !elem_of_cons, elem_of_nil in Hs. naive_solver. }
  split.
  - intros pid p [[-> ->]|[[-> ->]|[-> ->]]]%Hp; unfold core_world; cbn; repeat constructor.
  - intros pid p [[-> ->]|[[-> ->]|[-> ->]]]%Hp; vm_compute; reflexivity.
  - intros pid pid' id t t' H1%Hs H2%Hs. lia.
  - intros pid id id' t t' H1%Hs H2%Hs _. lia.
Qed.

Lemma reap_spares_others_witness :
  w_signalled core_reaped = [2; 1] /\
  exists new, w_signalled core_reaped = new ++ []
    /\ forall id, id ∈ new -> exists record, Stored "/run/core-3.pid" record core_world core_reaped
         /\ @Attributable obedient_host record core_world core_reaped id.
Proof.
  split; [vm_compute; reflexivity|].
  apply (@reap_spares_others obedient_host obedient_ok "/run/core-3.pid" "/run" core_world (Ok ReapKilled) core_reaped);
    [reflexivity|apply core_world_valid|vm_compute; reflexivity].
Defined.

Lemma reap_outcome_accounts_for_the_process_witness :
  exists record, Stored "/run/core-3.pid" record core_world core_reaped
    /\ (@Dead obedient_host record core_world core_reaped \/ @Renamed obedient_host record core_world core_reaped).
Proof.
  apply (@reap_outcome_accounts_for_the_process obedient_host obedient_ok "/run/core-3.pid" "/run" core_world ReapKilled core_reaped);
    [apply core_world_valid|vm_compute; reflexivity|discriminate].
Defined.

(** ** Two histories *)

Definition with_procs (procs : gmap N Proc) (w : World) : World :=
  {| w_now := w_now w; w_procs := procs; w_seen := map (fun x => (x.1, pr_id x.2, pr_ticks x.2)) (map_to_list procs) ++ w_seen w;
     w_signalled := w_signalled w; w_moments := w_moments w; w_files := w_files w; w_counter := w_counter w |}.

(** Behind the ninth call the core's executable has another name, and that
    call, the kill, is refused. *)
Definition renaming_host : Host_os :=
  {| os_env n w := if decide (9 <= n)%nat
       then with_procs (alter (fun p => {| pr_id := pr_id p; pr_ticks := pr_ticks p; pr_exe := Ok "/bin/core.bak";
                                           pr_parent := pr_parent p |}) 7 (w_procs w)) w
       else w;
     os_fault _ := None; os_refused n := bool_decide (n = 9%nat);
     os_pidfds := true; os_boot_id := "boot"; os_stat := stat_line; os_canonicalize path _ := Ok path; os_process_id := 1 |}.

(** A refused kill is taken for death when the live process cannot be told any
    more behind it: a match that is merely uncertain ends the wait like one that
    is reused. *)
Lemma uncertain_identity_counts_as_death :
  let '(r, w') := @reap_record_with_kill renaming_host core_record false
                    (@kill_recorded_process renaming_host core_record) core_world in
  r = Ok ReapKilled /\ w_signalled w' = [] /\ option_map (fun p => (pr_id p, gone p)) (w_procs w' !! 7) = Some (1, false).
Proof. vm_compute. repeat split. Qed.

Definition stranger : Proc := {| pr_id := 4; pr_ticks := 9; pr_exe := Ok "/bin/editor"; pr_parent := Some 1 |}.

(** Behind the fifth call, the first listing, the helper has ended and its
    number belongs to another process of the host. *)
Definition reusing_host : Host_os :=
  {| os_env n w := end_signalled (if decide (n = 5%nat) then with_procs (<[8 := stranger]> (w_procs w)) w else w);
     os_fault _ := None; os_refused _ := false;
     os_pidfds := true; os_boot_id := "boot"; os_stat := stat_line; os_canonicalize path _ := Ok path; os_process_id := 1 |}.

(** A number that only the first listing shows is killed under the identity it
    has by then, although its process was never a descendant in any listing. *)
Lemma reused_child_is_killed :
  let '(r, w') := @reap_record reusing_host core_record core_world in
  r = Ok ReapKilled /\ w_signalled w' = [4; 1]
  /\ forallb (fun m => match m.1 !! 8 with
                       | Some p => negb (pr_id p =? 4) || bool_decide (8 ∉ descendants_in m.1 7)
                       | None => true
                       end) (w_moments w') = true.
Proof. vm_compute. repeat split. Qed.
