(* ===== verification/DarwinPids.v ===== *)
(** * Recorded processes on macOS

    [chimera-utils/src/process/pid_file.rs] as compiled for macOS: the start token
    carries microseconds, records of two versions are read, and an identity is
    taken between two readings of [sysctl].  The host is that of [PidReap]: a world
    that moves on before every system call, which may fail. *)

From S2P Require Export PidDeath.
Open Scope rust_scope.
Open Scope act_scope.

(** ** Records and tokens *)

Definition EPOCH_PID_VERSION_DARWIN_PRECISE : N := 3.
Definition DARWIN_START_TOKEN_RADIX : N := 2 ^ 20.
Definition DARWIN_MAX_SUBSECOND_MICROSECONDS : N := 1000000.

(** The record: tokens that do not fit 32 bits are of the precise version. *)
Definition record_version (record : EpochPidRecord) : N :=
  if decide (u32_max < er_start_token record) then EPOCH_PID_VERSION_DARWIN_PRECISE else EPOCH_PID_VERSION.
Definition serialize_epoch_record (record : EpochPidRecord) : string :=
  write_epoch_fields (record_version record) record.

Definition check_start_token (version start_token : N) : result () StdError :=
  if decide (version = EPOCH_PID_VERSION /\ u32_max < start_token)
  then Err (invalid_data "version-2 Darwin start token is not seconds")
  else if decide (version = EPOCH_PID_VERSION_DARWIN_PRECISE /\ start_token <= u32_max)
  then Err (invalid_data "version-3 Darwin start token lacks subsecond precision")
  else if decide (version = EPOCH_PID_VERSION_DARWIN_PRECISE
                  /\ DARWIN_MAX_SUBSECOND_MICROSECONDS <= start_token mod DARWIN_START_TOKEN_RADIX)
  then Err (invalid_data "version-3 Darwin start token has invalid microseconds")
  else Ok tt.

Definition parse_epoch_record (raw : string) : result EpochPidRecord StdError :=
  let? fields := record_fields (str_lines raw) ∅ in
  if decide (size fields <> length expected_fields
             \/ ~ Forall (fun key => is_Some (fields !! key)) expected_fields)
  then Err (invalid_data "epoch pid record fields are incomplete")
  else
    let? version := parse_field (2 ^ 32) fields "version" in
    if decide (version <> EPOCH_PID_VERSION /\ version <> EPOCH_PID_VERSION_DARWIN_PRECISE)
    then Err (invalid_data ("unsupported epoch pid record version " +:+ show_N version))
    else
      let? executable := required fields "executable" in
      let? executable := hex_decode executable in
      let? executable := from_utf8 executable "epoch pid executable is not UTF-8" in
      let? runtime_config := required fields "runtime-config" in
      let? runtime_config := hex_decode runtime_config in
      let? runtime_config := from_utf8 runtime_config "epoch pid runtime path is not UTF-8" in
      let? start_token := parse_field u64_modulus fields "start-token" in
      let? _ := check_start_token version start_token in
      let? pid := parse_field (2 ^ 32) fields "pid" in
      let? epoch := parse_field u64_modulus fields "epoch" in
      Ok {| er_pid := pid; er_epoch := epoch; er_executable := executable; er_start_token := start_token;
            er_runtime_config := runtime_config |}.

Definition precise_start_token (seconds microseconds : N) : result N StdError :=
  if decide (1000000 <= microseconds)
  then Err (invalid_data ("invalid start subsecond: " +:+ show_N microseconds))
  else
    let product := if decide (seconds * 2 ^ 20 < u64_modulus) then Some (seconds * 2 ^ 20) else None in
    ok_or (product ≫= fun token => checked_add u64_modulus token microseconds)
      (invalid_data "Darwin process start token overflow").

(** The prefix of [kinfo_proc] that is read, as integers of their C types, and the
    size of it. *)
Record KinfoProcPrefix := { ki_seconds : Z; ki_microseconds : Z; ki_stat : Z; ki_pid : Z }.
Definition kinfo_size : N := 48.
Definition SZOMB : Z := 5.

(** What the kernel tells: the size of the answer, the bytes written into a buffer
    of some capacity and the record in them, and what sysinfo finds. *)
Class DarwinHost := {
  dw_size : N -> World -> N;
  dw_read : N -> N -> World -> result (N * KinfoProcPrefix) StdError;
  dw_sysinfo : N -> World -> option (option string);
}.

Section Identity.
Context `{Host_os, DarwinHost}.

Definition start_time (pid : N) : Try (option (N * N)) :=
  if decide (2 ^ 31 <= pid) then try_err (invalid_input ("pid " +:+ show_N pid +:+ " is out of range"))
  else
    try* size := call (fun w => (Ok (dw_size pid w), w)) in
    let capacity := (size + 7) / 8 * 8 in
    try* answer := call (fun w => (dw_read pid capacity w, w)) in
    let '(len, record) := answer in
    if decide (len = 0) then try_ret None
    else if decide (len < kinfo_size)
    then try_err (invalid_data ("kinfo_proc for pid " +:+ show_N pid +:+ " is truncated to " +:+ show_N len +:+ " bytes"))
    else if decide (ki_pid record <> Z.of_N pid)
    then try_err (invalid_data ("kinfo_proc for pid " +:+ show_N pid +:+ " describes pid " +:+ pretty (ki_pid record)))
    else if decide (ki_stat record = SZOMB) then try_ret None
    else if decide (ki_seconds record < 0)%Z
    then try_err (invalid_data ("negative start time for pid " +:+ show_N pid))
    else if decide (ki_microseconds record < 0)%Z
    then try_err (invalid_data ("negative start subsecond for pid " +:+ show_N pid))
    else if decide (1000000 <= ki_microseconds record)%Z
    then try_err (invalid_data ("invalid start subsecond for pid " +:+ show_N pid +:+ ": " +:+ pretty (ki_microseconds record)))
    else try_ret (Some (Z.to_N (ki_seconds record), Z.to_N (ki_microseconds record))).

(** sysinfo does not fail, it finds nothing. *)
Definition sysinfo_executable (pid : N) : Act (option string) :=
  fun w => let w := env_step_w w in (dw_sysinfo pid w ≫= fun executable => executable, tick w).

Definition process_identity (pid : N) : Try (option ProcessIdentity) :=
  try* first := start_time pid in
  match first with
  | None => try_ret None
  | Some (start_seconds, start_microseconds) =>
      do* executable := sysinfo_executable pid in
      try* second := start_time pid in
      if decide (second <> Some (start_seconds, start_microseconds)) then try_ret None
      else
        try* token := try_lift (precise_start_token start_seconds start_microseconds) in
        try_ret (Some {| pi_executable := executable; pi_start_token := token;
                         pi_legacy_start_token := Some start_seconds |})
  end.

Definition recorded_executable_matches (recorded observed : string) : bool := exe_names_equal recorded observed.

Definition compare_identity (record : EpochPidRecord) (identity : ProcessIdentity) : IdentityMatch :=
  if decide (pi_legacy_start_token identity = Some (er_start_token record)) then IdUncertain
  else if decide (er_start_token record <> pi_start_token identity) then IdReused
  else match pi_executable identity with
       | Some executable =>
           if recorded_executable_matches (er_executable record) executable then IdSame else IdUncertain
       | None => IdUncertain
       end.
Definition record_matches_identity (record : EpochPidRecord) (identity : ProcessIdentity) : bool :=
  bool_decide (compare_identity record identity = IdSame).

Definition kill_recorded_process (record : EpochPidRecord) : Try () :=
  try* identity := process_identity (er_pid record) in
  try* identity := try_lift (ok_or identity (exited_before (er_pid record) "final validation")) in
  if negb (record_matches_identity record identity) then try_err (cannot_prove record)
  else kill_pid (er_pid record).
End Identity.

(** ** Tokens and records *)

(** A token is exact: the time it stands for can be read off it, so two times never
    share one, and every time of the next five hundred thousand years has one. *)
Lemma precise_tokens_are_exact seconds microseconds token :
  precise_start_token seconds microseconds = Ok token ->
  token < u64_modulus /\ token / DARWIN_START_TOKEN_RADIX = seconds
  /\ token mod DARWIN_START_TOKEN_RADIX = microseconds /\ microseconds < DARWIN_MAX_SUBSECOND_MICROSECONDS.
Proof.
  unfold precise_start_token, checked_add, DARWIN_START_TOKEN_RADIX, DARWIN_MAX_SUBSECOND_MICROSECONDS.
  case_decide as Hus; [done|]. case_decide as Hs; cbn; [|done]. case_decide as Ht; cbn; [|done]. intros [= <-].
  split; [done|]. assert (Hr : microseconds < 2 ^ 20) by lia.
  rewrite N.div_add_l, N.div_small, N.add_0_r by (done || lia).
  rewrite N.add_comm, N.Div0.mod_add, N.mod_small by done. repeat split; lia.
Qed.
Lemma precise_tokens_exist seconds microseconds :
  microseconds < 1000000 -> seconds < 2 ^ 44 -> is_ok (precise_start_token seconds microseconds) = true.
Proof.
  intros Hus Hs. unfold precise_start_token, checked_add. rewrite decide_False by lia.
  assert (Hm : u64_modulus = 2 ^ 44 * 2 ^ 20) by done.
  rewrite decide_True by (rewrite Hm; nia). cbn. rewrite decide_True; [done|]. rewrite Hm. nia.
Qed.

(** The tokens a record of this host can have. *)
Definition TokenOk (token : N) : Prop :=
  token <= u32_max \/ token mod DARWIN_START_TOKEN_RADIX < DARWIN_MAX_SUBSECOND_MICROSECONDS.

Lemma record_version_accepted record :
  TokenOk (er_start_token record) -> check_start_token (record_version record) (er_start_token record) = Ok tt.
Proof.
  unfold TokenOk, check_start_token, record_version. intros Htoken.
  destruct (decide (u32_max < er_start_token record)) as [Hbig|Hsmall].
  - rewrite !decide_False; [done|intros [_ ?]; lia|intros [_ ?]; lia|by intros [? _]].
  - rewrite !decide_False; [done|by intros [? _]|by intros [? _]|intros [_ ?]; lia].
Qed.

(** Records of both versions are read back as they were written. *)
Theorem darwin_record_roundtrip (record : EpochPidRecord) :
  RecordOk record -> TokenOk (er_start_token record) -> parse_epoch_record (serialize_epoch_record record) = Ok record.
Proof.
  intros [Hpid Hepoch Htoken Hexe Hcfg] Hok. unfold parse_epoch_record, serialize_epoch_record.
  destruct (written_fields (record_version record) record) as (fields & -> & Hw). cbn [result_bind].
  rewrite decide_False by (by eapply written_complete). destruct Hw as [Hf1 Hf2 Hf3 Hf4 Hf5 Hf6 _].
  assert (Hversion : record_version record = 2 \/ record_version record = 3)
    by (unfold record_version; case_decide; auto).
  unfold parse_field, required. rewrite Hf1, Hf2, Hf3, Hf4, Hf5, Hf6. cbn [ok_or result_bind].
  assert (from_str_radix 10 (2 ^ 32) (show_N (record_version record)) = Some (record_version record)) as ->
    by (destruct Hversion as [-> | ->]; by vm_compute).
  rewrite !from_str_radix_show by (done || (by vm_compute)). cbn [ok_or result_bind].
  rewrite decide_False by (unfold EPOCH_PID_VERSION, EPOCH_PID_VERSION_DARWIN_PRECISE; clear -Hversion; lia).
  rewrite !hex_decode_encode. cbn [result_bind]. unfold from_utf8.
  apply utf8_valid_Utf8 in Hexe as ->. cbn [result_bind]. apply utf8_valid_Utf8 in Hcfg as ->. cbn [result_bind].
  rewrite record_version_accepted by done. cbn [result_bind]. by destruct record.
Qed.
(** A record with microseconds, and one of an earlier version. *)
Definition precise_record : EpochPidRecord :=
  {| er_pid := 77; er_epoch := 3; er_executable := "mihomo"; er_start_token := 1800000000 * 2 ^ 20 + 999999;
     er_runtime_config := "/run/config-3.yaml" |}.
Definition seconds_record : EpochPidRecord :=
  {| er_pid := 77; er_epoch := 3; er_executable := "mihomo"; er_start_token := 1800000000;
     er_runtime_config := "/run/config-3.yaml" |}.

Lemma darwin_record_roundtrip_witness :
  parse_epoch_record (serialize_epoch_record precise_record) = Ok precise_record
  /\ parse_epoch_record (serialize_epoch_record seconds_record) = Ok seconds_record
  /\ record_version precise_record = 3 /\ record_version seconds_record = 2.
Proof.
  split; [|split; [|by split; vm_compute]].
  - apply (darwin_record_roundtrip precise_record); [|by right; vm_compute].
    split; [vm_compute; reflexivity..|apply utf8_valid_Utf8; vm_compute; reflexivity|apply utf8_valid_Utf8; vm_compute; reflexivity].
  - apply (darwin_record_roundtrip seconds_record); [|by left; vm_compute].
    split; [vm_compute; reflexivity..|apply utf8_valid_Utf8; vm_compute; reflexivity|apply utf8_valid_Utf8; vm_compute; reflexivity].
Defined.

(** ** Identities *)

Section Facts.
Context `{Host_os, DarwinHost}.

Lemma start_time_bounds pid w seconds microseconds w' :
  start_time pid w = (Ok (Some (seconds, microseconds)), w') -> microseconds < 1000000.
Proof.
  unfold start_time. case_decide; [by intros [=]|].
  intros [(size & w1 & _ & E)|(? & ? & [=])]%try_inv. cbn in E.
  apply try_inv in E as [([len record] & w2 & _ & E)|(? & ? & [=])].
  repeat case_decide; try (by injection E as ?). injection E as <- <- <-. lia.
Qed.

(** An identity is told only between two equal readings of the start time, and its
    token is that time to the microsecond. *)
Lemma identities_stand_between_equal_readings pid w identity w' :
  process_identity pid w = (Ok (Some identity), w') ->
  exists seconds microseconds w1 w2,
    start_time pid w = (Ok (Some (seconds, microseconds)), w1)
    /\ sysinfo_executable pid w1 = (pi_executable identity, w2)
    /\ start_time pid w2 = (Ok (Some (seconds, microseconds)), w')
    /\ pi_start_token identity / DARWIN_START_TOKEN_RADIX = seconds
    /\ pi_start_token identity mod DARWIN_START_TOKEN_RADIX = microseconds
    /\ pi_legacy_start_token identity = Some seconds.
Proof.
  intros [(first & w1 & E1 & E)|(? & ? & [=])]%try_inv. destruct first as [[seconds microseconds]|]; [|by injection E].
  apply bind_inv in E as (executable & w2 & E2 & E).
  apply try_inv in E as [(second & w3 & E3 & E)|(? & ? & [=])].
  case_decide as Hsame; [by injection E|]. subst second.
  apply try_inv in E as [(token & w4 & E4 & E)|(? & ? & [=])].
  unfold try_lift, act_ret in E4; injection E4 as Htoken <-. injection E as <- <-.
  destruct (precise_tokens_are_exact _ _ _ Htoken) as (_ & Hs & Hus & _).
  by exists seconds, microseconds, w1, w2.
Qed.

(** A record of the earlier version proves nothing about a process that runs now:
    it is neither killed nor taken for dead on the strength of it. *)
Lemma old_records_prove_nothing record identity :
  er_start_token record <= u32_max -> pi_legacy_start_token identity = Some (pi_start_token identity / DARWIN_START_TOKEN_RADIX) ->
  4096 <= pi_start_token identity / DARWIN_START_TOKEN_RADIX ->
  record_matches_identity record identity = false
  /\ (er_start_token record = pi_start_token identity / DARWIN_START_TOKEN_RADIX -> compare_identity record identity = IdUncertain).
Proof.
  intros Hold Hlegacy Hlate. unfold record_matches_identity, compare_identity. rewrite Hlegacy. split.
  - case_decide; [done|]. rewrite decide_True; [done|]. intros Heq.
    assert (4096 * DARWIN_START_TOKEN_RADIX <= pi_start_token identity).
    { pose proof (N.Div0.mul_div_le (pi_start_token identity) DARWIN_START_TOKEN_RADIX). nia. }
    change (4096 * DARWIN_START_TOKEN_RADIX) with (u32_max + 1) in *. lia.
  - intros ->. by rewrite decide_True.
Qed.

(** No signal without a matching identity. *)
Lemma only_proven_processes_are_signalled record w r w' :
  kill_recorded_process record w = (r, w') ->
  (exists e, r = Err e /\ (process_identity (er_pid record) w).2 = w')
  \/ exists identity w1, process_identity (er_pid record) w = (Ok (Some identity), w1)
     /\ record_matches_identity record identity = true /\ kill_pid (er_pid record) w1 = (r, w').
Proof.
  intros [(identity & w1 & E1 & E)|(e & E1 & ->)]%try_inv; [|by left; exists e; rewrite E1].
  destruct identity as [identity|]; cbn in E.
  - destruct (record_matches_identity record identity) eqn:Hm; cbn in E; [by right; exists identity, w1|].
    left. unfold try_err, act_ret in E; injection E as <- <-. eexists; split; [done|]. by rewrite E1.
  - left. unfold act_ret in E. injection E as <- <-. eexists; split; [done|]. by rewrite E1.
Qed.
End Facts.
