(* ===== verification/WindowsPids.v ===== *)
(** * Recorded processes on Windows

    [chimera-utils/src/process/pid_file.rs] as compiled for Windows: a process is
    identified and killed through one handle, names compare without case, and some
    error codes are passed over.  The host is that of [PidReap]: a world that moves
    on before every system call, which may fail. *)

From S2P Require Export PidDeath.
Open Scope rust_scope.
Open Scope act_scope.

(** ** Names and errors *)

(** [str::eq_ignore_ascii_case]. *)
Definition to_ascii_lowercase (a : Ascii.ascii) : Ascii.ascii :=
  if in_range 65 90 a then Ascii.ascii_of_N (Ascii.N_of_ascii a + 32) else a.
Fixpoint exe_names_equal (one other : string) : bool :=
  match one, other with
  | EmptyString, EmptyString => true
  | String a one, String b other =>
      bool_decide (to_ascii_lowercase a = to_ascii_lowercase b) && exe_names_equal one other
  | _, _ => false
  end.
Definition recorded_executable_matches (recorded observed : string) : bool := exe_names_equal recorded observed.

Definition compare_identity (record : EpochPidRecord) (identity : ProcessIdentity) : IdentityMatch :=
  if decide (pi_legacy_start_token identity = Some (er_start_token record)) then IdUncertain
  else if decide (er_start_token record <> pi_start_token identity) then IdReused
  else match pi_executable identity with
       | Some executable =>
           if recorded_executable_matches (er_executable record) executable then IdSame else IdUncertain
       | None => IdUncertain
       end.
Definition record_matches_identity (record : EpochPidRecord) (identity : ProcessIdentity) : bool :=
  bool_decide (compare_identity record identity = IdSame).

Definition ERROR_INVALID_HANDLE : N := 6.
Definition ERROR_GEN_FAILURE : N := 31.
Definition ERROR_INVALID_PARAMETER : N := 87.
Definition ERROR_NOT_FOUND : N := 1168.

(** [Error::from_raw_os_error], for the codes that have a kind the code looks at. *)
Definition from_raw_os_error (raw : N) (text : string) : StdError :=
  {| se_kind := if decide (raw = 2 \/ raw = 3) then EkNotFound
                else if decide (raw = 5) then EkPermissionDenied
                else if decide (raw = ERROR_INVALID_PARAMETER) then EkInvalidInput
                else EkOther;
     se_raw := Some raw; se_text := text |}.

(** An [HRESULT] of facility Win32 carries the code of the system. *)
Definition windows_io_error (code : N) (text : string) : StdError :=
  if decide (N.land code 0xffff0000 = 0x80070000) then from_raw_os_error (N.land code 0xffff) text
  else std_error EkOther text.

Definition identity_query_is_provisional (error : StdError) : bool :=
  bool_decide (se_kind error = EkPermissionDenied)
  || match se_raw error with
     | Some raw => bool_decide (raw ∈ [ERROR_INVALID_HANDLE; ERROR_GEN_FAILURE; ERROR_INVALID_PARAMETER; ERROR_NOT_FOUND])
     | None => false
     end.

(** [Path::file_name] of the image of a process: what stands behind the last
    separator, unless it is a drive or no name. *)
Fixpoint split_separators (current s : string) : list string :=
  match s with
  | EmptyString => [current]
  | String a s =>
      if decide (a = Ascii.ascii_of_N 92 \/ a = "/"%char) then current :: split_separators "" s
      else split_separators (current +:+ String a "") s
  end.
Definition windows_file_name (path : string) : option string :=
  match last (filter (fun c => c <> "" /\ c <> ".") (split_separators "" path)) with
  | Some c => if decide (c = ".." \/ ends_with ":" c = true) then None else Some c
  | None => None
  end.

(** A handle keeps its process, whatever becomes of the number. *)
Record OwnedProcessHandle := { h_process : Proc }.

(** What the kernel tells about a process as long as a handle is open: both halves
    of its creation time, and the path of its image. *)
Class WindowsHost := {
  wn_creation : Proc -> N * N;
  wn_image : Proc -> string;
}.

Section Identity.
Context `{Host_os, WindowsHost}.

Definition open_process (pid : N) : Try OwnedProcessHandle :=
  call (fun w =>
    (match w_procs w !! pid with
     | Some p => Ok {| h_process := p |}
     | None => Err (windows_io_error 0x80070057 "The parameter is incorrect. (os error 87)")
     end, w)).

(** [WaitForSingleObject] with no time to wait. *)
Definition process_handle_is_terminated (handle : OwnedProcessHandle) : Try bool :=
  call (fun w => (Ok (negb (listed (pr_id (h_process handle)) w)), w)).

Definition process_identity_from_handle (handle : OwnedProcessHandle) (pid : N) : Try ProcessIdentity :=
  try* terminated := process_handle_is_terminated handle in
  if (terminated : bool) then try_err (std_error EkNotFound ("pid " +:+ show_N pid +:+ " has terminated"))
  else
    try* creation := call (fun w => (Ok (wn_creation (h_process handle)), w)) in
    try* path := call (fun w => (Ok (wn_image (h_process handle)), w)) in
    try* executable := try_lift (ok_or (windows_file_name path)
      (identity_error ("cannot resolve executable for live pid " +:+ show_N pid))) in
    try_ret {| pi_executable := Some executable;
               pi_start_token := N.lor (N.shiftl (fst creation) 32) (snd creation);
               pi_legacy_start_token := None |}.

Definition process_identity (pid : N) : Try (option ProcessIdentity) :=
  do* handle := open_process pid in
  match handle with
  | Err error => if decide (se_raw error = Some ERROR_INVALID_PARAMETER) then try_ret None else try_err error
  | Ok handle =>
      do* r := process_identity_from_handle handle pid in
      match r with
      | Ok identity => try_ret (Some identity)
      | Err error => if decide (se_kind error = EkNotFound) then try_ret None else try_err error
      end
  end.

(** [TerminateProcess] hits the process of the handle, if it still runs. *)
Definition terminate_process (handle : OwnedProcessHandle) : Try () :=
  call (fun w =>
    if listed (pr_id (h_process handle)) w then (Ok tt, with_signal (pr_id (h_process handle)) w)
    else (Err (windows_io_error 0x80070005 "Access is denied. (os error 5)"), w)).

Definition kill_recorded_process (record : EpochPidRecord) : Try () :=
  try* handle := open_process (er_pid record) in
  try* identity := process_identity_from_handle handle (er_pid record) in
  if negb (record_matches_identity record identity) then try_err (cannot_prove record)
  else terminate_process handle.
End Identity.

Section Facts.
Context `{Host_os, WindowsHost}.

(** The host keeps no book of our signals. *)
Definition keeps_signals : Prop := forall n w, w_signalled (os_env n w) = w_signalled w.
Context (Hkeeps : keeps_signals).

Lemma call_signals {A} (op : World -> result A StdError * World) (P : World -> Prop) w r w' :
  (forall v, P v -> P (tick v)) ->
  call op w = (r, w') -> P (env_step_w w) -> (forall v, P v -> P (op v).2) -> P w'.
Proof.
  intros Htick E Hw Hop. unfold call in E. destruct (os_fault _).
  - injection E as <- <-. by apply Htick.
  - pose proof (Hop _ Hw) as Hv. destruct (op (env_step_w w)) as [a v]. injection E as <- <-. by apply Htick.
Qed.

(** A call that reads leaves the signals alone, and tells what it found at a moment
    of its own. *)
Lemma read_signals {A} (f : World -> result A StdError) w r w' :
  call (fun w => (f w, w)) w = (r, w') ->
  w_signalled w' = w_signalled w /\ (forall a, r = Ok a -> f (env_step_w w) = Ok a).
Proof.
  unfold call. intros E. destruct (os_fault _); injection E as <- <-; cbn; (split; [apply Hkeeps|]); [done|auto].
Qed.

Lemma identity_signals handle pid w r w' :
  process_identity_from_handle handle pid w = (r, w') ->
  w_signalled w' = w_signalled w
  /\ (forall identity, r = Ok identity ->
        pi_start_token identity = N.lor (N.shiftl (fst (wn_creation (h_process handle))) 32) (snd (wn_creation (h_process handle)))
        /\ pi_executable identity = windows_file_name (wn_image (h_process handle))
        /\ listed (pr_id (h_process handle)) (env_step_w w) = true).
Proof.
  intros [(terminated & w1 & E1 & E)|(e & E1 & ->)]%try_inv; apply read_signals in E1 as [Hs1 Ht]; [|by split].
  rewrite <- Hs1. specialize (Ht _ eq_refl). injection Ht as Ht.
  destruct terminated; [by injection E as <- <-|].
  apply try_inv in E as [(creation & w2 & E2 & E)|(e & E2 & ->)]; apply read_signals in E2 as [Hs2 Hc]; [|by split].
  rewrite <- Hs2. specialize (Hc _ eq_refl). injection Hc as <-.
  apply try_inv in E as [(path & w3 & E3 & E)|(e & E3 & ->)]; apply read_signals in E3 as [Hs3 Hp]; [|by split].
  rewrite <- Hs3. specialize (Hp _ eq_refl). injection Hp as <-.
  destruct (windows_file_name _) as [name|] eqn:Hname; cbn in E; injection E as <- <-; split; try done.
  intros identity [= <-]. cbn. by apply negb_false_iff in Ht.
Qed.

(** C17: Whatever the host does between two calls - the recorded process may end and its
    number may be given away at any of them -, a kill on Windows hits the process
    that had the recorded number when it was opened, and only if that very process
    has the recorded creation time and name; otherwise nothing is hit. *)
Theorem windows_kill_hits_only_the_recorded record w r w' :
  kill_recorded_process record w = (r, w') ->
  w_signalled w' = w_signalled w
  \/ exists p, w_signalled w' = pr_id p :: w_signalled w /\ r = Ok tt
     /\ w_procs (env_step_w w) !! er_pid record = Some p
     /\ N.lor (N.shiftl (fst (wn_creation p)) 32) (snd (wn_creation p)) = er_start_token record
     /\ exists name, windows_file_name (wn_image p) = Some name /\ exe_names_equal (er_executable record) name = true.
Proof.
  intros [(handle & w1 & E1 & E)|(e & E1 & ->)]%try_inv; apply read_signals in E1 as [Hs1 Hopen]; [|by left].
  rewrite <- Hs1. specialize (Hopen _ eq_refl). cbv beta in Hopen.
  destruct (w_procs (env_step_w w) !! er_pid record) as [p|] eqn:Hp; [|done]. injection Hopen as <-.
  apply try_inv in E as [(identity & w2 & E2 & E)|(e & E2 & ->)]; apply identity_signals in E2 as [Hs2 Hid]; [|by left].
  rewrite <- Hs2. destruct (Hid _ eq_refl) as (Htoken & Hexe & _). clear Hid. cbn [h_process] in *.
  destruct (record_matches_identity record identity) eqn:Hm; cbn in E; [|by injection E as <- <-; left].
  unfold record_matches_identity, compare_identity in Hm. apply bool_decide_eq_true in Hm.
  case_decide; [done|]. case_decide as Hsame; [done|].
  destruct (pi_executable identity) as [name|] eqn:Hname; [|done].
  destruct (recorded_executable_matches _ name) eqn:Hmatch; [|done].
  unfold terminate_process, call in E; cbv beta zeta in E. destruct (os_fault _); [injection E as <- <-; left; apply Hkeeps|].
  destruct (listed _ _); injection E as <- <-; [|left; apply Hkeeps].
  right. exists p. split; [cbn; by rewrite Hkeeps|]. split; [done|]. split; [done|].
  split; [congruence|].
  by exists name.
Qed.
End Facts.
(** The recorded process runs under its number; in the second host it ends behind
    the opening, and another process takes the number before the kill. *)
Definition demo_process (id start : N) : Proc :=
  {| pr_id := id; pr_ticks := start; pr_exe := Ok "mihomo.exe"; pr_parent := None |}.
Definition demo_world (procs : gmap N Proc) : World :=
  {| w_now := 0; w_procs := procs; w_seen := []; w_signalled := []; w_moments := []; w_files := ∅; w_counter := 0 |}.
Definition with_procs (procs : gmap N Proc) (w : World) : World :=
  {| w_now := w_now w; w_procs := procs; w_seen := w_seen w; w_signalled := w_signalled w; w_moments := w_moments w;
     w_files := w_files w; w_counter := w_counter w |}.
Definition demo_os (env : nat -> World -> World) : Host_os := {|
  os_env := env; os_fault := fun _ => None; os_refused := fun _ => false; os_pidfds := false; os_boot_id := ""; os_stat := fun _ _ => "";
  os_canonicalize := fun p _ => Ok p; os_process_id := 1 |}.
Definition demo_windows : WindowsHost := {|
  wn_creation := fun p => (pr_ticks p, 5);
  wn_image := fun _ => "C:" +:+ String (Ascii.ascii_of_N 92) ("cores" +:+ String (Ascii.ascii_of_N 92) "Mihomo.exe") |}.
Definition demo_record : EpochPidRecord :=
  {| er_pid := 7; er_epoch := 1; er_executable := "mihomo.exe"; er_start_token := 100 * 2 ^ 32 + 5;
     er_runtime_config := "config-1.yaml" |}.
Definition taken_over (n : nat) (w : World) : World :=
  if decide (n < 4)%nat then w else with_procs {[ 7 := demo_process 2 200 ]} w.

Lemma windows_kill_hits_only_the_recorded_witness :
  let quiet := demo_os (fun _ w => w) in
  let moving := demo_os taken_over in
  let start := demo_world {[ 7 := demo_process 1 100 ]} in
  w_signalled (@kill_recorded_process quiet demo_windows demo_record start).2 = [1]
  /\ w_signalled (@kill_recorded_process moving demo_windows demo_record start).2 = []
  /\ exists p, pr_id p = 1 /\ w_procs start !! 7 = Some p
     /\ N.lor (N.shiftl (fst (@wn_creation demo_windows p)) 32) (snd (@wn_creation demo_windows p)) = er_start_token demo_record.
Proof.
  intros quiet moving start. split; [by vm_compute|]. split; [by vm_compute|].
  destruct (@kill_recorded_process quiet demo_windows demo_record start) as [r w'] eqn:E.
  destruct (@windows_kill_hits_only_the_recorded quiet demo_windows (fun _ _ => eq_refl) demo_record start r w' E)
    as [Hno|(p & Hs & _ & Hp & Ht & _)].
  - exfalso. assert (w_signalled (@kill_recorded_process quiet demo_windows demo_record start).2 = [1]) as Hyes by by vm_compute.
    rewrite E in Hyes; cbn in Hyes. rewrite Hno in Hyes. discriminate Hyes.
  - exists p. split; [|by split].
    assert (w_signalled (@kill_recorded_process quiet demo_windows demo_record start).2 = [1]) as Hyes by by vm_compute.
    rewrite E in Hyes; cbn in Hyes. rewrite Hs in Hyes. by injection Hyes.
Defined.
