(* ===== verification/WindowsHelpers.v ===== *)
(** * Pipe contention and the shutdown helper

    Two parts of [chimera-utils] for Windows hosts: [reqwest_ext.rs], which sends a
    request again while the pipe of the service is busy, and
    [process/windows_shutdown.rs], the hidden console of the service and the helper
    process that asks a core to stop.

    The HTTP client, the clock and the back-off are arguments ([PipeSender]); errors
    are the chains that [Error::source] walks.  The loop of [retry_send] carries fuel,
    and [retries_end_within_their_budget] shows that twenty-one rounds are enough. *)

From S2P Require Import Prelude Text PidRecord.
Open Scope rust_scope.

(** ** Errors that may be sent again *)

(** One error of a chain: one of reqwest with its sources, or any other. *)
Inductive Source := SourceIo (raw : option Z) | SourceOther.
Inductive Cause := CauseReqwest (is_connect : bool) (sources : list Source) | CauseOther.

Definition ERROR_PIPE_BUSY : Z := 231.

Fixpoint first_io (sources : list Source) : bool :=
  match sources with
  | [] => false
  | SourceIo raw :: _ => bool_decide (raw = Some ERROR_PIPE_BUSY)
  | SourceOther :: rest => first_io rest
  end.
Fixpoint busy_chain (chain : list Cause) : bool :=
  match chain with
  | [] => false
  | CauseReqwest is_connect sources :: _ => if negb is_connect then false else first_io sources
  | CauseOther :: rest => busy_chain rest
  end.
Definition is_named_pipe_busy (windows : bool) (chain : list Cause) : bool :=
  if negb windows then false else busy_chain chain.

(** ** Sending *)

Definition retry_min_delay : Duration := duration_from_millis 50.
Definition retry_budget : Duration := duration_from_secs 1.

(** A client: whether a request can be cloned, sending, sleeping, and the clock. *)
Class PipeSender := {
  Request : Type;
  Response : Type;
  SendError : Type;
  State : Type;
  chain_of : SendError -> list Cause;
  try_clone : Request -> option Request;
  send : Request -> State -> result Response SendError * State;
  sleep : Duration -> State -> State;
  now : State -> N;
  delay : nat -> option Duration;
}.

Section Retry.
Context `{PipeSender} (windows : bool).

(** The answers of all sends, the last one first, which is what the caller gets. *)
Fixpoint retry_loop (fuel : nat) (started : N) (attempt : nat) (request : Request) (s : State)
    (before : list (result Response SendError)) : option (list (result Response SendError) * State) :=
  match fuel with
  | O => None
  | S fuel =>
      let next := try_clone request in
      let '(answer, s) := send request s in
      let answers := answer :: before in
      match answer with
      | Err error =>
          if is_named_pipe_busy windows (chain_of error) then
            match next, delay attempt with
            | Some next, Some d =>
                if decide (retry_budget < now s - started + d) then Some (answers, s)
                else retry_loop fuel started (S attempt) next (sleep d s) answers
            | _, _ => Some (answers, s)
            end
          else Some (answers, s)
      | Ok _ => Some (answers, s)
      end
  end.
Definition retry_send (request : Request) (s : State) : option (list (result Response SendError) * State) :=
  retry_loop 21 (now s) 0 request s [].

(** The clock does not go back, a sleep lasts at least as long as was asked for, and
    no delay of the back-off is below its minimum. *)
Record ClockOk : Prop := {
  clock_send : forall request s, now s <= now (send request s).2;
  clock_sleep : forall d s, now s + d <= now (sleep d s);
  clock_delay : forall n d, delay n = Some d -> retry_min_delay <= d }.

Definition busy_answer (answer : result Response SendError) : Prop :=
  match answer with Err error => is_named_pipe_busy windows (chain_of error) = true | Ok _ => False end.

Lemma retry_loop_ends (clock : ClockOk) fuel : forall started attempt request s before,
  (fuel + attempt = 21)%nat -> N.of_nat attempt * retry_min_delay <= retry_budget ->
  started + N.of_nat attempt * retry_min_delay <= now s ->
  length before = attempt -> Forall busy_answer before ->
  exists answer before' s', retry_loop fuel started attempt request s before = Some (answer :: before', s')
    /\ (length before' <= 20)%nat /\ Forall busy_answer before'.
Proof.
  assert (Hunit : retry_budget = 20 * retry_min_delay /\ 0 < retry_min_delay) by done.
  induction fuel as [|fuel IH]; intros started attempt request s before Hfuel Hroom Hnow Hlen Hbusy; [nia|].
  cbn [retry_loop]. pose proof (clock_send clock request s) as Hsend.
  destruct (send request s) as [answer s1]; cbn in Hsend.
  assert (Hstop : exists answer0 before' s', Some (answer :: before, s1) = Some (answer0 :: before', s')
                    /\ (length before' <= 20)%nat /\ Forall busy_answer before')
    by (eexists _, _, _; split; [done|]; split; [nia|done]).
  destruct answer as [response|error]; [done|].
  destruct (is_named_pipe_busy windows (chain_of error)) eqn:Ebusy; [|done].
  destruct (try_clone request) as [next|]; [|done].
  destruct (delay attempt) as [d|] eqn:Ed; [|done]. pose proof (clock_delay clock _ _ Ed) as Hd.
  case_decide as Hlate; [done|].
  assert (started <= now s1) by (unfold retry_min_delay in *; lia).
  apply IH; [lia|lia| |cbn; lia|by constructor].
  pose proof (clock_sleep clock d s1). lia.
Qed.

(** A send ends after at most twenty-one rounds, whatever the pipe does: only an
    attempt that found the pipe busy is followed by another, so a request is never
    repeated once a connection stood, and the delays in between fit the budget. *)
Theorem retries_end_within_their_budget (clock : ClockOk) request s :
  exists answer before s', retry_send request s = Some (answer :: before, s')
    /\ (length before <= 20)%nat /\ Forall busy_answer before.
Proof. apply (retry_loop_ends clock); [done|done|lia|done|constructor]. Qed.

(** Other hosts, and requests whose body cannot be repeated, send once. *)
Lemma other_hosts_send_once request s :
  windows = false -> retry_send request s = Some ([(send request s).1], (send request s).2).
Proof.
  intros Hhost. unfold retry_send; cbn [retry_loop]. destruct (send request s) as [[|error] s1]; [done|].
  unfold is_named_pipe_busy. by rewrite Hhost.
Qed.
Lemma unrepeatable_requests_are_sent_once request s :
  try_clone request = None -> retry_send request s = Some ([(send request s).1], (send request s).2).
Proof.
  intros Hclone. unfold retry_send; cbn [retry_loop]. rewrite Hclone.
  destruct (send request s) as [[|error] s1]; [done|]. by destruct (is_named_pipe_busy _ _).
Qed.
End Retry.

(** A pipe that stays busy: the clock in milliseconds of a service that never
    answers. *)
#[local] Instance busy_pipe : PipeSender := {|
  Request := unit; Response := unit; SendError := unit; State := N;
  chain_of := fun _ => [CauseOther; CauseReqwest true [SourceOther; SourceIo (Some ERROR_PIPE_BUSY)]];
  try_clone := fun _ => Some tt;
  send := fun _ s => (Err tt, s);
  sleep := fun d s => s + d;
  now := fun s => s;
  delay := fun n => Some (match n with O => retry_min_delay | 1%nat => 2 * retry_min_delay | _ => 4 * retry_min_delay end) |}.

Lemma busy_clock : ClockOk.
Proof.
  split; [done|done|]. intros [|[|n]] d [= <-]; by vm_compute.
Qed.

Lemma retries_end_within_their_budget_witness :
  exists answer before s', retry_send true tt 7 = Some (answer :: before, s')
    /\ (length before <= 20)%nat /\ Forall (busy_answer true) before /\ length before = 6%nat.
Proof.
  destruct (retries_end_within_their_budget true busy_clock tt 7) as (answer & before & s' & E & Hlen & Hbusy).
  exists answer, before, s'. split; [exact E|]. split; [exact Hlen|]. split; [exact Hbusy|].
  vm_compute in E. injection E as _ <- _. reflexivity.
Defined.

(** ** The shutdown helper *)

Definition HELPER_ARG := "--chimera-process-shutdown".
Definition CREATE_NO_WINDOW : N := 0x08000000.

(** [windows_shutdown_helper_entry]: [args] are those behind the program's name, an
    argument that is not Unicode is [None]. *)
Definition parse_pid (arg : option string) : option N := arg ≫= from_str_radix 10 (2 ^ 32).
Definition invalid_target : StdError := invalid_input "invalid shutdown target".
Definition windows_shutdown_helper_entry (send_ctrl_break : N -> result () StdError) (args : list (option string))
    : option (result () StdError) :=
  match args with
  | Some first :: rest =>
      if negb (bool_decide (first = HELPER_ARG)) then None
      else
        let pid := match rest with
                   | [arg] => parse_pid arg
                   | _ => None
                   end in
        Some (match pid with Some pid => send_ctrl_break pid | None => Err invalid_target end)
  | _ => None
  end.

(** The console calls of the kernel, each with an answer of its own. *)
Inductive ConsoleCall := FreeConsole | AttachConsole (pid : N) | CtrlBreak (pid : N).
Definition send_ctrl_break (attach : N -> result () StdError) (generate : N -> result () StdError) (pid : N)
    : result () StdError * list ConsoleCall :=
  match attach pid with
  | Err e => (Err e, [FreeConsole; AttachConsole pid])
  | Ok _ => (generate pid, [FreeConsole; AttachConsole pid; CtrlBreak pid; FreeConsole])
  end.

(** The answers of a host while the console is set up: whether it has a console at
    first, behind the newer call and at the end; what the newer call, which makes a
    console without a window, answers ([None] if the host has no such call); whether
    the older call succeeds and a window is found. *)
Record ConsoleHost := {
  ch_first : bool;
  ch_without_window : option bool;
  ch_behind : bool;
  ch_alloc : bool;
  ch_window : bool;
  ch_last : bool;
}.
Inductive SetupCall := MadeWithoutWindow | MadeWithWindow | HidWindow | Detached.
Definition allocate_without_window (h : ConsoleHost) : bool * list SetupCall :=
  match ch_without_window h with
  | None => (false, [])
  | Some true => (ch_behind h, [MadeWithoutWindow])
  | Some false => (false, [])
  end.
(** Whether the host has a console then, and what was done. *)
Definition allocate_shutdown_console (h : ConsoleHost) : bool * list SetupCall :=
  if ch_first h then (true, [])
  else
    let '(made, calls) := allocate_without_window h in
    if made then (true, calls)
    else if negb (ch_alloc h) then (ch_last h, calls)
    else if negb (ch_window h) then (false, calls ++ [MadeWithWindow; Detached])
    else (ch_last h, calls ++ [MadeWithWindow; HidWindow]).
(** [CONSOLE_READY]: the first answer is kept. *)
Definition prepare_shutdown_console (kept : option bool) (h : ConsoleHost) : bool * option bool * list SetupCall :=
  match kept with
  | Some ready => (ready, kept, [])
  | None => let '(ready, calls) := allocate_shutdown_console h in (ready, Some ready, calls)
  end.

(** One request per process. *)
Record Shutdown := { sh_helper : string; sh_pid : N; sh_requested : bool }.
Definition Shutdown_new (helper : string) (pid : N) : Shutdown :=
  {| sh_helper := helper; sh_pid := pid; sh_requested := false |}.
Record HelperCommand := { hc_program : string; hc_args : list string; hc_flags : N; hc_kill_on_drop : bool }.
Definition request (self : Shutdown) : option HelperCommand * Shutdown :=
  let requested := {| sh_helper := sh_helper self; sh_pid := sh_pid self; sh_requested := true |} in
  if sh_requested self then (None, requested)
  else (Some {| hc_program := sh_helper self; hc_args := [HELPER_ARG; show_N (sh_pid self)];
                hc_flags := CREATE_NO_WINDOW; hc_kill_on_drop := true |}, requested).

Fixpoint requests (n : nat) (self : Shutdown) : list HelperCommand :=
  match n with
  | O => []
  | S n => option_list (fst (request self)) ++ requests n (snd (request self))
  end.

(** No window stays: one that was made is hidden or given up at once, and a console
    that was there is left alone. *)
Lemma no_window_stays h :
  let calls := (allocate_shutdown_console h).2 in
  (ch_first h = true -> calls = [])
  /\ (MadeWithWindow ∈ calls -> last calls = Some HidWindow \/ last calls = Some Detached).
Proof.
  unfold allocate_shutdown_console, allocate_without_window.
  destruct (ch_first h), (ch_without_window h) as [[]|], (ch_behind h), (ch_alloc h), (ch_window h); cbn;
    split; try done; intros Hin; try (by left); try (by right).
  all: by repeat (apply elem_of_cons in Hin as [?|Hin]; [done|]); apply elem_of_nil in Hin.
Qed.

Lemma requested_is_silent n self : sh_requested self = true -> requests n self = [].
Proof. revert self; induction n as [|n IH]; intros self Hr; [done|]. cbn. unfold request. rewrite Hr. by apply IH. Qed.

(** However often a stop asks, one helper is started, and it is told the process that
    the helper's own entry reads back and sends the event to. *)
Theorem one_helper_per_process helper pid n send :
  pid < 2 ^ 32 -> (0 < n)%nat ->
  exists command, requests n (Shutdown_new helper pid) = [command]
    /\ hc_program command = helper
    /\ windows_shutdown_helper_entry send (map Some (hc_args command)) = Some (send pid).
Proof.
  intros Hpid Hn. destruct n as [|n]; [lia|]. cbn. rewrite requested_is_silent by done.
  eexists; split; [done|]. split; [done|]. cbn [hc_args map windows_shutdown_helper_entry].
  rewrite bool_decide_true by done. cbn. unfold parse_pid; cbn. by rewrite from_str_radix_show.
Qed.
Lemma one_helper_per_process_witness :
  exists command, requests 3 (Shutdown_new "service.exe" 4711) = [command]
    /\ hc_program command = "service.exe"
    /\ windows_shutdown_helper_entry (fun _ => Ok tt) (map Some (hc_args command)) = Some (Ok tt).
Proof. apply (one_helper_per_process "service.exe" 4711 3 (fun _ => Ok tt)); [done|lia]. Defined.
