(* ===== verification/NativeStore.v ===== *)
(** * The native store of a core

    [native_store/fs.rs]: the data a core keeps across epochs (selections,
    fake-IP tables, geo databases) in a directory the manager owns.  Directories
    and files are inodes that are reached through pinned handles; every system
    call may fail, a write behind its first bytes.  [NativeStoreSafety] says what
    the operations never touch, [NativeLease] that no two cores ever share the
    store. *)

From S2P Require Import Prelude Text Types Yaml PidRecord.
From S2P Require Paths.
Open Scope rust_scope.

(** ** The format of a cache *)

Definition u32_at (header : list Byte.byte) (offset : nat) : N :=
  foldr (fun b acc => Byte.to_N b + 256 * acc) 0 (take 4 (drop offset header)).
Definition u64_at (header : list Byte.byte) (offset : nat) : N :=
  foldr (fun b acc => Byte.to_N b + 256 * acc) 0 (take 8 (drop offset header)).

Definition BOLT_MAGIC : N := 3977041645.
(** One of the two meta pages of a bbolt file; [header] has 80 bytes. *)
Definition valid_meta (header : list Byte.byte) : bool :=
  bool_decide (u32_at header 16 = BOLT_MAGIC) && bool_decide (u32_at header 20 = 2)
  && bool_decide (fnv1a (take 56 (drop 16 header)) = u64_at header 72).

Inductive CacheFormat := FmtEmpty | FmtYaml | FmtBolt | FmtUnknown.
#[export] Instance CacheFormat_eq_dec : EqDecision CacheFormat.
Proof. solve_decision. Defined.

Definition CACHE_KEYS : list string := ["selected"; "ip_to_host"; "host_to_ip"].
Definition MAX_CACHE_SIZE : N := 64 * 1024 * 1024.
(** [Value::is_string] looks through tags. *)
Definition is_string (v : Value) : bool := match untag v with VString _ => true | _ => false end.
Definition is_power_of_two (n : N) : bool := bool_decide (n <> 0 /\ N.land n (n - 1) = 0).

(** What the store takes from the crates that read YAML and JSON: the document
    of some bytes, and whether they are a map of strings. *)
Class StoreText := {
  store_yaml : list Byte.byte -> option Value;
  store_json : list Byte.byte -> bool;
}.

Section Format.
Context `{StoreText}.

Definition yaml_cache (bytes : list Byte.byte) : CacheFormat :=
  match store_yaml bytes with
  | Some (VMapping map) =>
      if negb (existsb (fun key => bool_decide (is_Some (map_get map key))) CACHE_KEYS) then FmtUnknown
      else if forallb (fun key =>
                match map_get map key with
                | Some value =>
                    match as_mapping value with
                    | Some entries => forallb (fun '(k, v) => is_string k && is_string v) entries
                    | None => false
                    end
                | None => true
                end) CACHE_KEYS
      then FmtYaml else FmtUnknown
  | _ => FmtUnknown
  end.
(** [cache_format] of the bytes of a file. *)
Definition cache_format (bytes : list Byte.byte) : CacheFormat :=
  let size := N.of_nat (length bytes) in
  let header := take 80 bytes in
  if bool_decide (size = 0) then FmtEmpty
  else if bool_decide (80 <= N.of_nat (length header)) && bool_decide (u32_at header 16 = BOLT_MAGIC) then
    let page_size := u32_at header 24 in
    if negb (bool_decide (1024 <= page_size <= 65536)) || negb (is_power_of_two page_size)
       || bool_decide (size < page_size * 2)
    then FmtUnknown
    else if valid_meta header || valid_meta (take 80 (drop (N.to_nat page_size) bytes)) then FmtBolt
    else FmtUnknown
  else if bool_decide (MAX_CACHE_SIZE < size) then FmtUnknown
  else yaml_cache bytes.
End Format.

(** ** The file system *)

(** A symbolic link is [NOther true]; other special files are [NOther false]. *)
Inductive Node :=
| NFile (contents : list Byte.byte)
| NDir (entries : gmap string N)
| NOther (symlink : bool).
Record Inode := { in_node : Node; in_uid : N; in_gid : N; in_mode : N; in_mtime : N }.

(** What a system call does: all of it, or nothing; a write may fail behind its
    first bytes. *)
Inductive Answer := AnOk | AnFail (denied : bool) (written : nat).

(** The inodes; the directories that are opened by path; the inodes whose
    advisory lock is taken; the ids of the process; the clock; the answers to
    come (behind the last one every call succeeds). *)
Record Fs := {
  fs_inodes : gmap N Inode;
  fs_roots : gmap string N;
  fs_locks : gset N;
  fs_uid : N;
  fs_gid : N;
  fs_clock : N;
  fs_answers : list Answer;
}.
Definition with_inodes (inodes : gmap N Inode) (fs : Fs) : Fs :=
  {| fs_inodes := inodes; fs_roots := fs_roots fs; fs_locks := fs_locks fs; fs_uid := fs_uid fs; fs_gid := fs_gid fs;
     fs_clock := fs_clock fs; fs_answers := fs_answers fs |}.
Definition with_locks (locks : gset N) (fs : Fs) : Fs :=
  {| fs_inodes := fs_inodes fs; fs_roots := fs_roots fs; fs_locks := locks; fs_uid := fs_uid fs; fs_gid := fs_gid fs;
     fs_clock := fs_clock fs; fs_answers := fs_answers fs |}.
Definition next_answer (fs : Fs) : Answer * Fs :=
  (default AnOk (head (fs_answers fs)),
   {| fs_inodes := fs_inodes fs; fs_roots := fs_roots fs; fs_locks := fs_locks fs; fs_uid := fs_uid fs; fs_gid := fs_gid fs;
      fs_clock := fs_clock fs + 1; fs_answers := tail (fs_answers fs) |}).

Inductive StoreError :=
| Access (error : StdError)
| Busy (path : string)
| Unsafe (path : string)
| BadFormat (path : string)
| OwnerMissing
| Recovery (path : string).

Definition St (A : Type) : Type := Fs -> result A StoreError * Fs.
Definition st_ret {A} (a : A) : St A := fun fs => (Ok a, fs).
Definition st_err {A} (e : StoreError) : St A := fun fs => (Err e, fs).
Definition st_bind {A B} (m : St A) (k : A -> St B) : St B :=
  fun fs => match m fs with (Ok a, fs) => k a fs | (Err e, fs) => (Err e, fs) end.
(** A [match] on the result of a call. *)
Definition st_case {A B} (m : St A) (k : result A StoreError -> St B) : St B :=
  fun fs => let '(r, fs) := m fs in k r fs.

Declare Scope store_scope.
Delimit Scope store_scope with store.
Notation "'let@' x ':=' m 'in' k" := (st_bind m (fun x => k))
  (at level 10, x name, m at level 100, k at level 200) : store_scope.
Notation "m ;@ k" := (st_bind m (fun _ => k)) (at level 100, k at level 200, right associativity) : store_scope.
Open Scope store_scope.

(** *** System calls *)

Definition raw_error (kind : ErrorKind) (raw : N) (text : string) : StdError :=
  {| se_kind := kind; se_raw := Some raw; se_text := text |}.
Definition ENOENT : StdError := raw_error EkNotFound 2 "No such file or directory (os error 2)".
Definition EEXIST : StdError := raw_error EkAlreadyExists 17 "File exists (os error 17)".
Definition ENOTDIR : StdError := raw_error EkOther 20 "Not a directory (os error 20)".
Definition EISDIR : StdError := raw_error EkOther 21 "Is a directory (os error 21)".
Definition ELOOP : StdError := raw_error EkOther 40 "Too many levels of symbolic links (os error 40)".
Definition EBADF : StdError := raw_error EkOther 9 "Bad file descriptor (os error 9)".
Definition fault (denied : bool) : StdError :=
  if denied then raw_error EkPermissionDenied 13 "Permission denied (os error 13)"
  else raw_error EkOther 5 "Input/output error (os error 5)".

(** A call that does all or nothing. *)
Definition sys {A} (op : Fs -> result A StdError * Fs) : St A :=
  fun fs =>
    let '(answer, fs) := next_answer fs in
    match answer with
    | AnOk => let '(r, fs) := op fs in (map_err Access r, fs)
    | AnFail denied _ => (Err (Access (fault denied)), fs)
    end.
Definition nop : St () := sys (fun fs => (Ok tt, fs)).

Definition entries (fs : Fs) (d : N) : gmap string N :=
  match fs_inodes fs !! d with Some {| in_node := NDir es |} => es | _ => ∅ end.
Definition set_entries (d : N) (es : gmap string N) (fs : Fs) : Fs :=
  with_inodes (alter (fun i => {| in_node := match in_node i with NDir _ => NDir es | node => node end;
                                 in_uid := in_uid i; in_gid := in_gid i; in_mode := in_mode i;
                                 in_mtime := in_mtime i |}) d (fs_inodes fs)) fs.
Definition contents (fs : Fs) (i : N) : list Byte.byte :=
  match fs_inodes fs !! i with Some {| in_node := NFile bytes |} => bytes | _ => [] end.
Definition set_contents (i : N) (bytes : list Byte.byte) (fs : Fs) : Fs :=
  with_inodes (alter (fun n => {| in_node := match in_node n with NFile _ => NFile bytes | node => node end;
                                 in_uid := in_uid n; in_gid := in_gid n; in_mode := in_mode n;
                                 in_mtime := fs_clock fs |}) i (fs_inodes fs)) fs.
Definition is_dir (fs : Fs) (i : N) : bool :=
  match fs_inodes fs !! i with Some {| in_node := NDir _ |} => true | _ => false end.
Definition is_file (fs : Fs) (i : N) : bool :=
  match fs_inodes fs !! i with Some {| in_node := NFile _ |} => true | _ => false end.
Definition is_symlink (fs : Fs) (i : N) : bool :=
  match fs_inodes fs !! i with Some {| in_node := NOther true |} => true | _ => false end.
Definition new_inode (node : Node) (mode : N) (fs : Fs) : N * Fs :=
  let i := fresh (dom (fs_inodes fs)) in
  (i, with_inodes (<[i := {| in_node := node; in_uid := fs_uid fs; in_gid := fs_gid fs; in_mode := mode;
                            in_mtime := fs_clock fs |}]> (fs_inodes fs)) fs).

(** The names of an inode, all over the file system: as many as [nlink] says of
    a file. *)
Definition references (fs : Fs) (i : N) : list (N * string) :=
  dn ← map_to_list (fs_inodes fs);
  match in_node dn.2 with
  | NDir es => e ← map_to_list es; if decide (e.2 = i) then [(dn.1, e.1)] else []
  | _ => []
  end.

(** Handles: of a file, possibly one that only names its inode ([O_PATH]); of a
    directory, with the path it was reached by. *)
Record File := { fl_inode : N; fl_path_only : bool }.
Record Directory := { dr_path : string; dr_inode : N }.
Definition file_of (i : N) : File := {| fl_inode := i; fl_path_only := false |}.

Definition metadata (f : File) : St Inode :=
  sys (fun fs => (match fs_inodes fs !! fl_inode f with Some i => Ok i | None => Err ENOENT end, fs)).
Definition fchown (f : File) (uid gid : N) : St () :=
  sys (fun fs =>
    if fl_path_only f then (Err EBADF, fs)
    else (Ok tt, with_inodes (alter (fun i => {| in_node := in_node i; in_uid := uid; in_gid := gid; in_mode := in_mode i;
                                                in_mtime := in_mtime i |}) (fl_inode f) (fs_inodes fs)) fs)).
Definition chmod (f : File) (mode : N) (fs : Fs) : Fs :=
  with_inodes (alter (fun i => {| in_node := in_node i; in_uid := in_uid i; in_gid := in_gid i; in_mode := mode;
                                  in_mtime := in_mtime i |}) (fl_inode f) (fs_inodes fs)) fs.
Definition set_permissions (f : File) (mode : N) : St () :=
  sys (fun fs => if fl_path_only f then (Err EBADF, fs) else (Ok tt, chmod f mode fs)).
(** Through [/proc/self/fd]. *)
Definition set_permissions_fd (f : File) (mode : N) : St () := sys (fun fs => (Ok tt, chmod f mode fs)).
Definition set_len_0 (f : File) : St () := sys (fun fs => (Ok tt, set_contents (fl_inode f) [] fs)).
(** Writing at the start of a file: what arrived replaces the first bytes. *)
Definition overwrite (bytes : list Byte.byte) (old : list Byte.byte) : list Byte.byte := bytes ++ drop (length bytes) old.
Definition write_all (f : File) (bytes : list Byte.byte) : St () :=
  fun fs =>
    let '(answer, fs) := next_answer fs in
    let put n := set_contents (fl_inode f) (overwrite (take n bytes) (contents fs (fl_inode f))) fs in
    match answer with
    | AnOk => (Ok tt, put (length bytes))
    | AnFail denied n => (Err (Access (fault denied)), put n)
    end.
Definition sync_all : St () := nop.
Definition read_to_end (f : File) : St (list Byte.byte) := sys (fun fs => (Ok (contents fs (fl_inode f)), fs)).
(** [File::try_lock]: whether the lock is taken elsewhere. *)
Definition try_lock (f : File) : St bool :=
  sys (fun fs =>
    if decide (fl_inode f ∈ fs_locks fs) then (Ok false, fs)
    else (Ok true, with_locks ({[fl_inode f]} ∪ fs_locks fs) fs)).
Definition unlock (f : File) (fs : Fs) : Fs := with_locks (fs_locks fs ∖ {[fl_inode f]}) fs.
(** The lock goes when the last handle is closed. *)
Definition releasing {A} (f : File) (m : St A) : St A := fun fs => let '(r, fs) := m fs in (r, unlock f fs).
Definition releasing_on_err {A} (f : File) (m : St A) : St A :=
  fun fs => match m fs with (Ok a, fs) => (Ok a, fs) | (Err e, fs) => (Err e, unlock f fs) end.

(** *** The owner ([StoreOwner]) *)

Inductive StoreOwner := OwnerUnix (uid gid : N) | OwnerUnknown.

Definition authorize (owner : StoreOwner) (file : File) (path : string) (directory : bool) : St () :=
  match owner with
  | OwnerUnknown => st_err OwnerMissing
  | OwnerUnix uid gid =>
      let@ meta := metadata file in
      if negb (bool_decide (in_uid meta = uid)) && negb (bool_decide (in_uid meta = 0)) then st_err (Unsafe path)
      else
        (if negb (bool_decide (in_uid meta = uid)) || negb (bool_decide (in_gid meta = gid)) then fchown file uid gid
         else st_ret tt) ;@
        let mode := if directory then 448 else 384 in
        st_case (set_permissions file mode) (fun r =>
          match r with
          | Err (Access error) =>
              if decide (se_raw error = Some 9) then set_permissions_fd file mode else st_err (Access error)
          | Err e => st_err e
          | Ok _ => st_ret tt
          end)
  end.

(** *** Directories ([Directory]) *)

Definition dir_open (path : string) : St Directory :=
  let@ i := sys (fun fs => match fs_roots fs !! path with
                           | None => (Err ENOENT, fs)
                           | Some i => (if is_dir fs i then Ok i else Err ENOTDIR, fs)
                           end) in
  let@ meta := metadata (file_of i) in
  nop ;@
  st_ret {| dr_path := path; dr_inode := i |}.

Definition mkdirat (d : N) (name : string) : St () :=
  sys (fun fs => match entries fs d !! name with
                 | Some _ => (Err EEXIST, fs)
                 | None => let '(i, fs) := new_inode (NDir ∅) 448 fs in
                           (Ok tt, set_entries d (<[name := i]> (entries fs d)) fs)
                 end).
Definition openat_dir (d : N) (name : string) : St N :=
  sys (fun fs => (match entries fs d !! name with
                  | None => Err ENOENT
                  | Some i => if is_dir fs i then Ok i else Err ENOTDIR
                  end, fs)).
Definition child (d : Directory) (name : string) (owner : StoreOwner) : St Directory :=
  st_case (mkdirat (dr_inode d) name) (fun r =>
    match r with
    | Err (Access error) => if decide (se_kind error = EkAlreadyExists) then st_ret tt else st_err (Access error)
    | Err e => st_err e
    | Ok _ => st_ret tt
    end) ;@
  let@ i := openat_dir (dr_inode d) name in
  let path := path_join (dr_path d) name in
  authorize owner (file_of i) path true ;@
  st_ret {| dr_path := path; dr_inode := i |}.

(** [openat] of a file without following links. *)
Definition openat_file (d : N) (name : string) (write create : bool) : St N :=
  sys (fun fs => match entries fs d !! name with
                 | Some i =>
                     (if is_symlink fs i then Err ELOOP
                      else if write && is_dir fs i then Err EISDIR else Ok i, fs)
                 | None =>
                     if negb create then (Err ENOENT, fs)
                     else if negb (is_dir fs d) then (Err ENOTDIR, fs)
                     else
                       let '(i, fs) := new_inode (NFile []) 384 fs in
                       (Ok i, set_entries d (<[name := i]> (entries fs d)) fs)
                 end).
(** A regular file with one name. *)
Definition single (fs : Fs) (i : N) : bool := is_file fs i && bool_decide (length (references fs i) = 1%nat).
Definition stat_single (i : N) : St bool := sys (fun fs => (Ok (single fs i), fs)).
Definition raw_file (d : Directory) (name : string) (write create : bool) : St File :=
  let@ i := openat_file (dr_inode d) name write create in
  let@ ok := stat_single i in
  if ok then st_ret (file_of i) else st_err (Unsafe (path_join (dr_path d) name)).
Definition permission_handle (d : Directory) (name : string) : St File :=
  let@ i := sys (fun fs => (match entries fs (dr_inode d) !! name with Some i => Ok i | None => Err ENOENT end, fs)) in
  let@ ok := stat_single i in
  if ok then st_ret {| fl_inode := i; fl_path_only := true |} else st_err (Unsafe (path_join (dr_path d) name)).
Definition read (d : Directory) (name : string) : St File := raw_file d name false false.
Definition file (d : Directory) (name : string) (owner : StoreOwner) (create : bool) : St File :=
  st_case (read d name) (fun r =>
    match r with
    | Ok f => authorize owner f (path_join (dr_path d) name) false
    | Err (Access e) =>
        if decide (se_kind e = EkPermissionDenied) then
          let@ handle := permission_handle d name in
          authorize owner handle (path_join (dr_path d) name) false
        else if decide (se_kind e = EkNotFound /\ create = true) then st_ret tt
        else st_err (Access e)
    | Err e => st_err e
    end) ;@
  let@ f := raw_file d name true create in
  authorize owner f (path_join (dr_path d) name) false ;@
  st_ret f.
Definition exists_ (d : Directory) (name : string) : St bool :=
  st_case (read d name) (fun r =>
    match r with
    | Ok _ => st_ret true
    | Err (Access e) => if decide (se_kind e = EkNotFound) then st_ret false else st_err (Access e)
    | Err e => st_err e
    end).
Definition unlinkat (d : N) (name : string) : St () :=
  sys (fun fs => match entries fs d !! name with
                 | None => (Err ENOENT, fs)
                 | Some i => if is_dir fs i then (Err EISDIR, fs) else (Ok tt, set_entries d (delete name (entries fs d)) fs)
                 end).
Definition remove (d : Directory) (name : string) : St () :=
  st_case (unlinkat (dr_inode d) name) (fun r =>
    match r with
    | Err (Access e) => if decide (se_kind e = EkNotFound) then st_ret tt else st_err (Access e)
    | Err e => st_err e
    | Ok _ => st_ret tt
    end).
(** [renameat] within one directory. *)
Definition rename (d : Directory) (old new : string) : St () :=
  sys (fun fs =>
    let es := entries fs (dr_inode d) in
    match es !! old with
    | None => (Err ENOENT, fs)
    | Some i =>
        if match es !! new with Some j => is_dir fs j | None => false end then (Err EISDIR, fs)
        else (Ok tt, set_entries (dr_inode d) (<[new := i]> (delete old es)) fs)
    end).
Definition dir_sync (d : Directory) : St () := nop.

(** [repair_tree]: the entries are those of the handle's directory.  Every level
    of directories uses one unit of fuel. *)
Fixpoint each {A} (f : A -> St ()) (l : list A) : St () :=
  match l with [] => st_ret tt | a :: l => f a ;@ each f l end.
Definition read_dir (d : Directory) : St (list (string * bool)) :=
  sys (fun fs => (Ok ((fun e => (e.1, is_dir fs e.2)) <$> map_to_list (entries fs (dr_inode d))), fs)).
Fixpoint repair_tree (fuel : nat) (owner : StoreOwner) (d : Directory) : St () :=
  match fuel with
  | O => st_err (Access ELOOP)
  | S fuel =>
      authorize owner (file_of (dr_inode d)) (dr_path d) true ;@
      let@ listing := read_dir d in
      each (fun '(name, directory) =>
        if negb (utf8_valid name) then st_err (Unsafe (dr_path d))
        else if (directory : bool) then let@ c := child d name owner in repair_tree fuel owner c
        else let@ f := file d name owner false in st_ret tt) listing
  end.

(** ** What is kept, and where *)

Section Store.
Context `{StoreText}.

(** [cache_format] of a file. *)
Definition file_format (f : File) : St CacheFormat :=
  let@ meta := metadata f in
  match in_node meta with
  | NFile [] => st_ret FmtEmpty
  | _ => let@ bytes := read_to_end f in st_ret (cache_format bytes)
  end.
(** A failure to read counts as a bad format. *)
Definition validate_selector_json (f : File) (path : string) : St () :=
  let@ meta := metadata f in
  if bool_decide (MAX_CACHE_SIZE < N.of_nat match in_node meta with NFile bytes => length bytes | _ => 0%nat end)
  then st_err (BadFormat path)
  else st_case (read_to_end f) (fun r =>
    match r with
    | Ok bytes => if store_json bytes then st_ret tt else st_err (BadFormat path)
    | Err _ => st_err (BadFormat path)
    end).

Definition RESOURCES : list string :=
  ["Country.mmdb"; "geoip.dat"; "GeoIP.dat"; "geosite.dat"; "GeoSite.dat"; "geoip.metadb"; "geoip.db"; "ASN.mmdb";
   "BundleMRS.7z"; "wintun.dll"].

Definition copy_file (source : File) (target : Directory) (name : string) (owner : StoreOwner) : St () :=
  let temp := name +:+ ".import" in
  let@ f := file target temp owner true in
  set_len_0 f ;@
  let@ bytes := read_to_end source in
  write_all f bytes ;@
  sync_all ;@
  rename target temp name ;@
  dir_sync target.
Definition copy_once (source : File) (target : Directory) (name : string) (owner : StoreOwner) : St () :=
  let@ present := exists_ target name in
  if present then st_ret tt else copy_file source target name owner.

Definition seed_resource (source target : Directory) (owner : StoreOwner) (name : string) : St () :=
  let@ present := exists_ source name in
  if negb present then st_ret tt
  else
    let@ input := read source name in
    let@ present := exists_ target name in
    let@ replace :=
      (if present then
         let@ new := metadata input in
         let@ f := read target name in
         let@ old := metadata f in
         st_ret (bool_decide (in_mtime old < in_mtime new))
       else st_ret true) in
    if replace then copy_file input target name owner else st_ret tt.
Definition seed_resources (source target : Directory) (owner : StoreOwner) : St () :=
  each (seed_resource source target owner) RESOURCES.

(** [FsNativeStore]. *)
Record NativeStore := { ns_data : string; ns_owner : StoreOwner; ns_legacy_kind : option CoreKind }.

Definition directories (store : NativeStore) (kind : CoreKind) : St (Directory * Directory * Directory) :=
  match ns_owner store with
  | OwnerUnknown => st_err OwnerMissing
  | owner =>
      let@ data := dir_open (ns_data store) in
      let@ root := child data "native-store" owner in
      let@ version := child root "v1" owner in
      let@ home := child version (CoreKind_as_ref kind) owner in
      st_ret (data, root, home)
  end.

Definition quoted (s : string) : string := String (Ascii.ascii_of_N 34) (s +:+ String (Ascii.ascii_of_N 34) "").
(** A marker takes the place of the old one in one step. *)
Definition put_marker (root : Directory) (temp name : string) (bytes : list Byte.byte) (owner : StoreOwner) : St () :=
  let@ marker := file root temp owner true in
  set_len_0 marker ;@
  write_all marker bytes ;@
  sync_all ;@
  rename root temp name ;@
  dir_sync root.

Definition migrate_meow (store : NativeStore) (data root home : Directory) : St () :=
  let name := "selector-cache.json" in
  let@ imported := exists_ home name in
  if imported then st_ret tt else
  let@ marked := exists_ root "meow-migrated.json" in
  if marked then st_ret tt else
  let@ present := exists_ data name in
  if negb present then st_ret tt else
  let@ source := read data name in
  validate_selector_json source (path_join (dr_path data) name) ;@
  let@ backup := child root "migration" (ns_owner store) in
  copy_once source backup "selector-cache.json.backup" (ns_owner store) ;@
  copy_once source home name (ns_owner store) ;@
  put_marker root "meow-migrated.new" "meow-migrated.json" (bytes_of_string ("{" +:+ quoted "version" +:+ ":1}")) (ns_owner store).


(** The core a legacy cache belongs to: its bytes tell YAML caches apart from
    bbolt ones, and only the host knows which core wrote those. *)
Definition cache_source (store : NativeStore) (format : CacheFormat) (path : string) : result (option CoreKind) StoreError :=
  match format with
  | FmtYaml => Ok (Some (if decide (ns_legacy_kind store = Some ChimeraClient) then ChimeraClient else ClashRust))
  | FmtBolt =>
      match ns_legacy_kind store with
      | Some Mihomo => Ok (Some Mihomo)
      | Some ClashPremium => Ok (Some ClashPremium)
      | _ => Err (BadFormat path)
      end
  | FmtEmpty => Ok None
  | FmtUnknown => Err (BadFormat path)
  end.
Definition st_lift {A} (r : result A StoreError) : St A := fun fs => (r, fs).

(** [migrate] behind the lock of the legacy cache. *)
Definition migrate_locked (store : NativeStore) (old : File) (data root : Directory) : St () :=
  let owner := ns_owner store in
  let@ format := file_format old in
  let@ source := st_lift (cache_source store format (path_join (dr_path data) "cache.db")) in
  match source with
  | None => st_ret tt
  | Some source_kind =>
      let@ migration := child root "migration" owner in
      copy_once old migration "cache.db.backup" owner ;@
      let@ version := child root "v1" owner in
      let@ target := child version (CoreKind_as_ref source_kind) owner in
      let@ present := exists_ target "cache.db" in
      (if present then st_ret tt else copy_once old target "cache.db" owner) ;@
      put_marker root "migration.new" "migration.json"
        (bytes_of_string ("{" +:+ quoted "version" +:+ ":1," +:+ quoted "kind" +:+ ":" +:+ quoted (CoreKind_as_ref source_kind)
                            +:+ "}")) owner
  end.
Definition migrate (store : NativeStore) (data root home : Directory) : St () :=
  let@ imported := exists_ home "cache.db" in
  let@ marked := (if imported then st_ret true else exists_ root "migration.json") in
  if marked then st_ret tt else
  let@ present := exists_ data "cache.db" in
  if negb present then st_ret tt else
  let@ old := read data "cache.db" in
  let@ free := try_lock old in
  if negb free then st_err (Busy (path_join (dr_path data) "cache.db"))
  else releasing old (migrate_locked store old data root).

(** ** The lease ([FsLease]) *)

Record Lease := { le_root : Directory; le_home : Directory; le_owner : StoreOwner; le_kind : CoreKind; le_lock : File }.

Definition eol (s : string) : string := s +:+ String (Ascii.ascii_of_N 10) "".
Definition EMPTY_CLASH_CACHE : list Byte.byte :=
  bytes_of_string (eol "selected: {}" +:+ eol "ip_to_host: {}" +:+ eol "host_to_ip: {}").
Definition check_cache (lease : Lease) : St () :=
  if decide (le_kind lease = Meow) then
    let@ f := file (le_home lease) "selector-cache.json" (le_owner lease) true in
    let@ meta := metadata f in
    match in_node meta with
    | NFile [] => write_all f (bytes_of_string "{}") ;@ sync_all
    | _ => st_ret tt
    end ;@
    validate_selector_json f (path_join (dr_path (le_home lease)) "selector-cache.json")
  else
    let@ cache := file (le_home lease) "cache.db" (le_owner lease) true in
    let@ format := file_format cache in
    match le_kind lease, format with
    | (ClashRust | ChimeraClient), FmtEmpty => write_all cache EMPTY_CLASH_CACHE ;@ sync_all
    | _, FmtEmpty => st_ret tt
    | (ClashRust | ChimeraClient), FmtYaml => st_ret tt
    | (Mihomo | ClashPremium), FmtBolt => st_ret tt
    | _, _ => st_err (BadFormat (path_join (dr_path (le_home lease)) "cache.db"))
    end.

(** The fuel of [repair_tree] is the number of inodes. *)
Definition repair (owner : StoreOwner) (d : Directory) : St () :=
  fun fs => repair_tree (S (size (fs_inodes fs))) owner d fs.

(** [recorded_process_is_alive] of [pid_file.rs], as the host answers when it is
    asked. *)
Definition Alive : Type := string -> result bool StdError.

Definition MAX_ACTIVE : nat := 16384.
Definition settle_active (alive : Alive) (root : Directory) : St () :=
  let@ dirty := exists_ root "active" in
  if negb dirty then st_ret tt
  else
    let@ f := read root "active" in
    let@ bytes := read_to_end f in
    let raw := String.string_of_list_byte (take MAX_ACTIVE bytes) in
    if negb (utf8_valid raw) then st_err (Access (std_error EkInvalidData "stream did not contain valid UTF-8"))
    else match alive raw with
    | Ok false => remove root "active"
    | Ok true => st_err (Busy (path_join (dr_path root) "active"))
    | Err _ => st_err (Recovery (path_join (dr_path root) "active"))
    end.

Definition acquire (alive : Alive) (store : NativeStore) (kind : CoreKind) : St Lease :=
  let@ dirs := directories store kind in
  let '(data, root, home) := dirs in
  let owner := ns_owner store in
  let@ lock := file root "lease.lock" owner true in
  let@ free := try_lock lock in
  if negb free then st_err (Busy (dr_path root))
  else releasing_on_err lock (
    settle_active alive root ;@
    repair owner home ;@
    (if decide (kind = Meow) then migrate_meow store data root home else migrate store data root home) ;@
    seed_resources data home owner ;@
    let lease := {| le_root := root; le_home := home; le_owner := owner; le_kind := kind; le_lock := lock |} in
    check_cache lease ;@
    st_ret lease).

(** A directory for a dry-run; [temporary] is the one the host creates. *)
Definition check_home (store : NativeStore) (temporary : string) : St string :=
  nop ;@
  let@ home := dir_open temporary in
  let@ data := dir_open (ns_data store) in
  (fun fs => seed_resources data home (OwnerUnix (fs_uid fs) (fs_gid fs)) fs) ;@
  st_ret temporary.

Definition prepare_spawn (lease : Lease) : St () :=
  repair (le_owner lease) (le_home lease) ;@
  check_cache lease ;@
  let@ active := file (le_root lease) "active" (le_owner lease) true in
  set_len_0 active ;@
  write_all active (bytes_of_string (CoreKind_as_ref (le_kind lease))) ;@
  sync_all ;@
  dir_sync (le_root lease).
(** A pid file of the manager has a parent and a name; without a name the code
    panics, which is an error here. *)
Definition read_record (pid_file : string) : St (list Byte.byte) :=
  match Paths.parent pid_file, Paths.file_name pid_file with
  | Some parent, Some name =>
      let@ dir := dir_open parent in
      let@ record := read dir name in
      read_to_end record
  | _, _ => st_err (Unsafe pid_file)
  end.
Definition record_started (alive : Alive) (lease : Lease) (pid_file : string) : St () :=
  let@ bytes := read_record pid_file in
  let raw := String.string_of_list_byte bytes in
  if negb (utf8_valid raw) then st_err (Access (std_error EkInvalidData "stream did not contain valid UTF-8"))
  else match alive raw with
  | Err e => st_err (Access e)
  | Ok _ => put_marker (le_root lease) "active.new" "active" bytes (le_owner lease)
  end.
Definition confirm_stopped (lease : Lease) : St () :=
  repair (le_owner lease) (le_home lease) ;@
  remove (le_root lease) "active" ;@
  dir_sync (le_root lease).
(** [Drop]. *)
Definition release (lease : Lease) (fs : Fs) : Fs := unlock (le_lock lease) fs.

(** [legacy_kind] of what reading the host's configuration answers. *)
Definition legacy_kind (config : result (list Byte.byte) StdError) : result (option CoreKind) StoreError :=
  match config with
  | Err e => if decide (se_kind e = EkNotFound) then Ok None else Err (Access e)
  | Ok bytes =>
      match store_yaml bytes with
      | Some (VMapping document) =>
          let core := match map_get document "core" with Some v => Some v | None => map_get document "clash_core" end in
          Ok (name ← core ≫= as_str;
              if decide (name = "mihomo" \/ name = "mihomo-alpha" \/ name = "clash-meta") then Some Mihomo
              else if decide (name = "clash-rs" \/ name = "clash-rs-alpha") then Some ClashRust
              else if decide (name = "chimera-client" \/ name = "chimera-client-alpha" \/ name = "chimera"
                              \/ name = "chimera_client") then Some ChimeraClient
              else if decide (name = "clash" \/ name = "clash-premium") then Some ClashPremium
              else if decide (name = "meow") then Some Meow else None)
      | _ => Err (Access (std_error EkOther "the configuration is no mapping"))
      end
  end.

End Store.
