(* ===== verification/NativeStoreSafety.v ===== *)
(** * What the native store never touches

    A small logic for [NativeStore]: a frame names directory entries and file
    contents, and an operation keeps a frame when they are the same behind it,
    whatever system calls failed.  A handle of a framed file is only ever had
    through its framed entry, because the store opens files with one name. *)

From S2P Require Import Prelude Text Types Yaml PidRecord.
From S2P Require Export NativeStore.
Open Scope rust_scope.
Open Scope store_scope.

(** ** Frames *)

Definition linked (d : N) (name : string) (i : N) (fs : Fs) : Prop := entries fs d !! name = Some i.
Definition holds (i : N) (bytes : list Byte.byte) (fs : Fs) : Prop :=
  exists n, fs_inodes fs !! i = Some n /\ in_node n = NFile bytes.

Record Frame := {
  fr_roots : gmap string N;
  fr_entry : N -> string -> option N;
  fr_file : N -> option (list Byte.byte);
  fr_locked : N -> Prop;
}.
Record framed (φ : Frame) (fs : Fs) : Prop := {
  fd_roots : fs_roots fs = fr_roots φ;
  fd_entry d name i : fr_entry φ d name = Some i -> linked d name i fs;
  fd_file i bytes : fr_file φ i = Some bytes -> holds i bytes fs;
  fd_locked i : fr_locked φ i -> i ∈ fs_locks fs;
}.
(** Every framed file, and every framed lock, has a framed name. *)
Definition named (φ : Frame) : Prop :=
  forall i, is_Some (fr_file φ i) \/ fr_locked φ i -> exists d name, fr_entry φ d name = Some i.

(** ** The rules *)

Definition keeps {A} (φ : Frame) (m : St A) (Q : result A StoreError -> Prop) : Prop :=
  forall fs, framed φ fs -> framed φ (m fs).2 /\ Q (m fs).1.
Definition ok {A} (Q : A -> Prop) (r : result A StoreError) : Prop := match r with Ok a => Q a | Err _ => True end.
Notation quiet φ m := (keeps φ m (ok (fun _ => True))).

Section Rules.
Context (φ : Frame).

Lemma keeps_ret {A} (a : A) (Q : A -> Prop) : Q a -> keeps φ (st_ret a) (ok Q).
Proof. by intros H fs Hf. Qed.
Lemma keeps_err {A} (e : StoreError) (Q : A -> Prop) : keeps φ (st_err e) (ok Q).
Proof. by intros fs Hf. Qed.
Lemma keeps_bind {A B} (m : St A) (k : A -> St B) R Q :
  keeps φ m (ok R) -> (forall a, R a -> keeps φ (k a) (ok Q)) -> keeps φ (st_bind m k) (ok Q).
Proof.
  intros Hm Hk fs Hf. unfold st_bind. destruct (Hm fs Hf) as [H1 H2]. destruct (m fs) as [[a|e] fs']; [|done].
  by apply Hk.
Qed.
Lemma keeps_case {A B} (m : St A) (k : result A StoreError -> St B) R Q :
  keeps φ m R -> (forall r, R r -> keeps φ (k r) Q) -> keeps φ (st_case m k) Q.
Proof.
  intros Hm Hk fs Hf. unfold st_case. destruct (Hm fs Hf) as [H1 H2]. destruct (m fs) as [r fs']. by apply Hk.
Qed.
Lemma keeps_weaken {A} (m : St A) (Q Q' : result A StoreError -> Prop) :
  keeps φ m Q -> (forall r, Q r -> Q' r) -> keeps φ m Q'.
Proof. intros Hm H fs Hf. destruct (Hm fs Hf). auto. Qed.
Lemma keeps_then {A B} (m : St A) (k : St B) Q : quiet φ m -> keeps φ k (ok Q) -> keeps φ (st_bind m (fun _ => k)) (ok Q).
Proof. intros H1 H2. eapply keeps_bind; [done|]. by intros. Qed.
Lemma keeps_quiet {A} (m : St A) Q : keeps φ m Q -> quiet φ m.
Proof. intros H. eapply keeps_weaken; [done|]. by intros [] ?. Qed.

Lemma framed_answer fs : framed φ fs -> framed φ (next_answer fs).2.
Proof. by intros []. Qed.
Lemma keeps_sys {A} (op : Fs -> result A StdError * Fs) (Q : result A StoreError -> Prop) :
  (forall fs, framed φ fs -> framed φ (op fs).2 /\ Q (map_err Access (op fs).1)) ->
  (forall denied, Q (Err (Access (fault denied)))) -> keeps φ (sys op) Q.
Proof.
  intros Hop Hf fs Hfs. unfold sys. pose proof (framed_answer fs Hfs) as H. destruct (next_answer fs) as [[|denied n] fs'];
    [|split; [done|apply Hf]]. cbn in H. destruct (Hop fs' H). by destruct (op fs') as [r fs''].
Qed.
Lemma keeps_each {A} (f : A -> St ()) l : (forall a, a ∈ l -> quiet φ (f a)) -> quiet φ (each f l).
Proof.
  induction l as [|a l IH]; intros H; [by apply keeps_ret|]. apply keeps_then; [apply H; by left|]. apply IH. intros b Hb.
  apply H. by right.
Qed.
End Rules.

(** ** What the primitives change *)

Lemma entries_alter (fs : Fs) (i d : N) (f : Inode -> Inode) :
  (forall n, fs_inodes fs !! i = Some n -> in_node (f n) = in_node n) ->
  entries (with_inodes (alter f i (fs_inodes fs)) fs) d = entries fs d.
Proof.
  intros H. unfold entries. cbn. destruct (decide (d = i)) as [->|Hne]; [|by rewrite lookup_alter_ne].
  rewrite lookup_alter_eq. destruct (fs_inodes fs !! i) as [n|] eqn:E; [|done]. cbn.
  specialize (H n eq_refl). destruct (f n), n. cbn in *. by subst.
Qed.
(** Owner, mode and times are no part of a frame. *)
Lemma framed_alter φ fs i f :
  (forall n, in_node (f n) = in_node n) -> framed φ fs -> framed φ (with_inodes (alter f i (fs_inodes fs)) fs).
Proof.
  intros Hf [R E F L]. split; auto.
  - intros d name j H. unfold linked. rewrite entries_alter by auto. by apply E.
  - intros j bytes H. destruct (F j bytes H) as (n & Hn & Hb). unfold holds. cbn. destruct (decide (j = i)) as [->|Hne].
    + rewrite lookup_alter_eq, Hn. exists (f n). by rewrite Hf.
    + rewrite lookup_alter_ne by done. by exists n.
Qed.
Lemma framed_contents φ fs i bytes : fr_file φ i = None -> framed φ fs -> framed φ (set_contents i bytes fs).
Proof.
  intros Hn [R E F L]. split; auto.
  - intros d name j H. specialize (E d name j H). unfold linked, entries, set_contents in *. cbn.
    destruct (decide (d = i)) as [->|Hne]; [|by rewrite lookup_alter_ne].
    rewrite lookup_alter_eq. by destruct (fs_inodes fs !! i) as [[[]]|].
  - intros j bytes' H. destruct (F j bytes' H) as (n & Hj & Hb). unfold holds, set_contents. cbn.
    destruct (decide (j = i)) as [->|Hne]; [congruence|]. rewrite lookup_alter_ne by done. by exists n.
Qed.
Lemma framed_entries φ fs d es :
  (forall name i, fr_entry φ d name = Some i -> es !! name = Some i) -> framed φ fs -> framed φ (set_entries d es fs).
Proof.
  intros H [R E F L]. split; auto.
  - intros d' name i He. pose proof (E d' name i He) as Hl. unfold linked, entries, set_entries in *. cbn.
    destruct (decide (d' = d)) as [->|Hne]; [|by rewrite lookup_alter_ne].
    rewrite lookup_alter_eq. destruct (fs_inodes fs !! d) as [[[]]|]; try done. cbn. by apply H.
  - intros i bytes Hi. destruct (F i bytes Hi) as (n & Hn & Hb). unfold holds, set_entries. cbn.
    destruct (decide (i = d)) as [->|Hne]; [|rewrite lookup_alter_ne by done; by exists n].
    rewrite lookup_alter_eq, Hn. eexists. split; [done|]. cbn. by rewrite Hb.
Qed.
Lemma entries_set d es fs : is_dir fs d = true -> entries (set_entries d es fs) d = es.
Proof.
  unfold is_dir, entries, set_entries. cbn. intros H. rewrite lookup_alter_eq. by destruct (fs_inodes fs !! d) as [[[]]|].
Qed.
Lemma new_inode_fresh node mode fs : fs_inodes fs !! (new_inode node mode fs).1 = None.
Proof. apply not_elem_of_dom. unfold new_inode. cbn. apply is_fresh. Qed.
Lemma framed_new φ node mode fs : framed φ fs -> framed φ (new_inode node mode fs).2.
Proof.
  pose proof (new_inode_fresh node mode fs) as Hn. intros [R E F L]. unfold new_inode in *. cbn in *. split; auto.
  - intros d name i H. specialize (E d name i H). unfold linked, entries in *. cbn.
    destruct (decide (d = fresh (dom (fs_inodes fs)))) as [->|Hne]; [by rewrite Hn in E|]. by rewrite lookup_insert_ne.
  - intros i bytes H. destruct (F i bytes H) as (n & Hi & Hb). exists n. split; [|done]. cbn.
    rewrite lookup_insert_ne; [done|]. intros <-. by rewrite Hn in Hi.
Qed.
(** ... and is under no framed name. *)
Lemma new_inode_free φ node mode fs : framed φ fs -> fr_file φ (new_inode node mode fs).1 = None.
Proof.
  intros Hf. destruct (fr_file φ _) as [bytes|] eqn:E; [|done]. destruct (fd_file _ _ Hf _ _ E) as (n & Hn & _).
  by rewrite new_inode_fresh in Hn.
Qed.

(** ** The primitives *)

Section Primitives.
Context (φ : Frame).

Lemma keeps_nop : quiet φ nop.
Proof. by apply keeps_sys. Qed.
Lemma keeps_metadata f :
  keeps φ (metadata f) (ok (fun meta => forall bytes, fr_file φ (fl_inode f) = Some bytes -> in_node meta = NFile bytes)).
Proof.
  apply keeps_sys; [|done]. intros fs Hf. split; [done|]. cbn. destruct (fs_inodes fs !! fl_inode f) as [meta|] eqn:E; [|done].
  intros bytes Hb. destruct (fd_file _ _ Hf _ _ Hb) as (n & Hn & Hb'). by simplify_eq.
Qed.
Lemma keeps_fchown f uid gid : quiet φ (fchown f uid gid).
Proof.
  apply keeps_sys; [|done]. intros fs Hf. destruct (fl_path_only f); [done|]. split; [|done]. by apply framed_alter.
Qed.
Lemma keeps_set_permissions f mode : quiet φ (set_permissions f mode).
Proof.
  apply keeps_sys; [|done]. intros fs Hf. destruct (fl_path_only f); [done|]. split; [|done]. by apply framed_alter.
Qed.
Lemma keeps_set_permissions_fd f mode : quiet φ (set_permissions_fd f mode).
Proof. apply keeps_sys; [|done]. intros fs Hf. split; [|done]. by apply framed_alter. Qed.
Lemma keeps_set_len_0 f : fr_file φ (fl_inode f) = None -> quiet φ (set_len_0 f).
Proof. intros H. apply keeps_sys; [|done]. intros fs Hf. split; [|done]. by apply framed_contents. Qed.
Lemma keeps_write_all f bytes : fr_file φ (fl_inode f) = None -> quiet φ (write_all f bytes).
Proof.
  intros H fs Hf. unfold write_all. pose proof (framed_answer φ fs Hf) as H1. destruct (next_answer fs) as [[|denied n] fs'];
    (split; [|done]); by apply framed_contents.
Qed.
Lemma keeps_read_to_end f :
  keeps φ (read_to_end f) (ok (fun bytes => forall bytes', fr_file φ (fl_inode f) = Some bytes' -> bytes = bytes')).
Proof.
  apply keeps_sys; [|done]. intros fs Hf. split; [done|]. cbn. intros bytes Hb. unfold contents.
  destruct (fd_file _ _ Hf _ _ Hb) as ([] & -> & Hb'). cbn in *. by subst.
Qed.
Lemma framed_locks fs locks : (forall i, fr_locked φ i -> i ∈ locks) -> framed φ fs -> framed φ (with_locks locks fs).
Proof. intros H [R E F L]. by split. Qed.
Lemma keeps_try_lock f : keeps φ (try_lock f) (ok (fun free => free = true -> ~ fr_locked φ (fl_inode f))).
Proof.
  apply keeps_sys; [|done]. intros fs Hf. case_decide as Hin; [done|]. split.
  - apply framed_locks; [|done]. intros i Hi. apply (fd_locked _ _ Hf) in Hi. cbn. set_solver.
  - intros _ Hl. by apply (fd_locked _ _ Hf) in Hl.
Qed.
Lemma framed_unlock f fs : ~ fr_locked φ (fl_inode f) -> framed φ fs -> framed φ (unlock f fs).
Proof.
  intros H Hf. apply framed_locks; [|done]. intros i Hi. pose proof (fd_locked _ _ Hf i Hi).
  assert (i <> fl_inode f) by (by intros ->). set_solver.
Qed.
Lemma keeps_releasing {A} f (m : St A) Q : ~ fr_locked φ (fl_inode f) -> keeps φ m Q -> keeps φ (releasing f m) Q.
Proof.
  intros H Hm fs Hf. unfold releasing. destruct (Hm fs Hf) as [H1 H2]. destruct (m fs) as [r fs']. split; [|done].
  by apply framed_unlock.
Qed.
Lemma keeps_releasing_on_err {A} f (m : St A) Q :
  ~ fr_locked φ (fl_inode f) -> keeps φ m Q -> keeps φ (releasing_on_err f m) Q.
Proof.
  intros H Hm fs Hf. unfold releasing_on_err. destruct (Hm fs Hf) as [H1 H2]. destruct (m fs) as [[a|e] fs']; [done|].
  split; [|done]. by apply framed_unlock.
Qed.

Context (Hnamed : named φ).

(** A framed entry gives its inode, a new one an inode of its own; and a framed
    file is opened through its framed entry only. *)
Lemma references_spec fs i d name : (d, name) ∈ references fs i <-> linked d name i fs.
Proof.
  unfold references, linked, entries. rewrite list_elem_of_bind. split.
  - intros ([d' n] & Hin & Hm). apply elem_of_map_to_list in Hm. destruct (in_node n) as [|es|] eqn:E; cbn in Hin; rewrite E in Hin;
      try (by apply elem_of_nil in Hin).
    apply list_elem_of_bind in Hin as ([name' j] & Hin & He). apply elem_of_map_to_list in He. cbn in Hin.
    case_decide; [|by apply elem_of_nil in Hin]. apply list_elem_of_singleton in Hin. simplify_eq. rewrite Hm.
    destruct n. cbn in *. by subst.
  - destruct (fs_inodes fs !! d) as [n|] eqn:Hn; [|by rewrite lookup_empty]. intros Hl. exists (d, n).
    split; [|by apply elem_of_map_to_list]. cbn. destruct n as [[]]; cbn in *; try by rewrite lookup_empty in Hl.
    apply list_elem_of_bind. exists (name, i). split; [|by apply elem_of_map_to_list]. cbn. rewrite decide_True by done. by left.
Qed.
Lemma single_unique fs i d name d' name' :
  single fs i = true -> linked d name i fs -> linked d' name' i fs -> (d, name) = (d', name').
Proof.
  intros Hs H H'. apply andb_true_iff in Hs as [_ Hs]. apply bool_decide_eq_true in Hs.
  apply references_spec in H, H'. destruct (references fs i) as [|x [|y l]]; try done.
  apply list_elem_of_singleton in H, H'. congruence.
Qed.
Lemma keeps_entry_new d name node mode fs :
  framed φ fs -> entries fs d !! name = None ->
  let '(i, fs') := new_inode node mode fs in framed φ (set_entries d (<[name := i]> (entries fs' d)) fs').
Proof.
  intros Hf Hn. pose proof (framed_new φ node mode fs Hf) as H. pose proof (new_inode_fresh node mode fs) as Hi.
  destruct (new_inode node mode fs) as [i fs'] eqn:E. cbn in *. apply framed_entries; [|done].
  intros name' j Hj. destruct (decide (name' = name)) as [->|Hne].
  - by rewrite (fd_entry _ _ Hf _ _ _ Hj) in Hn.
  - rewrite lookup_insert_ne by done. by apply (fd_entry _ _ H).
Qed.
Lemma is_dir_new node mode fs d : is_dir fs d = true -> is_dir (new_inode node mode fs).2 d = true.
Proof.
  unfold is_dir, new_inode. cbn. intros H. rewrite lookup_insert_ne; [done|]. intros <-.
  pose proof (is_fresh (dom (fs_inodes fs))) as Hd. apply not_elem_of_dom in Hd. by rewrite Hd in H.
Qed.
Lemma keeps_mkdirat d name : quiet φ (mkdirat d name).
Proof.
  apply keeps_sys; [|done]. intros fs Hf. destruct (entries fs d !! name) eqn:E; [done|].
  pose proof (keeps_entry_new d name (NDir ∅) 448 fs Hf E) as H. destruct (new_inode _ _ fs). by split.
Qed.
Lemma keeps_openat_dir d name :
  keeps φ (openat_dir d name) (ok (fun i => forall j, fr_entry φ d name = Some j -> i = j)).
Proof.
  apply keeps_sys; [|done]. intros fs Hf. split; [done|]. cbn. destruct (entries fs d !! name) as [i|] eqn:E; [|done].
  destruct (is_dir fs i); [|done]. intros j Hj. pose proof (fd_entry _ _ Hf _ _ _ Hj) as Hl. unfold linked in Hl. congruence.
Qed.
Lemma keeps_authorize owner f path directory : quiet φ (authorize owner f path directory).
Proof.
  destruct owner; [|apply keeps_err]. eapply keeps_bind; [apply keeps_metadata|]. intros meta _. cbn.
  destruct (_ && _); [apply keeps_err|]. apply keeps_then.
  - destruct (_ || _); [apply keeps_fchown|by apply keeps_ret].
  - eapply keeps_case; [apply keeps_set_permissions|]. intros [|[]] _; try apply keeps_err; [by apply keeps_ret|].
    case_decide; [apply keeps_set_permissions_fd|apply keeps_err].
Qed.
Lemma keeps_dir_open path :
  keeps φ (dir_open path) (ok (fun d => dr_path d = path /\ forall i, fr_roots φ !! path = Some i -> dr_inode d = i)).
Proof.
  eapply keeps_bind; [apply (keeps_sys φ _ (ok (fun i => forall j, fr_roots φ !! path = Some j -> i = j))); [|done]|].
  - intros fs Hf. rewrite (fd_roots _ _ Hf). destruct (fr_roots φ !! path) as [i|]; [|done]. split; [done|]. cbn.
    destruct (is_dir fs i); [|done]. by intros j [= ->].
  - intros i Hi. cbn in Hi. eapply keeps_bind; [apply keeps_metadata|]. intros meta _. apply keeps_then; [apply keeps_nop|].
    by apply keeps_ret.
Qed.
Lemma keeps_child d name owner :
  keeps φ (child d name owner) (ok (fun c => forall i, fr_entry φ (dr_inode d) name = Some i -> dr_inode c = i)).
Proof.
  apply keeps_then.
  - eapply keeps_case; [apply keeps_mkdirat|]. intros [|[]] _; try apply keeps_err; [by apply keeps_ret|].
    case_decide; [by apply keeps_ret|apply keeps_err].
  - eapply keeps_bind; [apply keeps_openat_dir|]. intros i Hi. cbn in Hi. apply keeps_then; [apply keeps_authorize|].
    by apply keeps_ret.
Qed.

(** What a handle of a name says about framed entries and files. *)
Definition opened (d : Directory) (name : string) (i : N) : Prop :=
  (forall j, fr_entry φ (dr_inode d) name = Some j -> i = j) /\
  (forall bytes, fr_file φ i = Some bytes -> fr_entry φ (dr_inode d) name = Some i).
(** Nothing is framed under a name that was not found. *)
Definition missing (d : N) (name : string) (e : StoreError) : Prop :=
  match e with Access e => se_kind e = EkNotFound -> fr_entry φ d name = None | _ => True end.
Definition opened_or_missing (d : Directory) (name : string) (r : result File StoreError) : Prop :=
  match r with Ok f => opened d name (fl_inode f) | Err e => missing (dr_inode d) name e end.
Lemma openat_single d name (op : St N) (handle : N -> File) :
  (forall i, fl_inode (handle i) = i) ->
  (forall fs, framed φ fs -> framed φ (op fs).2 /\
     match (op fs).1 with
     | Ok i => linked (dr_inode d) name i (op fs).2 \/ fr_file φ i = None /\ fr_entry φ (dr_inode d) name = None
     | Err e => missing (dr_inode d) name e
     end) ->
  keeps φ (let@ i := op in let@ ok := stat_single i in
           if ok then st_ret (handle i) else st_err (Unsafe (path_join (dr_path d) name))) (opened_or_missing d name).
Proof.
  intros Hh Hop fs Hf. destruct (Hop fs Hf) as [Hf' Hl]. unfold st_bind. destruct (op fs) as [[i|e] fs']; cbn in Hf', Hl; [|by split].
  unfold stat_single, sys. pose proof (framed_answer φ fs' Hf') as Hf''.
  assert (Hl' : linked (dr_inode d) name i (next_answer fs').2 \/ fr_file φ i = None /\ fr_entry φ (dr_inode d) name = None) by exact Hl.
  destruct (next_answer fs') as [[|denied n] fs'']; [|split; [done|]; by destruct denied]. cbn in *.
  destruct (single fs'' i) eqn:Hs; [|by split].
  cbn. rewrite Hh. split; [done|]. split.
  - intros j Hj. destruct Hl' as [Hl'|[_ H]]; [|congruence]. pose proof (fd_entry _ _ Hf'' _ _ _ Hj) as Hj'. unfold linked in *. congruence.
  - intros bytes Hb. destruct Hl' as [Hl'|[H _]]; [|congruence].
    destruct (Hnamed i) as (d0 & n0 & H0); [left; by eexists|].
    pose proof (single_unique _ _ _ _ _ _ Hs Hl' (fd_entry _ _ Hf'' _ _ _ H0)) as [= -> ->]. done.
Qed.
Lemma openat_file_spec d name write create fs :
  framed φ fs ->
  framed φ (openat_file d name write create fs).2 /\
  match (openat_file d name write create fs).1 with
  | Ok i => linked d name i (openat_file d name write create fs).2 \/ fr_file φ i = None /\ fr_entry φ d name = None
  | Err e => missing d name e
  end.
Proof.
  intros Hf. unfold openat_file, sys. pose proof (framed_answer φ fs Hf) as H. destruct (next_answer fs) as [[|denied n] fs'];
    [|split; [done|]; by destruct denied]. cbn in H.
  destruct (entries fs' d !! name) as [i|] eqn:E.
  - destruct (is_symlink fs' i); [by split|]. destruct (write && is_dir fs' i); [by split|]. split; [done|]. by left.
  - assert (Hn : fr_entry φ d name = None).
    { destruct (fr_entry φ d name) as [j|] eqn:Ej; [|done]. pose proof (fd_entry _ _ H _ _ _ Ej) as Hl. unfold linked in Hl. congruence. }
    destruct create; cbn [negb]; [|cbn; split; [done|by intros _]]. destruct (is_dir fs' d); cbn [negb]; [|by cbn; split]. pose proof (keeps_entry_new d name (NFile []) 384 fs' H E) as H'.
    pose proof (new_inode_free φ (NFile []) 384 fs' H) as Hi. destruct (new_inode _ _ fs') as [i fs'']. cbn in *. split; [done|]. by right.
Qed.
Lemma keeps_raw_file d name write create : keeps φ (raw_file d name write create) (opened_or_missing d name).
Proof.
  apply (openat_single d name _ file_of); [done|]. intros fs Hf.
  destruct (openat_file_spec (dr_inode d) name write create fs Hf) as [H1 H2]. by split.
Qed.
Lemma opened_ok d name r : opened_or_missing d name r -> ok (fun f => opened d name (fl_inode f)) r.
Proof. by destruct r. Qed.
Lemma keeps_read d name : keeps φ (read d name) (opened_or_missing d name).
Proof. apply keeps_raw_file. Qed.
Lemma keeps_read_ok d name : keeps φ (read d name) (ok (fun f => opened d name (fl_inode f))).
Proof. eapply keeps_weaken; [apply keeps_read|apply opened_ok]. Qed.
Lemma keeps_permission_handle d name : quiet φ (permission_handle d name).
Proof.
  eapply keeps_quiet, (openat_single d name _ (fun i => {| fl_inode := i; fl_path_only := true |})); [done|].
  intros fs Hf. unfold sys. pose proof (framed_answer φ fs Hf) as H. destruct (next_answer fs) as [[|denied n] fs']; cbn in *.
  - split; [done|]. destruct (entries fs' (dr_inode d) !! name) as [i|] eqn:E; cbn; [by left|]. intros _.
    destruct (fr_entry φ (dr_inode d) name) as [j|] eqn:Ej; [|done]. pose proof (fd_entry _ _ H _ _ _ Ej) as Hl. unfold linked in Hl. congruence.
  - split; [done|]. by destruct denied.
Qed.
Lemma keeps_file d name owner create : keeps φ (file d name owner create) (ok (fun f => opened d name (fl_inode f))).
Proof.
  apply keeps_then.
  - eapply keeps_case; [apply keeps_read|]. intros [f|[]] _; try apply keeps_err; [apply keeps_authorize|].
    case_decide; [eapply keeps_bind; [apply keeps_permission_handle|]; intros f _; apply keeps_authorize|].
    case_decide; [by apply keeps_ret|apply keeps_err].
  - eapply keeps_bind; [eapply keeps_weaken; [apply keeps_raw_file|apply opened_ok]|]. intros f Hf. apply keeps_then; [apply keeps_authorize|]. by apply keeps_ret.
Qed.
Lemma keeps_exists d name :
  keeps φ (exists_ d name) (ok (fun present => present = false -> fr_entry φ (dr_inode d) name = None)).
Proof.
  eapply keeps_case; [apply keeps_read|]. intros [f|[]] Hr; try apply keeps_err; [by apply keeps_ret|].
  case_decide; [apply keeps_ret; by intros _; apply Hr|apply keeps_err].
Qed.
Lemma keeps_remove d name : fr_entry φ (dr_inode d) name = None -> quiet φ (remove d name).
Proof.
  intros Hn. eapply keeps_case with (R := fun _ => True).
  - apply keeps_sys; [|done]. intros fs Hf. destruct (entries fs (dr_inode d) !! name) as [i|]; [|by split].
    destruct (is_dir fs i); [by split|]. split; [|done]. apply framed_entries; [|done]. intros name' j Hj.
    rewrite lookup_delete_ne by congruence. by apply (fd_entry _ _ Hf).
  - intros [|[]] _; try apply keeps_err; [by apply keeps_ret|]. case_decide; [by apply keeps_ret|apply keeps_err].
Qed.
Lemma keeps_rename d old new :
  fr_entry φ (dr_inode d) old = None -> fr_entry φ (dr_inode d) new = None -> quiet φ (rename d old new).
Proof.
  intros Ho Hn. apply keeps_sys; [|done]. intros fs Hf. cbn zeta. destruct (entries fs (dr_inode d) !! old) as [i|]; [|by split].
  case_match; [by split|]. split; [|done]. apply framed_entries; [|done]. intros name j Hj.
  rewrite lookup_insert_ne, lookup_delete_ne by congruence. by apply (fd_entry _ _ Hf).
Qed.
Lemma keeps_repair_tree fuel owner d : quiet φ (repair_tree fuel owner d).
Proof.
  revert d. induction fuel as [|fuel IH]; intros d; [apply keeps_err|]. cbn [repair_tree].
  apply keeps_then; [apply keeps_authorize|]. eapply (keeps_bind _ (read_dir d) _ (fun _ => True)); [by apply keeps_sys|]. intros listing _.
  apply keeps_each. intros [name directory] _. destruct (negb _); [apply keeps_err|]. destruct directory.
  - eapply keeps_bind; [eapply keeps_quiet, keeps_child|]. intros c _. apply IH.
  - eapply keeps_bind; [apply keeps_file|]. intros f _. by apply keeps_ret.
Qed.
Lemma keeps_repair owner d : quiet φ (repair owner d).
Proof. intros fs. apply keeps_repair_tree. Qed.
Lemma keeps_read_record pid_file :
  keeps φ (read_record pid_file) (ok (fun bytes => forall parent name d i bytes',
    Paths.parent pid_file = Some parent -> Paths.file_name pid_file = Some name -> fr_roots φ !! parent = Some d ->
    fr_entry φ d name = Some i -> fr_file φ i = Some bytes' -> bytes = bytes')).
Proof.
  unfold read_record. destruct (Paths.parent pid_file) as [parent|], (Paths.file_name pid_file) as [name|]; try apply keeps_err.
  eapply keeps_bind; [apply keeps_dir_open|]. intros dir [_ Hd]. eapply keeps_bind; [apply keeps_read_ok|]. intros record [Ho _].
  eapply keeps_weaken; [apply keeps_read_to_end|]. intros [bytes|e] Hb; [|done]. intros ? ? d i bytes' [= <-] [= <-] Hroot He Hf.
  apply Hb. rewrite <- (Hd _ Hroot) in He. by rewrite (Ho _ He).
Qed.
End Primitives.

(** ** The operations *)

(** The names the store writes to whatever is there: resources, files on their
    way in, and the markers. *)
Definition volatile (name : string) : bool :=
  bool_decide (name ∈ RESOURCES) || ends_with ".import" name
  || bool_decide (name ∈ ["migration.new"; "meow-migrated.new"; "active.new"]).
(** A frame the store has no business with: nothing volatile, and no empty
    cache. *)
Record calm (φ : Frame) : Prop := {
  ca_named : named φ;
  ca_names d name : volatile name = true -> fr_entry φ d name = None;
  ca_caches d name i :
    name ∈ ["cache.db"; "selector-cache.json"] -> fr_entry φ d name = Some i -> fr_file φ i <> Some [];
}.

Section Operations.
Context `{StoreText} (φ : Frame) (Hcalm : calm φ).
Local Notation Hn := (ca_named _ Hcalm).

Lemma opened_free d name i : opened φ d name i -> fr_entry φ (dr_inode d) name = None -> fr_file φ i = None.
Proof. intros [_ Ho] He. destruct (fr_file φ i) as [bytes|] eqn:E; [|done]. rewrite (Ho bytes eq_refl) in He. done. Qed.
Lemma import_volatile name : volatile (name +:+ ".import") = true.
Proof. unfold volatile. apply orb_true_iff. left. apply orb_true_iff. right.
  apply bool_decide_eq_true. exists name. apply strip_suffix_app.
Qed.
Lemma keeps_copy_file source target name owner :
  fr_entry φ (dr_inode target) name = None -> quiet φ (copy_file source target name owner).
Proof.
  intros He. assert (Ht : fr_entry φ (dr_inode target) (name +:+ ".import") = None) by apply (ca_names _ Hcalm), import_volatile.
  eapply keeps_bind; [by apply keeps_file, Hn|]. intros f Hf. cbn in Hf. pose proof (opened_free _ _ _ Hf Ht) as Hfree.
  apply keeps_then; [by apply keeps_set_len_0|]. eapply keeps_bind; [apply keeps_read_to_end|]. intros bytes _.
  apply keeps_then; [by apply keeps_write_all|]. apply keeps_then; [apply keeps_nop|].
  apply keeps_then; [by apply keeps_rename|apply keeps_nop].
Qed.
Lemma keeps_copy_once source target name owner : quiet φ (copy_once source target name owner).
Proof.
  eapply keeps_bind; [apply keeps_exists, Hn|]. intros [] He; [by apply keeps_ret|]. by apply keeps_copy_file, He.
Qed.
Lemma keeps_seed_resources source target owner : quiet φ (seed_resources source target owner).
Proof.
  apply keeps_each. intros name Hname. assert (He : fr_entry φ (dr_inode target) name = None).
  { apply (ca_names _ Hcalm). unfold volatile. by rewrite bool_decide_true. }
  eapply keeps_bind; [apply keeps_exists, Hn|]. intros [] _; [|by apply keeps_ret]. cbn.
  eapply keeps_bind; [apply keeps_read_ok, Hn|]. intros input _.
  eapply keeps_bind; [apply keeps_exists, Hn|]. intros present _. eapply keeps_bind.
  - instantiate (1 := fun _ => True). destruct present; [|by apply keeps_ret].
    eapply keeps_bind; [apply keeps_metadata|]. intros new _. eapply keeps_bind; [apply keeps_read_ok, Hn|]. intros f _.
    eapply keeps_bind; [apply keeps_metadata|]. intros old _. by apply keeps_ret.
  - intros [] _; [by apply keeps_copy_file|by apply keeps_ret].
Qed.
Lemma keeps_put_marker root temp name bytes owner :
  fr_entry φ (dr_inode root) temp = None -> fr_entry φ (dr_inode root) name = None -> quiet φ (put_marker root temp name bytes owner).
Proof.
  intros Ht He. eapply keeps_bind; [by apply keeps_file, Hn|]. intros f Hf. cbn in Hf. pose proof (opened_free _ _ _ Hf Ht) as Hfree.
  apply keeps_then; [by apply keeps_set_len_0|]. apply keeps_then; [by apply keeps_write_all|].
  apply keeps_then; [apply keeps_nop|]. apply keeps_then; [by apply keeps_rename|apply keeps_nop].
Qed.
Lemma cache_format_empty bytes : cache_format bytes = FmtEmpty -> bytes = [].
Proof.
  destruct bytes as [|b bytes]; [done|]. unfold cache_format. rewrite bool_decide_false by (cbn [length]; lia). intros Hf.
  unfold yaml_cache in Hf. by repeat (case_match; try done).
Qed.
Lemma keeps_file_format f :
  keeps φ (file_format f) (ok (fun format => format = FmtEmpty -> forall bytes, fr_file φ (fl_inode f) = Some bytes -> bytes = [])).
Proof.
  eapply keeps_bind; [apply keeps_metadata|]. intros meta Hmeta. cbn in Hmeta.
  destruct (in_node meta) as [[|b bytes0]| |] eqn:E.
  { apply keeps_ret. intros _ bytes Hb. specialize (Hmeta _ Hb). congruence. }
  all: eapply keeps_bind; [apply keeps_read_to_end|]; intros bytes Hb; cbn in Hb; apply keeps_ret; intros Hf bytes' Hb';
    specialize (Hb _ Hb'); subst bytes'; by apply cache_format_empty.
Qed.
Lemma keeps_validate_selector_json f path : quiet φ (validate_selector_json f path).
Proof.
  eapply keeps_bind; [apply keeps_metadata|]. intros meta _. case_bool_decide; [apply keeps_err|].
  eapply keeps_case; [apply keeps_read_to_end|]. intros [bytes|e] _; [|apply keeps_err].
  destruct (store_json bytes); [by apply keeps_ret|apply keeps_err].
Qed.
Lemma keeps_migrate_meow store data root home : quiet φ (migrate_meow store data root home).
Proof.
  eapply keeps_bind; [apply keeps_exists, Hn|]. intros [] _; [by apply keeps_ret|].
  eapply keeps_bind; [apply keeps_exists, Hn|]. intros [] Hm; [by apply keeps_ret|]. specialize (Hm eq_refl).
  eapply keeps_bind; [apply keeps_exists, Hn|]. intros [] _; [|by apply keeps_ret]. cbn.
  eapply keeps_bind; [apply keeps_read_ok, Hn|]. intros source _. apply keeps_then; [apply keeps_validate_selector_json|].
  eapply keeps_bind; [apply keeps_child|]. intros backup _. apply keeps_then; [apply keeps_copy_once|].
  apply keeps_then; [apply keeps_copy_once|]. by apply keeps_put_marker; [apply (ca_names _ Hcalm)|].
Qed.
Lemma keeps_migrate store data root home : quiet φ (migrate store data root home).
Proof.
  eapply keeps_bind; [apply keeps_exists, Hn|]. intros imported _.
  eapply (keeps_bind _ _ _ (fun marked => marked = false -> fr_entry φ (dr_inode root) "migration.json" = None)).
  { destruct imported; [by apply keeps_ret|apply keeps_exists, Hn]. }
  intros [] Hm; [by apply keeps_ret|]. specialize (Hm eq_refl).
  eapply keeps_bind; [apply keeps_exists, Hn|]. intros [] _; [|by apply keeps_ret]. cbn.
  eapply keeps_bind; [apply keeps_read_ok, Hn|]. intros old _.
  eapply keeps_bind; [apply keeps_try_lock|]. intros [] Hl; [|apply keeps_err]. cbn.
  apply keeps_releasing; [by apply Hl|]. eapply keeps_bind; [apply keeps_file_format|]. intros format _.
  eapply (keeps_bind _ (st_lift _) _ (fun _ => True)); [intros fs Hf; split; [done|by destruct (cache_source _ _ _)]|].
  intros [source_kind|] _; [|by apply keeps_ret].
  eapply keeps_bind; [apply keeps_child|]. intros migration _. apply keeps_then; [apply keeps_copy_once|].
  eapply keeps_bind; [apply keeps_child|]. intros version _. eapply keeps_bind; [apply keeps_child|]. intros target _.
  eapply keeps_bind; [apply keeps_exists, Hn|]. intros present _.
  apply keeps_then; [destruct present; [by apply keeps_ret|apply keeps_copy_once]|].
  by apply keeps_put_marker; [apply (ca_names _ Hcalm)|].
Qed.
Lemma keeps_check_cache lease : quiet φ (check_cache lease).
Proof.
  unfold check_cache. case_decide.
  - eapply keeps_bind; [apply keeps_file, Hn|]. intros f Hf. eapply keeps_bind; [apply keeps_metadata|]. intros meta Hmeta. cbn in Hmeta.
    apply keeps_then; [|apply keeps_validate_selector_json].
    destruct (in_node meta) as [[]| |] eqn:E; try by apply keeps_ret. apply keeps_then; [|apply keeps_nop]. apply keeps_write_all.
    destruct (fr_file φ (fl_inode f)) as [bytes|] eqn:Eb; [|done]. exfalso.
    apply (ca_caches _ Hcalm _ _ _ ltac:(by right; left) (proj2 Hf _ Eb)). rewrite Eb. specialize (Hmeta _ eq_refl). congruence.
  - eapply keeps_bind; [apply keeps_file, Hn|]. intros f Hf. eapply keeps_bind; [apply keeps_file_format|]. intros format Hfmt. cbn in Hfmt.
    assert (Hw : format = FmtEmpty -> quiet φ (write_all f EMPTY_CLASH_CACHE ;@ sync_all)).
    { intros ->. apply keeps_then; [|apply keeps_nop]. apply keeps_write_all.
      destruct (fr_file φ (fl_inode f)) as [bytes|] eqn:Eb; [|done]. exfalso.
      apply (ca_caches _ Hcalm _ _ _ ltac:(by left) (proj2 Hf _ Eb)). rewrite Eb. f_equal. by apply Hfmt. }
    destruct (le_kind lease), format; try (by apply keeps_ret); try apply keeps_err; by apply Hw.
Qed.
Lemma keeps_directories store kind :
  keeps φ (directories store kind) (ok (fun '(data, root, home) =>
    forall d i, fr_roots φ !! ns_data store = Some d -> fr_entry φ d "native-store" = Some i -> dr_inode root = i)).
Proof.
  unfold directories. destruct (ns_owner store) as [uid gid|]; [|apply keeps_err].
  eapply keeps_bind; [apply keeps_dir_open|]. intros data [_ Hd]. eapply keeps_bind; [apply keeps_child|]. intros root Hr.
  eapply keeps_bind; [apply keeps_child|]. intros version _. eapply keeps_bind; [apply keeps_child|]. intros home _.
  apply keeps_ret. intros d i Hroot He. cbn in Hr. apply Hr. by rewrite (Hd _ Hroot).
Qed.
(** A marker that may not be taken away stops an acquisition. *)
Lemma keeps_settle_active alive root :
  fr_entry φ (dr_inode root) "active" = None -> quiet φ (settle_active alive root).
Proof.
  intros He. eapply keeps_bind; [apply keeps_exists, Hn|]. intros [] _; [|by apply keeps_ret]. cbn.
  eapply keeps_bind; [apply keeps_read_ok, Hn|]. intros f _. eapply keeps_bind; [apply keeps_read_to_end|]. intros bytes _.
  destruct (negb _); [apply keeps_err|]. destruct (alive _) as [[]|]; try apply keeps_err. by apply keeps_remove.
Qed.
Definition active_text (bytes : list Byte.byte) : string := String.string_of_list_byte (take MAX_ACTIVE bytes).
Definition blocks (alive : Alive) (bytes : list Byte.byte) : Prop := alive (active_text bytes) <> Ok false.
Lemma keeps_settle_blocked alive root i bytes :
  fr_entry φ (dr_inode root) "active" = Some i -> fr_file φ i = Some bytes -> blocks alive bytes ->
  keeps φ (settle_active alive root) (ok (fun _ => False)).
Proof.
  intros He Hf Hb. eapply keeps_bind; [apply keeps_exists, Hn|]. intros [] Hex; [|by rewrite He in Hex; specialize (Hex eq_refl)].
  cbn. eapply keeps_bind; [apply keeps_read_ok, Hn|]. intros f [Ho _]. eapply keeps_bind; [apply keeps_read_to_end|].
  intros bytes' Hbytes. cbn in Hbytes. rewrite (Ho _ He) in Hbytes. specialize (Hbytes _ Hf) as ->.
  destruct (negb _); [apply keeps_err|]. unfold blocks, active_text in Hb. destruct (alive _) as [[]|]; try apply keeps_err. done.
Qed.

Definition acquire_locked (alive : Alive) (store : NativeStore) (kind : CoreKind) (data root home : Directory) (lock : File) : St Lease :=
  settle_active alive root ;@
  repair (ns_owner store) home ;@
  (if decide (kind = Meow) then migrate_meow store data root home else migrate store data root home) ;@
  seed_resources data home (ns_owner store) ;@
  let lease := {| le_root := root; le_home := home; le_owner := ns_owner store; le_kind := kind; le_lock := lock |} in
  check_cache lease ;@
  st_ret lease.
(** Behind the marker nothing framed is touched. *)
Lemma keeps_acquire_locked (P : Prop) alive store kind data root home lock :
  keeps φ (settle_active alive root) (ok (fun _ => P)) ->
  keeps φ (acquire_locked alive store kind data root home lock)
    (ok (fun lease => P /\ le_root lease = root /\ le_lock lease = lock /\ le_kind lease = kind)).
Proof.
  intros Hs. eapply keeps_bind; [exact Hs|]. intros a HP. cbn in HP. apply keeps_then; [apply keeps_repair, Hn|].
  apply keeps_then; [case_decide; [apply keeps_migrate_meow|apply keeps_migrate]|].
  apply keeps_then; [apply keeps_seed_resources|]. apply keeps_then; [apply keeps_check_cache|]. by apply keeps_ret.
Qed.
Lemma acquire_unfold alive store kind :
  acquire alive store kind =
  (let@ dirs := directories store kind in
   let '(data, root, home) := dirs in
   let@ lock := file root "lease.lock" (ns_owner store) true in
   let@ free := try_lock lock in
   if negb free then st_err (Busy (dr_path root))
   else releasing_on_err lock (acquire_locked alive store kind data root home lock)).
Proof. done. Qed.
Lemma keeps_acquire alive store kind :
  (forall d, fr_entry φ d "active" = None) -> quiet φ (acquire alive store kind).
Proof.
  intros He. rewrite acquire_unfold. eapply keeps_bind; [apply keeps_directories|]. intros [[data root] home] _.
  eapply keeps_bind; [apply keeps_file, Hn|]. intros lock _. eapply keeps_bind; [apply keeps_try_lock|]. intros [] Hl; [|apply keeps_err].
  cbn. apply keeps_releasing_on_err; [by apply Hl|]. eapply keeps_quiet, (keeps_acquire_locked True), keeps_settle_active, He.
Qed.
(** A store whose lock is taken, or whose marker stands, is not acquired. *)
Lemma keeps_acquire_refused alive store kind d root :
  fr_roots φ !! ns_data store = Some d -> fr_entry φ d "native-store" = Some root ->
  (exists l, fr_entry φ root "lease.lock" = Some l /\ fr_locked φ l)
  \/ (exists a bytes, fr_entry φ root "active" = Some a /\ fr_file φ a = Some bytes /\ blocks alive bytes) ->
  keeps φ (acquire alive store kind) (ok (fun _ => False)).
Proof.
  intros Hd Hr Hblock. rewrite acquire_unfold. eapply keeps_bind; [apply keeps_directories|]. intros [[data root'] home] Hroot. cbn in Hroot.
  specialize (Hroot d root Hd Hr). subst root.
  eapply keeps_bind; [apply keeps_file, Hn|]. intros lock [Ho _]. eapply keeps_bind; [apply keeps_try_lock|]. intros [] Hl; [|apply keeps_err].
  cbn. specialize (Hl eq_refl). destruct Hblock as [(l & He & Hlocked)|(a & bytes & He & Hf & Hb)]; [by rewrite (Ho _ He) in Hl|].
  apply keeps_releasing_on_err; [done|]. eapply keeps_weaken; [by eapply (keeps_acquire_locked False), keeps_settle_blocked|].
  intros [lease|e]; [by intros []|done].
Qed.
Lemma keeps_check_home store temporary : quiet φ (check_home store temporary).
Proof.
  apply keeps_then; [apply keeps_nop|]. eapply keeps_bind; [apply keeps_dir_open|]. intros home _.
  eapply keeps_bind; [apply keeps_dir_open|]. intros data _. apply keeps_then; [|by apply keeps_ret].
  intros fs. apply keeps_seed_resources.
Qed.
Lemma keeps_prepare_spawn lease : fr_entry φ (dr_inode (le_root lease)) "active" = None -> quiet φ (prepare_spawn lease).
Proof.
  intros He. apply keeps_then; [apply keeps_repair, Hn|]. apply keeps_then; [apply keeps_check_cache|].
  eapply keeps_bind; [apply keeps_file, Hn|]. intros f Hf. pose proof (opened_free _ _ _ Hf He) as Hfree.
  apply keeps_then; [by apply keeps_set_len_0|]. apply keeps_then; [by apply keeps_write_all|].
  apply keeps_then; apply keeps_nop.
Qed.
Lemma keeps_record_started alive lease pid_file :
  fr_entry φ (dr_inode (le_root lease)) "active" = None -> quiet φ (record_started alive lease pid_file).
Proof.
  intros He. eapply keeps_bind; [apply keeps_read_record, Hn|]. intros bytes _. cbn zeta.
  destruct (negb _); [apply keeps_err|]. destruct (alive _); [|apply keeps_err]. apply keeps_put_marker; [by apply (ca_names _ Hcalm)|done].
Qed.
Lemma keeps_confirm_stopped lease : fr_entry φ (dr_inode (le_root lease)) "active" = None -> quiet φ (confirm_stopped lease).
Proof.
  intros He. apply keeps_then; [apply keeps_repair, Hn|]. apply keeps_then; [by apply keeps_remove|apply keeps_nop].
Qed.
End Operations.

(** ** What a core has stored stays

    Any sequence of operations of any stores, with any failures. *)
Inductive StoreCall :=
| CallAcquire (alive : Alive) (store : NativeStore) (kind : CoreKind)
| CallCheckHome (store : NativeStore) (temporary : string)
| CallPrepareSpawn (lease : Lease)
| CallRecordStarted (alive : Alive) (lease : Lease) (pid_file : string)
| CallConfirmStopped (lease : Lease)
| CallRelease (lease : Lease).

Section Kept.
Context `{StoreText}.

Definition store_call (call : StoreCall) (fs : Fs) : Fs :=
  match call with
  | CallAcquire alive store kind => (acquire alive store kind fs).2
  | CallCheckHome store temporary => (check_home store temporary fs).2
  | CallPrepareSpawn lease => (prepare_spawn lease fs).2
  | CallRecordStarted alive lease pid_file => (record_started alive lease pid_file fs).2
  | CallConfirmStopped lease => (confirm_stopped lease fs).2
  | CallRelease lease => release lease fs
  end.
Definition with_answers (answers : list Answer) (fs : Fs) : Fs :=
  {| fs_inodes := fs_inodes fs; fs_roots := fs_roots fs; fs_locks := fs_locks fs; fs_uid := fs_uid fs; fs_gid := fs_gid fs;
     fs_clock := fs_clock fs; fs_answers := answers |}.
Definition store_calls (calls : list (StoreCall * list Answer)) (fs : Fs) : Fs :=
  fold_left (fun fs c => store_call c.1 (with_answers c.2 fs)) calls fs.

(** The frame of one file. *)
Definition one_file (d : N) (name : string) (i : N) (bytes : list Byte.byte) (roots : gmap string N) : Frame :=
  {| fr_roots := roots;
     fr_entry := fun d' name' => if decide (d' = d /\ name' = name) then Some i else None;
     fr_file := fun i' => if decide (i' = i) then Some bytes else None;
     fr_locked := fun _ => False |}.
Lemma one_file_framed d name i bytes fs :
  linked d name i fs -> holds i bytes fs -> framed (one_file d name i bytes (fs_roots fs)) fs.
Proof.
  intros Hl Hh. split; cbn; [done| | |done]; intros; case_decide; simplify_eq; [|done]. by destruct_and?; subst.
Qed.
Lemma one_file_kept d name i bytes roots fs :
  framed (one_file d name i bytes roots) fs -> linked d name i fs /\ holds i bytes fs.
Proof. intros [_ E F _]. split; [apply E|apply F]; cbn; by rewrite decide_True. Qed.
Lemma one_file_calm d name i bytes roots : volatile name = false -> bytes <> [] -> calm (one_file d name i bytes roots).
Proof.
  intros Hv Hb. split.
  - intros j [[? Hj]|[]]. cbn in Hj. case_decide; [|done]. subst. exists d, name. cbn. by rewrite decide_True.
  - intros d' name' Hv'. cbn. rewrite decide_False; [done|]. intros [_ ->]. congruence.
  - intros d' name' j _ Hj. cbn in *. repeat case_decide; simplify_eq; congruence.
Qed.

(** C14: what a core has stored stays.  Whatever operations run and whatever
    system calls fail, a file that is not empty keeps its name, its inode and its
    bytes: the caches of every core, the cache of an earlier version of the
    program, the backups and the markers of finished migrations.  Excepted are
    only the geo resources, files on their way in, and the marker of a running
    core. *)
Theorem stored_files_are_kept calls d name i bytes fs :
  volatile name = false -> name <> "active" -> bytes <> [] -> linked d name i fs -> holds i bytes fs ->
  linked d name i (store_calls calls fs) /\ holds i bytes (store_calls calls fs).
Proof.
  intros Hv Ha Hb Hl Hh. pose proof (one_file_calm d name i bytes (fs_roots fs) Hv Hb) as Hc.
  set (φ := one_file d name i bytes (fs_roots fs)) in *.
  assert (He : forall d', fr_entry φ d' "active" = None) by (intros d'; cbn; rewrite decide_False; [done|]; by intros [_ <-]).
  assert (Hlk : forall j, ~ fr_locked φ j) by (by intros j []).
  assert (Hf : framed φ fs) by (by apply one_file_framed).
  eapply (one_file_kept _ _ _ _ (fs_roots fs)). change (framed φ (store_calls calls fs)).
  clear Hl Hh. clearbody φ. revert fs Hf. induction calls as [|[call answers] calls IH]; intros fs Hf; [done|]. apply IH.
  assert (Hf' : framed φ (with_answers answers fs)) by (by destruct Hf). cbn [fst snd].
  destruct call; cbn [store_call];
    [apply keeps_acquire|apply keeps_check_home|apply keeps_prepare_spawn|apply keeps_record_started|apply keeps_confirm_stopped|
     apply framed_unlock]; try done; auto.
Qed.
End Kept.

(** ** On a concrete store *)

(** The directory of an application: a clash-rs cache of an earlier version, and
    a geo database. *)
Definition demo_node (node : Node) : Inode := {| in_node := node; in_uid := 7; in_gid := 7; in_mode := 448; in_mtime := 1 |}.
Definition demo_cache : list Byte.byte := bytes_of_string "selected: {}".
Definition demo_store_fs : Fs :=
  {| fs_inodes := <[1 := demo_node (NDir (<["cache.db" := 2]> {["Country.mmdb" := 3]}))]>
       (<[2 := demo_node (NFile demo_cache)]> {[3 := demo_node (NFile (bytes_of_string "mmdb"))]});
     fs_roots := {["/data" := 1]}; fs_locks := ∅; fs_uid := 7; fs_gid := 7; fs_clock := 5; fs_answers := [] |}.
Definition demo_text : StoreText :=
  {| store_yaml := fun bytes => if (String.string_of_list_byte bytes =? "selected: {}")%string
                                then Some (VMapping [(VString "selected", VMapping [])]) else None;
     store_json := fun _ => true |}.
Definition demo_native_store : NativeStore := {| ns_data := "/data"; ns_owner := OwnerUnix 7 7; ns_legacy_kind := None |}.
(** An acquisition that fails on its way, and one that does not fail. *)
Definition demo_calls : list (StoreCall * list Answer) :=
  [(CallAcquire (fun _ => Ok false) demo_native_store ClashRust, replicate 60 AnOk ++ [AnFail false 3]);
   (CallAcquire (fun _ => Ok false) demo_native_store ClashRust, [])].

(** The second one imports the cache, byte for byte, and holds the store. *)
Lemma demo_import :
  let fs := @store_calls demo_text demo_calls demo_store_fs in
  linked 6 "cache.db" 10 fs /\ contents fs 10 = demo_cache /\ contents fs 9 = demo_cache
  /\ (@acquire demo_text (fun _ => Ok false) demo_native_store ClashRust fs).1 = Err (Busy "/data/native-store").
Proof. by vm_compute. Qed.

Lemma stored_files_are_kept_witness :
  linked 1 "cache.db" 2 (@store_calls demo_text demo_calls demo_store_fs)
  /\ holds 2 demo_cache (@store_calls demo_text demo_calls demo_store_fs).
Proof.
  apply (@stored_files_are_kept demo_text).
  - by vm_compute.
  - done.
  - done.
  - by vm_compute.
  - exists (demo_node (NFile demo_cache)). split; [by vm_compute|done].
Defined.
