(* ===== verification/NativeLease.v ===== *)
(** * One core per native store

    The lease of [NativeStore] over the whole life of a host: managers come and
    crash at any moment, their cores live on, and any system call may fail.  The
    advisory lock keeps a second manager out while one is alive, and the marker
    [active] keeps the next one out while a core of a dead one is. *)

From S2P Require Import Prelude Text Types PidRecord PidReap.
From S2P Require Import NativeStore NativeStoreSafety.
From S2P Require Paths PidSafety PidDeath.
Open Scope rust_scope.
Open Scope store_scope.

#[local] Arguments new_inode : simpl never.
#[local] Arguments set_entries : simpl never.
#[local] Arguments next_answer : simpl never.
#[local] Arguments single : simpl never.

(** ** What an operation that succeeds leaves behind *)

Lemma st_bind_ok {A B} (m : St A) (k : A -> St B) fs b fs' :
  st_bind m k fs = (Ok b, fs') -> exists a fs1, m fs = (Ok a, fs1) /\ k a fs1 = (Ok b, fs').
Proof. unfold st_bind. destruct (m fs) as [[a|e] fs1]; [|done]. intros H. by exists a, fs1. Qed.
(** The same files, directories and locks. *)
Definition alike (fs fs' : Fs) : Prop :=
  fs_inodes fs' = fs_inodes fs /\ fs_roots fs' = fs_roots fs /\ fs_locks fs' = fs_locks fs.
Lemma alike_linked fs fs' d name i : alike fs fs' -> linked d name i fs' <-> linked d name i fs.
Proof. intros (H & _). unfold linked, entries. by rewrite H. Qed.
Lemma alike_holds fs fs' i bytes : alike fs fs' -> holds i bytes fs' <-> holds i bytes fs.
Proof. intros (H & _). unfold holds. by rewrite H. Qed.
Lemma sys_ok {A} (op : Fs -> result A StdError * Fs) fs a fs' :
  sys op fs = (Ok a, fs') -> exists fs1, alike fs fs1 /\ op fs1 = (Ok a, fs').
Proof.
  unfold sys. assert (alike fs (next_answer fs).2) by done. destruct (next_answer fs) as [[|] fs1]; [|done]. intros Ho. exists fs1.
  split; [done|]. destruct (op fs1) as [[|] fs2]; cbn in Ho; by simplify_eq.
Qed.
Lemma write_all_ok f bytes fs fs' :
  write_all f bytes fs = (Ok tt, fs') ->
  exists fs1, alike fs fs1 /\ fs' = set_contents (fl_inode f) (overwrite bytes (contents fs1 (fl_inode f))) fs1.
Proof.
  unfold write_all. assert (alike fs (next_answer fs).2) by done. destruct (next_answer fs) as [[|] fs1]; [|done]. intros [= <-].
  exists fs1. by rewrite firstn_all.
Qed.
Lemma keeps_run {A} φ (m : St A) Q fs r fs' : keeps φ m Q -> m fs = (r, fs') -> framed φ fs -> framed φ fs' /\ Q r.
Proof. intros Hk Hm Hf. specialize (Hk fs Hf). by rewrite Hm in Hk. Qed.

(** The empty frame, and that of one entry. *)
Definition bare (roots : gmap string N) : Frame :=
  {| fr_roots := roots; fr_entry := fun _ _ => None; fr_file := fun _ => None; fr_locked := fun _ => False |}.
Lemma bare_framed fs : framed (bare (fs_roots fs)) fs.
Proof. by split. Qed.
Definition one_entry (d : N) (name : string) (i : N) (roots : gmap string N) : Frame :=
  {| fr_roots := roots;
     fr_entry := fun d' name' => if decide (d' = d /\ name' = name) then Some i else None;
     fr_file := fun _ => None;
     fr_locked := fun _ => False |}.
Lemma one_entry_framed d name i fs : linked d name i fs -> framed (one_entry d name i (fs_roots fs)) fs.
Proof. intros H. split; cbn; [done| |done|done]. intros d' name' j Hj. case_decide as Hd; [|done]. destruct Hd as [-> ->]. by simplify_eq. Qed.
Lemma one_entry_linked d name i roots fs : framed (one_entry d name i roots) fs -> linked d name i fs.
Proof. intros Hf. apply (fd_entry _ _ Hf). cbn. by rewrite decide_True. Qed.

Lemma one_entry_calm d name i roots : volatile name = false -> calm (one_entry d name i roots).
Proof.
  intros Hv. split.
  - intros j [[x Hx]|[]]. by cbn in Hx.
  - intros d' name' Hv'. cbn. case_decide as Hd; [|done]. destruct Hd as [_ ->]. congruence.
  - intros d' name' j _ _. by cbn.
Qed.
Lemma child_links d name owner fs c fs' :
  child d name owner fs = (Ok c, fs') -> linked (dr_inode d) name (dr_inode c) fs'.
Proof.
  intros H. apply st_bind_ok in H as ([] & fs1 & _ & H). apply st_bind_ok in H as (i & fs2 & Ho & H).
  apply st_bind_ok in H as ([] & fs3 & Ha & H). injection H as <- <-. cbn.
  apply sys_ok in Ho as (fs1' & _ & Ho). destruct (entries fs1' (dr_inode d) !! name) as [j|] eqn:E; [|done].
  destruct (is_dir fs1' j); [|done]. injection Ho as <- <-.
  eapply one_entry_linked, (keeps_run _ _ _ _ _ _ (keeps_authorize _ _ _ _ _) Ha). by apply one_entry_framed.
Qed.
Lemma file_links d name owner create fs f fs' :
  file d name owner create fs = (Ok f, fs') ->
  linked (dr_inode d) name (fl_inode f) fs' /\ exists bytes, holds (fl_inode f) bytes fs'.
Proof.
  intros H. apply st_bind_ok in H as ([] & fs1 & _ & H). apply st_bind_ok in H as (g & fs2 & Hr & H).
  apply st_bind_ok in H as ([] & fs3 & Ha & H). injection H as -> ->.
  apply st_bind_ok in Hr as (i & fs1' & Ho & Hr). apply st_bind_ok in Hr as (okk & fs1'' & Hs & Hr).
  apply sys_ok in Ho as (fs1a & _ & Ho). apply sys_ok in Hs as (fs1b & Hal & [= <- <-]).
  destruct (single fs1b i) eqn:Hsi; [|done]. injection Hr as <- <-. cbn in *.
  assert (Hl : linked (dr_inode d) name i fs1b).
  { apply (alike_linked _ _ _ _ _ Hal). destruct (entries fs1a (dr_inode d) !! name) as [j|] eqn:E.
    - destruct (is_symlink fs1a j); [done|]. destruct (is_dir fs1a j); [done|]. by simplify_eq.
    - destruct create; [|done]. cbn in Ho. destruct (is_dir fs1a (dr_inode d)) eqn:Hd; [|done]. cbn in Ho.
      pose proof (is_dir_new (NFile []) 384 fs1a _ Hd) as He. destruct (new_inode _ _ fs1a) as [j fs1c] eqn:En. cbn in He.
      injection Ho as <- <-. unfold linked. rewrite entries_set by done. apply lookup_insert_eq. }
  assert (exists bytes, holds i bytes fs1b) as [bytes Hh].
  { unfold single, is_file in Hsi. apply andb_true_iff in Hsi as [Hsi _]. unfold holds.
    destruct (fs_inodes fs1b !! i) as [[[bytes| |]]|]; try done. by eexists _, _. }
  destruct (keeps_run _ _ _ _ _ _ (keeps_authorize _ _ _ _ _) Ha (one_file_framed _ _ _ _ _ Hl Hh)) as [Hf _].
  apply one_file_kept in Hf as [? ?]. split; [done|by eexists].
Qed.

(** Writing a file from its start. *)
Lemma holds_set_contents i bytes old fs : holds i old fs -> holds i bytes (set_contents i bytes fs).
Proof.
  intros (n & Hn & Hb). unfold holds, set_contents. cbn. rewrite lookup_alter_eq, Hn. cbn. rewrite Hb. by eexists.
Qed.
Lemma linked_set_contents d name i j bytes fs : linked d name i fs -> linked d name i (set_contents j bytes fs).
Proof.
  intros H. unfold linked, entries, set_contents in *. cbn. destruct (decide (d = j)) as [->|Hne]; [|by rewrite lookup_alter_ne].
  rewrite lookup_alter_eq. by destruct (fs_inodes fs !! j) as [[[]]|].
Qed.
Lemma rewrite_ok d name f bytes fs fs' :
  linked d name (fl_inode f) fs -> (exists old, holds (fl_inode f) old fs) ->
  (set_len_0 f ;@ write_all f bytes) fs = (Ok tt, fs') ->
  linked d name (fl_inode f) fs' /\ holds (fl_inode f) bytes fs'.
Proof.
  intros Hl [old Hh] H. apply st_bind_ok in H as ([] & fs1 & H1 & H2). apply sys_ok in H1 as (fs0 & Hal & [= <-]).
  apply (alike_linked _ _ _ _ _ Hal) in Hl. apply (alike_holds _ _ _ _ Hal) in Hh.
  apply (linked_set_contents _ _ _ (fl_inode f) []) in Hl. apply (holds_set_contents _ []) in Hh.
  apply write_all_ok in H2 as (fs2 & Hal2 & ->). apply (alike_linked _ _ _ _ _ Hal2) in Hl. apply (alike_holds _ _ _ _ Hal2) in Hh.
  split; [by apply linked_set_contents|]. destruct Hh as ([node] & Hn & Hb). cbn in Hb. subst node.
  unfold contents. rewrite Hn. unfold overwrite. rewrite drop_nil, app_nil_r. eapply holds_set_contents. by eexists.
Qed.
Lemma rename_ok d old new i bytes fs fs' :
  linked (dr_inode d) old i fs -> holds i bytes fs -> rename d old new fs = (Ok tt, fs') ->
  linked (dr_inode d) new i fs' /\ holds i bytes fs'.
Proof.
  intros Hl Hh H. apply sys_ok in H as (fs1 & Hal & H). apply (alike_linked _ _ _ _ _ Hal) in Hl. apply (alike_holds _ _ _ _ Hal) in Hh.
  cbn zeta in H. unfold linked in Hl. rewrite Hl in H. destruct (match _ with Some j => _ | None => _ end); [done|]. injection H as <-.
  assert (Hd : is_dir fs1 (dr_inode d) = true).
  { unfold entries in Hl. unfold is_dir. by destruct (fs_inodes fs1 !! dr_inode d) as [[[]]|]. }
  split; [unfold linked; rewrite entries_set by done; apply lookup_insert_eq|].
  destruct Hh as (n & Hn & Hb). unfold holds, set_entries. cbn. destruct (decide (i = dr_inode d)) as [->|Hne].
  - unfold is_dir in Hd. rewrite Hn in Hd. destruct n as [[]]; by simplify_eq.
  - rewrite lookup_alter_ne by done. by exists n.
Qed.
Lemma nop_ok fs fs' : nop fs = (Ok tt, fs') -> alike fs fs'.
Proof. intros H. apply sys_ok in H as (fs1 & Hal & H). by injection H as <-. Qed.
Lemma rename_err d old new fs e fs' : rename d old new fs = (Err e, fs') -> alike fs fs'.
Proof.
  unfold rename, sys. assert (alike fs (next_answer fs).2) by done. destruct (next_answer fs) as [[|] fs1]; [|by intros Hr; simplify_eq].
  cbn zeta. intros Hr. destruct (_ !! old); [|by cbn in Hr; simplify_eq].
  destruct (match _ with Some j => _ | None => _ end); [by cbn in Hr; simplify_eq|done].
Qed.
Lemma alike_framed φ fs fs' : alike fs fs' -> framed φ fs -> framed φ fs'.
Proof.
  intros Ha [R E F L]. pose proof Ha as (_ & Hr & Hl). split; [by rewrite Hr| | |by rewrite Hl].
  - intros d name i H. apply (alike_linked _ _ _ _ _ Ha). auto.
  - intros i bytes H. apply (alike_holds _ _ _ _ Ha). auto.
Qed.
Lemma alike_trans fs1 fs2 fs3 : alike fs1 fs2 -> alike fs2 fs3 -> alike fs1 fs3.
Proof. intros (? & ? & ?) (? & ? & ?). repeat split; congruence. Qed.

Section Outcomes.
Context `{StoreText}.

(** A marker is the old one or the new one. *)
Lemma put_marker_outcome φ root temp name bytes owner fs r fs' :
  named φ -> fr_entry φ (dr_inode root) temp = None -> put_marker root temp name bytes owner fs = (r, fs') -> framed φ fs ->
  framed φ fs' \/ exists i, linked (dr_inode root) name i fs' /\ holds i bytes fs'.
Proof.
  intros Hn Ht Hm Hf. unfold put_marker in Hm. unfold st_bind in Hm.
  destruct (file root temp owner true fs) as [[f|e] fs1] eqn:E1;
    destruct (keeps_run _ _ _ _ _ _ (keeps_file _ Hn _ _ _ _) E1 Hf) as [Hf1 Ho]; [|by simplify_eq; left].
  apply file_links in E1 as [Hl Hh]. pose proof (opened_free _ _ _ _ Ho Ht) as Hfree.
  destruct (set_len_0 f fs1) as [[[]|e] fs2] eqn:E2;
    destruct (keeps_run _ _ _ _ _ _ (keeps_set_len_0 _ _ Hfree) E2 Hf1) as [Hf2 _]; [|by simplify_eq; left].
  destruct (write_all f bytes fs2) as [[[]|e] fs3] eqn:E3;
    destruct (keeps_run _ _ _ _ _ _ (keeps_write_all _ _ _ Hfree) E3 Hf2) as [Hf3 _]; [|by simplify_eq; left].
  destruct (rewrite_ok _ _ _ bytes fs1 fs3 Hl Hh) as [Hl3 Hh3]; [unfold st_bind; by rewrite E2|].
  destruct (sync_all fs3) as [[[]|e] fs4] eqn:E4;
    destruct (keeps_run _ _ _ _ _ _ (keeps_nop _) E4 Hf3) as [Hf4 _]; [|by simplify_eq; left].
  apply nop_ok in E4. apply (alike_linked _ _ _ _ _ E4) in Hl3. apply (alike_holds _ _ _ _ E4) in Hh3.
  destruct (rename root temp name fs4) as [[[]|e] fs5] eqn:E5; [right|simplify_eq; left; by eapply alike_framed, Hf4; eapply rename_err].
  destruct (rename_ok _ _ _ _ _ _ _ Hl3 Hh3 E5) as [Hl5 Hh5]. exists (fl_inode f).
  assert (alike fs5 fs') as Ha.
  { unfold dir_sync, nop, sys in Hm. assert (alike fs5 (next_answer fs5).2) by done. destruct (next_answer fs5) as [[|] fs6]; by simplify_eq. }
  by rewrite (alike_linked _ _ _ _ _ Ha), (alike_holds _ _ _ _ Ha).
Qed.
Lemma prepare_spawn_outcome lease fs fs' :
  prepare_spawn lease fs = (Ok tt, fs') ->
  exists i, linked (dr_inode (le_root lease)) "active" i fs' /\ holds i (bytes_of_string (CoreKind_as_ref (le_kind lease))) fs'.
Proof.
  intros Hp. apply st_bind_ok in Hp as ([] & fs1 & _ & Hp). apply st_bind_ok in Hp as ([] & fs2 & _ & Hp).
  apply st_bind_ok in Hp as (f & fs3 & Hf & Hp). apply file_links in Hf as [Hl Hh].
  apply st_bind_ok in Hp as ([] & fs4 & H4 & Hp). apply st_bind_ok in Hp as ([] & fs5 & H5 & Hp).
  apply st_bind_ok in Hp as ([] & fs6 & H6 & Hp). apply nop_ok in H6, Hp.
  destruct (rewrite_ok _ _ _ (bytes_of_string (CoreKind_as_ref (le_kind lease))) fs3 fs5 Hl Hh) as [Hl5 Hh5];
    [unfold st_bind; by rewrite H4|].
  pose proof (alike_trans _ _ _ H6 Hp) as Ha. exists (fl_inode f). by rewrite (alike_linked _ _ _ _ _ Ha), (alike_holds _ _ _ _ Ha).
Qed.

(** *** The store's own files

    The frame of the store at [dd] with the lock file [l], its marker if it is
    to stand, and the lock if it is taken. *)
Definition store_frame (roots : gmap string N) (dd root l : N) (lock : list Byte.byte) (locked : bool)
    (active : option (N * list Byte.byte)) : Frame :=
  {| fr_roots := roots;
     fr_entry := fun d name =>
       if decide (d = dd /\ name = "native-store") then Some root
       else if decide (d = root /\ name = "lease.lock") then Some l
       else if decide (d = root /\ name = "active") then fst <$> active
       else None;
     fr_file := fun i =>
       if decide (i = l) then Some lock
       else match active with Some (a, bytes) => if decide (i = a) then Some bytes else None | None => None end;
     fr_locked := fun i => locked = true /\ i = l |}.
Lemma store_frame_calm roots dd root l lock locked active : calm (store_frame roots dd root l lock locked active).
Proof.
  split; cbn.
  - intros i Hi. assert (i = l \/ exists a bytes, active = Some (a, bytes) /\ i = a) as [->|(a & bytes & -> & ->)].
    { cbn in Hi. destruct Hi as [[x Hi]|[_ ->]]; [|by left]. case_decide; [by left|]. destruct active as [[a bytes]|]; [|done].
      case_decide; [|done]. right. eauto. }
    + exists root, "lease.lock". cbn. by rewrite decide_False, decide_True by naive_solver.
    + exists root, "active". cbn. by rewrite decide_False, decide_False, decide_True by naive_solver.
  - intros d name Hv. cbn.
    do 3 (case_decide as Hd; [destruct Hd as [-> ->]; by vm_compute in Hv|clear Hd]). done.
  - intros d name i Hin Hi. exfalso. cbn in Hi.
    do 3 (case_decide as Hd; [destruct Hd as [_ ->]; apply elem_of_cons in Hin as [Hin|Hin]; [done|];
                              by apply list_elem_of_singleton in Hin|clear Hd]). done.
Qed.
Record Stored (roots : gmap string N) (dd root l : N) (lock : list Byte.byte) (fs : Fs) : Prop := {
  so_roots : fs_roots fs = roots;
  so_root : linked dd "native-store" root fs;
  so_entry : linked root "lease.lock" l fs;
  so_lock : holds l lock fs;
}.
Definition marked (root : N) (active : option (N * list Byte.byte)) (fs : Fs) : Prop :=
  match active with Some (a, bytes) => linked root "active" a fs /\ holds a bytes fs | None => True end.
Lemma holds_fun i bytes bytes' fs : holds i bytes fs -> holds i bytes' fs -> bytes = bytes'.
Proof. intros (n & Hn & Hb) (n' & Hn' & Hb'). congruence. Qed.
Lemma store_framed roots dd root l lock locked active fs :
  Stored roots dd root l lock fs -> (locked = true -> l ∈ fs_locks fs) -> marked root active fs ->
  framed (store_frame roots dd root l lock locked active) fs.
Proof.
  intros [R E1 E2 F] Hl Hm. split; cbn.
  - done.
  - intros d name i Hi. case_decide as Hd; [by destruct Hd as [-> ->]; simplify_eq|clear Hd].
    case_decide as Hd; [by destruct Hd as [-> ->]; simplify_eq|clear Hd]. case_decide as Hd; [destruct Hd as [-> ->]|done].
    destruct active as [[a bytes]|]; [|done]. cbn in Hi. simplify_eq. by apply Hm.
  - intros i bytes Hi. case_decide; [by simplify_eq|]. destruct active as [[a bytes']|]; [|done]. case_decide; [|done].
    simplify_eq. by apply Hm.
  - intros i [Hlk ->]. auto.
Qed.
Lemma framed_store roots dd root l lock locked active fs fs0 :
  framed (store_frame roots dd root l lock locked active) fs -> Stored roots dd root l lock fs0 -> marked root active fs0 ->
  Stored roots dd root l lock fs /\ (locked = true -> l ∈ fs_locks fs) /\ marked root active fs.
Proof.
  intros [R E F L] S0 M0. split; [split|split].
  - done.
  - apply E. cbn. by rewrite decide_True.
  - apply E. cbn. by rewrite decide_False, decide_True by naive_solver.
  - apply F. cbn. by rewrite decide_True.
  - intros Hl. by apply L.
  - destruct active as [[a bytes]|]; [|done]. split.
    + apply E. cbn. by rewrite decide_False, decide_False, decide_True by naive_solver.
    + apply F. cbn. case_decide as Ha; [|by rewrite decide_True]. subst. f_equal. eapply holds_fun; [apply (so_lock _ _ _ _ _ _ S0)|apply M0].
Qed.
(** A marker that stands is framed. *)
Lemma marked_file roots dd root l lock locked a bytes fs0 :
  Stored roots dd root l lock fs0 -> marked root (Some (a, bytes)) fs0 ->
  let φ := store_frame roots dd root l lock locked (Some (a, bytes)) in
  fr_entry φ root "active" = Some a /\ fr_file φ a = Some bytes.
Proof.
  intros S0 [_ M0]. cbn. split; [by rewrite decide_False, decide_False, decide_True by naive_solver|].
  case_decide as Ha; [|by rewrite decide_True]. subst. f_equal. eapply holds_fun; [apply (so_lock _ _ _ _ _ _ S0)|apply M0].
Qed.

(** An acquisition that succeeds finds or makes the store, and takes its lock. *)
Lemma acquire_outcome alive store kind fs lease fs' :
  acquire alive store kind fs = (Ok lease, fs') ->
  le_kind lease = kind /\
  exists dd lock, fs_roots fs' !! ns_data store = Some dd
    /\ Stored (fs_roots fs') dd (dr_inode (le_root lease)) (fl_inode (le_lock lease)) lock fs'
    /\ fl_inode (le_lock lease) ∈ fs_locks fs'.
Proof.
  rewrite acquire_unfold. intros Ha. apply st_bind_ok in Ha as ([[data root] home] & fs1 & Hd & Ha).
  unfold directories in Hd. destruct (ns_owner store) as [uid gid|]; [|done].
  apply st_bind_ok in Hd as (data' & fs2 & Hdata & Hd). apply st_bind_ok in Hd as (root' & fs3 & Hroot & Hd).
  apply st_bind_ok in Hd as (version & fs4 & Hv & Hd). apply st_bind_ok in Hd as (home' & fs5 & Hh & Hd).
  injection Hd as -> -> -> ->.
  assert (Hdd : fs_roots fs2 !! ns_data store = Some (dr_inode data)).
  { pose proof (keeps_run _ _ _ _ _ _ (keeps_dir_open (bare (fs_roots fs)) _) Hdata (bare_framed fs)) as [Hf2 [_ Hi]].
    apply st_bind_ok in Hdata as (i & fs6 & Hopen & _). apply sys_ok in Hopen as (fs7 & (_ & Hr & _) & Hopen).
    destruct (fs_roots fs7 !! ns_data store) as [j|] eqn:Ej; [|done]. rewrite Hr in Ej.
    rewrite (fd_roots _ _ Hf2). cbn. rewrite Ej. f_equal. symmetry. by apply Hi. }
  pose proof (child_links _ _ _ _ _ _ Hroot) as Hl. apply one_entry_framed in Hl as Hf3.
  pose proof (keeps_run _ _ _ _ _ _ (keeps_child (bare (fs_roots fs2)) _ _ _) Hroot (bare_framed fs2)) as [[Hr3 _ _ _] _]. cbn in Hr3.
  assert (Hcalm : calm (one_entry (dr_inode data) "native-store" (dr_inode root) (fs_roots fs3))) by (by apply one_entry_calm).
  set (φ := one_entry _ _ _ _) in Hf3, Hcalm.
  destruct (keeps_run _ _ _ _ _ _ (keeps_child φ _ _ _) Hv Hf3) as [Hf4 _].
  destruct (keeps_run _ _ _ _ _ _ (keeps_child φ _ _ _) Hh Hf4) as [Hf1 _].
  apply st_bind_ok in Ha as (lock & fs8 & Hlock & Ha).
  destruct (keeps_run _ _ _ _ _ _ (keeps_file φ (ca_named _ Hcalm) _ _ _ _) Hlock Hf1) as [Hf8 _].
  apply file_links in Hlock as [Hl8 [bytes Hb8]].
  apply st_bind_ok in Ha as (free & fs9 & Hfree & Ha). destruct free; [|done]. cbn [negb] in Ha.
  apply sys_ok in Hfree as (fs10 & Hal & Hfree). destruct (decide (fl_inode lock ∈ fs_locks fs10)); [done|]. injection Hfree as <-.
  apply (alike_framed _ _ _ Hal) in Hf8. apply (alike_linked _ _ _ _ _ Hal) in Hl8. apply (alike_holds _ _ _ _ Hal) in Hb8.
  assert (S9 : Stored (fs_roots fs10) (dr_inode data) (dr_inode root) (fl_inode lock) bytes
                 (with_locks ({[fl_inode lock]} ∪ fs_locks fs10) fs10)).
  { split; [done| |exact Hl8|exact Hb8]. exact (one_entry_linked _ _ _ _ _ Hf8). }
  unfold releasing_on_err in Ha. destruct (acquire_locked alive store kind data root home lock _) as [[lease'|] fs11] eqn:Hacq; [|done].
  injection Ha as -> ->.
  assert (Hf : framed (store_frame (fs_roots fs10) (dr_inode data) (dr_inode root) (fl_inode lock) bytes true None)
                 (with_locks ({[fl_inode lock]} ∪ fs_locks fs10) fs10)).
  { apply store_framed; [done| |done]. intros _. cbn. set_solver. }
  pose proof (store_frame_calm (fs_roots fs10) (dr_inode data) (dr_inode root) (fl_inode lock) bytes true None) as Hc.
  destruct (keeps_run _ _ _ _ _ _ (keeps_acquire_locked _ Hc True alive store kind data root home lock
              (keeps_settle_active _ Hc alive root ltac:(cbn; by rewrite decide_False, decide_False, decide_True by naive_solver))) Hacq Hf)
    as [Hf' (_ & <- & <- & <-)].
  destruct (framed_store _ _ _ _ _ _ _ _ _ Hf' S9 I) as (S' & Hin & _). split; [done|]. exists (dr_inode data), bytes.
  rewrite (so_roots _ _ _ _ _ _ S'). split; [|split; [done|by apply Hin]].
  rewrite (fd_roots _ _ Hf8). cbn. by rewrite Hr3.
Qed.
(** The pid file of a core, with the text of its record. *)
Definition pid_record (pid_file raw : string) (fs : Fs) : Prop :=
  exists parent name d i, Paths.parent pid_file = Some parent /\ Paths.file_name pid_file = Some name /\
    fs_roots fs !! parent = Some d /\ linked d name i fs /\ holds i (bytes_of_string raw) fs.
Lemma one_file_named d name i bytes roots : named (one_file d name i bytes roots).
Proof. intros j [[? Hj]|[]]. cbn in Hj. case_decide; [|done]. subst. exists d, name. cbn. by rewrite decide_True. Qed.
Lemma read_record_exact pid_file raw fs bytes fs' :
  pid_record pid_file raw fs -> read_record pid_file fs = (Ok bytes, fs') -> bytes = bytes_of_string raw.
Proof.
  intros (parent & name & d & i & Hp & Hname & Hd & Hl & Hh) Hr.
  pose proof (one_file_framed _ _ _ _ _ Hl Hh) as Hf.
  destruct (keeps_run _ _ _ _ _ _ (keeps_read_record _ (one_file_named _ _ _ _ _) _) Hr Hf) as [_ Hb].
  apply (Hb parent name d i (bytes_of_string raw) Hp Hname Hd); cbn; by rewrite decide_True.
Qed.
(** The marker of a core that was started becomes its record, or stays. *)
Lemma record_started_outcome φ alive lease pid_file raw fs r fs' :
  named φ -> fr_entry φ (dr_inode (le_root lease)) "active.new" = None -> pid_record pid_file raw fs -> framed φ fs ->
  record_started alive lease pid_file fs = (r, fs') ->
  framed φ fs' \/ exists i, linked (dr_inode (le_root lease)) "active" i fs' /\ holds i (bytes_of_string raw) fs'.
Proof.
  intros Hn Ht Hp Hf Hr. unfold record_started, st_bind in Hr.
  destruct (read_record pid_file fs) as [[bytes|e] fs1] eqn:E1;
    destruct (keeps_run _ _ _ _ _ _ (keeps_read_record _ Hn _) E1 Hf) as [Hf1 _]; [|by simplify_eq; left].
  rewrite (read_record_exact _ _ _ _ _ Hp E1) in Hr. cbn zeta in Hr. destruct (negb _); [injection Hr as <- <-; by left|].
  destruct (alive _); [|injection Hr as <- <-; by left]. by eapply put_marker_outcome in Hr.
Qed.
End Outcomes.

(** ** Hosts that come and go *)

(** A manager that holds the lease: whether its marker is written for the core
    to come, and the record of its core while that is alive. *)
Record Held := { hd_lease : Lease; hd_prepared : bool; hd_core : option string }.
(** The file system, the managers that are alive, and the records of the cores
    whose manager is not. *)
Record Hosts := { ho_fs : Fs; ho_held : list Held; ho_orphans : list string }.
Definition live_cores (h : Hosts) : list string := omap hd_core (ho_held h) ++ ho_orphans h.

(** No core that lives is taken for dead; and the text of a marker that is no
    record says nothing about any. *)
Definition Honest (alive : Alive) (h : Hosts) : Prop :=
  (forall kind, alive (CoreKind_as_ref kind) <> Ok false) /\ (forall raw, raw ∈ live_cores h -> alive raw <> Ok false).
(** What others do leaves the store's own files alone. *)
Definition OWN_FILES : list string := ["native-store"; "lease.lock"; "active"].
Definition spares_store (fs fs' : Fs) : Prop :=
  fs_roots fs' = fs_roots fs /\ fs_locks fs' = fs_locks fs /\
  (forall d name i, name ∈ OWN_FILES -> linked d name i fs -> linked d name i fs') /\
  (forall d name i bytes, name ∈ OWN_FILES -> linked d name i fs -> holds i bytes fs -> holds i bytes fs').

Section Protocol.
Context `{StoreText} (store : NativeStore).

(** A step of one manager, of its core, or of the world.  [acquire] and
    [prepare_spawn] may fail anywhere; a core is spawned behind a
    [prepare_spawn] that did not, and its record fits into what is read back.
    Each operation is one step: managers take turns between operations, not inside
    of one. *)
Inductive host_step : Hosts -> Hosts -> Prop :=
| StepAcquire alive kind h r fs :
    Honest alive h -> acquire alive store kind (ho_fs h) = (r, fs) ->
    host_step h {| ho_fs := fs;
                   ho_held := match r with
                              | Ok lease => [{| hd_lease := lease; hd_prepared := false; hd_core := None |}]
                              | Err _ => []
                              end ++ ho_held h;
                   ho_orphans := ho_orphans h |}
| StepPrepare lease prepared l1 l2 orphans fs r fs' :
    prepare_spawn lease fs = (r, fs') ->
    host_step {| ho_fs := fs; ho_held := l1 ++ {| hd_lease := lease; hd_prepared := prepared; hd_core := None |} :: l2;
                 ho_orphans := orphans |}
              {| ho_fs := fs';
                 ho_held := l1 ++ {| hd_lease := lease; hd_prepared := match r with Ok _ => true | Err _ => false end;
                                     hd_core := None |} :: l2;
                 ho_orphans := orphans |}
| StepSpawn lease raw l1 l2 orphans fs :
    (length (bytes_of_string raw) <= MAX_ACTIVE)%nat ->
    host_step {| ho_fs := fs; ho_held := l1 ++ {| hd_lease := lease; hd_prepared := true; hd_core := None |} :: l2;
                 ho_orphans := orphans |}
              {| ho_fs := fs; ho_held := l1 ++ {| hd_lease := lease; hd_prepared := true; hd_core := Some raw |} :: l2;
                 ho_orphans := orphans |}
| StepRecord alive lease prepared raw pid_file l1 l2 orphans fs r fs' :
    pid_record pid_file raw fs -> record_started alive lease pid_file fs = (r, fs') ->
    let held := l1 ++ {| hd_lease := lease; hd_prepared := prepared; hd_core := Some raw |} :: l2 in
    host_step {| ho_fs := fs; ho_held := held; ho_orphans := orphans |}
              {| ho_fs := fs'; ho_held := held; ho_orphans := orphans |}
(** The core ends; the next one is prepared for anew. *)
| StepExit lease prepared raw l1 l2 orphans fs :
    host_step {| ho_fs := fs; ho_held := l1 ++ {| hd_lease := lease; hd_prepared := prepared; hd_core := Some raw |} :: l2;
                 ho_orphans := orphans |}
              {| ho_fs := fs; ho_held := l1 ++ {| hd_lease := lease; hd_prepared := false; hd_core := None |} :: l2;
                 ho_orphans := orphans |}
| StepConfirm lease prepared l1 l2 orphans fs r fs' :
    confirm_stopped lease fs = (r, fs') ->
    host_step {| ho_fs := fs; ho_held := l1 ++ {| hd_lease := lease; hd_prepared := prepared; hd_core := None |} :: l2;
                 ho_orphans := orphans |}
              {| ho_fs := fs'; ho_held := l1 ++ {| hd_lease := lease; hd_prepared := false; hd_core := None |} :: l2;
                 ho_orphans := orphans |}
(** The manager lets go, or dies: its lock is free, its core lives on. *)
| StepLeave x l1 l2 orphans fs :
    host_step {| ho_fs := fs; ho_held := l1 ++ x :: l2; ho_orphans := orphans |}
              {| ho_fs := release (hd_lease x) fs; ho_held := l1 ++ l2;
                 ho_orphans := option_list (hd_core x) ++ orphans |}
| StepOrphanExit raw held o1 o2 fs :
    host_step {| ho_fs := fs; ho_held := held; ho_orphans := o1 ++ raw :: o2 |}
              {| ho_fs := fs; ho_held := held; ho_orphans := o1 ++ o2 |}
| StepWorld held orphans fs fs' :
    spares_store fs fs' ->
    host_step {| ho_fs := fs; ho_held := held; ho_orphans := orphans |}
              {| ho_fs := fs'; ho_held := held; ho_orphans := orphans |}.

(** *** The invariant *)

(** The bytes of a marker that keeps the next manager out. *)
Definition guards (core : option string) (bytes : list Byte.byte) : Prop :=
  (exists kind, bytes = bytes_of_string (CoreKind_as_ref kind)) \/
  (exists raw, core = Some raw /\ bytes = bytes_of_string raw /\ (length bytes <= MAX_ACTIVE)%nat).
Definition guarded (core : option string) (active : option (N * list Byte.byte)) : Prop :=
  exists a bytes, active = Some (a, bytes) /\ guards core bytes.
(** One manager with its core, or one core alone. *)
Inductive occupied (root l : N) (active : option (N * list Byte.byte)) (locks : gset N) : list Held -> list string -> Prop :=
| OccHeld lease prepared core :
    dr_inode (le_root lease) = root -> fl_inode (le_lock lease) = l -> l ∈ locks ->
    (is_Some core -> prepared = true) ->
    (forall raw, core = Some raw -> (length (bytes_of_string raw) <= MAX_ACTIVE)%nat) ->
    (prepared = true -> guarded core active) ->
    occupied root l active locks [{| hd_lease := lease; hd_prepared := prepared; hd_core := core |}] []
| OccOrphan raw : guarded (Some raw) active -> occupied root l active locks [] [raw].
Inductive host_inv (h : Hosts) : Prop :=
| InvFree : ho_held h = [] -> ho_orphans h = [] -> host_inv h
| InvTaken dd root l lock active :
    fs_roots (ho_fs h) !! ns_data store = Some dd -> Stored (fs_roots (ho_fs h)) dd root l lock (ho_fs h) ->
    marked root active (ho_fs h) -> occupied root l active (fs_locks (ho_fs h)) (ho_held h) (ho_orphans h) ->
    host_inv h.

Lemma bytes_of_string_inv raw : String.string_of_list_byte (bytes_of_string raw) = raw.
Proof. apply String.string_of_list_byte_of_string. Qed.
Lemma kind_fits kind : (length (bytes_of_string (CoreKind_as_ref kind)) <= MAX_ACTIVE)%nat.
Proof. apply Nat.leb_le. by destruct kind; vm_compute. Qed.
Lemma active_text_fits raw : (length (bytes_of_string raw) <= MAX_ACTIVE)%nat -> active_text (bytes_of_string raw) = raw.
Proof. intros Hl. unfold active_text. rewrite take_ge by done. apply bytes_of_string_inv. Qed.
Lemma guards_block alive h core bytes :
  Honest alive h -> guards core bytes -> (forall raw, core = Some raw -> raw ∈ live_cores h) -> blocks alive bytes.
Proof.
  intros [Hk Hl] Hg Hc. unfold blocks. destruct Hg as [[kind ->]|(raw & Hcore & -> & Hfit)].
  - rewrite active_text_fits by apply kind_fits. apply Hk.
  - rewrite active_text_fits by done. by apply Hl, Hc.
Qed.
(** An operation that keeps the store's frame keeps the store. *)
Lemma keeps_stored {A} (m : St A) Q roots dd root l lock locked active fs r fs' :
  keeps (store_frame roots dd root l lock locked active) m Q -> m fs = (r, fs') ->
  Stored roots dd root l lock fs -> (locked = true -> l ∈ fs_locks fs) -> marked root active fs ->
  fs_roots fs' = fs_roots fs /\ Stored (fs_roots fs') dd root l lock fs' /\ (locked = true -> l ∈ fs_locks fs')
  /\ marked root active fs' /\ Q r.
Proof.
  intros Hk Hm HS Hl Ha. destruct (keeps_run _ _ _ _ _ _ Hk Hm (store_framed _ _ _ _ _ _ _ _ HS Hl Ha)) as [Hf HQ].
  destruct (framed_store _ _ _ _ _ _ _ _ _ Hf HS Ha) as (HS' & Hl' & Ha').
  rewrite (so_roots _ _ _ _ _ _ HS), (so_roots _ _ _ _ _ _ HS'). auto.
Qed.
Lemma root_active roots dd root l lock locked active :
  fr_entry (store_frame roots dd root l lock locked active) root "active" = fst <$> active.
Proof. cbn. by rewrite decide_False, decide_False, decide_True by naive_solver. Qed.

Lemma acquire_free alive kind fs r fs' :
  acquire alive store kind fs = (r, fs') ->
  host_inv {| ho_fs := fs';
              ho_held := match r with
                         | Ok lease => [{| hd_lease := lease; hd_prepared := false; hd_core := None |}]
                         | Err _ => []
                         end;
              ho_orphans := [] |}.
Proof.
  intros Ha. destruct r as [lease|e]; [|by left].
  destruct (acquire_outcome _ _ _ _ _ _ Ha) as (_ & dd & lock & Hd & HS & Hl).
  eapply (InvTaken _ dd _ _ lock None); cbn; [done|done|done|]. by constructor; [done|done|done|intros []| |].
Qed.
(** Nobody acquires a store that is occupied. *)
Lemma acquire_occupied alive kind h r fs' dd root l lock active :
  Honest alive h -> acquire alive store kind (ho_fs h) = (r, fs') ->
  fs_roots (ho_fs h) !! ns_data store = Some dd -> Stored (fs_roots (ho_fs h)) dd root l lock (ho_fs h) ->
  marked root active (ho_fs h) -> occupied root l active (fs_locks (ho_fs h)) (ho_held h) (ho_orphans h) ->
  (forall lease, r <> Ok lease) /\ host_inv {| ho_fs := fs'; ho_held := ho_held h; ho_orphans := ho_orphans h |}.
Proof.
  intros Hh Ha Hd HS Hm Ho. set (locked := bool_decide (l ∈ fs_locks (ho_fs h))).
  pose proof (store_frame_calm (fs_roots (ho_fs h)) dd root l lock locked active) as Hc.
  assert (Hk : keeps (store_frame (fs_roots (ho_fs h)) dd root l lock locked active) (acquire alive store kind) (ok (fun _ => False))).
  { eapply (keeps_acquire_refused _ Hc alive store kind dd root); [done|cbn; by rewrite decide_True|].
    destruct h as [fs held orphans]; cbn in *. destruct Ho as [lease prepared core Hroot Hlock Hin Hp Hfit Hg|raw (a & bytes & Hact & Hg)].
    - left. exists l. cbn. rewrite decide_False, decide_True by naive_solver. split; [done|]. unfold locked. by rewrite bool_decide_true.
    - right. exists a, bytes. rewrite Hact in Hm |- *. destruct (marked_file _ _ _ _ _ locked _ _ _ HS Hm) as [H1 H2]. split; [done|]. split; [done|].
      eapply guards_block; [done..|]. intros ? [= <-]. by left. }
  destruct (keeps_stored _ _ _ _ _ _ _ _ _ _ _ _ Hk Ha HS ltac:(by intros ?%bool_decide_eq_true) Hm) as (Hr & HS' & Hl' & Hm' & Hq).
  split; [by intros lease ->|]. eapply (InvTaken _ dd root l lock active); cbn; [by rewrite Hr|done|done|].
  destruct h as [fs held orphans]; cbn in *. destruct Ho; constructor; try done. apply Hl'. unfold locked. by apply bool_decide_true.
Qed.

(** A manager that is there is the only one. *)
Lemma occupied_held root l active locks l1 lease prepared core l2 orphans :
  occupied root l active locks (l1 ++ {| hd_lease := lease; hd_prepared := prepared; hd_core := core |} :: l2) orphans ->
  l1 = [] /\ l2 = [] /\ orphans = [] /\ dr_inode (le_root lease) = root /\ fl_inode (le_lock lease) = l /\ l ∈ locks /\
  (is_Some core -> prepared = true) /\ (forall raw, core = Some raw -> (length (bytes_of_string raw) <= MAX_ACTIVE)%nat) /\
  (prepared = true -> guarded core active).
Proof.
  intros Ho. inversion Ho as [lease' prepared' core' Hr Hl Hin Hp Hf Hg Heq|raw Hg Heq].
  - destruct l1 as [|y l1]; [|by destruct l1]. destruct l2; [|done]. injection Heq as -> -> ->. done.
  - by destruct l1.
Qed.
Lemma inv_held fs l1 x l2 orphans :
  host_inv {| ho_fs := fs; ho_held := l1 ++ x :: l2; ho_orphans := orphans |} ->
  exists dd root l lock active, fs_roots fs !! ns_data store = Some dd /\ Stored (fs_roots fs) dd root l lock fs /\
    marked root active fs /\ occupied root l active (fs_locks fs) (l1 ++ x :: l2) orphans.
Proof. intros [H0 _|dd root l lock active]; cbn in *; [by destruct l1|]. by exists dd, root, l, lock, active. Qed.

Lemma prepare_inv lease prepared fs r fs' l1 l2 orphans :
  prepare_spawn lease fs = (r, fs') ->
  host_inv {| ho_fs := fs; ho_held := l1 ++ {| hd_lease := lease; hd_prepared := prepared; hd_core := None |} :: l2;
              ho_orphans := orphans |} ->
  host_inv {| ho_fs := fs';
              ho_held := l1 ++ {| hd_lease := lease; hd_prepared := match r with Ok _ => true | Err _ => false end;
                                  hd_core := None |} :: l2;
              ho_orphans := orphans |}.
Proof.
  intros Hp (dd & root & l & lock & active & Hd & HS & Hm & Ho)%inv_held.
  apply occupied_held in Ho as (-> & -> & -> & <- & <- & Hin & _). cbn.
  pose proof (store_frame_calm (fs_roots fs) dd (dr_inode (le_root lease)) (fl_inode (le_lock lease)) lock true None) as Hc.
  destruct (keeps_stored _ _ _ _ _ _ _ _ _ _ _ _ (keeps_prepare_spawn _ Hc lease (root_active _ _ _ _ _ _ _)) Hp HS ltac:(done) I)
    as (Hr & HS' & Hl' & _).
  destruct r as [[]|e].
  - destruct (prepare_spawn_outcome _ _ _ Hp) as (i & Hi & Hb).
    eapply (InvTaken _ dd _ _ lock (Some (i, _))); cbn; [by rewrite Hr|done|by split|].
    constructor; [done|done|by apply Hl'|done|done|]. intros _. eexists _, _. split; [done|]. left. by eexists.
  - eapply (InvTaken _ dd _ _ lock None); cbn; [by rewrite Hr|done|done|]. apply OccHeld; [done|done|by apply Hl'|by intros []|done|done].
Qed.
Lemma confirm_inv lease prepared fs r fs' l1 l2 orphans :
  confirm_stopped lease fs = (r, fs') ->
  host_inv {| ho_fs := fs; ho_held := l1 ++ {| hd_lease := lease; hd_prepared := prepared; hd_core := None |} :: l2;
              ho_orphans := orphans |} ->
  host_inv {| ho_fs := fs'; ho_held := l1 ++ {| hd_lease := lease; hd_prepared := false; hd_core := None |} :: l2;
              ho_orphans := orphans |}.
Proof.
  intros Hp (dd & root & l & lock & active & Hd & HS & Hm & Ho)%inv_held.
  apply occupied_held in Ho as (-> & -> & -> & <- & <- & Hin & _). cbn.
  pose proof (store_frame_calm (fs_roots fs) dd (dr_inode (le_root lease)) (fl_inode (le_lock lease)) lock true None) as Hc.
  destruct (keeps_stored _ _ _ _ _ _ _ _ _ _ _ _ (keeps_confirm_stopped _ Hc lease (root_active _ _ _ _ _ _ _)) Hp HS ltac:(done) I)
    as (Hr & HS' & Hl' & _).
  eapply (InvTaken _ dd _ _ lock None); cbn; [by rewrite Hr|done|done|]. apply OccHeld; [done|done|by apply Hl'|by intros []|done|done].
Qed.
Lemma record_inv alive lease prepared raw pid_file fs r fs' l1 l2 orphans :
  pid_record pid_file raw fs -> record_started alive lease pid_file fs = (r, fs') ->
  let held := l1 ++ {| hd_lease := lease; hd_prepared := prepared; hd_core := Some raw |} :: l2 in
  host_inv {| ho_fs := fs; ho_held := held; ho_orphans := orphans |} ->
  host_inv {| ho_fs := fs'; ho_held := held; ho_orphans := orphans |}.
Proof.
  intros Hpid Hp held (dd & root & l & lock & active & Hd & HS & Hm & Ho)%inv_held. unfold held. clear held.
  apply occupied_held in Ho as (-> & -> & -> & <- & <- & Hin & Hprep & Hfit & Hg). cbn.
  set (root := dr_inode (le_root lease)) in *. set (l := fl_inode (le_lock lease)) in *.
  pose proof (store_frame_calm (fs_roots fs) dd root l lock true None) as Hc.
  destruct (keeps_stored _ _ _ _ _ _ _ _ _ _ _ _ (keeps_record_started _ Hc alive lease pid_file (root_active _ _ _ _ _ _ _)) Hp HS ltac:(done) I)
    as (Hr & HS' & Hl' & _). specialize (Hfit raw eq_refl).
  pose proof (store_frame_calm (fs_roots fs) dd root l lock true active) as Hca.
  destruct (record_started_outcome _ alive lease pid_file raw fs r fs' (ca_named _ Hca) ltac:(by apply (ca_names _ Hca)) Hpid
              ltac:(by apply store_framed) Hp) as [Hf|(i & Hi & Hb)].
  - destruct (framed_store _ _ _ _ _ _ _ _ _ Hf HS Hm) as (_ & _ & Hm').
    eapply (InvTaken _ dd _ _ lock active); cbn; [by rewrite Hr|done|done|]. constructor; try done; [by apply Hl'|by intros ? [= <-]].
  - eapply (InvTaken _ dd _ _ lock (Some (i, bytes_of_string raw))); cbn; [by rewrite Hr|done|by split|].
    constructor; try done; [by apply Hl'|by intros ? [= <-]|]. intros _. eexists _, _. split; [done|]. right. by exists raw.
Qed.
Lemma spawn_inv lease raw fs l1 l2 orphans :
  (length (bytes_of_string raw) <= MAX_ACTIVE)%nat ->
  host_inv {| ho_fs := fs; ho_held := l1 ++ {| hd_lease := lease; hd_prepared := true; hd_core := None |} :: l2;
              ho_orphans := orphans |} ->
  host_inv {| ho_fs := fs; ho_held := l1 ++ {| hd_lease := lease; hd_prepared := true; hd_core := Some raw |} :: l2;
              ho_orphans := orphans |}.
Proof.
  intros Hfit (dd & root & l & lock & active & Hd & HS & Hm & Ho)%inv_held.
  apply occupied_held in Ho as (-> & -> & -> & Hr & Hl & Hin & _ & _ & Hg). cbn.
  eapply (InvTaken _ dd root l lock active); cbn; [done..|]. constructor; try done; [by intros ? [= <-]|]. intros _.
  destruct (Hg eq_refl) as (a & bytes & -> & [[kind ->]|(? & [=] & _)]). eexists _, _. split; [done|]. left. by eexists.
Qed.
Lemma exit_inv lease prepared raw fs l1 l2 orphans :
  host_inv {| ho_fs := fs; ho_held := l1 ++ {| hd_lease := lease; hd_prepared := prepared; hd_core := Some raw |} :: l2;
              ho_orphans := orphans |} ->
  host_inv {| ho_fs := fs; ho_held := l1 ++ {| hd_lease := lease; hd_prepared := false; hd_core := None |} :: l2;
              ho_orphans := orphans |}.
Proof.
  intros (dd & root & l & lock & active & Hd & HS & Hm & Ho)%inv_held.
  apply occupied_held in Ho as (-> & -> & -> & Hr & Hl & Hin & _). cbn.
  eapply (InvTaken _ dd root l lock active); cbn; [done..|]. by apply OccHeld.
Qed.
Lemma leave_inv x fs l1 l2 orphans :
  host_inv {| ho_fs := fs; ho_held := l1 ++ x :: l2; ho_orphans := orphans |} ->
  host_inv {| ho_fs := release (hd_lease x) fs; ho_held := l1 ++ l2; ho_orphans := option_list (hd_core x) ++ orphans |}.
Proof.
  destruct x as [lease prepared core]. intros (dd & root & l & lock & active & Hd & HS & Hm & Ho)%inv_held.
  apply occupied_held in Ho as (-> & -> & -> & Hr & Hl & Hin & Hp & _ & Hg). cbn.
  destruct core as [raw|]; [|by left]. eapply (InvTaken _ dd root l lock active); cbn; [done|by destruct HS|done|]. constructor. by apply Hg, Hp.
Qed.
Lemma occupied_orphan root l active locks held o1 raw o2 :
  occupied root l active locks held (o1 ++ raw :: o2) -> held = [] /\ o1 = [] /\ o2 = [].
Proof.
  intros Ho. remember (o1 ++ raw :: o2) as os eqn:E. destruct Ho; [by destruct o1|].
  destruct o1 as [|? o1]; [by destruct o2|by destruct o1].
Qed.
Lemma orphan_exit_inv raw held o1 o2 fs :
  host_inv {| ho_fs := fs; ho_held := held; ho_orphans := o1 ++ raw :: o2 |} ->
  host_inv {| ho_fs := fs; ho_held := held; ho_orphans := o1 ++ o2 |}.
Proof.
  intros [_ H0|dd root l lock active Hd HS Hm Ho]; cbn in *; [by destruct o1|].
  apply occupied_orphan in Ho as (-> & -> & ->). by left.
Qed.
Lemma world_inv held orphans fs fs' :
  spares_store fs fs' -> host_inv {| ho_fs := fs; ho_held := held; ho_orphans := orphans |} ->
  host_inv {| ho_fs := fs'; ho_held := held; ho_orphans := orphans |}.
Proof.
  intros (Hr & Hlk & Hl & Hh) [? ?|dd root l lock active Hd [R E1 E2 F] Hm Ho]; cbn in *; [by left|].
  eapply (InvTaken _ dd root l lock active); cbn; [by rewrite Hr| | |by rewrite Hlk].
  - split; [done|apply Hl|apply Hl|eapply Hh]; try done; set_solver.
  - destruct active as [[a bytes]|]; [|done]. destruct Hm. split; [apply Hl|eapply Hh]; try done; set_solver.
Qed.
Lemma host_step_inv h h' : host_step h h' -> host_inv h -> host_inv h'.
Proof.
  intros [] Hi.
  - destruct h as [fs0 held orphans]. destruct Hi as [Eh Eo|dd root l lock active Hd HS Hm Ho].
    + cbn in Eh, Eo |- *. rewrite Eh, Eo, app_nil_r. by eapply acquire_free.
    + destruct (acquire_occupied _ _ _ _ _ _ _ _ _ _ ltac:(done) ltac:(done) Hd HS Hm Ho) as [Hno Hi].
      destruct r as [lease|e]; [by destruct (Hno lease)|done].
  - by eapply prepare_inv.
  - by apply spawn_inv.
  - by eapply record_inv.
  - by eapply exit_inv.
  - by eapply confirm_inv.
  - by apply leave_inv.
  - by eapply orphan_exit_inv.
  - by eapply world_inv.
Qed.

(** C13: no two cores ever run on one native store.  In any history of
    managers that acquire the store, prepare, start and restart their cores,
    record them, confirm their end, let go or crash, with any system call failing
    anywhere, and of cores that outlive their manager: at most one manager holds
    the store, at most one core is alive, a core without a manager leaves room
    for no manager, and whoever tries to acquire a store that is held, or whose
    core lives, is refused. *)
Theorem one_core_per_store start h :
  ho_held start = [] -> ho_orphans start = [] -> rtc host_step start h ->
  (length (ho_held h) <= 1)%nat /\ (length (live_cores h) <= 1)%nat /\ (ho_held h = [] \/ ho_orphans h = []) /\
  forall alive kind, ho_held h <> [] \/ live_cores h <> [] -> Honest alive h ->
    exists e, (acquire alive store kind (ho_fs h)).1 = Err e.
Proof.
  intros H1 H2 Hsteps. assert (Hi : host_inv h).
  { assert (Hi : host_inv start) by (by left). clear H1 H2. induction Hsteps as [|h0 h1 h2 Hs _ IH]; [done|].
    by eapply IH, host_step_inv. }
  destruct h as [fs held orphans]. destruct Hi as [E1 E2|dd root l lock active Hd HS Hm Ho]; cbn in *.
  - subst. repeat split; cbn; [lia..|by left|]. intros alive kind [[]|[]]; done.
  - assert (Hr : forall alive kind, Honest alive {| ho_fs := fs; ho_held := held; ho_orphans := orphans |} ->
                   exists e, (acquire alive store kind fs).1 = Err e).
    { intros alive kind Hh. destruct (acquire alive store kind fs) as [r fs'] eqn:E.
      destruct (acquire_occupied _ _ _ _ _ _ _ _ _ _ Hh E Hd HS Hm Ho) as [Hno _].
      destruct r as [lease|e]; [by destruct (Hno lease)|by exists e]. }
    destruct Ho as [? ? core|]; cbn; (split; [lia|split; [|split; [eauto|eauto]]]); [destruct core; cbn; lia|lia].
Qed.
End Protocol.

(** ** The operating system's answer

    [recorded_process_is_alive] of [PidReap] is honest about every core whose
    process is there while it looks. *)
Section OsAlive.
Context `{Host_os} (host : PidSafety.HostOk).

Definition os_alive (w : World) : Alive := fun raw => (recorded_process_is_alive raw w).1.
Definition lives (w : World) (raw : string) : Prop :=
  exists record p id t, parse_epoch_record raw = Ok record /\
    (er_pid record, id, t) ∈ w_seen w /\ PidSafety.token t = er_start_token record /\
    w_procs (recorded_process_is_alive raw w).2 !! er_pid record = Some p /\ pr_id p = id /\ gone p = false.
Lemma kind_no_record kind : exists e, parse_epoch_record (CoreKind_as_ref kind) = Err e.
Proof. destruct kind; vm_compute; by eexists. Qed.
Lemma os_alive_honest w h :
  PidSafety.Valid PidSafety.token w -> (forall raw, raw ∈ live_cores h -> lives w raw) -> Honest (os_alive w) h.
Proof.
  intros Hv Hl. split.
  - intros kind. destruct (kind_no_record kind) as [e He]. unfold os_alive, recorded_process_is_alive, try_bind, act_bind, try_lift, act_ret.
    by rewrite He.
  - intros raw Hraw. destruct (Hl _ Hraw) as (record & p & id & t & Hp & Hs & Ht & Hw & Hid & Hg). unfold os_alive.
    destruct (recorded_process_is_alive raw w) as [r w'] eqn:E. cbn in Hw |- *. intros ->.
    destruct (PidDeath.alive_false_dead host _ _ _ Hv E) as (record' & Hp' & Hd). rewrite Hp in Hp'. injection Hp' as <-.
    by rewrite (Hd id t Hs Ht p Hw Hid) in Hg.
Qed.
End OsAlive.

(** ** On a concrete store

    A manager takes the store of [NativeStoreSafety], starts a core and crashes;
    the core lives on, and the next manager is refused. *)
#[local] Existing Instance demo_text.
Definition demo_core : string := "record of pid 7".
Definition demo_alive : Alive := fun raw => if decide (raw = demo_core) then Ok true else Err (std_error EkInvalidData raw).
Definition demo_lease : Lease :=
  {| le_root := {| dr_path := "/data/native-store"; dr_inode := 4 |};
     le_home := {| dr_path := "/data/native-store/v1/clash-rs"; dr_inode := 6 |};
     le_owner := OwnerUnix 7 7; le_kind := ClashRust; le_lock := file_of 7 |}.
Definition demo_fs1 : Fs := (acquire demo_alive demo_native_store ClashRust demo_store_fs).2.
Definition demo_fs2 : Fs := (prepare_spawn demo_lease demo_fs1).2.
Definition demo_hosts (fs : Fs) (held : list Held) (orphans : list string) : Hosts :=
  {| ho_fs := fs; ho_held := held; ho_orphans := orphans |}.
Definition demo_held (prepared : bool) (core : option string) : Held :=
  {| hd_lease := demo_lease; hd_prepared := prepared; hd_core := core |}.
Definition demo_crashed : Hosts := demo_hosts (release demo_lease demo_fs2) [] [demo_core].

Lemma demo_kinds_honest h : (forall raw, raw ∈ live_cores h -> raw = demo_core) -> Honest demo_alive h.
Proof.
  intros Hc. split.
  - intros kind. by destruct kind; vm_compute.
  - intros raw ->%Hc. by vm_compute.
Qed.
Lemma demo_acquires : acquire demo_alive demo_native_store ClashRust demo_store_fs = (Ok demo_lease, demo_fs1).
Proof. rewrite (surjective_pairing (acquire _ _ _ _)). apply pair_eq. split; [by vm_compute|done]. Qed.
Lemma demo_prepares : prepare_spawn demo_lease demo_fs1 = (Ok tt, demo_fs2).
Proof. rewrite (surjective_pairing (prepare_spawn _ _)). apply pair_eq. split; [by vm_compute|done]. Qed.
Lemma demo_run : rtc (host_step demo_native_store) (demo_hosts demo_store_fs [] []) demo_crashed.
Proof.
  eapply rtc_l.
  { eapply (StepAcquire _ demo_alive ClashRust); [apply demo_kinds_honest; intros raw Hr; by apply elem_of_nil in Hr|apply demo_acquires]. }
  eapply rtc_l. { eapply (StepPrepare _ demo_lease false [] []), demo_prepares. }
  eapply rtc_l. { apply (StepSpawn _ demo_lease demo_core [] []). apply Nat.leb_le. by vm_compute. }
  apply rtc_once, (StepLeave _ (demo_held true (Some demo_core)) [] []).
Qed.
Lemma one_core_per_store_witness :
  (length (ho_held demo_crashed) <= 1)%nat /\ (length (live_cores demo_crashed) <= 1)%nat /\
  (ho_held demo_crashed = [] \/ ho_orphans demo_crashed = []) /\
  forall alive kind, ho_held demo_crashed <> [] \/ live_cores demo_crashed <> [] -> Honest alive demo_crashed ->
    exists e, (acquire alive demo_native_store kind (ho_fs demo_crashed)).1 = Err e.
Proof. apply (one_core_per_store demo_native_store (demo_hosts demo_store_fs [] []) demo_crashed eq_refl eq_refl demo_run). Defined.
