(* ===== verification/Diff.v ===== *)
(** * Differences between documents and what may be applied in place

    [config/diff.rs] and [config/mihomo.rs]: the structural difference of two
    documents, and the deny-by-default classification that decides whether a
    change is nothing, a [PATCH], a reload or a new process.  The partial
    configuration sent to the core and the configuration the core reports are
    data of the [clash_api] client; their conversions from and to documents
    (derived [serde] code) are parameters of the model. *)

From S2P Require Export Canonical.
Open Scope rust_scope.

Class ClashApi := {
  ConfigPatch : Type;
  RuntimeConfig : Type;
  patch_from_value : Value -> option ConfigPatch;
  patch_to_value : ConfigPatch -> result Value Error;
  runtime_to_value : RuntimeConfig -> result Value Error;
}.

(** ** [diff.rs] *)

Record DiffEntry := { de_path : list string; de_new : option Value }.

Definition option_value_eqb (a b : option Value) : bool :=
  match a, b with
  | None, None => true
  | Some v, Some w => value_eqb v w
  | _, _ => false
  end.

(** How deep mappings nest; the fuel of [diff_value]. *)
Fixpoint depth (v : Value) : nat :=
  match v with
  | VMapping m =>
      S ((fix go (m : list (Value * Value)) : nat :=
            match m with [] => 0%nat | (_, w) :: m' => Nat.max (depth w) (go m') end) m)
  | VTagged _ w => depth w
  | _ => 0%nat
  end.
Definition option_depth (v : option Value) : nat :=
  match v with Some v => depth v | None => 0%nat end.

(** The condition under which the keys of the two sides are visited. *)
Definition descends (current desired : option Value) : bool :=
  let cm := current ≫= as_mapping in
  let dm := desired ≫= as_mapping in
  (bool_decide (is_Some cm) || bool_decide (is_Some dm))
  && (bool_decide (current = None)
      || (bool_decide (is_Some cm) && (bool_decide (desired = None) || bool_decide (is_Some dm)))).

Definition side_keys (v : option Value) : list string :=
  match v ≫= as_mapping with Some m => str_keys m | None => [] end.
Definition side_get (v : option Value) (key : string) : option Value :=
  m ← v ≫= as_mapping; map_get m key.
Definition union_keys (current desired : option Value) : list string :=
  btree_extend (btree_extend [] (side_keys current)) (side_keys desired).

Fixpoint diff_value (fuel : nat) (current desired : option Value) (path : list string) : list DiffEntry :=
  if option_value_eqb current desired then []
  else
    let push := [{| de_path := path; de_new := desired |}] in
    match fuel with
    | O => push
    | S fuel' =>
        let keys := union_keys current desired in
        if descends current desired && negb (bool_decide (keys = [])) then
          flat_map (fun key =>
            diff_value fuel' (side_get current key) (side_get desired key) (path ++ [key])) keys
        else push
    end.

Definition diff (current desired : Mapping) : list DiffEntry :=
  let c := VMapping current in
  let d := VMapping desired in
  diff_value (S (Nat.max (depth c) (depth d))) (Some c) (Some d) [].

(** [whole] is the value [value] is seen through its tags from. *)
Fixpoint collect_leaves_of (whole value : Value) (path : list string) : list (list string * Value) :=
  match value with
  | VMapping (e :: m) =>
      (fix go (m : list (Value * Value)) : list (list string * Value) :=
         match m with
         | [] => []
         | (k, v) :: m' =>
             match as_str k with
             | Some key => collect_leaves_of v v (path ++ [key]) ++ go m'
             | None => go m'
             end
         end) (e :: m)
  | VTagged _ w => collect_leaves_of whole w path
  | _ => [(path, whole)]
  end.
Definition collect_leaves (value : Value) (path : list string) : list (list string * Value) :=
  collect_leaves_of value value path.

(** ** The field tables of [mihomo.rs] *)

Definition INBOUND_PORT_FIELDS : list string :=
  ["port"; "socks-port"; "redir-port"; "tproxy-port"; "mixed-port"].

Definition PATCH_FIELDS : list string :=
  ["port"; "socks-port"; "redir-port"; "tproxy-port"; "mixed-port"; "tun"; "tuic-server";
   "ss-config"; "vmess-config"; "tcptun-config"; "udptun-config"; "allow-lan";
   "skip-auth-prefixes"; "lan-allowed-ips"; "lan-disallowed-ips"; "bind-address"; "mode";
   "log-level"; "ipv6"; "sniffing"; "tcp-concurrent"; "find-process-mode"; "interface-name"].

Definition TUN_PATCH_FIELDS : list string :=
  ["enable"; "device"; "stack"; "dns-hijack"; "auto-route"; "auto-detect-interface"; "mtu";
   "gso"; "gso-max-size"; "inet6-address"; "iproute2-table-index"; "iproute2-rule-index";
   "auto-redirect"; "auto-redirect-input-mark"; "auto-redirect-output-mark";
   "auto-redirect-iproute2-fallback-rule-index"; "loopback-address"; "strict-route";
   "route-address"; "route-address-set"; "route-exclude-address"; "route-exclude-address-set";
   "include-interface"; "exclude-interface"; "include-uid"; "include-uid-range"; "exclude-uid";
   "exclude-uid-range"; "include-android-user"; "include-package"; "exclude-package";
   "include-mac-address"; "exclude-mac-address"; "endpoint-independent-nat"; "udp-timeout";
   "icmp-timeout"; "file-descriptor"; "inet4-route-address"; "inet6-route-address";
   "inet4-route-exclude-address"; "inet6-route-exclude-address"; "recvmsgx"; "sendmsgx"].

Definition TUIC_SERVER_PATCH_FIELDS : list string :=
  ["enable"; "listen"; "token"; "users"; "certificate"; "private-key"; "congestion-controller";
   "max-idle-time"; "authentication-timeout"; "alpn"; "max-udp-relay-packet-size"; "cwnd";
   "bbr-profile"].

Definition RELOAD_FIELDS : list string :=
  ["proxies"; "proxy-groups"; "proxy-providers"; "rule-providers"; "providers"; "rules";
   "hosts"; "dns"].

Definition EXTERNAL_CONTROLLER : string := "external-controller".
Definition EXTERNAL_CONTROLLER_PIPE : string := "external-controller-pipe".
Definition EXTERNAL_CONTROLLER_UNIX : string := "external-controller-unix".
Definition EXTERNAL_CONTROLLER_TLS : string := "external-controller-tls".
Definition SECRET : string := "secret".
Definition CONTROLLER_FIELDS : list string :=
  [EXTERNAL_CONTROLLER; EXTERNAL_CONTROLLER_TLS; EXTERNAL_CONTROLLER_PIPE;
   EXTERNAL_CONTROLLER_UNIX; SECRET].

Definition contains (l : list string) (x : string) : bool := existsb (String.eqb x) l.

(** ** Bootstrap documents *)

Definition zero_listener (document : Mapping) (key : string) : Mapping :=
  match map_get document key ≫= as_i64 with
  | Some z =>
      if decide (z <> 0%Z) then map_insert document key (VNumber (PosInt 0)) else document
  | None => document
  end.

Definition zero_inbounds (document : Mapping) : Mapping :=
  let document := fold_left zero_listener INBOUND_PORT_FIELDS document in
  map_modify (via_mapping (fun tun =>
      if decide ((map_get tun "enable" ≫= as_bool) = Some true)
      then map_insert tun "enable" (VBool false)
      else tun)) "tun" document.

(** ** Classification *)

Record RuntimeProjection := { rp_expected : list (list string * Value) }.

Inductive OverlapBlock := DnsListen | InboundSurface.
#[export] Instance OverlapBlock_eq_dec : EqDecision OverlapBlock.
Proof. solve_decision. Defined.

Record ConfigClassificationView := {
  cv_source : Mapping;
  cv_effective : Mapping;
  cv_spec : InstanceSpec;
}.

Definition process_spec_changed (current desired : InstanceSpec) : bool :=
  bool_decide (cs_kind (is_core current) <> cs_kind (is_core desired))
  || bool_decide (cs_binary_path (is_core current) <> cs_binary_path (is_core desired))
  || bool_decide (cs_version (is_core current) <> cs_version (is_core desired))
  || bool_decide (cs_features (is_core current) <> cs_features (is_core desired))
  || bool_decide (is_working_dir current <> is_working_dir desired)
  || bool_decide (io_startup_timeout (is_options current) <> io_startup_timeout (is_options desired))
  || bool_decide (io_health (is_options current) <> io_health (is_options desired))
  || bool_decide (io_restart_policy (is_options current) <> io_restart_policy (is_options desired))
  || bool_decide (io_backoff (is_options current) <> io_backoff (is_options desired)).

Definition is_dns_listen (path : list string) : bool :=
  match path with
  | root :: field :: _ => String.eqb root "dns" && String.eqb field "listen"
  | _ => false
  end.

Definition dns_listen (document : Mapping) : option Value :=
  dns ← map_get document "dns" ≫= as_mapping; map_get dns "listen".

Definition patch_nested_path_is_supported (path : list string) : bool :=
  match path with
  | "tun" :: rest => match rest with field :: _ => contains TUN_PATCH_FIELDS field | [] => false end
  | "tuic-server" :: rest =>
      match rest with field :: _ => contains TUIC_SERVER_PATCH_FIELDS field | [] => false end
  | [_] => true
  | _ => false
  end.

Fixpoint filter_entries (m : Mapping) (allowed : list string) (filtered : Mapping) : result Mapping Error :=
  match m with
  | [] => Ok filtered
  | (key, value) :: m' =>
      match as_str key with
      | None => Err (InvalidConfig "config keys must be strings")
      | Some key_text =>
          filter_entries m' allowed
            (if contains allowed key_text then map_insert_value filtered key value else filtered)
      end
  end.

Definition filter_mapping (value : Value) (allowed : list string) : result Value Error :=
  match as_mapping value with
  | None => Err (InvalidConfig "patchable nested config must be a mapping")
  | Some m => map_ok VMapping (filter_entries m allowed [])
  end.

(** The value a changed root contributes to the patch. *)
Definition patch_value (root : string) (value : Value) : result Value Error :=
  if String.eqb root "tun" then filter_mapping value TUN_PATCH_FIELDS
  else if String.eqb root "tuic-server" then filter_mapping value TUIC_SERVER_PATCH_FIELDS
  else Ok value.

(** The loop over the changed roots; [None] is the early switch. *)
Fixpoint patch_document (desired : Mapping) (roots : list string) (document : Mapping)
  : result (option Mapping) Error :=
  match roots with
  | [] => Ok (Some document)
  | root :: roots' =>
      match map_get desired root with
      | None => Ok None
      | Some value =>
          let? value := patch_value root value in
          patch_document desired roots' (map_insert document root value)
      end
  end.

Definition changed_roots (changes : list DiffEntry) : list string :=
  btree_extend [] (omap (fun e => head (de_path e)) changes).

Definition enable_missing (document : Mapping) (required_enable : string) : bool :=
  map_contains document required_enable
  && bool_decide (
       (m ← map_get document required_enable ≫= as_mapping; map_get m "enable" ≫= as_bool)
       = None).

Section Classify.
Context `{ClashApi}.

Inductive ConfigChange :=
| ChangeNoop
| ChangePatch (patch : ConfigPatch) (projection : RuntimeProjection)
| ChangeReload
| ChangeSwitch.

Definition build_patch (desired : Mapping) (changes : list DiffEntry) : result ConfigChange Error :=
  let? document := patch_document desired (changed_roots changes) [] in
  match document with
  | None => Ok ChangeSwitch
  | Some document =>
      if existsb (enable_missing document) ["tun"; "tuic-server"] then Ok ChangeSwitch
      else
        match patch_from_value (VMapping document) with
        | None => Ok ChangeSwitch
        | Some patch =>
            let? serialized := patch_to_value patch in
            Ok (ChangePatch patch {| rp_expected := collect_leaves serialized [] |})
        end
  end.

Definition entry_patchable (e : DiffEntry) : bool :=
  bool_decide (is_Some (de_new e))
  && match de_path e with
     | root :: _ => contains PATCH_FIELDS root && patch_nested_path_is_supported (de_path e)
     | [] => false
     end.

Definition entry_reloadable (e : DiffEntry) : bool :=
  match de_path e with
  | root :: rest =>
      contains RELOAD_FIELDS root && negb (is_dns_listen (de_path e))
      && negb (String.eqb root "dns" && bool_decide (rest = []))
  | [] => false
  end.

Definition classify_documents (current desired : Mapping) : result ConfigChange Error :=
  if negb (option_value_eqb (dns_listen current) (dns_listen desired)) then Ok ChangeSwitch
  else
    let changes := diff current desired in
    if bool_decide (length changes = 0%nat) then Ok ChangeNoop
    else if forallb entry_patchable changes then build_patch desired changes
    else if forallb entry_reloadable changes then Ok ChangeReload
    else Ok ChangeSwitch.

Definition controller_entry (e : DiffEntry) : bool :=
  match de_path e with root :: _ => contains CONTROLLER_FIELDS root | [] => false end.

Definition classify (current desired : ConfigClassificationView) : result ConfigChange Error :=
  if process_spec_changed (cv_spec current) (cv_spec desired) then Ok ChangeSwitch
  else
    let source_diff := diff (cv_source current) (cv_source desired) in
    if decide (cs_kind (is_core (cv_spec desired)) <> Mihomo) then
      let unchanged :=
        bool_decide (length source_diff = 0%nat)
        && bool_decide (length (diff (cv_effective current) (cv_effective desired)) = 0%nat) in
      Ok (if unchanged then ChangeNoop else ChangeSwitch)
    else if existsb (fun e => controller_entry e || is_dns_listen (de_path e)) source_diff
    then Ok ChangeSwitch
    else classify_documents (cv_effective current) (cv_effective desired).

Definition restoration_patch (bootstrap desired : Mapping)
  : result (option (ConfigPatch * RuntimeProjection)) Error :=
  let? change := classify_documents bootstrap desired in
  match change with
  | ChangeNoop => Ok None
  | ChangePatch patch projection => Ok (Some (patch, projection))
  | ChangeReload | ChangeSwitch =>
      Err (InvalidConfig "graceful bootstrap cannot be restored losslessly with ConfigPatch")
  end.

(** [RuntimeProjection::verify]. *)
Definition projection_verify (self : RuntimeProjection) (actual : RuntimeConfig) : result bool Error :=
  let? actual := runtime_to_value actual in
  Ok (forallb (fun '(path, expected) =>
        match value_at actual path with Some found => value_eqb found expected | None => false end)
      (rp_expected self)).

End Classify.
Arguments ConfigChange {_}.

(** ** Overlap of two epochs *)

Definition nonempty_collection (value : Value) : bool :=
  match value with
  | VNull => false
  | VString s => negb (bool_decide (s = ""))
  | VSequence l => negb (bool_decide (length l = 0%nat))
  | VMapping m => negb (bool_decide (length m = 0%nat))
  | VBool _ | VNumber _ | VTagged _ _ => true
  end.

Definition get_is (document : Mapping) (key : string) (p : Value -> bool) : bool :=
  match map_get document key with Some v => p v | None => false end.

Definition tun_blocks (document : Mapping) : bool :=
  match map_get document "tun" with
  | None => false
  | Some tun =>
      match as_mapping tun with
      | None => true
      | Some tun => get_is tun "enable" (fun enable => bool_decide (as_bool enable = None))
      end
  end.

Definition tuic_blocks (document : Mapping) : bool :=
  match map_get document "tuic-server" with
  | None => false
  | Some tuic =>
      match as_mapping tuic with
      | None => true
      | Some tuic =>
          match map_get tuic "enable" with
          | Some enable => negb (bool_decide (as_bool enable = Some false))
          | None => negb (bool_decide (length tuic = 0%nat))
          end
      end
  end.

Definition inbound_like (key : string) : bool :=
  ends_with "-port" key || str_contains "listener" key || str_contains "inbound" key
  || str_contains "tunnel" key.

Definition overlap_block (document : Mapping) : option OverlapBlock :=
  match dns_listen document with
  | Some listen =>
      match as_str listen with
      | Some "" => None
      | Some _ => Some DnsListen
      | None => if is_null listen then None else Some InboundSurface
      end
  | None =>
      if existsb (fun key => get_is document key (fun v => bool_decide (as_i64 v = None)))
           INBOUND_PORT_FIELDS then Some InboundSurface
      else if tun_blocks document then Some InboundSurface
      else if tuic_blocks document then Some InboundSurface
      else if existsb (fun key =>
                get_is document key (fun v => negb (bool_decide (as_str v = Some ""))))
                ["ss-config"; "vmess-config"; "tcptun-config"; "udptun-config"]
      then Some InboundSurface
      else if existsb (fun key => get_is document key nonempty_collection) ["listeners"; "tunnels"]
      then Some InboundSurface
      else if existsb (fun key =>
                inbound_like key && negb (contains PATCH_FIELDS key)
                && negb (contains ["listeners"; "tunnels"] key)) (str_keys document)
      then Some InboundSurface
      else None
  end.

(** ** Equality of normal forms *)


Lemma value_eqb_string (k : string) (v : Value) : value_eqb (VString k) v = true <-> v = VString k.
Proof.
  destruct v; cbn; try done. rewrite bool_decide_eq_true. split; [by intros ->|by intros [= ->]].
Qed.

Lemma value_eqb_mapping_eq (x y : Mapping) :
  value_eqb (VMapping x) (VMapping y) =
    (length x =? length y)%nat
    && forallb (fun e => existsb (fun e' => value_eqb e.1 e'.1 && value_eqb e.2 e'.2) y) x.
Proof.
  cbn [value_eqb]. f_equal. induction x as [|[k v] x IH]; [done|]. cbn. rewrite IH.
  f_equal. clear. induction y as [|[k' v'] y IHy]; [done|]. cbn. by rewrite IHy.
Qed.

Lemma keys_sorted_NoDup (ks : list string) : keys_sorted ks = true -> NoDup ks.
Proof.
  induction ks as [|k ks IH]; [constructor|]. intros Hs. constructor.
  - intros Hin. pose proof (keys_sorted_cons_elem _ _ _ Hs Hin) as Hk.
    by rewrite str_ltb_irrefl in Hk.
  - eapply IH, keys_sorted_tail, Hs.
Qed.

(** String keys without duplicates: what every [serde_yaml] mapping of a
    normal form has. *)
Definition keyed (m : Mapping) : Prop := string_keyed m = true /\ NoDup (str_keys m).

Lemma canonical_keyed (m : Mapping) : canonical (VMapping m) = true -> keyed m.
Proof.
  rewrite canonical_mapping_eq, !andb_true_iff. intros [[Hs _] Hk].
  split; [done|]. by apply keys_sorted_NoDup.
Qed.

Lemma canonical_get (m : Mapping) (k : string) (v : Value) :
  canonical (VMapping m) = true -> map_get m k = Some v -> canonical v = true.
Proof.
  rewrite canonical_mapping_eq, !andb_true_iff. intros [[_ Hf] _] Hg.
  apply map_get_elem_of in Hg. rewrite forallb_elem_of in Hf. exact (Hf _ Hg).
Qed.

Lemma str_keys_length (m : Mapping) : string_keyed m = true -> length (str_keys m) = length m.
Proof.
  induction m as [|[[| | |k| | |] v] m IH]; try done. intros Hm. rewrite str_keys_cons.
  cbn. by rewrite IH.
Qed.

Lemma map_get_of_elem (m : Mapping) (k : string) (v : Value) :
  keyed m -> (VString k, v) ∈ m -> map_get m k = Some v.
Proof.
  intros [Hs Hn] Hin. induction m as [|[[| | |k'| | |] w] m IH]; try done.
  { by apply elem_of_nil in Hin. }
  rewrite str_keys_cons in Hn. apply NoDup_cons in Hn as [Hk Hn]. cbn [map_get].
  apply elem_of_cons in Hin as [[= <- <-]|Hin]; [by rewrite decide_True|].
  rewrite decide_False; [by apply IH|]. intros ->. apply Hk.
  apply (map_get_Some_key _ _ v). by apply IH.
Qed.

Lemma string_keyed_entry (m : Mapping) (e : Value * Value) :
  string_keyed m = true -> e ∈ m -> exists k, e.1 = VString k.
Proof.
  induction m as [|[[| | |k'| | |] w] m IH]; try done; [by intros _ ?%elem_of_nil|].
  intros Hm [->|Hin]%elem_of_cons; [by eexists|]. by apply IH.
Qed.

(** Mappings are equal when they agree on every key. *)
Lemma value_eqb_mapping (x y : Mapping) :
  keyed x -> keyed y ->
  value_eqb (VMapping x) (VMapping y) = true <->
    forall k, option_value_eqb (map_get x k) (map_get y k) = true.
Proof.
  intros Hx Hy. rewrite value_eqb_mapping_eq, andb_true_iff, Nat.eqb_eq, forallb_elem_of. split.
  - intros [Hlen Hall] k.
    assert (forall k v, map_get x k = Some v ->
      exists v', map_get y k = Some v' /\ value_eqb v v' = true) as Hxy.
    { intros k' v Hg. apply map_get_elem_of in Hg. specialize (Hall _ Hg).
      apply existsb_exists in Hall as ([kk v'] & Hin & [Hk Hv]%andb_true_iff).
      cbn [fst snd] in Hk, Hv. apply value_eqb_string in Hk as ->. exists v'.
      split; [|done]. apply map_get_of_elem; [done|]. by apply list_elem_of_In. }
    destruct (map_get x k) as [v|] eqn:Hg.
    + destruct (Hxy _ _ Hg) as (v' & -> & Hv). done.
    + destruct (map_get y k) as [v'|] eqn:Hgy; [|done]. exfalso.
      apply map_get_None_key in Hg; [|apply Hx]. apply Hg.
      apply map_get_Some_key in Hgy. revert Hgy. rewrite !list_elem_of_In.
      apply (NoDup_length_incl (l := str_keys x)).
      * apply NoDup_ListNoDup, Hx.
      * rewrite !str_keys_length by (apply Hx || apply Hy). lia.
      * intros k' Hk'. apply list_elem_of_In, str_keys_get in Hk' as [w Hw]; [|apply Hx].
        apply Hxy in Hw as (w' & Hw' & _). apply list_elem_of_In. by eapply map_get_Some_key.
  - intros Hall. split.
    + rewrite <- !str_keys_length by (apply Hx || apply Hy).
      apply Permutation_length, NoDup_Permutation; [apply Hx|apply Hy|]. intros k.
      specialize (Hall k). split; intros Hk; apply str_keys_get in Hk as [v Hv];
        (apply Hx || apply Hy || idtac); rewrite Hv in Hall.
      * destruct (map_get y k) eqn:E; [|done]. by eapply map_get_Some_key.
      * destruct (map_get x k) eqn:E; [|done]. by eapply map_get_Some_key.
    + intros [kk v] Hin. destruct (string_keyed_entry _ _ (proj1 Hx) Hin) as [k Hk].
      cbn in Hk. subst kk. pose proof (map_get_of_elem _ _ _ Hx Hin) as Hg.
      specialize (Hall k). rewrite Hg in Hall. destruct (map_get y k) as [v'|] eqn:E; [|done].
      apply existsb_exists. exists (VString k, v'). split.
      * by apply list_elem_of_In, map_get_elem_of.
      * cbn [fst snd]. apply andb_true_iff. split; [by apply value_eqb_string|done].
Qed.

(** ** What a difference reports *)

Definition ocanonical (v : option Value) : bool :=
  match v with Some v => canonical v | None => true end.

Lemma canonical_as_mapping (v : Value) (m : Mapping) :
  canonical v = true -> as_mapping v = Some m -> v = VMapping m.
Proof. destruct v; cbn; try done. by intros _ [= ->]. Qed.

Lemma side_get_canonical (v : option Value) (k : string) :
  ocanonical v = true -> ocanonical (side_get v k) = true.
Proof.
  destruct v as [v|]; [|done]. cbn. intros Hc. destruct (as_mapping v) as [m|] eqn:E; [|done].
  apply canonical_as_mapping in E as ->; [|done]. cbn.
  destruct (map_get m k) eqn:Hg; [|done]. by eapply canonical_get.
Qed.

Lemma flat_map_nil {A B} (f : A -> list B) (l : list A) :
  flat_map f l = [] <-> forall x, x ∈ l -> f x = [].
Proof.
  induction l as [|y l IH]; cbn.
  - split; [|done]. intros _ x Hx. by apply elem_of_nil in Hx.
  - split.
    + intros [Hy Hl]%app_nil. intros x [->|Hx]%elem_of_cons; [done|]. by apply IH.
    + intros Hx. rewrite Hx by (by left). apply IH. intros z Hz. apply Hx. by right.
Qed.

Lemma elem_of_flat_map {A B} (f : A -> list B) (l : list A) (y : B) :
  y ∈ flat_map f l <-> exists x, x ∈ l /\ y ∈ f x.
Proof.
  rewrite list_elem_of_In, in_flat_map. setoid_rewrite list_elem_of_In. done.
Qed.

Lemma side_get_keys (v : option Value) (k : string) :
  is_Some (side_get v k) -> k ∈ side_keys v.
Proof.
  unfold side_get, side_keys. destruct (v ≫= as_mapping) as [m|]; cbn; [|by intros []].
  intros [w Hw]. by eapply map_get_Some_key.
Qed.

Lemma side_get_union (c d : option Value) (k : string) :
  option_value_eqb (side_get c k) (side_get d k) = false -> k ∈ union_keys c d.
Proof.
  intros Hne. unfold union_keys. rewrite !elem_of_btree_extend.
  destruct (side_get c k) eqn:Ec; [left; right; by apply side_get_keys|].
  destruct (side_get d k) eqn:Ed; [|done]. right. by apply side_get_keys.
Qed.

(** When the keys are visited, agreement on all of them is equality. *)
Lemma descends_equal (c d : option Value) :
  ocanonical c = true -> ocanonical d = true -> descends c d = true -> union_keys c d <> [] ->
  (forall k, option_value_eqb (side_get c k) (side_get d k) = true) ->
  option_value_eqb c d = true.
Proof.
  intros Hc Hd Hdesc Hne Hall.
  assert (forall v m, ocanonical v = true -> (v ≫= as_mapping) = Some m -> v = Some (VMapping m)) as Hmap.
  { intros [v|] m Hv; cbn; [|done]. intros Hm. f_equal. by apply canonical_as_mapping. }
  assert (forall x y, (forall k, option_value_eqb (side_get x k) (side_get y k) = true) ->
    x = None \/ y = None -> forall k, side_get x k = None /\ side_get y k = None) as Hnone.
  { intros x y Hk Hxy k. specialize (Hk k). destruct Hxy as [-> | ->]; cbn in *;
      destruct (side_get _ _); done. }
  assert (forall v, ocanonical v = true -> (forall k, side_get v k = None) -> side_keys v = []) as Hkeys.
  { intros v Hv Hk. unfold side_keys, side_get in *. destruct (v ≫= as_mapping) as [m|] eqn:E; [|done].
    cbn in Hk. destruct (str_keys m) as [|k ks] eqn:Eks; [done|]. exfalso.
    assert (is_Some (map_get m k)) as [w Hw]; [|specialize (Hk k); congruence].
    apply str_keys_get; [|rewrite Eks; by left].
    apply Hmap in E; [|done]. subst v. by apply canonical_keyed. }
  unfold descends in Hdesc.
  destruct (c ≫= as_mapping) as [mc|] eqn:Ec, (d ≫= as_mapping) as [md|] eqn:Ed.
  - apply Hmap in Ec, Ed; [|done..]. subst c d. cbn.
    apply value_eqb_mapping; [by apply canonical_keyed..|]. exact Hall.
  - rewrite !andb_true_iff, !orb_true_iff, !andb_true_iff, ?orb_true_iff, !bool_decide_eq_true in Hdesc. exfalso.
    destruct Hdesc as [_ [-> | [_ [-> | Hno]]]]; [done| |by apply is_Some_None in Hno].
    destruct Hne. pose proof (Hnone _ _ Hall (or_intror eq_refl)) as Hn.
    unfold union_keys. rewrite (Hkeys c), (Hkeys None); try done; intros k; apply Hn.
  - rewrite !andb_true_iff, !orb_true_iff, !andb_true_iff, ?orb_true_iff, !bool_decide_eq_true in Hdesc. exfalso.
    destruct Hdesc as [_ [-> | [Hno _]]]; [|by apply is_Some_None in Hno].
    destruct Hne. pose proof (Hnone _ _ Hall (or_introl eq_refl)) as Hn.
    unfold union_keys. rewrite (Hkeys d), (Hkeys None); try done; intros k; apply Hn.
  - by rewrite !bool_decide_false in Hdesc by (by intros []%is_Some_None).
Qed.

Lemma diff_value_eq (fuel : nat) (c d : option Value) (p : list string) :
  diff_value fuel c d p =
    if option_value_eqb c d then []
    else
      match fuel with
      | O => [{| de_path := p; de_new := d |}]
      | S fuel' =>
          if descends c d && negb (bool_decide (union_keys c d = [])) then
            flat_map (fun key => diff_value fuel' (side_get c key) (side_get d key) (p ++ [key]))
              (union_keys c d)
          else [{| de_path := p; de_new := d |}]
      end.
Proof. by destruct fuel. Qed.

Lemma diff_value_nil (fuel : nat) (c d : option Value) (p : list string) :
  ocanonical c = true -> ocanonical d = true ->
  diff_value fuel c d p = [] <-> option_value_eqb c d = true.
Proof.
  revert c d p; induction fuel as [|fuel IH]; intros c d p Hc Hd; rewrite diff_value_eq;
    destruct (option_value_eqb c d) eqn:E; try done.
  destruct (descends c d && _) eqn:Ed; [|done].
  apply andb_true_iff in Ed as [Ed Hne%negb_true_iff%bool_decide_eq_false].
  rewrite flat_map_nil. split; [|done]. intros Hall. exfalso.
  rewrite descends_equal in E; try done. intros k.
  destruct (option_value_eqb (side_get c k) (side_get d k)) eqn:Ek; [done|].
  pose proof (Hall k (side_get_union _ _ _ Ek)) as Hk.
  apply IH in Hk; [congruence|by apply side_get_canonical..].
Qed.

Lemma diff_value_prefix (fuel : nat) (c d : option Value) (p : list string) (e : DiffEntry) :
  e ∈ diff_value fuel c d p -> exists s, de_path e = p ++ s.
Proof.
  revert c d p; induction fuel as [|fuel IH]; intros c d p; rewrite diff_value_eq;
    destruct (option_value_eqb c d); try (by intros ?%elem_of_nil).
  - intros ->%list_elem_of_singleton. exists []. by rewrite app_nil_r.
  - destruct (descends c d && _).
    + intros (k & _ & Hin)%elem_of_flat_map. apply IH in Hin as [s ->].
      exists (k :: s). by rewrite <- app_assoc.
    + intros ->%list_elem_of_singleton. exists []. by rewrite app_nil_r.
Qed.

(** Values that differ below a key differ. *)
Lemma differs_below (c d : option Value) (k : string) :
  ocanonical c = true -> ocanonical d = true ->
  option_value_eqb (side_get c k) (side_get d k) = false -> option_value_eqb c d = false.
Proof.
  intros Hc Hd Ek. destruct (option_value_eqb c d) eqn:E; [|done]. exfalso.
  destruct c as [c|], d as [d|]; try done. cbn in Hc, Hd, E.
  destruct (as_mapping c) as [mc|] eqn:Ec.
  - apply canonical_as_mapping in Ec as ->; [|done]. destruct (as_mapping d) as [md|] eqn:Ed; [|by destruct d].
    apply canonical_as_mapping in Ed as ->; [|done].
    rewrite value_eqb_mapping in E by (by apply canonical_keyed). specialize (E k). cbn in Ek. congruence.
  - destruct (as_mapping d) as [md|] eqn:Ed.
    + apply canonical_as_mapping in Ed as ->; [|done]. by destruct c.
    + unfold side_get in Ek. cbn in Ek. by rewrite Ec, Ed in Ek.
Qed.

(** Below a visited pair, the entries of a key are those of its two values. *)
Lemma diff_value_key (fuel : nat) (c d : option Value) (p : list string) (k : string) (e : DiffEntry) :
  ocanonical c = true -> ocanonical d = true -> descends c d = true ->
  e ∈ diff_value fuel (side_get c k) (side_get d k) (p ++ [k]) ->
  e ∈ diff_value (S fuel) c d p.
Proof.
  intros Hc Hd Hdesc Hin. rewrite diff_value_eq.
  destruct (option_value_eqb (side_get c k) (side_get d k)) eqn:Ek.
  { rewrite diff_value_eq, Ek in Hin. by apply elem_of_nil in Hin. }
  pose proof (side_get_union _ _ _ Ek) as Hk.
  rewrite (differs_below c d k Hc Hd Ek).
  rewrite Hdesc, bool_decide_false by (intros Hnil; rewrite Hnil in Hk; by apply elem_of_nil in Hk).
  apply elem_of_flat_map. by exists k.
Qed.

(** ** The fuel is enough *)

Lemma depth_mapping_get (m : Mapping) (k : string) (v : Value) :
  map_get m k = Some v -> (depth v < depth (VMapping m))%nat.
Proof.
  intros Hg. apply map_get_elem_of in Hg. cbn.
  induction m as [|[k' w] m IH]; [by apply elem_of_nil in Hg|].
  apply elem_of_cons in Hg as [[= <- <-]|Hg]; [lia|]. specialize (IH Hg). lia.
Qed.

Lemma depth_untag (v : Value) : depth (untag v) = depth v.
Proof. by induction v. Qed.

Lemma depth_side_get (v : option Value) (k : string) (n : nat) :
  (option_depth v <= S n)%nat -> (option_depth (side_get v k) <= n)%nat.
Proof.
  destruct v as [v|]; cbn; [|lia]. unfold side_get. cbn. rewrite <- depth_untag. unfold as_mapping.
  destruct (untag v); cbn [mbind option_bind option_depth]; try lia.
  destruct (map_get _ k) eqn:Hg; cbn [option_depth]; [|lia].
  apply depth_mapping_get in Hg. lia.
Qed.

Lemma depth_no_keys (v : option Value) : (option_depth v <= 0)%nat -> side_keys v = [].
Proof.
  destruct v as [v|]; [|done]. cbn. rewrite <- depth_untag. unfold side_keys, as_mapping. cbn.
  destruct (untag v); cbn; try done. lia.
Qed.

(** More fuel than the nesting of the two sides changes nothing. *)
Lemma diff_value_fuel (fuel : nat) (c d : option Value) (p : list string) :
  (option_depth c <= fuel)%nat -> (option_depth d <= fuel)%nat ->
  diff_value (S fuel) c d p = diff_value fuel c d p.
Proof.
  revert c d p; induction fuel as [|fuel IH]; intros c d p Hc Hd;
    rewrite (diff_value_eq (S _)), (diff_value_eq _ c d).
  - destruct (option_value_eqb c d); [done|].
    unfold union_keys. rewrite !depth_no_keys by done. cbn. by rewrite andb_false_r.
  - destruct (option_value_eqb c d); [done|].
    destruct (descends c d && _); [|done]. generalize (union_keys c d). intros ks.
    induction ks as [|k ks IHk]; [done|]. cbn [flat_map].
    rewrite IHk, IH by (by apply depth_side_get). done.
Qed.

Lemma diff_value_fuel_le (fuel n : nat) (c d : option Value) (p : list string) :
  (option_depth c <= fuel)%nat -> (option_depth d <= fuel)%nat -> (fuel <= n)%nat ->
  diff_value n c d p = diff_value fuel c d p.
Proof.
  intros Hc Hd Hn. induction Hn as [|n Hn IH]; [done|].
  by rewrite <- IH, diff_value_fuel by lia.
Qed.

(** ** The places of change *)

(** The value at a path of keys, where there is one. *)
Fixpoint at_path (v : option Value) (path : list string) : option Value :=
  match path with [] => v | key :: path => at_path (side_get v key) path end.
Lemma at_path_value_at (v : Value) (path : list string) : at_path (Some v) path = value_at v path.
Proof.
  assert (Hnone : forall path, at_path None path = None) by (induction path0; done).
  revert v; induction path as [|key path IH]; intros v; cbn; [done|]. unfold side_get. cbn.
  destruct (as_mapping v) as [m|]; cbn; [|done]. destruct (map_get m key) as [w|]; [apply IH|done].
Qed.

(** Two sides are compared key by key: each is a mapping or not there, and one of
    them has a key. *)
Definition mapping_or_absent (v : option Value) : Prop :=
  match v with Some v => is_Some (as_mapping v) | None => True end.
Definition merges (c d : option Value) : Prop :=
  mapping_or_absent c /\ mapping_or_absent d /\ exists key, is_Some (side_get c key) \/ is_Some (side_get d key).

(** A place of change: above it the two sides are compared key by key, at it they
    differ as a whole. *)
Record ChangedAt (c d : option Value) (path : list string) : Prop := {
  changed_inside : forall above below, path = above ++ below -> below <> [] -> merges (at_path c above) (at_path d above);
  changed_whole : ~ merges (at_path c path) (at_path d path);
  changed_differs : option_value_eqb (at_path c path) (at_path d path) = false;
}.

Lemma changed_nil c d : ChangedAt c d [] <-> ~ merges c d /\ option_value_eqb c d = false.
Proof. split; [by intros [_ ? ?]|]. intros [? ?]. split; try done. by intros [|? ?] [|? ?]. Qed.
Lemma changed_cons c d key path :
  ChangedAt c d (key :: path) <-> merges c d /\ ChangedAt (side_get c key) (side_get d key) path.
Proof.
  split.
  - intros [Hin Hwhole Hne]. split; [by apply (Hin [] (key :: path))|]. split; [|done..].
    intros above below -> Hb. by apply (Hin (key :: above) below).
  - intros [Hm [Hin Hwhole Hne]]. split; [|done..]. intros [|k above] below Heq Hb; [done|].
    cbn in Heq. injection Heq as <- ->. by apply (Hin above below).
Qed.

Lemma side_keys_get (v : option Value) (k : string) : ocanonical v = true -> k ∈ side_keys v -> is_Some (side_get v k).
Proof.
  unfold side_keys, side_get. destruct v as [v|]; cbn; [|by intros _ ?%elem_of_nil]. intros Hc.
  destruct (as_mapping v) as [m|] eqn:E; cbn; [|by intros ?%elem_of_nil].
  apply canonical_as_mapping in E as ->; [|done]. apply str_keys_get. by apply canonical_keyed.
Qed.
Lemma descends_merges (c d : option Value) :
  ocanonical c = true -> ocanonical d = true ->
  descends c d && negb (bool_decide (union_keys c d = [])) = true <-> merges c d.
Proof.
  intros Hc Hd.
  assert (Hkeys : union_keys c d <> [] <-> exists key, is_Some (side_get c key) \/ is_Some (side_get d key)).
  { assert (Hel : forall k, k ∈ union_keys c d <-> is_Some (side_get c k) \/ is_Some (side_get d k)).
    { intros k. unfold union_keys. rewrite !elem_of_btree_extend. split.
      - intros [[?%elem_of_nil|?]|?]; [done|left|right]; by apply side_keys_get.
      - intros [?|?]; [left; right|right]; by apply side_get_keys. }
    split.
    - destruct (union_keys c d) as [|k ks] eqn:Ek; [done|]. intros _. exists k. apply Hel. by left.
    - intros [k Hk%Hel] Hnil. rewrite Hnil in Hk. by apply elem_of_nil in Hk. }
  unfold merges. rewrite <- Hkeys, andb_true_iff, negb_true_iff, bool_decide_eq_false.
  assert (Hmaps : union_keys c d <> [] -> descends c d = true <-> mapping_or_absent c /\ mapping_or_absent d).
  { intros Hne. unfold descends, mapping_or_absent. destruct c as [c|], d as [d|]; cbn; [| | |done].
    - destruct (as_mapping c), (as_mapping d); cbn; split; try done; try (by intros [[? [=]] _]); try (by intros [_ [? [=]]]); eauto.
    - destruct (as_mapping c); cbn; split; try done; try (by intros [[? [=]] _]); eauto.
    - destruct (as_mapping d); cbn; split; try done; try (by intros [_ [? [=]]]); eauto. }
  split; [intros [Hx Hne]; split_and!; [by apply Hmaps..|done]|].
  intros (H1 & H2 & Hne). split; [by apply Hmaps|done].
Qed.

Lemma changed_neq (c d : option Value) (path : list string) :
  ocanonical c = true -> ocanonical d = true -> ChangedAt c d path -> option_value_eqb c d = false.
Proof.
  revert c d; induction path as [|key path IH]; intros c d Hc Hd; [by intros [_ ?]%changed_nil|].
  intros [_ Hp]%changed_cons. apply (differs_below c d key); [done..|]. apply IH; [by apply side_get_canonical..|done].
Qed.

(** The entries are the places of change, with the desired value of each. *)
Lemma diff_value_changed (fuel : nat) (c d : option Value) (p path : list string) (new : option Value) :
  ocanonical c = true -> ocanonical d = true -> (option_depth c <= fuel)%nat -> (option_depth d <= fuel)%nat ->
  {| de_path := p ++ path; de_new := new |} ∈ diff_value fuel c d p <-> ChangedAt c d path /\ new = at_path d path.
Proof.
  revert c d p path; induction fuel as [|fuel IH]; intros c d p path Hc Hd Hfc Hfd; rewrite diff_value_eq;
    (destruct (option_value_eqb c d) eqn:E;
      [split; [by intros ?%elem_of_nil|intros [Hp _]; by rewrite (changed_neq c d path Hc Hd Hp) in E]|]).
  - rewrite list_elem_of_singleton.
    assert (~ merges c d) as Hno.
    { rewrite <- descends_merges by done. unfold union_keys. rewrite !depth_no_keys by done. cbn. by rewrite andb_false_r. }
    split.
    + intros [= Hp ->]. rewrite <- (app_nil_r p) in Hp at 2. apply app_inv_head in Hp as ->. split; [|done]. by apply changed_nil.
    + destruct path as [|key path]; [intros [_ ->]; by rewrite app_nil_r|]. by intros [[? _]%changed_cons _].
  - destruct (descends c d && _) eqn:Em.
    + pose proof (proj1 (descends_merges c d Hc Hd) Em) as Hm. rewrite elem_of_flat_map. split.
      * intros (key & Hk & Hin). pose proof (diff_value_prefix _ _ _ _ _ Hin) as [rest Hrest]. cbn in Hrest.
        rewrite <- app_assoc in Hrest. apply app_inv_head in Hrest as ->. cbn.
        change (p ++ [key] ++ rest) with (p ++ [key] ++ rest) in Hin. rewrite app_assoc in Hin.
        apply IH in Hin as [Hp ->]; [|by apply side_get_canonical|by apply side_get_canonical|by apply depth_side_get..].
        split; [by apply changed_cons|done].
      * destruct path as [|key path]; [by intros [[? _]%changed_nil _]|]. intros [[_ Hp]%changed_cons ->].
        exists key. split.
        -- apply side_get_union. eapply changed_neq; [by apply side_get_canonical..|done].
        -- change (p ++ key :: path) with (p ++ [key] ++ path). rewrite app_assoc.
           apply IH; [by apply side_get_canonical|by apply side_get_canonical|by apply depth_side_get..|done].
    + assert (~ merges c d) as Hno by (rewrite <- descends_merges, Em by done; done).
      rewrite list_elem_of_singleton. split.
      * intros [= Hp ->]. rewrite <- (app_nil_r p) in Hp at 2. apply app_inv_head in Hp as ->. split; [|done]. by apply changed_nil.
      * destruct path as [|key path]; [intros [_ ->]; by rewrite app_nil_r|]. by intros [[? _]%changed_cons _].
Qed.

(** No place is reported twice. *)
Lemma keys_sorted_cons (k : string) (s : list string) :
  (forall x, x ∈ s -> str_ltb k x = true) -> keys_sorted s = true -> keys_sorted (k :: s) = true.
Proof. intros Hk Hs. cbn [keys_sorted]. rewrite Hs, andb_true_r. destruct s; [done|]. apply Hk. by left. Qed.
Lemma btree_insert_sorted (k : string) (s : list string) : keys_sorted s = true -> keys_sorted (btree_insert k s) = true.
Proof.
  induction s as [|x s IH]; [done|]. intros Hs. cbn [btree_insert]. destruct (decide (x = k)) as [->|Hne]; [done|].
  destruct (str_ltb k x) eqn:Ek.
  - apply keys_sorted_cons; [|done]. intros y [->|Hy]%elem_of_cons; [done|].
    eapply str_ltb_trans; [exact Ek|by eapply keys_sorted_cons_elem].
  - apply keys_sorted_cons; [|by eapply IH, keys_sorted_tail].
    intros y [->|Hy]%elem_of_btree_insert; [apply str_ltb_total; [done|congruence]|by eapply keys_sorted_cons_elem].
Qed.
Lemma union_keys_NoDup (c d : option Value) : NoDup (union_keys c d).
Proof.
  apply keys_sorted_NoDup. unfold union_keys.
  assert (Hext : forall ks s, keys_sorted s = true -> keys_sorted (btree_extend s ks) = true).
  { unfold btree_extend. induction ks as [|k ks IH]; intros s Hs; cbn; [done|]. by apply IH, btree_insert_sorted. }
  by apply Hext, Hext.
Qed.
Lemma diff_value_NoDup (fuel : nat) (c d : option Value) (p : list string) : NoDup (de_path <$> diff_value fuel c d p).
Proof.
  revert c d p; induction fuel as [|fuel IH]; intros c d p; rewrite diff_value_eq;
    (destruct (option_value_eqb c d); [constructor|]); [apply NoDup_singleton|].
  destruct (descends c d && _); [|apply NoDup_singleton].
  pose proof (union_keys_NoDup c d) as Hks. induction (union_keys c d) as [|k ks IHk]; [constructor|].
  apply NoDup_cons in Hks as [Hk Hks]. cbn [flat_map]. rewrite fmap_app. apply NoDup_app. split; [apply IH|]. split; [|by apply IHk].
  intros path (e & -> & He)%list_elem_of_fmap (e' & Hp & (k' & Hk' & He')%elem_of_flat_map)%list_elem_of_fmap.
  apply diff_value_prefix in He as [r Hr]. apply diff_value_prefix in He' as [r' Hr']. rewrite Hr, Hr', <- !app_assoc in Hp.
  apply app_inv_head in Hp. cbn in Hp. injection Hp as -> _. done.
Qed.

(** ** Roots *)

(** The value of a root key differs. *)
Definition differs (current desired : Mapping) (key : string) : bool :=
  negb (option_value_eqb (map_get current key) (map_get desired key)).

Lemma diff_nil (current desired : Mapping) :
  canonical (VMapping current) = true -> canonical (VMapping desired) = true ->
  diff current desired = [] <-> value_eqb (VMapping current) (VMapping desired) = true.
Proof. intros Hc Hd. unfold diff. by rewrite diff_value_nil. Qed.

Lemma diff_root_entry (current desired : Mapping) (key : string) (e : DiffEntry) :
  canonical (VMapping current) = true -> canonical (VMapping desired) = true ->
  e ∈ diff_value (Nat.max (depth (VMapping current)) (depth (VMapping desired)))
        (map_get current key) (map_get desired key) [key] ->
  e ∈ diff current desired.
Proof. intros Hc Hd He. unfold diff. by apply (diff_value_key _ _ _ [] key). Qed.

Lemma diff_root_differs (current desired : Mapping) (key : string) :
  canonical (VMapping current) = true -> canonical (VMapping desired) = true ->
  differs current desired key = true ->
  exists e rest, e ∈ diff current desired /\ de_path e = key :: rest.
Proof.
  intros Hc Hd Hk. unfold differs in Hk. apply negb_true_iff in Hk.
  destruct (diff_value (Nat.max (depth (VMapping current)) (depth (VMapping desired)))
    (map_get current key) (map_get desired key) [key]) as [|e l] eqn:E.
  - apply diff_value_nil in E; [congruence|exact (side_get_canonical (Some (VMapping current)) key Hc)|
      exact (side_get_canonical (Some (VMapping desired)) key Hd)].
  - assert (He : e ∈ e :: l) by (by left). rewrite <- E in He.
    destruct (diff_value_prefix _ _ _ _ _ He) as [s Hs]. exists e, s.
    split; [by eapply diff_root_entry|done].
Qed.

Lemma diff_entry_root (current desired : Mapping) (e : DiffEntry) :
  canonical (VMapping current) = true -> canonical (VMapping desired) = true ->
  e ∈ diff current desired ->
  exists key rest, de_path e = key :: rest /\ differs current desired key = true.
Proof.
  intros Hc Hd. unfold diff. rewrite diff_value_eq.
  destruct (option_value_eqb _ _) eqn:E; [by intros ?%elem_of_nil|].
  change (descends (Some (VMapping current)) (Some (VMapping desired))) with true.
  case_bool_decide as Hk; cbn [negb andb].
  - exfalso. cbn in E. rewrite <- not_true_iff_false in E. apply E.
    apply value_eqb_mapping; [by apply canonical_keyed..|]. intros k.
    destruct (option_value_eqb (map_get current k) (map_get desired k)) eqn:Ek; [done|].
    apply (side_get_union (Some (VMapping current)) (Some (VMapping desired))) in Ek.
    rewrite Hk in Ek. by apply elem_of_nil in Ek.
  - intros (k & _ & Hin)%elem_of_flat_map.
    destruct (diff_value_prefix _ _ _ _ _ Hin) as [s Hs]. exists k, s. split; [done|].
    unfold differs. destruct (option_value_eqb (map_get _ _) _) eqn:Ek; [exfalso|done].
    rewrite diff_value_eq in Hin. cbn [side_get mbind option_bind as_mapping untag] in Hin.
    rewrite Ek in Hin. by apply elem_of_nil in Hin.
Qed.

Lemma contains_elem_of (l : list string) (x : string) : contains l x = true <-> x ∈ l.
Proof.
  unfold contains. rewrite existsb_exists. setoid_rewrite String.eqb_eq.
  rewrite list_elem_of_In. split; [by intros (y & Hy & ->)|eauto].
Qed.

Lemma changed_roots_elem (current desired : Mapping) (key : string) :
  canonical (VMapping current) = true -> canonical (VMapping desired) = true ->
  key ∈ changed_roots (diff current desired) <-> differs current desired key = true.
Proof.
  intros Hc Hd. unfold changed_roots. rewrite elem_of_btree_extend, list_elem_of_omap. split.
  - intros [?%elem_of_nil|(e & He & Hk)]; [done|].
    destruct (diff_entry_root _ _ _ Hc Hd He) as (k & rest & Hp & Hdiff).
    rewrite Hp in Hk. by injection Hk as ->.
  - intros Hk. right. destruct (diff_root_differs _ _ _ Hc Hd Hk) as (e & rest & He & Hp).
    exists e. by rewrite Hp.
Qed.

Lemma patch_document_lookup (desired : Mapping) (roots : list string) (doc doc' : Mapping) (key : string) :
  patch_document desired roots doc = Ok (Some doc') ->
  (key ∈ roots -> exists v v', map_get desired key = Some v /\ patch_value key v = Ok v'
                               /\ map_get doc' key = Some v')
  /\ (key ∉ roots -> map_get doc' key = map_get doc key).
Proof.
  revert doc; induction roots as [|root roots IH]; intros doc; cbn [patch_document].
  { intros [= ->]. split; [by intros ?%elem_of_nil|done]. }
  destruct (map_get desired root) as [v|] eqn:Hv; [|done].
  destruct (patch_value root v) as [v'|] eqn:Hp; cbn; [|done].
  intros Hd. destruct (IH _ Hd) as [IHin IHout]. split.
  - intros Hk. destruct (decide (key ∈ roots)) as [Hin|Hout]; [by apply IHin|].
    apply elem_of_cons in Hk as [->|?]; [|done]. exists v, v'. split; [done|]. split; [done|].
    rewrite IHout by done. rewrite map_get_insert. by rewrite decide_True.
  - intros [Hne Hout]%not_elem_of_cons. rewrite IHout by done. rewrite map_get_insert.
    by rewrite decide_False.
Qed.

Lemma filter_entries_lookup (m : Mapping) (allowed : list string) (acc out : Mapping) (key : string) :
  keyed m -> (forall k, k ∈ str_keys m -> map_get acc k = None) ->
  filter_entries m allowed acc = Ok out ->
  map_get out key =
    if contains allowed key then
      match map_get m key with Some v => Some v | None => map_get acc key end
    else map_get acc key.
Proof.
  revert acc; induction m as [|[k v] m IH]; intros acc [Hs Hn] Hacc; cbn [filter_entries].
  { intros [= ->]. cbn. by destruct (contains _ _). }
  destruct k as [| | |k| | |]; try done. rewrite str_keys_cons in Hn. rewrite map_insert_value_string.
  apply NoDup_cons in Hn as [Hk Hn]. cbn [as_str untag]. intros Hf.
  rewrite (IH _ (conj Hs Hn)) with (2 := Hf).
  - cbn [map_get]. destruct (decide (k = key)) as [->|Hne].
    + destruct (contains allowed key) eqn:Ec.
      * destruct (map_get m key) eqn:Hg; [by apply map_get_Some_key in Hg|].
        rewrite map_get_insert. by rewrite decide_True.
      * done.
    + destruct (contains allowed k); [|done]. by rewrite map_get_insert, decide_False.
  - intros k' Hk'. assert (k <> k') by (by intros ->).
    destruct (contains allowed k); [rewrite map_get_insert, decide_False by done|];
      apply Hacc; rewrite str_keys_cons; by right.
Qed.

(** The nested field table of a patchable root. *)
Definition nested_table (root : string) : option (list string) :=
  if String.eqb root "tun" then Some TUN_PATCH_FIELDS
  else if String.eqb root "tuic-server" then Some TUIC_SERVER_PATCH_FIELDS
  else None.

Lemma nested_table_cases root table :
  nested_table root = Some table ->
  (root = "tun" /\ table = TUN_PATCH_FIELDS) \/ (root = "tuic-server" /\ table = TUIC_SERVER_PATCH_FIELDS).
Proof.
  unfold nested_table. destruct (String.eqb_spec root "tun"); [intros [= <-]; by left|].
  destruct (String.eqb_spec root "tuic-server"); [intros [= <-]; by right|done].
Qed.

Lemma nested_supported root table field rest :
  nested_table root = Some table ->
  patch_nested_path_is_supported (root :: field :: rest) = contains table field.
Proof. by intros [[-> ->]|[-> ->]]%nested_table_cases. Qed.

Lemma patch_value_nested root table m :
  nested_table root = Some table -> patch_value root (VMapping m) = filter_mapping (VMapping m) table.
Proof. by intros [[-> ->]|[-> ->]]%nested_table_cases. Qed.

(** A nested field that differs is reported below its root. *)
Lemma diff_nested_differs (current desired mc md : Mapping) (root field : string) :
  canonical (VMapping current) = true -> canonical (VMapping desired) = true ->
  map_get current root = Some (VMapping mc) -> map_get desired root = Some (VMapping md) ->
  differs mc md field = true ->
  exists e rest, e ∈ diff current desired /\ de_path e = root :: field :: rest.
Proof.
  intros Hc Hd Hmc Hmd Hf.
  assert (canonical (VMapping mc) = true /\ canonical (VMapping md) = true) as [Hcc Hcd].
  { exact (conj (canonical_get _ _ _ Hc Hmc) (canonical_get _ _ _ Hd Hmd)). }
  unfold differs in Hf. apply negb_true_iff in Hf.
  set (fuel := Nat.pred (Nat.max (depth (VMapping current)) (depth (VMapping desired)))).
  assert (S fuel = Nat.max (depth (VMapping current)) (depth (VMapping desired))) as Hfuel.
  { unfold fuel. cbn [depth]. lia. }
  destruct (diff_value fuel (side_get (Some (VMapping mc)) field)
    (side_get (Some (VMapping md)) field) ([root] ++ [field])) as [|e l] eqn:E.
  - apply diff_value_nil in E; [cbn in E; congruence|by apply side_get_canonical..].
  - assert (He : e ∈ e :: l) by (by left). rewrite <- E in He.
    destruct (diff_value_prefix _ _ _ _ _ He) as [s Hs]. exists e, s. split; [|done].
    apply (diff_root_entry _ _ root); [done..|]. rewrite <- Hfuel, Hmc, Hmd.
    by apply (diff_value_key _ _ _ [root] field).
Qed.

Section Properties.
Context `{ClashApi}.

(** The shape of a patch decision. *)
Lemma classify_documents_patch (current desired : Mapping) patch projection :
  classify_documents current desired = Ok (ChangePatch patch projection) ->
  option_value_eqb (dns_listen current) (dns_listen desired) = true
  /\ forallb entry_patchable (diff current desired) = true
  /\ exists document serialized,
      patch_document desired (changed_roots (diff current desired)) [] = Ok (Some document)
      /\ patch_from_value (VMapping document) = Some patch
      /\ patch_to_value patch = Ok serialized
      /\ projection = {| rp_expected := collect_leaves serialized [] |}.
Proof.
  unfold classify_documents. destruct (option_value_eqb _ _); cbn [negb]; [|done].
  case_bool_decide; [done|]. destruct (forallb entry_patchable _); cycle 1.
  { by destruct (forallb _ _). }
  unfold build_patch. destruct (patch_document _ _ _) as [[document|]|]; try done.
  cbn [result_bind]. destruct (existsb _ _); [done|].
  destruct (patch_from_value _) as [p|] eqn:Ep; [|done].
  destruct (patch_to_value p) as [s|] eqn:Es; [|done]. cbn. intros [= <- <-].
  repeat split. by exists document, s.
Qed.

(** C32: [diff] is exact on documents in normal form.  It reports nothing precisely
    when the documents are equal; it reports a path precisely when the path is a
    place of change - the values at it differ and are not both mappings (or one of
    them a mapping and the other absent) with a key, while at every path above it
    they are - with the value the desired document has there, if any; and it reports
    no path twice. *)
Theorem diff_is_exact (current desired : Mapping) :
  canonical (VMapping current) = true -> canonical (VMapping desired) = true ->
  (diff current desired = [] <-> value_eqb (VMapping current) (VMapping desired) = true)
  /\ (forall path new,
        {| de_path := path; de_new := new |} ∈ diff current desired <->
        ChangedAt (Some (VMapping current)) (Some (VMapping desired)) path /\ new = value_at (VMapping desired) path)
  /\ NoDup (de_path <$> diff current desired).
Proof.
  intros Hc Hd. split; [by apply diff_nil|]. split; [|apply diff_value_NoDup]. intros path new.
  rewrite <- at_path_value_at. apply (diff_value_changed _ _ _ [] path); [done..|cbn; lia|cbn; lia].
Qed.

(** A [PATCH] says exactly what changed.  When a change between two normal
    forms is classified as a patch, the DNS listener is untouched and there is
    one document the patch was read from such that: a top-level key whose value
    did not change is absent from it; a key whose value changed is a known
    patchable field, is present in the desired configuration, and stands in the
    patch with the desired value ([tun] and [tuic-server] reduced to their
    patchable fields); and below those two, every field that changed is itself
    patchable and carries the desired value. *)
Theorem patch_is_exact (current desired : Mapping) patch projection :
  canonical (VMapping current) = true -> canonical (VMapping desired) = true ->
  classify_documents current desired = Ok (ChangePatch patch projection) ->
  option_value_eqb (dns_listen current) (dns_listen desired) = true
  /\ exists document,
      patch_from_value (VMapping document) = Some patch
      /\ (forall key, differs current desired key = false -> map_get document key = None)
      /\ (forall key, differs current desired key = true ->
            key ∈ PATCH_FIELDS
            /\ exists v v', map_get desired key = Some v /\ patch_value key v = Ok v'
                            /\ map_get document key = Some v')
      /\ (forall root table mc md field,
            nested_table root = Some table ->
            map_get current root = Some (VMapping mc) -> map_get desired root = Some (VMapping md) ->
            differs mc md field = true ->
            field ∈ table
            /\ exists mp, map_get document root = Some (VMapping mp)
                          /\ map_get mp field = map_get md field).
Proof.
  intros Hc Hd (Hdns & Hall & doc & s & Hdoc & Hp & _)%classify_documents_patch.
  split; [done|]. exists doc. split; [done|].
  rewrite forallb_elem_of in Hall. unfold entry_patchable in Hall.
  assert (forall key, differs current desired key = true ->
    exists v v', map_get desired key = Some v /\ patch_value key v = Ok v'
                 /\ map_get doc key = Some v') as Hin.
  { intros key Hk. eapply patch_document_lookup; [done|]. by apply changed_roots_elem. }
  split; [|split].
  - intros key Hk. rewrite (proj2 (patch_document_lookup _ _ _ _ key Hdoc)); [done|].
    rewrite changed_roots_elem by done. congruence.
  - intros key Hk. split; [|by apply Hin].
    destruct (diff_root_differs _ _ _ Hc Hd Hk) as (e & rest & He & Hpath).
    specialize (Hall _ He). rewrite Hpath, !andb_true_iff in Hall.
    apply contains_elem_of. tauto.
  - intros root table mc md field Ht Hmc Hmd Hf.
    destruct (diff_nested_differs _ _ _ _ _ _ Hc Hd Hmc Hmd Hf) as (e & rest & He & Hpath).
    specialize (Hall _ He). rewrite Hpath, (nested_supported _ _ _ _ Ht), !andb_true_iff in Hall.
    destruct Hall as (_ & _ & Hfield). split; [by apply contains_elem_of|].
    destruct (diff_entry_root _ _ _ Hc Hd He) as (k & r & Hk & Hdiff).
    rewrite Hpath in Hk. injection Hk as <- _.
    destruct (Hin _ Hdiff) as (v & v' & Hv & Hpv & Hg). rewrite Hmd in Hv. injection Hv as <-.
    rewrite (patch_value_nested _ _ _ Ht) in Hpv. unfold filter_mapping in Hpv. cbn in Hpv.
    destruct (filter_entries md table []) as [mp|] eqn:Emp; [|done]. cbn in Hpv. injection Hpv as <-.
    exists mp. split; [done|].
    rewrite (filter_entries_lookup md table [] mp field); [|apply canonical_keyed|done|done].
    + rewrite Hfield. by destruct (map_get md field).
    + exact (canonical_get _ _ _ Hd Hmd).
Qed.

(** A reload is confined to the proxy, rule, host and DNS sections, leaves
    the DNS listener alone, and is only chosen for a change. *)
Theorem reload_is_confined (current desired : Mapping) :
  canonical (VMapping current) = true -> canonical (VMapping desired) = true ->
  classify_documents current desired = Ok ChangeReload ->
  option_value_eqb (dns_listen current) (dns_listen desired) = true
  /\ value_eqb (VMapping current) (VMapping desired) = false
  /\ forall key, differs current desired key = true -> key ∈ RELOAD_FIELDS.
Proof.
  intros Hc Hd. unfold classify_documents.
  destruct (option_value_eqb _ _); cbn [negb]; [|done].
  case_bool_decide as Hlen; [done|]. destruct (forallb entry_patchable _).
  { unfold build_patch. destruct (patch_document _ _ _) as [[document|]|]; try done.
    cbn [result_bind]. destruct (existsb _ _); [done|].
    destruct (patch_from_value _); [|done]. by destruct (patch_to_value _). }
  destruct (forallb entry_reloadable _) eqn:Hall; [|done]. intros _. split; [done|]. split.
  - destruct (value_eqb _ _) eqn:E; [|done]. apply diff_nil in E; [|done..]. by rewrite E in Hlen.
  - intros key Hk. destruct (diff_root_differs _ _ _ Hc Hd Hk) as (e & rest & He & Hp).
    rewrite forallb_elem_of in Hall. specialize (Hall _ He). unfold entry_reloadable in Hall.
    rewrite Hp, !andb_true_iff in Hall. apply contains_elem_of. tauto.
Qed.

(** A change that is not answered with a new process never needs one.  If
    the classification of two prepared epochs is anything but a switch, the
    process they would run is the same in every respect that is fixed at
    launch; for a core other than Mihomo both the source and the effective
    documents are equal; for Mihomo no key that decides how the core is reached
    differs between the sources. *)
Theorem in_place_keeps_the_process (current desired : ConfigClassificationView) change :
  canonical (VMapping (cv_source current)) = true ->
  canonical (VMapping (cv_source desired)) = true ->
  canonical (VMapping (cv_effective current)) = true ->
  canonical (VMapping (cv_effective desired)) = true ->
  classify current desired = Ok change -> change <> ChangeSwitch ->
  process_spec_changed (cv_spec current) (cv_spec desired) = false
  /\ (cs_kind (is_core (cv_spec desired)) <> Mihomo ->
        change = ChangeNoop
        /\ value_eqb (VMapping (cv_source current)) (VMapping (cv_source desired)) = true
        /\ value_eqb (VMapping (cv_effective current)) (VMapping (cv_effective desired)) = true)
  /\ (cs_kind (is_core (cv_spec desired)) = Mihomo ->
        forall key, key ∈ CONTROLLER_FIELDS ->
          differs (cv_source current) (cv_source desired) key = false).
Proof.
  intros Hs1 Hs2 He1 He2. unfold classify.
  destruct (process_spec_changed _ _); [by intros [= <-]|]. case_decide as Hkind.
  - intros [= <-] Hne. split; [done|]. split; [|done]. intros _.
    case_bool_decide as Hl1; [apply nil_length_inv in Hl1|done].
    case_bool_decide as Hl2; [apply nil_length_inv in Hl2|done].
    cbn. split; [done|]. split; by apply diff_nil.
  - destruct (existsb _ _) eqn:Hex; [by intros [= <-]|]. intros _ _. split; [done|].
    split; [done|]. intros _ key Hkey.
    destruct (differs _ _ key) eqn:Hd; [|done].
    destruct (diff_root_differs _ _ _ Hs1 Hs2 Hd) as (e & rest & He & Hp).
    rewrite <- not_true_iff_false, existsb_exists in Hex. destruct Hex. exists e.
    split; [by apply list_elem_of_In|]. unfold controller_entry. rewrite Hp.
    by rewrite (proj2 (contains_elem_of _ _) Hkey).
Qed.

End Properties.

(** ** Leaves *)

Lemma collect_leaves_mapping e m p :
  collect_leaves (VMapping (e :: m)) p =
    flat_map (fun e => match as_str e.1 with
                       | Some key => collect_leaves e.2 (p ++ [key])
                       | None => [] end) (e :: m).
Proof.
  assert (forall l : Mapping, (fix go (m : list (Value * Value)) : list (list string * Value) :=
         match m with
         | [] => []
         | (k, v) :: m' =>
             match as_str k with
             | Some key => collect_leaves_of v v (p ++ [key]) ++ go m'
             | None => go m'
             end
         end) l = flat_map (fun e => match as_str e.1 with
                       | Some key => collect_leaves e.2 (p ++ [key])
                       | None => [] end) l) as Hg.
  { induction l as [|[k v] l IH]; [done|]. cbn [flat_map fst snd]. rewrite <- IH.
    by destruct (as_str k). }
  exact (Hg (e :: m)).
Qed.

Lemma collect_leaves_found (v : Value) (p q : list string) (x : Value) :
  canonical v = true -> (q, x) ∈ collect_leaves v p ->
  exists s, q = p ++ s /\ value_at v s = Some x.
Proof.
  revert p q; induction v as [|b|n|s|l IH|m IH|t v IH] using Value_deep_ind; intros p q Hc;
    try (intros [= -> ->]%list_elem_of_singleton; exists []; by rewrite app_nil_r); [|done].
  destruct m as [|e m].
  { intros [= -> ->]%list_elem_of_singleton. exists []. by rewrite app_nil_r. }
  rewrite collect_leaves_mapping. intros ([k w] & He & Hin)%elem_of_flat_map. cbn [fst snd] in Hin.
  pose proof (canonical_keyed _ Hc) as Hk.
  destruct (string_keyed_entry _ _ (proj1 Hk) He) as [key Hkey]. cbn in Hkey. subst k.
  cbn [as_str untag] in Hin. pose proof (map_get_of_elem _ _ _ Hk He) as Hg.
  rewrite Forall_forall in IH. destruct (IH _ He) as [_ IHw]. cbn [snd] in IHw.
  destruct (IHw _ _ (canonical_get _ _ _ Hc Hg) Hin) as (s & -> & Hs).
  exists (key :: s). rewrite <- app_assoc. split; [done|].
  cbn [value_at as_mapping untag mbind option_bind]. by rewrite Hg.
Qed.

(** ** Bootstrap documents *)

Lemma map_get_modify (f : Value -> Value) (m : Mapping) (key key' : string) :
  map_get (map_modify f key m) key' =
    if decide (key = key') then f <$> map_get m key' else map_get m key'.
Proof.
  induction m as [|[k v] m IH]; cbn [map_modify map_get]; [by case_decide|].
  destruct k; cbn [map_get]; try exact IH.
  destruct (decide (s = key)) as [->|Hne]; cbn [map_get].
  - destruct (decide (key = key')); [done|]. done.
  - rewrite IH. destruct (decide (s = key')) as [->|]; [|done].
    by rewrite decide_False.
Qed.

Lemma map_get_zero_listener (d : Mapping) (key k : string) :
  map_get (zero_listener d key) k =
    if decide (k = key) then
      match map_get d key with
      | Some v => Some (match as_i64 v with
                        | Some z => if decide (z <> 0%Z) then VNumber (PosInt 0) else v
                        | None => v end)
      | None => None
      end
    else map_get d k.
Proof.
  unfold zero_listener. destruct (decide (k = key)) as [->|Hne].
  - destruct (map_get d key) as [v|] eqn:E; [|exact E]. cbn.
    destruct (as_i64 v) as [z|]; [|done]. case_decide; [|done].
    rewrite map_get_insert. by rewrite decide_True.
  - destruct (map_get d key ≫= as_i64) as [z|]; [|done]. case_decide; [|done].
    rewrite map_get_insert. by rewrite decide_False.
Qed.

Lemma map_get_zero_listeners (keys : list string) (d : Mapping) (k : string) :
  NoDup keys ->
  map_get (fold_left zero_listener keys d) k =
    if decide (k ∈ keys) then
      match map_get d k with
      | Some v => Some (match as_i64 v with
                        | Some z => if decide (z <> 0%Z) then VNumber (PosInt 0) else v
                        | None => v end)
      | None => None
      end
    else map_get d k.
Proof.
  revert d; induction keys as [|key keys IH]; intros d Hn; cbn [fold_left].
  { rewrite decide_False by apply not_elem_of_nil. done. }
  apply NoDup_cons in Hn as [Hk Hn]. rewrite IH, map_get_zero_listener by done.
  destruct (decide (k = key)) as [->|Hne].
  - rewrite decide_False by done. rewrite decide_True by (by left). done.
  - destruct (decide (k ∈ keys)) as [Hin|Hout].
    + rewrite decide_True by (by right). done.
    + rewrite decide_False; [done|]. by intros [?|?]%elem_of_cons.
Qed.

Lemma map_get_zero_inbounds (d : Mapping) (k : string) :
  k ∉ "tun" :: INBOUND_PORT_FIELDS -> map_get (zero_inbounds d) k = map_get d k.
Proof.
  intros [Ht Hk]%not_elem_of_cons. unfold zero_inbounds. rewrite map_get_modify.
  rewrite decide_False by done. rewrite map_get_zero_listeners.
  - by rewrite decide_False.
  - apply (bool_decide_unpack _). by vm_compute.
Qed.

(** No traffic can reach the document's own listeners. *)
Definition port_silent (d : Mapping) (key : string) : bool :=
  match map_get d key with None => true | Some v => bool_decide (as_i64 v = Some 0%Z) end.
Definition tun_silent (d : Mapping) : bool :=
  match map_get d "tun" with
  | None => true
  | Some v =>
      match as_mapping v with
      | None => false
      | Some tun =>
          match map_get tun "enable" with
          | None => true | Some e => bool_decide (as_bool e = Some false) end
      end
  end.
Definition text_silent (d : Mapping) (key : string) : bool :=
  match map_get d key with None => true | Some v => bool_decide (as_str v = Some "") end.
Definition collection_silent (d : Mapping) (key : string) : bool :=
  match map_get d key with None => true | Some v => negb (nonempty_collection v) end.
Definition inbound_silent (d : Mapping) : bool :=
  forallb (port_silent d) INBOUND_PORT_FIELDS && tun_silent d && negb (tuic_blocks d)
  && forallb (text_silent d) ["ss-config"; "vmess-config"; "tcptun-config"; "udptun-config"]
  && forallb (collection_silent d) ["listeners"; "tunnels"].

Lemma get_is_false_forall (d : Mapping) (keys : list string) (p : Value -> bool) :
  existsb (fun key => get_is d key p) keys = false ->
  forall k v, k ∈ keys -> map_get d k = Some v -> p v = false.
Proof.
  intros Hex k v Hk Hg. destruct (p v) eqn:E; [|done].
  rewrite <- not_true_iff_false, existsb_exists in Hex. destruct Hex.
  exists k. unfold get_is. rewrite Hg. split; [by apply list_elem_of_In|done].
Qed.

Ltac if_none H :=
  match type of H with
  | (if ?b then Some _ else _) = None => let E := fresh "Hb" in destruct b eqn:E; [discriminate H|]
  end.

Lemma zero_inbounds_ports (d : Mapping) :
  existsb (fun key => get_is d key (fun v => bool_decide (as_i64 v = None))) INBOUND_PORT_FIELDS = false ->
  forallb (port_silent (zero_inbounds d)) INBOUND_PORT_FIELDS = true.
Proof.
  intros Hports. apply forallb_elem_of. intros k Hk.
  assert (k <> "tun") as Ht.
  { intros ->. revert Hk. apply (bool_decide_unpack _). by vm_compute. }
  unfold port_silent, zero_inbounds. rewrite map_get_modify, decide_False by congruence.
  rewrite map_get_zero_listeners by (apply (bool_decide_unpack _); by vm_compute).
  rewrite decide_True by done. destruct (map_get d k) as [v|] eqn:Hg; [|done].
  pose proof (get_is_false_forall _ _ _ Hports k v Hk Hg) as Hi.
  apply bool_decide_eq_false in Hi. destruct (as_i64 v) as [z|] eqn:Hz; [|done].
  case_decide as Hz0; [done|]. rewrite Hz. apply bool_decide_eq_true. f_equal. lia.
Qed.

Lemma zero_inbounds_tun (d : Mapping) :
  tun_blocks d = false -> (forall v, map_get d "tun" = Some v -> canonical v = true) ->
  tun_silent (zero_inbounds d) = true.
Proof.
  unfold tun_blocks, tun_silent, zero_inbounds. intros Hb Hc.
  rewrite map_get_modify, decide_True by done.
  rewrite map_get_zero_listeners by (apply (bool_decide_unpack _); by vm_compute).
  rewrite decide_False by (apply (bool_decide_unpack _); by vm_compute).
  destruct (map_get d "tun") as [v|]; [|done]. specialize (Hc v eq_refl).
  destruct (as_mapping v) as [tun|] eqn:Ev; [|done].
  apply canonical_as_mapping in Ev as ->; [|done].
  cbn [fmap option_fmap option_map via_mapping as_mapping untag].
  unfold get_is in Hb. case_decide as He.
  - rewrite map_get_insert, decide_True by done. done.
  - destruct (map_get tun "enable") as [e|] eqn:Hg; [|done].
    apply bool_decide_eq_false in Hb. cbn in He. apply bool_decide_eq_true.
    destruct (as_bool e) as [[]|]; done.
Qed.

(** With no [dns.listen] entry, a configuration that passes the overlap
    check can be bootstrapped next to a running one: after
    [zero_inbounds] its ports are all absent or zero, its TUN device is off,
    its TUIC server is off, its text listeners are empty, its listener and
    tunnel collections are empty, and it still has no DNS listener. *)
Theorem bootstrap_is_silent (d : Mapping) :
  canonical (VMapping d) = true -> dns_listen d = None -> overlap_block d = None ->
  inbound_silent (zero_inbounds d) = true /\ dns_listen (zero_inbounds d) = None.
Proof.
  intros Hc Hdns Ho. unfold overlap_block in Ho. rewrite Hdns in Ho.
  if_none Ho. if_none Ho. if_none Ho. if_none Ho. if_none Ho.
  assert (forall k, k ∈ ["dns"; "tuic-server"; "ss-config"; "vmess-config"; "tcptun-config";
    "udptun-config"; "listeners"; "tunnels"] -> map_get (zero_inbounds d) k = map_get d k) as Hother.
  { intros k Hk. apply map_get_zero_inbounds. revert k Hk. apply Forall_forall.
    repeat constructor; apply (bool_decide_unpack _); by vm_compute. }
  split.
  - unfold inbound_silent. rewrite !andb_true_iff. repeat split.
    + by apply zero_inbounds_ports.
    + apply zero_inbounds_tun; [done|]. intros v Hv. exact (canonical_get _ _ _ Hc Hv).
    + unfold tuic_blocks in *. rewrite Hother by set_solver. by rewrite Hb1.
    + apply forallb_elem_of. intros k Hk. unfold text_silent. rewrite Hother by set_solver.
      destruct (map_get d k) as [v|] eqn:Hg; [|done].
      by apply (get_is_false_forall _ _ _ Hb2 k v Hk), negb_false_iff in Hg.
    + apply forallb_elem_of. intros k Hk. unfold collection_silent. rewrite Hother by set_solver.
      destruct (map_get d k) as [v|] eqn:Hg; [|done].
      by rewrite (get_is_false_forall _ _ _ Hb3 k v Hk Hg).
  - unfold dns_listen in *. by rewrite Hother by set_solver.
Qed.

Definition listening_document : Mapping :=
  [(VString "listeners", VSequence [VMapping [(VString "name", VString "in")]]);
   (VString "tuic-server", VMapping [(VString "enable", VBool true)])].

Lemma bootstrap_is_silent_witness :
  let d := [(VString "mixed-port", VNumber (PosInt 7890));
            (VString "tun", VMapping [(VString "enable", VBool true)])] in
  inbound_silent (zero_inbounds d) = true /\ dns_listen (zero_inbounds d) = None.
Proof. apply bootstrap_is_silent; vm_compute; reflexivity. Defined.

(** An empty [dns.listen] hides every other listener from the overlap
    check.  The check returns as soon as the entry is present: whatever else the
    document configures, an empty text or a null there is answered with "no
    obstacle", also for a document whose listeners block the overlap when the
    entry is left out. *)
Theorem empty_dns_listen_hides_listeners (d : Mapping) :
  (dns_listen d = Some (VString "") \/ dns_listen d = Some VNull -> overlap_block d = None)
  /\ overlap_block listening_document = Some InboundSurface
  /\ (let d' := (VString "dns", VMapping [(VString "listen", VString "")]) :: listening_document in
      canonical (VMapping d') = true /\ overlap_block d' = None
      /\ inbound_silent (zero_inbounds d') = false).
Proof.
  split; [|vm_compute; tauto]. intros [Hd|Hd]; unfold overlap_block; by rewrite Hd.
Qed.

Lemma empty_dns_listen_hides_listeners_witness :
  overlap_block [(VString "dns", VMapping [(VString "listen", VNull)]); (VString "tun", VBool true)] = None.
Proof. apply (proj1 (empty_dns_listen_hides_listeners _)). right. vm_compute. reflexivity. Defined.

(** The projection of a patch accepts a core that reports exactly what was
    sent: every leaf collected from a document in normal form is found at its
    path again, so verification of the patched configuration succeeds when the
    reported configuration is that document. *)
Theorem projection_accepts_what_was_sent `{ClashApi} (v : Value) (actual : RuntimeConfig) :
  canonical v = true -> runtime_to_value actual = Ok v ->
  projection_verify {| rp_expected := collect_leaves v [] |} actual = Ok true.
Proof.
  intros Hc Hr. unfold projection_verify. rewrite Hr. cbn [result_bind rp_expected]. f_equal.
  apply forallb_elem_of. intros [q x] Hin.
  destruct (collect_leaves_found _ _ _ _ Hc Hin) as (s & -> & Hs). cbn [app].
  rewrite Hs. apply value_eqb_refl.
Qed.

(** ** Witnesses *)

(** A client whose patches and runtime configurations are plain documents. *)
Definition document_api : ClashApi :=
  {| ConfigPatch := Value; RuntimeConfig := Value;
     patch_from_value := Some; patch_to_value := Ok; runtime_to_value := Ok |}.

Definition sample_current : Mapping :=
  [(VString "mode", VString "rule"); (VString "proxies", VSequence []);
   (VString "tun", VMapping [(VString "enable", VBool false); (VString "mtu", VNumber (PosInt 1500))])].
Definition sample_desired : Mapping :=
  [(VString "mode", VString "global"); (VString "proxies", VSequence []);
   (VString "tun", VMapping [(VString "enable", VBool true); (VString "mtu", VNumber (PosInt 1500))])].
Definition sample_reload : Mapping :=
  [(VString "mode", VString "rule"); (VString "proxies", VSequence [VNull]);
   (VString "tun", VMapping [(VString "enable", VBool false); (VString "mtu", VNumber (PosInt 1500))])].

Lemma diff_is_exact_witness :
  ChangedAt (Some (VMapping sample_current)) (Some (VMapping sample_desired)) ["tun"; "enable"]
  /\ {| de_path := ["tun"; "enable"]; de_new := Some (VBool true) |} ∈ diff sample_current sample_desired
  /\ ~ ChangedAt (Some (VMapping sample_current)) (Some (VMapping sample_desired)) ["tun"; "mtu"].
Proof.
  destruct (diff_is_exact sample_current sample_desired) as (_ & Hin & _); [vm_compute; reflexivity..|].
  assert ({| de_path := ["tun"; "enable"]; de_new := Some (VBool true) |} ∈ diff sample_current sample_desired) as He.
  { vm_compute. right. left. }
  split; [by apply (Hin _ (Some (VBool true)))|]. split; [exact He|]. intros Hp.
  assert ({| de_path := ["tun"; "mtu"]; de_new := value_at (VMapping sample_desired) ["tun"; "mtu"] |}
          ∈ diff sample_current sample_desired) as Hm by (by apply Hin).
  vm_compute in Hm. apply elem_of_cons in Hm as [Hm|Hm]; [discriminate Hm|].
  apply list_elem_of_singleton in Hm. discriminate Hm.
Defined.

Definition sample_patch_document : Mapping :=
  [(VString "mode", VString "global");
   (VString "tun", VMapping [(VString "enable", VBool true); (VString "mtu", VNumber (PosInt 1500))])].

Lemma patch_is_exact_witness :
  exists document : Mapping, map_get document "proxies" = None.
Proof.
  destruct (patch_is_exact (H := document_api) sample_current sample_desired
    (VMapping sample_patch_document)
    {| rp_expected := collect_leaves (VMapping sample_patch_document) [] |})
    as (_ & document & _ & Hsame & _).
  - vm_compute; reflexivity.
  - vm_compute; reflexivity.
  - vm_compute; reflexivity.
  - exists document. apply Hsame. vm_compute. reflexivity.
Defined.

Lemma reload_is_confined_witness :
  value_eqb (VMapping sample_current) (VMapping sample_reload) = false.
Proof.
  apply (reload_is_confined (H := document_api) sample_current sample_reload);
    vm_compute; reflexivity.
Defined.

Definition sample_spec : InstanceSpec :=
  {| is_core := {| cs_kind := Mihomo; cs_binary_path := "/opt/mihomo"; cs_version := None; cs_features := [] |};
     is_config_path := "/etc/core.yaml"; is_working_dir := "/var/lib/core"; is_pid_file := None;
     is_options := {| io_local_ipc := None; io_startup_timeout := duration_from_secs 10;
       io_health := {| hp_interval := duration_from_secs 5; hp_timeout := duration_from_secs 1;
         hp_failure_threshold := 3; hp_success_threshold := 1; hp_start_period := 0 |};
       io_restart_policy := Never;
       io_backoff := {| bo_initial := duration_from_secs 1; bo_max := duration_from_secs 30; bo_jitter := false |} |} |}.
Definition sample_view (m : Mapping) : ConfigClassificationView :=
  {| cv_source := m; cv_effective := m; cv_spec := sample_spec |}.

Lemma in_place_keeps_the_process_witness :
  process_spec_changed sample_spec sample_spec = false.
Proof.
  apply (in_place_keeps_the_process (H := document_api) (sample_view sample_current)
    (sample_view sample_reload) (@ChangeReload document_api)); try (vm_compute; reflexivity).
  discriminate.
Defined.

Lemma projection_accepts_what_was_sent_witness :
  projection_verify (H := document_api)
    {| rp_expected := collect_leaves (VMapping sample_desired) [] |} (VMapping sample_desired) = Ok true.
Proof. apply (projection_accepts_what_was_sent (H := document_api)); vm_compute; reflexivity. Defined.
