(* ===== verification/Config.v ===== *)
(** * Configuration snapshots and effective documents

    [config/mod.rs] and [config/clash.rs]: reading a source configuration into
    its normal form, and preparing the document one epoch runs, with the
    controller repointed at a manager-owned endpoint when local IPC is
    selected.  The YAML reader and writer, the parser of controller addresses
    and the file system are parameters. *)

From S2P Require Export Diff Paths.
Open Scope rust_scope.

Class ConfigHost := {
  (** [serde_yaml_ng::from_slice] and [to_string]. *)
  yaml_from_slice : list Byte.byte -> result Value Error;
  yaml_to_string : Mapping -> result string Error;
  (** [clash_api::Host::http]. *)
  Host_http : string -> result Host Error;
  (** [std::fs::canonicalize] of a path, and whether a path is UTF-8. *)
  fs_canonicalize : string -> result string IoError;
  path_is_utf8 : string -> bool;
}.

Record ConfigSnapshot := {
  sn_source_path : string;
  sn_document : Mapping;
  sn_source_hash : string;
}.

Record PreparedConfig := {
  pc_bytes : list Byte.byte;
  pc_document : Mapping;
  pc_controller : ResolvedController;
  pc_rewrote_controller : bool;
  pc_source_hash : string;
  pc_effective_hash : string;
}.

Inductive RawController := Pipe (path : string) | Unix (path : string) | RawHttp (address : string).

Record ConfigInfo := { ci_controller : option RawController; ci_secret : option string }.

(** ** Controller vocabulary ([clash.rs]) *)

Definition str_value (doc : Mapping) (key : string) : option string :=
  match map_get doc key ≫= as_str with
  | Some "" => None
  | other => other
  end.

(** [inspect] of a host that is not Windows. *)
Definition inspect (document : Mapping) : ConfigInfo :=
  let local := Unix <$> str_value document EXTERNAL_CONTROLLER_UNIX in
  {| ci_controller :=
       match local with
       | Some _ => local
       | None => RawHttp <$> str_value document EXTERNAL_CONTROLLER
       end;
     ci_secret := str_value document SECRET |}.

Definition inspect_http (document : Mapping) : ConfigInfo :=
  {| ci_controller := RawHttp <$> str_value document EXTERNAL_CONTROLLER;
     ci_secret := str_value document SECRET |}.

Definition rewrite_managed_controller (document : Mapping) (endpoint : string) (keep_http : bool) : Mapping :=
  let document :=
    fold_left (fun document field =>
        if negb (contains [EXTERNAL_CONTROLLER; EXTERNAL_CONTROLLER_TLS] field) || negb keep_http
        then map_remove document field
        else document)
      [EXTERNAL_CONTROLLER; EXTERNAL_CONTROLLER_TLS; EXTERNAL_CONTROLLER_PIPE; EXTERNAL_CONTROLLER_UNIX]
      document in
  map_insert document EXTERNAL_CONTROLLER_UNIX (VString endpoint).

(** ** Endpoints *)

Definition probe_address (address : string) : string :=
  match rsplit_once ":" address with
  | Some (host, port) =>
      if decide (host ∈ ["0.0.0.0"; "::"; "[::]"; ""]) then "127.0.0.1:" +:+ port else address
  | None => address
  end.

Definition validate_controller_template (template : option string) : result () Error :=
  match template with
  | Some value =>
      if str_contains "{epoch}" value then Ok tt
      else Err (InvalidManagerOptions "managed controller_template must contain `{epoch}`")
  | None => Ok tt
  end.

(** The Unix socket address limit of the host ([sun_path] of 108 bytes). *)
Definition sun_path_length : nat := 108.
Definition str_has_nul (s : string) : bool :=
  negb (str_all (fun a => negb (bool_decide (a = Ascii.Ascii false false false false false false false false))) s).
Definition validate_socket_path (path : string) : result () Error :=
  let invalid text := Err (InvalidManagerOptions ("invalid controller socket path: " +:+ text)) in
  if str_has_nul path then invalid "paths must not contain interior null bytes"
  else if decide (sun_path_length <= String.length path)%nat
  then invalid "path must be shorter than SUN_LEN"
  else Ok tt.

Section Prepare.
Context `{ConfigHost}.

Definition managed_unix_endpoint (runtime_dir endpoint : string) : result string Error :=
  let candidate := if is_absolute endpoint then endpoint else path_join runtime_dir endpoint in
  let? parent := ok_or (parent candidate)
    (InvalidManagerOptions "managed Unix controller has no parent directory") in
  let? canonical_parent := map_err (fun error =>
    InvalidManagerOptions ("managed Unix controller parent `" +:+ parent
      +:+ "` cannot be canonicalized: " +:+ ioe_text error)) (fs_canonicalize parent) in
  let? canonical_parent :=
    (if path_is_utf8 canonical_parent then Ok canonical_parent
     else Err (InvalidManagerOptions "managed Unix controller path is not UTF-8")) in
  let? canonical_root := map_err IoErr (fs_canonicalize runtime_dir) in
  if negb (path_starts_with canonical_parent canonical_root) then
    Err (InvalidManagerOptions ("managed Unix controller `" +:+ candidate
      +:+ "` escapes runtime directory `" +:+ runtime_dir +:+ "`"))
  else
    let? file_name := ok_or (file_name candidate)
      (InvalidManagerOptions "managed Unix controller must name a socket file") in
    Ok (path_join canonical_parent file_name).

Definition render_endpoint_path (runtime_dir : string) (template : option string) (epoch : N)
  : result string Error :=
  let? _ := validate_controller_template template in
  match template with
  | Some template => managed_unix_endpoint runtime_dir (str_replace "{epoch}" (show_N epoch) template)
  | None => Ok (path_join runtime_dir ("core-" +:+ show_N epoch +:+ ".sock"))
  end.

Definition TEMPLATE_PROBE_RENDERING : N := 0.

Definition validate_managed_endpoint (runtime_dir : string) (template : option string) : result () Error :=
  map_ok (fun _ => tt) (render_endpoint_path runtime_dir template TEMPLATE_PROBE_RENDERING).

Definition managed_endpoint_path (runtime_dir : string) (template : option string) (epoch : Epoch)
  : result string Error :=
  render_endpoint_path runtime_dir template (Epoch_get epoch).

Definition resolve_controller (info : ConfigInfo) : result ResolvedController Error :=
  let? raw := ok_or (ci_controller info) ControllerMissing in
  let? host :=
    match raw with
    | Pipe path => Ok (NamedPipe path)
    | Unix path => Ok (UnixSocket path)
    | RawHttp address => Host_http (probe_address address)
    end in
  Ok {| rc_host := host; rc_secret := ci_secret info |}.

(** ** Snapshots *)

Definition serialize_mapping (document : Mapping) : result (list Byte.byte) Error :=
  map_ok bytes_of_string (yaml_to_string document).

Definition from_bytes (source_path : string) (raw : list Byte.byte) : result ConfigSnapshot Error :=
  let? value := yaml_from_slice raw in
  let? value := canonicalize value in
  match value with
  | VMapping document =>
      let? canonical := serialize_mapping document in
      Ok {| sn_source_path := source_path; sn_document := document;
            sn_source_hash := semantic_hash canonical |}
  | _ => Err (InvalidConfig "top-level YAML document must be a mapping")
  end.

(** [ConfigSnapshot::load], given how the source file reads. *)
Definition load (source_path : string) (read : string -> result (list Byte.byte) IoError)
  : result ConfigSnapshot Error :=
  let? raw := map_err IoErr (read source_path) in
  from_bytes source_path raw.

Definition prepare (self : ConfigSnapshot) (controller_template : option string) (runtime_dir : string)
    (epoch : Epoch) (runtime : list RuntimeFeature) (settings : option LocalIpcSettings)
    (zero : bool) : outcome (result PreparedConfig Error) :=
  let document := sn_document self in
  let document := if zero then zero_inbounds document else document in
  let rewrote_controller := bool_decide (LocalIpc ∈ runtime) in
  let rewritten :=
    if rewrote_controller then
      let? endpoint := managed_endpoint_path runtime_dir controller_template epoch in
      let? _ := validate_socket_path endpoint in
      Ok (rewrite_managed_controller document endpoint
            (match settings with Some s => li_keep_http_controller s | None => false end))
    else Ok document in
  match rewritten with
  | Err e => Return (Err e)
  | Ok document =>
      let document :=
        if negb rewrote_controller && bool_decide (is_Some settings)
        then map_remove (map_remove document "external-controller-pipe") "external-controller-unix"
        else document in
      match canonicalize (VMapping document) with
      | Err e => Return (Err e)
      | Ok (VMapping document) =>
          Return (
            let info := if rewrote_controller then inspect document else inspect_http document in
            let? controller := resolve_controller info in
            let? bytes := serialize_mapping document in
            Ok {| pc_effective_hash := semantic_hash bytes; pc_source_hash := sn_source_hash self;
                  pc_bytes := bytes; pc_document := document; pc_controller := controller;
                  pc_rewrote_controller := rewrote_controller |})
      | Ok _ => Panicked "canonical mapping remains a mapping"
      end
  end.

Definition prepare_full (self : ConfigSnapshot) (controller_template : option string)
    (runtime_dir : string) (epoch : Epoch) (runtime : list RuntimeFeature)
    (settings : option LocalIpcSettings) : outcome (result PreparedConfig Error) :=
  prepare self controller_template runtime_dir epoch runtime settings false.

Definition prepare_bootstrap (self : ConfigSnapshot) (controller_template : option string)
    (runtime_dir : string) (epoch : Epoch) (runtime : list RuntimeFeature)
    (settings : option LocalIpcSettings) : outcome (result PreparedConfig Error) :=
  prepare self controller_template runtime_dir epoch runtime settings true.

(** [PreparedConfig::native_paths]: the new state and what it returned; on an
    error only the document has changed. *)
Definition native_paths (self : PreparedConfig) (kind : CoreKind) (source : string)
  : result () Error * PreparedConfig :=
  let document := rewrite_paths kind (pc_document self) source in
  let rewritten :=
    {| pc_bytes := pc_bytes self; pc_document := document; pc_controller := pc_controller self;
       pc_rewrote_controller := pc_rewrote_controller self; pc_source_hash := pc_source_hash self;
       pc_effective_hash := pc_effective_hash self |} in
  match serialize_mapping document with
  | Err e => (Err e, rewritten)
  | Ok bytes =>
      (Ok tt,
       {| pc_bytes := bytes; pc_document := document; pc_controller := pc_controller self;
          pc_rewrote_controller := pc_rewrote_controller self; pc_source_hash := pc_source_hash self;
          pc_effective_hash := semantic_hash bytes |})
  end.

End Prepare.

(** ** Removal from a mapping *)

Lemma keyed_get_elem (m : Mapping) (k : string) (v : Value) :
  keyed m -> map_get m k = Some v <-> (VString k, v) ∈ m.
Proof. intros Hm. split; [apply map_get_elem_of|by apply map_get_of_elem]. Qed.

Lemma string_keyed_Forall (m : Mapping) :
  string_keyed m = true <-> Forall (fun e => exists k, e.1 = VString k) m.
Proof.
  split.
  - intros Hm. apply Forall_forall. intros e. by apply string_keyed_entry.
  - induction 1 as [|[k v] m [k' Hk] _ IH]; [done|]. cbn in Hk. by subst k.
Qed.

Lemma keyed_Permutation (m m' : Mapping) : m ≡ₚ m' -> keyed m -> keyed m'.
Proof.
  intros Hp [Hs Hn]. split.
  - apply string_keyed_Forall. rewrite <- Hp. by apply string_keyed_Forall.
  - unfold str_keys in *. by rewrite <- Hp.
Qed.

Lemma keyed_get_Permutation (m m' : Mapping) (k : string) :
  m ≡ₚ m' -> keyed m -> map_get m k = map_get m' k.
Proof.
  intros Hp Hm. pose proof (keyed_Permutation _ _ Hp Hm) as Hm'. apply option_eq. intros v.
  rewrite !keyed_get_elem by done. by rewrite Hp.
Qed.

Lemma is_key_true (key : string) (e : Value * Value) : is_key key e = true <-> e.1 = VString key.
Proof.
  destruct e as [[] v]; cbn; try done. rewrite bool_decide_eq_true. split; congruence.
Qed.

(** A swap-remove takes out one entry and keeps the others. *)
Lemma map_remove_Permutation (m : Mapping) (key : string) :
  (map_remove m key = m /\ forall e, e ∈ m -> e.1 <> VString key)
  \/ exists v, m ≡ₚ (VString key, v) :: map_remove m key.
Proof.
  unfold map_remove. destruct (list_find _ m) as [[i e]|] eqn:E.
  - right. apply list_find_Some in E as (Hi & He & _). apply is_key_true in He.
    destruct e as [k v]. cbn in He. subst k. exists v.
    apply list_elem_of_split_length in Hi as (l1 & l2 & -> & Hlen). subst i.
    destruct l2 as [|z l3 _] using rev_ind.
    + rewrite last_snoc. rewrite decide_True by (rewrite length_app; cbn; lia).
      rewrite take_app_length. by rewrite <- Permutation_cons_append.
    + rewrite app_comm_cons, app_assoc, last_snoc.
      rewrite decide_False by (rewrite !length_app; cbn; rewrite ?length_app; cbn; lia).
      replace (length ((l1 ++ (VString key, v) :: l3) ++ [z]) - 1)%nat
        with (length (l1 ++ (VString key, v) :: l3))
        by (rewrite (length_app (l1 ++ _)); cbn; lia).
      rewrite take_app_length. rewrite insert_app_r_alt, Nat.sub_diag by done. cbn.
      rewrite <- app_assoc. cbn. rewrite <- Permutation_middle. constructor.
      rewrite app_assoc, <- Permutation_cons_append. by rewrite Permutation_middle.
  - left. apply list_find_None in E. split; [done|]. intros e He Hk.
    rewrite Forall_forall in E. apply (E e He). by apply is_key_true.
Qed.

Lemma map_remove_keyed (m : Mapping) (key : string) : keyed m -> keyed (map_remove m key).
Proof.
  intros Hm. destruct (map_remove_Permutation m key) as [[-> _]|[v Hp]]; [done|].
  pose proof (keyed_Permutation _ _ Hp Hm) as [Hs Hn]. split; [done|].
  rewrite str_keys_cons in Hn. by apply NoDup_cons in Hn as [_ Hn].
Qed.

Lemma map_get_remove (m : Mapping) (key k : string) :
  keyed m -> map_get (map_remove m key) k = if decide (key = k) then None else map_get m k.
Proof.
  intros Hm. destruct (map_remove_Permutation m key) as [[-> Hno]|[v Hp]].
  - case_decide as Hk; [subst k|done]. destruct (map_get m key) as [v|] eqn:E; [|done].
    apply map_get_elem_of in E. by apply Hno in E.
  - rewrite (keyed_get_Permutation _ _ k Hp Hm). cbn [map_get].
    pose proof (keyed_Permutation _ _ Hp Hm) as [_ Hn]. rewrite str_keys_cons in Hn.
    apply NoDup_cons in Hn as [Hk _]. case_decide as Hd; [subst k|done].
    destruct (map_get (map_remove m key) key) eqn:E; [|done]. by apply map_get_Some_key in E.
Qed.

Lemma map_insert_keyed (m : Mapping) (key : string) (v : Value) : keyed m -> keyed (map_insert m key v).
Proof.
  intros [Hs Hn]. destruct (map_insert_keys m key v Hs) as [Hs' Hk]. split; [done|].
  rewrite Hk. case_decide; [done|]. apply NoDup_app. split; [done|].
  split; [|apply NoDup_singleton]. intros x Hx ->%list_elem_of_singleton. done.
Qed.

Lemma map_modify_keys (f : Value -> Value) (key : string) (m : Mapping) :
  string_keyed (map_modify f key m) = string_keyed m /\ str_keys (map_modify f key m) = str_keys m.
Proof.
  induction m as [|[k v] m [IH1 IH2]]; [done|]. cbn [map_modify].
  destruct k; try (split; [done|]; unfold str_keys in *; cbn; by rewrite IH2).
  case_decide; [done|]. split; [done|]. by rewrite !str_keys_cons, IH2.
Qed.

Lemma zero_inbounds_keyed (m : Mapping) : keyed m -> keyed (zero_inbounds m).
Proof.
  intros Hm. unfold zero_inbounds, keyed.
  destruct (map_modify_keys (via_mapping (fun tun =>
      if decide ((map_get tun "enable" ≫= as_bool) = Some true)
      then map_insert tun "enable" (VBool false) else tun)) "tun"
      (fold_left zero_listener INBOUND_PORT_FIELDS m)) as [-> ->].
  revert Hm. generalize INBOUND_PORT_FIELDS. intros l. revert m.
  induction l as [|k l IH]; intros m Hm; [done|]. cbn [fold_left]. apply IH.
  unfold zero_listener. destruct (map_get m k ≫= as_i64); [|done].
  case_decide; [by apply map_insert_keyed|done].
Qed.

Lemma rewrite_managed_keyed (m : Mapping) (endpoint : string) (keep : bool) :
  keyed m -> keyed (rewrite_managed_controller m endpoint keep).
Proof.
  intros Hm. unfold rewrite_managed_controller. apply map_insert_keyed.
  cbn [fold_left]. destruct keep; cbn; repeat apply map_remove_keyed; done.
Qed.

(** The managed document: every controller key except the managed one is gone,
    the HTTP ones unless they are kept. *)
Lemma map_get_rewrite_managed (m : Mapping) (endpoint : string) (keep : bool) (k : string) :
  keyed m ->
  map_get (rewrite_managed_controller m endpoint keep) k =
    if decide (k = EXTERNAL_CONTROLLER_UNIX) then Some (VString endpoint)
    else if decide (k = EXTERNAL_CONTROLLER_PIPE) then None
    else if decide (k = EXTERNAL_CONTROLLER \/ k = EXTERNAL_CONTROLLER_TLS) then
      if keep then map_get m k else None
    else map_get m k.
Proof.
  intros Hm. unfold rewrite_managed_controller. rewrite map_get_insert.
  destruct (decide (EXTERNAL_CONTROLLER_UNIX = k)) as [<-|Hu]; [by rewrite decide_True|].
  rewrite decide_False by congruence. cbn [fold_left].
  destruct keep; cbn [contains existsb negb andb orb]; cbn;
    rewrite !map_get_remove by (repeat apply map_remove_keyed; done);
    repeat case_decide; subst; try done; naive_solver.
Qed.

(** ** Preparation *)

Lemma canonicalize_mapping_shape (m : Mapping) (w : Value) :
  canonicalize (VMapping m) = Ok w -> exists m', w = VMapping m'.
Proof.
  rewrite canonicalize_mapping_eq. destruct (collect_results _); [|done]. cbn. intros [= <-]. eauto.
Qed.

Lemma canonicalize_canonical_values (m m' : Mapping) (k : string) :
  keyed m -> (forall k v, map_get m k = Some v -> canonical v = true) ->
  canonicalize (VMapping m) = Ok (VMapping m') -> map_get m' k = map_get m k.
Proof.
  intros [_ Hn] Hv Hc. pose proof (canonicalize_lookup _ _ k Hc Hn) as Hk.
  destruct (map_get m k) as [v|] eqn:E; [|done]. destruct Hk as (v' & Hc' & ->).
  rewrite (canonicalize_fixed v) in Hc' by (by eapply Hv). congruence.
Qed.

Lemma zero_inbounds_values (m : Mapping) :
  canonical (VMapping m) = true ->
  forall k v, map_get (zero_inbounds m) k = Some v -> canonical v = true.
Proof.
  intros Hc k v. pose proof (canonical_get m k v Hc) as Hget. unfold zero_inbounds.
  rewrite map_get_modify, map_get_zero_listeners by (apply (bool_decide_unpack _); by vm_compute).
  destruct (map_get m k) as [w|] eqn:E.
  2:{ repeat case_decide; done. }
  pose proof (canonical_get _ _ _ Hc E) as Hw.
  case_decide as Ht.
  - subst k. rewrite decide_False by (apply (bool_decide_unpack _); by vm_compute).
    cbn. intros [= <-]. destruct w as [| | | | |tun|]; try done. cbn [via_mapping].
    case_decide; [|done]. rewrite canonical_mapping_eq, !andb_true_iff in Hw |- *.
    destruct Hw as [[Hs Hf] Hk]. destruct (map_insert_keys tun "enable" (VBool false) Hs) as [Hs' Hk'].
    assert ("enable" ∈ str_keys tun) as Hin.
    { destruct (map_get tun "enable") eqn:Hg; [by eapply map_get_Some_key|done]. }
    rewrite Hk', decide_True by done. repeat split; [done| |done]. by apply map_insert_forallb.
  - case_decide; [|congruence]. intros [= <-]. destruct (as_i64 w); [|done].
    by case_decide.
Qed.

Section PrepareProperties.
Context `{ConfigHost}.

(** The document a preparation starts from, and what it replaces it by. *)
Definition base_document (self : ConfigSnapshot) (zero : bool) : Mapping :=
  if zero then zero_inbounds (sn_document self) else sn_document self.

Lemma base_document_keyed self zero :
  canonical (VMapping (sn_document self)) = true -> keyed (base_document self zero).
Proof.
  intros Hc. unfold base_document. destruct zero; [apply zero_inbounds_keyed|]; by apply canonical_keyed.
Qed.

Lemma base_document_values self zero :
  canonical (VMapping (sn_document self)) = true ->
  forall k v, map_get (base_document self zero) k = Some v -> canonical v = true.
Proof.
  intros Hc k v. unfold base_document. destruct zero; [by apply zero_inbounds_values|].
  by apply canonical_get.
Qed.

Lemma path_join_nonempty (base rest : string) : rest <> "" -> path_join base rest <> "".
Proof.
  intros Hr. unfold path_join. destruct (is_absolute rest); [done|]. case_decide; [done|].
  destruct (ends_with _ _); intros Hj; apply (f_equal String.length) in Hj;
    rewrite !string_length_app in Hj; destruct rest; cbn in Hj; try done; lia.
Qed.

Lemma components_nonempty (p c : string) : c ∈ components p -> c <> "".
Proof.
  assert (forall l : list string, c ∈ filter (fun s => s <> "" /\ s <> ".") l -> c <> "") as Hf.
  { intros l [[Hc _] _]%list_elem_of_filter. done. }
  unfold components. destruct (is_absolute p).
  - intros [->|Hc]%elem_of_cons; [done|by eapply Hf].
  - destruct (segments p) as [|s l]; [by apply Hf|].
    assert (c ∈ filter (fun s => s <> "" /\ s <> ".") (s :: l) \/ c ∈ "." :: filter (fun s => s <> "" /\ s <> ".") l -> c <> "") as Hg.
    { intros [Hc|[->|Hc]%elem_of_cons]; [by eapply Hf|done|by eapply Hf]. }
    repeat case_match; intros Hc; apply Hg; try (by left); by right.
Qed.

Lemma file_name_nonempty (p f : string) : file_name p = Some f -> f <> "".
Proof.
  unfold file_name. destruct (last (components p)) as [c|] eqn:E; [|done].
  case_decide; [done|]. intros [= <-]. apply (components_nonempty p).
  apply last_Some in E as [l ->]. apply elem_of_app. right. by left.
Qed.

(** A rendered template is the file of a template in a directory inside the
    runtime directory. *)
Lemma managed_unix_endpoint_Ok (runtime_dir text endpoint : string) :
  managed_unix_endpoint runtime_dir text = Ok endpoint ->
  exists dir root file,
    endpoint = path_join dir file /\ file <> ""
    /\ fs_canonicalize runtime_dir = Ok root /\ path_starts_with dir root = true
    /\ file_name (if is_absolute text then text else path_join runtime_dir text) = Some file.
Proof.
  unfold managed_unix_endpoint. set (candidate := if is_absolute text then _ else _).
  destruct (parent candidate) as [p|]; [|done]. cbn.
  destruct (fs_canonicalize p) as [dir|]; [|done]. cbn.
  destruct (path_is_utf8 dir); [|done]. cbn.
  destruct (fs_canonicalize runtime_dir) as [root|]; [|done]. cbn.
  destruct (path_starts_with dir root) eqn:Es; [|done]. cbn.
  destruct (file_name candidate) as [f|] eqn:Ef; [|done]. cbn. intros [= <-].
  exists dir, root, f. repeat split; [|done..]. by eapply file_name_nonempty.
Qed.

Lemma core_socket_nonempty (e : N) : "core-" +:+ show_N e +:+ ".sock" <> "".
Proof. done. Qed.

Lemma managed_endpoint_nonempty (runtime_dir : string) (template : option string) (epoch : Epoch) endpoint :
  managed_endpoint_path runtime_dir template epoch = Ok endpoint -> endpoint <> "".
Proof.
  unfold managed_endpoint_path, render_endpoint_path.
  destruct (validate_controller_template template); [|done]. cbn [result_bind].
  destruct template as [text|].
  - intros (dir & root & f & -> & Hf & _)%managed_unix_endpoint_Ok. by apply path_join_nonempty.
  - intros [= <-]. apply path_join_nonempty, core_socket_nonempty.
Qed.

(** The bytes are the serialised document and the hash is theirs. *)
Definition prepared_consistent (pc : PreparedConfig) : Prop :=
  serialize_mapping (pc_document pc) = Ok (pc_bytes pc)
  /\ pc_effective_hash pc = semantic_hash (pc_bytes pc).

(** Preparation ends in a result. *)
Lemma prepare_returns self template runtime_dir epoch runtime settings zero :
  exists r, prepare self template runtime_dir epoch runtime settings zero = Return r.
Proof.
  unfold prepare. match goal with |- context [match ?x with Ok _ => _ | Err _ => _ end] =>
    destruct x as [document|e] end; [|by eexists].
  match goal with |- context [canonicalize (VMapping ?d)] =>
    destruct (canonicalize (VMapping d)) as [w|e] eqn:Ec end; [|by eexists].
  destruct (canonicalize_mapping_shape _ _ Ec) as [m' ->]. by eexists.
Qed.

Lemma from_bytes_canonical path raw self : from_bytes path raw = Ok self -> canonical (VMapping (sn_document self)) = true.
Proof.
  unfold from_bytes. destruct (yaml_from_slice raw) as [v|]; [|done]. cbn [result_bind].
  destruct (canonicalize v) as [w|] eqn:Ec; [|done]. cbn [result_bind]. destruct w as [| | | | |m|]; try done.
  destruct (serialize_mapping m); [|done]. cbn. intros [= <-]. exact (canonicalize_canonical _ _ Ec).
Qed.

Lemma prepared_parts self template runtime_dir epoch runtime settings zero pc :
  prepare self template runtime_dir epoch runtime settings zero = Return (Ok pc) ->
  prepared_consistent pc /\ canonical (VMapping (pc_document pc)) = true
  /\ pc_source_hash pc = sn_source_hash self
  /\ pc_rewrote_controller pc = bool_decide (LocalIpc ∈ runtime)
  /\ rc_secret (pc_controller pc) = str_value (pc_document pc) SECRET.
Proof.
  unfold prepare. match goal with |- context [match ?x with Ok _ => _ | Err _ => _ end] =>
    destruct x as [document|e] eqn:Er end; [|done].
  match goal with |- context [canonicalize (VMapping ?d)] =>
    destruct (canonicalize (VMapping d)) as [w|e] eqn:Ec end; [|done].
  destruct (canonicalize_mapping_shape _ _ Ec) as [m' ->]. intros [= Hpc].
  destruct (resolve_controller _) as [controller|] eqn:Ectl; [|done].
  cbn [result_bind] in Hpc. destruct (serialize_mapping m') as [bytes|] eqn:Es; [|done].
  cbn in Hpc. injection Hpc as <-.
  cbn [pc_document pc_source_hash pc_rewrote_controller pc_controller]. split; [by split|].
  split; [exact (canonicalize_canonical _ _ Ec)|]. split; [done|]. split; [done|].
  unfold resolve_controller in Ectl. destruct (ci_controller _) as [raw|]; [|done]. cbn [ok_or result_bind] in Ectl.
  destruct (match raw with Pipe _ => _ | Unix _ => _ | RawHttp _ => _ end) as [host|]; [|done]. cbn in Ectl.
  injection Ectl as <-. by case_bool_decide.
Qed.

(** With local IPC selected, the prepared epoch is reached through its own
    socket and nothing else.  The controller is the Unix socket of the epoch's
    endpoint, which fits a socket address; the document names that endpoint, has
    no pipe, has no HTTP controller unless the settings keep it, and every key
    that is not a controller key is the (bootstrap) source's. *)
Definition reached_through_its_socket (self : ConfigSnapshot) (template : option string) (runtime_dir : string)
    (epoch : Epoch) (settings : option LocalIpcSettings) (zero : bool) (pc : PreparedConfig) : Prop :=
  exists endpoint,
    managed_endpoint_path runtime_dir template epoch = Ok endpoint
    /\ (String.length endpoint < sun_path_length)%nat
    /\ rc_host (pc_controller pc) = UnixSocket endpoint
    /\ map_get (pc_document pc) EXTERNAL_CONTROLLER_UNIX = Some (VString endpoint)
    /\ map_get (pc_document pc) EXTERNAL_CONTROLLER_PIPE = None
    /\ ((forall s, settings = Some s -> li_keep_http_controller s = false) ->
          map_get (pc_document pc) EXTERNAL_CONTROLLER = None
          /\ map_get (pc_document pc) EXTERNAL_CONTROLLER_TLS = None)
    /\ (forall k, k ∉ [EXTERNAL_CONTROLLER; EXTERNAL_CONTROLLER_TLS; EXTERNAL_CONTROLLER_PIPE;
                      EXTERNAL_CONTROLLER_UNIX] ->
          map_get (pc_document pc) k = map_get (base_document self zero) k).
Lemma managed_controller_is_private self template runtime_dir epoch runtime settings zero pc :
  canonical (VMapping (sn_document self)) = true ->
  prepare self template runtime_dir epoch runtime settings zero = Return (Ok pc) ->
  LocalIpc ∈ runtime -> reached_through_its_socket self template runtime_dir epoch settings zero pc.
Proof.
  intros Hc Hp Hl. unfold prepare in Hp. rewrite (bool_decide_true _ Hl) in Hp.
  destruct (managed_endpoint_path _ _ _) as [endpoint|] eqn:Ee; [|done]. cbn [result_bind] in Hp.
  destruct (validate_socket_path endpoint) as [[]|] eqn:Ev; [|done]. cbn [result_bind negb andb] in Hp.
  fold (base_document self zero) in Hp.
  set (keep := match settings with Some s => li_keep_http_controller s | None => false end) in Hp.
  destruct (canonicalize _) as [w|] eqn:Ec in Hp; [|done].
  destruct (canonicalize_mapping_shape _ _ Ec) as [m' ->].
  assert (forall k, map_get m' k =
    map_get (rewrite_managed_controller (base_document self zero) endpoint keep) k) as Hm'.
  { intros k. eapply canonicalize_canonical_values; [| |exact Ec].
    - by apply rewrite_managed_keyed, base_document_keyed.
    - intros k' v. rewrite map_get_rewrite_managed by (by apply base_document_keyed).
      pose proof (base_document_values self zero Hc) as Hb.
      repeat case_decide; try done; [by intros [= <-]| |apply Hb].
      destruct keep; [apply Hb|done]. }
  setoid_rewrite map_get_rewrite_managed in Hm'; [|by apply base_document_keyed].
  exists endpoint. split; [done|].
  assert (String.length endpoint < sun_path_length)%nat as Hlen.
  { unfold validate_socket_path in Ev. destruct (str_has_nul endpoint); [done|].
    case_decide; [done|]. lia. }
  split; [done|].
  injection Hp as Hp. destruct (resolve_controller (inspect m')) as [ctl|] eqn:Ectl; [|done].
  cbn [result_bind] in Hp. destruct (serialize_mapping m') as [bytes|]; [|done].
  cbn in Hp. injection Hp as <-. cbn [pc_controller pc_document].
  split; [|split; [|split; [|split]]].
  - unfold resolve_controller, inspect in Ectl. cbn [ci_controller] in Ectl.
    assert (str_value m' EXTERNAL_CONTROLLER_UNIX = Some endpoint) as Hs.
    { unfold str_value. rewrite Hm', decide_True by done. cbn.
      pose proof (managed_endpoint_nonempty _ _ _ _ Ee). by destruct endpoint. }
    rewrite Hs in Ectl. cbn in Ectl. by injection Ectl as <-.
  - by rewrite Hm', decide_True.
  - by rewrite Hm'.
  - intros Hk. rewrite !Hm'. assert (keep = false) as ->; [|done].
    unfold keep. destruct settings as [s|]; [by apply Hk|done].
  - intros k Hk. rewrite Hm'. repeat case_decide; subst; try done; set_solver.
Qed.

(** Without local IPC the source stays authoritative: the controller is
    the HTTP address of the document, and when the instance carries local IPC
    settings the declared pipe and socket are removed; every other key is the
    (bootstrap) source's, so without settings and without bootstrap the
    document is the source's own. *)
Definition reached_over_http (self : ConfigSnapshot) (settings : option LocalIpcSettings) (zero : bool)
    (pc : PreparedConfig) : Prop :=
  (exists address, str_value (pc_document pc) EXTERNAL_CONTROLLER = Some address
     /\ Host_http (probe_address address) = Ok (rc_host (pc_controller pc)))
  /\ (settings <> None ->
        map_get (pc_document pc) EXTERNAL_CONTROLLER_PIPE = None
        /\ map_get (pc_document pc) EXTERNAL_CONTROLLER_UNIX = None)
  /\ (forall k, k ∉ [EXTERNAL_CONTROLLER_PIPE; EXTERNAL_CONTROLLER_UNIX] ->
        map_get (pc_document pc) k = map_get (base_document self zero) k)
  /\ (settings = None -> zero = false -> pc_document pc = sn_document self).
Lemma unmanaged_controller_is_http self template runtime_dir epoch runtime settings zero pc :
  canonical (VMapping (sn_document self)) = true ->
  prepare self template runtime_dir epoch runtime settings zero = Return (Ok pc) ->
  LocalIpc ∉ runtime -> reached_over_http self settings zero pc.
Proof.
  intros Hc Hp Hl. unfold prepare in Hp. rewrite (bool_decide_false _ Hl) in Hp.
  cbn [negb andb] in Hp. fold (base_document self zero) in Hp.
  pose proof (base_document_keyed self zero Hc) as Hk.
  set (document := if bool_decide (is_Some settings) then _ else _) in Hp.
  assert (forall k, map_get document k =
    if decide (settings <> None /\ k ∈ [EXTERNAL_CONTROLLER_PIPE; EXTERNAL_CONTROLLER_UNIX]) then None
    else map_get (base_document self zero) k) as Hdoc.
  { intros k. unfold document. destruct settings as [s|].
    - rewrite bool_decide_true by eauto. rewrite !map_get_remove by (try apply map_remove_keyed; done).
      repeat case_decide; try done; set_solver.
    - rewrite bool_decide_false by (by intros []). rewrite decide_False; [done|]. by intros [? _]. }
  destruct (canonicalize _) as [w|] eqn:Ec in Hp; [|done].
  destruct (canonicalize_mapping_shape _ _ Ec) as [m' ->].
  assert (forall k, map_get m' k = map_get document k) as Hm'.
  { intros k. eapply canonicalize_canonical_values; [| |exact Ec].
    - unfold document. case_bool_decide; [by repeat apply map_remove_keyed|done].
    - intros k' v. rewrite Hdoc. case_decide; [done|]. by apply base_document_values. }
  injection Hp as Hp. destruct (resolve_controller (inspect_http m')) as [ctl|] eqn:Ectl; [|done].
  cbn [result_bind] in Hp. destruct (serialize_mapping m') as [bytes|]; [|done].
  cbn in Hp. injection Hp as <-. unfold reached_over_http. cbn [pc_controller pc_document].
  split; [|split; [|split]].
  - unfold resolve_controller, inspect_http in Ectl. cbn [ci_controller] in Ectl.
    destruct (str_value m' EXTERNAL_CONTROLLER) as [address|]; [|done]. exists address.
    split; [done|]. cbn in Ectl. destruct (Host_http _); [|done]. cbn in Ectl.
    by injection Ectl as <-.
  - intros Hs. rewrite !Hm', !Hdoc, !decide_True by set_solver. done.
  - intros k Hin. rewrite Hm', Hdoc, decide_False; [done|]. by intros [_ ?].
  - intros -> ->. unfold document, base_document in Ec.
    rewrite bool_decide_false in Ec by (by intros []).
    rewrite canonicalize_fixed in Ec by done. by injection Ec as ->.
Qed.

(** C34: preparation answers, and what it returns hangs together.  For a snapshot that
    was loaded from a file, preparing an epoch never reaches its [unreachable!].  What it
    returns is a document in normal form with its serialisation and the hash of that, the
    hash of the source, the secret of that very document, and the controller at which a
    core that runs the document is reached: with local IPC selected the Unix socket of
    the epoch's endpoint, which fits a socket address and is the one the document names,
    with no pipe and, unless the settings keep it, no HTTP controller beside it; without
    it the HTTP address the document has, with no pipe and no socket where the instance
    has settings.  In both cases every other key is that of the source, its inbounds
    closed for a bootstrap. *)
Theorem prepare_is_consistent path raw self template runtime_dir epoch runtime settings zero :
  from_bytes path raw = Ok self ->
  exists r, prepare self template runtime_dir epoch runtime settings zero = Return r
  /\ forall pc, r = Ok pc ->
       serialize_mapping (pc_document pc) = Ok (pc_bytes pc)
       /\ pc_effective_hash pc = semantic_hash (pc_bytes pc)
       /\ pc_source_hash pc = sn_source_hash self
       /\ canonical (VMapping (pc_document pc)) = true
       /\ rc_secret (pc_controller pc) = str_value (pc_document pc) SECRET
       /\ (LocalIpc ∈ runtime -> reached_through_its_socket self template runtime_dir epoch settings zero pc)
       /\ (LocalIpc ∉ runtime -> reached_over_http self settings zero pc).
Proof.
  intros Hload%from_bytes_canonical. destruct (prepare_returns self template runtime_dir epoch runtime settings zero) as [r Hr].
  exists r. split; [done|]. intros pc ->. destruct (prepared_parts _ _ _ _ _ _ _ _ Hr) as ([Hb Hh] & Hc & Hs & _ & Hsec).
  split_and!; try done.
  - intros Hl. by eapply managed_controller_is_private.
  - intros Hl. by eapply unmanaged_controller_is_http.
Qed.

(** The default endpoints of two epochs of a manager are different
    sockets, so overlapping epochs never share a controller. *)
Theorem epochs_have_their_own_sockets (runtime_dir : string) (e1 e2 : Epoch) :
  managed_endpoint_path runtime_dir None e1 = managed_endpoint_path runtime_dir None e2 -> e1 = e2.
Proof.
  unfold managed_endpoint_path, render_endpoint_path. cbn. intros He. injection He as He.
  assert (forall n, is_absolute ("core-" +:+ show_N n +:+ ".sock") = false) as Habs by done.
  unfold path_join in He. rewrite !Habs in He.
  assert (forall a b c : string, a +:+ b = a +:+ c -> b = c) as Hinj.
  { induction a as [|x a IH]; intros b c; [done|]. rewrite !string_app_cons. intros [= Hx]. by apply IH. }
  assert ("core-" +:+ show_N (Epoch_get e1) +:+ ".sock" = "core-" +:+ show_N (Epoch_get e2) +:+ ".sock") as Hs.
  { repeat case_decide; [done|]. destruct (ends_with _ _); [by apply Hinj in He|].
    apply Hinj in He. by apply (Hinj "/") in He. }
  apply Hinj, string_app_inj_r, show_N_inj in Hs. unfold Epoch_get in Hs. congruence.
Qed.

(** An endpoint rendered from a template stays inside the runtime
    directory: it is a file, named by the last component of the rendered
    template, directly in a directory whose canonical path lies below the
    canonical runtime directory. *)
Theorem template_endpoint_is_contained (runtime_dir template endpoint : string) (epoch : Epoch) :
  managed_endpoint_path runtime_dir (Some template) epoch = Ok endpoint ->
  str_contains "{epoch}" template = true
  /\ exists dir root file,
       endpoint = path_join dir file
       /\ fs_canonicalize runtime_dir = Ok root /\ path_starts_with dir root = true
       /\ (let text := str_replace "{epoch}" (Epoch_fmt epoch) template in
           file_name (if is_absolute text then text else path_join runtime_dir text) = Some file).
Proof.
  unfold managed_endpoint_path, render_endpoint_path, validate_controller_template.
  destruct (str_contains "{epoch}" template); [|done]. cbn [result_bind].
  intros (dir & root & f & -> & _ & ? & ? & ?)%managed_unix_endpoint_Ok. split; [done|]. eauto 10.
Qed.

(** The change identity of a source ignores the order of its entries: two
    files whose documents differ only in the order of entries, at any depth,
    load as the same snapshot. *)
Theorem source_identity_ignores_order (path : string) (raw raw' : list Byte.byte) (v v' : Value) snapshot :
  yaml_from_slice raw = Ok v -> yaml_from_slice raw' = Ok v' -> reorders v v' ->
  from_bytes path raw = Ok snapshot -> from_bytes path raw' = Ok snapshot.
Proof.
  intros Hv Hv' Hr. unfold from_bytes. rewrite Hv, Hv'. cbn [result_bind].
  destruct (canonicalize v) as [w|] eqn:Ec; [|done]. by rewrite (canonicalize_reorders _ _ Hr _ Ec).
Qed.

(** Moving a prepared configuration to the native store keeps it
    consistent when it succeeds; the controller and the source hash are
    untouched, and the new document only rebases paths. *)
Theorem native_paths_keeps_consistency (pc pc' : PreparedConfig) kind source :
  native_paths pc kind source = (Ok tt, pc') ->
  prepared_consistent pc'
  /\ pc_controller pc' = pc_controller pc /\ pc_source_hash pc' = pc_source_hash pc
  /\ canonical (VMapping (pc_document pc')) = canonical (VMapping (pc_document pc)).
Proof.
  unfold native_paths. destruct (serialize_mapping _) as [bytes|] eqn:Es; [|done].
  intros [= <-]. split; [by split|]. cbn [pc_controller pc_source_hash pc_document].
  split; [done|]. split; [done|].
  symmetry. eapply rebased_canonical, rewrite_paths_preserving.
Qed.

End PrepareProperties.

(** ** Witnesses *)

(** A host whose configuration files hold one fixed document, whose YAML text
    is the first byte of the mode, and whose directories are canonical. *)
Definition plain_document : Mapping :=
  [(VString "external-controller", VString "0.0.0.0:9090"); (VString "mode", VString "rule")].
Definition plain_host : ConfigHost :=
  {| yaml_from_slice := fun raw =>
       match raw with
       | [] => Ok (VMapping plain_document)
       | _ => Ok (VMapping [(VString "mode", VString "rule");
                            (VString "external-controller", VString "0.0.0.0:9090")])
       end;
     yaml_to_string := fun m => Ok (str_join "," (str_keys m));
     Host_http := fun address => Ok (Http ("http://" +:+ address));
     fs_canonicalize := Ok; path_is_utf8 := fun _ => true |}.
Definition plain_snapshot : ConfigSnapshot :=
  {| sn_source_path := "/etc/core.yaml"; sn_document := plain_document; sn_source_hash := "0" |}.

(** The prepared epoch 7 of the plain source. *)
Definition plain_prepared (runtime : list RuntimeFeature) : PreparedConfig :=
  match prepare (H := plain_host) plain_snapshot None "/run/core" 7%positive runtime None false with
  | Return (Ok pc) => pc
  | _ =>
      {| pc_bytes := []; pc_document := []; pc_controller := {| rc_host := Http ""; rc_secret := None |};
         pc_rewrote_controller := false; pc_source_hash := ""; pc_effective_hash := "" |}
  end.

Lemma plain_loaded : from_bytes (H := plain_host) "/etc/core.yaml" [] = Ok
  {| sn_source_path := "/etc/core.yaml"; sn_document := plain_document;
     sn_source_hash := semantic_hash (bytes_of_string "external-controller,mode") |}.
Proof. vm_compute. reflexivity. Defined.

Lemma prepare_is_consistent_witness :
  let self := {| sn_source_path := "/etc/core.yaml"; sn_document := plain_document;
                 sn_source_hash := semantic_hash (bytes_of_string "external-controller,mode") |} in
  exists pc, prepare (H := plain_host) self None "/run/core" 7%positive [LocalIpc] None false = Return (Ok pc)
  /\ reached_through_its_socket (H := plain_host) self None "/run/core" 7%positive None false pc
  /\ rc_secret (pc_controller pc) = str_value (pc_document pc) SECRET.
Proof.
  intros self.
  destruct (prepare_is_consistent (H := plain_host) "/etc/core.yaml" [] self None "/run/core" 7%positive [LocalIpc] None false
    plain_loaded) as (r & Hr & Hpc).
  destruct r as [pc|e]; [|exfalso; vm_compute in Hr; discriminate Hr].
  exists pc. destruct (Hpc pc eq_refl) as (_ & _ & _ & _ & Hs & Hm & _).
  split; [exact Hr|]. split; [apply Hm; by left|exact Hs].
Defined.

Lemma epochs_have_their_own_sockets_witness : (3 = 3)%positive.
Proof. apply (epochs_have_their_own_sockets (H := plain_host) "/run/core"). reflexivity. Defined.

Lemma template_endpoint_is_contained_witness : str_contains "{epoch}" "ctl/{epoch}.sock" = true.
Proof.
  apply (template_endpoint_is_contained (H := plain_host) "/run/core" _ "/run/core/ctl/7.sock" 7%positive).
  vm_compute. reflexivity.
Defined.

Lemma source_identity_ignores_order_witness :
  exists snapshot, from_bytes (H := plain_host) "/etc/core.yaml" [Byte.x00] = Ok snapshot
    /\ sn_document snapshot = plain_document.
Proof.
  destruct (from_bytes (H := plain_host) "/etc/core.yaml" []) as [sn|] eqn:E; [|by vm_compute in E].
  exists sn. split.
  - apply (source_identity_ignores_order (H := plain_host) "/etc/core.yaml" [] [Byte.x00] _ _ sn
      eq_refl eq_refl); [|exact E].
    apply (reorders_swap [] (VString "external-controller", VString "0.0.0.0:9090")
      (VString "mode", VString "rule") []). discriminate.
  - vm_compute in E. by injection E as <-.
Defined.

Lemma native_paths_keeps_consistency_witness :
  prepared_consistent (H := plain_host) (native_paths (H := plain_host) (plain_prepared []) Mihomo "/etc").2.
Proof.
  apply (native_paths_keeps_consistency (H := plain_host) (plain_prepared []) _ Mihomo "/etc").
  vm_compute. reflexivity.
Defined.
