(* ===== verification/LogSink.v ===== *)
(** * The log archive ([log_sink.rs])

    The writer that appends the console records of a core to numbered files,
    rotates them by size and keeps the newest.  The directory is private to the
    service; every system call may fail, and a write that fails may leave any
    prefix of its bytes.  The text of a record is a parameter: it comes from
    [serde_json]. *)

From Stdlib Require Import Sorted.
From stdpp Require Import sorting.
From S2P Require Import Prelude Types LogParser.
Open Scope rust_scope.

(** ** Names *)

Definition LOG_DIR_NAME : string := "logs".
Definition FILE_PREFIX : string := "core-".
Definition FILE_SUFFIX : string := ".jsonl".
Definition MAX_BATCH_RECORDS : nat := 256.

Fixpoint zeros (n : nat) : string := match n with O => "" | S n => String "0"%char (zeros n) end.
(** [{:0w$}] of a number. *)
Definition pad_zero (w : nat) (s : string) : string := zeros (w - String.length s) +:+ s.
Definition file_name (seq : N) : string := FILE_PREFIX +:+ pad_zero 6 (show_N seq) +:+ FILE_SUFFIX.
Definition file_seq (name : string) : option N :=
  rest ← strip_prefix FILE_PREFIX name;
  digits ← strip_suffix FILE_SUFFIX rest;
  if bool_decide (digits <> "") && str_all is_digit digits then parse_u64 digits else None.

#[local] Arguments file_seq : simpl never.
#[local] Arguments file_name : simpl never.

(** ** The directory *)

(** What a system call does: all of it; nothing or, for a write, the first
    bytes; for a write, everything but the flush, with the bytes that arrived. *)
Inductive Answer := AOk | AFail (written : nat) | AUnflushed (written : nat).

(** The regular files with their contents, and the answers to come; behind the
    last one every call succeeds. *)
Record Disk := { dk_files : gmap string string; dk_answers : list Answer }.
Definition with_files (files : gmap string string) (d : Disk) : Disk :=
  {| dk_files := files; dk_answers := dk_answers d |}.
Definition syscall (d : Disk) : Answer * Disk :=
  match dk_answers d with
  | [] => (AOk, d)
  | a :: rest => (a, {| dk_files := dk_files d; dk_answers := rest |})
  end.

(** What [symlink_metadata] says of the directory itself. *)
Inductive DirNode := DMissing | DDirectory | DOther | DUnknown (error : Error).
(** [prepare_dir]: the path, or why there is none; the answers are those of
    [create_dir_all] and [set_permissions]. *)
Definition prepare_dir (parent : string) (node : DirNode) (created permitted : result () Error) : result string Error :=
  let dir := path_join parent LOG_DIR_NAME in
  let? _ := match node with
            | DDirectory => Ok tt
            | DOther => Err (UnsafeRuntimeArtifact dir)
            | DMissing => created
            | DUnknown error => Err error
            end in
  let? _ := permitted in
  Ok dir.

(** ** Retention *)

Fixpoint insert_desc (seq : N) (l : list N) : list N :=
  match l with
  | [] => [seq]
  | x :: rest => if decide (x <= seq) then seq :: l else x :: insert_desc seq rest
  end.
(** [sort_unstable_by_key] on the reversed order. *)
Definition sort_desc (seqs : list N) : list N := foldr insert_desc [] seqs.

Definition prune_targets (seqs : list N) (max_files : nat) : list N := drop max_files (sort_desc seqs).

Definition log_seqs (files : gmap string string) : list N := omap file_seq (elements (dom files)).
Definition read_seqs (d : Disk) : option (list N) * Disk :=
  let '(a, d) := syscall d in
  (match a with AOk => Some (log_seqs (dk_files d)) | _ => None end, d).
Definition remove_file (d : Disk) (name : string) : Disk :=
  let '(a, d) := syscall d in
  match a with AOk => with_files (delete name (dk_files d)) d | _ => d end.
Definition prune_dir (keep : nat) (protect : option N) (d : Disk) : Disk :=
  let '(existing, d) := read_seqs d in
  match existing with
  | None => d
  | Some seqs =>
      fold_left remove_file
        (file_name <$> filter (fun seq => Some seq <> protect) (prune_targets seqs keep)) d
  end.
Definition next_seq (d : Disk) : option N * Disk :=
  let '(existing, d) := read_seqs d in
  ((fun seqs => (foldr N.max 0 seqs + 1) mod u64_modulus) <$> existing, d).

(** ** The writer *)

Record SinkOptions := { so_max_bytes : N; so_max_files : nat }.

(** The active file and what was counted of it. *)
Record Writer := { wr_seq : N; wr_written : N }.

(** [create]: the file is opened for appending when it is there already. *)
Definition create (seq : N) (d : Disk) : bool * Disk :=
  let '(a, d) := syscall d in
  match a with
  | AOk => (true, with_files (<[file_name seq := default "" (dk_files d !! file_name seq)]> (dk_files d)) d)
  | _ => (false, d)
  end.

Inductive Entry := ELog (frame : LogFrame) | EGap (dropped : N).
(** A line of the archive. *)
Inductive SinkRecord := LogRecord (frame : LogFrame) | GapRecord (at_ : Z) (dropped : N).
Definition record_of (at_ : Z) (entry : Entry) : SinkRecord :=
  match entry with ELog frame => LogRecord frame | EGap dropped => GapRecord at_ dropped end.

Section Sink.
Context (to_json : SinkRecord -> option string) (options : SinkOptions).

Definition Writer_open (d : Disk) : option Writer * Disk :=
  let '(seq, d) := next_seq d in
  match seq with
  | None => (None, d)
  | Some seq =>
      let d := prune_dir (so_max_files options - 1) None d in
      let '(opened, d) := create seq d in
      (if opened then Some {| wr_seq := seq; wr_written := 0 |} else None, d)
  end.

Definition append_file (seq : N) (text : string) (d : Disk) : Disk :=
  with_files (alter (fun contents => contents +:+ text) (file_name seq) (dk_files d)) d.

Definition flush_pending (buffer : string) (w : Writer) (d : Disk) : Writer * Disk :=
  if decide (buffer = "") then (w, d)
  else
    let counted := {| wr_seq := wr_seq w; wr_written := wr_written w + N.of_nat (String.length buffer) |} in
    let '(a, d) := syscall d in
    match a with
    | AOk => (counted, append_file (wr_seq w) buffer d)
    | AFail n => (w, append_file (wr_seq w) (String.substring 0 n buffer) d)
    | AUnflushed n => (counted, append_file (wr_seq w) (String.substring 0 n buffer) d)
    end.

Definition rotate (w : Writer) (d : Disk) : Writer * Disk :=
  let seq := (wr_seq w + 1) mod u64_modulus in
  let d := prune_dir (so_max_files options - 1) (Some (wr_seq w)) d in
  let '(opened, d) := create seq d in
  if opened
  then ({| wr_seq := seq; wr_written := 0 |}, prune_dir (so_max_files options) (Some seq) d)
  else (w, d).

Fixpoint write_entries (at_ : Z) (batch : list Entry) (buffer : string) (w : Writer) (d : Disk) : Writer * Disk :=
  match batch with
  | [] => flush_pending buffer w d
  | entry :: batch =>
      let '(buffer, w, d) :=
        if decide (so_max_bytes options <= wr_written w + N.of_nat (String.length buffer)) then
          let '(w, d) := flush_pending buffer w d in
          let '(w, d) := rotate w d in
          ("", w, d)
        else (buffer, w, d) in
      let buffer := match to_json (record_of at_ entry) with
                    | Some line => buffer +:+ line +:+ nl
                    | None => buffer
                    end in
      write_entries at_ batch buffer w d
  end.
Definition write (at_ : Z) (batch : list Entry) (w : Writer) (d : Disk) : Writer * Disk :=
  if decide (batch = []) then (w, d) else write_entries at_ batch "" w d.

(** ** The task *)

(** What the broadcast channel answers. *)
Inductive Received := RcFrame (frame : LogFrame) | RcLagged (dropped : N) | RcEmpty | RcClosed.

(** [drain]: what it appends to the batch, and whether the channel is closed;
    the answers of [try_recv] end with an empty channel. *)
Fixpoint drain (answers : list Received) (batch : list Entry) : list Entry * bool :=
  if decide (length batch < MAX_BATCH_RECORDS)%nat then
    match answers with
    | [] | RcEmpty :: _ => (batch, false)
    | RcClosed :: _ => (batch, true)
    | RcFrame frame :: answers => drain answers (batch ++ [ELog frame])
    | RcLagged dropped :: answers => drain answers (batch ++ [EGap dropped])
    end
  else (batch, false).

(** The arm of the [select!]: the cancellation, or what [recv] waited for. *)
Inductive First := Cancelled | Got (entry : Entry) | Closed.
(** One turn of the loop: its arm, the answers a [drain] finds behind it, and
    the clock of the write. *)
Record Turn := { tn_first : First; tn_rest : list Received; tn_at : Z }.
(** The batch of a turn, and whether the task ends behind its write. *)
Definition turn_batch (t : Turn) : list Entry * bool :=
  match tn_first t with
  | Cancelled =>
      let '(batch, closed) := drain (tn_rest t) [] in
      (batch, closed || bool_decide (length batch < MAX_BATCH_RECORDS)%nat)
  | Closed => ([], true)
  | Got entry => drain (tn_rest t) [entry]
  end.

Fixpoint run (turns : list Turn) (w : Writer) (d : Disk) : Writer * Disk :=
  match turns with
  | [] => (w, d)
  | t :: turns =>
      let '(batch, done) := turn_batch t in
      let '(w, d) := write (tn_at t) batch w d in
      if done then (w, d) else run turns w d
  end.

(** [spawn] and the task it leaves behind; without a writer there is none. *)
Definition spawn (turns : list Turn) (d : Disk) : option Writer * Disk :=
  let '(w, d) := Writer_open d in
  match w with
  | None => (None, d)
  | Some w => let '(w, d) := run turns w d in (Some w, d)
  end.

(** ** What the archive holds *)

(** The files of a listing, the newest first, read in the order they were
    written in. *)
Fixpoint chain (files : gmap string string) (l : list N) : string :=
  match l with
  | [] => ""
  | seq :: older => chain files older +:+ default "" (files !! file_name seq)
  end.
Definition archive (files : gmap string string) : string := chain files (sort_desc (log_seqs files)).

(** The lines of a batch, and of all that the task writes. *)
Definition line_of (at_ : Z) (entry : Entry) : string :=
  match to_json (record_of at_ entry) with Some line => line +:+ nl | None => "" end.
Fixpoint batch_text (at_ : Z) (batch : list Entry) : string :=
  match batch with [] => "" | entry :: batch => line_of at_ entry +:+ batch_text at_ batch end.
Fixpoint stream (turns : list Turn) : string :=
  match turns with
  | [] => ""
  | t :: turns =>
      let '(batch, done) := turn_batch t in
      batch_text (tn_at t) batch +:+ if done then "" else stream turns
  end.
Definition load (turns : list Turn) : N := foldr (fun t n => N.of_nat (length (turn_batch t).1) + n) 0 turns.

(** Every file that is taken for one of the archive is one of the writer. *)
Definition Own (files : gmap string string) : Prop :=
  forall name seq, file_seq name = Some seq -> is_Some (files !! name) -> name = file_name seq.

(** *** Names *)

Lemma radix_zeros n modulus acc s : acc = 0 -> 0 < modulus -> radix_digits 10 modulus acc (zeros n +:+ s) = radix_digits 10 modulus acc s.
Proof.
  intros -> Hm. induction n as [|n IH]; [done|]. cbn [zeros]. rewrite string_app_cons. cbn [radix_digits].
  change (digit_value "0"%char) with (Some 0). cbn [mbind option_bind]. rewrite decide_True by lia.
  by rewrite decide_True by lia.
Qed.
Lemma zeros_digits n : str_all is_digit (zeros n) = true.
Proof. by induction n. Qed.
Lemma pad_digits w n : str_all is_digit (pad_zero w (show_N n)) = true.
Proof. unfold pad_zero. by rewrite str_all_app, zeros_digits, show_N_digits. Qed.
Lemma pad_nonempty w n : pad_zero w (show_N n) <> "".
Proof.
  unfold pad_zero. pose proof (show_N_nonempty n). destruct (zeros _); [by rewrite string_app_nil_l|]. by rewrite string_app_cons.
Qed.
Lemma file_seq_name n : n < u64_modulus -> file_seq (file_name n) = Some n.
Proof.
  intros Hn. unfold file_seq, file_name. rewrite strip_prefix_app. cbn [mbind option_bind]. rewrite strip_suffix_app.
  cbn [mbind option_bind]. rewrite bool_decide_true by apply pad_nonempty. rewrite pad_digits. cbn [andb].
  unfold parse_u64. rewrite from_str_radix_digits.
  - unfold pad_zero. rewrite radix_zeros by done. rewrite <- (from_str_radix_digits 10).
    + by apply from_str_radix_show.
    + apply show_N_nonempty.
    + eapply str_all_impl, show_N_digits. intros a. by apply is_digit_not.
  - apply pad_nonempty.
  - eapply str_all_impl, pad_digits. intros a. by apply is_digit_not.
Qed.
Lemma file_name_inj n m : n < u64_modulus -> m < u64_modulus -> file_name n = file_name m -> n = m.
Proof. intros Hn Hm He. pose proof (file_seq_name n Hn) as H. rewrite He, file_seq_name in H by done. by injection H. Qed.
Lemma file_seq_bound name seq : file_seq name = Some seq -> seq < u64_modulus.
Proof.
  unfold file_seq. intros (rest & _ & (digits & _ & H)%bind_Some)%bind_Some. destruct (_ && _); [|done].
  unfold parse_u64, from_str_radix in H.
  destruct digits as [|a digits]; [done|]. destruct (decide (a = "+"%char)) as [->|Ha].
  - destruct digits; [done|]. by eapply radix_digits_bound in H.
  - assert (radix_digits 10 u64_modulus 0 (String a digits) = Some seq) as H'.
    { destruct a as [[] [] [] [] [] [] [] []]; try exact H; by destruct Ha. }
    by eapply radix_digits_bound in H'.
Qed.

(** *** Listings *)

Lemma insert_desc_Permutation seq l : insert_desc seq l ≡ₚ seq :: l.
Proof. induction l as [|x l IH]; [done|]. cbn. case_decide; [done|]. rewrite IH. apply Permutation_swap. Qed.
Lemma sort_desc_Permutation l : sort_desc l ≡ₚ l.
Proof. induction l as [|x l IH]; [done|]. cbn. by rewrite insert_desc_Permutation, IH. Qed.

Definition above (x y : N) : Prop := y <= x.
Lemma insert_desc_sorted seq l : StronglySorted above l -> StronglySorted above (insert_desc seq l).
Proof.
  induction 1 as [|x l Hl IH Hx]; cbn; [by repeat constructor|]. case_decide as Hd.
  - constructor; [by constructor|]. constructor; [done|]. eapply Forall_impl; [exact Hx|]. unfold above. intros; lia.
  - constructor; [done|]. rewrite insert_desc_Permutation. constructor; [unfold above; lia|done].
Qed.
Lemma sort_desc_sorted l : StronglySorted above (sort_desc l).
Proof. induction l; [constructor|]. by apply insert_desc_sorted. Qed.
Lemma sort_desc_unique l l' : StronglySorted above l' -> l ≡ₚ l' -> sort_desc l = l'.
Proof.
  intros Hs Hp. apply (StronglySorted_unique_strong above); [|apply sort_desc_sorted|done|by rewrite sort_desc_Permutation].
  intros x y _ _ ??. unfold above in *. lia.
Qed.

(** [l] lists the numbers of the archive, the newest first. *)
Definition Listed (files : gmap string string) (l : list N) : Prop :=
  StronglySorted N.gt l /\ Own files
  /\ forall seq, seq ∈ l <-> seq < u64_modulus /\ is_Some (files !! file_name seq).

Lemma elem_of_log_seqs files seq : seq ∈ log_seqs files <-> exists name, is_Some (files !! name) /\ file_seq name = Some seq.
Proof.
  unfold log_seqs. rewrite list_elem_of_omap. split.
  - intros (name & Hin & Hs). exists name. rewrite elem_of_elements, elem_of_dom in Hin. done.
  - intros (name & Hin & Hs). exists name. by rewrite elem_of_elements, elem_of_dom.
Qed.
Lemma elem_of_own files seq : Own files -> seq ∈ log_seqs files <-> seq < u64_modulus /\ is_Some (files !! file_name seq).
Proof.
  intros Ho. rewrite elem_of_log_seqs. split.
  - intros (name & Hin & Hs). rewrite (Ho _ _ Hs Hin) in Hin. split; [by eapply file_seq_bound|done].
  - intros [Hs Hin]. exists (file_name seq). by rewrite file_seq_name.
Qed.
Lemma NoDup_log_seqs files : Own files -> NoDup (log_seqs files).
Proof.
  intros Ho. unfold log_seqs.
  assert (forall names, NoDup names -> (forall name, name ∈ names -> is_Some (files !! name)) -> NoDup (omap file_seq names)) as H.
  { induction 1 as [|name names Hn Hnames IH]; intros Hin; cbn; [constructor|].
    destruct (file_seq name) as [seq|] eqn:Hs; [|apply IH; intros; apply Hin; by right].
    constructor; [|apply IH; intros; apply Hin; by right].
    rewrite list_elem_of_omap. intros (other & Hother & Hs'). apply Hn.
    rewrite (Ho name seq Hs) by (apply Hin; left). by rewrite <- (Ho other seq Hs') by (apply Hin; by right). }
  apply H; [apply NoDup_elements|]. intros name. by rewrite elem_of_elements, elem_of_dom.
Qed.
Lemma gt_above l : StronglySorted N.gt l -> StronglySorted above l.
Proof.
  induction 1 as [|x l Hl IH Hx]; constructor; [done|]. eapply Forall_impl; [exact Hx|]. unfold above. intros; lia.
Qed.
Lemma gt_NoDup l : StronglySorted N.gt l -> NoDup l.
Proof.
  induction 1 as [|x l Hl IH Hx]; constructor; [|done]. intros Hin. rewrite Forall_forall in Hx. specialize (Hx _ Hin). lia.
Qed.
Lemma above_gt l : StronglySorted above l -> NoDup l -> StronglySorted N.gt l.
Proof.
  induction 1 as [|x l Hl IH Hx]; intros Hn; [constructor|]. apply NoDup_cons in Hn as [Hn1 Hn]. constructor; [by apply IH|].
  apply Forall_forall. intros y Hy. rewrite Forall_forall in Hx. specialize (Hx _ Hy). unfold above in Hx.
  assert (y <> x) by (by intros ->). lia.
Qed.

Lemma listed_sort files l : Listed files l -> sort_desc (log_seqs files) = l.
Proof.
  intros (Hs & Ho & Hl). apply sort_desc_unique; [by apply gt_above|]. apply NoDup_Permutation; [by apply NoDup_log_seqs|by apply gt_NoDup|].
  intros seq. by rewrite Hl, elem_of_own.
Qed.
Lemma own_listed files : Own files -> Listed files (sort_desc (log_seqs files)).
Proof.
  intros Ho. split; [|split; [done|]].
  - apply above_gt; [apply sort_desc_sorted|]. rewrite sort_desc_Permutation. by apply NoDup_log_seqs.
  - intros seq. by rewrite sort_desc_Permutation, elem_of_own.
Qed.
Lemma listed_archive files l : Listed files l -> archive files = chain files l.
Proof. intros Hl. unfold archive. by rewrite (listed_sort _ _ Hl). Qed.

Lemma chain_ext files files' l : (forall seq, seq ∈ l -> files' !! file_name seq = files !! file_name seq) -> chain files' l = chain files l.
Proof. induction l as [|x l IH]; intros Hf; [done|]. cbn. rewrite IH, Hf; [done|left|]. intros. apply Hf. by right. Qed.
Lemma chain_split files k l : chain files l = chain files (drop k l) +:+ chain files (take k l).
Proof.
  revert k. induction l as [|x l IH]; intros [|k]; cbn; try done; [by rewrite string_app_nil_r|].
  by rewrite (IH k), string_app_assoc.
Qed.

Lemma sorted_sublist (P : N -> Prop) `{forall x, Decision (P x)} l : StronglySorted N.gt l -> StronglySorted N.gt (filter P l).
Proof.
  induction 1 as [|x l Hl IH Hx]; [constructor|]. rewrite filter_cons. case_decide; [|done]. constructor; [done|].
  apply Forall_forall. intros y [_ Hy]%list_elem_of_filter. rewrite Forall_forall in Hx. by apply Hx.
Qed.
Lemma sorted_take k l : StronglySorted N.gt l -> StronglySorted N.gt (take k l).
Proof.
  intros Hl. revert k. induction Hl as [|x l Hl IH Hx]; intros [|k]; cbn; try constructor; [done|]. by apply Forall_take.
Qed.
Lemma elem_of_take_drop k (l : list N) x : NoDup l -> x ∈ take k l <-> x ∈ l /\ x ∉ drop k l.
Proof.
  intros Hn. rewrite <- (take_drop k l) in Hn |- * at 2. rewrite elem_of_app. apply NoDup_app in Hn as (_ & Hd & _).
  split; [|tauto]. intros Hx. split; [by left|by apply Hd].
Qed.

(** ** The archive is only appended to *)

Lemma syscall_files d : dk_files (syscall d).2 = dk_files d.
Proof. unfold syscall. by destruct (dk_answers d). Qed.
Lemma remove_file_lookup d name other :
  dk_files (remove_file d name) !! other = dk_files d !! other
  \/ other = name /\ dk_files (remove_file d name) !! other = None.
Proof.
  unfold remove_file. pose proof (syscall_files d) as Hd. destruct (syscall d) as [a d1]. cbn in Hd.
  destruct a; cbn; rewrite ?Hd; [|by left..]. destruct (decide (other = name)) as [->|Hn].
  - right. by rewrite lookup_delete_eq.
  - left. by rewrite lookup_delete_ne.
Qed.
Lemma remove_files_lookup names d other :
  dk_files (fold_left remove_file names d) !! other = dk_files d !! other
  \/ other ∈ names /\ dk_files (fold_left remove_file names d) !! other = None.
Proof.
  revert d. induction names as [|name names IH]; intros d; cbn; [by left|].
  destruct (IH (remove_file d name)) as [H|[H1 H2]]; [|right; split; [by right|done]].
  destruct (remove_file_lookup d name other) as [H'|[-> H']]; rewrite H, H'; [by left|right]. split; [left|done].
Qed.
Lemma prune_dir_lookup keep protect d name :
  dk_files (prune_dir keep protect d) !! name = dk_files d !! name
  \/ dk_files (prune_dir keep protect d) !! name = None
     /\ exists seq, name = file_name seq /\ seq ∈ log_seqs (dk_files d) /\ Some seq <> protect.
Proof.
  unfold prune_dir, read_seqs. pose proof (syscall_files d) as Hd. destruct (syscall d) as [a d1]. cbn in Hd. rewrite Hd.
  destruct a; [|left; by rewrite Hd..].
  destruct (remove_files_lookup (file_name <$> filter (fun seq => Some seq <> protect) (prune_targets (log_seqs (dk_files d)) keep)) d1 name)
    as [H|[Hin H]]; rewrite H, ?Hd; [by left|right]. split; [done|].
  apply list_elem_of_fmap in Hin as (seq & -> & [Hp Hs]%list_elem_of_filter). exists seq. split; [done|]. split; [|done].
  unfold prune_targets in Hs. rewrite <- sort_desc_Permutation, <- (take_drop keep (sort_desc _)). apply elem_of_app. by right.
Qed.

(** No file of the archive is younger than the active one. *)
Definition Top (seq : N) (files : gmap string string) : Prop := forall n, n ∈ log_seqs files -> n <= seq.

Definition extends (old new : option string) : Prop :=
  match old with Some c => new = None \/ exists t, new = Some (c +:+ t) | None => True end.
(** What writing does to the directory: files are removed, extended, or new and
    younger; the active one stays. *)
Record Grew (seq : N) (files : gmap string string) (seq' : N) (files' : gmap string string) : Prop := {
  grew_seq : seq <= seq';
  grew_top : Top seq' files';
  grew_file name : extends (files !! name) (files' !! name);
  grew_new name : files !! name = None -> files' !! name <> None -> exists n, name = file_name n /\ seq < n <= seq' /\ n < u64_modulus;
  grew_active : is_Some (files !! file_name seq) -> is_Some (files' !! file_name seq');
  grew_other name : file_seq name = None -> files' !! name = files !! name;
}.

Lemma extends_trans a b c : b <> None \/ c = None \/ a = None -> extends a b -> extends b c -> extends a c.
Proof.
  destruct a as [a|]; [|done]. cbn. intros Hb [->|(t & ->)]; [destruct Hb as [?|[?|?]]; [done|by left|done]|].
  cbn. intros [->|(t' & ->)]; [by left|right]. exists (t +:+ t'). by rewrite string_app_assoc.
Qed.
Lemma grew_refl seq files : Top seq files -> Grew seq files seq files.
Proof.
  intros Ht. split; try done. intros name. destruct (files !! name) as [c|] eqn:Hc; cbn; [right|done]. exists "". by rewrite string_app_nil_r.
Qed.
Lemma elem_of_name files seq : seq < u64_modulus -> is_Some (files !! file_name seq) -> seq ∈ log_seqs files.
Proof. intros Hs Hf. apply elem_of_log_seqs. exists (file_name seq). by rewrite file_seq_name. Qed.
Lemma grew_trans seq files seq1 files1 seq2 files2 :
  Top seq files -> Grew seq files seq1 files1 -> Grew seq1 files1 seq2 files2 -> Grew seq files seq2 files2.
Proof.
  intros Ht H1 H2. pose proof (grew_seq _ _ _ _ H1). pose proof (grew_seq _ _ _ _ H2). split.
  - lia.
  - by apply (grew_top _ _ _ _ H2).
  - intros name. eapply extends_trans; [|apply (grew_file _ _ _ _ H1)|apply (grew_file _ _ _ _ H2)].
    destruct (files1 !! name) eqn:E1; [by left|right]. destruct (files2 !! name) eqn:E2; [|by left].
    destruct (grew_new _ _ _ _ H2 name) as (n & -> & Hn & Hb); [done|by rewrite E2|].
    destruct (files !! file_name n) eqn:E; [|by right]. assert (n <= seq); [|lia]. apply Ht, elem_of_name; [done|by rewrite E].
  - intros name Hn Hn2. destruct (files1 !! name) eqn:E1.
    + destruct (grew_new _ _ _ _ H1 name Hn) as (n & ? & ? & ?); [by rewrite E1|]. exists n. split; [done|]. split; [lia|done].
    + destruct (grew_new _ _ _ _ H2 name E1 Hn2) as (n & ? & ? & ?). exists n. split; [done|]. split; [lia|done].
  - intros Ha. by apply (grew_active _ _ _ _ H2), (grew_active _ _ _ _ H1).
  - intros name Hn. by rewrite (grew_other _ _ _ _ H2), (grew_other _ _ _ _ H1).
Qed.

Lemma file_name_seq_ne name seq : seq < u64_modulus -> file_seq name = None -> name <> file_name seq.
Proof. intros Hs Hn ->. by rewrite file_seq_name in Hn. Qed.
Lemma log_seqs_bound files seq : seq ∈ log_seqs files -> seq < u64_modulus.
Proof. intros (name & _ & Hs)%elem_of_log_seqs. by eapply file_seq_bound. Qed.

Lemma grew_prune keep seq d : Top seq (dk_files d) -> seq < u64_modulus -> Grew seq (dk_files d) seq (dk_files (prune_dir keep (Some seq) d)).
Proof.
  intros Ht Hs. pose proof (prune_dir_lookup keep (Some seq) d) as Hp. split.
  - lia.
  - intros n (name & Hin & Hn)%elem_of_log_seqs. apply Ht, elem_of_log_seqs. exists name. split; [|done].
    destruct (Hp name) as [H|[H _]]; rewrite H in Hin; [done|by destruct Hin].
  - intros name. destruct (Hp name) as [H|[H _]]; rewrite H; destruct (dk_files d !! name) as [c|]; cbn; try done; [right|by left].
    exists "". by rewrite string_app_nil_r.
  - intros name Hn. destruct (Hp name) as [H|[H _]]; rewrite H; [by rewrite Hn|done].
  - destruct (Hp (file_name seq)) as [->|(_ & n & He & Hin & Hne)]; [done|]. apply file_name_inj in He as ->; [done|done|by eapply log_seqs_bound].
  - intros name Hn. destruct (Hp name) as [H|(_ & n & He & Hin & _)]; [done|]. by eapply file_name_seq_ne in He; [|by eapply log_seqs_bound|].
Qed.
Lemma grew_append seq text d : Top seq (dk_files d) -> seq < u64_modulus -> Grew seq (dk_files d) seq (dk_files (append_file seq text d)).
Proof.
  intros Ht Hs. unfold append_file, with_files. cbn. set (files' := alter _ _ _).
  assert (Hl : forall name, files' !! name = if decide (name = file_name seq) then (fun c => c +:+ text) <$> dk_files d !! name else dk_files d !! name).
  { intros name. unfold files'. case_decide as Hn; [subst name; apply lookup_alter_eq|by apply lookup_alter_ne]. }
  split.
  - lia.
  - intros n (name & Hin & Hn)%elem_of_log_seqs. apply Ht, elem_of_log_seqs. exists name. split; [|done].
    rewrite Hl in Hin. case_decide; [by apply fmap_is_Some in Hin|done].
  - intros name. rewrite Hl. destruct (dk_files d !! name) as [c|]; cbn; [right|done]. case_decide; cbn; [by exists text|].
    exists "". by rewrite string_app_nil_r.
  - intros name Hn. rewrite Hl, Hn. by case_decide.
  - rewrite Hl, decide_True by done. by rewrite fmap_is_Some.
  - intros name Hn. rewrite Hl, decide_False by (by apply file_name_seq_ne). done.
Qed.

Lemma grew_same seq d d' : dk_files d' = dk_files d -> Top seq (dk_files d) -> Grew seq (dk_files d) seq (dk_files d').
Proof. intros ->. apply grew_refl. Qed.
Lemma grew_create seq d :
  Top seq (dk_files d) -> seq + 1 < u64_modulus -> (create (seq + 1) d).1 = true ->
  Grew seq (dk_files d) (seq + 1) (dk_files (create (seq + 1) d).2).
Proof.
  intros Ht Hs. unfold create. pose proof (syscall_files d) as Hd. destruct (syscall d) as [a d1]. cbn in Hd. destruct a; [|done..].
  cbn. rewrite Hd. intros _. set (new := file_name (seq + 1)).
  assert (Hn : dk_files d !! new = None).
  { destruct (dk_files d !! new) eqn:E; [|done]. assert (seq + 1 <= seq); [|lia]. apply Ht, elem_of_name; [done|]. fold new. by rewrite E. }
  rewrite Hn. cbn. split.
  - lia.
  - intros n (name & Hin & Hm)%elem_of_log_seqs. destruct (decide (name = new)) as [->|Hne].
    { unfold new in Hm. rewrite file_seq_name in Hm by done. injection Hm as <-. lia. }
    rewrite lookup_insert_ne in Hin by done. assert (n <= seq); [|lia]. apply Ht, elem_of_log_seqs. by exists name.
  - intros name. destruct (decide (name = new)) as [->|Hne]; [by rewrite Hn|]. rewrite lookup_insert_ne by done.
    destruct (dk_files d !! name); cbn; [right|done]. exists "". by rewrite string_app_nil_r.
  - intros name Hnone. destruct (decide (name = new)) as [->|Hne]; [intros _; exists (seq + 1); split; [done|]; split; [lia|done]|].
    by rewrite lookup_insert_ne, Hnone.
  - intros _. by rewrite lookup_insert_eq.
  - intros name Hf. by rewrite lookup_insert_ne by (by apply not_eq_sym, file_name_seq_ne).
Qed.

Lemma grew_flush buffer w d :
  Top (wr_seq w) (dk_files d) -> wr_seq w < u64_modulus ->
  let '(w', d') := flush_pending buffer w d in wr_seq w' = wr_seq w /\ Grew (wr_seq w) (dk_files d) (wr_seq w) (dk_files d').
Proof.
  intros Ht Hs. unfold flush_pending. case_decide; [split; [done|by apply grew_refl]|].
  pose proof (syscall_files d) as Hd. destruct (syscall d) as [a d1]. cbn in Hd. rewrite <- Hd in Ht |- *.
  destruct a; (split; [done|]); by apply grew_append.
Qed.
Lemma grew_rotate w d :
  Top (wr_seq w) (dk_files d) -> wr_seq w + 1 < u64_modulus ->
  let '(w', d') := rotate w d in
  wr_seq w' <= wr_seq w + 1 /\ Grew (wr_seq w) (dk_files d) (wr_seq w') (dk_files d').
Proof.
  intros Ht Hs. unfold rotate. rewrite N.mod_small by lia.
  pose proof (grew_prune (so_max_files options - 1) _ d Ht ltac:(lia)) as H1. set (d1 := prune_dir _ _ d) in *.
  pose proof (grew_top _ _ _ _ H1) as Ht1. pose proof (grew_create _ d1 Ht1 Hs) as H2.
  assert (Hf : (create (wr_seq w + 1) d1).1 = false -> dk_files (create (wr_seq w + 1) d1).2 = dk_files d1).
  { unfold create. pose proof (syscall_files d1). destruct (syscall d1) as [[] ?]; done. }
  destruct (create _ d1) as [[] d2]; cbn in *; (split; [lia|]).
  - specialize (H2 eq_refl). pose proof (grew_trans _ _ _ _ _ _ Ht H1 H2) as H12.
    eapply grew_trans; [done|exact H12|]. apply grew_prune; [by apply (grew_top _ _ _ _ H12)|done].
  - by rewrite Hf.
Qed.

Lemma grew_write_entries at_ batch buffer w d :
  Top (wr_seq w) (dk_files d) -> wr_seq w + N.of_nat (length batch) < u64_modulus ->
  let '(w', d') := write_entries at_ batch buffer w d in
  wr_seq w' <= wr_seq w + N.of_nat (length batch) /\ Grew (wr_seq w) (dk_files d) (wr_seq w') (dk_files d').
Proof.
  revert buffer w d. induction batch as [|entry batch IH]; intros buffer w d Ht Hb; cbn [write_entries length] in *.
  { pose proof (grew_flush buffer w d Ht ltac:(lia)) as H. destruct (flush_pending _ _ _) as [w' d']. destruct H as [-> H]. split; [lia|done]. }
  rewrite Nat2N.inj_succ in *. case_decide.
  - pose proof (grew_flush buffer w d Ht ltac:(lia)) as H1. destruct (flush_pending _ _ _) as [w1 d1]. destruct H1 as [E1 H1].
    pose proof (grew_top _ _ _ _ H1) as Ht1. rewrite <- E1 in Ht1.
    pose proof (grew_rotate w1 d1 Ht1 ltac:(lia)) as H2. destruct (rotate w1 d1) as [w2 d2]. destruct H2 as [E2 H2]. rewrite E1 in E2, H2.
    pose proof (grew_trans _ _ _ _ _ _ Ht H1 H2) as H12. pose proof (grew_top _ _ _ _ H12) as Ht2.
    match goal with |- context [write_entries at_ batch ?b w2 d2] => specialize (IH b w2 d2 Ht2 ltac:(lia)) end.
    destruct (write_entries _ _ _ _ _) as [w3 d3]. destruct IH as [E3 H3]. split; [lia|]. by eapply grew_trans.
  - match goal with |- context [write_entries at_ batch ?b w d] => specialize (IH b w d Ht ltac:(lia)) end.
    destruct (write_entries _ _ _ _ _) as [w3 d3]. destruct IH as [E3 H3]. split; [lia|done].
Qed.
Lemma grew_run turns w d :
  Top (wr_seq w) (dk_files d) -> wr_seq w + load turns < u64_modulus ->
  let '(w', d') := run turns w d in Grew (wr_seq w) (dk_files d) (wr_seq w') (dk_files d').
Proof.
  revert w d. induction turns as [|t turns IH]; intros w d Ht Hb; cbn in *; [by apply grew_refl|].
  destruct (turn_batch t) as [batch done_]. change (foldr _ 0 turns) with (load turns) in Hb. cbn in Hb.
  assert (H : let '(w', d') := write (tn_at t) batch w d in
    wr_seq w' <= wr_seq w + N.of_nat (length batch) /\ Grew (wr_seq w) (dk_files d) (wr_seq w') (dk_files d')).
  { unfold write. case_decide; [split; [lia|by apply grew_refl]|]. apply grew_write_entries; [done|lia]. }
  destruct (write _ _ _ _) as [w1 d1]. destruct H as [E1 H1]. destruct done_; [done|].
  pose proof (grew_top _ _ _ _ H1) as Ht1. specialize (IH w1 d1 Ht1 ltac:(lia)). destruct (run turns w1 d1) as [w2 d2].
  by eapply grew_trans.
Qed.

(** Opening a writer: what it leaves of the directory, and its file. *)
Lemma grew_open d :
  (forall seq, seq ∈ log_seqs (dk_files d) -> seq + 1 < u64_modulus) ->
  let '(w, d') := Writer_open d in
  (forall name, extends (dk_files d !! name) (dk_files d' !! name))
  /\ (forall name, file_seq name = None -> dk_files d' !! name = dk_files d !! name)
  /\ (forall name, dk_files d !! name = None -> dk_files d' !! name <> None -> exists w0, w = Some w0 /\ name = file_name (wr_seq w0))
  /\ match w with
     | Some w => dk_files d !! file_name (wr_seq w) = None /\ dk_files d' !! file_name (wr_seq w) = Some ""
                 /\ Top (wr_seq w) (dk_files d')
                 /\ (forall m, m ∈ log_seqs (dk_files d) -> m < wr_seq w) /\ 0 < wr_seq w /\ wr_seq w < u64_modulus
                 /\ wr_seq w <= foldr N.max 0 (log_seqs (dk_files d)) + 1 /\ wr_written w = 0
     | None => True
     end.
Proof.
  intros Hb. unfold Writer_open, next_seq, read_seqs. pose proof (syscall_files d) as Hd. destruct (syscall d) as [a d1]. cbn in Hd. rewrite Hd.
  assert (Hrefl : forall name, extends (dk_files d !! name) (dk_files d !! name)).
  { intros name. destruct (_ !! _); cbn; [right|done]. exists "". by rewrite string_app_nil_r. }
  destruct a; cbn; [|rewrite Hd; split_and!; try done; intros name Hn Hf; by destruct Hf..]. set (top := foldr N.max 0 (log_seqs (dk_files d))).
  assert (Htop : Top top (dk_files d)).
  { intros n Hn. unfold top. clear - Hn. induction Hn as [x l|x y l Hn IH]; cbn; lia. }
  assert (Hlt : top + 1 < u64_modulus).
  { unfold top. assert (forall l, (forall x, x ∈ l -> x + 1 < u64_modulus) -> foldr N.max 0 l + 1 < u64_modulus) as H; [|by apply H].
    clear. induction l as [|x l IH]; intros Hl; cbn; [done|]. pose proof (Hl x ltac:(left)). specialize (IH ltac:(intros; apply Hl; by right)). lia. }
  rewrite N.mod_small by done. rewrite <- Hd in Htop.
  (* the pruning protects nothing, and no file is younger than [top] *)
  pose proof (prune_dir_lookup (so_max_files options - 1) None d1) as Hp. set (d2 := prune_dir _ None d1) in *.
  assert (Hd2 : forall name, extends (dk_files d1 !! name) (dk_files d2 !! name)).
  { intros name. destruct (Hp name) as [H|[H _]]; rewrite H; [by rewrite Hd|]. by destruct (dk_files d1 !! name); [left|]. }
  assert (Ho2 : forall name, file_seq name = None -> dk_files d2 !! name = dk_files d1 !! name).
  { intros name Hn. destruct (Hp name) as [H|(_ & n & He & Hin & _)]; [done|]. by eapply file_name_seq_ne in He; [|by eapply log_seqs_bound|]. }
  assert (Ht2 : Top top (dk_files d2)).
  { intros n (name & Hin & Hn)%elem_of_log_seqs. apply Htop, elem_of_log_seqs. exists name. split; [|done].
    destruct (Hp name) as [H|[H _]]; rewrite H in Hin; [done|by destruct Hin]. }
  assert (Hfresh : forall files, Top top files -> files !! file_name (top + 1) = None).
  { intros files Hf. destruct (files !! _) eqn:E; [|done]. assert (top + 1 <= top); [|lia]. apply Hf, elem_of_name; [done|by rewrite E]. }
  pose proof (grew_create top d2 Ht2 Hlt) as Hc. unfold create in *. pose proof (syscall_files d2) as Hd3. destruct (syscall d2) as [a d3].
  cbn in Hd3, Hc. rewrite <- Hd.
  assert (Hn2 : forall name, dk_files d1 !! name = None -> dk_files d2 !! name <> None -> False).
  { intros name Hn Hf. destruct (Hp name) as [H|[H _]]; congruence. }
  destruct a; cbn in *; [specialize (Hc eq_refl)|rewrite Hd3; split_and!; try done; intros name Hn Hf; by destruct (Hn2 name)..].
  split_and!; try lia.
  - intros name. eapply extends_trans; [|apply Hd2|apply (grew_file _ _ _ _ Hc)].
    destruct (decide (name = file_name (top + 1))) as [->|Hne]; [right; right; by apply Hfresh|].
    rewrite lookup_insert_ne, Hd3 by done. destruct (dk_files d2 !! name); [by left|by right; left].
  - intros name Hn. rewrite (grew_other _ _ _ _ Hc name Hn). by apply Ho2.
  - intros name Hn Hf. eexists. split; [done|]. cbn. destruct (decide (name = file_name (top + 1))); [done|].
    rewrite lookup_insert_ne, Hd3 in Hf by done. by destruct (Hn2 name).
  - by apply Hfresh.
  - by rewrite lookup_insert_eq, Hd3, Hfresh.
  - by apply (grew_top _ _ _ _ Hc).
  - intros n Hn. specialize (Htop n Hn). lia.
Qed.

Lemma new_is_young w turns d d1 w' d2 :
  (forall seq, seq ∈ log_seqs (dk_files d) -> seq + 1 < u64_modulus) ->
  Writer_open d = (Some w, d1) -> wr_seq w + load turns < u64_modulus -> run turns w d1 = (w', d2) ->
  forall name c, dk_files d !! name = None -> dk_files d2 !! name = Some c ->
  exists n, name = file_name n /\ wr_seq w <= n /\ n < u64_modulus.
Proof.
  intros Hb Ho Hl Hr name c Hn Hc. pose proof (grew_open d Hb) as Hg. rewrite Ho in Hg.
  destruct Hg as (_ & _ & H3 & _ & _ & Ht1 & _ & _ & Hlt & _). pose proof (grew_run turns w d1 Ht1 Hl) as H. rewrite Hr in H.
  destruct (dk_files d1 !! name) eqn:E1.
  - destruct (H3 name Hn) as (w0 & [= <-] & ->); [by rewrite E1|]. exists (wr_seq w). split; [done|]. split; [lia|done].
  - destruct (grew_new _ _ _ _ H name E1) as (n & -> & Hn' & Hm); [by rewrite Hc|]. exists n. split; [done|]. split; [lia|done].
Qed.

(** *** What pruning leaves *)

Definition no_older (n : N) (name : string) : Prop := from_option (fun m => (n <= m)%N) False (file_seq name).
#[local] Instance no_older_dec n name : Decision (no_older n name).
Proof. unfold no_older. destruct (file_seq name); cbn; apply _. Defined.






(** ** Nothing is lost *)

Definition Calm (d : Disk) : Prop := dk_answers d = [].

Lemma calm_syscall d : Calm d -> syscall d = (AOk, d).
Proof. unfold syscall, Calm. by intros ->. Qed.
Lemma calm_remove_files names d :
  Calm d ->
  Calm (fold_left remove_file names d)
  /\ forall other, dk_files (fold_left remove_file names d) !! other = if decide (other ∈ names) then None else dk_files d !! other.
Proof.
  revert d. induction names as [|name names IH]; intros d Hd; cbn; [done|].
  assert (Hr : remove_file d name = with_files (delete name (dk_files d)) d) by (unfold remove_file; by rewrite calm_syscall).
  rewrite Hr. destruct (IH (with_files (delete name (dk_files d)) d) Hd) as [H1 H2]. split; [done|]. intros other. rewrite H2. cbn.
  destruct (decide (other ∈ name :: names)) as [Hin|Hin]; case_decide as Hd2; try done.
  - apply elem_of_cons in Hin as [->|Hin]; [by rewrite lookup_delete_eq|done].
  - by destruct Hin; right.
  - rewrite lookup_delete_ne; [done|]. intros ->. by destruct Hin; left.
Qed.

Lemma calm_prune keep protect d l l' :
  Calm d -> Listed (dk_files d) l -> StronglySorted N.gt l' ->
  (forall seq, seq ∈ l' <-> seq ∈ l /\ ~ (seq ∈ drop keep l /\ Some seq <> protect)) ->
  Calm (prune_dir keep protect d) /\ Listed (dk_files (prune_dir keep protect d)) l'
  /\ forall seq, seq ∈ l' -> dk_files (prune_dir keep protect d) !! file_name seq = dk_files d !! file_name seq.
Proof.
  intros Hd Hl Hs Hl'. unfold prune_dir, read_seqs. rewrite calm_syscall by done. unfold prune_targets. rewrite (listed_sort _ _ Hl).
  destruct (calm_remove_files (file_name <$> filter (fun seq => Some seq <> protect) (drop keep l)) d Hd) as [Hc Hf].
  set (d' := fold_left _ _ _) in *. destruct Hl as (Hls & Ho & Hin).
  assert (Hkeep : forall seq, seq ∈ l' -> dk_files d' !! file_name seq = dk_files d !! file_name seq).
  { intros seq Hseq. apply Hl' in Hseq as [Hseq Hn]. rewrite Hf, decide_False; [done|].
    intros (n & He & [Hp Hd1]%list_elem_of_filter)%list_elem_of_fmap.
    assert (n ∈ l) as Hnl by (rewrite <- (take_drop keep l); apply elem_of_app; by right).
    apply Hin in Hnl as [Hnb _]. apply Hin in Hseq as [Hsb _]. apply file_name_inj in He as ->; [|done..]. by apply Hn. }
  split; [done|]. split; [|done]. split; [done|]. split.
  - intros name seq Hn Hsome. apply Ho; [done|]. rewrite Hf in Hsome. case_decide; [by destruct Hsome|done].
  - intros seq. rewrite Hl', Hin, Hf. split.
    + intros [[Hb Hsome] Hn]. split; [done|]. rewrite decide_False; [done|].
      intros (n & He & [Hp Hd1]%list_elem_of_filter)%list_elem_of_fmap.
      assert (n ∈ l) as Hnl by (rewrite <- (take_drop keep l); apply elem_of_app; by right).
      apply Hin in Hnl as [Hnb _]. apply file_name_inj in He as ->; [|done..]. by apply Hn.
    + intros [Hb Hsome]. case_decide as Hd1; [by destruct Hsome|]. split; [done|]. intros [Hd2 Hp]. apply Hd1, list_elem_of_fmap.
      exists seq. split; [done|]. by apply list_elem_of_filter.
Qed.

(** The retained files are the newest; the archive loses a beginning. *)
Lemma calm_prune_newest keep d l :
  Calm d -> Listed (dk_files d) l ->
  let d' := prune_dir keep None d in
  Calm d' /\ Listed (dk_files d') (take keep l)
  /\ (forall seq, seq ∈ take keep l -> dk_files d' !! file_name seq = dk_files d !! file_name seq)
  /\ exists dropped, dropped +:+ archive (dk_files d') = archive (dk_files d).
Proof.
  intros Hd Hl d'. subst d'. pose proof Hl as (Hs & Hrest). destruct (calm_prune keep None d l (take keep l)) as (H1 & H2 & H3).
  - done.
  - done.
  - by apply sorted_take.
  - intros seq. rewrite elem_of_take_drop by (by apply gt_NoDup). split; [intros [? Hn]; split; [done|]; by intros [? _]|].
    intros [? Hn]. split; [done|]. intros Hin. by apply Hn.
  - split_and!; try done. exists (chain (dk_files d) (drop keep l)).
    rewrite (listed_archive _ _ H2), (listed_archive _ l); [|done]. rewrite (chain_split _ keep l). f_equal. by apply chain_ext.
Qed.
Lemma calm_prune_protect keep d x l :
  Calm d -> Listed (dk_files d) (x :: l) ->
  let d' := prune_dir keep (Some x) d in
  Calm d' /\ Listed (dk_files d') (x :: take (keep - 1) l)
  /\ (forall seq, seq ∈ x :: take (keep - 1) l -> dk_files d' !! file_name seq = dk_files d !! file_name seq)
  /\ exists dropped, dropped +:+ archive (dk_files d') = archive (dk_files d).
Proof.
  intros Hd Hl d'. subst d'. assert (Ht : x :: take (keep - 1) l = take (S (keep - 1)) (x :: l)) by done.
  pose proof Hl as (Hs & Hrest). pose proof (gt_NoDup _ Hs) as Hn.
  destruct (calm_prune keep (Some x) d (x :: l) (x :: take (keep - 1) l)) as (H1 & H2 & H3).
  - done.
  - done.
  - rewrite Ht. by apply sorted_take.
  - intros seq. destruct keep as [|keep].
    + cbn [Nat.sub take drop]. rewrite list_elem_of_singleton. split; [intros ->; split; [by left|]; by intros [_ ?]|].
      intros [Hin Hp]. destruct (decide (seq = x)) as [|Hne]; [done|]. destruct Hp. split; [done|congruence].
    + rewrite Ht. replace (S (S keep - 1)) with (S keep) by lia. rewrite elem_of_take_drop by done. split.
      * intros [Hin Hp]. split; [done|]. by intros [? _].
      * intros [Hin Hp]. split; [done|]. intros Hin2. apply Hp. split; [done|]. intros [= ->]. cbn in Hin2.
        apply NoDup_cons in Hn as [Hn _]. apply Hn. rewrite <- (take_drop keep l). apply elem_of_app. by right.
  - split_and!; try done. exists (chain (dk_files d) (drop (S (keep - 1)) (x :: l))).
    rewrite (listed_archive _ _ H2), (listed_archive _ _ Hl), (chain_split _ (S (keep - 1)) (x :: l)), <- Ht. f_equal. by apply chain_ext.
Qed.

(** The state of a writer that met no fault; [l] lists the older files. *)
Record Settled (w : Writer) (d : Disk) (l : list N) : Prop := {
  st_calm : Calm d;
  st_listed : Listed (dk_files d) (wr_seq w :: l);
  st_few : (length l <= so_max_files options - 1)%nat;
  st_file : exists c, dk_files d !! file_name (wr_seq w) = Some c /\ N.of_nat (String.length c) = wr_written w;
}.
Definition size (text : string) : N := N.of_nat (String.length text).
Definition Lines_within (longest : N) : Prop := forall r line, to_json r = Some line -> size line + 1 <= longest.
(** The sizes of the files from number [lo] on, and of the active one with what
    is about to be written. *)
Definition Sized (longest lo : N) (w : Writer) (buffer : string) (d : Disk) : Prop :=
  Lines_within longest ->
  wr_written w + size buffer <= so_max_bytes options + longest
  /\ forall seq c, lo <= seq -> seq < u64_modulus -> dk_files d !! file_name seq = Some c -> size c <= so_max_bytes options + longest.

Lemma size_app a b : size (a +:+ b) = size a + size b.
Proof. unfold size. rewrite string_length_app. lia. Qed.
Lemma settled_bound w d l : Settled w d l -> wr_seq w < u64_modulus.
Proof. intros Hs. destruct (st_listed _ _ _ Hs) as (_ & _ & H). by destruct (proj1 (H (wr_seq w)) ltac:(left)). Qed.

Lemma listed_insert files seq l c :
  Listed files l -> seq < u64_modulus -> (forall n, n ∈ l -> n < seq) -> Listed (<[file_name seq := c]> files) (seq :: l).
Proof.
  intros (Hs & Ho & Hl) Hb Hn. split; [|split].
  - constructor; [done|]. apply Forall_forall. intros n Hin. specialize (Hn n Hin). lia.
  - intros name n He Hsome. destruct (decide (name = file_name seq)) as [->|Hne]; [by rewrite file_seq_name in He; [injection He as ->|]|].
    rewrite lookup_insert_ne in Hsome by done. by apply Ho.
  - intros n. rewrite elem_of_cons, Hl. destruct (decide (n = seq)) as [->|Hne]; [rewrite lookup_insert_eq; naive_solver|].
    split; [intros [|[Hnb Hi]]; [done|]|intros [Hnb Hi]; right]; (split; [done|]);
      rewrite lookup_insert_ne in * by (intros He; apply Hne; symmetry; by apply file_name_inj); done.
Qed.
Lemma listed_alter files seq l f : Listed files l -> Listed (alter f (file_name seq) files) l.
Proof.
  intros (Hs & Ho & Hl).
  assert (Hd : forall name, is_Some (alter f (file_name seq) files !! name) <-> is_Some (files !! name)).
  { intros name. destruct (decide (name = file_name seq)) as [->|Hne]; [by rewrite lookup_alter_eq, fmap_is_Some|by rewrite lookup_alter_ne]. }
  split; [done|]. split; [intros name n Hn Hsome; apply Ho; [done|by apply Hd]|]. intros n. by rewrite Hl, Hd.
Qed.

Lemma calm_flush longest lo buffer w d l :
  Settled w d l -> lo <= wr_seq w -> Sized longest lo w buffer d ->
  let '(w', d') := flush_pending buffer w d in
  Settled w' d' l /\ wr_seq w' = wr_seq w /\ Sized longest lo w' "" d'
  /\ archive (dk_files d') = archive (dk_files d) +:+ buffer.
Proof.
  intros Hs Hlo Hz. unfold flush_pending. case_decide as Hb.
  { subst buffer. split_and!; [done|done|done|by rewrite string_app_nil_r]. }
  rewrite calm_syscall by apply (st_calm _ _ _ Hs). destruct (st_file _ _ _ Hs) as (c & Hc & Hlen). unfold append_file, with_files. cbn.
  pose proof (settled_bound _ _ _ Hs) as Hw. pose proof (listed_alter _ (wr_seq w) _ (fun contents => contents +:+ buffer) (st_listed _ _ _ Hs)) as Hl.
  split_and!.
  - split; cbn; [apply (st_calm _ _ _ Hs)|done|apply (st_few _ _ _ Hs)|]. exists (c +:+ buffer). rewrite lookup_alter_eq, Hc.
    split; [done|]. rewrite string_length_app. lia.
  - done.
  - intros Hlong. destruct (Hz Hlong) as [H1 H2]. cbn. unfold size in *. cbn. split; [lia|]. intros seq c' Hle Hsb.
    destruct (decide (seq = wr_seq w)) as [->|Hne].
    + rewrite lookup_alter_eq, Hc. cbn. intros [= <-]. rewrite string_length_app. lia.
    + rewrite lookup_alter_ne; [by apply H2|]. intros He. apply Hne. symmetry. by apply file_name_inj.
  - rewrite (listed_archive _ _ Hl), (listed_archive _ _ (st_listed _ _ _ Hs)). cbn [chain]. rewrite lookup_alter_eq, Hc. cbn.
    rewrite string_app_assoc. do 2 f_equal. apply chain_ext. intros seq Hin. rewrite lookup_alter_ne; [done|].
    destruct (st_listed _ _ _ Hs) as (Hsort & _ & Hls). apply gt_NoDup, NoDup_cons in Hsort as [Hn _]. intros He. apply Hn.
    apply file_name_inj in He as ->; [done|done|]. apply Hls. by right.
Qed.

Lemma calm_create d l seq :
  Calm d -> Listed (dk_files d) l -> seq < u64_modulus -> (forall n, n ∈ l -> n < seq) ->
  create seq d = (true, with_files (<[file_name seq := ""]> (dk_files d)) d)
  /\ Listed (<[file_name seq := ""]> (dk_files d)) (seq :: l)
  /\ archive (<[file_name seq := ""]> (dk_files d)) = archive (dk_files d).
Proof.
  intros Hd Hl Hs Hn. unfold create. rewrite calm_syscall by done.
  assert (Hfresh : dk_files d !! file_name seq = None).
  { destruct (dk_files d !! file_name seq) eqn:E; [|done]. assert (seq < seq); [|lia]. apply Hn. destruct Hl as (_ & _ & Hl). apply Hl. by rewrite E. }
  rewrite Hfresh. split; [done|]. pose proof (listed_insert _ seq l "" Hl Hs Hn) as Hl'. split; [done|].
  rewrite (listed_archive _ _ Hl'), (listed_archive _ _ Hl). cbn [chain]. rewrite lookup_insert_eq. cbn. rewrite string_app_nil_r.
  apply chain_ext. intros n Hin. rewrite lookup_insert_ne; [done|]. intros He. pose proof (Hn n Hin).
  apply file_name_inj in He; [lia|done|]. destruct Hl as (_ & _ & Hl). by apply Hl.
Qed.
Lemma listed_below files x l : Listed files (x :: l) -> forall n, n ∈ x :: l -> n <= x.
Proof.
  intros (Hs & _ & _) n [->|Hin]%elem_of_cons; [lia|]. inversion Hs as [|? ? _ Hx]; subst. rewrite Forall_forall in Hx. specialize (Hx n Hin). lia.
Qed.

Lemma calm_rotate longest lo w d l :
  Settled w d l -> lo <= wr_seq w -> Sized longest lo w "" d -> wr_seq w + 1 < u64_modulus ->
  let '(w', d') := rotate w d in
  (exists l', Settled w' d' l') /\ wr_seq w' = wr_seq w + 1 /\ wr_written w' = 0 /\ Sized longest lo w' "" d'
  /\ exists dropped, dropped +:+ archive (dk_files d') = archive (dk_files d).
Proof.
  intros Hs Hlo Hz Hb. unfold rotate. rewrite N.mod_small by done.
  destruct (calm_prune_protect (so_max_files options - 1) d _ _ (st_calm _ _ _ Hs) (st_listed _ _ _ Hs)) as (Hc1 & Hl1 & Hf1 & dropped1 & Ha1).
  set (d1 := prune_dir _ _ d) in *.
  destruct (calm_create d1 _ (wr_seq w + 1) Hc1 Hl1 Hb) as (-> & Hl2 & Ha2).
  { intros n Hn. apply (listed_below _ _ _ Hl1) in Hn. lia. }
  set (d2 := with_files _ d1). assert (Hc2 : Calm d2) by done.
  destruct (calm_prune_protect (so_max_files options) d2 _ _ Hc2 Hl2) as (Hc3 & Hl3 & Hf3 & dropped3 & Ha3).
  set (d3 := prune_dir _ _ d2) in *. set (l3 := take (so_max_files options - 1) (wr_seq w :: _)) in *.
  split_and!.
  - exists l3. split; cbn; [done|done|unfold l3; rewrite length_take; lia|]. exists "". split; [|done].
    rewrite Hf3 by left. unfold d2. cbn. by rewrite lookup_insert_eq.
  - done.
  - done.
  - intros Hlong. destruct (Hz Hlong) as [H1 H2]. split; [cbn; lia|]. intros seq c Hle Hsb Hc.
    assert (Hin : seq ∈ (wr_seq w + 1) :: l3) by (destruct Hl3 as (_ & _ & Hl3); apply Hl3; by rewrite Hc).
    rewrite Hf3 in Hc by done. unfold d2 in Hc. cbn in Hc.
    destruct (decide (seq = wr_seq w + 1)) as [->|Hne]; [rewrite lookup_insert_eq in Hc; injection Hc as <-; cbn; lia|].
    rewrite lookup_insert_ne in Hc by (intros He; apply Hne; symmetry; by apply file_name_inj).
    apply (H2 seq); [done|done|]. rewrite <- Hc. symmetry. apply Hf1. destruct Hl1 as (_ & _ & Hl1). apply Hl1. by rewrite Hc.
  - exists (dropped1 +:+ dropped3). rewrite <- string_app_assoc, Ha3. unfold d2. cbn. by rewrite Ha2, Ha1.
Qed.

(** What a fault-free write leaves: the state, the sizes, and the archive with
    [text] at its end and perhaps without its oldest files. *)
Definition Written (longest lo : N) (d : Disk) (text : string) (w' : Writer) (d' : Disk) : Prop :=
  (exists l', Settled w' d' l') /\ Sized longest lo w' "" d' /\ lo <= wr_seq w'
  /\ exists dropped, dropped +:+ archive (dk_files d') = archive (dk_files d) +:+ text.

Lemma calm_write_entries longest lo at_ batch buffer w d l :
  Settled w d l -> lo <= wr_seq w -> Sized longest lo w buffer d -> wr_seq w + N.of_nat (length batch) < u64_modulus ->
  let '(w', d') := write_entries at_ batch buffer w d in
  Written longest lo d (buffer +:+ batch_text at_ batch) w' d' /\ wr_seq w' <= wr_seq w + N.of_nat (length batch).
Proof.
  revert buffer w d l. induction batch as [|entry batch IH]; intros buffer w d l Hs Hlo Hz Hb; cbn [write_entries batch_text length] in *.
  { pose proof (calm_flush _ _ _ _ _ _ Hs Hlo Hz) as H. destruct (flush_pending _ _ _) as [w' d']. destruct H as (H1 & E1 & H2 & H3).
    rewrite string_app_nil_r. split; [|lia]. split; [by exists l|]. split; [done|]. split; [lia|]. by exists "". }
  rewrite Nat2N.inj_succ in *. rewrite string_app_assoc. unfold line_of.
  assert (Hline : forall buffer w d l, Settled w d l -> lo <= wr_seq w ->
    (Lines_within longest -> wr_written w + size buffer <= so_max_bytes options) -> Sized longest lo w "" d ->
    let text := match to_json (record_of at_ entry) with Some line => line +:+ nl | None => "" end in
    Sized longest lo w (buffer +:+ text) d).
  { clear. intros buffer w d l Hs Hlo Hle Hz text Hlong. destruct (Hz Hlong) as [H1 H2]. split; [|done]. rewrite size_app.
    specialize (Hle Hlong). unfold text. destruct (to_json _) as [line|] eqn:E; [|change (size "") with 0; lia].
    pose proof (Hlong _ _ E). rewrite size_app. change (size nl) with 1. lia. }
  assert (Hshape : forall buffer, match to_json (record_of at_ entry) with Some line => buffer +:+ line +:+ nl | None => buffer end
    = buffer +:+ match to_json (record_of at_ entry) with Some line => line +:+ nl | None => "" end).
  { intros b. destruct (to_json _); [done|by rewrite string_app_nil_r]. }
  case_decide as Hfull.
  - pose proof (calm_flush _ _ _ _ _ _ Hs Hlo Hz) as H. destruct (flush_pending _ _ _) as [w1 d1]. destruct H as (H1 & E1 & Hz1 & Ha1).
    rewrite <- E1 in Hlo, Hb. pose proof (calm_rotate _ _ _ _ _ H1 Hlo Hz1 ltac:(lia)) as H. destruct (rotate w1 d1) as [w2 d2].
    destruct H as ([l2 H2] & E2 & Ew2 & Hz2 & dropped2 & Ha2). rewrite Hshape.
    specialize (IH _ w2 d2 l2 H2 ltac:(lia) (Hline "" w2 d2 l2 H2 ltac:(lia) ltac:(intros; rewrite Ew2; change (size "") with 0; lia) Hz2) ltac:(lia)).
    destruct (write_entries _ _ _ _ _) as [w3 d3]. destruct IH as [(H3 & Hz3 & E3 & dropped3 & Ha3) Hs3]. split; [|lia].
    split; [done|]. split; [done|]. split; [done|]. exists (dropped2 +:+ dropped3).
    rewrite <- string_app_assoc, Ha3, string_app_nil_l, string_app_assoc, Ha2, Ha1. by rewrite !string_app_assoc.
  - assert (Hz' : Sized longest lo w "" d).
    { intros Hlong. destruct (Hz Hlong) as [H1 H2]. split; [|done]. unfold size in *. cbn. lia. }
    rewrite Hshape.
    specialize (IH _ w d l Hs Hlo (Hline buffer w d l Hs Hlo ltac:(intros _; unfold size; lia) Hz') ltac:(lia)).
    destruct (write_entries _ _ _ _ _) as [w3 d3]. destruct IH as [H3 Hs3]. split; [done|lia].
Qed.

Lemma calm_run longest lo turns w d l :
  Settled w d l -> lo <= wr_seq w -> Sized longest lo w "" d -> wr_seq w + load turns < u64_modulus ->
  let '(w', d') := run turns w d in Written longest lo d (stream turns) w' d'.
Proof.
  revert w d l. induction turns as [|t turns IH]; intros w d l Hs Hlo Hz Hb; cbn in *.
  { split; [by exists l|]. split; [done|]. split; [done|]. exists "". by rewrite string_app_nil_r. }
  destruct (turn_batch t) as [batch stop]. change (foldr _ 0 turns) with (load turns) in Hb. cbn in Hb.
  assert (H : let '(w', d') := write (tn_at t) batch w d in
    Written longest lo d (batch_text (tn_at t) batch) w' d' /\ wr_seq w' <= wr_seq w + N.of_nat (length batch)).
  { unfold write. case_decide as Hbatch.
    - subst batch. split; [|lia]. split; [by exists l|]. split; [done|]. split; [done|]. exists "". cbn. by rewrite string_app_nil_r.
    - apply (calm_write_entries longest lo (tn_at t) batch "" w d l); [done|done|done|lia]. }
  destruct (write _ _ _ _) as [w1 d1]. destruct H as [H1 Hs1]. destruct stop; [by rewrite string_app_nil_r|].
  destruct H1 as ([l1 H1] & Hz1 & Hlo1 & dropped1 & Ha1). specialize (IH w1 d1 l1 H1 Hlo1 Hz1 ltac:(lia)).
  destruct (run turns w1 d1) as [w2 d2]. destruct IH as (H2 & Hz2 & Hlo2 & dropped2 & Ha2).
  split; [done|]. split; [done|]. split; [done|]. exists (dropped1 +:+ dropped2).
  rewrite <- string_app_assoc, Ha2, string_app_assoc, Ha1. by rewrite string_app_assoc.
Qed.

Lemma calm_open longest d :
  Calm d -> Own (dk_files d) -> (forall seq, seq ∈ log_seqs (dk_files d) -> seq + 1 < u64_modulus) ->
  exists w d' l, Writer_open d = (Some w, d') /\ Settled w d' l /\ Sized longest (wr_seq w) w "" d'
  /\ wr_seq w = foldr N.max 0 (log_seqs (dk_files d)) + 1
  /\ exists dropped, dropped +:+ archive (dk_files d') = archive (dk_files d).
Proof.
  intros Hd Ho Hb. pose proof (grew_open d Hb) as Hg. unfold Writer_open in *. unfold next_seq, read_seqs in *.
  rewrite !calm_syscall in * by done. cbn [fmap option_fmap option_map] in *.
  set (top := foldr N.max 0 (log_seqs (dk_files d))) in *.
  assert (Htop : top + 1 < u64_modulus /\ forall n, n ∈ log_seqs (dk_files d) -> n <= top).
  { unfold top. clear - Hb. revert Hb. generalize (log_seqs (dk_files d)) as l.
    induction l as [|x l IH]; intros Hx; cbn; [split; [done|]; intros n Hn; by apply elem_of_nil in Hn|].
    pose proof (Hx x ltac:(left)). destruct IH as [IH1 IH2]; [intros; apply Hx; by right|]. split; [lia|].
    intros n [->|Hn]%elem_of_cons; [lia|]. specialize (IH2 n Hn). lia. }
  destruct Htop as [Hlt Hle]. rewrite N.mod_small in * by done.
  destruct (calm_prune_newest (so_max_files options - 1) d _ Hd (own_listed _ Ho)) as (Hc1 & Hl1 & Hf1 & dropped1 & Ha1).
  set (d1 := prune_dir _ None d) in *. set (l1 := take _ _) in *.
  destruct (calm_create d1 l1 (top + 1) Hc1 Hl1 Hlt) as (Hcreate & Hl2 & Ha2).
  { intros n Hn. unfold l1 in Hn. assert (n ∈ log_seqs (dk_files d)) as Hin.
    { rewrite <- sort_desc_Permutation, <- (take_drop (so_max_files options - 1) (sort_desc _)). apply elem_of_app. by left. }
    specialize (Hle n Hin). lia. }
  rewrite Hcreate in *. eexists _, _, l1. split; [done|]. split; [|split; [|split; [done|]]].
  - split; cbn; [done|done|unfold l1; rewrite length_take; lia|]. exists "". by rewrite lookup_insert_eq.
  - intros Hlong. split; [change (wr_written _) with 0; change (size "") with 0; lia|]. cbn. intros seq c Hs Hsb Hc.
    assert (Hin : seq ∈ (top + 1) :: l1) by (destruct Hl2 as (_ & _ & Hl2); apply Hl2; by rewrite Hc).
    assert (seq = top + 1) as ->; [apply (listed_below _ _ _ Hl2) in Hin; lia|]. rewrite lookup_insert_eq in Hc. injection Hc as <-. change (size "") with 0. lia.
  - exists dropped1. cbn. by rewrite Ha2.
Qed.

(** The archive is the stream.  When no system call fails, the archive
    behind a run of the writer is the archive before it and behind it the line
    of every record the task received, in order and exactly once, without at
    most its oldest files, of which as many as asked for are kept; and no file
    of the run is longer than the limit and one line. *)
Theorem archive_is_the_stream longest turns d :
  dk_answers d = [] -> Own (dk_files d) ->
  (forall seq, seq ∈ log_seqs (dk_files d) -> seq + 1 + load turns < u64_modulus) -> 1 + load turns < u64_modulus ->
  exists w d', spawn turns d = (Some w, d')
  /\ (exists dropped, dropped +:+ archive (dk_files d') = archive (dk_files d) +:+ stream turns)
  /\ (length (log_seqs (dk_files d')) <= Nat.max 1 (so_max_files options))%nat
  /\ (Lines_within longest -> forall name c,
        dk_files d !! name = None -> dk_files d' !! name = Some c -> size c <= so_max_bytes options + longest).
Proof.
  intros Hd Ho Hb Hl. destruct (calm_open longest d Hd Ho) as (w & d1 & l & Hopen & Hs & Hz & Hseq & dropped1 & Ha1).
  { intros seq Hs. specialize (Hb seq Hs). lia. }
  assert (Hload : foldr N.max 0 (log_seqs (dk_files d)) + 1 + load turns < u64_modulus).
  { clear - Hb Hl. revert Hb. generalize (log_seqs (dk_files d)) as l. induction l as [|x l IH]; intros Hx; cbn; [lia|].
    pose proof (Hx x ltac:(left)). specialize (IH ltac:(intros; apply Hx; by right)). lia. }
  pose proof (calm_run longest (wr_seq w) turns w d1 l Hs ltac:(lia) Hz ltac:(lia)) as Hr.
  unfold spawn. rewrite Hopen. destruct (run turns w d1) as [w2 d2] eqn:Hrun. destruct Hr as ([l2 H2] & Hz2 & Hlo & dropped2 & Ha2).
  exists w2, d2. split; [done|]. split; [|split].
  - exists (dropped1 +:+ dropped2). rewrite <- string_app_assoc, Ha2, string_app_assoc. by rewrite Ha1.
  - rewrite <- sort_desc_Permutation, (listed_sort _ _ (st_listed _ _ _ H2)). pose proof (st_few _ _ _ H2). cbn. lia.
  - intros Hlong name c Hnone Hc. destruct (Hz2 Hlong) as [_ Hz3].
    assert (Hn : exists n, name = file_name n /\ wr_seq w <= n /\ n < u64_modulus) by (eapply (new_is_young w turns d d1); [|done|lia|done|done|done]; intros old Hold; specialize (Hb old Hold); lia).
    destruct Hn as (n & -> & Hn & Hnb). by apply (Hz3 n c).
Qed.

End Sink.

(** ** On concrete directories *)

Definition demo_json (r : SinkRecord) : option string :=
  match r with
  | LogRecord frame => Some (fr_message frame)
  | GapRecord at_ dropped => Some ("gap of " +:+ show_N dropped)
  end.
Definition demo_options : SinkOptions := {| so_max_bytes := 9; so_max_files := 2 |}.
Definition demo_turns : list Turn :=
  [{| tn_first := Got (EGap 1); tn_rest := [RcLagged 2]; tn_at := 5 |};
   {| tn_first := Got (EGap 3); tn_rest := [RcLagged 4; RcEmpty]; tn_at := 6 |};
   {| tn_first := Cancelled; tn_rest := [RcLagged 5; RcClosed]; tn_at := 7 |}].
Definition demo_files : gmap string string :=
  <["core-000007.jsonl" := "old" +:+ nl]> (<["notes.txt" := "kept"]> ∅).
Definition demo_disk (answers : list Answer) : Disk := {| dk_files := demo_files; dk_answers := answers |}.

Lemma demo_seqs : log_seqs demo_files = [7].
Proof. by vm_compute. Qed.
Lemma demo_own : Own demo_files.
Proof.
  intros name seq Hs Hin. unfold demo_files in Hin.
  destruct (decide (name = "core-000007.jsonl")) as [->|H1]; [vm_compute in Hs; by injection Hs as <-|].
  rewrite lookup_insert_ne in Hin by done.
  destruct (decide (name = "notes.txt")) as [->|H2]; [by vm_compute in Hs|].
  rewrite lookup_insert_ne, lookup_empty in Hin by done. by destruct Hin.
Qed.
Lemma demo_room n : n <= 1000 -> forall seq, seq ∈ log_seqs demo_files -> seq + 1 + n < u64_modulus.
Proof. intros Hn seq. rewrite demo_seqs. intros ->%list_elem_of_singleton. unfold u64_modulus. lia. Qed.

Lemma demo_load : load demo_turns = 5.
Proof. by vm_compute. Qed.


Lemma demo_stream :
  stream demo_json demo_turns = "gap of 1" +:+ nl +:+ "gap of 2" +:+ nl +:+ "gap of 3" +:+ nl +:+ "gap of 4" +:+ nl +:+ "gap of 5" +:+ nl.
Proof. by vm_compute. Qed.
Lemma archive_is_the_stream_witness :
  exists w d', spawn demo_json demo_options demo_turns (demo_disk []) = (Some w, d')
  /\ exists dropped, dropped +:+ archive (dk_files d')
       = "old" +:+ nl +:+ "gap of 1" +:+ nl +:+ "gap of 2" +:+ nl +:+ "gap of 3" +:+ nl +:+ "gap of 4" +:+ nl +:+ "gap of 5" +:+ nl.
Proof.
  destruct (archive_is_the_stream demo_json demo_options 10 demo_turns (demo_disk [])) as (w & d' & H1 & H2 & _).
  - done.
  - apply demo_own.
  - rewrite demo_load. by apply demo_room.
  - rewrite demo_load. unfold u64_modulus. lia.
  - exists w, d'. split; [exact H1|]. destruct H2 as [dropped H2]. exists dropped. rewrite H2, demo_stream. by vm_compute.
Defined.

(** A write that fails behind its first bytes leaves them in the file, and the
    next record is glued to them: the broken line is not the last one. *)
Lemma short_write_glues_records :
  dk_files (spawn demo_json {| so_max_bytes := 1000; so_max_files := 2 |} (take 2 demo_turns) {| dk_files := ∅; dk_answers := [AOk; AOk; AOk; AFail 5] |}).2
    !! file_name 1 = Some ("gap o" +:+ "gap of 3" +:+ nl +:+ "gap of 4" +:+ nl).
Proof. by vm_compute. Qed.

(** A name the writer never gives takes one of the places of the newest files,
    and the pruning cannot remove it. *)
Definition padded_files : gmap string string := <["core-9.jsonl" := "x"]> (<[file_name 8 := "y"]> ∅).
Lemma padded_name_takes_a_place :
  dk_files (prune_dir 1 None {| dk_files := padded_files; dk_answers := [] |}) !! file_name 8 = None
  /\ dk_files (prune_dir 0 None {| dk_files := padded_files; dk_answers := [] |}) !! "core-9.jsonl" = Some "x".
Proof. by vm_compute. Qed.
