(* ===== verification/Wire.v ===== *)
(** * The wire of the service

    What the service and its clients exchange ([chimera_ipc/src/api]) and the
    projections of the manager's values onto it
    ([chimera_service/src/server/manager_bridge.rs]), with the client's view of
    an error ([chimera_ipc/src/client/mod.rs]).  The JSON text is left out: it
    comes from serde. *)

From S2P Require Import Prelude Types LogParser Control.
Open Scope rust_scope.

(** ** Core types ([chimera_utils::core], re-exported from another repository)

    The variants are those of the exhaustive match in [core_kind]. *)

Inductive ClashCoreType :=
| TMihomo | TMihomoAlpha | TClashRust | TClashRustAlpha | TChimeraClient | TChimeraClientAlpha | TClashPremium.
Inductive CoreType := TClash (core : ClashCoreType) | TSingBox.
#[export] Instance ClashCoreType_eq_dec : EqDecision ClashCoreType.
Proof. solve_decision. Defined.
#[export] Instance CoreType_eq_dec : EqDecision CoreType.
Proof. solve_decision. Defined.

Definition core_kind (core_type : CoreType) : result CoreKind string :=
  match core_type with
  | TClash (TMihomo | TMihomoAlpha) => Ok Mihomo
  | TClash (TClashRust | TClashRustAlpha) => Ok ClashRust
  | TClash (TChimeraClient | TChimeraClientAlpha) => Ok ChimeraClient
  | TClash TClashPremium => Ok ClashPremium
  | TSingBox => Err "sing-box is not a supported core"
  end.

(** ** The envelope ([api/mod.rs]) *)

Inductive ResponseCode := RcOk | RcOtherError.
#[export] Instance ResponseCode_eq_dec : EqDecision ResponseCode.
Proof. solve_decision. Defined.
Definition ResponseCode_msg (code : ResponseCode) : string :=
  match code with RcOk => "ok" | RcOtherError => "other error" end.

Record R (T : Type) := {
  r_code : ResponseCode;
  r_msg : string;
  r_data : option T;
  r_ts : Z;
  r_error_kind : option string;
  r_retryable : option bool;
}.
Arguments r_code {T}. Arguments r_msg {T}. Arguments r_data {T}. Arguments r_ts {T}.
Arguments r_error_kind {T}. Arguments r_retryable {T}.

(** [R::ok]; the text of the error prints the envelope and is left out. *)
Definition R_ok {T} (r : R T) : result (R T) () := if decide (r_code r = RcOk) then Ok r else Err tt.
Definition other_error {T} (now : Z) (msg : string) : R T :=
  {| r_code := RcOtherError; r_msg := msg; r_data := None; r_ts := now; r_error_kind := None; r_retryable := None |}.
Definition other_error_with_kind {T} (now : Z) (msg : string) (error_kind : option string) (retryable : option bool) : R T :=
  {| r_code := RcOtherError; r_msg := msg; r_data := None; r_ts := now; r_error_kind := error_kind; r_retryable := retryable |}.
Definition success {T} (now : Z) (data : T) : R T :=
  {| r_code := RcOk; r_msg := ResponseCode_msg RcOk; r_data := Some data; r_ts := now; r_error_kind := None; r_retryable := None |}.

(** ** The status ([api/status.rs]) *)

Inductive IpcCoreState := WRunning | WStopped (reason : option string).
#[export] Instance IpcCoreState_eq_dec : EqDecision IpcCoreState.
Proof. solve_decision. Defined.
Inductive CoreControllerInfo := WNamedPipe (path : string) | WUnixSocket (path : string) | WHttp (url : string).
Inductive CoreHealthState := WStarting | WHealthy | WUnhealthy.
Record CoreHealthInfo := {
  ch_state : CoreHealthState;
  ch_changed_at : Z;
  ch_consecutive_failures : N;
  ch_last_error : option string;
  ch_last_success_at : option Z;
}.
Record ConfigRevisionInfo := { ri_epoch : N; ri_generation : N; ri_source_hash : string; ri_effective_hash : string }.
Record RevisionIdInfo := { ii_epoch : N; ii_generation : N; ii_effective_hash : string }.
Definition ConfigRevisionInfo_id (r : ConfigRevisionInfo) : RevisionIdInfo :=
  {| ii_epoch := ri_epoch r; ii_generation := ri_generation r; ii_effective_hash := ri_effective_hash r |}.
Inductive CoreStateDetail :=
| DStopped (reason : option string)
| DStarting (epoch : N)
| DRunning (epoch pid : N)
| DRestarting (epoch attempt : N)
| DSwitching (from : option N) (to : N)
| DStopping (epoch : N).
Record CoreInfos := {
  ci_instance_id : option string;
  ci_type : option CoreType;
  ci_state : IpcCoreState;
  ci_state_changed_at : Z;
  ci_config_path : option string;
  ci_controller : option CoreControllerInfo;
  ci_health : option CoreHealthInfo;
  ci_revision : option ConfigRevisionInfo;
  ci_detail : option CoreStateDetail;
}.

(** ** The control plane ([api/core/v2.rs]) *)

Inductive LocalIpcPolicyInfo := WForce | WPrefer | WDisable.
Record LocalIpcSettingsInfo := { ls_policy : LocalIpcPolicyInfo; ls_keep_http_controller : bool }.
Inductive CoreCommandInfo :=
| WReconcile (local_ipc : option LocalIpcSettingsInfo) (core_type : CoreType) (config : string)
    (expected_digest : option string) (expected_applied : option RevisionIdInfo)
| WStop
| WRecover.
Record CoreSubmitReq := { sr_operation_id : string; sr_command : CoreCommandInfo }.
Record CoreOperationReq := { or_operation_id : string; or_wait_ms : option N }.
Inductive OperationPhase := PQueued | PRunning | PSucceeded | PFailed.
Inductive ReconcileOutcomeKind := OkStarted | OkNoop | OkPatched | OkReloaded | OkRestarted | OkSwitched | OkRolledBack.
Record ReconcileOutcomeInfo := {
  ro_outcome : ReconcileOutcomeKind;
  ro_revision : ConfigRevisionInfo;
  ro_warning : option string;
  ro_failed_apply : option string;
}.
Inductive OperationOutputInfo := WReconciled (info : ReconcileOutcomeInfo) | WOStopped | WRecovered | WShutDown.
Record OperationErrorInfo := { oe_kind : option string; oe_message : string; oe_retryable : bool }.
Record OperationInfo := {
  oi_id : string;
  oi_phase : OperationPhase;
  oi_output : option OperationOutputInfo;
  oi_error : option OperationErrorInfo;
}.

(** ** Events ([api/ws/events.rs]) *)

Record TraceLog := { tl_timestamp : string; tl_level : string; tl_message : string; tl_target : string }.
Inductive Event :=
| EvCoreStateChanged (state : IpcCoreState)
| EvLog (log : TraceLog)
| EvCoreStatusChanged (infos : CoreInfos)
| EvCoreLog (frame : LogFrame).

(** ** Failures of the service ([OpError]) *)

Record OpError := { op_kind : option CoreErrorKind; op_message : string; op_retryable : option bool }.
Definition plain (message : string) : OpError := {| op_kind := None; op_message := message; op_retryable := None |}.
Definition with_kind (kind : CoreErrorKind) (message : string) : OpError :=
  {| op_kind := Some kind; op_message := message; op_retryable := None |}.
Definition retryable (value : bool) (e : OpError) : OpError :=
  {| op_kind := op_kind e; op_message := op_message e; op_retryable := Some value |}.
Definition into_envelope {T} (now : Z) (e : OpError) : R T :=
  other_error_with_kind now (op_message e) (CoreErrorKind_as_str <$> op_kind e) (op_retryable e).
Definition MSG_CORE_NOT_STARTED : string := "core have not been started yet".
Definition OpError_from (error : Error) : OpError :=
  {| op_kind := Error_kind error;
     op_message := match error with NotStarted => MSG_CORE_NOT_STARTED | _ => Error_to_string error end;
     op_retryable := None |}.
Definition op_error_from_control (error : CoreError) : OpError :=
  retryable (ce_retryable error)
    match ce_kind error with
    | Some kind => with_kind kind (ce_message error)
    | None => plain (ce_message error)
    end.

(** ** Projections *)

Definition map_core_state (state : CoreState) : IpcCoreState :=
  match state with
  | CRunning _ _ | CSwitching _ _ | CStopping _ => WRunning
  | CStarting _ | CRestarting _ _ => WStopped None
  | CStopped reason => WStopped (StopReason_fmt <$> reason)
  end.
Definition map_state_detail (state : CoreState) : option CoreStateDetail :=
  match state with
  | CStopped reason => Some (DStopped (StopReason_fmt <$> reason))
  | CStarting epoch => Some (DStarting (Epoch_get epoch))
  | CRunning epoch pid => Some (DRunning (Epoch_get epoch) pid)
  | CRestarting epoch attempt => Some (DRestarting (Epoch_get epoch) attempt)
  | CSwitching from to => Some (DSwitching (Epoch_get <$> from) (Epoch_get to))
  | CStopping epoch => Some (DStopping (Epoch_get epoch))
  end.
Definition same_ipc_state (previous next : IpcCoreState) : bool :=
  match previous, next with
  | WRunning, WRunning => true
  | WStopped previous, WStopped next => bool_decide (previous = next)
  | _, _ => false
  end.
Definition map_health (health : HealthStatus) : CoreHealthInfo :=
  {| ch_state := match hs_state health with HStarting => WStarting | HHealthy => WHealthy | HUnhealthy => WUnhealthy end;
     ch_changed_at := hs_changed_at health; ch_consecutive_failures := hs_consecutive_failures health;
     ch_last_error := hs_last_error health; ch_last_success_at := hs_last_success_at health |}.
Definition map_revision (revision : ConfigRevision) : ConfigRevisionInfo :=
  {| ri_epoch := Epoch_get (cr_epoch revision); ri_generation := cr_generation revision;
     ri_source_hash := cr_source_hash revision; ri_effective_hash := cr_effective_hash revision |}.
Definition map_revision_id (info : RevisionIdInfo) : result RevisionId OpError :=
  let? epoch := ok_or (Epoch_new (ii_epoch info)) (plain "expected revision epoch must be nonzero") in
  Ok {| rid_epoch := epoch; rid_generation := ii_generation info; rid_effective_hash := ii_effective_hash info |}.

(** The wrappers are taken off from the outside; there is no wrapper behind
    them. *)
Fixpoint outcome_parts (outcome : ApplyOutcome) : ReconcileOutcomeKind * ConfigRevision * option string :=
  match outcome with
  | ApplyDurabilityUncertain outcome _ => outcome_parts outcome
  | Started revision => (OkStarted, revision, None)
  | Noop revision => (OkNoop, revision, None)
  | Patched revision => (OkPatched, revision, None)
  | Reloaded revision => (OkReloaded, revision, None)
  | Restarted revision => (OkRestarted, revision, None)
  | Switched revision => (OkSwitched, revision, None)
  | RolledBack revision failed_apply => (OkRolledBack, revision, Some failed_apply)
  end.
Fixpoint outcome_warnings (outcome : ApplyOutcome) : list string :=
  match outcome with ApplyDurabilityUncertain outcome warning => warning :: outcome_warnings outcome | _ => [] end.
Definition map_reconcile_outcome (outcome : ApplyOutcome) : ReconcileOutcomeInfo :=
  let '(kind, revision, failed_apply) := outcome_parts outcome in
  {| ro_outcome := kind; ro_revision := map_revision revision;
     ro_warning := match outcome_warnings outcome with [] => None | warnings => Some (str_join "; " warnings) end;
     ro_failed_apply := failed_apply |}.
Fixpoint outcome_commits (outcome : ApplyOutcome) : bool :=
  match outcome with
  | ApplyDurabilityUncertain outcome _ => outcome_commits outcome
  | RolledBack _ _ => false
  | _ => true
  end.
Definition echo_commits (state : OperationState) : bool :=
  match state with Succeeded (Reconciled outcome) => outcome_commits outcome | _ => false end.
Definition map_operation_output (output : OperationOutput) : OperationOutputInfo :=
  match output with
  | Reconciled outcome => WReconciled (map_reconcile_outcome outcome)
  | OStopped => WOStopped
  | Recovered => WRecovered
  | ShutDown => WShutDown
  end.
Definition map_operation (id : OperationId) (state : OperationState) : OperationInfo :=
  let '(phase, output, error) :=
    match state with
    | Queued => (PQueued, None, None)
    | Running => (PRunning, None, None)
    | Succeeded output => (PSucceeded, Some (map_operation_output output), None)
    | Failed failure =>
        (PFailed, None,
         Some {| oe_kind := CoreErrorKind_as_str <$> ce_kind failure; oe_message := ce_message failure;
                 oe_retryable := ce_retryable failure |})
    end in
  {| oi_id := OperationId_fmt id; oi_phase := phase; oi_output := output; oi_error := error |}.

(** The URL without its user information, and the text of an instance id, are
    those of the crates [url] and [uuid]. *)
Section Projection.
Context (strip_userinfo : string -> string) (uuid_text : Uuid -> string).

Definition map_controller (host : Host) : option CoreControllerInfo :=
  match host with
  | NamedPipe path => Some (WNamedPipe path)
  | UnixSocket path => Some (WUnixSocket path)
  | Http url => Some (WHttp (strip_userinfo url))
  end.
Definition project_core_infos (status : CoreStatus) (requested_core : option CoreType) : CoreInfos :=
  {| ci_instance_id := uuid_text <$> st_instance_id status; ci_type := requested_core; ci_state := map_core_state (st_state status);
     ci_state_changed_at := st_changed_at status; ci_config_path := ss_config_path <$> st_spec status;
     ci_controller := st_controller status ≫= map_controller; ci_health := map_health <$> st_health status;
     ci_revision := map_revision <$> st_revision status; ci_detail := map_state_detail (st_state status) |}.

End Projection.

(** ** The client ([client/mod.rs]) *)

(** What [send_request] and [cast_body] make of a response: its HTTP status and
    its envelope; [None] when the body cannot be read. *)
Inductive ClientError (T : Type) := ServerResponseFailed (response : R T) | OtherFailure.
Arguments ServerResponseFailed {T} response. Arguments OtherFailure {T}.
Definition send_request {T} (status : N) (body : option (R T)) : result (R T) (ClientError T) :=
  if decide (400 <= status /\ status < 600) then
    if decide (status = 500) then
      match body with Some r => Err (ServerResponseFailed r) | None => Err OtherFailure end
    else Err OtherFailure
  else match body with Some r => Ok r | None => Err OtherFailure end.
Definition server_error_kind {T} (e : ClientError T) : option string :=
  match e with ServerResponseFailed response => r_error_kind response | _ => None end.
Definition server_retryable {T} (e : ClientError T) : option bool :=
  match e with ServerResponseFailed response => r_retryable response | _ => None end.

(** The answer of a handler of the service ([routing/core/v2.rs]). *)
Definition respond {T} (now : Z) (answer : result T OpError) : N * R T :=
  match answer with
  | Ok data => (200, success now data)
  | Err error => (500, into_envelope now error)
  end.

(** ** Round trips *)

Lemma from_wire_as_str kind : CoreErrorKind_from_wire (CoreErrorKind_as_str kind) = Some kind.
Proof. by destruct kind. Qed.

(** A classification survives the wire.  A client that is refused with
    an error of the control plane reads the kind and the retryability the
    control plane decided on; an error of the manager keeps its kind and leaves
    the retryability to the client; and an operation that failed is read back
    with the kind of its failure. *)
Theorem classification_survives_the_wire (now : Z) (error : CoreError) (domain : Error) (id : OperationId) :
  (let '(status, body) := respond (T := OperationInfo) now (Err (op_error_from_control error)) in
   exists e, send_request status (Some body) = Err e /\ server_error_kind e ≫= CoreErrorKind_from_wire = ce_kind error
   /\ server_retryable e = Some (ce_retryable error))
  /\ (let '(status, body) := respond (T := OperationInfo) now (Err (OpError_from domain)) in
      exists e, send_request status (Some body) = Err e /\ server_error_kind e ≫= CoreErrorKind_from_wire = Error_kind domain
      /\ server_retryable e = None)
  /\ (let '(status, body) := respond now (Ok (map_operation id (Failed error))) in
      exists r failure, send_request status (Some body) = Ok r /\ r_data r = Some (map_operation id (Failed error))
      /\ oi_error (map_operation id (Failed error)) = Some failure
      /\ oe_kind failure ≫= CoreErrorKind_from_wire = ce_kind error /\ oe_retryable failure = ce_retryable error).
Proof.
  split_and!.
  - eexists. split; [done|]. unfold op_error_from_control.
    destruct (ce_kind error) as [kind|]; [split; [apply (from_wire_as_str kind)|done]|done].
  - eexists. split; [done|]. split; [|done]. cbn [server_error_kind into_envelope r_error_kind other_error_with_kind op_kind OpError_from]. destruct (Error_kind domain) as [kind|]; [apply (from_wire_as_str kind)|done].
  - eexists _, _. split; [done|]. split; [done|]. split; [done|]. split; [|done].
    destruct (ce_kind error) as [kind|]; [apply (from_wire_as_str kind)|done].
Qed.

(** The token of a published revision is the revision.  What a client
    derives from a revision it was shown is read back as exactly the identity
    the manager compares, and no other revision gives the same token; an epoch
    of zero is refused. *)
Theorem revision_token_roundtrip (r r' : ConfigRevision) (generation : N) (hash : string) :
  map_revision_id (ConfigRevisionInfo_id (map_revision r)) = Ok (ConfigRevision_id r)
  /\ (ConfigRevisionInfo_id (map_revision r) = ConfigRevisionInfo_id (map_revision r') -> ConfigRevision_id r = ConfigRevision_id r')
  /\ is_ok (map_revision_id {| ii_epoch := 0; ii_generation := generation; ii_effective_hash := hash |}) = false.
Proof.
  split_and!; [done| |done]. unfold ConfigRevisionInfo_id, ConfigRevision_id, Epoch_get. cbn. by intros [= -> -> ->].
Qed.

(** The detail of a snapshot determines the lossy state beside it, and the
    manager's state up to the reason's text. *)
Definition same_shape (s s' : CoreState) : Prop :=
  match s, s' with
  | CStopped reason, CStopped reason' => StopReason_fmt <$> reason = StopReason_fmt <$> reason'
  | _, _ => s = s'
  end.
Lemma detail_is_faithful s s' :
  map_state_detail s = map_state_detail s' -> same_shape s s' /\ map_core_state s = map_core_state s'.
Proof.
  destruct s, s'; cbn; try done; unfold Epoch_get; intros [= ]; subst; try done.
  - split; [done|]. by f_equal.
  - assert (from = from0) as ->; [|done]. destruct from, from0; cbn in *; congruence.
Qed.

(** An operation carries an output exactly when it succeeded, and an error
    exactly when it failed. *)
Lemma operation_info_shape id state :
  let info := map_operation id state in
  (is_Some (oi_output info) <-> oi_phase info = PSucceeded) /\ (is_Some (oi_error info) <-> oi_phase info = PFailed).
Proof. destruct state; cbn; split; split; try done; try (by intros [? ?]); by eexists. Qed.
Lemma same_ipc_state_spec s s' : same_ipc_state s s' = true <-> s = s'.
Proof.
  destruct s as [|r], s' as [|r']; cbn; try done. rewrite bool_decide_eq_true. split; [by intros ->|by intros [= ->]].
Qed.
