(* ===== verification/Events.v ===== *)
(** * Events to the clients of the service

    The bridge that turns manager transitions and committed core types into
    events ([status_bridge] of [manager_bridge.rs]), the hub that fans them out
    ([events.rs]) and the socket of one client ([routing/ws.rs]), as one step
    relation: every read of a [watch] channel, every send and every receive is
    a step of its own, and the manager, the adapter and the tracing output of
    the service act between any two of them. *)

From S2P Require Import Prelude Types LogParser Control Wire.
Open Scope rust_scope.

Definition EVENT_CHANNEL_CAPACITY : nat := 256.
Definition LOG_EVENT_CHANNEL_CAPACITY : nat := 1024.
Arguments EVENT_CHANNEL_CAPACITY : simpl never.
Arguments LOG_EVENT_CHANNEL_CAPACITY : simpl never.

(** ** The channels *)

(** A [watch] channel: its value and how often it was sent. *)
Record Watched (A : Type) := { wc_value : A; wc_version : N }.
Arguments wc_value {A}. Arguments wc_version {A}.
Definition watched_send {A} (value : A) (c : Watched A) : Watched A :=
  {| wc_value := value; wc_version := wc_version c + 1 |}.

(** A [broadcast] channel is the list of everything sent; a receiver is a
    position.  A receiver that is further behind than the ring is long is told
    so instead of an event. *)
Inductive RecvAnswer (A : Type) := Received (a : A) (next : nat) | Lagged | Empty.
Arguments Received {A}. Arguments Lagged {A}. Arguments Empty {A}.
Definition broadcast_recv {A} (capacity : nat) (sent : list A) (next : nat) : RecvAnswer A :=
  if decide (capacity < length sent - next)%nat then Lagged
  else match sent !! next with Some a => Received a (S next) | None => Empty end.

(** [EventHub]: its two rings. *)
Record EventHub := { hub_sent : list Event; hub_log_sent : list LogFrame }.
Definition EventHub_new : EventHub := {| hub_sent := []; hub_log_sent := [] |}.
Definition hub_send (event : Event) (h : EventHub) : EventHub :=
  {| hub_sent := hub_sent h ++ [event]; hub_log_sent := hub_log_sent h |}.
Definition hub_send_log (frame : LogFrame) (h : EventHub) : EventHub :=
  {| hub_sent := hub_sent h; hub_log_sent := hub_log_sent h ++ [frame] |}.

(** A line the service traces goes to the same ring ([server/mod.rs]), unless
    the filter of the logger drops it; what it says and when is left open. *)
Definition traced (line : option TraceLog) (h : EventHub) : EventHub :=
  match line with Some log => hub_send (EvLog log) h | None => h end.

(** ** The state *)

(** Where [status_bridge] is: waiting; with a snapshot read and the core type
    to read; with both and the frame to send; with the legacy state to look
    at; with a legacy state to send; ended. [legacy]: the arm of [states]. *)
Inductive BridgePhase :=
| BrWait
| BrRead (raw : CoreStatus) (legacy : bool)
| BrSend (raw : CoreStatus) (requested : option CoreType) (legacy : bool)
| BrLegacy (raw : CoreStatus)
| BrChanged (next : IpcCoreState)
| BrEnded.

(** Where [handle_socket] is: reading the status and then the core type of a
    snapshot, writing an event, waiting, behind a lag, ended. *)
Inductive SocketPhase :=
| SkSnapshot
| SkEcho (raw : CoreStatus)
| SkSend (event : Event)
| SkLoop
| SkLagged
| SkEnded.
(** A client: the positions of its receivers, and what it was sent. *)
Record Socket := { sk_next : nat; sk_log_next : nat; sk_phase : SocketPhase; sk_received : list Event }.

Record World := {
  wd_status : Watched CoreStatus;
  wd_requested : Watched (option CoreType);
  wd_seen_status : N;
  wd_seen_requested : N;
  wd_last : IpcCoreState;
  wd_bridge : BridgePhase;
  wd_hub : EventHub;
  wd_socket : option Socket;
}.
Definition with_channels (status : Watched CoreStatus) (requested : Watched (option CoreType)) (w : World) : World :=
  {| wd_status := status; wd_requested := requested; wd_seen_status := wd_seen_status w; wd_seen_requested := wd_seen_requested w;
     wd_last := wd_last w; wd_bridge := wd_bridge w; wd_hub := wd_hub w; wd_socket := wd_socket w |}.
Definition with_bridge (seen_status seen_requested : N) (phase : BridgePhase) (w : World) : World :=
  {| wd_status := wd_status w; wd_requested := wd_requested w; wd_seen_status := seen_status; wd_seen_requested := seen_requested;
     wd_last := wd_last w; wd_bridge := phase; wd_hub := wd_hub w; wd_socket := wd_socket w |}.
Definition with_last (last : IpcCoreState) (w : World) : World :=
  {| wd_status := wd_status w; wd_requested := wd_requested w; wd_seen_status := wd_seen_status w;
     wd_seen_requested := wd_seen_requested w; wd_last := last; wd_bridge := wd_bridge w; wd_hub := wd_hub w; wd_socket := wd_socket w |}.
Definition with_hub (hub : EventHub) (w : World) : World :=
  {| wd_status := wd_status w; wd_requested := wd_requested w; wd_seen_status := wd_seen_status w;
     wd_seen_requested := wd_seen_requested w; wd_last := wd_last w; wd_bridge := wd_bridge w; wd_hub := hub; wd_socket := wd_socket w |}.
Definition with_socket (socket : option Socket) (w : World) : World :=
  {| wd_status := wd_status w; wd_requested := wd_requested w; wd_seen_status := wd_seen_status w;
     wd_seen_requested := wd_seen_requested w; wd_last := wd_last w; wd_bridge := wd_bridge w; wd_hub := wd_hub w; wd_socket := socket |}.
Definition at_phase (phase : SocketPhase) (k : Socket) : Socket :=
  {| sk_next := sk_next k; sk_log_next := sk_log_next k; sk_phase := phase; sk_received := sk_received k |}.

Section Service.
Context (strip_userinfo : string -> string) (uuid_text : Uuid -> string).
Notation project := (project_core_infos strip_userinfo uuid_text).

(** ** The bridge *)

(** The manager and the adapter start, and the bridge takes its first look. *)
Definition world_initial (status : CoreStatus) : World :=
  {| wd_status := {| wc_value := status; wc_version := 0 |}; wd_requested := {| wc_value := None; wc_version := 0 |};
     wd_seen_status := 0; wd_seen_requested := 0; wd_last := map_core_state (st_state status);
     wd_bridge := BrWait; wd_hub := EventHub_new; wd_socket := None |}.

(** The arm of [states]: [borrow_and_update]. *)
Definition bridge_take_status (w : World) : World :=
  with_bridge (wc_version (wd_status w)) (wd_seen_requested w) (BrRead (wc_value (wd_status w)) true) w.
(** The arm of [requested_core], which only borrows the status. *)
Definition bridge_take_requested (w : World) : World :=
  with_bridge (wd_seen_status w) (wc_version (wd_requested w)) (BrRead (wc_value (wd_status w)) false) w.
Definition bridge_read_requested (raw : CoreStatus) (legacy : bool) (w : World) : World :=
  with_bridge (wd_seen_status w) (wc_version (wd_requested w)) (BrSend raw (wc_value (wd_requested w)) legacy) w.
Definition bridge_at (phase : BridgePhase) (w : World) : World :=
  with_bridge (wd_seen_status w) (wd_seen_requested w) phase w.
Definition bridge_send (raw : CoreStatus) (requested : option CoreType) (legacy : bool) (w : World) : World :=
  bridge_at (if legacy then BrLegacy raw else BrWait)
    (with_hub (hub_send (EvCoreStatusChanged (project raw requested)) (wd_hub w)) w).
(** An arrival the legacy stream drops. *)
Definition dropped_arrival (state : CoreState) (last : IpcCoreState) : bool :=
  match state, last with
  | (CStopping _ | CSwitching _ _), WStopped _ => true
  | _, _ => false
  end.
(** The legacy state: a change is traced first and then sent. *)
Definition bridge_legacy (line : option TraceLog) (raw : CoreStatus) (w : World) : World :=
  let next := map_core_state (st_state raw) in
  if dropped_arrival (st_state raw) (wd_last w) || same_ipc_state (wd_last w) next then bridge_at BrWait w
  else bridge_at (BrChanged next) (with_hub (traced line (wd_hub w)) w).
Definition bridge_changed (next : IpcCoreState) (w : World) : World :=
  bridge_at BrWait (with_last next (with_hub (hub_send (EvCoreStateChanged next) (wd_hub w)) w)).

Inductive bridge_step : World -> World -> Prop :=
| bridge_status w :
    wd_bridge w = BrWait -> wd_seen_status w < wc_version (wd_status w) -> bridge_step w (bridge_take_status w)
| bridge_requested w :
    wd_bridge w = BrWait -> wd_seen_requested w < wc_version (wd_requested w) -> bridge_step w (bridge_take_requested w)
| bridge_read w raw legacy : wd_bridge w = BrRead raw legacy -> bridge_step w (bridge_read_requested raw legacy w)
| bridge_sent w raw requested legacy :
    wd_bridge w = BrSend raw requested legacy -> bridge_step w (bridge_send raw requested legacy w)
| bridge_legacy_traced w raw line : wd_bridge w = BrLegacy raw -> bridge_step w (bridge_legacy line raw w)
| bridge_legacy_sent w next : wd_bridge w = BrChanged next -> bridge_step w (bridge_changed next w).

(** ** The socket of a client *)

(** [handle_socket]: subscribed before the snapshot is read. *)
Definition socket_open (h : EventHub) : Socket :=
  {| sk_next := length (hub_sent h); sk_log_next := length (hub_log_sent h); sk_phase := SkSnapshot; sk_received := [] |}.
(** [send_event]: what the client received; a write that fails ends the
    socket. *)
Definition socket_sent (event : Event) (k : Socket) : Socket :=
  {| sk_next := sk_next k; sk_log_next := sk_log_next k; sk_phase := SkLoop; sk_received := sk_received k ++ [event] |}.
Definition socket_recv (h : EventHub) (k : Socket) : option Socket :=
  match broadcast_recv EVENT_CHANNEL_CAPACITY (hub_sent h) (sk_next k) with
  | Received event next =>
      Some {| sk_next := next; sk_log_next := sk_log_next k; sk_phase := SkSend event; sk_received := sk_received k |}
  | Lagged => Some (at_phase SkLagged k)
  | Empty => None
  end.
(** [resubscribe], and the snapshot that follows it. *)
Definition socket_resubscribe (h : EventHub) (k : Socket) : Socket :=
  {| sk_next := length (hub_sent h); sk_log_next := sk_log_next k; sk_phase := SkSnapshot; sk_received := sk_received k |}.
Definition socket_recv_log (h : EventHub) (k : Socket) : option Socket :=
  match broadcast_recv LOG_EVENT_CHANNEL_CAPACITY (hub_log_sent h) (sk_log_next k) with
  | Received frame next =>
      Some {| sk_next := sk_next k; sk_log_next := next; sk_phase := SkSend (EvCoreLog frame); sk_received := sk_received k |}
  | Lagged | Empty => None
  end.
(** The ring of the logs, behind a lag: no snapshot. *)
Definition socket_resubscribe_logs (h : EventHub) (k : Socket) : Socket :=
  {| sk_next := sk_next k; sk_log_next := length (hub_log_sent h); sk_phase := SkLoop; sk_received := sk_received k |}.
Definition log_lags (h : EventHub) (k : Socket) : bool :=
  match broadcast_recv LOG_EVENT_CHANNEL_CAPACITY (hub_log_sent h) (sk_log_next k) with Lagged => true | _ => false end.

Inductive socket_step (w : World) : Socket -> Socket -> Prop :=
| socket_status k : sk_phase k = SkSnapshot -> socket_step w k (at_phase (SkEcho (wc_value (wd_status w))) k)
| socket_echo k raw :
    sk_phase k = SkEcho raw ->
    socket_step w k (at_phase (SkSend (EvCoreStatusChanged (project raw (wc_value (wd_requested w))))) k)
| socket_send k event : sk_phase k = SkSend event -> socket_step w k (socket_sent event k)
| socket_event k k' : sk_phase k = SkLoop -> socket_recv (wd_hub w) k = Some k' -> socket_step w k k'
| socket_log k k' : sk_phase k = SkLoop -> socket_recv_log (wd_hub w) k = Some k' -> socket_step w k k'.

(** A lag of the socket: what it traces goes to the ring before it subscribes
    anew. *)
Definition socket_lag (line : option TraceLog) (k : Socket) (w : World) : World :=
  let h := traced line (wd_hub w) in with_socket (Some (socket_resubscribe h k)) (with_hub h w).
Definition socket_log_lag (line : option TraceLog) (k : Socket) (w : World) : World :=
  let h := traced line (wd_hub w) in with_socket (Some (socket_resubscribe_logs h k)) (with_hub h w).

(** What the service does by itself. *)
Inductive service_step : World -> World -> Prop :=
| service_bridge w w' : bridge_step w w' -> service_step w w'
| service_socket w k k' : wd_socket w = Some k -> socket_step w k k' -> service_step w (with_socket (Some k') w)
| service_lag w k line : wd_socket w = Some k -> sk_phase k = SkLagged -> service_step w (socket_lag line k w)
| service_log_lag w k line :
    wd_socket w = Some k -> sk_phase k = SkLoop -> log_lags (wd_hub w) k = true -> service_step w (socket_log_lag line k w).

(** ... and what happens to it: the manager publishes, a core type is committed
    or republished, another part of the service traces, the core prints, a client comes, a
    write fails, and the manager goes away. *)
Inductive outside_step : World -> World -> Prop :=
| outside_publish w status : outside_step w (with_channels (watched_send status (wd_status w)) (wd_requested w) w)
| outside_commit w requested : outside_step w (with_channels (wd_status w) (watched_send requested (wd_requested w)) w)
| outside_trace w log : outside_step w (with_hub (hub_send (EvLog log) (wd_hub w)) w)
| outside_print w frame : outside_step w (with_hub (hub_send_log frame (wd_hub w)) w)
| outside_connect w : outside_step w (with_socket (Some (socket_open (wd_hub w))) w)
| outside_fail w k event : wd_socket w = Some k -> sk_phase k = SkSend event -> outside_step w (with_socket (Some (at_phase SkEnded k)) w)
| outside_gone w : wd_bridge w = BrWait -> outside_step w (bridge_at BrEnded w).

Definition step (w w' : World) : Prop := service_step w w' \/ outside_step w w'.
Definition reachable (w : World) : Prop := exists status, rtc step (world_initial status) w.

(** ** What a client has been told *)

Definition is_status (event : Event) : bool := match event with EvCoreStatusChanged _ => true | _ => false end.
Definition last_status (events : list Event) : option Event := last (filter is_status events).
(** The frame that describes the channels as they are. *)
Definition current (w : World) : Event :=
  EvCoreStatusChanged (project (wc_value (wd_status w)) (wc_value (wd_requested w))).

Lemma last_status_snoc events e :
  last_status (events ++ [e]) = if is_status e then Some e else last_status events.
Proof.
  unfold last_status. rewrite filter_app. cbn.
  destruct (is_status e) eqn:He; simpl; [apply last_snoc|by rewrite app_nil_r].
Qed.
Lemma last_status_app events rest :
  Forall (fun e => is_status e = false) rest -> last_status (events ++ rest) = last_status events.
Proof.
  revert events. induction rest as [|e rest IH]; intros events H; [by rewrite app_nil_r|].
  apply Forall_cons in H as [He H]. rewrite cons_middle, app_assoc, IH by done. by rewrite last_status_snoc, He.
Qed.
Hint Rewrite last_status_snoc : service.

(** *** The invariant *)

(** Something of the channels is not in the ring yet. *)
Definition pending (w : World) : Prop :=
  wd_seen_status w < wc_version (wd_status w) \/ wd_seen_requested w < wc_version (wd_requested w) \/
  match wd_bridge w with BrRead _ _ | BrSend _ _ _ => True | _ => False end.
(** What the bridge has read is current, or it will look again. *)
Definition read_or_unseen (w : World) : Prop :=
  let fresh raw := raw = wc_value (wd_status w) \/ wd_seen_status w < wc_version (wd_status w) in
  match wd_bridge w with
  | BrRead raw _ => fresh raw
  | BrSend raw requested _ =>
      fresh raw /\ (requested = wc_value (wd_requested w) \/ wd_seen_requested w < wc_version (wd_requested w))
  | _ => True
  end.
Definition client_current (w : World) (k : Socket) : Prop :=
  match sk_phase k with
  | SkSnapshot | SkLagged | SkEnded => True
  | SkEcho raw => raw = wc_value (wd_status w)
  | SkSend event => last_status (sk_received k ++ [event]) = Some (current w)
  | SkLoop => last_status (sk_received k) = Some (current w)
  end.
Definition status_ahead (h : EventHub) (next : nat) : Prop := exists e, e ∈ drop next (hub_sent h) /\ is_status e = true.
Record told_inv (w : World) : Prop := {
  ti_seen_status : wd_seen_status w <= wc_version (wd_status w);
  ti_seen_requested : wd_seen_requested w <= wc_version (wd_requested w);
  ti_read : read_or_unseen w;
  ti_ring : pending w \/ last_status (hub_sent (wd_hub w)) = None \/ last_status (hub_sent (wd_hub w)) = Some (current w);
  ti_next k : wd_socket w = Some k -> (sk_next k <= length (hub_sent (wd_hub w)))%nat;
  ti_client k : wd_socket w = Some k -> pending w \/ status_ahead (wd_hub w) (sk_next k) \/ client_current w k;
}.

Lemma told_initial status : told_inv (world_initial status).
Proof. split; simpl; try done; try lia. by right; left. Qed.

Lemma status_ahead_snoc h e next :
  (next <= length (hub_sent h))%nat -> status_ahead h next \/ is_status e = true -> status_ahead (hub_send e h) next.
Proof.
  intros Hn H. unfold status_ahead. simpl. rewrite drop_app_le by done.
  destruct H as [(x & Hx & Hs)|H]; [exists x|exists e]; (split; [|done]); set_solver.
Qed.

(** The event a receiver takes is the last status of the ring, or another one
    is still ahead of it. *)
Lemma taken_or_ahead h next e :
  hub_sent h !! next = Some e ->
  status_ahead h (S next) \/ last_status (hub_sent h) = if is_status e then Some e else last_status (take next (hub_sent h)).
Proof.
  intros He.
  destruct (decide (Forall (fun x => is_status x = false) (drop (S next) (hub_sent h)))) as [Hall|Hex].
  - right. rewrite <- last_status_snoc, <- (take_S_r _ _ _ He).
    rewrite <- (take_drop (S next) (hub_sent h)) at 1. by apply last_status_app.
  - left. apply not_Forall_Exists in Hex; [|intros x; solve_decision].
    apply Exists_exists in Hex as (x & Hx & Hs). exists x. split; [done|]. simpl in Hs. by destruct (is_status x).
Qed.
(** *** Its steps *)

(** A frame that is no status snapshot changes nothing a client is told. *)
Lemma told_noise e w : is_status e = false -> told_inv w -> told_inv (with_hub (hub_send e (wd_hub w)) w).
Proof.
  intros He [V1 V2 P B N C]. split; simpl; auto.
  - by rewrite last_status_snoc, He.
  - intros k Hk. rewrite length_app. simpl. specialize (N k Hk). lia.
  - intros k Hk. specialize (N k Hk). destruct (C k Hk) as [H|[H|H]]; auto.
    right; left. by apply status_ahead_snoc; auto.
Qed.
Lemma told_traced line w : told_inv w -> told_inv (with_hub (traced line (wd_hub w)) w).
Proof. destruct line; [by apply told_noise|by destruct w]. Qed.
Definition idle (phase : BridgePhase) : Prop := match phase with BrRead _ _ | BrSend _ _ _ => False | _ => True end.
Lemma told_idle phase w : idle (wd_bridge w) -> idle phase -> told_inv w -> told_inv (bridge_at phase w).
Proof.
  intros Hb Hp [V1 V2 P B N C].
  assert (Hpend : pending w -> pending (bridge_at phase w)).
  { unfold pending. simpl. destruct (wd_bridge w), phase; simpl in *; tauto. }
  split; auto.
  - unfold read_or_unseen. simpl. by destruct phase.
  - simpl. destruct B; auto.
  - intros k Hk. destruct (C k Hk) as [H|[H|H]]; auto.
Qed.
Lemma told_last last w : told_inv w -> told_inv (with_last last w).
Proof. intros [V1 V2 P B N C]. by split. Qed.
Lemma told_print frame w : told_inv w -> told_inv (with_hub (hub_send_log frame (wd_hub w)) w).
Proof. intros [V1 V2 P B N C]. by split. Qed.
(** While it reads, everything is pending. *)
Lemma told_look seen_status seen_requested phase w :
  seen_status <= wc_version (wd_status w) -> seen_requested <= wc_version (wd_requested w) -> ~ idle phase ->
  read_or_unseen (with_bridge seen_status seen_requested phase w) -> told_inv w ->
  told_inv (with_bridge seen_status seen_requested phase w).
Proof.
  intros H1 H2 Hp Hr [V1 V2 P B N C].
  assert (pending (with_bridge seen_status seen_requested phase w)) by (right; right; simpl; by destruct phase; simpl in *; tauto).
  split; auto.
Qed.
(** The snapshot goes out: it is current, or the bridge will look again. *)
Lemma told_snapshot raw requested legacy w :
  wd_bridge w = BrSend raw requested legacy -> told_inv w -> told_inv (bridge_send raw requested legacy w).
Proof.
  intros Hb [V1 V2 P B N C]. unfold read_or_unseen in P. rewrite Hb in P. split; auto.
  - unfold read_or_unseen. simpl. by destruct legacy.
  - unfold pending. simpl. rewrite last_status_snoc. simpl. destruct P as [[->|P] [->|P']]; auto.
  - intros k Hk. simpl. rewrite length_app. specialize (N k Hk). simpl. lia.
  - intros k Hk. right; left. apply status_ahead_snoc; [by apply N|by right].
Qed.

(** The steps of the bridge. *)
Lemma bridge_keeps_told w w' : bridge_step w w' -> told_inv w -> told_inv w'.
Proof.
  intros Hs I. pose proof (ti_seen_status _ I). pose proof (ti_seen_requested _ I). pose proof (ti_read _ I) as P.
  destruct Hs as [w Hb Hlt|w Hb Hlt|w raw legacy Hb|w raw requested legacy Hb|w raw line Hb|w next Hb].
  - apply told_look; try done; auto. by left.
  - apply told_look; try done; auto. by left.
  - apply told_look; try done; auto. unfold read_or_unseen in *. rewrite Hb in P. by split; [|left].
  - by apply told_snapshot.
  - assert (idle (wd_bridge w)) by (by rewrite Hb).
    unfold bridge_legacy. case_match; apply told_idle; try done. by apply told_traced.
  - apply told_idle; simpl; [by rewrite Hb|done|]. by apply told_last, told_noise.
Qed.

(** The steps of a socket. *)
Definition client_inv (w : World) (k : Socket) : Prop :=
  (sk_next k <= length (hub_sent (wd_hub w)))%nat /\
  (pending w \/ status_ahead (wd_hub w) (sk_next k) \/ client_current w k).
Lemma client_lagged w k : (sk_next k <= length (hub_sent (wd_hub w)))%nat -> client_inv w (at_phase SkLagged k).
Proof. intros H. split; [done|]. by right; right. Qed.
Lemma status_ahead_take h next e :
  hub_sent h !! next = Some e -> status_ahead h next -> is_status e = true \/ status_ahead h (S next).
Proof.
  intros He (x & Hx & Hs). rewrite (drop_S _ _ _ He) in Hx. apply elem_of_cons in Hx as [->|Hx]; [by left|].
  right. by exists x.
Qed.
Lemma client_recv w k k' :
  told_inv w -> client_inv w k -> sk_phase k = SkLoop -> socket_recv (wd_hub w) k = Some k' -> client_inv w k'.
Proof.
  intros I [N C] Hp Hr. unfold socket_recv, broadcast_recv in Hr.
  case_decide; [by simplify_eq; apply client_lagged|].
  destruct (hub_sent (wd_hub w) !! sk_next k) as [e|] eqn:He; [|done]. injection Hr as <-.
  split; [apply lookup_lt_Some in He; simpl; lia|].
  destruct C as [C|C]; [by left|]. unfold client_current in C |- *. rewrite Hp in C. simpl. rewrite last_status_snoc.
  pose proof (taken_or_ahead _ _ _ He) as [Ha|Ha]; [by right; left|].
  destruct (is_status e) eqn:Hs.
  - destruct (ti_ring _ I) as [B|[B|B]]; [by left|by rewrite B in Ha|right; right; by rewrite <- Ha].
  - destruct C as [C|C]; [|by right; right].
    destruct (status_ahead_take _ _ _ He C) as [H'|H']; [by rewrite H' in Hs|by right; left].
Qed.
Lemma client_recv_log w k k' :
  client_inv w k -> sk_phase k = SkLoop -> socket_recv_log (wd_hub w) k = Some k' -> client_inv w k'.
Proof.
  intros [N C] Hp Hr. unfold socket_recv_log, broadcast_recv in Hr. unfold client_current in C. rewrite Hp in C.
  repeat (case_match; simplify_eq); (split; [done|]); unfold client_current; simpl; rewrite ?last_status_snoc; auto.
Qed.
Lemma client_step w k k' : told_inv w -> socket_step w k k' -> client_inv w k -> client_inv w k'.
Proof.
  intros I Hs Hc. pose proof Hc as [N C].
  destruct Hs as [k Hp|k raw Hp|k event Hp|k k' Hp Hr|k k' Hp Hr];
    [| | |by eapply client_recv|by eapply client_recv_log];
    unfold client_current in C; rewrite Hp in C; (split; [done|]); unfold client_current; simpl; auto.
  destruct C as [C|[C| ->]]; auto. right; right. by rewrite last_status_snoc.
Qed.
Lemma told_socket w k : client_inv w k -> told_inv w -> told_inv (with_socket (Some k) w).
Proof. intros [N' C'] [V1 V2 P B N C]. by split; simpl; auto; intros k0 [= <-]. Qed.

(** A publication is something the bridge has not seen. *)
Lemma told_channels status requested w :
  wc_version (wd_status w) < wc_version status /\ requested = wd_requested w \/
  status = wd_status w /\ wc_version (wd_requested w) < wc_version requested ->
  told_inv w -> told_inv (with_channels status requested w).
Proof.
  intros Hv [V1 V2 P B N C].
  assert (pending (with_channels status requested w)).
  { unfold pending. simpl. destruct Hv as [[? ->]|[-> ?]]; [left|right; left]; lia. }
  split; auto; [..|].
  - simpl. destruct Hv as [[? ->]|[-> ?]]; lia.
  - simpl. destruct Hv as [[? ->]|[-> ?]]; lia.
  - unfold read_or_unseen in *. simpl in *. destruct (wd_bridge w) as [|raw ?|raw req ?|raw|next|]; try done;
      destruct Hv as [[Hv ->]|[-> Hv]]; intuition (right; lia).
Qed.

(** Whatever happens. *)
Lemma told_step w w' : step w w' -> told_inv w -> told_inv w'.
Proof.
  intros [Hs|Hs] I.
  - destruct Hs as [w w' Hs|w k k' Hk Hs|w k line Hk Hp|w k line Hk Hp Hl]; [by eapply bridge_keeps_told|..].
    + apply told_socket; [|done]. eapply client_step; [done..|]. split; [by eapply ti_next|by eapply ti_client].
    + apply told_socket; [|by apply told_traced]. split; [simpl; lia|by right; right].
    + pose proof (told_traced line w I) as I'. apply told_socket; [|done].
      split; [by apply (ti_next _ I' k)|]. destruct (ti_client _ I' k Hk) as [C|[C|C]]; [by left|by right; left|right; right].
      unfold client_current in *. simpl. by rewrite Hp in C.
  - destruct Hs; try (by apply told_noise); try (by apply told_print); try (by apply told_idle; rewrite ?H);
      try (apply told_socket; [|done]; split; [simpl; try lia; by eapply ti_next|by right; right]);
      (apply told_channels; [|done]; simpl).
    + left. split; [lia|done].
    + right. split; [done|lia].
Qed.
Lemma told_reachable w : reachable w -> told_inv w.
Proof.
  intros [status Hr]. pose proof (told_initial status) as I. revert I Hr. generalize (world_initial status).
  intros v I Hr. induction Hr as [|u v w Hs Hr IH]; [done|]. by eapply IH, told_step.
Qed.

(** *** What is left to do *)

(** An event of the ring costs a client two steps, a change of a channel costs
    the bridge a few and up to three events; a client that lags has only its
    snapshot to write. *)
Definition bridge_work (w : World) : nat :=
  (if decide (wd_seen_status w < wc_version (wd_status w)) then 11 else 0) +
  (if decide (wd_seen_requested w < wc_version (wd_requested w)) then 5 else 0) +
  match wd_bridge w with
  | BrWait | BrEnded => 0
  | BrRead _ legacy => if legacy then 10 else 4
  | BrSend _ _ legacy => if legacy then 9 else 3
  | BrLegacy _ => 6
  | BrChanged _ => 3
  end.
Definition socket_work (h : EventHub) (k : Socket) : nat :=
  let events := (2 * (length (hub_sent h) - sk_next k))%nat in
  let logs := (2 * (length (hub_log_sent h) - sk_log_next k))%nat in
  match sk_phase k with
  | SkEnded => 0
  | SkLagged => 4 + logs
  | SkSnapshot => 3 + events + logs
  | SkEcho _ => 2 + events + logs
  | SkSend _ => 1 + events + logs
  | SkLoop => events + logs
  end%nat.
Definition work (w : World) : nat :=
  (bridge_work w + from_option (socket_work (wd_hub w)) 0 (wd_socket w))%nat.

Lemma socket_work_send e h k : (socket_work (hub_send e h) k <= 2 + socket_work h k)%nat.
Proof. unfold socket_work. simpl. rewrite length_app. simpl. case_match; lia. Qed.
Lemma socket_works w k k' : socket_step w k k' -> (socket_work (wd_hub w) k' < socket_work (wd_hub w) k)%nat.
Proof.
  assert (1 < EVENT_CHANNEL_CAPACITY)%nat by (unfold EVENT_CHANNEL_CAPACITY; lia).
  intros Hs. destruct Hs as [k Hp|k raw Hp|k event Hp|k k' Hp Hr|k k' Hp Hr]; unfold socket_work; rewrite Hp; simpl; try lia;
    unfold socket_recv, socket_recv_log, broadcast_recv in Hr; repeat case_match; simplify_eq; simpl; try lia;
    repeat match goal with H : _ !! _ = Some _ |- _ => apply lookup_lt_Some in H end; try lia.
Qed.
Lemma bridge_works w w' : bridge_step w w' -> (work w' < work w)%nat.
Proof.
  assert (Hsend : forall e o h, (from_option (socket_work (hub_send e h)) 0 o <= 2 + from_option (socket_work h) 0 o)%nat).
  { intros e [k|] h; simpl; [apply socket_work_send|lia]. }
  intros Hs. destruct Hs as [w Hb Hlt|w Hb Hlt|w raw legacy Hb|w raw requested legacy Hb|w raw line Hb|w next Hb];
    unfold work, bridge_work; rewrite Hb; try (unfold bridge_legacy, traced; destruct (_ || _), line); simpl; try rewrite Hb;
    repeat match goal with |- context [from_option (socket_work (hub_send ?e ?h)) 0%nat ?o] =>
      pose proof (Hsend e o h); generalize dependent (from_option (socket_work (hub_send e h)) 0%nat o); intros end;
    repeat case_decide; try destruct legacy; lia.
Qed.
Lemma service_works w w' : service_step w w' -> (work w' < work w)%nat.
Proof.
  intros [w1 w1' Hs|w1 k k' Hk Hs|w1 k line Hk Hp|w1 k line Hk Hp Hl]; [by apply bridge_works|..].
  - apply socket_works in Hs. unfold work, bridge_work. simpl. rewrite Hk. simpl. lia.
  - unfold work, bridge_work. simpl. rewrite Hk. simpl. unfold socket_work. rewrite Hp. simpl. destruct line; simpl; lia.
  - assert (Hlag : (LOG_EVENT_CHANNEL_CAPACITY < length (hub_log_sent (wd_hub w1)) - sk_log_next k)%nat).
    { unfold log_lags, broadcast_recv in Hl. repeat case_match; try done. }
    assert (2 < LOG_EVENT_CHANNEL_CAPACITY)%nat by (unfold LOG_EVENT_CHANNEL_CAPACITY; lia).
    unfold work, bridge_work. simpl. rewrite Hk. simpl. unfold socket_work. rewrite Hp. simpl.
    destruct line; simpl; rewrite ?length_app; simpl; lia.
Qed.

(** When the service has nothing to do, nothing is pending and a client has
    taken everything. *)
Lemma socket_stuck w k :
  wd_socket w = Some k -> (forall w', ~ service_step w w') -> sk_phase k <> SkEnded ->
  sk_phase k = SkLoop /\ (length (hub_sent (wd_hub w)) <= sk_next k)%nat /\ (length (hub_log_sent (wd_hub w)) <= sk_log_next k)%nat.
Proof.
  intros Hk Hno He. assert (Hs : forall k', ~ socket_step w k k') by (intros k' Hs; by eapply Hno, service_socket).
  destruct (sk_phase k) eqn:Hp; try done; try (exfalso; by eapply Hs; econstructor);
    try (exfalso; by apply (Hno (socket_lag None k w)), service_lag).
  split; [done|]. split.
  - destruct (socket_recv (wd_hub w) k) eqn:Hr; [by destruct (Hs _ (socket_event _ _ _ Hp Hr))|].
    unfold socket_recv, broadcast_recv in Hr. repeat case_match; try done. by apply lookup_ge_None.
  - destruct (socket_recv_log (wd_hub w) k) eqn:Hr; [by destruct (Hs _ (socket_log _ _ _ Hp Hr))|].
    destruct (log_lags (wd_hub w) k) eqn:Hl; [exfalso; by apply (Hno (socket_log_lag None k w)), service_log_lag|].
    unfold socket_recv_log, log_lags, broadcast_recv in *. repeat case_match; try done. by apply lookup_ge_None.
Qed.
Lemma bridge_stuck w : (forall w', ~ bridge_step w w') -> wd_bridge w <> BrEnded -> ~ pending w.
Proof.
  intros Hno He [H|[H|H]].
  - destruct (wd_bridge w) eqn:Hb; try done; eapply Hno; by econstructor.
  - destruct (wd_bridge w) eqn:Hb; try done; eapply Hno; by econstructor.
  - destruct (wd_bridge w) eqn:Hb; try done; eapply Hno; by econstructor.
  Unshelve. all: exact None.
Qed.

(** C37: Whatever the manager publishes, the adapter commits, the service
    traces, about itself too, and a slow client misses: from any state, the service by itself
    takes a bounded number of steps ([work]), and when it has none left, every
    client that is still there has, as the last status it was sent, the
    projection of the status and of the core type that hold then, and has
    taken every frame of both rings. *)
Theorem clients_are_told w n w' k :
  reachable w -> nsteps service_step n w w' -> wd_socket w' = Some k -> sk_phase k <> SkEnded -> wd_bridge w' <> BrEnded ->
  (n + work w' <= work w)%nat /\
  ((forall w'', ~ service_step w' w'') ->
   last_status (sk_received k) = Some (EvCoreStatusChanged (project (wc_value (wd_status w')) (wc_value (wd_requested w')))) /\
   (length (hub_sent (wd_hub w')) <= sk_next k)%nat /\ (length (hub_log_sent (wd_hub w')) <= sk_log_next k)%nat).
Proof.
  intros Hw Hn Hk Hp Hb. split.
  - clear Hw Hk Hp Hb. induction Hn as [|n w1 w2 w3 Hs Hn IH]; [done|]. apply service_works in Hs. lia.
  - intros Hno.
    assert (I : told_inv w').
    { apply told_reachable in Hw. clear - Hw Hn. induction Hn as [|n w1 w2 w3 Hs Hn IH]; [done|]. apply IH. eapply told_step; [by left|done]. }
    destruct (socket_stuck w' k) as (Hl & Hs & Hg); [done..|].
    split; [|done]. destruct (ti_client _ I k Hk) as [H|[(e & He & _)|H]].
    + destruct (bridge_stuck w'); try done. intros w'' Hs'. eapply Hno. by apply service_bridge.
    + by rewrite drop_ge in He by done; apply not_elem_of_nil in He.
    + unfold client_current in H. by rewrite Hl in H.
Qed.
End Service.

(** ** A run *)

(** One schedule of the service: the bridge first, changes of the status
    before changes of the core type, then the client, who does not lag; nothing
    is traced. *)
Definition bridge_turn strip uuid (w : World) : option World :=
  match wd_bridge w with
  | BrWait =>
      if decide (wd_seen_status w < wc_version (wd_status w)) then Some (bridge_take_status w)
      else if decide (wd_seen_requested w < wc_version (wd_requested w)) then Some (bridge_take_requested w)
      else None
  | BrRead raw legacy => Some (bridge_read_requested raw legacy w)
  | BrSend raw requested legacy => Some (bridge_send strip uuid raw requested legacy w)
  | BrLegacy raw => Some (bridge_legacy None raw w)
  | BrChanged next => Some (bridge_changed next w)
  | BrEnded => None
  end.
Definition socket_turn strip uuid (w : World) (k : Socket) : option Socket :=
  match sk_phase k with
  | SkSnapshot => Some (at_phase (SkEcho (wc_value (wd_status w))) k)
  | SkEcho raw => Some (at_phase (SkSend (EvCoreStatusChanged (project_core_infos strip uuid raw (wc_value (wd_requested w))))) k)
  | SkSend event => Some (socket_sent event k)
  | SkLoop => match socket_recv (wd_hub w) k with Some k' => Some k' | None => socket_recv_log (wd_hub w) k end
  | SkLagged | SkEnded => None
  end.
Definition turn strip uuid (w : World) : option World :=
  match bridge_turn strip uuid w with
  | Some w' => Some w'
  | None => match wd_socket w with Some k => (fun k' => with_socket (Some k') w) <$> socket_turn strip uuid w k | None => None end
  end.
Fixpoint turns strip uuid (n : nat) (w : World) : World :=
  match n with O => w | S n => match turn strip uuid w with Some w' => turns strip uuid n w' | None => w end end.
Fixpoint turns_taken strip uuid (n : nat) (w : World) : nat :=
  match n with O => O | S n => match turn strip uuid w with Some w' => S (turns_taken strip uuid n w') | None => O end end.

Lemma bridge_turn_step strip uuid w w' : bridge_turn strip uuid w = Some w' -> bridge_step strip uuid w w'.
Proof.
  unfold bridge_turn. destruct (wd_bridge w) as [|raw legacy|raw requested legacy|raw|next|] eqn:Hb; intros H; repeat case_decide;
    simplify_eq; by econstructor.
Qed.
Lemma socket_turn_step strip uuid w k k' : socket_turn strip uuid w k = Some k' -> socket_step strip uuid w k k'.
Proof.
  unfold socket_turn. destruct (sk_phase k) as [|raw|event| | |] eqn:Hp; intros H; try (simplify_eq; by econstructor).
  destruct (socket_recv (wd_hub w) k) eqn:Hr; simplify_eq; [by eapply socket_event|by eapply socket_log].
Qed.
Lemma turn_step strip uuid w w' : turn strip uuid w = Some w' -> service_step strip uuid w w'.
Proof.
  unfold turn. destruct (bridge_turn strip uuid w) as [w1|] eqn:Hb; intros H.
  - simplify_eq. apply service_bridge. by apply bridge_turn_step.
  - destruct (wd_socket w) as [k|] eqn:Hk; [|done]. destruct (socket_turn strip uuid w k) as [k'|] eqn:Hs; [|done].
    injection H as <-. eapply service_socket; [done|]. by apply socket_turn_step.
Qed.
Lemma turns_steps strip uuid n w : nsteps (service_step strip uuid) (turns_taken strip uuid n w) w (turns strip uuid n w).
Proof.
  revert w. induction n as [|n IH]; intros w; simpl; [constructor|].
  destruct (turn strip uuid w) as [w'|] eqn:Ht; [|constructor]. econstructor; [by apply turn_step|apply IH].
Qed.

(** A client connects to a stopped service, a core starts, its type is
    committed. *)
Definition some_uuid (u : Uuid) : string := "8899aabb-0000-0000-0000-000000000000".
Definition some_strip (s : string) : string := s.
Definition some_world : World :=
  let w := world_initial (CoreStatus_initial 5) in
  let w := with_socket (Some (socket_open (wd_hub w))) w in
  let w := with_channels (watched_send {| st_instance_id := None; st_state := CRunning 3%positive 7; st_changed_at := 9; st_health := None;
                                          st_spec := None; st_controller := None; st_revision := None |} (wd_status w)) (wd_requested w) w in
  with_channels (wd_status w) (watched_send (Some (TClash TMihomo)) (wd_requested w)) w.
Lemma some_world_reachable : reachable some_strip some_uuid some_world.
Proof.
  exists (CoreStatus_initial 5). eapply rtc_l; [right; apply outside_connect|].
  eapply rtc_l; [right; apply outside_publish|]. eapply rtc_l; [right; apply outside_commit|]. constructor.
Qed.

Lemma clients_are_told_witness :
  exists k : Socket,
    wd_socket (turns some_strip some_uuid 40 some_world) = Some k
    /\ (turns_taken some_strip some_uuid 40 some_world + work (turns some_strip some_uuid 40 some_world) <= work some_world)%nat
    /\ turns_taken some_strip some_uuid 40 some_world = 12%nat.
Proof.
  destruct (wd_socket (turns some_strip some_uuid 40 some_world)) as [k|] eqn:Hk; [|by vm_compute in Hk].
  exists k. split; [done|]. split; [|by vm_compute].
  apply (clients_are_told some_strip some_uuid some_world (turns_taken some_strip some_uuid 40 some_world)
           (turns some_strip some_uuid 40 some_world) k).
  - apply some_world_reachable.
  - apply turns_steps.
  - done.
  - vm_compute in Hk. by injection Hk as <-.
  - by vm_compute.
Defined.
