(* ===== verification/Health.v ===== *)
(** * Health tracking

    [health/mod.rs]: the validated policy, the tracker that turns probe
    results into health states, and the cap on recorded error texts.  The
    tracker is proved against a specification over the whole history of
    observations, and the cap against the UTF-8 structure of the text. *)

From S2P Require Export Text Types.
Open Scope rust_scope.

Definition MAX_LAST_ERROR_BYTES : nat := 512.

Record HealthPolicySpec := {
  hps_interval : Duration;
  hps_timeout : Duration;
  hps_failure : positive;
  hps_success : positive;
  hps_start_period : Duration;
}.

(** [HealthPolicy::new]. *)
Definition HealthPolicy_new (spec : HealthPolicySpec) : result HealthPolicy Error :=
  if duration_is_zero (hps_interval spec) then
    Err (InvalidHealthPolicy "interval must be greater than zero")
  else if duration_is_zero (hps_timeout spec) then
    Err (InvalidHealthPolicy "timeout must be greater than zero")
  else
    Ok {| hp_interval := hps_interval spec; hp_timeout := hps_timeout spec;
          hp_failure_threshold := hps_failure spec; hp_success_threshold := hps_success spec;
          hp_start_period := hps_start_period spec |}.

Definition HealthPolicy_default : HealthPolicy :=
  {| hp_interval := duration_from_millis 250; hp_timeout := duration_from_secs 1;
     hp_failure_threshold := 3; hp_success_threshold := 1; hp_start_period := 0 |}.

Inductive ProbeResult := ProbeHealthy | ProbeUnhealthy (detail : option string).

Inductive TrackerState := TStarting | THealthy | TUnhealthy.
#[export] Instance TrackerState_eq_dec : EqDecision TrackerState.
Proof. solve_decision. Defined.

Record TrackerUpdate := {
  tu_state : TrackerState;
  tu_transitioned : bool;
  tu_consecutive_failures : N;
  tu_last_error : option string;
}.

(** Instants are nanoseconds of a clock of the host. *)
Definition Instant := N.

Record HealthTracker := {
  ht_policy : HealthPolicy;
  ht_started_at : Instant;
  ht_grace_ended : bool;
  ht_state : TrackerState;
  ht_consecutive_failures : N;
  ht_consecutive_successes : N;
  ht_last_error : option string;
}.

Definition HealthTracker_new (policy : HealthPolicy) (started_at : Instant) : HealthTracker :=
  {| ht_policy := policy; ht_started_at := started_at; ht_grace_ended := false;
     ht_state := TStarting; ht_consecutive_failures := 0; ht_consecutive_successes := 0;
     ht_last_error := None |}.

(** ** The cap on error texts *)

Definition cap_detail (detail : string) : string :=
  if (String.length detail <=? MAX_LAST_ERROR_BYTES)%nat then detail
  else String.substring 0 (floor_boundary detail MAX_LAST_ERROR_BYTES) detail.

(** ** Observations *)

Definition observe (self : HealthTracker) (now : Instant) (result : ProbeResult)
  : TrackerUpdate * HealthTracker :=
  let policy := ht_policy self in
  let next :=
    match result with
    | ProbeHealthy =>
        let '(state, successes) :=
          if decide (ht_state self = THealthy) then (THealthy, 0)
          else
            let successes := saturating_add u32_max (ht_consecutive_successes self) 1 in
            if decide (N.pos (hp_success_threshold policy) <= successes)
            then (THealthy, 0) else (ht_state self, successes) in
        {| ht_policy := policy; ht_started_at := ht_started_at self; ht_grace_ended := true;
           ht_state := state; ht_consecutive_failures := 0; ht_consecutive_successes := successes;
           ht_last_error := None |}
    | ProbeUnhealthy detail =>
        let grace_active :=
          negb (ht_grace_ended self)
          && bool_decide (now < ht_started_at self + hp_start_period policy) in
        let '(state, failures) :=
          if grace_active then (ht_state self, ht_consecutive_failures self)
          else
            let failures := saturating_add u32_max (ht_consecutive_failures self) 1 in
            if decide (ht_state self <> TUnhealthy /\ N.pos (hp_failure_threshold policy) <= failures)
            then (TUnhealthy, failures) else (ht_state self, failures) in
        {| ht_policy := policy; ht_started_at := ht_started_at self;
           ht_grace_ended := ht_grace_ended self; ht_state := state;
           ht_consecutive_failures := failures; ht_consecutive_successes := 0;
           ht_last_error := cap_detail <$> detail |}
    end in
  ({| tu_state := ht_state next; tu_transitioned := bool_decide (ht_state self <> ht_state next);
      tu_consecutive_failures := ht_consecutive_failures next; tu_last_error := ht_last_error next |},
   next).

(** ** The history a tracker has seen, newest observation first *)

Definition History := list (Instant * ProbeResult).

Fixpoint run_tracker (policy : HealthPolicy) (started_at : Instant) (h : History) : HealthTracker :=
  match h with
  | [] => HealthTracker_new policy started_at
  | (now, result) :: older => (observe (run_tracker policy started_at older) now result).2
  end.

Fixpoint ever_healthy (h : History) : bool :=
  match h with
  | [] => false
  | (_, ProbeHealthy) :: _ => true
  | (_, ProbeUnhealthy _) :: older => ever_healthy older
  end.

(** A failure counts once the start period is over or a success was seen. *)
Definition counts (policy : HealthPolicy) (started_at now : Instant) (older : History) : bool :=
  ever_healthy older || bool_decide (started_at + hp_start_period policy <= now).

(** The counted failures since the last success. *)
Fixpoint failures (policy : HealthPolicy) (started_at : Instant) (h : History) : N :=
  match h with
  | [] => 0
  | (_, ProbeHealthy) :: _ => 0
  | (now, ProbeUnhealthy _) :: older =>
      failures policy started_at older + (if counts policy started_at now older then 1 else 0)
  end.

(** The successes since the last failure. *)
Fixpoint successes (h : History) : N :=
  match h with
  | (_, ProbeHealthy) :: older => successes older + 1
  | _ => 0
  end.

(** What the state should be: healthy after enough successes in a row,
    unhealthy after enough counted failures since the last success, and
    otherwise what it was. *)
Fixpoint spec_state (policy : HealthPolicy) (started_at : Instant) (h : History) : TrackerState :=
  match h with
  | [] => TStarting
  | (now, result) :: older =>
      let before := spec_state policy started_at older in
      match result with
      | ProbeHealthy =>
          if decide (N.pos (hp_success_threshold policy) <= successes h) then THealthy else before
      | ProbeUnhealthy _ =>
          if counts policy started_at now older
             && bool_decide (N.pos (hp_failure_threshold policy) <= failures policy started_at h)
          then TUnhealthy else before
      end
  end.

Definition spec_error (h : History) : option string :=
  match h with
  | (_, ProbeUnhealthy detail) :: _ => cap_detail <$> detail
  | _ => None
  end.

(** ** Lemmas *)

Section Tracker.
Context (policy : HealthPolicy) (started_at : Instant).
Context (failure_u32 : N.pos (hp_failure_threshold policy) <= u32_max).
Context (success_u32 : N.pos (hp_success_threshold policy) <= u32_max).

Notation run := (run_tracker policy started_at).
Notation spec := (spec_state policy started_at).
Notation fails := (failures policy started_at).

Lemma run_tracker_policy h : ht_policy (run h) = policy /\ ht_started_at (run h) = started_at.
Proof.
  induction h as [|[now [|detail]] h [IH1 IH2]]; cbn [run_tracker]; [done| |];
    unfold observe; cbn [snd]; repeat (destruct (decide _) || case_match); simplify_eq/=; done.
Qed.

(** While the specification is healthy every success keeps it healthy. *)
Lemma spec_healthy_or_short h :
  spec h = THealthy \/ successes h < N.pos (hp_success_threshold policy).
Proof.
  induction h as [|[now [|detail]] h IH]; cbn [spec_state successes]; [right; lia| |right; lia].
  case_decide; [by left|]. destruct IH as [->|]; [by left|right; lia].
Qed.

Definition tracks (h : History) (t : HealthTracker) : Prop :=
  ht_policy t = policy /\ ht_started_at t = started_at
  /\ ht_state t = spec h
  /\ ht_consecutive_failures t = N.min u32_max (fails h)
  /\ ht_consecutive_successes t = (if decide (spec h = THealthy) then 0 else successes h)
  /\ ht_grace_ended t = ever_healthy h
  /\ ht_last_error t = spec_error h.

Lemma tracks_healthy h t now :
  tracks h t -> tracks ((now, ProbeHealthy) :: h) (observe t now ProbeHealthy).2.
Proof.
  intros (Hp & Hs & Hst & Hf & Hsu & Hg & He). unfold observe. cbn [snd]. rewrite Hp, Hst, Hs.
  pose proof (spec_healthy_or_short h) as Hshort.
  destruct (decide (spec h = THealthy)) as [Hh|Hh].
  - repeat split; cbn [ht_state ht_consecutive_successes spec_state successes].
    + rewrite Hh. by case_decide.
    + rewrite Hh. by repeat case_decide.
  - destruct Hshort as [?|Hshort]; [done|]. rewrite Hsu.
    unfold saturating_add. rewrite N.min_r by lia.
    repeat split; cbn [ht_state ht_consecutive_successes spec_state successes];
      destruct (decide (_ <= successes h + 1)); cbn [ht_state ht_consecutive_successes]; try done;
      by rewrite decide_False by done.
Qed.

Lemma tracks_unhealthy h t now detail :
  tracks h t -> tracks ((now, ProbeUnhealthy detail) :: h) (observe t now (ProbeUnhealthy detail)).2.
Proof.
  intros (Hp & Hs & Hst & Hf & Hsu & Hg & He). unfold observe. cbn [snd].
  rewrite Hp, Hst, Hs, Hf, Hg. unfold tracks.
  cbn [spec_state failures ever_healthy spec_error successes].
  assert (negb (ever_healthy h) && bool_decide (now < started_at + hp_start_period policy)
    = negb (counts policy started_at now h)) as ->.
  { unfold counts. destruct (ever_healthy h); [done|]. cbn.
    destruct (decide (now < started_at + hp_start_period policy)).
    - rewrite bool_decide_true by done. by rewrite bool_decide_false by lia.
    - rewrite bool_decide_false by done. by rewrite bool_decide_true by lia. }
  destruct (counts policy started_at now h); cbn [negb andb].
  - unfold saturating_add.
    replace (N.min u32_max (N.min u32_max (fails h) + 1)) with (N.min u32_max (fails h + 1)) by lia.
    destruct (decide (N.pos (hp_failure_threshold policy) <= fails h + 1)) as [Ht|Ht].
    + rewrite bool_decide_true by done.
      destruct (decide (spec h <> TUnhealthy /\ _)) as [Hd|Hd]; cbn; repeat split;
        try (by rewrite decide_False by done); try done.
      destruct (decide (spec h = TUnhealthy)) as [->|]; [done|]. exfalso. apply Hd. split; [done|lia].
    + rewrite bool_decide_false by done.
      rewrite (decide_False (P := spec h <> TUnhealthy /\ _)) by (intros [_ ?]; lia).
      cbn. repeat split; try done. by case_decide.
  - cbn. rewrite N.add_0_r. repeat split; try done. by case_decide.
Qed.

Lemma run_tracks h : tracks h (run h).
Proof.
  induction h as [|[now [|detail]] h IH]; cbn [run_tracker].
  - by repeat split.
  - by apply tracks_healthy.
  - by apply tracks_unhealthy.
Qed.

End Tracker.

(** ** Properties of the tracker *)

(** C36: the tracker implements its specification.  After any sequence of
    observations its state is the one the history calls for - healthy after
    [success_threshold] successes in a row, unhealthy after
    [failure_threshold] failures since the last success, where failures inside
    the start period count only once a success was seen - its failure counter is
    the number of those failures (saturating at 32 bits), and its recorded error
    is that of the last observation. *)
Theorem tracker_implements_history (policy : HealthPolicy) (started_at : Instant) (h : History) :
  N.pos (hp_failure_threshold policy) <= u32_max ->
  N.pos (hp_success_threshold policy) <= u32_max ->
  let t := run_tracker policy started_at h in
  ht_state t = spec_state policy started_at h
  /\ ht_consecutive_failures t = N.min u32_max (failures policy started_at h)
  /\ ht_last_error t = spec_error h.
Proof.
  intros Hf Hs. destruct (run_tracks policy started_at Hf Hs h) as (_ & _ & ? & ? & _ & _ & ?). done.
Qed.

Definition sample_history : History :=
  [(60, ProbeUnhealthy (Some "c")); (50, ProbeUnhealthy (Some "b")); (40, ProbeUnhealthy (Some "a"));
   (30, ProbeHealthy); (20, ProbeUnhealthy None)].

Lemma tracker_implements_history_witness :
  ht_state (run_tracker HealthPolicy_default 0 sample_history) = TUnhealthy.
Proof. apply (tracker_implements_history HealthPolicy_default 0 sample_history); vm_compute; discriminate. Defined.

(** Failures only, newest first. *)
Definition all_failures (h : History) : Prop := Forall (fun o => exists d, o.2 = ProbeUnhealthy d) h.

Lemma failures_of_failures policy started_at h h' :
  all_failures h' -> failures policy started_at (h' ++ h) <= failures policy started_at h + N.of_nat (length h').
Proof.
  induction 1 as [|[now r] h' [d Hd] _ IH]; cbn [app length]; [lia|].
  cbn in Hd. subst r. cbn [failures]. destruct (counts _ _ _ _); lia.
Qed.

(** A healthy core is not called unhealthy by a blip.  From any history
    that ends in a success and has the tracker healthy, fewer than
    [failure_threshold] further failures leave it healthy, and the
    [failure_threshold]-th one makes it unhealthy. *)
Theorem failures_below_threshold_keep_healthy (policy : HealthPolicy) (started_at now : Instant)
    (h h' : History) :
  N.pos (hp_failure_threshold policy) <= u32_max ->
  N.pos (hp_success_threshold policy) <= u32_max ->
  all_failures h' ->
  ht_state (run_tracker policy started_at ((now, ProbeHealthy) :: h)) = THealthy ->
  (N.of_nat (length h') < N.pos (hp_failure_threshold policy) ->
     ht_state (run_tracker policy started_at (h' ++ (now, ProbeHealthy) :: h)) = THealthy)
  /\ (N.of_nat (length h') = N.pos (hp_failure_threshold policy) ->
     ht_state (run_tracker policy started_at (h' ++ (now, ProbeHealthy) :: h)) = TUnhealthy).
Proof.
  intros Hf Hs Hall.
  assert (forall g, ht_state (run_tracker policy started_at g) = spec_state policy started_at g) as Hrun.
  { intros g. by destruct (run_tracks policy started_at Hf Hs g) as (_ & _ & ? & _). }
  rewrite !Hrun. intros H0.
  assert (forall g, all_failures g ->
    failures policy started_at (g ++ (now, ProbeHealthy) :: h) = N.of_nat (length g)
    /\ ever_healthy (g ++ (now, ProbeHealthy) :: h) = true) as Hcount.
  { induction 1 as [|[n r] g [d Hd] _ [IH1 IH2]]; [done|]. cbn in Hd. subst r.
    cbn [app failures ever_healthy length]. unfold counts. rewrite IH1, IH2. cbn. split; [lia|done]. }
  assert (forall g, all_failures g -> N.of_nat (length g) < N.pos (hp_failure_threshold policy) ->
    spec_state policy started_at (g ++ (now, ProbeHealthy) :: h) = THealthy) as Hbelow.
  { induction 1 as [|[n r] g [d Hd] Hg IH]; [done|]. cbn in Hd. subst r. cbn [length]. intros Hlt.
    change (((n, ProbeUnhealthy d) :: g) ++ (now, ProbeHealthy) :: h)
      with ((n, ProbeUnhealthy d) :: g ++ (now, ProbeHealthy) :: h).
    cbn [spec_state failures]. rewrite IH by lia. destruct (Hcount g Hg) as [-> He].
    unfold counts. rewrite He. cbn. by rewrite bool_decide_false by lia. }
  split; [by apply Hbelow|]. destruct Hall as [|[n r] g [d Hd] Hg]; [cbn; lia|].
  cbn in Hd. subst r. cbn [length]. intros Hlen.
  change (((n, ProbeUnhealthy d) :: g) ++ (now, ProbeHealthy) :: h)
    with ((n, ProbeUnhealthy d) :: g ++ (now, ProbeHealthy) :: h).
  cbn [spec_state failures]. destruct (Hcount g Hg) as [-> He]. unfold counts. rewrite He. cbn.
  by rewrite bool_decide_true by lia.
Qed.

Lemma failures_below_threshold_keep_healthy_witness :
  ht_state (run_tracker HealthPolicy_default 0 [(3, ProbeUnhealthy None); (2, ProbeUnhealthy None); (1, ProbeHealthy)])
    = THealthy.
Proof.
  apply (failures_below_threshold_keep_healthy HealthPolicy_default 0 1 []
    [(3, ProbeUnhealthy None); (2, ProbeUnhealthy None)]); try (vm_compute; congruence).
  repeat constructor; by eexists.
Defined.

(** ** The cap keeps text *)

(** The cap keeps error texts short and readable: a capped text has at
    most 512 bytes and is a prefix of the original; a text that is valid stays
    valid (no character is cut), and an over-long valid text loses at most three
    bytes to that. *)
Theorem cap_detail_keeps_text (detail : string) :
  (String.length (cap_detail detail) <= MAX_LAST_ERROR_BYTES)%nat
  /\ (exists rest, detail = cap_detail detail +:+ rest)
  /\ (Utf8 detail -> Utf8 (cap_detail detail))
  /\ (Utf8 detail -> (MAX_LAST_ERROR_BYTES < String.length detail)%nat ->
        (MAX_LAST_ERROR_BYTES - 3 <= String.length (cap_detail detail))%nat).
Proof.
  unfold cap_detail. destruct (Nat.leb_spec (String.length detail) MAX_LAST_ERROR_BYTES) as [Hle|Hgt].
  { split; [done|]. split; [exists ""; by rewrite string_app_nil_r|]. split; [done|lia]. }
  destruct (floor_boundary_spec detail MAX_LAST_ERROR_BYTES) as (Hf & Hb & Hmax).
  set (n := floor_boundary detail MAX_LAST_ERROR_BYTES) in *.
  destruct (substring_split detail n ltac:(lia)) as (rest & Hrest & Hlen).
  split; [lia|]. split; [by exists rest|]. split.
  - intros Hu. destruct (Utf8_boundary _ Hu n ltac:(lia)) as [Hok _]. by apply Hok.
  - intros Hu _. destruct (Utf8_boundary _ Hu MAX_LAST_ERROR_BYTES ltac:(lia)) as [_ (k & Hk1 & Hk2 & Hk3)].
    rewrite Hlen. destruct (decide (n < k)%nat) as [Hnk|]; [|lia].
    rewrite Hmax in Hk3 by lia. done.
Qed.
