(* ===== verification/Supervisor.v ===== *)
(** * The process supervisor

    [chimera-utils/src/process/supervisor.rs]: the back-off schedule, the
    restart policies, and the supervision loop as a step relation.  The steps
    interleave the loop with the calls of other tasks ([stop],
    [acknowledge_ready], a cancelled token), the clock and the child.  The
    theorems bound restarts and crash storms, give the order of the events the
    monitor of an instance relies on, and show that a cancelled loop winds
    down. *)

From stdpp Require Import relations.
From S2P Require Export Health.
Open Scope rust_scope.

(** ** Policies *)

(** [RestartStormPolicy]. *)
Record RestartStormPolicy := { max_failures : N; window : Duration }.
Definition RestartStormPolicy_new (failures : N) (w : Duration) : RestartStormPolicy :=
  {| max_failures := N.max failures 1; window := N.max w (duration_from_millis 1) |}.
Definition RestartStormPolicy_default : RestartStormPolicy :=
  RestartStormPolicy_new 5 (duration_from_secs (5 * 60)).

(** [Backoff::exponential]; its [debug_assert] is the hypothesis
    [bo_initial b <= bo_max b] of the theorems. *)
Definition exponential (initial max : Duration) : Backoff :=
  {| bo_initial := initial; bo_max := max; bo_jitter := false |}.
Definition with_jitter (b : Backoff) : Backoff :=
  {| bo_initial := bo_initial b; bo_max := bo_max b; bo_jitter := true |}.

(** [Duration::MAX], [Duration::saturating_mul] and [u32::saturating_pow]. *)
Definition duration_max : Duration := duration_from_secs (u64_modulus - 1) + 999999999.
Definition duration_saturating_mul (d : Duration) (n : N) : Duration := N.min duration_max (d * n).
Definition u32_saturating_pow (base exponent : N) : N := N.min u32_max (base ^ exponent).

(** [time_entropy] of a clock reading and the count of earlier calls. *)
Definition time_entropy (nanos count : N) : N :=
  let golden := 11400714819323198485 in
  let add a b := (a + b) mod u64_modulus in
  let z := add (add (nanos mod u64_modulus) (wrapping_mul u64_modulus count golden)) golden in
  let z := wrapping_mul u64_modulus (N.lxor z (N.shiftr z 30)) 13787848793156543929 in
  let z := wrapping_mul u64_modulus (N.lxor z (N.shiftr z 27)) 10723151780598845931 in
  N.lxor z (N.shiftr z 31).

Definition backoff_base (b : Backoff) (attempt : N) : Duration :=
  N.min (duration_saturating_mul (bo_initial b) (u32_saturating_pow 2 (N.min attempt 30))) (bo_max b).

(** [Backoff::delay_for] with the entropy its jitter draws; the [u64]
    arithmetic wraps. *)
Definition delay_for (b : Backoff) (attempt entropy : N) : Duration :=
  let base := backoff_base b attempt in
  if bo_jitter b then
    let base_ns := N.max base 1 mod u64_modulus in
    let span := base_ns / 2 in
    let offset := entropy mod N.max span 1 in
    (base_ns - span / 2 + offset) mod u64_modulus
  else base.

(** [process/error.rs]; the [Debug] text of a duration is a parameter. *)
Inductive ProcessError :=
| PeIo (error : string)
| PeSpawn (program message : string)
| PeTimeout (after : Duration)
| PeAlreadyExited
| PeStdinUnavailable
| PeEngine (message : string).
Definition ProcessError_to_string (debug : Duration -> string) (e : ProcessError) : string :=
  match e with
  | PeIo error => "io error: " +:+ error
  | PeSpawn program message => "failed to spawn `" +:+ program +:+ "`: " +:+ message
  | PeTimeout after => "process timed out after " +:+ debug after
  | PeAlreadyExited => "process already exited"
  | PeStdinUnavailable => "stdin is not piped (enable Command::pipe_stdin) or already closed"
  | PeEngine message => "process engine error: " +:+ message
  end.

(** [stop_process]: what the graceful request and the kill answer. *)
Inductive StopStrategy := Graceful | Kill.
Definition stop_process (strategy : StopStrategy) (graceful_kill kill : result () ProcessError)
    : result () ProcessError :=
  match strategy, graceful_kill with
  | Graceful, Ok _ => Ok tt
  | _, _ => match kill with Err PeAlreadyExited => Ok tt | answer => answer end
  end.

Inductive ReadinessProbe := AliveAfter (delay : Duration) | Acknowledged.

Record TerminatedPayload := { tp_code : option Z; tp_signal : option Z }.
Definition clean_exit (p : TerminatedPayload) : bool := bool_decide (tp_code p = Some 0%Z).

Inductive SupervisorEvent :=
| SvStarted (pid : N)
| SvReady
| SvExited (payload : TerminatedPayload)
| SvRestarting (attempt : N) (delay : Duration)
| SvGaveUp
| SvPreparationFailed (detail : string)
| SvStopped.

Record SupervisorOptions := {
  so_policy : RestartPolicy;
  so_backoff : Backoff;
  so_readiness : ReadinessProbe;
  so_storm : RestartStormPolicy;
}.
Definition SupervisorOptions_default : SupervisorOptions :=
  {| so_policy := OnFailure 5;
     so_backoff := with_jitter (exponential (duration_from_secs 1) (duration_from_secs 30));
     so_readiness := AliveAfter (duration_from_millis 1500);
     so_storm := RestartStormPolicy_default |}.

(** ** The state *)

(** Where the task of the loop is. *)
Inductive Phase :=
| PRunning (readiness_pending cancelled : bool) (ready_at : Instant)  (* the select over a child *)
| PWaiting (until : Instant)                                           (* asleep before a restart *)
| PPreparing                                                           (* about to call [prepare] *)
| PSpawning                                                            (* about to spawn *)
| PEnded.

Record Child := { ch_pid : N; ch_alive : bool }.

(** [l_slot] tells whether the shared [current] still holds the handle of
    [l_child]; [l_acks] is the readiness channel and [l_ackers] the calls of
    [acknowledge_ready] between their look at [current] and their exchange. *)
Record Loop := {
  l_now : Instant;
  l_token : bool;
  l_attempt : N;
  l_exits : list Instant;
  l_child : option Child;
  l_slot : bool;
  l_pending : N;
  l_acks : list N;
  l_ackers : list N;
  l_phase : Phase;
  l_events : list (Instant * SupervisorEvent);
}.

Definition set_phase (p : Phase) (l : Loop) : Loop :=
  {| l_now := l_now l; l_token := l_token l; l_attempt := l_attempt l; l_exits := l_exits l;
     l_child := l_child l; l_slot := l_slot l; l_pending := l_pending l; l_acks := l_acks l;
     l_ackers := l_ackers l; l_phase := p; l_events := l_events l |}.
Definition sv_emit (e : SupervisorEvent) (l : Loop) : Loop :=
  {| l_now := l_now l; l_token := l_token l; l_attempt := l_attempt l; l_exits := l_exits l;
     l_child := l_child l; l_slot := l_slot l; l_pending := l_pending l; l_acks := l_acks l;
     l_ackers := l_ackers l; l_phase := l_phase l; l_events := l_events l ++ [(l_now l, e)] |}.
Definition set_attempt (n : N) (l : Loop) : Loop :=
  {| l_now := l_now l; l_token := l_token l; l_attempt := n; l_exits := l_exits l;
     l_child := l_child l; l_slot := l_slot l; l_pending := l_pending l; l_acks := l_acks l;
     l_ackers := l_ackers l; l_phase := l_phase l; l_events := l_events l |}.
Definition set_exits (x : list Instant) (l : Loop) : Loop :=
  {| l_now := l_now l; l_token := l_token l; l_attempt := l_attempt l; l_exits := x;
     l_child := l_child l; l_slot := l_slot l; l_pending := l_pending l; l_acks := l_acks l;
     l_ackers := l_ackers l; l_phase := l_phase l; l_events := l_events l |}.
Definition set_child (c : option Child) (slot : bool) (l : Loop) : Loop :=
  {| l_now := l_now l; l_token := l_token l; l_attempt := l_attempt l; l_exits := l_exits l;
     l_child := c; l_slot := slot; l_pending := l_pending l; l_acks := l_acks l;
     l_ackers := l_ackers l; l_phase := l_phase l; l_events := l_events l |}.
Definition set_readiness (pending : N) (acks ackers : list N) (l : Loop) : Loop :=
  {| l_now := l_now l; l_token := l_token l; l_attempt := l_attempt l; l_exits := l_exits l;
     l_child := l_child l; l_slot := l_slot l; l_pending := pending; l_acks := acks;
     l_ackers := ackers; l_phase := l_phase l; l_events := l_events l |}.
Definition set_clock (now : Instant) (token : bool) (l : Loop) : Loop :=
  {| l_now := now; l_token := token; l_attempt := l_attempt l; l_exits := l_exits l;
     l_child := l_child l; l_slot := l_slot l; l_pending := l_pending l; l_acks := l_acks l;
     l_ackers := l_ackers l; l_phase := l_phase l; l_events := l_events l |}.

(** [emit(event); return]. *)
Definition sv_finish (e : SupervisorEvent) (l : Loop) : Loop := set_phase PEnded (sv_emit e l).

(** The handle in [current] belongs to a child that has not terminated. *)
Definition current_alive (l : Loop) : bool :=
  l_slot l && match l_child l with Some c => ch_alive c | None => false end.
Definition current_is (pid : N) (l : Loop) : bool :=
  l_slot l && match l_child l with Some c => (ch_pid c =? pid) && ch_alive c | None => false end.

(** ** The loop *)

Section Loop.
Context (o : SupervisorOptions).

Definition acknowledged : bool := match so_readiness o with Acknowledged => true | AliveAfter _ => false end.
Definition ready_at (now : Instant) : Instant :=
  match so_readiness o with AliveAfter delay => now + delay | Acknowledged => now end.

(** A child was spawned while the token was not cancelled. *)
Definition announce (pid : N) (l : Loop) : Loop :=
  sv_emit (SvStarted pid)
    (if acknowledged then set_readiness pid (l_acks l) (l_ackers l) l else l).

(** [SupervisorBuilder::spawn] behind the first spawn. *)
Definition sv_initial (now : Instant) (pid : N) : Loop :=
  announce pid
    {| l_now := now; l_token := false; l_attempt := 0; l_exits := [];
       l_child := Some {| ch_pid := pid; ch_alive := true |}; l_slot := true; l_pending := 0;
       l_acks := []; l_ackers := []; l_phase := PRunning true false (ready_at now); l_events := [] |}.

(** [SupervisorBuilder::spawn]: the token's state at its two looks, and the
    answers of the preparation hook and of the first spawn. *)
Definition sv_spawn (cancelled : bool) (prepared : result () ProcessError) (cancelled_then : bool)
    (now : Instant) (spawned : result N ProcessError) : result Loop ProcessError :=
  if cancelled then Err (PeEngine "supervisor started with cancelled token")
  else
    let? _ := prepared in
    if cancelled_then then Err (PeEngine "spawn preparation cancelled")
    else let? pid := spawned in Ok (sv_initial now pid).

(** [attempt += 1] up to the sleep. *)
Definition next_attempt (entropy : N) (l : Loop) : Loop :=
  let attempt := (l_attempt l + 1) mod 2 ^ 32 in
  let l := set_attempt attempt l in
  match so_policy o with
  | Never => set_phase PEnded l
  | OnFailure max_restarts =>
      if decide (max_restarts < attempt) then sv_finish SvGaveUp l
      else
        let delay := delay_for (so_backoff o) ((attempt + (2 ^ 32 - 1)) mod 2 ^ 32) entropy in
        set_phase (PWaiting (l_now l + delay)) (sv_emit (SvRestarting attempt delay) l)
  end.

(** [while front is older than the window: pop_front]. *)
Fixpoint pop_old (now : Instant) (exits : list Instant) : list Instant :=
  match exits with
  | [] => []
  | at_ :: rest => if decide (window (so_storm o) < now - at_) then pop_old now rest else exits
  end.

(** What the loop does behind the end of a child's events. *)
Definition on_exit (cancelled : bool) (payload : TerminatedPayload) (entropy : N) (l : Loop) : Loop :=
  let l := sv_emit (SvExited payload)
             (set_readiness 0 (l_acks l) (l_ackers l) (set_child None false l)) in
  if cancelled || l_token l then sv_finish SvStopped l
  else if clean_exit payload || bool_decide (so_policy o = Never) then set_phase PEnded l
  else
    let exits := pop_old (l_now l) (l_exits l ++ [l_now l]) in
    let l := set_exits exits l in
    if decide (max_failures (so_storm o) <= N.of_nat (length exits)) then sv_finish SvGaveUp l
    else next_attempt entropy l.

(** The arms of the select over a child; [deadline] is [ready_at]. *)
Definition on_cancel (deadline : Instant) (l : Loop) : Loop :=
  set_phase (PRunning false true deadline) (set_child (l_child l) false l).
Definition on_alive (cancelled : bool) (deadline : Instant) (l : Loop) : Loop :=
  let l := set_phase (PRunning false cancelled deadline) l in
  if current_alive l && negb (l_token l) then sv_emit SvReady (set_attempt 0 l) else l.
Definition on_ack (cancelled : bool) (deadline : Instant) (pid : N) (acks : list N) (l : Loop) : Loop :=
  let l := set_readiness (l_pending l) acks (l_ackers l) l in
  if current_is pid l && negb (l_token l)
  then sv_emit SvReady (set_attempt 0 (set_phase (PRunning false cancelled deadline) l))
  else l.

(** The sleep, the preparation hook and the respawn. *)
Definition on_wake (l : Loop) : Loop :=
  if l_token l then sv_finish SvStopped l else set_phase PPreparing l.
Definition on_prepare (prepared : result () string) (l : Loop) : Loop :=
  match prepared with
  | Err detail => if l_token l then sv_finish SvStopped l else sv_finish (SvPreparationFailed detail) l
  | Ok _ => if l_token l then sv_finish SvStopped l else set_phase PSpawning l
  end.
Definition on_spawn (spawned : result N string) (entropy : N) (l : Loop) : Loop :=
  match spawned with
  | Ok pid =>
      let l := set_phase (PRunning true false (ready_at (l_now l)))
                 (set_child (Some {| ch_pid := pid; ch_alive := true |}) true l) in
      if l_token l then l else announce pid l
  | Err _ => if l_token l then sv_finish SvStopped l else next_attempt entropy l
  end.

(** [acknowledge_ready] behind its look at [current]: the exchange and the
    send.  The channel is closed once the loop has returned. *)
Definition acknowledge (pid : N) (ackers : list N) (l : Loop) : bool * Loop :=
  if decide (l_pending l = pid) then
    match l_phase l with
    | PEnded => (false, set_readiness pid (l_acks l) ackers l)
    | _ => (true, set_readiness 0 (l_acks l ++ [pid]) ackers l)
    end
  else (false, set_readiness (l_pending l) (l_acks l) ackers l).

(** Steps of everything that is not the loop. *)
Inductive env_step : Loop -> Loop -> Prop :=
| env_tick l d : env_step l (set_clock (l_now l + d) (l_token l) l)
| env_cancel l : env_step l (set_clock (l_now l) true l)
| env_dies l c :
    l_child l = Some c -> env_step l (set_child (Some {| ch_pid := ch_pid c; ch_alive := false |}) (l_slot l) l)
| env_stop_take l : l_token l = true -> env_step l (set_child (l_child l) false l)
| env_ack_look l pid :
    current_is pid l = true ->
    env_step l (set_readiness (l_pending l) (l_acks l) (pid :: l_ackers l) l)
| env_ack_send l before pid after :
    l_ackers l = before ++ pid :: after -> env_step l (acknowledge pid (before ++ after) l).2.

(** Steps of the loop. *)
Inductive loop_step : Loop -> Loop -> Prop :=
| loop_cancel l pending deadline :
    l_phase l = PRunning pending false deadline -> l_token l = true ->
    loop_step l (on_cancel deadline l)
| loop_alive l cancelled deadline :
    l_phase l = PRunning true cancelled deadline -> acknowledged = false -> deadline <= l_now l ->
    loop_step l (on_alive cancelled deadline l)
| loop_ack l cancelled deadline pid acks :
    l_phase l = PRunning true cancelled deadline -> acknowledged = true -> l_acks l = pid :: acks ->
    loop_step l (on_ack cancelled deadline pid acks l)
| loop_ack_closed l cancelled deadline :
    l_phase l = PRunning true cancelled deadline -> acknowledged = true -> l_acks l = [] -> l_token l = true ->
    loop_step l (set_phase (PRunning false cancelled deadline) l)
| loop_exit l pending cancelled deadline payload entropy :
    l_phase l = PRunning pending cancelled deadline ->
    loop_step l (on_exit cancelled payload entropy l)
| loop_interrupted l until :
    l_phase l = PWaiting until -> l_token l = true -> loop_step l (sv_finish SvStopped l)
| loop_wake l until :
    l_phase l = PWaiting until -> until <= l_now l -> loop_step l (on_wake l)
| loop_prepare l prepared :
    l_phase l = PPreparing -> loop_step l (on_prepare prepared l)
| loop_spawn l spawned entropy :
    l_phase l = PSpawning -> loop_step l (on_spawn spawned entropy l).

Definition sv_step (l l' : Loop) : Prop := env_step l l' \/ loop_step l l'.

Inductive sv_reachable : Loop -> Prop :=
| sv_start now pid : sv_reachable (sv_initial now pid)
| sv_next l l' : sv_reachable l -> sv_step l l' -> sv_reachable l'.

(** ** What the events say *)

Definition since_ready (counted : SupervisorEvent -> bool) (events : list (Instant * SupervisorEvent)) : N :=
  fold_left (fun n '(_, e) =>
    match e with SvReady => 0 | _ => if counted e then n + 1 else n end) events 0.
Arguments since_ready : simpl never.
Definition is_restart (e : SupervisorEvent) : bool := match e with SvRestarting _ _ => true | _ => false end.
Definition is_start (e : SupervisorEvent) : bool := match e with SvStarted _ => true | _ => false end.

Lemma since_ready_snoc counted events at_ e :
  since_ready counted (events ++ [(at_, e)])
  = match e with
    | SvReady => 0
    | _ => if counted e then since_ready counted events + 1 else since_ready counted events
    end.
Proof. unfold since_ready. by rewrite fold_left_app. Qed.

(** The restarts the policy grants between two readiness signals. *)
Definition restart_budget : N :=
  match so_policy o with Never => 0 | OnFailure max_restarts => max_restarts end.

(** The times of the exits that count as crashes. *)
Definition crashes (events : list (Instant * SupervisorEvent)) : list Instant :=
  omap (fun '(at_, e) =>
    match e with SvExited payload => if clean_exit payload then None else Some at_ | _ => None end) events.
Arguments crashes : simpl never.

Lemma crashes_snoc events at_ e :
  crashes (events ++ [(at_, e)])
  = crashes events
      ++ match e with SvExited payload => if clean_exit payload then [] else [at_] | _ => [] end.
Proof.
  unfold crashes. rewrite omap_app. f_equal. cbn. destruct e; try done. by destruct (clean_exit _).
Qed.

(** The events a monitor can see, as an automaton: a run starts, may become
    ready once, and exits; a restart is announced before the next run; a run
    spawned into a cancelled token is not announced. *)
Inductive Stage := StRun (ready : bool) | StDown | StWait | StDone.
Definition stage_step (s : Stage) (e : SupervisorEvent) : option Stage :=
  match e, s with
  | SvStarted _, StWait => Some (StRun false)
  | SvReady, StRun false => Some (StRun true)
  | SvExited _, (StRun _ | StWait) => Some StDown
  | SvRestarting _ _, (StDown | StWait) => Some StWait
  | SvGaveUp, (StDown | StWait) => Some StDone
  | SvStopped, (StDown | StWait) => Some StDone
  | SvPreparationFailed _, StWait => Some StDone
  | _, _ => None
  end.
Definition stage_of (events : list (Instant * SupervisorEvent)) : option Stage :=
  fold_left (fun s '(_, e) => s ≫= fun s => stage_step s e) events (Some StWait).
Arguments stage_of : simpl never.

Lemma stage_of_snoc events at_ e : stage_of (events ++ [(at_, e)]) = stage_of events ≫= fun s => stage_step s e.
Proof. unfold stage_of. by rewrite fold_left_app. Qed.

(** What a step of another task leaves alone. *)
Lemma env_step_keeps l l' :
  env_step l l' ->
  l_phase l' = l_phase l /\ l_attempt l' = l_attempt l /\ l_exits l' = l_exits l
  /\ l_events l' = l_events l /\ l_now l <= l_now l' /\ (l_token l = true -> l_token l' = true).
Proof.
  destruct 1; cbn; repeat split; try lia; try done; unfold acknowledge; by repeat (case_decide || case_match).
Qed.

(** ** The restart budget *)

Definition in_run (p : Phase) : N := match p with PRunning _ _ _ | PEnded => 1 | _ => 0 end.

Record Budget (l : Loop) : Prop := {
  budget_attempt : l_phase l <> PEnded -> l_attempt l = since_ready is_restart (l_events l);
  budget_restarts : since_ready is_restart (l_events l) <= restart_budget;
  budget_starts :
    since_ready is_start (l_events l) <= since_ready is_restart (l_events l) + in_run (l_phase l);
  budget_events at_ attempt delay :
    (at_, SvRestarting attempt delay) ∈ l_events l ->
    1 <= attempt <= restart_budget
    /\ exists entropy, delay = delay_for (so_backoff o) (attempt - 1) entropy;
}.

Section Budget.
Context (budget_u32 : restart_budget < u32_max).

Lemma budget_next_attempt entropy l :
  l_attempt l = since_ready is_restart (l_events l) ->
  since_ready is_restart (l_events l) <= restart_budget ->
  since_ready is_start (l_events l) <= since_ready is_restart (l_events l) + 1 ->
  (forall at_ attempt delay,
     (at_, SvRestarting attempt delay) ∈ l_events l ->
     1 <= attempt <= restart_budget
     /\ exists entropy, delay = delay_for (so_backoff o) (attempt - 1) entropy) ->
  Budget (next_attempt entropy l).
Proof.
  intros Ha Hr Hs He. unfold next_attempt. pose proof budget_u32 as Hu. unfold u32_max in Hu.
  rewrite N.mod_small by lia.
  destruct (so_policy o) as [|m] eqn:Ep; [by constructor; cbn|].
  unfold restart_budget in *. rewrite Ep in *.
  case_decide as Hm.
  - constructor; cbn; rewrite ?since_ready_snoc; cbn; unfold restart_budget; rewrite ?Ep; try done; try lia.
    intros ???. rewrite elem_of_app, list_elem_of_singleton. intros [?|[=]]; by eapply He.
  - constructor; cbn; rewrite ?since_ready_snoc; cbn; unfold restart_budget; rewrite ?Ep; try done; try lia.
    intros ???. rewrite elem_of_app, list_elem_of_singleton. intros [?|[= -> -> ->]]; [by eapply He|].
    split; [lia|]. exists entropy. f_equal.
    replace (l_attempt l + 1 + (2 ^ 32 - 1)) with (l_attempt l + 1 * 2 ^ 32) by lia.
    rewrite N.Div0.mod_add. rewrite N.mod_small by lia. lia.
Qed.

(** One event at the end of a log within the budget. *)
Lemma budget_snoc (P : N -> Duration -> Prop) (l : list (Instant * SupervisorEvent)) t e :
  (forall at_ attempt delay, (at_, SvRestarting attempt delay) ∈ l -> P attempt delay) ->
  is_restart e = false ->
  forall at_ attempt delay, (at_, SvRestarting attempt delay) ∈ l ++ [(t, e)] -> P attempt delay.
Proof. intros H He ???. rewrite elem_of_app, list_elem_of_singleton. intros [?|[= -> <-]]; [by eapply H|done]. Qed.

Ltac budget :=
  constructor; cbn; rewrite ?since_ready_snoc; cbn; try done; try lia;
  repeat (apply budget_snoc; [|done]); try done.

Lemma budget_exit cancelled payload entropy l :
  l_phase l <> PEnded -> in_run (l_phase l) = 1 -> Budget l -> Budget (on_exit cancelled payload entropy l).
Proof.
  intros Hp Hi [Ha Hr Hs He]. specialize (Ha Hp). rewrite Hi in Hs. unfold on_exit. cbn.
  destruct (_ || l_token l); [budget|]. destruct (_ || bool_decide _); [budget|].
  case_decide; [budget|]. apply budget_next_attempt; cbn; rewrite ?since_ready_snoc; cbn; try done.
  by apply budget_snoc.
Qed.

Lemma budget_step l l' : Budget l -> sv_step l l' -> Budget l'.
Proof.
  intros HB [(Hp & Ha & _ & He & _)%env_step_keeps|Hstep].
  { destruct HB. constructor; rewrite ?Hp, ?Ha, ?He; done. }
  destruct Hstep as
    [?? deadline E ?|? c deadline E ??|? c deadline pid acks E ??|? c deadline E ???|? pending c deadline ?? E
    |? until E ?|? until E ?|? prepared E|? spawned ? E];
    try (apply budget_exit; [by rewrite E|by rewrite E|done]);
    destruct HB as [HBa HBr HBs HBe]; rewrite E in HBs, HBa; specialize (HBa ltac:(done)); cbn in HBs.
  - budget.
  - unfold on_alive, current_alive. cbn. destruct (_ && _); budget.
  - unfold on_ack, current_is. cbn. destruct (_ && _); [budget|]. constructor; cbn; rewrite ?E; cbn; try done; lia.
  - budget.
  - budget.
  - unfold on_wake. destruct (l_token l); budget.
  - unfold on_prepare. destruct prepared, (l_token l); budget.
  - unfold on_spawn, announce. cbn. destruct spawned; [destruct (l_token l); [|destruct acknowledged]; budget|].
    destruct (l_token l); [budget|]. apply budget_next_attempt; try done; lia.
Qed.

Lemma budget_reachable l : sv_reachable l -> Budget l.
Proof.
  induction 1 as [now pid|l l' _ IH Hstep]; [|by eapply budget_step].
  unfold sv_initial, announce. destruct acknowledged; budget.
  all: try (intros ???; by rewrite list_elem_of_singleton).
  all: unfold since_ready; cbn; lia.
Qed.

(** C31: the restart budget.  Since its last readiness signal a supervisor
    has restarted its child at most [max_restarts] times and launched it at most
    once more, whatever the children, the clock and the callers do; every
    announced restart carries its number and a delay of the back-off schedule.  The
    policy grants fewer than [u32::MAX] restarts, the number at which the counter
    of attempts would wrap. *)
Theorem restarts_stay_within_the_budget l :
  sv_reachable l ->
  since_ready is_restart (l_events l) <= restart_budget
  /\ since_ready is_start (l_events l) <= restart_budget + 1
  /\ forall at_ attempt delay, (at_, SvRestarting attempt delay) ∈ l_events l ->
       1 <= attempt <= restart_budget
       /\ exists entropy, delay = delay_for (so_backoff o) (attempt - 1) entropy.
Proof.
  intros [_ Hr Hs He]%budget_reachable. split; [done|]. split; [|done].
  assert (in_run (l_phase l) <= 1) by (destruct (l_phase l); cbn; lia). lia.
Qed.

End Budget.

(** ** Crash storms *)

(** The crashes of a log inside the window that opens at [t]. *)
Definition within (t x : Instant) : bool := (t <=? x) && (x <=? t + window (so_storm o)).
Definition crashes_within (t : Instant) (events : list (Instant * SupervisorEvent)) : N :=
  N.of_nat (length (List.filter (within t) (crashes events))).

Definition forgotten (now x : Instant) : Prop := x + window (so_storm o) < now.

Record Storm (l : Loop) : Prop := {
  storm_bound t : crashes_within t (l_events l) <= max_failures (so_storm o);
  storm_live :
    l_phase l <> PEnded ->
    (forall t, crashes_within t (l_events l) < max_failures (so_storm o))
    /\ exists old, crashes (l_events l) = old ++ l_exits l /\ Forall (forgotten (l_now l)) old;
}.

Section Storm.
Context (storm_positive : 1 <= max_failures (so_storm o)).

Lemma pop_old_split now exits :
  exists old, exits = old ++ pop_old now exits /\ Forall (forgotten now) old.
Proof.
  induction exits as [|x rest (old & Heq & Hold)]; [by exists []|]. cbn [pop_old]. case_decide as Hx; [|by exists []].
  exists (x :: old). split; [by rewrite Heq at 1|]. constructor; [|done]. unfold forgotten. lia.
Qed.

Lemma forgotten_later now now' old : now <= now' -> Forall (forgotten now) old -> Forall (forgotten now') old.
Proof. intros Hn H. eapply Forall_impl; [exact H|]. intros x. unfold forgotten. lia. Qed.

Lemma filter_forgotten now t old :
  Forall (forgotten now) old -> within t now = true -> List.filter (within t) old = [].
Proof.
  intros Hold [_ Ht%N.leb_le]%andb_true_iff. induction Hold as [|x old Hx _ IH]; [done|].
  cbn. rewrite IH. unfold within, forgotten in *. by rewrite (proj2 (N.leb_gt t x)) by lia.
Qed.

Lemma crashes_within_snoc t events at_ e :
  crashes_within t (events ++ [(at_, e)]) <= crashes_within t events + 1.
Proof.
  unfold crashes_within. rewrite crashes_snoc, List.filter_app, length_app.
  destruct e; cbn; try lia. destruct (clean_exit _); cbn; [lia|]. destruct (within t at_); cbn; lia.
Qed.

(** An event that is no crash leaves the log of crashes alone. *)
Lemma crashes_quiet events at_ e :
  match e with SvExited _ => False | _ => True end -> crashes (events ++ [(at_, e)]) = crashes events.
Proof. rewrite crashes_snoc. destruct e; try done; intros _; by rewrite app_nil_r. Qed.

Lemma storm_quiet l l' :
  Storm l -> crashes (l_events l') = crashes (l_events l) ->
  (l_phase l' <> PEnded -> l_phase l <> PEnded /\ l_exits l' = l_exits l) -> l_now l <= l_now l' ->
  Storm l'.
Proof.
  intros [Hb Hl] Hc Hp Hn. constructor.
  - intros t. unfold crashes_within. rewrite Hc. apply Hb.
  - intros [Hp' He]%Hp. destruct (Hl Hp') as [Hlt (old & Hold & Hf)]. split.
    + intros t. unfold crashes_within. rewrite Hc. apply Hlt.
    + exists old. rewrite Hc, He. split; [done|]. by eapply forgotten_later.
Qed.

Lemma storm_next_attempt entropy l : l_phase l <> PEnded -> Storm l -> Storm (next_attempt entropy l).
Proof.
  intros Hp HS. unfold next_attempt.
  destruct (so_policy o) as [|m]; [|case_decide];
    (eapply storm_quiet; [exact HS| | |]); cbn; rewrite ?crashes_quiet by done; try done; lia.
Qed.

Lemma storm_exit cancelled payload entropy l :
  l_phase l <> PEnded -> Storm l -> Storm (on_exit cancelled payload entropy l).
Proof.
  intros Hp [Hb Hl]. destruct (Hl Hp) as [Hlt (old & Hold & Hf)]. unfold on_exit. cbn.
  assert (forall t e, match e with SvExited _ => False | _ => True end ->
    crashes_within t ((l_events l ++ [(l_now l, SvExited payload)]) ++ [(l_now l, e)])
      <= max_failures (so_storm o)) as Hdone.
  { intros t e He. unfold crashes_within. rewrite crashes_quiet by done.
    pose proof (crashes_within_snoc t (l_events l) (l_now l) (SvExited payload)) as Hs.
    unfold crashes_within in Hs. pose proof (Hlt t) as Ht. unfold crashes_within in Ht. lia. }
  destruct (_ || l_token l); [by constructor; [intros t; by apply Hdone|]|].
  destruct (clean_exit payload) eqn:Ec; cbn [orb].
  { constructor; [|done]. intros t. cbn. unfold crashes_within. rewrite crashes_snoc, Ec, app_nil_r. apply Hb. }
  destruct (bool_decide _).
  { constructor; [|done]. intros t. cbn.
    pose proof (crashes_within_snoc t (l_events l) (l_now l) (SvExited payload)). pose proof (Hlt t). lia. }
  case_decide as Hmax; [by constructor; [intros t; by apply Hdone|]|].
  destruct (pop_old_split (l_now l) (l_exits l ++ [l_now l])) as (popped & Hpop & Hpopped).
  assert (crashes (l_events l ++ [(l_now l, SvExited payload)])
    = (old ++ popped) ++ pop_old (l_now l) (l_exits l ++ [l_now l])) as Hnew.
  { rewrite crashes_snoc, Ec, Hold, <- !app_assoc, <- Hpop. done. }
  assert (forall t, crashes_within t (l_events l ++ [(l_now l, SvExited payload)]) < max_failures (so_storm o))
    as Hcalm.
  { intros t. destruct (within t (l_now l)) eqn:Et.
    - unfold crashes_within. rewrite Hnew, List.filter_app, length_app.
      rewrite (filter_forgotten (l_now l)) by (done || by apply Forall_app).
      pose proof (List.filter_length_le (within t) (pop_old (l_now l) (l_exits l ++ [l_now l]))). cbn. lia.
    - unfold crashes_within. rewrite crashes_snoc, Ec, List.filter_app. cbn. rewrite Et, app_nil_r. apply Hlt. }
  apply storm_next_attempt; [done|]. constructor; cbn.
  - intros t. pose proof (Hcalm t). lia.
  - intros _. split; [done|]. exists (old ++ popped). split; [done|]. by apply Forall_app.
Qed.

Lemma storm_step l l' : Storm l -> sv_step l l' -> Storm l'.
Proof.
  intros HS [(Hp & _ & Hx & He & Hn & _)%env_step_keeps|Hstep].
  { eapply storm_quiet; [done|by rewrite He| |done]. by rewrite Hp. }
  destruct Hstep as
    [?? deadline E ?|? c deadline E ??|? c deadline pid acks E ??|? c deadline E ???|? pending c deadline ?? E
    |? until E ?|? until E ?|? prepared E|? spawned ? E];
    try (apply storm_exit; [by rewrite E|done]).
  all: try (eapply storm_quiet; [exact HS| | |]; cbn; rewrite ?crashes_quiet, ?E by done; done || lia).
  - unfold on_alive, current_alive. cbn.
    destruct (_ && _); (eapply storm_quiet; [exact HS| | |]); cbn; rewrite ?crashes_quiet, ?E by done; done || lia.
  - unfold on_ack, current_is. cbn.
    destruct (_ && _); (eapply storm_quiet; [exact HS| | |]); cbn; rewrite ?crashes_quiet, ?E by done; done || lia.
  - unfold on_wake. destruct (l_token l);
      (eapply storm_quiet; [exact HS| | |]); cbn; rewrite ?crashes_quiet, ?E by done; done || lia.
  - unfold on_prepare. destruct prepared, (l_token l);
      (eapply storm_quiet; [exact HS| | |]); cbn; rewrite ?crashes_quiet, ?E by done; done || lia.
  - unfold on_spawn, announce. destruct spawned, (l_token l) eqn:Et; cbn; rewrite ?Et;
      [| |by (eapply storm_quiet; [exact HS| | |]); cbn; rewrite ?crashes_quiet by done; done || lia
       |by apply storm_next_attempt; rewrite ?E].
    + by (eapply storm_quiet; [exact HS| | |]); cbn; rewrite ?E by done; done || lia.
    + destruct acknowledged; cbn;
        (eapply storm_quiet; [exact HS| | |]); cbn; rewrite ?crashes_quiet, ?E by done; done || lia.
Qed.

Lemma storm_reachable l : sv_reachable l -> Storm l.
Proof.
  induction 1 as [now pid|l l' _ IH Hstep]; [|by eapply storm_step].
  unfold sv_initial, announce. destruct acknowledged; constructor; cbn.
  all: try (intros t; unfold crashes_within, crashes; cbn; lia).
  all: intros _; split; [intros t; unfold crashes_within, crashes; cbn; lia|by exists []].
Qed.

(** The storm guard.  While a supervisor is still at work, no window
    of the configured length has seen [max_failures] crashes, and no window ever
    sees more, however often readiness resets the restart budget. *)
Theorem crash_storms_are_cut_off l t :
  sv_reachable l ->
  crashes_within t (l_events l) <= max_failures (so_storm o)
  /\ (l_phase l <> PEnded -> crashes_within t (l_events l) < max_failures (so_storm o)).
Proof. intros [Hb Hl]%storm_reachable. split; [done|]. intros Hp. by apply (Hl Hp). Qed.

End Storm.

(** ** The order of the events *)

(** The stages a phase can be in.  A run spawned into a cancelled token was not
    announced, so its stage is still the one before it. *)
Definition stage_fits (l : Loop) (s : Stage) : Prop :=
  match l_phase l with
  | PRunning pending _ _ =>
      (exists ready, s = StRun ready /\ (pending = true -> ready = false))
      \/ (s = StWait /\ l_token l = true)
  | PWaiting _ | PPreparing | PSpawning => s = StWait
  | PEnded => s = StDone \/ s = StDown
  end.

Definition Ordered (l : Loop) : Prop := exists s, stage_of (l_events l) = Some s /\ stage_fits l s.

Lemma ordered_next_attempt entropy l s :
  stage_of (l_events l) = Some s -> s = StDown \/ s = StWait -> so_policy o <> Never ->
  Ordered (next_attempt entropy l).
Proof.
  intros Hs Hd Hp. unfold next_attempt. destruct (so_policy o); [done|].
  case_decide; unfold Ordered; cbn; rewrite stage_of_snoc, Hs; cbn;
    destruct Hd as [-> | ->]; eexists; (split; [done|]); cbn; [by left..|done|done].
Qed.

Lemma ordered_exit cancelled payload entropy l pending deadline :
  l_phase l = PRunning pending cancelled deadline -> Ordered l -> Ordered (on_exit cancelled payload entropy l).
Proof.
  intros E (s & Hs & Hf). unfold stage_fits in Hf. rewrite E in Hf.
  assert (stage_of (l_events l ++ [(l_now l, SvExited payload)]) = Some StDown) as Hdown.
  { rewrite stage_of_snoc, Hs. by destruct Hf as [(r & -> & _)|[-> _]]. }
  unfold on_exit. cbn.
  destruct (_ || l_token l);
    [eexists; cbn; rewrite stage_of_snoc, Hdown; split; [done|by left]|].
  destruct (clean_exit payload); cbn [orb]; [by exists StDown; split; [|right]|].
  destruct (decide (so_policy o = Never)) as [Hn|Hn];
    [rewrite bool_decide_true by done; by exists StDown; split; [|right]|].
  rewrite bool_decide_false by done.
  case_decide; [eexists; cbn; rewrite stage_of_snoc, Hdown; split; [done|by left]|].
  eapply ordered_next_attempt; [exact Hdown|by left|done].
Qed.

Ltac ordered s :=
  exists s; cbn; rewrite ?stage_of_snoc; cbn; unfold stage_fits; cbn.

(** Only a policy that restarts gets behind its first run. *)
Definition Restarts (l : Loop) : Prop :=
  match l_phase l with PWaiting _ | PPreparing | PSpawning => so_policy o <> Never | _ => True end.

Lemma restarts_next_attempt entropy l : Restarts (next_attempt entropy l).
Proof. unfold next_attempt, Restarts. destruct (so_policy o); [done|]. by case_decide. Qed.

Lemma restarts_step l l' : Restarts l -> sv_step l l' -> Restarts l'.
Proof.
  intros HR [(Hp & _)%env_step_keeps|Hstep]; [unfold Restarts; by rewrite Hp|].
  unfold Restarts in HR.
  destruct Hstep as
    [?? deadline E ?|? c deadline E ??|? c deadline pid acks E ??|? c deadline E ???|? pending c deadline ?? E
    |? until E ?|? until E ?|? prepared E|? spawned ? E]; rewrite E in HR; try done.
  - unfold on_alive. by destruct (_ && _).
  - unfold on_ack. destruct (_ && _); [done|]. unfold Restarts. cbn. by rewrite E.
  - unfold on_exit. destruct (_ || _); [done|]. destruct (_ || bool_decide _); [done|].
    case_decide; [done|]. apply restarts_next_attempt.
  - unfold on_wake. by destruct (l_token l).
  - unfold on_prepare. by destruct prepared, (l_token l).
  - unfold on_spawn, announce. cbn. destruct spawned; [destruct (l_token l); [done|by destruct acknowledged]|].
    destruct (l_token l); [done|]. apply restarts_next_attempt.
Qed.

Lemma restarts_reachable l : sv_reachable l -> Restarts l.
Proof.
  induction 1 as [now pid|l l' _ IH Hstep]; [|by eapply restarts_step].
  unfold sv_initial, announce. by destruct acknowledged.
Qed.

Lemma ordered_step l l' : Restarts l -> Ordered l -> sv_step l l' -> Ordered l'.
Proof.
  intros HR HO [(Hp & _ & _ & He & _ & Ht)%env_step_keeps|Hstep].
  { destruct HO as (s & Hs & Hf). exists s. rewrite He. split; [done|].
    unfold stage_fits in *. rewrite Hp. destruct (l_phase l); try done.
    destruct Hf as [?|[-> ?]]; [by left|right]. by split; [|apply Ht]. }
  unfold Restarts in HR.
  destruct Hstep as
    [?? deadline E ?|? c deadline E ??|? c deadline pid acks E ??|? c deadline E ???|? pending c deadline ?? E
    |? until E ?|? until E ?|? prepared E|? spawned ? E];
    try (by eapply ordered_exit); rewrite E in HR;
    destruct HO as (s & Hs & Hf); unfold stage_fits in Hf; rewrite E in Hf.
  - ordered s. split; [done|]. destruct Hf as [(r & -> & _)|[-> ?]]; [left; by exists r|by right].
  - unfold on_alive, current_alive. cbn. destruct Hf as [(r & -> & Hr)|[-> Ht]].
    + rewrite (Hr eq_refl) in Hs. destruct (_ && negb _); [ordered (StRun true)|ordered (StRun false)];
        rewrite ?Hs; (split; [done|]); left; by eexists.
    + rewrite Ht, andb_false_r. ordered StWait. by split; [|right].
  - unfold on_ack, current_is. cbn. destruct Hf as [(r & -> & Hr)|[-> Ht]].
    + rewrite (Hr eq_refl) in Hs. destruct (_ && negb _); [ordered (StRun true)|ordered (StRun false)];
        rewrite ?Hs, ?E; (split; [done|]); left; by eexists.
    + rewrite Ht, andb_false_r. ordered StWait. rewrite E. by split; [|right].
  - ordered s. split; [done|]. destruct Hf as [(r & -> & _)|[-> ?]]; [left; by exists r|by right].
  - ordered StDone. rewrite Hs, Hf. by split; [|left].
  - unfold on_wake. destruct (l_token l); [ordered StDone|ordered StWait]; rewrite Hs, Hf; (split; [done|]);
      [by left|done].
  - unfold on_prepare. destruct prepared, (l_token l);
      [ordered StDone|ordered StWait|ordered StDone|ordered StDone]; rewrite Hs, Hf; (split; [done|]); by try left.
  - unfold on_spawn, announce. cbn. destruct spawned; [destruct (l_token l) eqn:Et|].
    + ordered s. split; [done|]. right. by rewrite Hf, Et.
    + destruct acknowledged; ordered (StRun false); rewrite Hs, Hf; (split; [done|]); left; by eexists.
    + destruct (l_token l); [ordered StDone; rewrite Hs, Hf; by split; [|left]|].
      eapply ordered_next_attempt; [exact Hs|by right|done].
Qed.

Lemma ordered_reachable l : sv_reachable l -> Ordered l.
Proof.
  induction 1 as [now pid|l l' Hr IH Hstep]; [|eapply ordered_step; [by apply restarts_reachable|done|done]].
  unfold sv_initial, announce. exists (StRun false).
  destruct acknowledged; (split; [done|]); left; by eexists.
Qed.

(** The events of a supervisor follow their protocol under every
    interleaving: a run is announced before it can become ready, becomes ready
    at most once, and exits before the next one; nothing follows the final
    event; and a loop that has returned has said so or has seen its child
    exit. *)
Theorem events_follow_the_protocol l :
  sv_reachable l ->
  exists s, stage_of (l_events l) = Some s /\ (l_phase l = PEnded -> s = StDone \/ s = StDown).
Proof.
  intros (s & Hs & Hf)%ordered_reachable. exists s. split; [done|]. intros Hp.
  unfold stage_fits in Hf. by rewrite Hp in Hf.
Qed.

(** ** Winding down *)

(** The loop's own steps left before a cancelled supervisor returns. *)
Definition wind_down (l : Loop) : nat :=
  match l_phase l with
  | PEnded => 0
  | PWaiting _ | PPreparing => 1
  | PRunning pending cancelled _ => 1 + Nat.b2n pending + Nat.b2n (negb cancelled)
  | PSpawning => 4
  end + length (l_acks l).

Definition closing (e : Instant * SupervisorEvent) : Prop :=
  match e.2 with SvExited _ | SvStopped => True | _ => False end.

Definition Closes (l l' : Loop) : Prop :=
  (wind_down l' < wind_down l)%nat /\ l_token l' = true
  /\ (exists new, l_events l' = l_events l ++ new /\ Forall closing new)
  /\ (l_phase l' = PEnded -> snd <$> last (l_events l') = Some SvStopped).

Lemma closes_quiet l l' :
  (wind_down l' < wind_down l)%nat -> l_token l' = true -> l_events l' = l_events l -> l_phase l' <> PEnded ->
  Closes l l'.
Proof. intros ?? He ?. repeat split; try done. exists []. by rewrite He, app_nil_r. Qed.

Lemma closes_stopped l : (length (l_acks l) < wind_down l)%nat -> l_token l = true -> Closes l (sv_finish SvStopped l).
Proof.
  intros Hw Ht. repeat split; [exact Hw|done| |].
  - exists [(l_now l, SvStopped)]. split; [done|]. by repeat constructor.
  - intros _. cbn. by rewrite last_snoc.
Qed.

(** A cancelled supervisor winds down.  Whatever it is doing, a loop
    whose token is cancelled has a step of its own to make, each such step
    brings it strictly closer to its return - within at most five more steps and
    the queued acknowledgements - and it emits nothing but exits and the final
    [Stopped] on the way: it neither starts, restarts nor reports a child
    ready. *)
Theorem cancelled_loop_winds_down l :
  l_token l = true -> l_phase l <> PEnded ->
  (exists l', loop_step l l') /\ forall l', loop_step l l' -> Closes l l'.
Proof.
  intros Ht Hp. split.
  { destruct (l_phase l) eqn:E; try done; eexists.
    - by eapply (loop_exit l _ _ _ {| tp_code := None; tp_signal := None |} 0).
    - by eapply loop_interrupted.
    - by apply (loop_prepare l (Ok tt)).
    - by apply (loop_spawn l (Ok 0) 0). }
  intros l' Hstep.
  destruct Hstep as
    [? pending deadline E _|? c deadline E ??|? c deadline pid acks E ? Ha|? c deadline E ???|? pending c deadline ?? E
    |? until E ?|? until E ?|? prepared E|? spawned ? E].
  - apply closes_quiet; try done. unfold wind_down. cbn. rewrite E. destruct pending; cbn; lia.
  - unfold on_alive. cbn. rewrite Ht, andb_false_r.
    apply closes_quiet; try done. unfold wind_down. cbn. rewrite E. cbn. lia.
  - unfold on_ack. cbn. rewrite Ht, andb_false_r.
    apply closes_quiet; try done. unfold wind_down. cbn. rewrite E, Ha. cbn. lia.
  - apply closes_quiet; try done. unfold wind_down. cbn. rewrite E. cbn. lia.
  - unfold on_exit. cbn. rewrite Ht, orb_true_r. repeat split; [unfold wind_down; cbn; rewrite E; cbn; lia|done| |].
    + eexists [_; _]. cbn. rewrite <- app_assoc. split; [done|]. by repeat constructor.
    + intros _. cbn. by rewrite last_snoc.
  - apply closes_stopped; [|done]. unfold wind_down. rewrite E. lia.
  - unfold on_wake. rewrite Ht. apply closes_stopped; [|done]. unfold wind_down. rewrite E. lia.
  - unfold on_prepare. rewrite Ht. destruct prepared; (apply closes_stopped; [|done]); unfold wind_down; rewrite E; lia.
  - unfold on_spawn. cbn. rewrite Ht. destruct spawned.
    + apply closes_quiet; try done. unfold wind_down. cbn. rewrite E. lia.
    + apply closes_stopped; [|done]. unfold wind_down. rewrite E. lia.
Qed.

End Loop.

(** ** The back-off schedule *)

Lemma saturating_pow_2 attempt : u32_saturating_pow 2 (N.min attempt 30) = 2 ^ N.min attempt 30.
Proof.
  unfold u32_saturating_pow, u32_max. apply N.min_r.
  transitivity (2 ^ 30); [apply N.pow_le_mono_r; lia|]. vm_compute. discriminate.
Qed.

Lemma backoff_base_eq b attempt :
  bo_max b <= duration_max -> backoff_base b attempt = N.min (bo_initial b * 2 ^ N.min attempt 30) (bo_max b).
Proof.
  intros Hm. unfold backoff_base, duration_saturating_mul. rewrite saturating_pow_2. lia.
Qed.

(** The back-off schedule.  Without jitter the delays double from the
    first one and stop at the ceiling, never shrinking; with jitter a delay is
    within a quarter of that, whatever the entropy.  The ceiling has to leave
    the 64-bit arithmetic of the jitter room, 292 years do. *)
Theorem backoff_is_bounded (b : Backoff) (attempt entropy : N) :
  bo_initial b <= bo_max b -> bo_max b < 2 ^ 63 ->
  let base := backoff_base b attempt in
  base = N.min (bo_initial b * 2 ^ N.min attempt 30) (bo_max b)
  /\ bo_initial b <= base <= bo_max b
  /\ base <= backoff_base b (attempt + 1)
  /\ (bo_jitter b = false -> delay_for b attempt entropy = base)
  /\ (bo_jitter b = true ->
        3 * N.max base 1 <= 4 * delay_for b attempt entropy <= 5 * N.max base 1).
Proof.
  intros Hi Hm. cbn zeta.
  assert (bo_max b <= duration_max) as Hmax.
  { unfold duration_max, duration_from_secs, u64_modulus. change (2 ^ 64) with 18446744073709551616.
    change (2 ^ 63) with 9223372036854775808 in Hm. lia. }
  rewrite !backoff_base_eq by done.
  assert (1 <= 2 ^ N.min attempt 30) by (change 1 with (2 ^ 0); apply N.pow_le_mono_r; lia).
  assert (2 ^ N.min attempt 30 <= 2 ^ N.min (attempt + 1) 30) by (apply N.pow_le_mono_r; lia).
  split; [done|]. split; [nia|]. split; [nia|].
  unfold delay_for. rewrite backoff_base_eq by done.
  set (base := N.min _ (bo_max b)). assert (base < 2 ^ 63) as Hb by (eapply N.le_lt_trans; [apply N.le_min_r|done]). clearbody base.
  split; intros ->; [done|]. clear - Hb.
  unfold u64_modulus. change (2 ^ 64) with 18446744073709551616. change (2 ^ 63) with 9223372036854775808 in Hb.
  rewrite (N.mod_small (N.max base 1)) by lia. set (n := N.max base 1).
  assert (1 <= n < 9223372036854775808) as Hn by lia. clearbody n.
  pose proof (N.mod_lt entropy (N.max (n / 2) 1) ltac:(lia)) as Hoff.
  set (off := entropy mod _) in *. clearbody off.
  pose proof (N.div_mod n 2 ltac:(lia)) as H1. pose proof (N.mod_lt n 2 ltac:(lia)) as H2.
  pose proof (N.div_mod (n / 2) 2 ltac:(lia)) as H3. pose proof (N.mod_lt (n / 2) 2 ltac:(lia)) as H4.
  generalize dependent ((n / 2) mod 2). generalize dependent (n / 2 / 2). generalize dependent (n mod 2).
  generalize dependent (n / 2). intros span Hoff r Hn1 Hr q r' Hq Hr'.
  rewrite N.mod_small by lia. split; nia.
Qed.

(** ** Witnesses: a child that crashes, is restarted, and is cancelled *)

Definition demo_options : SupervisorOptions :=
  {| so_policy := OnFailure 2; so_backoff := exponential 10 40; so_readiness := Acknowledged;
     so_storm := RestartStormPolicy_new 3 1000 |}.
Definition demo_crash : TerminatedPayload := {| tp_code := Some 1%Z; tp_signal := None |}.

Definition demo_crashed : Loop := on_exit demo_options false demo_crash 0 (sv_initial demo_options 100 7).
Definition demo_rested : Loop := set_clock 120 false demo_crashed.
Definition demo_respawned : Loop :=
  on_spawn demo_options (Ok 8) 0 (on_prepare (Ok tt) (on_wake demo_rested)).
Definition demo_crashed_again : Loop := on_exit demo_options false demo_crash 0 demo_respawned.
Definition demo_cancelled : Loop := set_clock 120 true demo_respawned.

Lemma demo_crashed_again_reachable : sv_reachable demo_options demo_crashed_again.
Proof.
  eapply sv_next; [|right; by apply (loop_exit _ _ true false 120)].
  eapply sv_next; [|right; by apply (loop_spawn _ (on_prepare (Ok tt) (on_wake demo_rested)) (Ok 8) 0)].
  eapply sv_next; [|right; by apply (loop_prepare _ (on_wake demo_rested) (Ok tt))].
  eapply sv_next; [|right; by apply (loop_wake _ demo_rested 110)].
  eapply sv_next; [|left; apply (env_tick demo_crashed 20)].
  eapply sv_next; [|right; by apply (loop_exit _ (sv_initial demo_options 100 7) true false 100)].
  apply sv_start.
Defined.

Lemma restarts_stay_within_the_budget_witness :
  since_ready is_restart (l_events demo_crashed_again) = 2 /\ since_ready is_start (l_events demo_crashed_again) <= 2 + 1.
Proof.
  split; [reflexivity|].
  apply (restarts_stay_within_the_budget demo_options ltac:(vm_compute; reflexivity) demo_crashed_again
           demo_crashed_again_reachable).
Defined.

Lemma crash_storms_are_cut_off_witness : crashes_within demo_options 50 (l_events demo_crashed_again) < 3.
Proof.
  apply (crash_storms_are_cut_off demo_options ltac:(vm_compute; discriminate) demo_crashed_again 50
           demo_crashed_again_reachable).
  vm_compute. discriminate.
Defined.

Lemma events_follow_the_protocol_witness :
  exists s, stage_of (l_events demo_crashed_again) = Some s.
Proof.
  destruct (events_follow_the_protocol demo_options demo_crashed_again demo_crashed_again_reachable) as (s & Hs & _).
  by exists s.
Defined.

Lemma cancelled_loop_winds_down_witness : exists l', loop_step demo_options demo_cancelled l'.
Proof. apply (cancelled_loop_winds_down demo_options demo_cancelled); [reflexivity|vm_compute; discriminate]. Defined.

Lemma backoff_is_bounded_witness :
  3 * 4000000000 <= 4 * delay_for (with_jitter (exponential 1000000000 30000000000)) 2 12345.
Proof.
  apply (backoff_is_bounded (with_jitter (exponential 1000000000 30000000000)) 2 12345);
    [vm_compute; discriminate|vm_compute; reflexivity|reflexivity].
Defined.
