(* ===== verification/Engine.v ===== *)
(** * The process engine

    [chimera-utils/src/process/engine.rs], [command.rs] and [handle.rs]: a
    command, the handle of the child it becomes, and the task between the child's
    pipes and the channel of its events ([pump]).  The pump is a function that
    makes one turn of its loop, and a step relation interleaves it with the child,
    the holders of handles, the receiver of events and the clock.  The crate
    [processkit], which starts children and kills groups of processes, answers
    arbitrarily.  [EngineSafety] has the theorems. *)

From S2P Require Export PidFile Supervisor.
Open Scope rust_scope.
Open Scope act_scope.

(** ** Commands ([command.rs]) *)

Inductive PidFile := PfLegacy (path : string) | PfEpoch (spec : EpochPidFile).
(** The name of an encoding stands for the encoding. *)
Record Command := {
  cm_program : string;
  cm_args : list string;
  cm_envs : list (string * string);
  cm_current_dir : option string;
  cm_encoding : option string;
  cm_hide_window : bool;
  cm_kill_grace : Duration;
  cm_event_channel_capacity : N;
  cm_timeout : option Duration;
  cm_pipe_stdin : bool;
  cm_pid_file : option PidFile;
  cm_windows_shutdown_helper : option string;
}.
Definition Command_new (program : string) : Command :=
  {| cm_program := program; cm_args := []; cm_envs := []; cm_current_dir := None; cm_encoding := None; cm_hide_window := true;
     cm_kill_grace := duration_from_secs 5; cm_event_channel_capacity := 64; cm_timeout := None; cm_pipe_stdin := false;
     cm_pid_file := None; cm_windows_shutdown_helper := None |}.

Definition set_cm_args (v : list string) (c : Command) : Command :=
  {| cm_program := cm_program c; cm_args := v; cm_envs := cm_envs c; cm_current_dir := cm_current_dir c;
     cm_encoding := cm_encoding c; cm_hide_window := cm_hide_window c; cm_kill_grace := cm_kill_grace c;
     cm_event_channel_capacity := cm_event_channel_capacity c; cm_timeout := cm_timeout c;
     cm_pipe_stdin := cm_pipe_stdin c; cm_pid_file := cm_pid_file c;
     cm_windows_shutdown_helper := cm_windows_shutdown_helper c |}.
Definition set_cm_envs (v : list (string * string)) (c : Command) : Command :=
  {| cm_program := cm_program c; cm_args := cm_args c; cm_envs := v; cm_current_dir := cm_current_dir c;
     cm_encoding := cm_encoding c; cm_hide_window := cm_hide_window c; cm_kill_grace := cm_kill_grace c;
     cm_event_channel_capacity := cm_event_channel_capacity c; cm_timeout := cm_timeout c;
     cm_pipe_stdin := cm_pipe_stdin c; cm_pid_file := cm_pid_file c;
     cm_windows_shutdown_helper := cm_windows_shutdown_helper c |}.
Definition set_cm_current_dir (v : option string) (c : Command) : Command :=
  {| cm_program := cm_program c; cm_args := cm_args c; cm_envs := cm_envs c; cm_current_dir := v;
     cm_encoding := cm_encoding c; cm_hide_window := cm_hide_window c; cm_kill_grace := cm_kill_grace c;
     cm_event_channel_capacity := cm_event_channel_capacity c; cm_timeout := cm_timeout c;
     cm_pipe_stdin := cm_pipe_stdin c; cm_pid_file := cm_pid_file c;
     cm_windows_shutdown_helper := cm_windows_shutdown_helper c |}.
Definition set_cm_encoding (v : option string) (c : Command) : Command :=
  {| cm_program := cm_program c; cm_args := cm_args c; cm_envs := cm_envs c;
     cm_current_dir := cm_current_dir c; cm_encoding := v; cm_hide_window := cm_hide_window c;
     cm_kill_grace := cm_kill_grace c; cm_event_channel_capacity := cm_event_channel_capacity c;
     cm_timeout := cm_timeout c; cm_pipe_stdin := cm_pipe_stdin c; cm_pid_file := cm_pid_file c;
     cm_windows_shutdown_helper := cm_windows_shutdown_helper c |}.
Definition set_cm_hide_window (v : bool) (c : Command) : Command :=
  {| cm_program := cm_program c; cm_args := cm_args c; cm_envs := cm_envs c;
     cm_current_dir := cm_current_dir c; cm_encoding := cm_encoding c; cm_hide_window := v;
     cm_kill_grace := cm_kill_grace c; cm_event_channel_capacity := cm_event_channel_capacity c;
     cm_timeout := cm_timeout c; cm_pipe_stdin := cm_pipe_stdin c; cm_pid_file := cm_pid_file c;
     cm_windows_shutdown_helper := cm_windows_shutdown_helper c |}.
Definition set_cm_kill_grace (v : Duration) (c : Command) : Command :=
  {| cm_program := cm_program c; cm_args := cm_args c; cm_envs := cm_envs c;
     cm_current_dir := cm_current_dir c; cm_encoding := cm_encoding c; cm_hide_window := cm_hide_window c;
     cm_kill_grace := v; cm_event_channel_capacity := cm_event_channel_capacity c; cm_timeout := cm_timeout c;
     cm_pipe_stdin := cm_pipe_stdin c; cm_pid_file := cm_pid_file c;
     cm_windows_shutdown_helper := cm_windows_shutdown_helper c |}.
Definition set_cm_event_channel_capacity (v : N) (c : Command) : Command :=
  {| cm_program := cm_program c; cm_args := cm_args c; cm_envs := cm_envs c;
     cm_current_dir := cm_current_dir c; cm_encoding := cm_encoding c; cm_hide_window := cm_hide_window c;
     cm_kill_grace := cm_kill_grace c; cm_event_channel_capacity := v; cm_timeout := cm_timeout c;
     cm_pipe_stdin := cm_pipe_stdin c; cm_pid_file := cm_pid_file c;
     cm_windows_shutdown_helper := cm_windows_shutdown_helper c |}.
Definition set_cm_timeout (v : option Duration) (c : Command) : Command :=
  {| cm_program := cm_program c; cm_args := cm_args c; cm_envs := cm_envs c;
     cm_current_dir := cm_current_dir c; cm_encoding := cm_encoding c; cm_hide_window := cm_hide_window c;
     cm_kill_grace := cm_kill_grace c; cm_event_channel_capacity := cm_event_channel_capacity c;
     cm_timeout := v; cm_pipe_stdin := cm_pipe_stdin c; cm_pid_file := cm_pid_file c;
     cm_windows_shutdown_helper := cm_windows_shutdown_helper c |}.
Definition set_cm_pipe_stdin (v : bool) (c : Command) : Command :=
  {| cm_program := cm_program c; cm_args := cm_args c; cm_envs := cm_envs c;
     cm_current_dir := cm_current_dir c; cm_encoding := cm_encoding c; cm_hide_window := cm_hide_window c;
     cm_kill_grace := cm_kill_grace c; cm_event_channel_capacity := cm_event_channel_capacity c;
     cm_timeout := cm_timeout c; cm_pipe_stdin := v; cm_pid_file := cm_pid_file c;
     cm_windows_shutdown_helper := cm_windows_shutdown_helper c |}.
Definition set_cm_pid_file (v : option PidFile) (c : Command) : Command :=
  {| cm_program := cm_program c; cm_args := cm_args c; cm_envs := cm_envs c;
     cm_current_dir := cm_current_dir c; cm_encoding := cm_encoding c; cm_hide_window := cm_hide_window c;
     cm_kill_grace := cm_kill_grace c; cm_event_channel_capacity := cm_event_channel_capacity c;
     cm_timeout := cm_timeout c; cm_pipe_stdin := cm_pipe_stdin c; cm_pid_file := v;
     cm_windows_shutdown_helper := cm_windows_shutdown_helper c |}.
Definition set_cm_windows_shutdown_helper (v : option string) (c : Command) : Command :=
  {| cm_program := cm_program c; cm_args := cm_args c; cm_envs := cm_envs c;
     cm_current_dir := cm_current_dir c; cm_encoding := cm_encoding c; cm_hide_window := cm_hide_window c;
     cm_kill_grace := cm_kill_grace c; cm_event_channel_capacity := cm_event_channel_capacity c;
     cm_timeout := cm_timeout c; cm_pipe_stdin := cm_pipe_stdin c; cm_pid_file := cm_pid_file c;
     cm_windows_shutdown_helper := v |}.

(** The builder. *)
Module Builder.
Definition arg (a : string) (self : Command) : Command := set_cm_args (cm_args self ++ [a]) self.
Definition args (a : list string) (self : Command) : Command := set_cm_args (cm_args self ++ a) self.
Definition env (k v : string) (self : Command) : Command := set_cm_envs (cm_envs self ++ [(k, v)]) self.
Definition current_dir (dir : string) (self : Command) : Command := set_cm_current_dir (Some dir) self.
Definition encoding (enc : option string) (self : Command) : Command := set_cm_encoding enc self.
Definition hide_window (hide : bool) (self : Command) : Command := set_cm_hide_window hide self.
Definition kill_grace (d : Duration) (self : Command) : Command := set_cm_kill_grace d self.
Definition event_channel_capacity (cap : N) (self : Command) : Command := set_cm_event_channel_capacity (N.max cap 1) self.
Definition timeout (d : Duration) (self : Command) : Command := set_cm_timeout (Some d) self.
Definition pipe_stdin (pipe : bool) (self : Command) : Command := set_cm_pipe_stdin pipe self.
Definition pid_file (path : string) (self : Command) : Command := set_cm_pid_file (Some (PfLegacy path)) self.
Definition epoch_pid_file (spec : EpochPidFile) (self : Command) : Command := set_cm_pid_file (Some (PfEpoch spec)) self.
Definition windows_shutdown_helper (path : string) (self : Command) : Command := set_cm_windows_shutdown_helper (Some path) self.
End Builder.

(** ** What the crate takes and answers *)

(** [build_pk]: the command as the crate gets it; behind 256 KiB of output that
    nobody took it drops the oldest lines. *)
Record PkCommand := {
  pk_program : string;
  pk_args : list string;
  pk_envs : list (string * string);
  pk_current_dir : option string;
  pk_encoding : option string;
  pk_timeout : option Duration;
  pk_max_bytes : N;
  pk_keep_stdin_open : bool;
}.
Definition build_pk (cmd : Command) (include_timeout : bool) : PkCommand :=
  {| pk_program := cm_program cmd; pk_args := cm_args cmd; pk_envs := cm_envs cmd; pk_current_dir := cm_current_dir cmd;
     pk_encoding := cm_encoding cmd; pk_timeout := if include_timeout then cm_timeout cmd else None;
     pk_max_bytes := 256 * 1024; pk_keep_stdin_open := cm_pipe_stdin cmd |}.

Inductive PkErrorKind := PkSpawn | PkNotFound | PkOther.
Record PkError := { pe_kind : PkErrorKind; pe_text : string }.
Inductive Mechanism := MeJobObject | MeCgroupV2 | MeProcessGroup | MeOther.
Inductive Containment := JobObject | CgroupV2 | ProcessGroup.
Definition map_containment (mechanism : Mechanism) : Containment :=
  match mechanism with MeJobObject => JobObject | MeCgroupV2 => CgroupV2 | MeProcessGroup | MeOther => ProcessGroup end.

(** One-shot runs. *)
Record PkOutput := { po_timed_out : bool; po_code : option Z; po_stdout : string; po_stderr : string }.
Record ProcessOutput := { ou_code : option Z; ou_stdout : string; ou_stderr : string }.
Definition success (o : ProcessOutput) : bool := bool_decide (ou_code o = Some 0%Z).
Definition run_capture (output_string : PkCommand -> result PkOutput PkError) (cmd : Command) : result ProcessOutput ProcessError :=
  let? out := map_err (fun error => match pe_kind error with
                                    | PkSpawn | PkNotFound => PeSpawn (cm_program cmd) (pe_text error)
                                    | PkOther => PeEngine (pe_text error)
                                    end) (output_string (build_pk cmd true)) in
  if po_timed_out out then Err (PeTimeout (default 0 (cm_timeout cmd)))
  else Ok {| ou_code := po_code out; ou_stdout := po_stdout out; ou_stderr := po_stderr out |}.

(** ** Lines, events and ends *)

(** What the child's pipes bring. *)
Inductive Line := LnStdout (text : string) | LnStderr (text : string) | LnOther.
Inductive ProcessEvent := EvStdout (text : string) | EvStderr (text : string) | EvError (text : string) | EvTerminated (payload : TerminatedPayload).
Definition event_of (line : Line) : option ProcessEvent :=
  match line with LnStdout text => Some (EvStdout text) | LnStderr text => Some (EvStderr text) | LnOther => None end.

Record Finished := { fi_code : option Z; fi_signal : option Z; fi_stderr : string }.
Definition map_outcome (f : Finished) : TerminatedPayload := {| tp_code := fi_code f; tp_signal := fi_signal f |}.
Record FinishOutput := { fo_payload : TerminatedPayload; fo_stderr_tail : list string; fo_error : option string }.

Definition newline : Ascii.ascii := Ascii.ascii_of_N 10.
(** [split] at new lines. *)
Fixpoint split_newline (s : string) : list string :=
  match s with
  | EmptyString => [""]
  | String a s =>
      if decide (a = newline) then "" :: split_newline s
      else match split_newline s with [] => [String a ""] | line :: lines => String a line :: lines end
  end.
Definition split_stderr_tail (stderr : string) : list string := if decide (stderr = "") then [] else split_newline stderr.
Definition normalize_finish (r : result Finished string) : FinishOutput :=
  match r with
  | Ok finished => {| fo_payload := map_outcome finished; fo_stderr_tail := split_stderr_tail (fi_stderr finished); fo_error := None |}
  | Err error => {| fo_payload := {| tp_code := None; tp_signal := None |}; fo_stderr_tail := []; fo_error := Some error |}
  end.
(** What is told to those who wait. *)
Definition watch_of (out : FinishOutput) : result TerminatedPayload string :=
  match fo_error out with Some error => Err error | None => Ok (fo_payload out) end.
Definition dropped_text (dropped : N) : string :=
  "dropped " +:+ show_N dropped +:+ " buffered output events: receiver not draining".
Definition terminal_events (out : FinishOutput) (dropped : N) : list ProcessEvent :=
  (EvStderr <$> fo_stderr_tail out)
  ++ (if decide (0 < dropped) then [EvError (dropped_text dropped)] else [])
  ++ match fo_error out with Some error => [EvError error] | None => [] end
  ++ [EvTerminated (fo_payload out)].

(** ** The state of the pump

    [Around] is what the pump shares with others: the clock, what the child has
    printed and whether its pipes are closed, what reaping it answers, the
    channels, the signals that were sent, the newest first, and the watch of
    those who wait.  [ar_read] and [ar_sent] are the history of the pipes and of
    the channel of events, for the statements.  Requests carry a number that
    stands for the channel of their reply. *)

Inductive Ctrl := GracefulKill (reply : N) | CtKill (reply : N) | WriteStdin (data : list Byte.byte) (reply : N).
Inductive Signal := SgTerm | SgKill.
(** The task that writes to the child: its requests, and whether it takes more. *)
Record Stdin := { si_queue : list (list Byte.byte * N); si_closed : bool }.
(** The loop, the wait for the child, the clean-up of the pid file, and the flush. *)
Inductive Phase := Pumping | Waiting | Cleaning | Flushing | Returned.
#[export] Instance Phase_eq_dec : EqDecision Phase.
Proof. solve_decision. Defined.

Record Around := {
  ar_now : Instant;
  ar_lines : list Line;
  ar_eof : bool;
  ar_child : option (result Finished string);
  ar_ctrl : list Ctrl;
  ar_handles : bool;
  ar_buffer : list ProcessEvent;
  ar_receiver : bool;
  ar_stdin : option Stdin;
  ar_replies : list (N * result () ProcessError);
  ar_signals : list (Instant * Signal);
  ar_terminated : option (result TerminatedPayload string);
  ar_cleaned : bool;
  ar_read : list Line;
  ar_sent : list ProcessEvent;
}.
Definition set_ar_lines (v : list Line) (a : Around) : Around :=
  {| ar_now := ar_now a; ar_lines := v; ar_eof := ar_eof a; ar_child := ar_child a; ar_ctrl := ar_ctrl a;
     ar_handles := ar_handles a; ar_buffer := ar_buffer a; ar_receiver := ar_receiver a;
     ar_stdin := ar_stdin a; ar_replies := ar_replies a; ar_signals := ar_signals a;
     ar_terminated := ar_terminated a; ar_cleaned := ar_cleaned a; ar_read := ar_read a; ar_sent := ar_sent a |}.
Definition set_ar_ctrl (v : list Ctrl) (a : Around) : Around :=
  {| ar_now := ar_now a; ar_lines := ar_lines a; ar_eof := ar_eof a; ar_child := ar_child a; ar_ctrl := v;
     ar_handles := ar_handles a; ar_buffer := ar_buffer a; ar_receiver := ar_receiver a;
     ar_stdin := ar_stdin a; ar_replies := ar_replies a; ar_signals := ar_signals a;
     ar_terminated := ar_terminated a; ar_cleaned := ar_cleaned a; ar_read := ar_read a; ar_sent := ar_sent a |}.
Definition set_ar_buffer (v : list ProcessEvent) (a : Around) : Around :=
  {| ar_now := ar_now a; ar_lines := ar_lines a; ar_eof := ar_eof a; ar_child := ar_child a;
     ar_ctrl := ar_ctrl a; ar_handles := ar_handles a; ar_buffer := v; ar_receiver := ar_receiver a;
     ar_stdin := ar_stdin a; ar_replies := ar_replies a; ar_signals := ar_signals a;
     ar_terminated := ar_terminated a; ar_cleaned := ar_cleaned a; ar_read := ar_read a; ar_sent := ar_sent a |}.
Definition set_ar_receiver (v : bool) (a : Around) : Around :=
  {| ar_now := ar_now a; ar_lines := ar_lines a; ar_eof := ar_eof a; ar_child := ar_child a;
     ar_ctrl := ar_ctrl a; ar_handles := ar_handles a; ar_buffer := ar_buffer a; ar_receiver := v;
     ar_stdin := ar_stdin a; ar_replies := ar_replies a; ar_signals := ar_signals a;
     ar_terminated := ar_terminated a; ar_cleaned := ar_cleaned a; ar_read := ar_read a; ar_sent := ar_sent a |}.
Definition set_ar_stdin (v : option Stdin) (a : Around) : Around :=
  {| ar_now := ar_now a; ar_lines := ar_lines a; ar_eof := ar_eof a; ar_child := ar_child a;
     ar_ctrl := ar_ctrl a; ar_handles := ar_handles a; ar_buffer := ar_buffer a; ar_receiver := ar_receiver a;
     ar_stdin := v; ar_replies := ar_replies a; ar_signals := ar_signals a; ar_terminated := ar_terminated a;
     ar_cleaned := ar_cleaned a; ar_read := ar_read a; ar_sent := ar_sent a |}.
Definition set_ar_replies (v : list (N * result () ProcessError)) (a : Around) : Around :=
  {| ar_now := ar_now a; ar_lines := ar_lines a; ar_eof := ar_eof a; ar_child := ar_child a;
     ar_ctrl := ar_ctrl a; ar_handles := ar_handles a; ar_buffer := ar_buffer a; ar_receiver := ar_receiver a;
     ar_stdin := ar_stdin a; ar_replies := v; ar_signals := ar_signals a; ar_terminated := ar_terminated a;
     ar_cleaned := ar_cleaned a; ar_read := ar_read a; ar_sent := ar_sent a |}.
Definition set_ar_signals (v : list (Instant * Signal)) (a : Around) : Around :=
  {| ar_now := ar_now a; ar_lines := ar_lines a; ar_eof := ar_eof a; ar_child := ar_child a;
     ar_ctrl := ar_ctrl a; ar_handles := ar_handles a; ar_buffer := ar_buffer a; ar_receiver := ar_receiver a;
     ar_stdin := ar_stdin a; ar_replies := ar_replies a; ar_signals := v; ar_terminated := ar_terminated a;
     ar_cleaned := ar_cleaned a; ar_read := ar_read a; ar_sent := ar_sent a |}.
Definition set_ar_terminated (v : option (result TerminatedPayload string)) (a : Around) : Around :=
  {| ar_now := ar_now a; ar_lines := ar_lines a; ar_eof := ar_eof a; ar_child := ar_child a;
     ar_ctrl := ar_ctrl a; ar_handles := ar_handles a; ar_buffer := ar_buffer a; ar_receiver := ar_receiver a;
     ar_stdin := ar_stdin a; ar_replies := ar_replies a; ar_signals := ar_signals a; ar_terminated := v;
     ar_cleaned := ar_cleaned a; ar_read := ar_read a; ar_sent := ar_sent a |}.
Definition set_ar_cleaned (v : bool) (a : Around) : Around :=
  {| ar_now := ar_now a; ar_lines := ar_lines a; ar_eof := ar_eof a; ar_child := ar_child a;
     ar_ctrl := ar_ctrl a; ar_handles := ar_handles a; ar_buffer := ar_buffer a; ar_receiver := ar_receiver a;
     ar_stdin := ar_stdin a; ar_replies := ar_replies a; ar_signals := ar_signals a;
     ar_terminated := ar_terminated a; ar_cleaned := v; ar_read := ar_read a; ar_sent := ar_sent a |}.
Definition set_ar_read (v : list Line) (a : Around) : Around :=
  {| ar_now := ar_now a; ar_lines := ar_lines a; ar_eof := ar_eof a; ar_child := ar_child a;
     ar_ctrl := ar_ctrl a; ar_handles := ar_handles a; ar_buffer := ar_buffer a; ar_receiver := ar_receiver a;
     ar_stdin := ar_stdin a; ar_replies := ar_replies a; ar_signals := ar_signals a;
     ar_terminated := ar_terminated a; ar_cleaned := ar_cleaned a; ar_read := v; ar_sent := ar_sent a |}.
Definition set_ar_sent (v : list ProcessEvent) (a : Around) : Around :=
  {| ar_now := ar_now a; ar_lines := ar_lines a; ar_eof := ar_eof a; ar_child := ar_child a;
     ar_ctrl := ar_ctrl a; ar_handles := ar_handles a; ar_buffer := ar_buffer a; ar_receiver := ar_receiver a;
     ar_stdin := ar_stdin a; ar_replies := ar_replies a; ar_signals := ar_signals a;
     ar_terminated := ar_terminated a; ar_cleaned := ar_cleaned a; ar_read := ar_read a; ar_sent := v |}.

Record Locals := {
  lo_phase : Phase;
  lo_finish : option FinishOutput;
  lo_pending : option ProcessEvent;
  lo_hard_kill_at : option Instant;
  lo_events_open : bool;
  lo_ctrl_open : bool;
  lo_dying : bool;
  lo_drop_output : bool;
  lo_drop_pending_at : option Instant;
  lo_dropped : N;
  lo_abandoned : bool;
  lo_terminal : list ProcessEvent;
  lo_flush_deadline : option Instant;
}.
Definition set_lo_phase (v : Phase) (l : Locals) : Locals :=
  {| lo_phase := v; lo_finish := lo_finish l; lo_pending := lo_pending l; lo_hard_kill_at := lo_hard_kill_at l;
     lo_events_open := lo_events_open l; lo_ctrl_open := lo_ctrl_open l; lo_dying := lo_dying l;
     lo_drop_output := lo_drop_output l; lo_drop_pending_at := lo_drop_pending_at l;
     lo_dropped := lo_dropped l; lo_abandoned := lo_abandoned l; lo_terminal := lo_terminal l;
     lo_flush_deadline := lo_flush_deadline l |}.
Definition set_lo_finish (v : option FinishOutput) (l : Locals) : Locals :=
  {| lo_phase := lo_phase l; lo_finish := v; lo_pending := lo_pending l; lo_hard_kill_at := lo_hard_kill_at l;
     lo_events_open := lo_events_open l; lo_ctrl_open := lo_ctrl_open l; lo_dying := lo_dying l;
     lo_drop_output := lo_drop_output l; lo_drop_pending_at := lo_drop_pending_at l;
     lo_dropped := lo_dropped l; lo_abandoned := lo_abandoned l; lo_terminal := lo_terminal l;
     lo_flush_deadline := lo_flush_deadline l |}.
Definition set_lo_pending (v : option ProcessEvent) (l : Locals) : Locals :=
  {| lo_phase := lo_phase l; lo_finish := lo_finish l; lo_pending := v; lo_hard_kill_at := lo_hard_kill_at l;
     lo_events_open := lo_events_open l; lo_ctrl_open := lo_ctrl_open l; lo_dying := lo_dying l;
     lo_drop_output := lo_drop_output l; lo_drop_pending_at := lo_drop_pending_at l;
     lo_dropped := lo_dropped l; lo_abandoned := lo_abandoned l; lo_terminal := lo_terminal l;
     lo_flush_deadline := lo_flush_deadline l |}.
Definition set_lo_hard_kill_at (v : option Instant) (l : Locals) : Locals :=
  {| lo_phase := lo_phase l; lo_finish := lo_finish l; lo_pending := lo_pending l; lo_hard_kill_at := v;
     lo_events_open := lo_events_open l; lo_ctrl_open := lo_ctrl_open l; lo_dying := lo_dying l;
     lo_drop_output := lo_drop_output l; lo_drop_pending_at := lo_drop_pending_at l;
     lo_dropped := lo_dropped l; lo_abandoned := lo_abandoned l; lo_terminal := lo_terminal l;
     lo_flush_deadline := lo_flush_deadline l |}.
Definition set_lo_events_open (v : bool) (l : Locals) : Locals :=
  {| lo_phase := lo_phase l; lo_finish := lo_finish l; lo_pending := lo_pending l;
     lo_hard_kill_at := lo_hard_kill_at l; lo_events_open := v; lo_ctrl_open := lo_ctrl_open l;
     lo_dying := lo_dying l; lo_drop_output := lo_drop_output l; lo_drop_pending_at := lo_drop_pending_at l;
     lo_dropped := lo_dropped l; lo_abandoned := lo_abandoned l; lo_terminal := lo_terminal l;
     lo_flush_deadline := lo_flush_deadline l |}.
Definition set_lo_ctrl_open (v : bool) (l : Locals) : Locals :=
  {| lo_phase := lo_phase l; lo_finish := lo_finish l; lo_pending := lo_pending l;
     lo_hard_kill_at := lo_hard_kill_at l; lo_events_open := lo_events_open l; lo_ctrl_open := v;
     lo_dying := lo_dying l; lo_drop_output := lo_drop_output l; lo_drop_pending_at := lo_drop_pending_at l;
     lo_dropped := lo_dropped l; lo_abandoned := lo_abandoned l; lo_terminal := lo_terminal l;
     lo_flush_deadline := lo_flush_deadline l |}.
Definition set_lo_dying (v : bool) (l : Locals) : Locals :=
  {| lo_phase := lo_phase l; lo_finish := lo_finish l; lo_pending := lo_pending l;
     lo_hard_kill_at := lo_hard_kill_at l; lo_events_open := lo_events_open l; lo_ctrl_open := lo_ctrl_open l;
     lo_dying := v; lo_drop_output := lo_drop_output l; lo_drop_pending_at := lo_drop_pending_at l;
     lo_dropped := lo_dropped l; lo_abandoned := lo_abandoned l; lo_terminal := lo_terminal l;
     lo_flush_deadline := lo_flush_deadline l |}.
Definition set_lo_drop_output (v : bool) (l : Locals) : Locals :=
  {| lo_phase := lo_phase l; lo_finish := lo_finish l; lo_pending := lo_pending l;
     lo_hard_kill_at := lo_hard_kill_at l; lo_events_open := lo_events_open l; lo_ctrl_open := lo_ctrl_open l;
     lo_dying := lo_dying l; lo_drop_output := v; lo_drop_pending_at := lo_drop_pending_at l;
     lo_dropped := lo_dropped l; lo_abandoned := lo_abandoned l; lo_terminal := lo_terminal l;
     lo_flush_deadline := lo_flush_deadline l |}.
Definition set_lo_drop_pending_at (v : option Instant) (l : Locals) : Locals :=
  {| lo_phase := lo_phase l; lo_finish := lo_finish l; lo_pending := lo_pending l;
     lo_hard_kill_at := lo_hard_kill_at l; lo_events_open := lo_events_open l; lo_ctrl_open := lo_ctrl_open l;
     lo_dying := lo_dying l; lo_drop_output := lo_drop_output l; lo_drop_pending_at := v;
     lo_dropped := lo_dropped l; lo_abandoned := lo_abandoned l; lo_terminal := lo_terminal l;
     lo_flush_deadline := lo_flush_deadline l |}.
Definition set_lo_dropped (v : N) (l : Locals) : Locals :=
  {| lo_phase := lo_phase l; lo_finish := lo_finish l; lo_pending := lo_pending l;
     lo_hard_kill_at := lo_hard_kill_at l; lo_events_open := lo_events_open l; lo_ctrl_open := lo_ctrl_open l;
     lo_dying := lo_dying l; lo_drop_output := lo_drop_output l; lo_drop_pending_at := lo_drop_pending_at l;
     lo_dropped := v; lo_abandoned := lo_abandoned l; lo_terminal := lo_terminal l;
     lo_flush_deadline := lo_flush_deadline l |}.
Definition set_lo_abandoned (v : bool) (l : Locals) : Locals :=
  {| lo_phase := lo_phase l; lo_finish := lo_finish l; lo_pending := lo_pending l;
     lo_hard_kill_at := lo_hard_kill_at l; lo_events_open := lo_events_open l; lo_ctrl_open := lo_ctrl_open l;
     lo_dying := lo_dying l; lo_drop_output := lo_drop_output l; lo_drop_pending_at := lo_drop_pending_at l;
     lo_dropped := lo_dropped l; lo_abandoned := v; lo_terminal := lo_terminal l;
     lo_flush_deadline := lo_flush_deadline l |}.
Definition set_lo_terminal (v : list ProcessEvent) (l : Locals) : Locals :=
  {| lo_phase := lo_phase l; lo_finish := lo_finish l; lo_pending := lo_pending l;
     lo_hard_kill_at := lo_hard_kill_at l; lo_events_open := lo_events_open l; lo_ctrl_open := lo_ctrl_open l;
     lo_dying := lo_dying l; lo_drop_output := lo_drop_output l; lo_drop_pending_at := lo_drop_pending_at l;
     lo_dropped := lo_dropped l; lo_abandoned := lo_abandoned l; lo_terminal := v;
     lo_flush_deadline := lo_flush_deadline l |}.
Definition set_lo_flush_deadline (v : option Instant) (l : Locals) : Locals :=
  {| lo_phase := lo_phase l; lo_finish := lo_finish l; lo_pending := lo_pending l;
     lo_hard_kill_at := lo_hard_kill_at l; lo_events_open := lo_events_open l; lo_ctrl_open := lo_ctrl_open l;
     lo_dying := lo_dying l; lo_drop_output := lo_drop_output l; lo_drop_pending_at := lo_drop_pending_at l;
     lo_dropped := lo_dropped l; lo_abandoned := lo_abandoned l; lo_terminal := lo_terminal l;
     lo_flush_deadline := v |}.

Record Engine := { en_a : Around; en_l : Locals }.
Definition around (f : Around -> Around) (e : Engine) : Engine := {| en_a := f (en_a e); en_l := en_l e |}.
Definition local (f : Locals -> Locals) (e : Engine) : Engine := {| en_a := en_a e; en_l := f (en_l e) |}.

Definition DYING_EVENT_STALL : Duration := duration_from_secs 5.
Definition CTRL_CAPACITY : nat := 8.
Definition STDIN_CAPACITY : nat := 64.

(** What the group answers in a turn. *)
Record Kit := { kt_signal : bool; kt_kill_all : result () string }.

Definition send_reply (id : N) (r : result () ProcessError) : Around -> Around :=
  fun a => set_ar_replies ((id, r) :: ar_replies a) a.
Definition signal (s : Signal) : Around -> Around := fun a => set_ar_signals ((ar_now a, s) :: ar_signals a) a.
Definition kill_result (kit : Kit) : result () ProcessError := map_err PeEngine (kt_kill_all kit).

(** [handle_ctrl]: the state behind it, and whether the child is to end. *)
Definition handle_ctrl (kit : Kit) (grace : Duration) (ctrl : Ctrl) (e : Engine) : Engine * bool :=
  match ctrl with
  | CtKill id =>
      let e := local (set_lo_hard_kill_at None) e in
      let e := around (signal SgKill) e in
      (around (send_reply id (kill_result kit)) e, true)
  | GracefulKill id =>
      let e := around (signal SgTerm) e in
      if kt_signal kit then
        let grace_deadline := ar_now (en_a e) + grace in
        let e := if match lo_hard_kill_at (en_l e) with Some deadline => bool_decide (grace_deadline < deadline) | None => true end
                 then local (set_lo_hard_kill_at (Some grace_deadline)) e else e in
        (around (send_reply id (Ok tt)) e, true)
      else
        let e := around (signal SgKill) e in
        (around (send_reply id (kill_result kit)) e, true)
  | WriteStdin data id =>
      match ar_stdin (en_a e) with
      | Some stdin =>
          if si_closed stdin || bool_decide (STDIN_CAPACITY <= length (si_queue stdin))%nat
          then (around (send_reply id (Err PeStdinUnavailable)) e, false)
          else (around (set_ar_stdin (Some {| si_queue := si_queue stdin ++ [(data, id)]; si_closed := false |})) e, false)
      | None => (around (send_reply id (Err PeStdinUnavailable)) e, false)
      end
  end.

(** ** A turn of the loop

    An arm of a [select!] is [None] while its guard is false or what it waits for
    is not there.  [biased]: the first arm that is ready runs. *)

Definition Arm : Type := Engine -> option Engine.
Fixpoint select (arms : list Arm) (e : Engine) : option Engine :=
  match arms with
  | [] => None
  | arm :: arms => match arm e with Some e' => Some e' | None => select arms e end
  end.
Definition due (deadline : option Instant) (e : Engine) : bool :=
  match deadline with Some at_ => bool_decide (at_ <= ar_now (en_a e)) | None => false end.
Definition set_dying : Engine -> Engine := local (set_lo_dying true).
(** An event that is pending while the child dies has five seconds. *)
Definition arm_stall (e : Engine) : Engine :=
  match lo_pending (en_l e), lo_drop_pending_at (en_l e) with
  | Some _, None => local (set_lo_drop_pending_at (Some (ar_now (en_a e) + DYING_EVENT_STALL))) e
  | _, _ => e
  end.

Definition arm_ctrl (kit : Kit) (grace : Duration) (handled : Engine -> Engine) : Arm :=
  fun e =>
    if negb (lo_ctrl_open (en_l e)) then None
    else match ar_ctrl (en_a e) with
    | ctrl :: rest =>
        let '(e, ending) := handle_ctrl kit grace ctrl (around (set_ar_ctrl rest) e) in
        Some (if ending then handled e else e)
    | [] => if ar_handles (en_a e) then None else Some (local (set_lo_ctrl_open false) e)
    end.
Definition arm_hard_kill (killed : Engine -> Engine) : Arm :=
  fun e =>
    if due (lo_hard_kill_at (en_l e)) e
    then Some (killed (around (signal SgKill) (local (set_lo_hard_kill_at None) e)))
    else None.
(** The child is reaped: those who wait are told. *)
Definition finished (r : result Finished string) (e : Engine) : Engine :=
  let out := normalize_finish r in
  local (set_lo_finish (Some out)) (around (set_ar_terminated (Some (watch_of out))) e).
Definition arm_finish (then_ : Engine -> Engine) : Arm :=
  fun e =>
    match lo_finish (en_l e), ar_child (en_a e) with
    | None, Some r => Some (finished r (then_ e))
    | _, _ => None
    end.
Definition arm_drop : Arm :=
  fun e =>
    let l := en_l e in
    if lo_dying l && negb (lo_drop_output l) && bool_decide (is_Some (lo_pending l)) && due (lo_drop_pending_at l) e
    then Some (local (fun l => set_lo_drop_output true (set_lo_dropped (lo_dropped l + 1) (set_lo_pending None
                                 (set_lo_drop_pending_at None l)))) e)
    else None.
Definition close_events (l : Locals) : Locals :=
  set_lo_events_open false (set_lo_pending None (set_lo_drop_pending_at None l)).
(** An event goes into the channel. *)
Definition deliver (ev : ProcessEvent) (a : Around) : Around :=
  set_ar_buffer (ar_buffer a ++ [ev]) (set_ar_sent (ar_sent a ++ [ev]) a).
Definition arm_reserve (capacity : nat) : Arm :=
  fun e =>
    let l := en_l e in
    match lo_pending l with
    | Some ev =>
        if negb (lo_events_open l) || lo_drop_output l then None
        else if negb (ar_receiver (en_a e)) then Some (local close_events e)
        else if bool_decide (length (ar_buffer (en_a e)) < capacity)%nat
             then Some (local (fun l => set_lo_pending None (set_lo_drop_pending_at None l)) (around (deliver ev) e))
             else None
    | None => None
    end.
Definition arm_closed (closed : Locals -> Locals) : Arm :=
  fun e => if lo_events_open (en_l e) && negb (ar_receiver (en_a e)) then Some (local closed e) else None.
Definition take_line (line : Line) (rest : list Line) (a : Around) : Around :=
  set_ar_lines rest (set_ar_read (ar_read a ++ [line]) a).
Definition arm_next : Arm :=
  fun e =>
    match lo_pending (en_l e) with
    | Some _ => None
    | None =>
        match ar_lines (en_a e) with
        | line :: rest =>
            let e := around (take_line line rest) e in
            match event_of line with
            | Some ev =>
                if lo_drop_output (en_l e) then Some (local (fun l => set_lo_dropped (lo_dropped l + 1) l) e)
                else if lo_events_open (en_l e) then
                  let e := local (set_lo_pending (Some ev)) e in
                  Some (if lo_dying (en_l e)
                        then local (set_lo_drop_pending_at (Some (ar_now (en_a e) + DYING_EVENT_STALL))) e else e)
                else Some e
            | None => Some e
            end
        | [] =>
            if ar_eof (en_a e)
            then Some (local (set_lo_phase (match lo_finish (en_l e) with Some _ => Cleaning | None => Waiting end)) e)
            else None
        end
    end.

(** Nobody is left: the whole group is killed. *)
Definition left_alone (e : Engine) : bool :=
  let l := en_l e in negb (lo_events_open l) && negb (lo_ctrl_open l) && negb (lo_abandoned l).
Definition abandon (e : Engine) : Engine :=
  around (signal SgKill) (local (fun l => set_lo_abandoned true (set_lo_hard_kill_at None l)) e).

Definition restart_flush (e : Engine) : Engine :=
  local (set_lo_flush_deadline (Some (ar_now (en_a e) + DYING_EVENT_STALL))) e.
Definition arm_flush (capacity : nat) : Arm :=
  fun e =>
    match lo_terminal (en_l e) with
    | ev :: rest =>
        if negb (ar_receiver (en_a e)) then Some (local (set_lo_events_open false) e)
        else if bool_decide (length (ar_buffer (en_a e)) < capacity)%nat
             then Some (restart_flush (local (set_lo_terminal rest) (around (deliver ev) e)))
             else None
    | [] => None
    end.
Definition arm_give_up : Arm :=
  fun e => if due (lo_flush_deadline (en_l e)) e then Some (local (set_lo_events_open false) e) else None.

(** [pump]: one turn of one of its loops, or [None] while it waits.  The pid file
    is cleaned by [guard_cleanup] of [PidFile]. *)
Definition pump_step (cmd : Command) (kit : Kit) (e : Engine) : option Engine :=
  let grace := cm_kill_grace cmd in
  let capacity := N.to_nat (cm_event_channel_capacity cmd) in
  let dying e := arm_stall (set_dying e) in
  match lo_phase (en_l e) with
  | Pumping =>
      if left_alone e then Some (set_dying (abandon e))
      else select [arm_ctrl kit grace dying; arm_hard_kill dying; arm_finish dying; arm_drop; arm_reserve capacity;
                   arm_closed close_events; arm_next] e
  | Waiting =>
      if left_alone e then Some (abandon e)
      else select [arm_ctrl kit grace id; arm_hard_kill id; arm_closed (set_lo_events_open false);
                   arm_finish (local (set_lo_phase Cleaning))] e
  | Cleaning =>
      let e := around (set_ar_cleaned true) e in
      match lo_finish (en_l e) with
      | Some out =>
          Some (restart_flush (local (fun l => set_lo_phase Flushing (set_lo_terminal (terminal_events out (lo_dropped l)) l)) e))
      | None => None
      end
  | Flushing =>
      if negb (lo_events_open (en_l e)) || bool_decide (lo_terminal (en_l e) = []) then Some (local (set_lo_phase Returned) e)
      else select [arm_ctrl kit grace id; arm_hard_kill id; arm_closed (set_lo_events_open false); arm_flush capacity;
                   arm_give_up] e
  | Returned => None
  end.

(** ** Everybody else *)

Definition with_now (now : Instant) (a : Around) : Around :=
  {| ar_now := now; ar_lines := ar_lines a; ar_eof := ar_eof a; ar_child := ar_child a; ar_ctrl := ar_ctrl a;
     ar_handles := ar_handles a; ar_buffer := ar_buffer a; ar_receiver := ar_receiver a; ar_stdin := ar_stdin a;
     ar_replies := ar_replies a; ar_signals := ar_signals a; ar_terminated := ar_terminated a; ar_cleaned := ar_cleaned a;
     ar_read := ar_read a; ar_sent := ar_sent a |}.
Definition with_child (eof : bool) (child : option (result Finished string)) (handles : bool) (a : Around) : Around :=
  {| ar_now := ar_now a; ar_lines := ar_lines a; ar_eof := eof; ar_child := child; ar_ctrl := ar_ctrl a;
     ar_handles := handles; ar_buffer := ar_buffer a; ar_receiver := ar_receiver a; ar_stdin := ar_stdin a;
     ar_replies := ar_replies a; ar_signals := ar_signals a; ar_terminated := ar_terminated a; ar_cleaned := ar_cleaned a;
     ar_read := ar_read a; ar_sent := ar_sent a |}.

(** [write_stdin]: the answer to a request; behind the first one that failed all
    others fail. *)
Definition write_stdin (written : bool) (a : Around) : option Around :=
  match ar_stdin a with
  | Some {| si_queue := (data, id) :: queue; si_closed := closed |} =>
      let ok := written && negb closed in
      Some (send_reply id (if ok then Ok tt else Err PeStdinUnavailable)
              (set_ar_stdin (Some {| si_queue := queue; si_closed := negb ok |}) a))
  | _ => None
  end.

Inductive outside_step : Around -> Around -> Prop :=
| OsTick d a : outside_step a (with_now (ar_now a + d) a)
| OsPrint line a : ar_eof a = false -> outside_step a (set_ar_lines (ar_lines a ++ [line]) a)
| OsEof a : outside_step a (with_child true (ar_child a) (ar_handles a) a)
| OsEnds r a : ar_child a = None -> outside_step a (with_child (ar_eof a) (Some r) (ar_handles a) a)
| OsRequest ctrl a :
    ar_handles a = true -> (length (ar_ctrl a) < CTRL_CAPACITY)%nat -> outside_step a (set_ar_ctrl (ar_ctrl a ++ [ctrl]) a)
| OsDropHandles a : outside_step a (with_child (ar_eof a) (ar_child a) false a)
| OsReceive ev rest a : ar_receiver a = true -> ar_buffer a = ev :: rest -> outside_step a (set_ar_buffer rest a)
| OsDropReceiver a : outside_step a (set_ar_receiver false (set_ar_buffer [] a))
| OsWrite written a a' : write_stdin written a = Some a' -> outside_step a a'.

Inductive engine_step (cmd : Command) : Engine -> Engine -> Prop :=
| EsPump kit e e' : pump_step cmd kit e = Some e' -> engine_step cmd e e'
| EsOutside e a : outside_step (en_a e) a -> engine_step cmd e {| en_a := a; en_l := en_l e |}.

(** Behind [spawn]: the child runs, nothing is read; [timeout] kills the group. *)
Definition engine_initial (cmd : Command) (now : Instant) (stdin : bool) : Engine :=
  {| en_a := {| ar_now := now; ar_lines := []; ar_eof := false; ar_child := None; ar_ctrl := []; ar_handles := true;
                ar_buffer := []; ar_receiver := true; ar_stdin := if stdin then Some {| si_queue := []; si_closed := false |} else None;
                ar_replies := []; ar_signals := []; ar_terminated := None; ar_cleaned := false; ar_read := []; ar_sent := [] |};
     en_l := {| lo_phase := Pumping; lo_finish := None; lo_pending := None;
                lo_hard_kill_at := (fun timeout => now + timeout) <$> cm_timeout cmd;
                lo_events_open := true; lo_ctrl_open := true; lo_dying := false; lo_drop_output := false;
                lo_drop_pending_at := None; lo_dropped := 0; lo_abandoned := false; lo_terminal := []; lo_flush_deadline := None |} |}.
Definition engine_reachable (cmd : Command) (start : Instant) (e : Engine) : Prop :=
  exists stdin, rtc (engine_step cmd) (engine_initial cmd start stdin) e.

(** ** The handle ([handle.rs])

    What its calls answer: [sent], whether the request got into the channel;
    [reply], the answer of its own channel, [None] when that was dropped;
    [terminated], the watch of the pump at that moment. *)
Definition send_ctrl (ctrl : Ctrl) (sent : bool) (reply : option (result () ProcessError))
    (terminated : option (result TerminatedPayload string)) : result () ProcessError :=
  let idempotent_kill := match ctrl with GracefulKill _ | CtKill _ => true | WriteStdin _ _ => false end in
  let gone := if idempotent_kill then (if terminated then Ok tt else Err PeAlreadyExited) else Err PeStdinUnavailable in
  if negb sent then gone else match reply with Some result => result | None => gone end.
(** [wait]: [None] while it waits; [pump] says whether the watch is still there. *)
Definition wait (terminated : option (result TerminatedPayload string)) (pump : bool) : option (result TerminatedPayload ProcessError) :=
  match terminated with
  | Some result => Some (map_err PeEngine result)
  | None => if pump then None else Some (Err (PeEngine "process pump task dropped"))
  end.
(** [kill] and [graceful_kill]. *)
Definition kill_and_wait (sent : result () ProcessError) (waited : result TerminatedPayload ProcessError) : result () ProcessError :=
  let? _ := sent in let? _ := waited in Ok tt.

(** ** Starting a child ([spawn])

    The group and the child are those of the crate. *)
Class ProcessKit := {
  pk_group : Act (result Mechanism PkError);
  pk_start : PkCommand -> Act (result (option N) PkError);
  pk_kill_group : Act ();
  pk_finish : Act ();
  pk_take_stdin : Act bool;
  pk_events : Act (result () PkError);
}.

Record SpawnParts := { sp_pid : N; sp_containment : Containment; sp_guard : option PidFileGuard; sp_stdin : bool }.
Definition io_error (e : StdError) : ProcessError := PeIo (se_text e).

Section Spawn.
Context `{Host_os, ProcessKit}.

Definition SpawnAct (A : Type) : Type := Act (result A ProcessError).
Definition sp_bind {A B} (m : SpawnAct A) (k : A -> SpawnAct B) : SpawnAct B :=
  act_bind m (fun r => match r with Ok a => k a | Err e => act_ret (Err e) end).
Definition sp_try {A E} (f : E -> ProcessError) (m : Act (result A E)) : SpawnAct A := act_bind m (fun r => act_ret (map_err f r)).

(** [pid_guard]; [program] has a file name in UTF-8. *)
Definition prepare_guard (cmd : Command) : SpawnAct (option PidFileGuard) :=
  match cm_pid_file cmd with
  | None => act_ret (Ok None)
  | Some (PfLegacy path) => sp_bind (sp_try io_error (prepare_legacy path)) (fun g => act_ret (Ok (Some g)))
  | Some (PfEpoch spec) =>
      match file_name (cm_program cmd) with
      | None => act_ret (Err (io_error (invalid_input "epoch pid records require a UTF-8 executable basename")))
      | Some expected_exe => sp_bind (sp_try io_error (prepare_epoch spec expected_exe)) (fun g => act_ret (Ok (Some g)))
      end
  end.
(** The pid file of the child; without an epoch record the child ends. *)
Definition write_guard (cmd : Command) (guard : option PidFileGuard) (pid : N) : SpawnAct (option PidFileGuard) :=
  match guard with
  | None => act_ret (Ok None)
  | Some g =>
      act_bind (guard_write g pid) (fun r =>
        match r with
        | Ok g => act_ret (Ok (Some g))
        | Err error =>
            match cm_pid_file cmd with
            | Some (PfEpoch _) =>
                act_bind pk_kill_group (fun _ => act_bind pk_finish (fun _ => act_ret (Err (io_error error))))
            | _ => act_ret (Ok (Some g))
            end
        end)
  end.
Definition spawn (cmd : Command) : SpawnAct SpawnParts :=
  let spawn_error error := PeSpawn (cm_program cmd) (pe_text error) in
  sp_bind (prepare_guard cmd) (fun guard =>
  sp_bind (sp_try spawn_error pk_group) (fun mechanism =>
  sp_bind (sp_try spawn_error (pk_start (build_pk cmd false))) (fun pid =>
  match pid with
  | None => act_ret (Err (PeEngine "spawned process has no pid"))
  | Some pid =>
      sp_bind (write_guard cmd guard pid) (fun guard =>
      act_bind (if cm_pipe_stdin cmd then pk_take_stdin else act_ret false) (fun stdin =>
      sp_bind (sp_try (fun error => PeEngine (pe_text error)) pk_events) (fun _ =>
      act_ret (Ok {| sp_pid := pid; sp_containment := map_containment mechanism; sp_guard := guard; sp_stdin := stdin |}))))
  end))).
End Spawn.
