(* ===== verification/EngineSafety.v ===== *)
(** * What the pump delivers, kills and ends

    Theorems on [Engine]: the events are what the child printed, in order and
    with an exact count of what was dropped, and its end is the last of them; no
    signal that was promised is forgotten; and behind the end of the child the
    pump is done within its stalls. *)

From stdpp Require Import relations.
From S2P Require Export Engine.
Open Scope rust_scope.

(** ** The arms of a turn *)

Lemma select_some arms e e' : select arms e = Some e' -> exists arm, arm ∈ arms /\ arm e = Some e'.
Proof.
  induction arms as [|arm arms IH]; [done|]. cbn. destruct (arm e) as [e1|] eqn:E.
  - intros [= <-]. exists arm. split; [by left|done].
  - intros (arm' & ? & ?)%IH. exists arm'. split; [by right|done].
Qed.
Lemma select_none arms e : select arms e = None -> forall arm, arm ∈ arms -> arm e = None.
Proof.
  induction arms as [|arm arms IH]; cbn; [by intros _ ? ?%elem_of_nil|]. destruct (arm e) eqn:E; [done|].
  intros Hs arm' [->|Hin]%elem_of_cons; [done|]. by apply IH.
Qed.

#[local] Arguments select : simpl never.

Definition Dying (e : Engine) : Engine := arm_stall (set_dying e).
(** What a turn did: an arm that is open in its phase. *)
Inductive turn (cmd : Command) (kit : Kit) (e : Engine) : Engine -> Prop :=
| TnAbandon e' : (e' = abandon e \/ e' = set_dying (abandon e)) -> left_alone e = true ->
    lo_phase (en_l e) = Pumping \/ lo_phase (en_l e) = Waiting -> turn cmd kit e e'
| TnCtrl handled e' : (handled = Dying \/ handled = id) -> arm_ctrl kit (cm_kill_grace cmd) handled e = Some e' -> turn cmd kit e e'
| TnHardKill killed e' : (killed = Dying \/ killed = id) -> arm_hard_kill killed e = Some e' -> turn cmd kit e e'
| TnFinish e' : lo_phase (en_l e) = Pumping -> arm_finish Dying e = Some e' -> turn cmd kit e e'
| TnReaped e' : lo_phase (en_l e) = Waiting -> arm_finish (local (set_lo_phase Cleaning)) e = Some e' -> turn cmd kit e e'
| TnDrop e' : lo_phase (en_l e) = Pumping -> arm_drop e = Some e' -> turn cmd kit e e'
| TnReserve e' : lo_phase (en_l e) = Pumping -> arm_reserve (N.to_nat (cm_event_channel_capacity cmd)) e = Some e' -> turn cmd kit e e'
| TnClosed e' : lo_phase (en_l e) = Pumping -> arm_closed close_events e = Some e' -> turn cmd kit e e'
| TnNext e' : lo_phase (en_l e) = Pumping -> arm_next e = Some e' -> turn cmd kit e e'
| TnGone e' : lo_phase (en_l e) <> Pumping -> arm_closed (set_lo_events_open false) e = Some e' -> turn cmd kit e e'
| TnClean out : lo_phase (en_l e) = Cleaning -> lo_finish (en_l e) = Some out ->
    turn cmd kit e (restart_flush (local (fun l => set_lo_phase Flushing (set_lo_terminal (terminal_events out (lo_dropped l)) l))
                                     (around (set_ar_cleaned true) e)))
| TnFlush e' : lo_phase (en_l e) = Flushing -> lo_events_open (en_l e) = true ->
    arm_flush (N.to_nat (cm_event_channel_capacity cmd)) e = Some e' -> turn cmd kit e e'
| TnGiveUp e' : lo_phase (en_l e) = Flushing -> lo_events_open (en_l e) = true -> arm_give_up e = Some e' -> turn cmd kit e e'
| TnReturn : lo_phase (en_l e) = Flushing -> turn cmd kit e (local (set_lo_phase Returned) e).
Lemma turn_of cmd kit e e' : pump_step cmd kit e = Some e' -> turn cmd kit e e'.
Proof.
  unfold pump_step. destruct (lo_phase (en_l e)) eqn:Hp.
  - destruct (left_alone e) eqn:Ha; [intros [= <-]; eapply TnAbandon; eauto|].
    intros (arm & Hin & H)%select_some. repeat (apply elem_of_cons in Hin as [->|Hin]); try by apply elem_of_nil in Hin.
    + eapply TnCtrl; [by left|exact H].
    + eapply TnHardKill; [by left|exact H].
    + by eapply TnFinish.
    + by eapply TnDrop.
    + by eapply TnReserve.
    + by eapply TnClosed.
    + by eapply TnNext.
  - destruct (left_alone e) eqn:Ha; [intros [= <-]; eapply TnAbandon; eauto|].
    intros (arm & Hin & H)%select_some. repeat (apply elem_of_cons in Hin as [->|Hin]); try by apply elem_of_nil in Hin.
    + eapply TnCtrl; [by right|exact H].
    + eapply TnHardKill; [by right|exact H].
    + eapply TnGone; [congruence|exact H].
    + by eapply TnReaped.
  - cbn. destruct (lo_finish (en_l e)) as [out|] eqn:Hf; [|done]. intros [= <-]. by apply TnClean.
  - destruct (lo_events_open (en_l e)) eqn:Ho; cbn [negb orb]; [|intros [= <-]; by apply TnReturn].
    case_bool_decide; [intros [= <-]; by apply TnReturn|].
    intros (arm & Hin & H')%select_some. repeat (apply elem_of_cons in Hin as [->|Hin]); try by apply elem_of_nil in Hin.
    + eapply TnCtrl; [by right|exact H'].
    + eapply TnHardKill; [by right|exact H'].
    + eapply TnGone; [congruence|exact H'].
    + by eapply TnFlush.
    + by eapply TnGiveUp.
  - done.
Qed.

(** *** What requests leave alone *)

(** All of the state but the deadlines, the signals, the replies and the
    requests. *)
Definition view (e : Engine) :=
  let a := en_a e in let l := en_l e in
  (((ar_lines a, ar_eof a, ar_child a), (ar_buffer a, ar_receiver a, ar_terminated a), (ar_cleaned a, ar_read a, ar_sent a)),
   ((lo_phase l, lo_finish l, lo_pending l), (lo_events_open l, lo_drop_output l, lo_dropped l), (lo_terminal l, ar_now a, lo_flush_deadline l))).
Lemma view_stall e : view (arm_stall e) = view e.
Proof. unfold arm_stall. by repeat case_match. Qed.
Lemma view_dying e : view (Dying e) = view e.
Proof. etrans; [apply view_stall|done]. Qed.
Lemma view_ctrl kit grace handled e e' :
  handled = Dying \/ handled = id -> arm_ctrl kit grace handled e = Some e' -> view e' = view e.
Proof.
  intros Hh. unfold arm_ctrl. destruct (negb _); [done|]. destruct (ar_ctrl (en_a e)) as [|ctrl rest].
  - destruct (ar_handles _); [done|]. by intros [= <-].
  - destruct (handle_ctrl _ _ _ _) as [e1 ending] eqn:E. intros [= <-].
    assert (view e1 = view e) as <-.
    { unfold handle_ctrl in E. repeat case_match; by simplify_eq. }
    destruct ending; [|done]. destruct Hh as [->| ->]; [apply view_dying|done].
Qed.
Lemma view_hard_kill killed e e' : killed = Dying \/ killed = id -> arm_hard_kill killed e = Some e' -> view e' = view e.
Proof.
  intros Hk. unfold arm_hard_kill. destruct (due _ _); [|done]. intros [= <-]. destruct Hk as [->| ->]; [by rewrite view_dying|done].
Qed.

(** ** Delivery *)

Section Delivery.
Context (cmd : Command).

Definition before_flush (p : Phase) : Prop := p = Pumping \/ p = Waiting \/ p = Cleaning.
(** What was printed is what was sent, what is pending, and what was dropped. *)
Record Delivery (e : Engine) (kept lost told : list ProcessEvent) : Prop := {
  dl_read : omap event_of (ar_read (en_a e)) = kept ++ option_list (lo_pending (en_l e)) ++ lost;
  dl_sent : ar_sent (en_a e) = kept ++ told;
  dl_pending : is_Some (lo_pending (en_l e)) -> lost = [] /\ lo_drop_output (en_l e) = false /\ lo_events_open (en_l e) = true;
  dl_lost : lost <> [] -> lo_drop_output (en_l e) = true \/ lo_events_open (en_l e) = false;
  dl_count : told <> [] \/ lo_events_open (en_l e) = true -> N.of_nat (length lost) = lo_dropped (en_l e);
  dl_told : before_flush (lo_phase (en_l e)) -> told = [];
  dl_quiet : lo_phase (en_l e) <> Pumping -> lo_pending (en_l e) = None;
  dl_flush : ~ before_flush (lo_phase (en_l e)) ->
    exists out, lo_finish (en_l e) = Some out /\ ar_cleaned (en_a e) = true /\
      told ++ lo_terminal (en_l e) = terminal_events out (lo_dropped (en_l e));
}.
(** The end of the child is told as it is, once. *)
Record Ended (e : Engine) : Prop := {
  nd_watch : ar_terminated (en_a e) = watch_of <$> lo_finish (en_l e);
  nd_child out : lo_finish (en_l e) = Some out -> exists r, ar_child (en_a e) = Some r /\ out = normalize_finish r;
  nd_phase : lo_phase (en_l e) = Waiting -> lo_finish (en_l e) = None;
  nd_finish : lo_phase (en_l e) = Cleaning \/ lo_phase (en_l e) = Flushing \/ lo_phase (en_l e) = Returned -> is_Some (lo_finish (en_l e));
  nd_cleaned : ar_cleaned (en_a e) = true -> is_Some (lo_finish (en_l e));
}.
Definition delivery_inv (e : Engine) : Prop := Ended e /\ exists kept lost told, Delivery e kept lost told.
Lemma delivery_view e e' : view e' = view e -> delivery_inv e -> delivery_inv e'.
Proof.
  unfold view. cbn zeta. intros Hv. simplify_eq. intros [[A1 A2 A3 A4 A5] (kept & lost & told & [B1 B2 B3 B4 B5 B6 B7 B8])].
  split; [split|exists kept, lost, told; split]; congruence || (repeat match goal with H : _ = _ |- _ => rewrite H end; done).
Qed.

Lemma ended_finish e r :
  ar_child (en_a e) = Some r -> lo_phase (en_l e) <> Waiting -> Ended (finished r e).
Proof.
  intros Hc Hp. split; cbn; [done| |done|by eexists|by eexists]. intros out [= <-]. by exists r.
Qed.
Lemma delivery_finish e e' :
  lo_phase (en_l e) = Pumping -> arm_finish Dying e = Some e' -> delivery_inv e -> delivery_inv e'.
Proof.
  intros Hp He Hi. unfold arm_finish in He. destruct (lo_finish (en_l e)) eqn:Hf; [done|].
  destruct (ar_child (en_a e)) as [r|] eqn:Hc; [|done]. injection He as <-.
  apply (delivery_view _ _ (view_dying e)) in Hi. pose proof (view_dying e) as Hv. unfold view in Hv. cbn zeta in Hv.
  set (e1 := Dying e) in *. clearbody e1. simplify_eq. destruct Hi as [_ (kept & lost & told & [B1 B2 B3 B4 B5 B6 B7 B8])].
  split; [apply ended_finish; congruence|]. exists kept, lost, told.
  assert (Hp1 : lo_phase (en_l e1) = Pumping) by congruence. split; try done. intros Hb. destruct Hb. left. exact Hp1.
Qed.
Lemma delivery_reaped e e' :
  lo_phase (en_l e) = Waiting -> arm_finish (local (set_lo_phase Cleaning)) e = Some e' -> delivery_inv e -> delivery_inv e'.
Proof.
  intros Hp He [_ (kept & lost & told & [B1 B2 B3 B4 B5 B6 B7 B8])]. unfold arm_finish in He.
  destruct (lo_finish (en_l e)) eqn:Hf; [done|]. destruct (ar_child (en_a e)) as [r|] eqn:Hc; [|done]. injection He as <-.
  split; [by apply ended_finish|]. exists kept, lost, told. rewrite Hp in *. split; try done.
  - intros _. apply B6. right. by left.
  - intros _. by apply B7.
  - intros Hb. destruct Hb. by right; right.
Qed.
Lemma delivery_drop e e' : lo_phase (en_l e) = Pumping -> arm_drop e = Some e' -> delivery_inv e -> delivery_inv e'.
Proof.
  intros Hp He [[A1 A2 A3 A4 A5] (kept & lost & told & [B1 B2 B3 B4 B5 B6 B7 B8])]. unfold arm_drop in He. cbn zeta in He.
  destruct (_ && _) eqn:Hc; [|done]. injection He as <-. do 3 apply andb_true_iff in Hc as [Hc ?].
  destruct (lo_pending (en_l e)) as [ev|] eqn:Hpend; [|done]. destruct (B3 ltac:(by eexists)) as (-> & Hd & Ho).
  split; [by split|]. exists kept, [ev], told. split; cbn; try done.
  - by left.
  - intros _. rewrite <- B5 by (by right). cbn. lia.
  - intros Hb. destruct Hb. by left.
Qed.
Lemma delivery_close e l' :
  lo_phase (en_l e) = Pumping -> delivery_inv e -> l' = close_events (en_l e) -> delivery_inv {| en_a := en_a e; en_l := l' |}.
Proof.
  intros Hp [[A1 A2 A3 A4 A5] (kept & lost & told & [B1 B2 B3 B4 B5 B6 B7 B8])] ->.
  assert (Ht : told = []) by (apply B6; by left). subst told.
  split; [by split|]. exists kept, (option_list (lo_pending (en_l e)) ++ lost), []. split; cbn; try done.
  - by right.
  - by intros [].
Qed.
Lemma delivery_reserve n e e' : lo_phase (en_l e) = Pumping -> arm_reserve n e = Some e' -> delivery_inv e -> delivery_inv e'.
Proof.
  intros Hp He Hi. unfold arm_reserve in He. cbn zeta in He. destruct (lo_pending (en_l e)) as [ev|] eqn:Hpend; [|done].
  destruct (negb _ || _) eqn:Hc; [done|]. apply orb_false_iff in Hc as [Ho Hd]. apply negb_false_iff in Ho.
  destruct (negb _); [injection He as <-; by eapply delivery_close|]. case_bool_decide; [|done]. injection He as <-.
  destruct Hi as [[A1 A2 A3 A4 A5] (kept & lost & told & [B1 B2 B3 B4 B5 B6 B7 B8])].
  destruct (B3 ltac:(by eexists)) as (-> & _ & _). rewrite Hpend in B1. cbn in B1.
  assert (Ht : told = []) by (apply B6; by left). subst told.
  split; [by split|]. exists (kept ++ [ev]), [], []. rewrite app_nil_r in *. split; cbn; rewrite ?app_nil_r; try done.
  - by rewrite B2.
Qed.
Lemma delivery_closed e e' : lo_phase (en_l e) = Pumping -> arm_closed close_events e = Some e' -> delivery_inv e -> delivery_inv e'.
Proof. intros Hp He Hi. unfold arm_closed in He. destruct (_ && _); [|done]. injection He as <-. by eapply delivery_close. Qed.
Lemma delivery_gone e e' :
  lo_phase (en_l e) <> Pumping -> arm_closed (set_lo_events_open false) e = Some e' -> delivery_inv e -> delivery_inv e'.
Proof.
  intros Hp He [[A1 A2 A3 A4 A5] (kept & lost & told & [B1 B2 B3 B4 B5 B6 B7 B8])]. unfold arm_closed in He.
  destruct (_ && _) eqn:Hc; [|done]. apply andb_true_iff in Hc as [Ho _]. injection He as <-.
  split; [by split|]. exists kept, lost, told. split; cbn; try done.
  - rewrite B7 by done. by intros [].
  - by right.
  - intros [?|?]; [|done]. apply B5. by left.
Qed.
Lemma omap_snoc (l : list Line) (x : Line) : omap event_of (l ++ [x]) = omap event_of l ++ option_list (event_of x).
Proof. rewrite omap_app. cbn. by destruct (event_of x). Qed.
Lemma delivery_next e e' : lo_phase (en_l e) = Pumping -> arm_next e = Some e' -> delivery_inv e -> delivery_inv e'.
Proof.
  intros Hp He [[A1 A2 A3 A4 A5] (kept & lost & told & [B1 B2 B3 B4 B5 B6 B7 B8])]. unfold arm_next in He.
  destruct (lo_pending (en_l e)) as [ev|] eqn:Hpend; [done|]. cbn in B1.
  assert (Ht : told = []) by (apply B6; by left). subst told.
  destruct (ar_lines (en_a e)) as [|line rest] eqn:Hl.
  { destruct (ar_eof _); [|done]. injection He as <-. split.
    - split; cbn; try done; [by destruct (lo_finish _)|].
      destruct (lo_finish _); [by eexists|by intros [|[|]]].
    - exists kept, lost, []. split; cbn; rewrite ?Hpend; try done. intros Hb. destruct Hb. destruct (lo_finish _); [by right; right|by right; left]. }
  destruct (event_of line) as [ev|] eqn:Hev; cbn in He.
  2: { injection He as <-. split; [by split|]. exists kept, lost, []. split; cbn; rewrite ?Hpend; try done.
       by rewrite omap_snoc, Hev, app_nil_r. }
  destruct (lo_drop_output (en_l e)) eqn:Hd; [|destruct (lo_events_open (en_l e)) eqn:Ho]; injection He as <-.
  - split; [by split|]. exists kept, (lost ++ [ev]), []. split; cbn; rewrite ?Hpend; try done; try (intros Hb; destruct Hb; by left).
    + by rewrite omap_snoc, Hev, B1, <- app_assoc.
    + by left.
    + intros Hc. rewrite <- B5 by done. rewrite length_app. cbn. lia.
  - assert (lost = []) as -> by (destruct lost; [done|]; by destruct (B4 ltac:(done))).
    rewrite app_nil_r in B1.
    set (e2 := local (set_lo_pending (Some ev)) (around (take_line line rest) e)).
    assert (Hi : delivery_inv e2).
    { split; [by split|]. exists kept, [], []. split; cbn; try done; try (intros Hb; destruct Hb; by left).
      - by rewrite omap_snoc, Hev, B1.
      - intros _. apply B5. by right. }
    destruct (lo_dying _); [|exact Hi]. by eapply (delivery_view e2).
  - split; [by split|]. exists kept, (lost ++ [ev]), []. split; cbn; rewrite ?Hpend; try done; try (intros Hb; destruct Hb; by left).
    + by rewrite omap_snoc, Hev, B1, <- app_assoc.
    + by right.
    + intros [?|?]; congruence.
Qed.
Lemma delivery_clean e out :
  lo_phase (en_l e) = Cleaning -> lo_finish (en_l e) = Some out -> delivery_inv e ->
  delivery_inv (restart_flush (local (fun l => set_lo_phase Flushing (set_lo_terminal (terminal_events out (lo_dropped l)) l))
                                 (around (set_ar_cleaned true) e))).
Proof.
  intros Hp Hf [[A1 A2 A3 A4 A5] (kept & lost & told & [B1 B2 B3 B4 B5 B6 B7 B8])].
  assert (Ht : told = []) by (apply B6; right; by right). subst told.
  split; [split; cbn; try done; by eexists|]. exists kept, lost, []. split; cbn; try done.
  - intros _. apply B7. congruence.
  - intros _. by exists out.
Qed.
Lemma delivery_phase_late e :
  lo_phase (en_l e) = Flushing -> delivery_inv e -> delivery_inv (local (set_lo_phase Returned) e).
Proof.
  intros Hp [[A1 A2 A3 A4 A5] (kept & lost & told & [B1 B2 B3 B4 B5 B6 B7 B8])].
  assert (Hb : ~ before_flush (lo_phase (en_l e))) by (rewrite Hp; by intros [|[|]]).
  split; [split; cbn; try done; intros _; apply A4; right; by left|]. exists kept, lost, told. split; cbn; try done.
  - by intros [|[|]].
  - intros _. apply B7. congruence.
  - intros _. by apply B8.
Qed.
Lemma delivery_give_up e :
  lo_phase (en_l e) = Flushing -> delivery_inv e -> delivery_inv (local (set_lo_events_open false) e).
Proof.
  intros Hp [[A1 A2 A3 A4 A5] (kept & lost & told & [B1 B2 B3 B4 B5 B6 B7 B8])].
  split; [by split|]. exists kept, lost, told. split; cbn; try done.
  - rewrite B7 by congruence. by intros [].
  - by right.
  - intros [?|?]; [|done]. apply B5. by left.
Qed.
Lemma delivery_flush n e e' :
  lo_phase (en_l e) = Flushing -> lo_events_open (en_l e) = true -> arm_flush n e = Some e' -> delivery_inv e -> delivery_inv e'.
Proof.
  intros Hp Ho He Hi. unfold arm_flush in He. destruct (lo_terminal (en_l e)) as [|ev rest] eqn:Ht; [done|].
  destruct (negb _); [injection He as <-; by apply delivery_give_up|]. case_bool_decide; [|done]. injection He as <-.
  destruct Hi as [[A1 A2 A3 A4 A5] (kept & lost & told & [B1 B2 B3 B4 B5 B6 B7 B8])].
  split; [by split|]. exists kept, lost, (told ++ [ev]). split; cbn; try done.
  - by rewrite B2, app_assoc.
  - intros _. apply B5. by right.
  - rewrite Hp. by intros [|[|]].
  - intros Hb. destruct (B8 Hb) as (out & ? & ? & E). exists out. split; [done|]. split; [done|]. by rewrite <- E, Ht, <- app_assoc.
Qed.
Lemma delivery_turn kit e e' : turn cmd kit e e' -> delivery_inv e -> delivery_inv e'.
Proof.
  intros [e1 H1 _ _|h e1 Hh H1|k e1 Hk H1|e1 Hp H1|e1 Hp H1|e1 Hp H1|e1 Hp H1|e1 Hp H1|e1 Hp H1|e1 Hp H1|out Hp Hf|e1 Hp Ho H1
         |e1 Hp Ho H1|Hp] Hi.
  - eapply delivery_view, Hi. by destruct H1 as [->| ->].
  - by eapply delivery_view, Hi; eapply view_ctrl.
  - by eapply delivery_view, Hi; eapply view_hard_kill.
  - by eapply delivery_finish.
  - by eapply delivery_reaped.
  - by eapply delivery_drop.
  - by eapply delivery_reserve.
  - by eapply delivery_closed.
  - by eapply delivery_next.
  - by eapply delivery_gone.
  - by apply delivery_clean.
  - by eapply delivery_flush.
  - unfold arm_give_up in H1. destruct (due _ _); [|done]. injection H1 as <-. by apply delivery_give_up.
  - by apply delivery_phase_late.
Qed.
(** What others do is no part of it. *)
Lemma outside_same a a' :
  outside_step a a' -> ar_read a' = ar_read a /\ ar_sent a' = ar_sent a /\ ar_cleaned a' = ar_cleaned a /\
    ar_terminated a' = ar_terminated a /\ (forall r, ar_child a = Some r -> ar_child a' = Some r).
Proof.
  intros []; try (repeat split; cbn; intros; congruence). unfold write_stdin in *. repeat case_match; simplify_eq; by repeat split.
Qed.
Lemma delivery_outside e a : outside_step (en_a e) a -> delivery_inv e -> delivery_inv {| en_a := a; en_l := en_l e |}.
Proof.
  intros (R & S & C & T & Hc)%outside_same [[A1 A2 A3 A4 A5] (kept & lost & told & [B1 B2 B3 B4 B5 B6 B7 B8])].
  split; [split; cbn; rewrite ?T, ?C; try done|].
  - intros out Ho. destruct (A2 _ Ho) as (r & Hr & ->). exists r. eauto.
  - exists kept, lost, told. split; cbn; rewrite ?R, ?S, ?C; done.
Qed.
Lemma delivery_reachable start e : engine_reachable cmd start e -> delivery_inv e.
Proof.
  intros (stdin & Hs). assert (Hi : delivery_inv (engine_initial cmd start stdin)).
  { split; [by split; cbn; try done; intros [|[|]]|]. exists [], [], []. split; cbn; try done. intros Hb. destruct Hb. by left. }
  revert Hi. induction Hs as [|e1 e2 e3 H1 _ IH]; [done|]. intros Hi. apply IH.
  destruct H1 as [kit e1 e2 H1|e1 a H1]; [by eapply delivery_turn, Hi; apply turn_of|by apply delivery_outside].
Qed.

(** The end of the child is the last of the terminal events. *)
Definition is_end (ev : ProcessEvent) : Prop := match ev with EvTerminated _ => True | _ => False end.
Lemma terminal_events_end out dropped :
  exists pre, terminal_events out dropped = pre ++ [EvTerminated (fo_payload out)] /\ Forall (fun ev => ~ is_end ev) pre.
Proof.
  unfold terminal_events. eexists. rewrite !app_assoc. split; [done|]. repeat apply Forall_app_2.
  - apply Forall_fmap, Forall_true. by intros x [].
  - case_decide; [|done]. by apply Forall_singleton; intros [].
  - destruct (fo_error out); [|done]. by apply Forall_singleton; intros [].
Qed.
Lemma printed_no_end (ls : list Line) ev : ev ∈ omap event_of ls -> ~ is_end ev.
Proof. intros (l & _ & Hl)%list_elem_of_omap. destruct l; cbn in Hl; simplify_eq; by intros []. Qed.
Lemma snoc_middle (l1 : list ProcessEvent) x l2 pre ev : l1 ++ x :: l2 = pre ++ [ev] -> l2 = [] /\ x = ev \/ x ∈ pre.
Proof.
  destruct l2 as [|y l2 _] using rev_ind; [by intros [_ ->]%app_inj_tail; left|]. intros E. right.
  assert (E' : (l1 ++ x :: l2) ++ [y] = pre ++ [ev]) by (by rewrite <- E, <- app_assoc). apply app_inj_tail in E' as [<- _].
  apply elem_of_app. right. by left.
Qed.
Lemma prefix_end (pre : list ProcessEvent) ev told rest l1 p l2 :
  told ++ rest = pre ++ [ev] -> Forall (fun ev => ~ is_end ev) pre -> told = l1 ++ EvTerminated p :: l2 ->
  l2 = [] /\ ev = EvTerminated p.
Proof.
  intros E Hpre ->. rewrite <- app_assoc in E. cbn in E. apply snoc_middle in E as [[Hn <-]|Hin].
  - by apply app_nil in Hn as [-> _].
  - rewrite Forall_forall in Hpre. by destruct (Hpre _ Hin).
Qed.

(** Events are what the child printed.  Whatever the holders of handles,
    the receiver and the clock do, the channel of events carries the lines that
    were read, in order, up to a point; behind that point lines are lost only
    when the receiver stalled while the child was dying, or is gone.  Then come
    the terminal events: the tail of the errors, the exact number of lines that
    were lost, and at the very end, once, how the child ended.  They come only
    when the child was reaped, those who wait were told the same, and the pid
    file was cleaned. *)
Theorem events_are_what_was_printed start e :
  engine_reachable cmd start e ->
  exists kept lost told,
    ar_sent (en_a e) = kept ++ told /\
    omap event_of (ar_read (en_a e)) = kept ++ option_list (lo_pending (en_l e)) ++ lost /\
    (lost <> [] -> lo_drop_output (en_l e) = true \/ lo_events_open (en_l e) = false) /\
    (told <> [] -> exists r, ar_child (en_a e) = Some r /\ ar_cleaned (en_a e) = true /\
       ar_terminated (en_a e) = Some (watch_of (normalize_finish r)) /\
       told `prefix_of` terminal_events (normalize_finish r) (N.of_nat (length lost))) /\
    (forall l1 p l2, ar_sent (en_a e) = l1 ++ EvTerminated p :: l2 ->
       l2 = [] /\ exists r, ar_child (en_a e) = Some r /\ p = fo_payload (normalize_finish r)).
Proof.
  intros [[A1 A2 A3 A4 A5] (kept & lost & told & [B1 B2 B3 B4 B5 B6 B7 B8])]%delivery_reachable.
  assert (Htold : told <> [] -> exists r, ar_child (en_a e) = Some r /\ ar_cleaned (en_a e) = true /\
       ar_terminated (en_a e) = Some (watch_of (normalize_finish r)) /\
       told ++ lo_terminal (en_l e) = terminal_events (normalize_finish r) (N.of_nat (length lost))).
  { intros Ht. destruct B8 as (out & Hf & Hc & E); [by intros Hb; apply Ht, B6|]. destruct (A2 _ Hf) as (r & Hr & ->).
    exists r. rewrite A1, Hf, B5 by (by left). done. }
  exists kept, lost, told. split; [done|]. split; [done|]. split; [done|]. split.
  { intros (r & ? & ? & ? & E)%Htold. exists r. repeat (split; [done|]). rewrite <- E. by eexists. }
  intros l1 p l2 Hsent. rewrite B2 in Hsent.
  assert (Hkept : forall ev, ev ∈ kept -> ~ is_end ev).
  { intros ev Hin. eapply printed_no_end. rewrite B1. apply elem_of_app. by left. }
  assert (Hfin : forall k, told = k ++ EvTerminated p :: l2 ->
            l2 = [] /\ exists r, ar_child (en_a e) = Some r /\ p = fo_payload (normalize_finish r)).
  { intros k Hk. destruct (Htold ltac:(by rewrite Hk; destruct k)) as (r & Hr & _ & _ & E).
    destruct (terminal_events_end (normalize_finish r) (N.of_nat (length lost))) as (pre & E' & Hpre).
    rewrite E' in E. destruct (prefix_end _ _ _ _ _ _ _ E Hpre Hk) as [-> [= <-]]. split; [done|]. by exists r. }
  apply app_eq_inv in Hsent as [(k & -> & Hk)|(k & -> & Hk)]; [|by eapply Hfin].
  destruct k as [|y k]; cbn in Hk; [by apply (Hfin [])|].
  injection Hk as <- _. exfalso. apply (Hkept (EvTerminated p)); [|done]. apply elem_of_app. right. by left.
Qed.
End Delivery.

(** ** Signals *)

Section Signals.
Context (cmd : Command) (start : Instant).

Definition killed_since (t : Instant) (e : Engine) : Prop := exists t', t <= t' /\ (t', SgKill) ∈ ar_signals (en_a e).
Definition kills_by (t : Instant) (e : Engine) : Prop := exists d, lo_hard_kill_at (en_l e) = Some d /\ d <= t.
(** A promised kill came, or its deadline stands. *)
Record Signals (e : Engine) : Prop := {
  sg_past t s : (t, s) ∈ ar_signals (en_a e) -> t <= ar_now (en_a e);
  sg_start : start <= ar_now (en_a e);
  sg_grace t : (t, SgTerm) ∈ ar_signals (en_a e) -> killed_since t e \/ kills_by (t + cm_kill_grace cmd) e;
  sg_timeout timeout : cm_timeout cmd = Some timeout -> killed_since start e \/ kills_by (start + timeout) e;
  sg_abandoned : lo_abandoned (en_l e) = true -> killed_since start e;
}.
Definition signal_view (e : Engine) :=
  (ar_now (en_a e), ar_signals (en_a e), lo_hard_kill_at (en_l e), lo_abandoned (en_l e)).
Lemma signals_view e e' : signal_view e' = signal_view e -> Signals e -> Signals e'.
Proof.
  unfold signal_view. intros Hv [A1 A2 A3 A4 A5]. injection Hv as V1 V2 V3 V4.
  split; unfold killed_since, kills_by in *; rewrite ?V1, ?V2, ?V3, ?V4; done.
Qed.
Lemma view_signal_stall e : signal_view (arm_stall e) = signal_view e.
Proof. unfold arm_stall. by repeat case_match. Qed.
Lemma view_signal_dying e : signal_view (Dying e) = signal_view e.
Proof. etrans; [apply view_signal_stall|done]. Qed.
(** Everything promised is kept by a kill. *)
Lemma signals_killed e e' :
  Signals e -> ar_now (en_a e') = ar_now (en_a e) ->
  (exists new, ar_signals (en_a e') = (ar_now (en_a e), SgKill) :: new /\
     forall t s, (t, s) ∈ new -> t <= ar_now (en_a e)) -> Signals e'.
Proof.
  intros [A1 A2 A3 A4 A5] Hn (new & Hs & Hnew).
  assert (Hk : forall t, t <= ar_now (en_a e) -> killed_since t e').
  { intros t Ht. exists (ar_now (en_a e)). split; [done|]. rewrite Hs. by left. }
  assert (Hp : forall t s, (t, s) ∈ ar_signals (en_a e') -> t <= ar_now (en_a e)).
  { intros t s. rewrite Hs. intros [[= -> ->]|Hin]%elem_of_cons; [done|by eapply Hnew]. }
  split; rewrite ?Hn; eauto.
Qed.
Lemma signals_same_kill e e' :
  Signals e -> ar_now (en_a e') = ar_now (en_a e) ->
  ar_signals (en_a e') = (ar_now (en_a e), SgKill) :: ar_signals (en_a e) -> Signals e'.
Proof. intros Hs Hn He. eapply signals_killed; [done..|]. eexists. split; [done|]. apply (sg_past _ Hs). Qed.
Lemma handle_signals kit ctrl e e' ending :
  handle_ctrl kit (cm_kill_grace cmd) ctrl e = (e', ending) -> Signals e -> Signals e'.
Proof.
  intros He Hs. destruct ctrl as [id|id|data id]; cbn in He.
  - destruct (kt_signal kit) eqn:Hk; injection He as <- <-.
    + destruct Hs as [A1 A2 A3 A4 A5].
      assert (Hby : forall t, kills_by t e -> kills_by t (around (send_reply id (Ok tt))
                 (if match lo_hard_kill_at (en_l e) with
                     | Some deadline => bool_decide (ar_now (en_a e) + cm_kill_grace cmd < deadline) | None => true end
                  then local (set_lo_hard_kill_at (Some (ar_now (en_a e) + cm_kill_grace cmd))) (around (signal SgTerm) e)
                  else around (signal SgTerm) e))).
      { intros t (d & Hd & Hle). rewrite Hd. case_bool_decide; cbn; eexists; split; try done. lia. }
      assert (Hnow : kills_by (ar_now (en_a e) + cm_kill_grace cmd) (around (send_reply id (Ok tt))
                 (if match lo_hard_kill_at (en_l e) with
                     | Some deadline => bool_decide (ar_now (en_a e) + cm_kill_grace cmd < deadline) | None => true end
                  then local (set_lo_hard_kill_at (Some (ar_now (en_a e) + cm_kill_grace cmd))) (around (signal SgTerm) e)
                  else around (signal SgTerm) e))).
      { destruct (lo_hard_kill_at (en_l e)) as [d|] eqn:Hd; [case_bool_decide|]; cbn; eexists; split; try done. lia. }
      set (e1 := around _ _) in *.
      assert (V : ar_now (en_a e1) = ar_now (en_a e) /\ ar_signals (en_a e1) = (ar_now (en_a e), SgTerm) :: ar_signals (en_a e)
                  /\ lo_abandoned (en_l e1) = lo_abandoned (en_l e)) by (unfold e1; by case_match).
      clearbody e1. destruct V as (V1 & V2 & V3).
      assert (Hk1 : forall t, killed_since t e -> killed_since t e1).
      { intros t (t' & Ht & Hin). exists t'. split; [done|]. rewrite V2. by right. }
      split; rewrite ?V1, ?V2, ?V3.
      * intros t s [[= -> ->]|Hin]%elem_of_cons; [done|by eapply A1].
      * done.
      * intros t [[= ->]|Hin]%elem_of_cons; [by right|]. destruct (A3 _ Hin); [left|right]; auto.
      * intros timeout Ht. destruct (A4 _ Ht); [left|right]; auto.
      * auto.
    + eapply (signals_killed e); [done|done|]. eexists. split; [done|]. intros t s [[= -> ->]|Hin]%elem_of_cons; [done|].
      by eapply (sg_past _ Hs).
  - injection He as <- <-. by eapply (signals_same_kill e).
  - repeat case_match; simplify_eq; by eapply (signals_view e).
Qed.
Lemma signals_turn kit e e' : turn cmd kit e e' -> Signals e -> Signals e'.
Proof.
  intros [e1 H1 _ _|h e1 Hh H1|k e1 Hk H1|e1 Hp H1|e1 Hp H1|e1 Hp H1|e1 Hp H1|e1 Hp H1|e1 Hp H1|e1 Hp H1|out Hp Hf|e1 Hp Ho H1
         |e1 Hp Ho H1|Hp] Hs.
  - destruct H1 as [->| ->]; by eapply (signals_same_kill e).
  - unfold arm_ctrl in H1. destruct (negb _); [done|]. destruct (ar_ctrl (en_a e)) as [|ctrl rest].
    + destruct (ar_handles _); [done|]. injection H1 as <-. by eapply (signals_view e).
    + destruct (handle_ctrl _ _ _ _) as [e2 ending] eqn:E. injection H1 as <-.
      assert (Signals e2) by (eapply handle_signals; [exact E|]; by eapply (signals_view e)).
      destruct ending; [|done]. destruct Hh as [->| ->]; [|done]. eapply signals_view; [apply view_signal_dying|done].
  - unfold arm_hard_kill in H1. destruct (due _ _); [|done]. injection H1 as <-.
    assert (Signals (around (signal SgKill) (local (set_lo_hard_kill_at None) e))) by (by eapply (signals_same_kill e)).
    destruct Hk as [->| ->]; [|done]. eapply signals_view; [apply view_signal_dying|done].
  - unfold arm_finish in H1. repeat case_match; simplify_eq. eapply (signals_view (Dying e)); [done|].
    eapply signals_view; [apply view_signal_dying|done].
  - unfold arm_finish in H1. repeat case_match; simplify_eq. by eapply (signals_view e).
  - unfold arm_drop in H1. cbn zeta in H1. destruct (_ && _); simplify_eq. by eapply (signals_view e).
  - unfold arm_reserve in H1. cbn zeta in H1. repeat case_match; simplify_eq; by eapply (signals_view e).
  - unfold arm_closed in H1. destruct (_ && _); simplify_eq. by eapply (signals_view e).
  - unfold arm_next in H1. cbn zeta in H1. repeat case_match; simplify_eq; by eapply (signals_view e).
  - unfold arm_closed in H1. destruct (_ && _); simplify_eq. by eapply (signals_view e).
  - by eapply (signals_view e).
  - unfold arm_flush in H1. repeat case_match; simplify_eq; by eapply (signals_view e).
  - unfold arm_give_up in H1. destruct (due _ _); simplify_eq. by eapply (signals_view e).
  - by eapply (signals_view e).
Qed.
Lemma outside_signals a a' :
  outside_step a a' -> ar_now a <= ar_now a' /\ ar_signals a' = ar_signals a.
Proof.
  intros []; try (cbn; split; [lia|done]). unfold write_stdin in *. repeat case_match; simplify_eq; cbn; split; (lia || done).
Qed.
Lemma signals_outside e a : outside_step (en_a e) a -> Signals e -> Signals {| en_a := a; en_l := en_l e |}.
Proof.
  intros (Hn & Hsg)%outside_signals [A1 A2 A3 A4 A5]. unfold killed_since, kills_by in *.
  split; unfold killed_since, kills_by; cbn; rewrite ?Hsg; try done; [intros t s Hin; apply A1 in Hin; lia|lia].
Qed.
Lemma signals_reachable e : engine_reachable cmd start e -> Signals e.
Proof.
  intros (stdin & Hs). assert (Hi : Signals (engine_initial cmd start stdin)).
  { split; cbn; try done.
    - by intros t s Hin%elem_of_nil.
    - by intros t Hin%elem_of_nil.
    - intros timeout Ht. right. exists (start + timeout). cbn. by rewrite Ht. }
  revert Hi. induction Hs as [|e1 e2 e3 H1 _ IH]; [done|]. intros Hi. apply IH.
  destruct H1 as [kit e1 e2 H1|e1 a H1]; [by eapply signals_turn, Hi; apply turn_of|by apply signals_outside].
Qed.

(** *** A pump that waits *)

(** What is not there when it waits. *)
Lemma resting kit e :
  pump_step cmd kit e = None -> Ended e -> lo_phase (en_l e) <> Returned ->
  due (lo_hard_kill_at (en_l e)) e = false /\
  (ar_handles (en_a e) = false -> lo_ctrl_open (en_l e) = false) /\
  (ar_receiver (en_a e) = false -> lo_events_open (en_l e) = false) /\
  (lo_phase (en_l e) = Pumping \/ lo_phase (en_l e) = Waiting -> left_alone e = false).
Proof.
  intros Hr HE Hp.
  assert (Harms : forall handled killed closed arms, select (arm_ctrl kit (cm_kill_grace cmd) handled :: arm_hard_kill killed :: arms) e = None ->
            arm_closed closed ∈ arms ->
            due (lo_hard_kill_at (en_l e)) e = false /\ (ar_handles (en_a e) = false -> lo_ctrl_open (en_l e) = false) /\
            (ar_receiver (en_a e) = false -> lo_events_open (en_l e) = false)).
  { intros handled killed closed arms Hsel Hin. pose proof (select_none _ _ Hsel) as Hn.
    pose proof (Hn _ ltac:(left)) as H1. pose proof (Hn (arm_hard_kill killed) ltac:(right; left)) as H2.
    pose proof (Hn (arm_closed closed) ltac:(by do 2 right)) as H3. split; [|split].
    - unfold arm_hard_kill in H2. by destruct (due _ _).
    - intros Hh. unfold arm_ctrl in H1. destruct (lo_ctrl_open (en_l e)); [|done]. cbn in H1.
      destruct (ar_ctrl (en_a e)); [by rewrite Hh in H1|]. by destruct (handle_ctrl _ _ _ _).
    - intros Hh. unfold arm_closed in H3. rewrite Hh in H3. by destruct (lo_events_open _). }
  unfold pump_step in Hr. destruct (lo_phase (en_l e)) eqn:Hph; [| | | |done].
  - destruct (left_alone e) eqn:Ha; [done|]. destruct (Harms _ _ close_events _ Hr) as (? & ? & ?); [|done]. do 3 right. by left.
  - destruct (left_alone e) eqn:Ha; [done|]. destruct (Harms _ _ (set_lo_events_open false) _ Hr) as (? & ? & ?); [by left|done].
  - destruct (nd_finish _ HE ltac:(by left)) as [out Ho]. cbn in Hr. by rewrite Ho in Hr.
  - destruct (negb _ || _) eqn:Hc; [done|]. destruct (Harms _ _ (set_lo_events_open false) _ Hr) as (? & ? & ?); [by left|].
    split; [done|]. split; [done|]. split; [done|]. by intros [].
Qed.

(** C22: no kill is forgotten.  Whenever the pump waits: a graceful request
    that is older than the grace period was followed by a kill of the whole
    group, a command that outlived its timeout was killed, and so was the group
    of a child that nobody holds a handle of and whose events nobody receives. *)
Theorem kills_are_not_forgotten e kit :
  engine_reachable cmd start e -> pump_step cmd kit e = None -> lo_phase (en_l e) <> Returned ->
  (forall t, (t, SgTerm) ∈ ar_signals (en_a e) -> t + cm_kill_grace cmd <= ar_now (en_a e) -> killed_since t e) /\
  (forall timeout, cm_timeout cmd = Some timeout -> start + timeout <= ar_now (en_a e) -> killed_since start e) /\
  (ar_handles (en_a e) = false -> ar_receiver (en_a e) = false ->
   lo_phase (en_l e) = Pumping \/ lo_phase (en_l e) = Waiting -> killed_since start e).
Proof.
  intros Hr Hw Hp. pose proof (signals_reachable _ Hr) as [A1 A2 A3 A4 A5].
  destruct (resting _ _ Hw (proj1 (delivery_reachable _ _ _ Hr)) Hp) as (Hd & Hh & Hv & Ha).
  assert (Hno : forall t, t <= ar_now (en_a e) -> ~ kills_by t e).
  { intros t Ht (d & Hk & Hle). rewrite Hk in Hd. cbn in Hd. apply bool_decide_eq_false in Hd. lia. }
  split; [|split].
  - intros t Hin Ht. destruct (A3 _ Hin) as [?|Hk]; [done|]. by destruct (Hno _ Ht Hk).
  - intros timeout Ht Hle. destruct (A4 _ Ht) as [?|Hk]; [done|]. by destruct (Hno _ Hle Hk).
  - intros Hh' Hv' Hph. apply A5. specialize (Ha Hph). unfold left_alone in Ha. rewrite (Hh Hh'), (Hv Hv') in Ha. cbn in Ha.
    by destruct (lo_abandoned _).
Qed.
End Signals.

(** ** The end of the pump *)

Section Progress.
Context (cmd : Command).

(** What is ahead of the pump when nobody does anything more. *)
Definition one (b : bool) : nat := if b then 1 else 0.
Definition ahead (e : Engine) : nat :=
  let a := en_a e in let l := en_l e in
  2 * length (ar_lines a) + 2 * length (ar_ctrl a) + one (lo_ctrl_open l) + one (bool_decide (is_Some (lo_hard_kill_at l)))
  + one (bool_decide (lo_finish l = None)) + one (bool_decide (is_Some (lo_pending l))) + one (lo_events_open l)
  + one (negb (lo_abandoned l))
  + match lo_phase l with
    | Pumping => 4 | Waiting => 3 | Cleaning => 2 | Flushing => 1 | Returned => 0
    end
  + match lo_phase l with
    | Flushing | Returned => length (lo_terminal l)
    | _ => match ar_child a with Some r => length (fo_stderr_tail (normalize_finish r)) + 3 | None => 0 end
    end.
Definition ahead_view (e : Engine) :=
  let a := en_a e in let l := en_l e in
  ((ar_lines a, ar_ctrl a, ar_child a),
   (lo_ctrl_open l, lo_hard_kill_at l, lo_finish l, lo_pending l, lo_events_open l, lo_abandoned l, lo_phase l, lo_terminal l)).
Lemma ahead_same e e' : ahead_view e' = ahead_view e -> ahead e' = ahead e.
Proof. unfold ahead_view, ahead. cbn zeta. intros Hv. injection Hv as V1 V2 V3 V4 V5 V6 V7 V8 V9 V10 V11. by rewrite V1, V2, V3, V4, V5, V6, V7, V8, V9, V10, V11. Qed.
Lemma ahead_dying e : ahead (Dying e) = ahead e.
Proof. apply ahead_same. unfold Dying, arm_stall. by repeat case_match. Qed.
Lemma one_le b : (one b <= 1)%nat.
Proof. destruct b; cbn; lia. Qed.
Lemma terminal_events_length out dropped : (length (terminal_events out dropped) <= length (fo_stderr_tail out) + 3)%nat.
Proof.
  unfold terminal_events. set (a := if decide _ then _ else _). set (b := match _ with Some _ => _ | None => _ end).
  assert (length a <= 1)%nat by (unfold a; case_decide; cbn; lia). assert (length b <= 1)%nat by (unfold b; case_match; cbn; lia).
  rewrite !length_app, length_fmap. cbn. lia.
Qed.
Lemma ahead_handled kit ctrl e e' ending :
  handle_ctrl kit (cm_kill_grace cmd) ctrl e = (e', ending) -> (ahead e' <= ahead e + 1)%nat.
Proof.
  intros He. unfold handle_ctrl in He.
  assert (H : forall h e1, ahead_view e1 = ahead_view (local (set_lo_hard_kill_at h) e) -> (ahead e1 <= ahead e + 1)%nat).
  { intros h e1 H1. rewrite (ahead_same _ _ H1). unfold ahead. cbn.
    pose proof (one_le (bool_decide (is_Some h))). pose proof (one_le (bool_decide (is_Some (lo_hard_kill_at (en_l e))))). lia. }
  assert (Hsame : forall e1, ahead_view e1 = ahead_view e -> (ahead e1 <= ahead e + 1)%nat) by (intros e1 H1; rewrite (ahead_same _ _ H1); lia).
  repeat case_match; simplify_eq; first [by apply Hsame | by eapply H].
Qed.
Lemma ahead_turn kit e e' : turn cmd kit e e' -> Ended e -> (ahead e' < ahead e)%nat.
Proof.
  intros [e1 H1 Ha Hp|h e1 Hh H1|k e1 Hk H1|e1 Hp H1|e1 Hp H1|e1 Hp H1|e1 Hp H1|e1 Hp H1|e1 Hp H1|e1 Hp H1|out Hp Hf|e1 Hp Ho H1
         |e1 Hp Ho H1|Hp] HE.
  - unfold left_alone in Ha. cbn zeta in Ha. apply andb_true_iff in Ha as [_ Ha].
    destruct H1 as [->| ->]; unfold ahead; cbn; rewrite Ha; cbn; lia.
  - unfold arm_ctrl in H1. destruct (lo_ctrl_open (en_l e)) eqn:Ho; [|done]. cbn [negb] in H1. destruct (ar_ctrl (en_a e)) as [|ctrl rest] eqn:Hc.
    + destruct (ar_handles _); [done|]. injection H1 as <-. unfold ahead. cbn. rewrite Ho. cbn. lia.
    + destruct (handle_ctrl _ _ _ _) as [e2 ending] eqn:E. injection H1 as <-. apply ahead_handled in E.
      assert (ahead (around (set_ar_ctrl rest) e) + 2 = ahead e)%nat by (unfold ahead; cbn; rewrite Hc; cbn; lia).
      destruct ending; [|lia]. destruct Hh as [->| ->]; [rewrite ahead_dying|]; unfold id; lia.
  - unfold arm_hard_kill in H1. destruct (due _ _) eqn:Hd; [|done]. injection H1 as <-.
    assert (ahead (around (signal SgKill) (local (set_lo_hard_kill_at None) e)) < ahead e)%nat.
    { unfold ahead. cbn. destruct (lo_hard_kill_at (en_l e)); [|done]. cbn. lia. }
    destruct Hk as [->| ->]; [by rewrite ahead_dying|done].
  - unfold arm_finish in H1. destruct (lo_finish (en_l e)) eqn:Hf; [done|]. destruct (ar_child (en_a e)); [|done]. injection H1 as <-.
    assert (ahead (finished r (Dying e)) + 1 = ahead (Dying e))%nat; [|rewrite ahead_dying in *; lia].
    pose proof (view_dying e) as V. unfold view in V. cbn zeta in V. injection V as V1 V2 V3 V4 V5 V6 V7 V8 V9 V10 V11.
    unfold ahead. cbn. repeat match goal with H : _ = _ |- _ => rewrite H end. rewrite ?Hf. cbn. lia.
  - unfold arm_finish in H1. destruct (lo_finish (en_l e)) eqn:Hf; [done|]. destruct (ar_child (en_a e)) eqn:Hc; [|done]. injection H1 as <-.
    unfold ahead. cbn. rewrite Hf, Hc, Hp. cbn. lia.
  - unfold arm_drop in H1. cbn zeta in H1. destruct (_ && _) eqn:Hc; [|done]. injection H1 as <-. do 3 apply andb_true_iff in Hc as [Hc ?].
    unfold ahead. cbn. destruct (lo_pending (en_l e)); [|done]. cbn. lia.
  - unfold arm_reserve in H1. cbn zeta in H1. destruct (lo_pending (en_l e)) as [ev|] eqn:Hpend; [|done].
    destruct (_ || _) eqn:Hor; [done|]. apply orb_false_iff in Hor as [Ho _]. apply negb_false_iff in Ho.
    destruct (negb _); [|case_bool_decide; [|done]]; injection H1 as <-; unfold ahead; cbn; rewrite Hpend, Ho; cbn; lia.
  - unfold arm_closed in H1. destruct (_ && _) eqn:Hc; [|done]. apply andb_true_iff in Hc as [Ho _]. injection H1 as <-.
    pose proof (one_le (bool_decide (is_Some (lo_pending (en_l e))))). unfold ahead. cbn. rewrite Ho. cbn. lia.
  - unfold arm_next in H1. cbn zeta in H1. destruct (lo_pending (en_l e)) as [ev|] eqn:Hpend; [done|].
    destruct (ar_lines (en_a e)) as [|line rest] eqn:Hl.
    + destruct (ar_eof _); [|done]. injection H1 as <-. unfold ahead. cbn. rewrite Hp. destruct (lo_finish (en_l e)); cbn; lia.
    + repeat case_match; simplify_eq; unfold ahead; cbn; rewrite ?Hl, ?Hpend; cbn; lia.
  - unfold arm_closed in H1. destruct (_ && _) eqn:Hc; [|done]. apply andb_true_iff in Hc as [Ho _]. injection H1 as <-.
    unfold ahead. cbn. rewrite Ho. cbn. lia.
  - destruct (nd_child _ HE _ Hf) as (r & Hr & ->). pose proof (terminal_events_length (normalize_finish r) (lo_dropped (en_l e))).
    unfold ahead. cbn. rewrite Hp, Hr. cbn. lia.
  - unfold arm_flush in H1. destruct (lo_terminal (en_l e)) as [|ev rest] eqn:Ht; [done|].
    destruct (negb _); [|case_bool_decide; [|done]]; injection H1 as <-; unfold ahead; cbn; rewrite ?Ho, Hp, ?Ht; cbn; lia.
  - unfold arm_give_up in H1. destruct (due _ _); [|done]. injection H1 as <-. unfold ahead. cbn. rewrite Ho. cbn. lia.
  - unfold ahead. cbn. rewrite Hp. cbn. lia.
Qed.

(** *** Stalls *)

Record Stalls (e : Engine) : Prop := {
  st_drop d : lo_drop_pending_at (en_l e) = Some d -> d <= ar_now (en_a e) + DYING_EVENT_STALL;
  st_flush d : lo_flush_deadline (en_l e) = Some d -> d <= ar_now (en_a e) + DYING_EVENT_STALL;
  st_pending : lo_dying (en_l e) = true -> is_Some (lo_pending (en_l e)) -> is_Some (lo_drop_pending_at (en_l e));
  st_dying : lo_phase (en_l e) = Pumping -> is_Some (lo_finish (en_l e)) -> lo_dying (en_l e) = true;
  st_flushing : lo_phase (en_l e) = Flushing -> is_Some (lo_flush_deadline (en_l e));
}.
Definition stall_view (e : Engine) :=
  (ar_now (en_a e), lo_drop_pending_at (en_l e), lo_flush_deadline (en_l e), lo_dying (en_l e), lo_pending (en_l e), lo_phase (en_l e), lo_finish (en_l e)).
Lemma stalls_view e e' : stall_view e' = stall_view e -> Stalls e -> Stalls e'.
Proof.
  unfold stall_view. intros Hv [A1 A2 A3 A4 A5]. injection Hv as V1 V2 V3 V4 V5 V6 V7.
  split; rewrite ?V1, ?V2, ?V3, ?V4, ?V5, ?V6, ?V7; done.
Qed.
Lemma stalls_dying e : Stalls e -> Stalls (Dying e) /\ lo_dying (en_l (Dying e)) = true.
Proof.
  intros [A1 A2 A3 A4 A5]. unfold Dying, arm_stall. destruct (lo_pending (en_l (set_dying e))) as [ev|] eqn:Hp;
    [destruct (lo_drop_pending_at (en_l (set_dying e))) eqn:Hd|]; (split; [split|]); cbn in *; rewrite ?Hp, ?Hd; try done; try by eauto.
  - intros d [= <-]. by apply A1.
  - intros d [= <-]. lia.
Qed.
Lemma stalls_keep e e' :
  Stalls e -> ar_now (en_a e') = ar_now (en_a e) -> lo_flush_deadline (en_l e') = lo_flush_deadline (en_l e) ->
  lo_dying (en_l e') = lo_dying (en_l e) -> lo_finish (en_l e') = lo_finish (en_l e) ->
  (lo_phase (en_l e') = lo_phase (en_l e) \/ lo_phase (en_l e') <> Pumping /\ lo_phase (en_l e') <> Flushing) ->
  (lo_drop_pending_at (en_l e') = lo_drop_pending_at (en_l e) /\ lo_pending (en_l e') = lo_pending (en_l e)
   \/ lo_pending (en_l e') = None /\ lo_drop_pending_at (en_l e') = None) -> Stalls e'.
Proof.
  intros [A1 A2 A3 A4 A5] Hn Hf Hd Hfi Hp Hdr. split; rewrite ?Hn, ?Hf, ?Hd, ?Hfi.
  - destruct Hdr as [[-> _]|[_ ->]]; [done|]. by intros d.
  - done.
  - destruct Hdr as [[-> ->]|[-> _]]; [done|]. by intros _ [].
  - destruct Hp as [->|[? ?]]; [done|]. by intros.
  - destruct Hp as [->|[? ?]]; [done|]. by intros.
Qed.
Lemma stalls_turn kit e e' : turn cmd kit e e' -> (lo_events_open (en_l e) = false -> lo_pending (en_l e) = None) -> Stalls e -> Stalls e'.
Proof.
  intros [e1 H1 Ha Hp|h e1 Hh H1|k e1 Hk H1|e1 Hp H1|e1 Hp H1|e1 Hp H1|e1 Hp H1|e1 Hp H1|e1 Hp H1|e1 Hp H1|out Hp Hf|e1 Hp Ho H1
         |e1 Hp Ho H1|Hp] Hopen Hs.
  - destruct H1 as [->| ->]; [by eapply (stalls_view e)|]. unfold left_alone in Ha. cbn zeta in Ha.
    do 2 apply andb_true_iff in Ha as [Ha ?]. apply negb_true_iff in Ha. specialize (Hopen Ha). destruct Hs as [A1 A2 A3 A4 A5].
    split; cbn; try done. rewrite Hopen. by intros _ [].
  - unfold arm_ctrl in H1. destruct (negb _); [done|]. destruct (ar_ctrl (en_a e)) as [|ctrl rest].
    + destruct (ar_handles _); [done|]. injection H1 as <-. by eapply (stalls_view e).
    + destruct (handle_ctrl _ _ _ _) as [e2 ending] eqn:E. injection H1 as <-.
      assert (Stalls e2).
      { eapply (stalls_view e); [|done]. unfold handle_ctrl in E. repeat case_match; by simplify_eq. }
      destruct ending; [|done]. destruct Hh as [->| ->]; [|done]. by apply stalls_dying.
  - unfold arm_hard_kill in H1. destruct (due _ _); [|done]. injection H1 as <-.
    assert (Stalls (around (signal SgKill) (local (set_lo_hard_kill_at None) e))) by (by eapply (stalls_view e)).
    destruct Hk as [->| ->]; [|done]. by apply stalls_dying.
  - unfold arm_finish in H1. destruct (lo_finish (en_l e)); [done|]. destruct (ar_child (en_a e)); [|done]. injection H1 as <-.
    destruct (stalls_dying _ Hs) as [[A1 A2 A3 A4 A5] Hd]. split; cbn; try done.
  - unfold arm_finish in H1. destruct (lo_finish (en_l e)); [done|]. destruct (ar_child (en_a e)); [|done]. injection H1 as <-.
    destruct Hs as [A1 A2 A3 A4 A5]. by split.
  - unfold arm_drop in H1. cbn zeta in H1. destruct (_ && _); [|done]. injection H1 as <-. eapply (stalls_keep e); cbn; auto.
  - unfold arm_reserve in H1. cbn zeta in H1. destruct (lo_pending (en_l e)) as [ev|]; [|done].
    destruct (_ || _); [done|]. destruct (negb _); [|case_bool_decide; [|done]]; injection H1 as <-; eapply (stalls_keep e); cbn; auto.
  - unfold arm_closed in H1. destruct (_ && _); [|done]. injection H1 as <-. eapply (stalls_keep e); cbn; auto.
  - unfold arm_next in H1. cbn zeta in H1. destruct (lo_pending (en_l e)) as [ev|] eqn:Hpend; [done|].
    destruct (ar_lines (en_a e)) as [|line rest] eqn:Hl.
    { destruct (ar_eof _); [|done]. injection H1 as <-. eapply (stalls_keep e); cbn; auto. right. by destruct (lo_finish _). }
    assert (Hs1 : Stalls (around (take_line line rest) e)) by (by eapply (stalls_view e)).
    destruct (event_of line) as [ev|]; cbn in H1; [|injection H1 as <-; done].
    destruct (lo_drop_output _); [injection H1 as <-; by eapply (stalls_view e)|].
    destruct (lo_events_open _); [|injection H1 as <-; done]. injection H1 as <-. destruct Hs as [A1 A2 A3 A4 A5].
    destruct (lo_dying (en_l e)) eqn:Hd; split; cbn; rewrite ?Hd; try done. intros d [= <-]. lia.
  - unfold arm_closed in H1. destruct (_ && _); [|done]. injection H1 as <-. eapply (stalls_keep e); cbn; auto.
  - destruct Hs as [A1 A2 A3 A4 A5]. split; cbn; try done. intros d [= <-]. lia.
  - unfold arm_flush in H1. destruct (lo_terminal (en_l e)); [done|].
    destruct (negb _); [|case_bool_decide; [|done]]; injection H1 as <-; [eapply (stalls_keep e); cbn; auto|].
    destruct Hs as [A1 A2 A3 A4 A5]. split; cbn; try done. intros d [= <-]. lia.
  - unfold arm_give_up in H1. destruct (due _ _); [|done]. injection H1 as <-. eapply (stalls_keep e); cbn; auto.
  - destruct Hs as [A1 A2 A3 A4 A5]. by split.
Qed.
Lemma stalls_outside e a : outside_step (en_a e) a -> Stalls e -> Stalls {| en_a := a; en_l := en_l e |}.
Proof.
  intros (Hn & _)%outside_signals [A1 A2 A3 A4 A5]. split; cbn; try done.
  - intros d Hd. etrans; [by apply A1|]. lia.
  - intros d Hd. etrans; [by apply A2|]. lia.
Qed.
Lemma open_pending e : delivery_inv e -> lo_events_open (en_l e) = false -> lo_pending (en_l e) = None.
Proof.
  intros [_ (kept & lost & told & HD)] Ho. destruct (lo_pending (en_l e)) eqn:Hp; [|done].
  destruct (dl_pending _ _ _ _ HD) as (_ & _ & Ho'); [by rewrite Hp; eexists|congruence].
Qed.
Lemma stalls_reachable start e : engine_reachable cmd start e -> Stalls e /\ delivery_inv e.
Proof.
  intros (stdin & Hs). assert (Hi : Stalls (engine_initial cmd start stdin)) by (split; cbn; try done; by intros _ []).
  assert (Hd : delivery_inv (engine_initial cmd start stdin)) by (eapply (delivery_reachable cmd start); by exists stdin).
  revert Hi Hd. induction Hs as [|e1 e2 e3 H1 _ IH]; [done|]. intros Hi Hd.
  destruct H1 as [kit e1 e2 H1%turn_of|e1 a H1].
  - apply IH; [|by eapply delivery_turn]. eapply stalls_turn; [done|by apply open_pending|done].
  - apply IH; [by apply stalls_outside|by apply delivery_outside].
Qed.

(** C23: the pump ends.  Each of its turns leaves less ahead of it, whatever
    the group answers; and when the child was reaped and its pipes are closed, a
    pump that still waits stops waiting within the five seconds of a stall, also
    when nobody ever takes an event or drops a handle. *)
Theorem the_pump_ends start e :
  engine_reachable cmd start e ->
  (forall kit e', pump_step cmd kit e = Some e' -> (ahead e' < ahead e)%nat) /\
  (is_Some (ar_child (en_a e)) -> ar_eof (en_a e) = true -> lo_phase (en_l e) <> Returned ->
   exists now, ar_now (en_a e) <= now <= ar_now (en_a e) + DYING_EVENT_STALL /\
     forall kit, pump_step cmd kit (around (with_now now) e) <> None).
Proof.
  intros Hr. destruct (stalls_reachable _ _ Hr) as [Hst HD]. pose proof HD as [HE _].
  split; [by intros kit e' H1%turn_of; eapply ahead_turn|]. intros [r Hc] Heof Hph.
  assert (Hsel : forall arms arm e', select arms e' = None -> arm ∈ arms -> arm e' <> None -> False).
  { intros arms arm e' Hn Hin Ha. by apply Ha, (select_none _ _ Hn). }
  destruct (lo_phase (en_l e)) eqn:Hp; [| | | |done].
  - destruct (lo_pending (en_l e)) as [ev|] eqn:Hpend.
    + destruct (lo_finish (en_l e)) as [out|] eqn:Hf.
      * destruct (st_pending _ Hst) as [d Hd]; [apply (st_dying _ Hst); [done|by rewrite Hf; eexists]|by rewrite Hpend; eexists|].
        pose proof (st_drop _ Hst _ Hd). exists (N.max d (ar_now (en_a e))). split; [lia|]. intros kit. unfold pump_step. cbn. rewrite Hp.
        destruct (left_alone _); [done|]. intros Hn.
        assert (Hdy : lo_dying (en_l e) = true) by (apply (st_dying _ Hst); [done|by rewrite Hf; eexists]).
        assert (Hdo : lo_drop_output (en_l e) = false).
        { destruct HD as [_ (kept & lost & told & HD)]. by destruct (dl_pending _ _ _ _ HD) as (_ & ? & _); [rewrite Hpend; eexists|]. }
        eapply (Hsel _ arm_drop _ Hn); [do 3 right; by left|]. unfold arm_drop. cbn. rewrite Hdy, Hdo, Hpend, Hd. cbn.
        by rewrite bool_decide_true by lia.
      * exists (ar_now (en_a e)). split; [lia|]. intros kit. unfold pump_step. cbn. rewrite Hp. destruct (left_alone _); [done|]. intros Hn.
        eapply (Hsel _ (arm_finish Dying) _ Hn); [do 2 right; by left|]. unfold arm_finish. cbn. by rewrite Hf, Hc.
    + exists (ar_now (en_a e)). split; [lia|]. intros kit. unfold pump_step. cbn. rewrite Hp. destruct (left_alone _); [done|]. intros Hn.
      eapply (Hsel _ arm_next _ Hn); [do 6 right; by left|]. unfold arm_next. cbn. rewrite Hpend, Heof. by repeat case_match.
  - exists (ar_now (en_a e)). split; [lia|]. intros kit. unfold pump_step. cbn. rewrite Hp. destruct (left_alone _); [done|]. intros Hn.
    eapply (Hsel _ (arm_finish (local (set_lo_phase Cleaning))) _ Hn); [do 3 right; by left|]. unfold arm_finish. cbn.
    by rewrite (nd_phase _ HE Hp), Hc.
  - exists (ar_now (en_a e)). split; [lia|]. intros kit. unfold pump_step. cbn. rewrite Hp.
    destruct (nd_finish _ HE ltac:(by left)) as [out Ho]. by rewrite Ho.
  - destruct (st_flushing _ Hst Hp) as [d Hd]. pose proof (st_flush _ Hst _ Hd). exists (N.max d (ar_now (en_a e))). split; [lia|].
    intros kit. unfold pump_step. cbn. rewrite Hp. destruct (_ || _); [done|]. intros Hn.
    eapply (Hsel _ arm_give_up _ Hn); [do 4 right; by left|]. unfold arm_give_up. cbn. rewrite Hd. cbn. by rewrite bool_decide_true by lia.
Qed.
End Progress.

(** ** A concrete run

    A core prints a line and is asked to end; it does not within its grace
    period and is killed; its last words are the tail of its errors. *)
Definition demo_command : Command := Command_new "core".
Definition demo_kit : Kit := {| kt_signal := true; kt_kill_all := Ok tt |}.
Fixpoint turns (n : nat) (e : Engine) : Engine :=
  match n with
  | O => e
  | S n => match pump_step demo_command demo_kit e with Some e' => turns n e' | None => e end
  end.
Definition demo_printed : Engine :=
  turns 4 (around (fun a => set_ar_lines (ar_lines a ++ [LnStdout "up"]) a) (engine_initial demo_command 100 false)).
Definition demo_asked : Engine := turns 4 (around (fun a => set_ar_ctrl (ar_ctrl a ++ [GracefulKill 1]) a) demo_printed).
Definition demo_killed : Engine := turns 4 (around (fun a => with_now (ar_now a + duration_from_secs 5) a) demo_asked).
Definition demo_ended : Engine :=
  around (fun a => with_child true (ar_child a) (ar_handles a) a)
    (around (fun a => with_child (ar_eof a) (Some (Ok {| fi_code := None; fi_signal := Some 9%Z; fi_stderr := "bye" |})) (ar_handles a) a)
       demo_killed).
Definition demo_done : Engine := turns 20 demo_ended.

Lemma turns_reachable n e : engine_reachable demo_command 100 e -> engine_reachable demo_command 100 (turns n e).
Proof.
  revert e. induction n as [|n IH]; intros e He; [done|]. cbn [turns]. destruct (pump_step _ _ e) as [e'|] eqn:E; [|done]. apply IH.
  destruct He as (stdin & He). exists stdin. eapply rtc_r; [done|by eapply EsPump].
Qed.
Lemma outside_reachable f e :
  outside_step (en_a e) (f (en_a e)) -> engine_reachable demo_command 100 e -> engine_reachable demo_command 100 (around f e).
Proof. intros Hf (stdin & He). exists stdin. eapply rtc_r; [done|by apply EsOutside]. Qed.
Lemma demo_killed_reachable : engine_reachable demo_command 100 demo_killed.
Proof.
  apply turns_reachable, outside_reachable; [apply OsTick|].
  apply turns_reachable, outside_reachable; [apply OsRequest; [by vm_compute|apply Nat.ltb_lt; by vm_compute]|].
  apply turns_reachable, outside_reachable; [by apply OsPrint|]. by exists false.
Qed.
Lemma demo_ended_reachable : engine_reachable demo_command 100 demo_ended.
Proof.
  apply outside_reachable; [apply OsEof|]. apply outside_reachable; [apply OsEnds; by vm_compute|]. apply demo_killed_reachable.
Qed.
Lemma demo_events :
  ar_sent (en_a demo_done) = [EvStdout "up"; EvStderr "bye"; EvTerminated {| tp_code := None; tp_signal := Some 9%Z |}]
  /\ lo_phase (en_l demo_done) = Returned /\ ar_cleaned (en_a demo_done) = true.
Proof. by vm_compute. Qed.

Lemma events_are_what_was_printed_witness :
  exists kept lost told,
    ar_sent (en_a demo_done) = kept ++ told /\
    omap event_of (ar_read (en_a demo_done)) = kept ++ option_list (lo_pending (en_l demo_done)) ++ lost /\
    (lost <> [] -> lo_drop_output (en_l demo_done) = true \/ lo_events_open (en_l demo_done) = false) /\
    (told <> [] -> exists r, ar_child (en_a demo_done) = Some r /\ ar_cleaned (en_a demo_done) = true /\
       ar_terminated (en_a demo_done) = Some (watch_of (normalize_finish r)) /\
       told `prefix_of` terminal_events (normalize_finish r) (N.of_nat (length lost))) /\
    (forall l1 p l2, ar_sent (en_a demo_done) = l1 ++ EvTerminated p :: l2 ->
       l2 = [] /\ exists r, ar_child (en_a demo_done) = Some r /\ p = fo_payload (normalize_finish r)).
Proof. apply (events_are_what_was_printed demo_command 100 demo_done), turns_reachable, demo_ended_reachable. Defined.

Lemma kills_are_not_forgotten_witness : killed_since 100 demo_killed.
Proof.
  destruct (kills_are_not_forgotten demo_command 100 demo_killed demo_kit demo_killed_reachable) as (Hgrace & _).
  - by vm_compute.
  - by vm_compute.
  - apply Hgrace; [|by vm_compute]. vm_compute. right. left.
Defined.

Lemma the_pump_ends_witness :
  exists now, ar_now (en_a demo_ended) <= now <= ar_now (en_a demo_ended) + DYING_EVENT_STALL /\
     forall kit, pump_step demo_command kit (around (with_now now) demo_ended) <> None.
Proof.
  apply (the_pump_ends demo_command 100 demo_ended demo_ended_reachable).
  - by eexists.
  - by vm_compute.
  - by vm_compute.
Defined.
