(* ===== verification/Kind.v ===== *)
(** * Core kinds: launch profiles and the dry-run

    [kind.rs]: the command lines of a core, the directories it may touch, and
    the verdict on a configuration check. *)

From S2P Require Export Paths.
From S2P Require Import LogParser Supervisor.
Open Scope rust_scope.

(** Launch arguments of a kind; the [Result] has no error path. *)
Definition run_args (kind : CoreKind) (working_dir config_path : string) : result (list string) Error :=
  Ok match kind with
     | Mihomo | Meow => ["-m"; "-d"; working_dir; "-f"; config_path]
     | ClashRust | ChimeraClient => ["-d"; working_dir; "-c"; config_path]
     | ClashPremium => ["-d"; working_dir; "-f"; config_path]
     end.

Definition controller_args (kind : CoreKind) (host : Host) : list string :=
  match kind with
  | ClashRust | ChimeraClient =>
      match host with
      | NamedPipe path | UnixSocket path => ["--controller-ipc"; path]
      | Http _ => []
      end
  | _ => []
  end.

Definition check_args (working_dir config_path : string) : list string :=
  ["-t"; "-d"; working_dir; "-f"; config_path].

Definition SAFE_PATHS_SEPARATOR : string := ":".
Definition MIHOMO_SAFE_PATHS_ENV_NAME : string := "SAFE_PATHS".
Definition CLICOLOR_FORCE_ENV_NAME : string := "CLICOLOR_FORCE".
Definition mihomo_safe_paths (working_dir config_dir : string) : string :=
  str_join SAFE_PATHS_SEPARATOR [working_dir; config_dir].
Definition safe_paths_with_source (working config : string) (source : option string) : string :=
  match source with
  | Some source => mihomo_safe_paths working config +:+ SAFE_PATHS_SEPARATOR +:+ source
  | None => mihomo_safe_paths working config
  end.

Definition CHECK_CONFIG_TIMEOUT : Duration := duration_from_secs 30.

(** A command of [chimera-utils]: what the code sets of it. *)
Inductive PidFileKind := NoPidFile | LegacyPidFile (path : string) | EpochPid (path runtime_config : string) (epoch : N).
Record Command := {
  co_program : string;
  co_args : list string;
  co_env : list (string * string);
  co_current_dir : option string;
  co_timeout : option Duration;
  co_pid_file : PidFileKind;
}.

(** The output of a command that ran to its end. *)
Record Output := { ou_success : bool; ou_stdout : string; ou_stderr : string }.

Section Check.
Context `{LogFormat.Chrono} (debug : Duration -> string).

Definition check_command (spec : InstanceSpec) (config_dir : string) (timeout : Duration) (source : option string) : Command :=
  {| co_program := cs_binary_path (is_core spec);
     co_args := check_args (is_working_dir spec) (is_config_path spec);
     co_env := [(MIHOMO_SAFE_PATHS_ENV_NAME, safe_paths_with_source (is_working_dir spec) config_dir source);
                (CLICOLOR_FORCE_ENV_NAME, "0")];
     co_current_dir := None; co_timeout := Some timeout; co_pid_file := NoPidFile |}.

(** [run_check]; [run] is the operating system, [now] the clock at each line of
    the output. *)
Definition run_check (run : Command -> result Output ProcessError) (now : nat -> LogFormat.DateTime) (spec : InstanceSpec)
    (timeout : Duration) (source : option string) : outcome (result () Error) :=
  match parent (is_config_path spec) with
  | None => Return (Err (ConfigNotFound (is_config_path spec)))
  | Some config_dir =>
      match run (check_command spec config_dir timeout source) with
      | Err (PeTimeout after) => Return (Err (ConfigCheckFailed ("config check timed out after " +:+ debug after)))
      | Err other => Return (Err (ProcessErr (ProcessError_to_string debug other)))
      | Ok output =>
          if ou_success output then Return (Ok tt)
          else match summarize_output now (cs_kind (is_core spec)) (ou_stdout output) (ou_stderr output) with
               | Return text => Return (Err (ConfigCheckFailed text))
               | Panicked message => Panicked message
               end
      end
  end.
Definition check_config (run : Command -> result Output ProcessError) (now : nat -> LogFormat.DateTime) (spec : InstanceSpec)
    : outcome (result () Error) := run_check run now spec CHECK_CONFIG_TIMEOUT None.
Definition check_config_with_source (run : Command -> result Output ProcessError) (now : nat -> LogFormat.DateTime)
    (spec : InstanceSpec) (source : string) : outcome (result () Error) :=
  run_check run now spec CHECK_CONFIG_TIMEOUT (Some source).

(** A configuration is accepted exactly behind a run that succeeded. *)
Lemma run_check_accepts run now spec timeout source config_dir output :
  parent (is_config_path spec) = Some config_dir -> run (check_command spec config_dir timeout source) = Ok output ->
  run_check run now spec timeout source = Return (Ok tt) <-> ou_success output = true.
Proof.
  intros Hp Hr. unfold run_check. rewrite Hp, Hr.
  destruct (ou_success output); [done|]. by destruct (summarize_output _ _ _ _).
Qed.

End Check.
