(* ===== verification/Bridge.v ===== *)
(** * The service's adapter ([chimera_service/src/server/manager_bridge.rs])

    What the service adds to the manager and its control plane: where binaries
    are found, how a request becomes a command, the core type it echoes to its
    clients, the legacy operations, and a shutdown that does not give up while
    the host's DNS may still be overridden. *)

From S2P Require Import Prelude Text Types Control Health Supervisor Wire.
Open Scope rust_scope.

Definition MAX_CONCURRENT_CHECKS : nat := 2.
Definition MAX_OPERATION_WAIT_MS : N := 90000.
Definition CORE_SHUTDOWN_TIMEOUT : Duration := duration_from_secs 90.
Definition DNS_SAFE_SHUTDOWN_RETRY_INITIAL : Duration := duration_from_secs 1.
Definition DNS_SAFE_SHUTDOWN_RETRY_MAX : Duration := duration_from_secs 30.
Definition MSG_CORE_ALREADY_RUNNING : string := "core is already running".
Definition MSG_CORE_ALREADY_STOPPED : string := "core is already stopped".
Definition MSG_SHUTTING_DOWN : string := "service is shutting down".

(** [InstanceOptions::default] ([spec.rs]). *)
Definition InstanceOptions_default : InstanceOptions :=
  {| io_local_ipc := None; io_startup_timeout := duration_from_secs 30; io_health := HealthPolicy_default;
     io_restart_policy := OnFailure 5;
     io_backoff := with_jitter (exponential (duration_from_secs 1) (duration_from_secs 30)) |}.

(** ** From a request to a command *)

(** The directories the service knows, as the bytes of their paths
    ([server/consts.rs]); what this file reads of them. *)
Record RuntimeInfos := { rt_nyanpasu_data_dir : string; rt_nyanpasu_app_dir : string }.

Section Requests.
(** Which paths exist, the name of a core's binary, and the lossy text of a
    path that is not UTF-8. *)
Context (path_exists : string -> bool) (get_executable_name : CoreType -> string) (display : string -> string).

Definition find_binary_path (infos : RuntimeInfos) (core_type : CoreType) : result string string :=
  let in_data := path_join (rt_nyanpasu_data_dir infos) (get_executable_name core_type) in
  let in_app := path_join (rt_nyanpasu_app_dir infos) (get_executable_name core_type) in
  if path_exists in_data then Ok in_data
  else if path_exists in_app then Ok in_app
  else Err (get_executable_name core_type +:+ " not found").

Definition instance_spec (infos : RuntimeInfos) (core_type : CoreType) (config_path : string) : result InstanceSpec OpError :=
  let? working_dir := if utf8_valid (rt_nyanpasu_data_dir infos) then Ok (rt_nyanpasu_data_dir infos)
                      else Err (plain ("nyanpasu data dir is not UTF-8: " +:+ display (rt_nyanpasu_data_dir infos))) in
  let? path := map_err (with_kind KBinaryNotFound) (find_binary_path infos core_type) in
  let? binary_path := if utf8_valid path then Ok path
                      else Err (plain ("core binary path is not UTF-8: " +:+ display path)) in
  let? kind := map_err plain (core_kind core_type) in
  Ok {| is_core := {| cs_kind := kind; cs_binary_path := binary_path; cs_version := None; cs_features := [] |};
        is_config_path := config_path; is_working_dir := working_dir; is_pid_file := None;
        is_options := InstanceOptions_default |}.

Definition local_ipc_of (settings : LocalIpcSettingsInfo) : LocalIpcSettings :=
  {| li_policy := match ls_policy settings with WForce => Force | WPrefer => Prefer | WDisable => Disable end;
     li_keep_http_controller := ls_keep_http_controller settings |}.
Definition with_local_ipc (settings : option LocalIpcSettings) (o : InstanceOptions) : InstanceOptions :=
  {| io_local_ipc := settings; io_startup_timeout := io_startup_timeout o; io_health := io_health o;
     io_restart_policy := io_restart_policy o; io_backoff := io_backoff o |}.

(** The command of a request, and the core type to echo for it. *)
Definition wire_command (infos : RuntimeInfos) (command : CoreCommandInfo) : result (CoreCommand * option CoreType) OpError :=
  match command with
  | WReconcile local_ipc core_type config expected_digest expected_applied =>
      let? spec := instance_spec infos core_type "" in
      let? expected := match expected_applied with
                       | Some id => map_ok Some (map_revision_id id)
                       | None => Ok None
                       end in
      Ok (Reconcile
            {| rr_core := is_core spec;
               rr_config := {| ci_bytes := bytes_of_string config; ci_expected_digest := expected_digest |};
               rr_options := with_local_ipc (local_ipc_of <$> local_ipc) (is_options spec);
               rr_expected_applied := expected |},
          Some core_type)
  | WStop => Ok (Stop, None)
  | WRecover => Ok (Recover, None)
  end.

(** What [CoreControl::submit] answers with: a handle, by the state it shows,
    its sequence number, and whether it was newly admitted. *)
Record Handle := { ha_state : OperationState; ha_sequence : N; ha_newly_admitted : bool }.

Definition submit_v2 (infos : RuntimeInfos) (request : CoreSubmitReq)
    (submit : CoreCommandEnvelope -> result Handle CoreError) : result (OperationInfo * option (N * CoreType)) OpError :=
  let? id := ok_or (OperationId_from_str (sr_operation_id request))
                   (plain ("malformed operation id: " +:+ sr_operation_id request)) in
  let? wired := wire_command infos (sr_command request) in
  let? handle := map_err op_error_from_control (submit {| env_operation_id := id; env_command := wired.1 |}) in
  Ok (map_operation id (ha_state handle),
      match wired.2 with
      | Some core_type => if ha_newly_admitted handle then Some (ha_sequence handle, core_type) else None
      | None => None
      end).

Definition operation_v2 (request : CoreOperationReq) (operation : OperationId -> option OperationState)
    (wait_operation : OperationId -> Duration -> option OperationState) : result OperationInfo OpError :=
  let? id := ok_or (OperationId_from_str (or_operation_id request))
                   (plain ("malformed operation id: " +:+ or_operation_id request)) in
  let state := match or_wait_ms request with
               | Some wait_ms => wait_operation id (duration_from_millis (N.min wait_ms MAX_OPERATION_WAIT_MS))
               | None => operation id
               end in
  ok_or (map_operation id <$> state)
    (plain ("unknown operation " +:+ OperationId_fmt id
              +:+ ": the registry entry was evicted or never existed; re-read /v2/core/status and rely on the revision CAS")).

End Requests.

(** ** The adapter's own state *)

(** [requested_core], [echo_applied], the closing latch and the free slots of
    [check_slots]. *)
Record Service := {
  sv_requested_core : option CoreType;
  sv_echo_applied : option N;
  sv_closing : bool;
  sv_check_slots : nat;
}.
Definition service_initial : Service :=
  {| sv_requested_core := None; sv_echo_applied := None; sv_closing := false; sv_check_slots := MAX_CONCURRENT_CHECKS |}.

Definition publish_requested_core (committed : option CoreType) (s : Service) : Service :=
  {| sv_requested_core := match committed with Some core_type => Some core_type | None => sv_requested_core s end;
     sv_echo_applied := sv_echo_applied s; sv_closing := sv_closing s; sv_check_slots := sv_check_slots s |}.
Definition set_echo_applied (sequence : N) (s : Service) : Service :=
  {| sv_requested_core := sv_requested_core s; sv_echo_applied := Some sequence; sv_closing := sv_closing s;
     sv_check_slots := sv_check_slots s |}.
Definition set_closing (s : Service) : Service :=
  {| sv_requested_core := sv_requested_core s; sv_echo_applied := sv_echo_applied s; sv_closing := true;
     sv_check_slots := sv_check_slots s |}.
Definition set_check_slots (slots : nat) (s : Service) : Service :=
  {| sv_requested_core := sv_requested_core s; sv_echo_applied := sv_echo_applied s; sv_closing := sv_closing s;
     sv_check_slots := slots |}.

(** What the task of [watch_reconcile_echo] does with the terminal state of its
    operation. *)
Definition reconciled (state : OperationState) : bool :=
  match state with Succeeded (Reconciled _) => true | _ => false end.
Definition watch_reconcile_echo (sequence : N) (core_type : CoreType) (state : OperationState) (s : Service) : Service :=
  let commits := echo_commits state in
  if negb commits && negb (reconciled state) then s
  else if match sv_echo_applied s with Some latest => bool_decide (sequence <= latest) | None => false end then s
  else publish_requested_core (if commits then Some core_type else None) (set_echo_applied sequence s).

(** ** The version-1 operations

    Their answers are the texts of [anyhow] errors; what they ask the manager
    is an argument. *)

(** [canonical] is what resolving the path and looking at the file answer. *)
Definition start (canonical : result string string) (status : CoreState) (spec : string -> result InstanceSpec OpError)
    (core_type : CoreType) (manager_start : InstanceSpec -> result () Error) (s : Service) : result () string * Service :=
  if sv_closing s then (Err MSG_SHUTTING_DOWN, s)
  else match canonical with
  | Err text => (Err text, s)
  | Ok config_path =>
      match status with
      | CStopped _ =>
          match spec config_path with
          | Err error => (Err (op_message error), s)
          | Ok spec =>
              match manager_start spec with
              | Err error => (Err (Error_to_string error), s)
              | Ok _ => (Ok tt, publish_requested_core (Some core_type) s)
              end
          end
      | _ => (Err MSG_CORE_ALREADY_RUNNING, s)
      end
  end.
Definition stop (manager_stop : result () Error) (s : Service) : result () string :=
  if sv_closing s then Err MSG_SHUTTING_DOWN
  else match manager_stop with
       | Ok _ => Ok tt
       | Err NotStarted => Err MSG_CORE_ALREADY_STOPPED
       | Err error => Err (Error_to_string error)
       end.
Definition restart (manager_restart : result SwitchOutcome Error) (s : Service) : result () string :=
  if sv_closing s then Err MSG_SHUTTING_DOWN
  else match manager_restart with
       | Ok _ => Ok tt
       | Err NotStarted => Err MSG_CORE_NOT_STARTED
       | Err error => Err (Error_to_string error)
       end.

(** A check up to its slot, and the end of one. *)
Definition check_begin (s : Service) : result Service OpError :=
  if sv_closing s then Err (plain MSG_SHUTTING_DOWN)
  else match sv_check_slots s with
       | O => Err (plain ("at most " +:+ show_N (N.of_nat MAX_CONCURRENT_CHECKS) +:+ " config checks may run at once; retry"))
       | S slots => Ok (set_check_slots slots s)
       end.
Definition check_end (s : Service) : Service := set_check_slots (S (sv_check_slots s)) s.
(** [canonical_config_path]: what resolving the path answers, or whether its
    failure was [NotFound] and its text. *)
Definition canonical_config_path (config_file : string) (resolved : result string (bool * string)) (display : string -> string)
    : result string OpError :=
  match resolved with
  | Err (missing, text) =>
      let message := "failed to resolve config path " +:+ display config_file +:+ ": " +:+ text in
      Err (if missing : bool then with_kind KConfigNotFound message else plain message)
  | Ok path => if utf8_valid path then Ok path else Err (plain ("config path is not UTF-8: " +:+ display path))
  end.
Definition check_body (path : result string OpError) (spec : string -> result InstanceSpec OpError)
    (manager_check : InstanceSpec -> result () Error) : result () OpError :=
  let? path := path in
  let? spec := spec path in
  map_err OpError_from (manager_check spec).

(** ** Shutdown *)

(** [retry_until_success]: its sleeps, and whether it returned, over the
    answers of the operation. *)
Fixpoint retry_until_success {E} (retry_delay : Duration) (answers : list (result () E)) : list Duration * bool :=
  match answers with
  | [] => ([], false)
  | Ok _ :: _ => ([], true)
  | Err _ :: answers =>
      let '(sleeps, returned) :=
        retry_until_success (N.min (duration_saturating_mul retry_delay 2) DNS_SAFE_SHUTDOWN_RETRY_MAX) answers in
      (retry_delay :: sleeps, returned)
  end.

(** One turn of the loop around [CoreControl::shutdown]: it succeeded; it
    failed, with or without an executor left; or it took too long, and the
    executor ended behind it or not yet. *)
Inductive ControlAnswer := CaOk | CaError (executor_is_closed : bool) | CaTimeout (executor_exited : bool).
(** The sleeps, and how the loop ended: returned, left, or not yet. *)
Inductive LoopEnd := LeReturned | LeBroken | LeWaiting.
Fixpoint shutdown_loop (answers : list ControlAnswer) : list Duration * LoopEnd :=
  match answers with
  | [] | CaTimeout false :: _ => ([], LeWaiting)
  | CaOk :: _ => ([], LeReturned)
  | CaError true :: _ | CaTimeout true :: _ => ([], LeBroken)
  | CaError false :: answers =>
      let '(sleeps, e) := shutdown_loop answers in (DNS_SAFE_SHUTDOWN_RETRY_INITIAL :: sleeps, e)
  end.
Definition shutdown {E} (control : list ControlAnswer) (manager : list (result () E)) (s : Service) : Service * list Duration * bool :=
  if sv_closing s then (s, [], true)
  else
    let '(sleeps, e) := shutdown_loop control in
    match e with
    | LeReturned => (set_closing s, sleeps, true)
    | LeWaiting => (set_closing s, sleeps, false)
    | LeBroken =>
        let '(retries, returned) := retry_until_success DNS_SAFE_SHUTDOWN_RETRY_INITIAL manager in
        (set_closing s, sleeps ++ retries, returned)
    end.

(** ** The echo follows the youngest reconcile *)

(** A watched reconcile: its sequence number, the core type it asked for, and
    the state it ended in.  The tasks that watch run in any order. *)
Record Watch := { wt_sequence : N; wt_core_type : CoreType; wt_state : OperationState }.
Definition observe_all (ws : list Watch) (s : Service) : Service :=
  fold_left (fun s w => watch_reconcile_echo (wt_sequence w) (wt_core_type w) (wt_state w) s) ws s.

Lemma watch_cases sequence core_type state s :
  let s' := watch_reconcile_echo sequence core_type state s in
  s' = s /\ (reconciled state = true -> exists latest, sv_echo_applied s = Some latest /\ sequence <= latest)
  \/ reconciled state = true /\ sv_echo_applied s' = Some sequence
     /\ (forall latest, sv_echo_applied s = Some latest -> latest < sequence)
     /\ sv_requested_core s' = (if echo_commits state then Some core_type else sv_requested_core s).
Proof.
  unfold watch_reconcile_echo. assert (Hc : echo_commits state = true -> reconciled state = true) by (by destruct state as [| |[]|]).
  destruct (echo_commits state) eqn:E1, (reconciled state) eqn:E2; cbn; try (left; split; done).
  - destruct (sv_echo_applied s) as [latest|] eqn:E; [case_bool_decide; [left; eauto|]|];
      (right; split_and!; try done; intros ? [= <-]; lia).
  - by specialize (Hc eq_refl).
  - destruct (sv_echo_applied s) as [latest|] eqn:E; [case_bool_decide; [left; eauto|]|];
      (right; split_and!; try done; intros ? [= <-]; lia).
Qed.

(** Behind the echo of a reconcile no older one changes it. *)
Lemma older_change_nothing sequence ws s :
  (forall w, w ∈ ws -> reconciled (wt_state w) = true -> wt_sequence w <= sequence) ->
  sv_echo_applied s = Some sequence -> sv_requested_core (observe_all ws s) = sv_requested_core s.
Proof.
  revert s. induction ws as [|y ws IH]; intros s Hmax Ha; [done|]. cbn [observe_all fold_left].
  pose proof (watch_cases (wt_sequence y) (wt_core_type y) (wt_state y) s) as [[-> _]|(Hy & _ & Hlt & _)].
  - apply IH; [|done]. intros w Hw. apply Hmax. by right.
  - specialize (Hlt _ Ha). specialize (Hmax y ltac:(left) Hy). lia.
Qed.

(** The echo follows the youngest reconcile.  However the tasks that
    watch the reconciles of a service are interleaved, once the youngest one
    that reached the end of its transaction put its core type in place, and it
    was observed, the type the clients are told is that one. *)
Theorem echo_follows_the_youngest ws s w :
  NoDup (wt_sequence <$> ws) -> w ∈ ws -> echo_commits (wt_state w) = true ->
  (forall w', w' ∈ ws -> reconciled (wt_state w') = true -> wt_sequence w' <= wt_sequence w) ->
  (forall latest, sv_echo_applied s = Some latest -> latest < wt_sequence w) ->
  sv_requested_core (observe_all ws s) = Some (wt_core_type w).
Proof.
  intros Hn Hw Hc. revert s Hn Hw. induction ws as [|x ws IH]; intros s Hn Hw Hmax Hs; [by apply elem_of_nil in Hw|].
  cbn in Hn. apply NoDup_cons in Hn as [Hx Hn]. cbn [observe_all fold_left].
  pose proof (watch_cases (wt_sequence x) (wt_core_type x) (wt_state x) s) as Hcase. cbn zeta in Hcase.
  set (s1 := watch_reconcile_echo _ _ _ s) in *. change (fold_left _ ws s1) with (observe_all ws s1).
  apply elem_of_cons in Hw as [<-|Hw].
  - assert (Hrec : reconciled (wt_state w) = true) by (by destruct (wt_state w) as [| |[]|]).
    destruct Hcase as [[_ H]|(_ & Ha & _ & Hr)].
    { destruct (H Hrec) as (latest & He & Hle). specialize (Hs latest He). lia. }
    rewrite Hc in Hr. clear IH Hs. clearbody s1.
    rewrite (older_change_nothing (wt_sequence w)); [done| |done]. intros w' Hw'. apply Hmax. by right.
  - apply IH; [done|done|intros w' Hw'; apply Hmax; by right|]. intros latest Hl.
    destruct Hcase as [[-> _]|(Hrec & Ha & _)]; [by apply Hs|]. rewrite Ha in Hl. injection Hl as <-.
    pose proof (Hmax x ltac:(left) Hrec). assert (wt_sequence x <> wt_sequence w); [|lia].
    intros He. apply Hx. rewrite He. by apply list_elem_of_fmap_2.
Qed.

(** ** Checks and shutdown *)

(** The slots that are taken and those that are free add up. *)
Inductive check_step : Service * nat -> Service * nat -> Prop :=
| check_step_begin s s' running : check_begin s = Ok s' -> check_step (s, running) (s', S running)
| check_step_end s running : check_step (s, S running) (check_end s, running)
| check_step_close s running : check_step (s, running) (set_closing s, running)
| check_step_echo s running sequence core_type state :
    check_step (s, running) (watch_reconcile_echo sequence core_type state s, running)
| check_step_publish s running committed : check_step (s, running) (publish_requested_core committed s, running).

Lemma checks_are_bounded s running :
  rtc check_step (service_initial, 0%nat) (s, running) -> (running + sv_check_slots s = MAX_CONCURRENT_CHECKS)%nat.
Proof.
  intros Hr. remember (service_initial, 0%nat) as from eqn:Hf. remember (s, running) as to eqn:Ht.
  assert (Hfrom : (from.2 + sv_check_slots from.1 = MAX_CONCURRENT_CHECKS)%nat) by (by subst).
  clear Hf. revert s running Ht. induction Hr as [x|x y z Hs _ IH]; intros s running ->; [done|]. apply IH; [|done].
  destruct Hs as [s0 s1 n Hb|s0 n|s0 n|s0 n sequence core_type state|s0 n committed]; cbn in *; try lia.
  - unfold check_begin in Hb. destruct (sv_closing s0); [done|]. destruct (sv_check_slots s0) eqn:E; [done|]. injection Hb as <-. cbn. lia.
  - assert (sv_check_slots (watch_reconcile_echo sequence core_type state s0) = sv_check_slots s0) as ->; [|done].
    unfold watch_reconcile_echo. by repeat case_match.
Qed.

Lemma retry_sleeps {E} delay (answers : list (result () E)) :
  DNS_SAFE_SHUTDOWN_RETRY_INITIAL <= delay <= DNS_SAFE_SHUTDOWN_RETRY_MAX ->
  let '(sleeps, returned) := retry_until_success delay answers in
  Forall (fun d => DNS_SAFE_SHUTDOWN_RETRY_INITIAL <= d <= DNS_SAFE_SHUTDOWN_RETRY_MAX) sleeps
  /\ (returned = true <-> Ok tt ∈ answers).
Proof.
  revert delay. induction answers as [|[[]|e] answers IH]; intros delay Hd; cbn.
  - split; [constructor|]. split; [done|]. intros H. by apply elem_of_nil in H.
  - split; [constructor|]. split; [intros _; left|done].
  - set (next := N.min _ _). assert (Hnext : DNS_SAFE_SHUTDOWN_RETRY_INITIAL <= next <= DNS_SAFE_SHUTDOWN_RETRY_MAX).
    { unfold next, duration_saturating_mul, duration_max, DNS_SAFE_SHUTDOWN_RETRY_INITIAL, DNS_SAFE_SHUTDOWN_RETRY_MAX, duration_from_secs, u64_modulus in *.
      lia. }
    specialize (IH next Hnext). destruct (retry_until_success next answers) as [sleeps returned]. destruct IH as [IH1 IH2].
    split; [by constructor|]. rewrite IH2, elem_of_cons. split; [by right|]. by intros [|].
Qed.

(** The service goes down only behind a confirmed shutdown.  A first
    call of [shutdown] returns only when the control plane answered that the
    manager was shut down, or the manager itself did; between two attempts it
    sleeps no less than a second and no more than half a minute; and it leaves
    the latch that refuses every later operation. *)
Theorem shutdown_is_confirmed {E} (control : list ControlAnswer) (manager : list (result () E)) (s : Service) :
  sv_closing s = false ->
  let '(s', sleeps, returned) := shutdown control manager s in
  (returned = true -> CaOk ∈ control \/ Ok tt ∈ manager)
  /\ Forall (fun d => DNS_SAFE_SHUTDOWN_RETRY_INITIAL <= d <= DNS_SAFE_SHUTDOWN_RETRY_MAX) sleeps
  /\ sv_closing s' = true
  /\ (forall canonical status spec core_type manager_start,
       start canonical status spec core_type manager_start s' = (Err MSG_SHUTTING_DOWN, s'))
  /\ is_ok (check_begin s') = false.
Proof.
  intros Hs. unfold shutdown. rewrite Hs.
  assert (Hloop : let '(sleeps, e) := shutdown_loop control in
    Forall (fun d => DNS_SAFE_SHUTDOWN_RETRY_INITIAL <= d <= DNS_SAFE_SHUTDOWN_RETRY_MAX) sleeps /\ (e = LeReturned -> CaOk ∈ control)).
  { induction control as [|[|[]|[]] control IH]; cbn; try (split; [constructor|done]); [split; [constructor|intros _; left]|].
    destruct (shutdown_loop control) as [sleeps e]. destruct IH as [IH1 IH2]. split; [constructor; [by vm_compute|done]|].
    intros He. right. by apply IH2. }
  destruct (shutdown_loop control) as [sleeps e]. destruct Hloop as [Hl1 Hl2]. destruct e.
  - split; [intros _; left; by apply Hl2|done].
  - pose proof (retry_sleeps DNS_SAFE_SHUTDOWN_RETRY_INITIAL manager ltac:(by vm_compute)) as Hr.
    destruct (retry_until_success _ manager) as [retries returned]. destruct Hr as [Hr1 Hr2].
    split; [intros Hret; right; by apply Hr2|]. split; [by apply Forall_app|done].
  - done.
Qed.

(** ** Submitting *)

(** A submission is what was asked for.  An accepted submission carried
    the identifier the client sent, in the only text it has, and the answer
    names it; a reconcile carried the bytes and the digest of the request, the
    kind of its core with the binary that was found for it, the revision token
    read back, and no path of the client; and only a newly admitted reconcile
    is watched for its core type. *)
Theorem submission_is_what_was_asked (path_exists : string -> bool) (get_executable_name : CoreType -> string)
    (display : string -> string) infos request submit info watched :
  submit_v2 path_exists get_executable_name display infos request submit = Ok (info, watched) ->
  exists envelope handle,
    submit envelope = Ok handle
    /\ OperationId_fmt (env_operation_id envelope) = sr_operation_id request /\ oi_id info = sr_operation_id request
    /\ match sr_command request with
       | WStop => env_command envelope = Stop /\ watched = None
       | WRecover => env_command envelope = Recover /\ watched = None
       | WReconcile local_ipc core_type config expected_digest expected_applied =>
           watched = (if ha_newly_admitted handle then Some (ha_sequence handle, core_type) else None)
           /\ exists rr, env_command envelope = Reconcile rr
           /\ ci_bytes (rr_config rr) = bytes_of_string config /\ ci_expected_digest (rr_config rr) = expected_digest
           /\ core_kind core_type = Ok (cs_kind (rr_core rr)) /\ path_exists (cs_binary_path (rr_core rr)) = true
           /\ io_local_ipc (rr_options rr) = local_ipc_of <$> local_ipc
           /\ match expected_applied, rr_expected_applied rr with
              | Some token, Some id => map_revision_id token = Ok id
              | None, None => True
              | _, _ => False
              end
       end.
Proof.
  unfold submit_v2. destruct (OperationId_from_str _) as [id|] eqn:Eid; [|done]. cbn.
  destruct (wire_command _ _ _ _ _) as [[command echoed]|] eqn:Ec; [|done]. cbn.
  destruct (submit _) as [handle|] eqn:Eh; [|done]. cbn. intros [= <- <-].
  apply operation_id_canonical in Eid as [Eid _]. eexists _, handle. split; [exact Eh|]. cbn. split; [done|].
  split; [unfold map_operation; by destruct (ha_state handle)|].
  destruct (sr_command request) as [local_ipc core_type config expected_digest expected_applied| |]; cbn in Ec; [|by injection Ec as <- <-..].
  unfold instance_spec in Ec. destruct (utf8_valid (rt_nyanpasu_data_dir infos)); [|done]. cbn in Ec.
  destruct (find_binary_path _ _ _ _) as [path|] eqn:Ep; [|done]. cbn in Ec. destruct (utf8_valid path); [|done]. cbn in Ec.
  destruct (core_kind core_type) as [kind|] eqn:Ek; [|done]. cbn in Ec.
  assert (Hpath : path_exists path = true).
  { unfold find_binary_path in Ep. destruct (path_exists (path_join (rt_nyanpasu_data_dir infos) _)) eqn:E1; [by injection Ep as <-|].
    destruct (path_exists (path_join (rt_nyanpasu_app_dir infos) _)) eqn:E2; [by injection Ep as <-|done]. }
  destruct expected_applied as [token|]; cbn in Ec.
  - destruct (map_revision_id token) as [rid|] eqn:Et; [|done]. cbn in Ec. injection Ec as <- <-. split; [done|].
    eexists. split; [done|]. cbn. by split_and!.
  - injection Ec as <- <-. split; [done|]. eexists. split; [done|]. cbn. by split_and!.
Qed.

(** ** On concrete requests *)

Definition some_revision : ConfigRevision :=
  {| cr_epoch := 3%positive; cr_generation := 7; cr_source_hash := "s"; cr_effective_hash := "e"; cr_runtime_path := "/run/config-3.yaml" |}.
Definition watch (sequence : N) (core_type : CoreType) (outcome : ApplyOutcome) : Watch :=
  {| wt_sequence := sequence; wt_core_type := core_type; wt_state := Succeeded (Reconciled outcome) |}.
Definition first_watch : Watch := watch 4 (TClash TMihomo) (Started some_revision).
Definition last_watch : Watch := watch 6 (TClash TClashRust) (ApplyDurabilityUncertain (Switched some_revision) "fsync").

Lemma echo_follows_the_youngest_witness :
  sv_requested_core (observe_all [last_watch; first_watch; watch 5 (TClash TMihomo) (RolledBack some_revision "no")] service_initial)
    = Some (TClash TClashRust).
Proof.
  apply (echo_follows_the_youngest _ _ last_watch).
  - cbn. apply NoDup_ListNoDup. repeat constructor; cbn; intuition lia.
  - left.
  - by vm_compute.
  - intros w' Hw _. repeat (apply elem_of_cons in Hw as [->|Hw]; [by vm_compute|]). by apply elem_of_nil in Hw.
  - done.
Defined.

(** A rollback that is observed before an older reconcile that put its type in
    place hides it: the runtime runs the older one, and the clients are told
    what they were told before. *)
Lemma rollback_hides_an_older_commit :
  let older := watch 4 (TClash TMihomo) (Started some_revision) in
  let younger := watch 5 (TClash TClashRust) (RolledBack some_revision "no") in
  sv_requested_core (observe_all [older; younger] service_initial) = Some (TClash TMihomo)
  /\ sv_requested_core (observe_all [younger; older] service_initial) = None.
Proof. by vm_compute. Qed.

(** The echo of a legacy start is not ordered with the reconciles: it can be
    published behind the echo of a reconcile that ran after it. *)
Lemma legacy_start_overtakes_a_reconcile :
  let s := observe_all [first_watch] service_initial in
  let start_ := start (Ok "/etc/c.yaml") (CStopped None) (fun path => Ok
      {| is_core := {| cs_kind := ClashRust; cs_binary_path := "/bin/core"; cs_version := None; cs_features := [] |};
         is_config_path := path; is_working_dir := "/data"; is_pid_file := None; is_options := InstanceOptions_default |})
    (TClash TClashRust) (fun _ => Ok tt) in
  sv_requested_core (start_ s).2 = Some (TClash TClashRust) /\ sv_echo_applied (start_ s).2 = Some 4.
Proof. by vm_compute. Qed.

Lemma shutdown_is_confirmed_witness :
  let '(s', sleeps, returned) := shutdown [CaError false; CaTimeout true] [Err tt; Ok tt] service_initial in
  (returned = true -> CaOk ∈ [CaError false; CaTimeout true] \/ Ok tt ∈ [Err tt; Ok (E := ()) tt]) /\ returned = true /\ length sleeps = 2%nat.
Proof.
  pose proof (shutdown_is_confirmed [CaError false; CaTimeout true] [Err tt; Ok tt] service_initial eq_refl) as H.
  destruct (shutdown _ _ _) as [[s' sleeps] returned] eqn:E. destruct H as [H _]. vm_compute in E. injection E as <- <- <-. done.
Defined.

Definition some_request : CoreSubmitReq :=
  {| sr_operation_id := "0011223344556677-8899aabb-ccddeeff";
     sr_command := WReconcile None (TClash TMihomoAlpha) "mode: rule" None (Some {| ii_epoch := 3; ii_generation := 7; ii_effective_hash := "e" |}) |}.
Definition some_name (core_type : CoreType) : string := match core_type with TClash TMihomoAlpha => "mihomo-alpha" | _ => "other" end.
Definition some_infos : RuntimeInfos := {| rt_nyanpasu_data_dir := "/data"; rt_nyanpasu_app_dir := "/app" |}.
Definition some_submit (envelope : CoreCommandEnvelope) : result Handle CoreError :=
  Ok {| ha_state := Queued; ha_sequence := 2; ha_newly_admitted := true |}.
Definition some_exists (path : string) : bool := bool_decide (path = "/app/mihomo-alpha").

Lemma submission_is_what_was_asked_witness :
  exists info envelope handle,
    submit_v2 some_exists some_name (fun path => path) some_infos some_request some_submit = Ok (info, Some (2, TClash TMihomoAlpha))
    /\ some_submit envelope = Ok handle /\ oi_id info = "0011223344556677-8899aabb-ccddeeff".
Proof.
  destruct (submit_v2 some_exists some_name (fun path => path) some_infos some_request some_submit) as [[info watched]|] eqn:E;
    [|by vm_compute in E].
  destruct (submission_is_what_was_asked some_exists some_name (fun path => path) some_infos some_request some_submit info watched E)
    as (envelope & handle & H1 & _ & H3 & _).
  exists info, envelope, handle. split; [|by split].
  enough (watched = Some (2, TClash TMihomoAlpha)) as -> by done. vm_compute in E. by injection E as _ <-.
Defined.
