(* ===== verification/Monitor.v ===== *)
(** * The monitor of one core process

    [instance.rs]: the task that turns the events of a supervisor and the
    answers of health probes into the published status of an instance, with the
    probe driver of [health/driver.rs].  The [select!] of the loop is a program
    counter over its arms, so anything may happen between the look at one arm
    and the look at the next; the callbacks of the supervisor, the driver and
    the caller of [stop_and_confirm_dead] run between any two steps. *)

From S2P Require Export Supervisor LogParser.
Open Scope rust_scope.

(** ** Data *)

Definition LOG_TAIL_FRAMES : nat := 32.

Inductive ProbePhase := Readiness | Liveness | Reconcile.
#[export] Instance ProbePhase_eq_dec : EqDecision ProbePhase.
Proof. solve_decision. Defined.

Record ProbeObservation := {
  ob_run_id : N;
  ob_pid : N;
  ob_phase : ProbePhase;
  ob_completed_at : Instant;
  ob_completed_at_ms : Z;
  ob_result : ProbeResult;
}.
Definition is_healthy (r : ProbeResult) : bool := match r with ProbeHealthy => true | ProbeUnhealthy _ => false end.

(** [ProbeDriver]: its task and the commands on their way to it. *)
Inductive DriverCommand := UseLiveness | DoReconcile (request : N).
Record ProbeDriver := {
  dr_run_id : N;
  dr_pid : N;
  dr_periodic : option ProbePhase;
  dr_next_probe : Instant;
  dr_commands : list DriverCommand;
}.

Record RunState := {
  rn_run_id : N;
  rn_pid : N;
  rn_ack_attempted : bool;
  rn_ready : bool;
  rn_tracker : HealthTracker;
}.

(** [native_store::cache_failure]. *)
Definition cache_failure (kind : CoreKind) (message : string) : bool :=
  match kind with
  | ClashRust | ChimeraClient =>
      existsb (fun prefix => str_contains prefix message)
        ["failed to read cache file:"; "failed to parse cache file:"; "failed to write cache file:";
         "failed to serialize cache file:"]
  | Meow => str_contains "selector store:" message && (str_contains "failed" message || str_contains "malformed" message)
  | _ =>
      str_contains "[CacheFile]" message
      && existsb (fun part => str_contains part message) ["can't open"; "failed:"; "error:"]
  end.

Section Monitor.
Context `{Chrono}.

(** The log channel is [sh_sent]: what was ever sent, the oldest first. *)
Record Shared := {
  sh_status : InstanceStatus;
  sh_persistence_error : option string;
  sh_user_stop : bool;
  sh_probe_timeout : bool;
  sh_cancel : bool;
  sh_probe_cancel : bool;
  sh_parser : LogParser;
  sh_tail : list LogFrame;
  sh_sent : list LogFrame;
  sh_supervisor : bool;
}.
Definition set_status (status : InstanceStatus) (s : Shared) : Shared :=
  {| sh_status := status; sh_persistence_error := sh_persistence_error s; sh_user_stop := sh_user_stop s;
     sh_probe_timeout := sh_probe_timeout s; sh_cancel := sh_cancel s; sh_probe_cancel := sh_probe_cancel s;
     sh_parser := sh_parser s; sh_tail := sh_tail s; sh_sent := sh_sent s; sh_supervisor := sh_supervisor s |}.
Definition set_persistence_error (error : option string) (s : Shared) : Shared :=
  {| sh_status := sh_status s; sh_persistence_error := error; sh_user_stop := sh_user_stop s;
     sh_probe_timeout := sh_probe_timeout s; sh_cancel := sh_cancel s; sh_probe_cancel := sh_probe_cancel s;
     sh_parser := sh_parser s; sh_tail := sh_tail s; sh_sent := sh_sent s; sh_supervisor := sh_supervisor s |}.
Definition set_flags (user_stop probe_timeout cancel probe_cancel : bool) (s : Shared) : Shared :=
  {| sh_status := sh_status s; sh_persistence_error := sh_persistence_error s; sh_user_stop := user_stop;
     sh_probe_timeout := probe_timeout; sh_cancel := cancel; sh_probe_cancel := probe_cancel;
     sh_parser := sh_parser s; sh_tail := sh_tail s; sh_sent := sh_sent s; sh_supervisor := sh_supervisor s |}.
Definition set_parser (parser : LogParser) (s : Shared) : Shared :=
  {| sh_status := sh_status s; sh_persistence_error := sh_persistence_error s; sh_user_stop := sh_user_stop s;
     sh_probe_timeout := sh_probe_timeout s; sh_cancel := sh_cancel s; sh_probe_cancel := sh_probe_cancel s;
     sh_parser := parser; sh_tail := sh_tail s; sh_sent := sh_sent s; sh_supervisor := sh_supervisor s |}.
Definition set_logs (tail sent : list LogFrame) (s : Shared) : Shared :=
  {| sh_status := sh_status s; sh_persistence_error := sh_persistence_error s; sh_user_stop := sh_user_stop s;
     sh_probe_timeout := sh_probe_timeout s; sh_cancel := sh_cancel s; sh_probe_cancel := sh_probe_cancel s;
     sh_parser := sh_parser s; sh_tail := tail; sh_sent := sent; sh_supervisor := sh_supervisor s |}.
Definition set_supervisor (supervisor : bool) (s : Shared) : Shared :=
  {| sh_status := sh_status s; sh_persistence_error := sh_persistence_error s; sh_user_stop := sh_user_stop s;
     sh_probe_timeout := sh_probe_timeout s; sh_cancel := sh_cancel s; sh_probe_cancel := sh_probe_cancel s;
     sh_parser := sh_parser s; sh_tail := sh_tail s; sh_sent := sh_sent s; sh_supervisor := supervisor |}.
Definition cancel_probes (s : Shared) : Shared :=
  set_flags (sh_user_stop s) (sh_probe_timeout s) (sh_cancel s) true s.
Definition time_out (s : Shared) : Shared := set_flags (sh_user_stop s) true true true s.
Definition cancel_all (s : Shared) : Shared := set_flags (sh_user_stop s) (sh_probe_timeout s) true (sh_probe_cancel s) s.

(** ** Publication *)

(** [Shared::publish]. *)
Definition publish_state (state : InstanceState) (s : Shared) : Shared :=
  let status := sh_status s in
  set_status
    (match state with
     | IStopping | IStopped _ => {| ist_instance_id := None; ist_state := state; ist_health := None |}
     | _ => {| ist_instance_id := ist_instance_id status; ist_state := state; ist_health := ist_health status |}
     end) s.

(** What [publish_status] makes of a status. *)
Definition overlay (error : option string) (status : InstanceStatus) : InstanceStatus :=
  match ist_health status, error with
  | Some health, Some error =>
      {| ist_instance_id := ist_instance_id status; ist_state := ist_state status;
         ist_health := Some {| hs_state := HUnhealthy; hs_changed_at := hs_changed_at health;
                               hs_consecutive_failures := hs_consecutive_failures health;
                               hs_last_error := Some error; hs_last_success_at := hs_last_success_at health |} |}
  | _, _ => status
  end.
Definition publish_status (status : InstanceStatus) (s : Shared) : Shared :=
  set_status (overlay (sh_persistence_error s) status) s.

Context (native_store : bool) (core_kind : CoreKind).

(** The cache failure a frame tells of, when a native store is leased. *)
Definition store_failure (frame : LogFrame) : option string :=
  if native_store && cache_failure core_kind (fr_message frame)
  then Some ("native store: " +:+ fr_message frame) else None.
Definition buffer_frame (frame : LogFrame) (s : Shared) : Shared :=
  let tail := if decide (length (sh_tail s) = LOG_TAIL_FRAMES) then List.tl (sh_tail s) else sh_tail s in
  set_logs (tail ++ [frame]) (sh_sent s ++ [frame]) s.

(** [publish_log_frame] in one go. *)
Definition publish_log_frame (frame : LogFrame) (s : Shared) : Shared :=
  let s :=
    match store_failure frame with
    | Some error => let s := set_persistence_error (Some error) s in publish_status (sh_status s) s
    | None => s
    end in
  buffer_frame frame s.

Definition flush_log_record (s : Shared) : Shared :=
  let '(frames, parser) := log_finish (sh_parser s) in
  fold_left (fun s frame => publish_log_frame frame s) (flatten frames) (set_parser parser s).
Definition diagnostics (s : Shared) : string * Shared :=
  let s := flush_log_record s in (format_tail (sh_tail s), s).
Definition failure_summary (lifecycle : string) (s : Shared) : string * Shared :=
  match sh_persistence_error s with
  | Some error => (error, s)
  | None => let s := flush_log_record s in (default lifecycle (error_summary (sh_tail s)), s)
  end.

(** The text Rust prints for the last exit. *)
Definition show_Z (z : Z) : string := if decide (z < 0)%Z then "-" +:+ show_N (Z.to_N (- z)) else show_N (Z.to_N z).
Definition debug_option (z : option Z) : string :=
  match z with Some z => "Some(" +:+ show_Z z +:+ ")" | None => "None" end.
Definition debug_exit (last_exit : option TerminatedPayload) : string :=
  match last_exit with
  | None => "None"
  | Some p => "Some(TerminatedPayload { code: " +:+ debug_option (tp_code p) +:+ ", signal: "
              +:+ debug_option (tp_signal p) +:+ " })"
  end.

(** [publish_terminal]. *)
Definition terminal_reason (last_exit : option TerminatedPayload) (s : Shared) : StopReason :=
  let text := format_tail (sh_tail s) in
  if sh_user_stop s then User
  else if sh_probe_timeout s then StopError ("health probe timed out" +:+ nl +:+ text)
  else if match last_exit with Some p => clean_exit p | None => false end then Finished
  else StopError ("core exited unexpectedly (" +:+ debug_exit last_exit +:+ ")" +:+ nl +:+ text).
Definition publish_terminal (last_exit : option TerminatedPayload) (s : Shared) : Shared :=
  let s := flush_log_record s in
  set_status {| ist_instance_id := None; ist_state := IStopped (terminal_reason last_exit s); ist_health := None |} s.

Definition reset_starting_health (now_ms : Z) (previous : option HealthStatus) : HealthStatus :=
  {| hs_state := HStarting;
     hs_changed_at := match previous with
                      | Some status => if decide (hs_state status = HStarting) then hs_changed_at status else now_ms
                      | None => now_ms
                      end;
     hs_consecutive_failures := 0; hs_last_error := None; hs_last_success_at := None |}.

Definition health_of (state : TrackerState) : HealthState :=
  match state with TStarting => HStarting | THealthy => HHealthy | TUnhealthy => HUnhealthy end.
Definition health_status (previous : option HealthStatus) (update : TrackerUpdate) (observation : ProbeObservation)
    : HealthStatus :=
  let state := health_of (tu_state update) in
  {| hs_state := state;
     hs_changed_at := match previous with
                      | Some status => if decide (hs_state status = state) then hs_changed_at status
                                       else ob_completed_at_ms observation
                      | None => ob_completed_at_ms observation
                      end;
     hs_consecutive_failures := tu_consecutive_failures update; hs_last_error := tu_last_error update;
     hs_last_success_at := if is_healthy (ob_result observation) then Some (ob_completed_at_ms observation)
                           else previous ≫= hs_last_success_at |}.

(** ** The loop *)

(** The locals of [monitor_loop]. *)
Record Local := {
  lo_ever_ready : bool;
  lo_timeout_fired : bool;
  lo_probes_cancelled : bool;
  lo_next_run_id : N;
  lo_current : option RunState;
  lo_respawn_deadline : option Instant;
  lo_last_exit : option TerminatedPayload;
}.
Definition local_initial : Local :=
  {| lo_ever_ready := false; lo_timeout_fired := false; lo_probes_cancelled := false; lo_next_run_id := 0;
     lo_current := None; lo_respawn_deadline := None; lo_last_exit := None |}.
Definition set_current (current : option RunState) (l : Local) : Local :=
  {| lo_ever_ready := lo_ever_ready l; lo_timeout_fired := lo_timeout_fired l;
     lo_probes_cancelled := lo_probes_cancelled l; lo_next_run_id := lo_next_run_id l; lo_current := current;
     lo_respawn_deadline := lo_respawn_deadline l; lo_last_exit := lo_last_exit l |}.
(** [current = None; respawn_deadline = None]. *)
Definition forget_run (l : Local) : Local :=
  {| lo_ever_ready := lo_ever_ready l; lo_timeout_fired := lo_timeout_fired l;
     lo_probes_cancelled := lo_probes_cancelled l; lo_next_run_id := lo_next_run_id l; lo_current := None;
     lo_respawn_deadline := None; lo_last_exit := lo_last_exit l |}.
Definition set_probes_cancelled (l : Local) : Local :=
  {| lo_ever_ready := lo_ever_ready l; lo_timeout_fired := lo_timeout_fired l; lo_probes_cancelled := true;
     lo_next_run_id := lo_next_run_id l; lo_current := lo_current l; lo_respawn_deadline := lo_respawn_deadline l;
     lo_last_exit := lo_last_exit l |}.
Definition set_timeout_fired (l : Local) : Local :=
  {| lo_ever_ready := lo_ever_ready l; lo_timeout_fired := true; lo_probes_cancelled := lo_probes_cancelled l;
     lo_next_run_id := lo_next_run_id l; lo_current := lo_current l; lo_respawn_deadline := lo_respawn_deadline l;
     lo_last_exit := lo_last_exit l |}.
Definition set_last_exit (payload : TerminatedPayload) (l : Local) : Local :=
  {| lo_ever_ready := lo_ever_ready l; lo_timeout_fired := lo_timeout_fired l;
     lo_probes_cancelled := lo_probes_cancelled l; lo_next_run_id := lo_next_run_id l; lo_current := lo_current l;
     lo_respawn_deadline := lo_respawn_deadline l; lo_last_exit := Some payload |}.
Definition set_run_id (l : Local) : Local :=
  {| lo_ever_ready := lo_ever_ready l; lo_timeout_fired := lo_timeout_fired l;
     lo_probes_cancelled := lo_probes_cancelled l;
     lo_next_run_id := saturating_add (u64_modulus - 1) (lo_next_run_id l) 1; lo_current := lo_current l;
     lo_respawn_deadline := lo_respawn_deadline l; lo_last_exit := lo_last_exit l |}.
Definition set_respawn_deadline (deadline : option Instant) (l : Local) : Local :=
  {| lo_ever_ready := lo_ever_ready l; lo_timeout_fired := lo_timeout_fired l;
     lo_probes_cancelled := lo_probes_cancelled l; lo_next_run_id := lo_next_run_id l; lo_current := lo_current l;
     lo_respawn_deadline := deadline; lo_last_exit := lo_last_exit l |}.
(** [ever_ready = true; respawn_deadline = None]. *)
Definition set_ready (l : Local) : Local :=
  {| lo_ever_ready := true; lo_timeout_fired := lo_timeout_fired l; lo_probes_cancelled := lo_probes_cancelled l;
     lo_next_run_id := lo_next_run_id l; lo_current := lo_current l; lo_respawn_deadline := None;
     lo_last_exit := lo_last_exit l |}.

(** Who hands an observation to [ProbeReconcile::apply]: the arm of the
    [select!], or a drain at one of the two deadlines. *)
Inductive Caller := BySelect | ByInitial | ByRespawn.
(** What follows a publication. *)
Inductive After := ThenLoop | ThenReturn | ThenRun (pid : N) | ThenApplied (caller : Caller) (became_ready : bool).
(** [MPoll arm]: the arms in front of it were looked at and not ready.
    [MWrite]: a status was put together and is about to be published.
    [MAck]: the supervisor is asked to accept a readiness. *)
Inductive MonitorPhase :=
| MPoll (arm : nat)
| MWrite (status : InstanceStatus) (next : After)
| MAck (pid : N) (update : TrackerUpdate) (observation : ProbeObservation) (caller : Caller)
| MDrain (caller : Caller)
| MReturned.

(** The task of the supervisor that hands console lines on: idle, handing on
    frames, between the look at the status and its publication, or dead behind
    a panic of the parser. *)
Inductive LogTask :=
| LIdle
| LFrames (frames : list LogFrame)
| LClone (status : InstanceStatus) (frame : LogFrame) (rest : list LogFrame)
| LDead.

(** How far [stop_and_confirm_dead] is: not called, behind its flags, behind a
    look at the status that found it not terminal, in front of the supervisor's
    slot, waiting, behind the end of the monitor with what the status said
    then, done. *)
Inductive StopCall := StNone | StFlagged | StLooked | StTake | StWaiting | StJoined (terminal : bool) | StDone.

(** [mo_acked]: the readiness signals the supervisor accepted, the newest
    first; it is there for the statements. *)
Record Monitor := {
  mo_now : Instant;
  mo_shared : Shared;
  mo_local : Local;
  mo_events : list SupervisorEvent;
  mo_closed : bool;
  mo_observations : list ProbeObservation;
  mo_requests : list N;
  mo_replies : list (N * ProbeResult);
  mo_driver : option ProbeDriver;
  mo_log : LogTask;
  mo_phase : MonitorPhase;
  mo_stop : StopCall;
  mo_acked : list (N * ProbeObservation);
}.
Definition with_now (now : Instant) (m : Monitor) : Monitor :=
  {| mo_now := now; mo_shared := mo_shared m; mo_local := mo_local m; mo_events := mo_events m; mo_closed := mo_closed m;
     mo_observations := mo_observations m; mo_requests := mo_requests m; mo_replies := mo_replies m;
     mo_driver := mo_driver m; mo_log := mo_log m; mo_phase := mo_phase m; mo_stop := mo_stop m;
     mo_acked := mo_acked m |}.
Definition with_shared (f : Shared -> Shared) (m : Monitor) : Monitor :=
  {| mo_now := mo_now m; mo_shared := f (mo_shared m); mo_local := mo_local m; mo_events := mo_events m; mo_closed := mo_closed m;
     mo_observations := mo_observations m; mo_requests := mo_requests m; mo_replies := mo_replies m;
     mo_driver := mo_driver m; mo_log := mo_log m; mo_phase := mo_phase m; mo_stop := mo_stop m;
     mo_acked := mo_acked m |}.
Definition with_local (f : Local -> Local) (m : Monitor) : Monitor :=
  {| mo_now := mo_now m; mo_shared := mo_shared m; mo_local := f (mo_local m); mo_events := mo_events m; mo_closed := mo_closed m;
     mo_observations := mo_observations m; mo_requests := mo_requests m; mo_replies := mo_replies m;
     mo_driver := mo_driver m; mo_log := mo_log m; mo_phase := mo_phase m; mo_stop := mo_stop m;
     mo_acked := mo_acked m |}.
Definition with_events (events : list SupervisorEvent) (closed : bool) (m : Monitor) : Monitor :=
  {| mo_now := mo_now m; mo_shared := mo_shared m; mo_local := mo_local m; mo_events := events; mo_closed := closed;
     mo_observations := mo_observations m; mo_requests := mo_requests m; mo_replies := mo_replies m;
     mo_driver := mo_driver m; mo_log := mo_log m; mo_phase := mo_phase m; mo_stop := mo_stop m;
     mo_acked := mo_acked m |}.
Definition with_observations (observations : list ProbeObservation) (m : Monitor) : Monitor :=
  {| mo_now := mo_now m; mo_shared := mo_shared m; mo_local := mo_local m; mo_events := mo_events m; mo_closed := mo_closed m;
     mo_observations := observations; mo_requests := mo_requests m; mo_replies := mo_replies m;
     mo_driver := mo_driver m; mo_log := mo_log m; mo_phase := mo_phase m; mo_stop := mo_stop m;
     mo_acked := mo_acked m |}.
Definition with_requests (requests : list N) (replies : list (N * ProbeResult)) (m : Monitor) : Monitor :=
  {| mo_now := mo_now m; mo_shared := mo_shared m; mo_local := mo_local m; mo_events := mo_events m; mo_closed := mo_closed m;
     mo_observations := mo_observations m; mo_requests := requests; mo_replies := replies;
     mo_driver := mo_driver m; mo_log := mo_log m; mo_phase := mo_phase m; mo_stop := mo_stop m;
     mo_acked := mo_acked m |}.
Definition with_driver (driver : option ProbeDriver) (m : Monitor) : Monitor :=
  {| mo_now := mo_now m; mo_shared := mo_shared m; mo_local := mo_local m; mo_events := mo_events m; mo_closed := mo_closed m;
     mo_observations := mo_observations m; mo_requests := mo_requests m; mo_replies := mo_replies m;
     mo_driver := driver; mo_log := mo_log m; mo_phase := mo_phase m; mo_stop := mo_stop m;
     mo_acked := mo_acked m |}.
Definition with_log (log : LogTask) (m : Monitor) : Monitor :=
  {| mo_now := mo_now m; mo_shared := mo_shared m; mo_local := mo_local m; mo_events := mo_events m; mo_closed := mo_closed m;
     mo_observations := mo_observations m; mo_requests := mo_requests m; mo_replies := mo_replies m;
     mo_driver := mo_driver m; mo_log := log; mo_phase := mo_phase m; mo_stop := mo_stop m;
     mo_acked := mo_acked m |}.
Definition with_phase (phase : MonitorPhase) (m : Monitor) : Monitor :=
  {| mo_now := mo_now m; mo_shared := mo_shared m; mo_local := mo_local m; mo_events := mo_events m; mo_closed := mo_closed m;
     mo_observations := mo_observations m; mo_requests := mo_requests m; mo_replies := mo_replies m;
     mo_driver := mo_driver m; mo_log := mo_log m; mo_phase := phase; mo_stop := mo_stop m;
     mo_acked := mo_acked m |}.
Definition with_stop (stop : StopCall) (m : Monitor) : Monitor :=
  {| mo_now := mo_now m; mo_shared := mo_shared m; mo_local := mo_local m; mo_events := mo_events m; mo_closed := mo_closed m;
     mo_observations := mo_observations m; mo_requests := mo_requests m; mo_replies := mo_replies m;
     mo_driver := mo_driver m; mo_log := mo_log m; mo_phase := mo_phase m; mo_stop := stop;
     mo_acked := mo_acked m |}.
Definition with_acked (acked : list (N * ProbeObservation)) (m : Monitor) : Monitor :=
  {| mo_now := mo_now m; mo_shared := mo_shared m; mo_local := mo_local m; mo_events := mo_events m; mo_closed := mo_closed m;
     mo_observations := mo_observations m; mo_requests := mo_requests m; mo_replies := mo_replies m;
     mo_driver := mo_driver m; mo_log := mo_log m; mo_phase := mo_phase m; mo_stop := mo_stop m;
     mo_acked := acked |}.

Context (options : InstanceOptions) (initial_deadline : Instant) (has_liveness : bool).

(** *** [ProbeDriver] *)

Definition driver_start (now : Instant) (run_id pid : N) : ProbeDriver :=
  {| dr_run_id := run_id; dr_pid := pid; dr_periodic := Some Readiness; dr_next_probe := now; dr_commands := [] |}.
Definition driver_send (command : DriverCommand) (d : ProbeDriver) : ProbeDriver :=
  {| dr_run_id := dr_run_id d; dr_pid := dr_pid d; dr_periodic := dr_periodic d; dr_next_probe := dr_next_probe d;
     dr_commands := dr_commands d ++ [command] |}.
Definition driver_wait (next : Instant) (periodic : option ProbePhase) (commands : list DriverCommand) (d : ProbeDriver)
    : ProbeDriver :=
  {| dr_run_id := dr_run_id d; dr_pid := dr_pid d; dr_periodic := periodic; dr_next_probe := next; dr_commands := commands |}.

(** What [run_attempt] answers when the driver is not cancelled over it. *)
Definition run_attempt (d : ProbeDriver) (phase : ProbePhase) (now : Instant) (now_ms : Z) (result : ProbeResult)
    : ProbeObservation :=
  {| ob_run_id := dr_run_id d; ob_pid := dr_pid d; ob_phase := phase; ob_completed_at := now; ob_completed_at_ms := now_ms;
     ob_result := result |}.

(** *** [ProbeReconcile] *)

Definition observation_applies (observation : ProbeObservation) (run : RunState) : bool :=
  bool_decide (ob_run_id observation = rn_run_id run) && bool_decide (ob_pid observation = rn_pid run).
Definition in_time (observation : ProbeObservation) (l : Local) : bool :=
  negb (negb (lo_ever_ready l) && bool_decide (initial_deadline < ob_completed_at observation))
  && match lo_respawn_deadline l with
     | Some deadline => negb (bool_decide (deadline < ob_completed_at observation))
     | None => true
     end.

(** Where the loop goes on when [apply] has returned. *)
Definition applied (caller : Caller) (became_ready : bool) : MonitorPhase :=
  match caller with
  | BySelect => MPoll 0
  | _ => if became_ready then MPoll 0 else MDrain caller
  end.
Definition observed_run (run : RunState) (tracker : HealthTracker) (ack_attempted : bool) : RunState :=
  {| rn_run_id := rn_run_id run; rn_pid := rn_pid run; rn_ack_attempted := ack_attempted; rn_ready := rn_ready run;
     rn_tracker := tracker |}.

(** [apply], up to its publication or its question to the supervisor. *)
Definition apply_observation (observation : ProbeObservation) (caller : Caller) (m : Monitor) : Monitor :=
  match lo_current (mo_local m) with
  | None => with_phase (applied caller false) m
  | Some run =>
      if negb (observation_applies observation run) || negb (in_time observation (mo_local m))
      then with_phase (applied caller false) m
      else
        let '(update, tracker) := observe (rn_tracker run) (ob_completed_at observation) (ob_result observation) in
        if negb (rn_ack_attempted run) && bool_decide (tu_state update = THealthy) then
          with_phase (MAck (rn_pid run) update observation caller)
            (with_local (set_current (Some (observed_run run tracker true))) m)
        else
          let status := sh_status (mo_shared m) in
          with_phase
            (MWrite {| ist_instance_id := ist_instance_id status; ist_state := ist_state status;
                       ist_health := Some (health_status (ist_health status) update observation) |}
               (ThenApplied caller false))
            (with_local (set_current (Some (observed_run run tracker (rn_ack_attempted run)))) m)
  end.

Definition ready_run (run : RunState) : RunState :=
  {| rn_run_id := rn_run_id run; rn_pid := rn_pid run; rn_ack_attempted := rn_ack_attempted run; rn_ready := true;
     rn_tracker := rn_tracker run |}.

(** The answer of [acknowledge_ready], which is only asked while the supervisor
    is in its slot. *)
Definition on_ack_answer (answer : bool) (pid : N) (update : TrackerUpdate) (observation : ProbeObservation) (caller : Caller)
    (m : Monitor) : Monitor :=
  if answer && sh_supervisor (mo_shared m) then
    let status := sh_status (mo_shared m) in
    with_phase
      (MWrite {| ist_instance_id := ist_instance_id status; ist_state := IRunning pid;
                 ist_health := Some (health_status (ist_health status) update observation) |}
         (ThenApplied caller true))
      (with_acked ((pid, observation) :: mo_acked m)
        (with_driver (driver_send UseLiveness <$> mo_driver m)
          (with_local (fun l => set_current (ready_run <$> lo_current l) (set_ready l)) m)))
  else with_phase (applied caller false) m.

(** *** The arms *)

(** The end of a drain that made nothing ready. *)
Definition on_deadline (caller : Caller) (m : Monitor) : Monitor :=
  let expired := match caller with
                 | ByInitial => negb (lo_ever_ready (mo_local m))
                 | _ => bool_decide (lo_respawn_deadline (mo_local m) <> None)
                 end in
  let fired l := match caller with ByInitial => set_timeout_fired l | _ => l end in
  if expired
  then with_phase (MPoll 0) (with_shared time_out (with_driver None (with_local (fun l => forget_run (fired l)) m)))
  else with_phase (MPoll 0) m.
Definition on_drain (caller : Caller) (m : Monitor) : Monitor :=
  match mo_observations m with
  | observation :: rest => apply_observation observation caller (with_observations rest m)
  | [] => on_deadline caller m
  end.

Definition finish_loop (m : Monitor) : Monitor :=
  with_phase MReturned (with_driver None (with_shared (publish_terminal (lo_last_exit (mo_local m))) m)).

Definition on_event (now_ms : Z) (uuid : Uuid) (event : SupervisorEvent) (m : Monitor) : Monitor :=
  let status := sh_status (mo_shared m) in
  match event with
  | SvStarted pid =>
      with_phase
        (MWrite {| ist_instance_id := Some uuid; ist_state := ist_state status;
                   ist_health := Some (reset_starting_health now_ms (ist_health status)) |} (ThenRun pid))
        (with_local set_run_id (with_driver None m))
  | SvRestarting attempt _ =>
      with_phase
        (MWrite {| ist_instance_id := None; ist_state := IRestarting attempt;
                   ist_health := Some (reset_starting_health now_ms (ist_health status)) |} ThenLoop)
        (with_local forget_run (with_driver None m))
  | SvExited payload =>
      with_phase (MPoll 0) (with_local (fun l => set_last_exit payload (forget_run l)) (with_driver None m))
  | SvPreparationFailed detail =>
      with_phase MReturned (with_shared (publish_state (IStopped (StopError detail))) (with_driver None m))
  | SvGaveUp =>
      let '(text, shared) := diagnostics (mo_shared m) in
      with_phase
        (MWrite {| ist_instance_id := None;
                   ist_state := IStopped (StopError ("core kept crashing; restart budget exhausted" +:+ nl +:+ text));
                   ist_health := None |} ThenReturn)
        (with_shared (fun _ => shared) (with_driver None m))
  | SvStopped => finish_loop m
  | SvReady => with_phase (MPoll 0) m
  end.

(** The rest of the arm of [Started], behind its publication. *)
Definition start_run (pid : N) (m : Monitor) : Monitor :=
  let l := mo_local m in
  let m := with_local (fun l =>
             set_respawn_deadline (if lo_ever_ready l then Some (mo_now m + io_startup_timeout options) else None)
               (set_current (Some {| rn_run_id := lo_next_run_id l; rn_pid := pid; rn_ack_attempted := false;
                                     rn_ready := false; rn_tracker := HealthTracker_new (io_health options) (mo_now m) |}) l)) m in
  with_phase (MPoll 0)
    (if lo_probes_cancelled l then m else with_driver (Some (driver_start (mo_now m) (lo_next_run_id l) pid)) m).

(** [MWrite]: the publication and what follows it. *)
Definition on_write (status : InstanceStatus) (next : After) (m : Monitor) : Monitor :=
  let m := with_shared (publish_status status) m in
  match next with
  | ThenLoop => with_phase (MPoll 0) m
  | ThenReturn => with_phase MReturned (with_driver None m)
  | ThenRun pid => start_run pid m
  | ThenApplied caller became_ready => with_phase (applied caller became_ready) m
  end.

Definition on_request (request : N) (m : Monitor) : Monitor :=
  let refuse text := with_requests (mo_requests m) (mo_replies m ++ [(request, ProbeUnhealthy (Some text))]) m in
  if match lo_current (mo_local m) with Some run => rn_ready run | None => false end then
    match mo_driver m with
    | Some driver => with_driver (Some (driver_send (DoReconcile request) driver)) m
    | None => refuse "instance probe driver is not running"
    end
  else refuse "instance is not running".

(** The look at one arm of the [select!]. *)
Definition poll (now_ms : Z) (uuid : Uuid) (arm : nat) (m : Monitor) : Monitor :=
  let l := mo_local m in
  let next := with_phase (MPoll (S arm)) m in
  match arm with
  | 0%nat =>
      if sh_probe_cancel (mo_shared m) && negb (lo_probes_cancelled l)
      then with_phase (MPoll 0) (with_local (fun l => forget_run (set_probes_cancelled l)) (with_driver None m))
      else next
  | 1%nat =>
      match mo_events m with
      | event :: rest => on_event now_ms uuid event (with_events rest (mo_closed m) m)
      | [] => if mo_closed m then finish_loop m else next
      end
  | 2%nat =>
      if negb (lo_ever_ready l) && negb (lo_timeout_fired l) && bool_decide (initial_deadline <= mo_now m)
      then with_phase (MDrain ByInitial) m else next
  | 3%nat =>
      match lo_respawn_deadline l with
      | Some deadline => if decide (deadline <= mo_now m) then with_phase (MDrain ByRespawn) m else next
      | None => next
      end
  | 4%nat =>
      match mo_requests m with
      | request :: rest => with_phase (MPoll 0) (on_request request (with_requests rest (mo_replies m) m))
      | [] => next
      end
  | 5%nat =>
      match mo_observations m with
      | observation :: rest => apply_observation observation BySelect (with_observations rest m)
      | [] => next
      end
  | _ => with_phase (MPoll 0) m
  end.

Definition monitor_initial (now : Instant) (now_ms : Z) (epoch : N) : Monitor :=
  {| mo_now := now;
     mo_shared := {| sh_status := InstanceStatus_initial now_ms; sh_persistence_error := None; sh_user_stop := false;
                     sh_probe_timeout := false; sh_cancel := false; sh_probe_cancel := false;
                     sh_parser := LogParser_new core_kind epoch; sh_tail := []; sh_sent := []; sh_supervisor := true |};
     mo_local := local_initial; mo_events := []; mo_closed := false; mo_observations := []; mo_requests := [];
     mo_replies := []; mo_driver := None; mo_log := LIdle; mo_phase := MPoll 0;
     mo_stop := StNone; mo_acked := [] |}.

(** *** The other tasks *)

(** The callback of [on_event], in front of the channel; [recorded] is what
    [record_started] answers. *)
Definition supervisor_event (event : SupervisorEvent) (recorded : result () string) (m : Monitor) : Monitor :=
  let m :=
    match event, recorded with
    | SvStarted _, Err error =>
        if native_store then with_shared (fun s => cancel_all (set_persistence_error (Some error) s)) m else m
    | _, _ => m
    end in
  with_events (mo_events m ++ [event]) (mo_closed m) m.

(** The callback of [on_process_event] up to its frames; a panic takes the task
    of the supervisor down. *)
Definition process_line (stream : LogStream) (line : string) (at_ : DateTime) (m : Monitor) : Monitor :=
  match push_at stream line at_ (sh_parser (mo_shared m)) with
  | Return (frames, parser) => with_log (LFrames (flatten frames)) (with_shared (set_parser parser) m)
  | Panicked _ => with_log LDead (with_events (mo_events m) true m)
  end.
Definition process_terminated (m : Monitor) : Monitor :=
  let '(frames, parser) := log_finish (sh_parser (mo_shared m)) in
  with_log (LFrames (flatten frames)) (with_shared (set_parser parser) m).
(** [publish_log_frame], up to and behind its look at the status. *)
Definition hand_on (frame : LogFrame) (rest : list LogFrame) (m : Monitor) : Monitor :=
  match store_failure frame with
  | Some error => with_log (LClone (sh_status (mo_shared m)) frame rest) (with_shared (set_persistence_error (Some error)) m)
  | None => with_log (LFrames rest) (with_shared (buffer_frame frame) m)
  end.
Definition hand_on_clone (status : InstanceStatus) (frame : LogFrame) (rest : list LogFrame) (m : Monitor) : Monitor :=
  with_log (LFrames rest) (with_shared (fun s => buffer_frame frame (publish_status status s)) m).

Definition observe_probe (observation : ProbeObservation) (m : Monitor) : Monitor :=
  with_observations (mo_observations m ++ [observation]) m.
Definition probe_interval : Duration := hp_interval (io_health options).

Inductive task_step : Monitor -> Monitor -> Prop :=
| task_time m now : mo_now m <= now -> task_step m (with_now now m)
| task_event m event recorded : mo_closed m = false -> task_step m (supervisor_event event recorded m)
| task_close m : task_step m (with_events (mo_events m) true m)
| task_prepare m : native_store = true -> mo_closed m = false -> task_step m (with_shared (set_persistence_error None) m)
| task_line m stream line at_ : mo_log m = LIdle -> task_step m (process_line stream line at_ m)
| task_terminated m : mo_log m = LIdle -> task_step m (process_terminated m)
| task_frames m : mo_log m = LFrames [] -> task_step m (with_log LIdle m)
| task_frame m frame rest : mo_log m = LFrames (frame :: rest) -> task_step m (hand_on frame rest m)
| task_clone m status frame rest : mo_log m = LClone status frame rest -> task_step m (hand_on_clone status frame rest m)
| task_probe m d phase now_ms result :
    mo_driver m = Some d -> dr_periodic d = Some phase -> dr_next_probe d <= mo_now m ->
    task_step m (with_driver (Some (driver_wait (mo_now m + probe_interval) (Some phase) (dr_commands d) d))
                  (observe_probe (run_attempt d phase (mo_now m) now_ms result) m))
| task_liveness m d commands :
    mo_driver m = Some d -> dr_commands d = UseLiveness :: commands ->
    task_step m (with_driver (Some (driver_wait (mo_now m + probe_interval)
                                      (if has_liveness then Some Liveness else None) commands d)) m)
| task_reconcile m d request commands now_ms result :
    mo_driver m = Some d -> dr_commands d = DoReconcile request :: commands ->
    task_step m (with_driver (Some (driver_wait (dr_next_probe d) (dr_periodic d) commands d))
                  (with_requests (mo_requests m) (mo_replies m ++ [(request, result)])
                    (observe_probe (run_attempt d Reconcile (mo_now m) now_ms result) m)))
| task_request m request : task_step m (with_requests (mo_requests m ++ [request]) (mo_replies m) m)
| task_cancel m : task_step m (with_shared cancel_all m)
| task_drop m : task_step m (with_shared (fun s => cancel_all (cancel_probes s)) m).

(** [stop_and_confirm_dead], as far as it touches the shared state. *)
Definition stop_flags (s : Shared) : Shared := set_flags true (sh_probe_timeout s) (sh_cancel s) true s.
Inductive stop_step : Monitor -> Monitor -> Prop :=
| stop_begin m : mo_stop m = StNone -> stop_step m (with_stop StFlagged (with_shared stop_flags m))
| stop_look m :
    mo_stop m = StFlagged ->
    stop_step m (with_stop (if is_terminal (ist_state (sh_status (mo_shared m))) then StTake else StLooked) m)
| stop_publish m : mo_stop m = StLooked -> stop_step m (with_stop StTake (with_shared (publish_state IStopping) m))
| stop_take m :
    mo_stop m = StTake -> (forall pid update observation caller, mo_phase m <> MAck pid update observation caller) ->
    stop_step m (with_stop StWaiting (with_shared (set_supervisor false) m))
| stop_join m :
    mo_stop m = StWaiting ->
    stop_step m (with_stop (StJoined (is_terminal (ist_state (sh_status (mo_shared m)))))
                   (with_phase MReturned (with_driver None m)))
| stop_done m terminal :
    mo_stop m = StJoined terminal ->
    stop_step m (with_stop StDone (if terminal then m else with_shared (publish_state (IStopped User)) m)).

(** One step of the loop itself. *)
Inductive monitor_step : Monitor -> Monitor -> Prop :=
| monitor_poll m now_ms uuid arm : mo_phase m = MPoll arm -> monitor_step m (poll now_ms uuid arm m)
| monitor_drain m caller : mo_phase m = MDrain caller -> monitor_step m (on_drain caller m)
| monitor_write m status next : mo_phase m = MWrite status next -> monitor_step m (on_write status next m)
| monitor_ack m answer pid update observation caller :
    mo_phase m = MAck pid update observation caller ->
    monitor_step m (on_ack_answer answer pid update observation caller m).

Definition mo_step (m m' : Monitor) : Prop := monitor_step m m' \/ task_step m m' \/ stop_step m m'.
Inductive mo_reachable : Monitor -> Prop :=
| mo_reach_initial now now_ms epoch : mo_reachable (monitor_initial now now_ms epoch)
| mo_reach_step m m' : mo_reachable m -> mo_step m m' -> mo_reachable m'.

End Monitor.
