(* ===== verification/MonitorSafety.v ===== *)
(** * What the status of an instance means

    Theorems on [Monitor.v]: a running status was earned by a probe of that
    process and accepted by the supervisor, nothing becomes ready behind a
    cancelled probe or a passed deadline, the diagnostic tail holds the newest
    frames, and the end of the monitor is a terminal status. *)

From stdpp Require Import relations.
From S2P Require Export Monitor.
Open Scope rust_scope.

(** ** A running status is earned *)

Definition Acked (acked : list (N * ProbeObservation)) (status : InstanceStatus) : Prop :=
  forall pid, ist_state status = IRunning pid -> exists o, (pid, o) ∈ acked.

Lemma acked_more acked x status : Acked acked status -> Acked (x :: acked) status.
Proof. intros H pid Hp. destruct (H pid Hp) as (o & Ho). exists o. by right. Qed.
Lemma acked_state acked status status' :
  ist_state status' = ist_state status -> Acked acked status -> Acked acked status'.
Proof. intros He H pid. rewrite He. apply H. Qed.
Lemma acked_other acked status : (forall pid, ist_state status <> IRunning pid) -> Acked acked status.
Proof. intros H pid Hp. by destruct (H pid). Qed.

Section Safety.
Context `{Chrono} (native_store : bool) (core_kind : CoreKind).
Context (options : InstanceOptions) (initial_deadline : Instant) (has_liveness : bool).

Notation reachable := (mo_reachable native_store core_kind options initial_deadline has_liveness).
Notation step := (mo_step native_store core_kind options initial_deadline has_liveness).
Notation Monitor_step := (monitor_step native_store core_kind options initial_deadline).

Lemma overlay_state error status : ist_state (overlay error status) = ist_state status.
Proof. unfold overlay. by destruct (ist_health status), error. Qed.

Lemma publish_log_frame_state frame s :
  ist_state (sh_status (publish_log_frame native_store core_kind frame s)) = ist_state (sh_status s).
Proof. unfold publish_log_frame. destruct (store_failure _ _ _); [|done]. cbn. apply overlay_state. Qed.

Lemma flush_state s : ist_state (sh_status (flush_log_record native_store core_kind s)) = ist_state (sh_status s).
Proof.
  unfold flush_log_record. destruct (log_finish (sh_parser s)) as [frames parser].
  transitivity (ist_state (sh_status (set_parser parser s))); [|done]. generalize (set_parser parser s).
  induction (flatten frames) as [|f fs IH]; intros t; [done|]. cbn. by rewrite IH, publish_log_frame_state.
Qed.

(** The parts of a state the invariant is about. *)
Record Earned (status : InstanceStatus) (phase : MonitorPhase) (log : LogTask) (l : Local)
    (acked : list (N * ProbeObservation)) : Prop := {
  earned_acks : forall pid o, (pid, o) ∈ acked -> ob_pid o = pid /\ is_healthy (ob_result o) = true;
  earned_first : forall x, last acked = Some x -> ob_completed_at x.2 <= initial_deadline;
  earned_ready : acked = [] -> lo_ever_ready l = false;
  earned_status : Acked acked status;
  earned_write : forall st next, phase = MWrite st next -> Acked acked st;
  earned_clone : forall st frame rest, log = LClone st frame rest -> Acked acked st;
  earned_run : forall run, lo_current l = Some run -> rn_ack_attempted run = false -> ht_state (rn_tracker run) <> THealthy;
  earned_ask : forall pid update o caller, phase = MAck pid update o caller ->
    ob_pid o = pid /\ is_healthy (ob_result o) = true /\ (lo_ever_ready l = false -> ob_completed_at o <= initial_deadline);
}.
Definition EarnedM (m : Monitor) : Prop :=
  Earned (sh_status (mo_shared m)) (mo_phase m) (mo_log m) (mo_local m) (mo_acked m).

(** A new phase that neither writes nor asks. *)
Definition plain (phase : MonitorPhase) : Prop :=
  (forall st next, phase <> MWrite st next) /\ (forall pid update o caller, phase <> MAck pid update o caller).

Lemma earned_move status status' phase phase' log log' l l' acked :
  Earned status phase log l acked ->
  Acked acked status' ->
  (forall st next, phase' = MWrite st next -> Acked acked st) ->
  (forall st frame rest, log' = LClone st frame rest -> Acked acked st) ->
  lo_ever_ready l' = lo_ever_ready l ->
  (forall run, lo_current l' = Some run -> rn_ack_attempted run = false -> ht_state (rn_tracker run) <> THealthy) ->
  (forall pid update o caller, phase' = MAck pid update o caller ->
    ob_pid o = pid /\ is_healthy (ob_result o) = true /\ (lo_ever_ready l = false -> ob_completed_at o <= initial_deadline)) ->
  Earned status' phase' log' l' acked.
Proof. intros [] ? ? ? He ? ?. split; try done; rewrite He; done. Qed.

Lemma observe_first tracker now result :
  ht_state tracker <> THealthy -> tu_state (observe tracker now result).1 = THealthy -> is_healthy result = true.
Proof.
  unfold observe. destruct result as [|detail]; [done|]. intros Hne. cbn.
  destruct (negb _ && _); [done|]. case_decide; done.
Qed.
Lemma observe_tracker tracker now result : ht_state (observe tracker now result).2 = tu_state (observe tracker now result).1.
Proof. done. Qed.

(** What only moves statuses about keeps the invariant. *)
Ltac moves HI := eapply earned_move; [exact HI|..]; cbn; try (by apply HI); try (intros; discriminate); try done.

Lemma applied_plain caller b : plain (applied caller b).
Proof. destruct caller, b; split; intros; discriminate. Qed.

Lemma earned_plain m phase :
  EarnedM m -> plain phase -> EarnedM (with_phase phase m).
Proof. intros HI [Hw Ha]. moves HI; intros; exfalso; naive_solver. Qed.

Lemma earned_apply observation caller m :
  EarnedM m -> plain (mo_phase m) -> EarnedM (apply_observation initial_deadline observation caller m).
Proof.
  intros HI Hpl. unfold apply_observation. destruct (lo_current (mo_local m)) as [run|] eqn:Er; [|apply earned_plain; [done|apply applied_plain]].
  destruct (negb (observation_applies observation run) || _) eqn:Eo; [apply earned_plain; [done|apply applied_plain]|].
  apply orb_false_iff in Eo as [Happ Htime]. apply negb_false_iff in Happ, Htime.
  unfold observation_applies in Happ. apply andb_true_iff in Happ as [_ Hpid%bool_decide_eq_true].
  pose proof (observe_first (rn_tracker run) (ob_completed_at observation) (ob_result observation)) as Hfirst.
  pose proof (observe_tracker (rn_tracker run) (ob_completed_at observation) (ob_result observation)) as Htr.
  destruct (observe _ _ _) as [update tracker]. cbn [fst snd] in Hfirst, Htr.
  destruct (negb (rn_ack_attempted run) && _) eqn:Eask.
  - apply andb_true_iff in Eask as [Hatt%negb_true_iff Hst%bool_decide_eq_true]. moves HI.
    + intros r [= <-]. done.
    + intros ???? [= <- _ <- _]. split; [done|]. split.
      * apply Hfirst; [|done]. by apply (earned_run _ _ _ _ _ HI).
      * intros Hnr. unfold in_time in Htime. rewrite Hnr in Htime. cbn in Htime.
        apply andb_true_iff in Htime as [Htime _]. apply negb_true_iff, bool_decide_eq_false in Htime. lia.
  - moves HI.
    + intros st next [= <- _]. eapply acked_state; [|by apply HI]. done.
    + intros r [= <-] Hatt. cbn in Hatt |- *. rewrite Hatt in Eask. cbn in Eask. apply bool_decide_eq_false in Eask. congruence.
Qed.

Lemma last_cons_Some {A} (x y : A) (l : list A) : last (x :: l) = Some y -> l = [] /\ y = x \/ last l = Some y.
Proof. destruct l as [|z l]; [intros [= ->]; by left|by right]. Qed.

Lemma earned_answer answer pid update o caller m :
  EarnedM m -> mo_phase m = MAck pid update o caller -> EarnedM (on_ack_answer answer pid update o caller m).
Proof.
  intros HI Hph. unfold on_ack_answer. destruct (answer && _); [|apply earned_plain; [done|apply applied_plain]].
  destruct (earned_ask _ _ _ _ _ HI _ _ _ _ Hph) as (Hpid & Hh & Ht). split; cbn.
  - intros p x [[= -> ->]|Hin]%elem_of_cons; [done|]. by apply (earned_acks _ _ _ _ _ HI).
  - intros x [[Hnil ->]|Hx]%last_cons_Some; [|by apply (earned_first _ _ _ _ _ HI)]. cbn.
    by apply Ht, (earned_ready _ _ _ _ _ HI).
  - done.
  - apply acked_more, HI.
  - intros st next [= <- _] p [= <-]. exists o. by left.
  - intros st frame rest Hl. apply acked_more. by apply (earned_clone _ _ _ _ _ HI _ _ _ Hl).
  - intros run Hr. destruct (lo_current (mo_local m)) as [r|] eqn:Ec; [|done]. injection Hr as <-. cbn. by apply (earned_run _ _ _ _ _ HI).
  - done.
Qed.
Lemma earned_publish_terminal m :
  EarnedM m -> EarnedM (finish_loop native_store core_kind m).
Proof. intros HI. unfold finish_loop. moves HI; by apply acked_other. Qed.

Lemma earned_deadline caller m : EarnedM m -> EarnedM (on_deadline caller m).
Proof. intros HI. unfold on_deadline. destruct (match caller with ByInitial => _ | _ => _ end); moves HI; by destruct caller. Qed.

Lemma earned_event now_ms uuid event m : EarnedM m -> EarnedM (on_event native_store core_kind now_ms uuid event m).
Proof.
  intros HI. destruct event as [pid| |payload|attempt delay| |detail|]; cbn [on_event].
  - moves HI. intros st next [= <- _]. eapply acked_state; [|by apply HI]. done.
  - moves HI.
  - moves HI.
  - moves HI; intros st next [= <- _]; by apply acked_other.
  - unfold diagnostics. moves HI.
    + eapply acked_state; [|by apply HI]. apply flush_state.
    + intros st next [= <- _]. by apply acked_other.
  - moves HI; by apply acked_other.
  - by apply earned_publish_terminal.
Qed.

Lemma earned_poll now_ms uuid arm m :
  EarnedM m -> mo_phase m = MPoll arm -> EarnedM (poll native_store core_kind initial_deadline now_ms uuid arm m).
Proof.
  intros HI Hph. unfold poll.
  assert (EarnedM (with_phase (MPoll (S arm)) m)) as Hnext by moves HI.
  destruct arm as [|[|[|[|[|[|arm]]]]]].
  - destruct (sh_probe_cancel _ && _); [moves HI|done].
  - destruct (mo_events m) as [|event rest]; [destruct (mo_closed m); [by apply earned_publish_terminal|done]|].
    apply earned_event. moves HI.
  - destruct (_ && _); [moves HI|done].
  - destruct (lo_respawn_deadline _); [|done]. case_decide; [moves HI|done].
  - destruct (mo_requests m) as [|request rest]; [done|]. unfold on_request.
    cbn. destruct (match lo_current (mo_local m) with Some run => rn_ready run | None => false end); [destruct (mo_driver m)|]; moves HI.
  - destruct (mo_observations m) as [|o rest]; [done|]. apply earned_apply; [moves HI|]. cbn. rewrite Hph. by split.
  - moves HI.
Qed.

Lemma earned_monitor m m' : EarnedM m -> Monitor_step m m' -> EarnedM m'.
Proof.
  intros HI Hstep. revert HI.
  destruct Hstep as [m0 now_ms uuid arm Hph|m0 caller Hph|m0 status next Hph|m0 answer pid update o caller Hph]; intros HI.
  - by apply earned_poll.
  - unfold on_drain. destruct (mo_observations m0) as [|o rest]; [by apply earned_deadline|].
    apply earned_apply; [moves HI|]. cbn. rewrite Hph. by split.
  - unfold on_write. pose proof (earned_write _ _ _ _ _ HI _ _ Hph) as Hst.
    assert (EarnedM (with_shared (publish_status status) m0)) as HI'.
    { moves HI. eapply acked_state; [|exact Hst]. apply overlay_state. }
    destruct next as [| |pid|caller b]; [moves HI'|moves HI'| |apply earned_plain; [done|apply applied_plain]].
    unfold start_run. cbn. destruct (lo_probes_cancelled _); moves HI'; by intros run [= <-].
  - by apply earned_answer.
Qed.

Lemma earned_task m m' :
  EarnedM m -> task_step native_store core_kind options has_liveness m m' -> EarnedM m'.
Proof.
  intros HI Hstep. revert HI.
  destruct Hstep as [m0 now Hn|m0 event recorded Hc|m0|m0 Hs Hc|m0 stream line at_ Hl|m0 Hl|m0 Hl|m0 frame rest Hl|m0 st frame rest Hl
    |m0 d phase now_ms result Hd Hp Hn|m0 d commands Hd Hc|m0 d request commands now_ms result Hd Hc|m0 request|m0|m0];
    intros HI; try by moves HI.
  - unfold supervisor_event. destruct event, recorded; try by moves HI. destruct native_store; moves HI.
  - unfold process_line. destruct (push_at stream line at_ (sh_parser (mo_shared m0))) as [[frames parser]|]; moves HI.
  - unfold hand_on. destruct (store_failure native_store core_kind frame); moves HI. intros st f r [= <- _ _]. apply HI.
  - unfold hand_on_clone. moves HI. eapply acked_state; [|by apply (earned_clone _ _ _ _ _ HI _ _ _ Hl)]. apply overlay_state.
Qed.

Lemma earned_stop m m' : EarnedM m -> stop_step m m' -> EarnedM m'.
Proof.
  intros HI Hstep. revert HI.
  destruct Hstep as [m0 Hs|m0 Hs|m0 Hs|m0 Hs Ha|m0 Hs|m0 terminal Hs]; intros HI; try by moves HI.
  destruct terminal; [moves HI|]. moves HI; by apply acked_other.
Qed.

Lemma earned_reachable m : reachable m -> EarnedM m.
Proof.
  induction 1 as [now now_ms epoch|m m' _ IH [Hs|[Hs|Hs]]].
  - split; cbn; try (intros; discriminate); try done. by intros pid o Hin%elem_of_nil.
  - by eapply earned_monitor.
  - by eapply earned_task.
  - by eapply earned_stop.
Qed.

(** C18: a running status is earned.  Whenever the published status says
    that a pid is running, the supervisor has accepted a readiness of that pid,
    asked for behind a healthy answer of a probe of that pid; and the first
    readiness an instance ever reported was probed before the startup timeout -
    under every interleaving of the loop with the supervisor, the probes, the
    console output and a stop. *)
Theorem running_is_earned m :
  reachable m ->
  (forall pid, ist_state (sh_status (mo_shared m)) = IRunning pid ->
    exists o, (pid, o) ∈ mo_acked m /\ ob_pid o = pid /\ is_healthy (ob_result o) = true)
  /\ (forall x, last (mo_acked m) = Some x -> ob_completed_at x.2 <= initial_deadline).
Proof.
  intros Hm%earned_reachable. split; [|apply Hm]. intros pid Hp. destruct (earned_status _ _ _ _ _ Hm pid Hp) as (o & Ho).
  exists o. split; [done|]. by apply (earned_acks _ _ _ _ _ Hm).
Qed.

(** ** Nothing becomes ready behind a cancelled probe *)

Definition u64_max : N := u64_modulus - 1.

Record Shut (probe_timeout probe_cancel : bool) (phase : MonitorPhase) (driver : option ProbeDriver)
    (observations : list ProbeObservation) (l : Local) : Prop := {
  shut_observations : forall o, o ∈ observations -> ob_run_id o <= lo_next_run_id l;
  shut_driver : forall d, driver = Some d -> dr_run_id d <= lo_next_run_id l;
  shut_no_driver : lo_probes_cancelled l = true -> driver = None;
  shut_no_question : lo_probes_cancelled l = true -> forall pid u o c, phase <> MAck pid u o c;
  shut_old_run : lo_probes_cancelled l = true -> forall run o, lo_current l = Some run -> o ∈ observations ->
    ob_run_id o < rn_run_id run;
  shut_new_run : lo_probes_cancelled l = true -> forall st pid o, phase = MWrite st (ThenRun pid) -> o ∈ observations ->
    ob_run_id o < lo_next_run_id l;
  shut_timeout : probe_timeout = true ->
    lo_probes_cancelled l = true \/ (phase = MPoll 0 \/ phase = MReturned) /\ probe_cancel = true /\ lo_current l = None
      /\ driver = None;
}.
Definition ShutM (m : Monitor) : Prop :=
  Shut (sh_probe_timeout (mo_shared m)) (sh_probe_cancel (mo_shared m)) (mo_phase m) (mo_driver m) (mo_observations m)
    (mo_local m).
(** The probes are cancelled, or a deadline has cancelled everything. *)
Definition down (m : Monitor) : Prop :=
  lo_probes_cancelled (mo_local m) = true \/ sh_probe_timeout (mo_shared m) = true.

(** What holds wherever the loop is not at the head of its [select!]. *)
Definition Busy (m : Monitor) : Prop :=
  sh_probe_timeout (mo_shared m) = true -> lo_probes_cancelled (mo_local m) = true.
Lemma shut_busy m : ShutM m -> mo_phase m <> MPoll 0 -> mo_phase m <> MReturned -> Busy m.
Proof. intros HI Hp Hr Ht. by destruct (shut_timeout _ _ _ _ _ _ HI Ht) as [?|([?|?] & _)]. Qed.

Lemma run_flags_shared frame s :
  sh_probe_timeout (publish_log_frame native_store core_kind frame s) = sh_probe_timeout s
  /\ sh_probe_cancel (publish_log_frame native_store core_kind frame s) = sh_probe_cancel s.
Proof. unfold publish_log_frame. by destruct (store_failure _ _ _). Qed.
Lemma flush_flags s :
  sh_probe_timeout (flush_log_record native_store core_kind s) = sh_probe_timeout s
  /\ sh_probe_cancel (flush_log_record native_store core_kind s) = sh_probe_cancel s.
Proof.
  unfold flush_log_record. destruct (log_finish (sh_parser s)) as [frames parser].
  change (sh_probe_timeout s) with (sh_probe_timeout (set_parser parser s)).
  change (sh_probe_cancel s) with (sh_probe_cancel (set_parser parser s)). generalize (set_parser parser s).
  induction (flatten frames) as [|f fs IH]; intros t; [done|]. cbn.
  destruct (IH (publish_log_frame native_store core_kind f t)) as [-> ->]. apply run_flags_shared.
Qed.

Ltac shuts HI :=
  let H1 := fresh in let H2 := fresh in let H3 := fresh in let H4 := fresh in
  let H5 := fresh in let H6 := fresh in let H7 := fresh in
  destruct HI as [H1 H2 H3 H4 H5 H6 H7]; split; cbn in *; intros; simplify_eq; try solve [done|discriminate|eauto|tauto].

Lemma shut_plain phase m : ShutM m -> Busy m -> plain phase -> ShutM (with_phase phase m).
Proof. intros HI HB [Hw Ha]. unfold Busy in HB. shuts HI; exfalso; by eapply Hw. Qed.

Lemma shut_apply observation caller m :
  ShutM m -> Busy m -> plain (mo_phase m) ->
  (lo_probes_cancelled (mo_local m) = true -> forall run, lo_current (mo_local m) = Some run ->
    ob_run_id observation < rn_run_id run) ->
  ShutM (apply_observation initial_deadline observation caller m).
Proof.
  intros HI HB Hpl Hold. unfold apply_observation.
  destruct (lo_current (mo_local m)) as [run|] eqn:Er; [|apply shut_plain; [done..|apply applied_plain]].
  destruct (negb (observation_applies observation run) || _) eqn:Eo; [apply shut_plain; [done..|apply applied_plain]|].
  apply orb_false_iff in Eo as [Happ _]. apply negb_false_iff in Happ.
  unfold observation_applies in Happ. apply andb_true_iff in Happ as [Hid%bool_decide_eq_true _].
  destruct (lo_probes_cancelled (mo_local m)) eqn:Ec; [specialize (Hold eq_refl run eq_refl); lia|].
  unfold Busy in HB. rewrite Ec in HB. destruct (observe _ _ _) as [update tracker].
  destruct (negb (rn_ack_attempted run) && _); shuts HI; rewrite ?Ec in *; solve [done|eauto|tauto].
Qed.

Lemma shut_answer answer pid update o caller m :
  ShutM m -> mo_phase m = MAck pid update o caller -> ShutM (on_ack_answer answer pid update o caller m).
Proof.
  intros HI Hph. assert (Busy m) as HB by (apply shut_busy; [done|by rewrite Hph..]).
  unfold on_ack_answer. destruct (answer && _); [|apply shut_plain; [done..|apply applied_plain]].
  assert (lo_probes_cancelled (mo_local m) = false) as Ec.
  { destruct (lo_probes_cancelled _) eqn:Ec; [|done]. by destruct (shut_no_question _ _ _ _ _ _ HI Ec pid update o caller). }
  unfold Busy in HB. rewrite Ec in HB. shuts HI; rewrite ?Ec in *; try solve [done|eauto|tauto].
  destruct (mo_driver m) as [d0|]; [|done]. cbn in *. simplify_eq. cbn. eauto.
Qed.

Lemma shut_deadline caller m : ShutM m -> Busy m -> ShutM (on_deadline caller m).
Proof.
  intros HI HB. unfold on_deadline, Busy in *.
  destruct (match caller with ByInitial => _ | _ => _ end); shuts HI; destruct caller; cbn; solve [done|eauto|tauto].
Qed.

Lemma shut_finish m : ShutM m -> Busy m -> ShutM (finish_loop native_store core_kind m).
Proof.
  intros HI HB. unfold finish_loop, publish_terminal, Busy in *. destruct (flush_flags (mo_shared m)) as [F1 F2].
  shuts HI; rewrite ?F1, ?F2 in *; solve [done|eauto|tauto].
Qed.

Lemma shut_event now_ms uuid event m :
  ShutM m -> Busy m -> plain (mo_phase m) -> lo_next_run_id (mo_local (on_event native_store core_kind now_ms uuid event m)) < u64_max ->
  ShutM (on_event native_store core_kind now_ms uuid event m).
Proof.
  intros HI HB Hpl Hn. unfold Busy in HB. destruct event as [pid| |payload|attempt delay| |detail|]; cbn [on_event] in *.
  - assert (lo_next_run_id (mo_local m) < lo_next_run_id (set_run_id (mo_local m))) as Hs.
    { cbn in Hn |- *. unfold saturating_add, u64_max in *. lia. }
    cbn in Hs. shuts HI; try (specialize (H0 _ ltac:(eassumption)); lia).
  - shuts HI.
  - shuts HI.
  - shuts HI.
  - unfold diagnostics in *. destruct (flush_flags (mo_shared m)) as [F1 F2]. shuts HI; rewrite ?F1, ?F2 in *; tauto.
  - shuts HI.
  - by apply shut_finish.
Qed.

Lemma shut_write status next m :
  ShutM m -> mo_phase m = MWrite status next -> ShutM (on_write options status next m).
Proof.
  intros HI Hph. assert (Busy m) as HB by (apply shut_busy; [done|by rewrite Hph..]).
  assert (ShutM (with_shared (publish_status status) m)) as HI' by shuts HI.
  unfold on_write. destruct next as [| |pid|caller b]; [..|apply shut_plain; [done..|apply applied_plain]];
    unfold Busy in HB; [shuts HI'|shuts HI'|].
  unfold start_run. destruct (lo_probes_cancelled (mo_local m)) eqn:Ec; cbn; rewrite Ec; shuts HI'; rewrite ?Ec in *;
    try solve [done|eauto|tauto|lia].
Qed.
Lemma shut_dequeue o rest m : ShutM m -> mo_observations m = o :: rest -> ShutM (with_observations rest m).
Proof.
  intros [] Eo. rewrite Eo in *. assert (forall x, x ∈ rest -> x ∈ o :: rest) as Hin by (intros x Hx; by right).
  split; cbn; eauto.
Qed.

Lemma shut_request request m : ShutM m -> ShutM (on_request request m).
Proof.
  intros HI. unfold on_request. destruct (match lo_current (mo_local m) with Some run => rn_ready run | None => false end); [|shuts HI].
  destruct (mo_driver m) as [d|] eqn:Ed; [|shuts HI]. shuts HI; rewrite ?Ed in *; try solve [eauto|naive_solver].
Qed.

Lemma shut_poll now_ms uuid arm m :
  let m' := poll native_store core_kind initial_deadline now_ms uuid arm m in
  ShutM m -> mo_phase m = MPoll arm -> lo_next_run_id (mo_local m') < u64_max -> ShutM m'.
Proof.
  cbn zeta. intros HI Hph Hn. destruct (decide (arm = 0%nat)) as [->|Harm].
  { unfold poll in *. destruct (sh_probe_cancel _) eqn:Ep, (lo_probes_cancelled (mo_local m)) eqn:Ec; cbn [andb negb] in *;
      rewrite ?Ep, ?Ec in *; shuts HI; rewrite ?Ep, ?Ec in *; naive_solver. }
  assert (Busy m) as HB by (apply shut_busy; rewrite ?Hph; [done|congruence|done]).
  assert (forall k, ShutM (with_phase (MPoll k) m)) as Hnext by (intros k; apply shut_plain; [done..|by split]).
  unfold poll in *. destruct arm as [|[|[|[|[|[|arm]]]]]]; [done|..].
  - destruct (mo_events m) as [|event rest]; [destruct (mo_closed m); [by apply shut_finish|apply Hnext]|].
    apply shut_event; [shuts HI|done|cbn; rewrite Hph; by split|done].
  - destruct (_ && _); [apply shut_plain; [done..|by split]|apply Hnext].
  - destruct (lo_respawn_deadline _); [|apply Hnext]. case_decide; [apply shut_plain; [done..|by split]|apply Hnext].
  - destruct (mo_requests m) as [|request rest]; [apply Hnext|].
    apply shut_plain; [apply shut_request; shuts HI| |by split]. unfold Busy, on_request in *. cbn.
    destruct (match lo_current (mo_local m) with Some run => rn_ready run | None => false end); [destruct (mo_driver m)|]; done.
  - destruct (mo_observations m) as [|o rest] eqn:Eo; [apply Hnext|].
    apply shut_apply; [|done|cbn; rewrite Hph; by split|].
    + by eapply shut_dequeue.
    + intros Hc run Hr. apply (shut_old_run _ _ _ _ _ _ HI Hc _ _ Hr). rewrite Eo. by left.
  - apply Hnext.
Qed.

Lemma shut_drain caller m : ShutM m -> mo_phase m = MDrain caller -> ShutM (on_drain initial_deadline caller m).
Proof.
  intros HI Hph. assert (Busy m) as HB by (apply shut_busy; [done|by rewrite Hph..]).
  unfold on_drain. destruct (mo_observations m) as [|o rest] eqn:Eo; [by apply shut_deadline|].
  apply shut_apply; [|done|cbn; rewrite Hph; by split|].
  + by eapply shut_dequeue.
  + intros Hc run Hr. apply (shut_old_run _ _ _ _ _ _ HI Hc _ _ Hr). rewrite Eo. by left.
Qed.
(** Whoever finds a driver knows that nothing is cancelled. *)
Lemma shut_driver_there m d :
  ShutM m -> mo_driver m = Some d ->
  lo_probes_cancelled (mo_local m) = false /\ sh_probe_timeout (mo_shared m) = false /\ dr_run_id d <= lo_next_run_id (mo_local m).
Proof.
  intros HI Hd. assert (lo_probes_cancelled (mo_local m) = false) as Hc.
  { destruct (lo_probes_cancelled _) eqn:Ec; [|done]. by rewrite (shut_no_driver _ _ _ _ _ _ HI Ec) in Hd. }
  split; [done|]. split; [|by apply HI]. destruct (sh_probe_timeout _) eqn:Et; [|done].
  destruct (shut_timeout _ _ _ _ _ _ HI Et) as [?|(_ & _ & _ & ?)]; congruence.
Qed.

Lemma shut_driver_step m d d' observations :
  ShutM m -> mo_driver m = Some d -> dr_run_id d' = dr_run_id d ->
  (forall o, o ∈ observations -> o ∈ mo_observations m \/ ob_run_id o = dr_run_id d) ->
  ShutM (with_driver (Some d') (with_observations observations m)).
Proof.
  intros HI Hd Hid Ho. destruct (shut_driver_there _ _ HI Hd) as (Hc & Ht & Hr).
  split; cbn; rewrite ?Hc, ?Ht; try done.
  - intros o [Hin| ->]%Ho; [by apply HI|done].
  - intros x [= <-]. lia.
Qed.

Lemma shut_task m m' : ShutM m -> task_step native_store core_kind options has_liveness m m' -> ShutM m'.
Proof.
  intros HI Hstep. revert HI.
  destruct Hstep as [m0 now Hn|m0 event recorded Hc|m0|m0 Hs Hc|m0 stream line at_ Hl|m0 Hl|m0 Hl|m0 frame rest Hl|m0 st frame rest Hl
    |m0 d phase now_ms result Hd Hp Hn|m0 d commands Hd Hc|m0 d request commands now_ms result Hd Hc|m0 request|m0|m0];
    intros HI; try by shuts HI.
  - unfold supervisor_event. destruct event, recorded; try by shuts HI. destruct native_store; by shuts HI.
  - unfold process_line. destruct (push_at stream line at_ (sh_parser (mo_shared m0))) as [[frames parser]|]; by shuts HI.
  - unfold hand_on. destruct (store_failure native_store core_kind frame); by shuts HI.
  - unfold observe_probe. eapply shut_driver_step; [exact HI|exact Hd|done|].
    intros o [Hin|Hin%list_elem_of_singleton]%elem_of_app; [by left|right]. by subst o.
  - eapply (shut_driver_step m0 d _ (mo_observations m0)); [exact HI|exact Hd|done|]. by left.
  - assert (ShutM (with_driver (Some (driver_wait (dr_next_probe d) (dr_periodic d) commands d))
      (with_observations (mo_observations m0 ++ [run_attempt d Reconcile (mo_now m0) now_ms result]) m0))) as HI'.
    { eapply shut_driver_step; [exact HI|exact Hd|done|].
      intros o [Hin|Hin%list_elem_of_singleton]%elem_of_app; [by left|right]. by subst o. }
    destruct HI'. by split.
Qed.

Lemma shut_stop m m' : ShutM m -> stop_step m m' -> ShutM m'.
Proof.
  intros HI Hstep. revert HI.
  destruct Hstep as [m0 Hs|m0 Hs|m0 Hs|m0 Hs Ha|m0 Hs|m0 terminal Hs]; intros HI; try by shuts HI.
  destruct terminal; by shuts HI.
Qed.

(** What every step keeps: run numbers only grow, a cancelled probe stays
    cancelled, and only an answer of the supervisor is a new readiness. *)
Definition Kept (m m' : Monitor) : Prop :=
  lo_next_run_id (mo_local m) <= lo_next_run_id (mo_local m') <= N.max u64_max (lo_next_run_id (mo_local m))
  /\ (down m -> down m') /\ mo_acked m' = mo_acked m.

Lemma kept_same m m' :
  lo_next_run_id (mo_local m') = lo_next_run_id (mo_local m) ->
  lo_probes_cancelled (mo_local m') = lo_probes_cancelled (mo_local m) ->
  (sh_probe_timeout (mo_shared m) = true -> sh_probe_timeout (mo_shared m') = true) -> mo_acked m' = mo_acked m -> Kept m m'.
Proof. intros Hn Hc Ht Ha. split; [lia|]. split; [|done]. unfold down. rewrite Hc. intros [?|?]; [by left|right; auto]. Qed.
Lemma kept_trans m1 m2 m3 : Kept m1 m2 -> Kept m2 m3 -> Kept m1 m3.
Proof. intros (? & ? & ?) (? & ? & ?). split; [lia|]. split; [auto|congruence]. Qed.
Lemma kept_phase phase m : Kept m (with_phase phase m).
Proof. by apply kept_same. Qed.

Lemma kept_apply o caller m : Kept m (apply_observation initial_deadline o caller m).
Proof.
  unfold apply_observation. destruct (lo_current _); [|apply kept_phase]. destruct (_ || _); [apply kept_phase|].
  destruct (observe _ _ _). destruct (_ && _); by apply kept_same.
Qed.
Lemma kept_finish m : Kept m (finish_loop native_store core_kind m).
Proof. apply kept_same; try done. intros Ht. rewrite <- (proj1 (flush_flags (mo_shared m))) in Ht. exact Ht. Qed.
Lemma kept_deadline caller m : Kept m (on_deadline caller m).
Proof. unfold on_deadline. destruct (match caller with ByInitial => _ | _ => _ end); [|apply kept_phase]. destruct caller; by apply kept_same. Qed.

Lemma kept_event now_ms uuid event m :
  lo_next_run_id (mo_local m) <= u64_max -> Kept m (on_event native_store core_kind now_ms uuid event m).
Proof.
  intros Hn. destruct event; cbn [on_event]; try by apply kept_same.
  - split; [cbn; unfold saturating_add, u64_max in *; lia|]. by split.
  - unfold diagnostics. apply kept_same; try done. intros Ht. rewrite <- (proj1 (flush_flags (mo_shared m))) in Ht. exact Ht.
  - apply kept_finish.
Qed.

Lemma kept_poll now_ms uuid arm m :
  lo_next_run_id (mo_local m) <= u64_max -> Kept m (poll native_store core_kind initial_deadline now_ms uuid arm m).
Proof.
  intros Hn. unfold poll. destruct arm as [|[|[|[|[|[|arm]]]]]]; [..|apply kept_phase].
  - destruct (_ && _); [|apply kept_phase]. split; [cbn; lia|]. split; [|done]. intros _. by left.
  - destruct (mo_events m) as [|event rest]; [destruct (mo_closed m); [apply kept_finish|apply kept_phase]|].
    eapply kept_trans; [|apply kept_event; exact Hn]. by apply kept_same.
  - destruct (_ && _); apply kept_phase.
  - destruct (lo_respawn_deadline _); [case_decide|]; apply kept_phase.
  - destruct (mo_requests m); [apply kept_phase|]. unfold on_request. cbn.
    destruct (match lo_current (mo_local m) with Some run => rn_ready run | None => false end); [destruct (mo_driver m)|]; by apply kept_same.
  - destruct (mo_observations m) as [|o rest]; [apply kept_phase|]. eapply kept_trans; [|apply kept_apply]. by apply kept_same.
Qed.

Lemma kept_monitor m m' :
  lo_next_run_id (mo_local m) <= u64_max -> Monitor_step m m' ->
  Kept m m' \/ exists pid update o caller, mo_phase m = MAck pid update o caller
    /\ lo_next_run_id (mo_local m') = lo_next_run_id (mo_local m).
Proof.
  intros Hn Hstep. revert Hn.
  destruct Hstep as [m0 now_ms uuid arm Hph|m0 caller Hph|m0 status next Hph|m0 answer pid update o caller Hph]; intros Hn.
  - left. by apply kept_poll.
  - left. unfold on_drain. destruct (mo_observations m0) as [|o rest]; [apply kept_deadline|].
    eapply kept_trans; [|apply kept_apply]. by apply kept_same.
  - left. unfold on_write. destruct next as [| |pid|caller b]; try by apply kept_same.
    unfold start_run. cbn. destruct (lo_probes_cancelled _); by apply kept_same.
  - right. exists pid, update, o, caller. split; [done|]. unfold on_ack_answer. by destruct (_ && _).
Qed.

Lemma kept_task m m' : task_step native_store core_kind options has_liveness m m' -> Kept m m'.
Proof.
  intros [m0 now Hn|m0 event recorded Hc|m0|m0 Hs Hc|m0 stream line at_ Hl|m0 Hl|m0 Hl|m0 frame rest Hl|m0 st frame rest Hl
    |m0 d phase now_ms result Hd Hp Hn|m0 d commands Hd Hc|m0 d request commands now_ms result Hd Hc|m0 request|m0|m0];
    try by apply kept_same.
  - unfold supervisor_event. destruct event, recorded; try by apply kept_same. destruct native_store; by apply kept_same.
  - unfold process_line. destruct (push_at stream line at_ (sh_parser (mo_shared m0))) as [[frames parser]|]; by apply kept_same.
  - unfold hand_on. destruct (store_failure native_store core_kind frame); by apply kept_same.
Qed.

Lemma kept_stop m m' : stop_step m m' -> Kept m m'.
Proof. intros [m0 Hs|m0 Hs|m0 Hs|m0 Hs Ha|m0 Hs|m0 terminal Hs]; try by apply kept_same. destruct terminal; by apply kept_same. Qed.

Lemma kept_step m m' :
  lo_next_run_id (mo_local m) <= u64_max -> step m m' ->
  lo_next_run_id (mo_local m) <= lo_next_run_id (mo_local m') <= u64_max /\ (ShutM m -> down m -> Kept m m').
Proof.
  intros Hn [Hs|[Hs|Hs]].
  - destruct (kept_monitor _ _ Hn Hs) as [Hk|(pid & update & o & caller & Hph & He)]; [split; [destruct Hk; lia|done]|].
    split; [lia|]. intros HI [Hc|Ht]; exfalso; [by apply (shut_no_question _ _ _ _ _ _ HI Hc pid update o caller)|].
    destruct (shut_timeout _ _ _ _ _ _ HI Ht) as [Hc|([?|?] & _)]; [|congruence..].
    by apply (shut_no_question _ _ _ _ _ _ HI Hc pid update o caller).
  - apply kept_task in Hs. split; [destruct Hs; lia|done].
  - apply kept_stop in Hs. split; [destruct Hs; lia|done].
Qed.

Lemma shut_step m m' :
  lo_next_run_id (mo_local m') < u64_max -> ShutM m -> step m m' -> ShutM m'.
Proof.
  intros Hn HI [Hs|[Hs|Hs]]; [|by eapply shut_task|by eapply shut_stop]. revert Hn HI.
  destruct Hs as [m0 now_ms uuid arm Hph|m0 caller Hph|m0 status next Hph|m0 answer pid update o caller Hph]; intros Hn HI.
  - by apply shut_poll.
  - by apply shut_drain.
  - by apply shut_write.
  - by apply shut_answer.
Qed.

Lemma reachable_bound m : reachable m -> lo_next_run_id (mo_local m) <= u64_max.
Proof. induction 1 as [now now_ms epoch|m m' _ IH Hs]; [done|]. by apply (kept_step _ _ IH Hs). Qed.

Lemma shut_reachable m : reachable m -> lo_next_run_id (mo_local m) < u64_max -> ShutM m.
Proof.
  induction 1 as [now now_ms epoch|m m' Hr IH Hs]; intros Hn.
  - split; cbn; try (intros; discriminate); try done. by intros o Hin%elem_of_nil.
  - eapply shut_step; [done| |exact Hs]. apply IH. destruct (kept_step _ _ (reachable_bound _ Hr) Hs) as [? _]. lia.
Qed.

Lemma reachable_later m m' : reachable m -> rtc step m m' ->
  reachable m' /\ lo_next_run_id (mo_local m) <= lo_next_run_id (mo_local m').
Proof.
  intros Hr Hs. revert Hr. induction Hs as [m|m m1 m' Hs1 Hs IH]; intros Hr; [done|].
  destruct (kept_step _ _ (reachable_bound _ Hr) Hs1) as [? _].
  destruct (IH (mo_reach_step _ _ _ _ _ _ _ Hr Hs1)) as [? ?]. split; [done|lia].
Qed.

(** Nothing becomes ready behind a cancelled probe.  Once the loop has
    taken note of a cancellation, or a deadline has passed without readiness,
    the instance never reports a readiness again, whatever answers of probes
    are still on their way and whatever processes the supervisor still starts -
    unless it has started as many as there are run numbers. *)
Theorem nothing_is_ready_behind_cancel m m' :
  reachable m -> down m -> rtc step m m' -> lo_next_run_id (mo_local m') < u64_max -> mo_acked m' = mo_acked m.
Proof.
  intros Hr Hd Hs Hn. revert Hr Hd Hn. induction Hs as [m|m m1 m' Hs1 Hs IH]; intros Hr Hd Hn; [done|].
  pose proof (mo_reach_step _ _ _ _ _ _ _ Hr Hs1) as Hr1.
  destruct (kept_step _ _ (reachable_bound _ Hr) Hs1) as [Hle Hk]. destruct (reachable_later _ _ Hr1 Hs) as [_ Hle'].
  destruct Hk as (_ & Hd1 & Ha); [apply shut_reachable; [done|lia]|done|]. rewrite <- Ha. by apply IH; auto.
Qed.

(** ** The startup is bounded *)

(** The loop is at work on the answers that arrived before the deadline. *)
Definition draining (m : Monitor) : Prop :=
  match mo_phase m with
  | MDrain ByInitial | MAck _ _ _ ByInitial | MWrite _ (ThenApplied ByInitial false) => lo_ever_ready (mo_local m) = false
  | MWrite _ (ThenApplied ByInitial true) => lo_ever_ready (mo_local m) = true
  | _ => False
  end.
Definition drain_measure (m : Monitor) : nat :=
  (3 * length (mo_observations m) + match mo_phase m with MAck _ _ _ _ => 2 | MWrite _ _ => 1 | _ => 0 end)%nat.
(** It went ready, or the supervisor is told to end the process. *)
Definition settled (m : Monitor) : Prop :=
  mo_phase m = MPoll 0
  /\ (lo_ever_ready (mo_local m) = true
      \/ lo_timeout_fired (mo_local m) = true /\ sh_cancel (mo_shared m) = true /\ sh_probe_cancel (mo_shared m) = true
         /\ sh_probe_timeout (mo_shared m) = true /\ mo_driver m = None).

Lemma apply_drains o m :
  lo_ever_ready (mo_local m) = false ->
  let m' := apply_observation initial_deadline o ByInitial m in
  draining m' /\ (drain_measure m' <= 3 * length (mo_observations m) + 2)%nat.
Proof.
  intros Hr. unfold apply_observation, draining, drain_measure. destruct (lo_current _); [|cbn; rewrite Hr; split; [done|lia]].
  destruct (_ || _); [cbn; rewrite Hr; split; [done|lia]|]. destruct (observe _ _ _). destruct (_ && _); cbn; rewrite Hr; split; done || lia.
Qed.

(** C19: the startup is bounded.  From the moment the loop looks at the
    startup deadline of an instance that was never ready, every step it can
    make brings it closer to a decision, and it can always make one: the
    instance is ready, or the probes and the supervisor are cancelled and the
    timeout is on record. *)
Theorem startup_is_bounded m :
  draining m ->
  (exists m', Monitor_step m m')
  /\ forall m', Monitor_step m m' -> settled m' \/ draining m' /\ (drain_measure m' < drain_measure m)%nat.
Proof.
  intros Hd. split.
  { unfold draining in Hd. destruct (mo_phase m) as [arm|st next|pid u o c|c|] eqn:Hph; try done.
    - eexists. by eapply monitor_write.
    - eexists. by eapply (monitor_ack _ _ _ _ m false).
    - eexists. by eapply monitor_drain. }
  intros m' Hs. revert Hd.
  destruct Hs as [m now_ms uuid arm Hph|m caller Hph|m status next Hph|m answer pid update o caller Hph];
    unfold draining at 1; rewrite Hph; [done|..].
  - destruct caller; [done| |done]. intros Hr. unfold on_drain, drain_measure at 2. rewrite Hph.
    destruct (mo_observations m) as [|o rest] eqn:Eo.
    + left. unfold on_deadline. rewrite Hr. cbn. split; [done|]. right. by repeat split.
    + right. destruct (apply_drains o (with_observations rest m) Hr) as [Hd Hm]. split; [done|]. cbn in Hm |- *. lia.
  - destruct next as [| |pid|[] b]; try done. unfold drain_measure at 2. rewrite Hph. destruct b; intros Hr.
    + left. cbn. split; [done|by left].
    + right. unfold draining, drain_measure. cbn. rewrite Hr. split; [done|lia].
  - destruct caller; try done. intros Hr. right. unfold drain_measure at 2. rewrite Hph. unfold on_ack_answer, draining, drain_measure.
    destruct (_ && _); cbn; rewrite ?Hr; split; done || lia.
Qed.

(** ** The end *)

(** What the end may say. *)
Definition Verdict (user_stop : bool) (last_exit : option TerminatedPayload) (status : InstanceStatus) : Prop :=
  exists reason, status = {| ist_instance_id := None; ist_state := IStopped reason; ist_health := None |}
    /\ (reason = User -> user_stop = true)
    /\ (reason = Finished -> exists payload, last_exit = Some payload /\ clean_exit payload = true).
Definition Ending (m : Monitor) : Prop :=
  forall st, mo_phase m = MWrite st ThenReturn -> exists text,
    st = {| ist_instance_id := None; ist_state := IStopped (StopError text); ist_health := None |}.

Lemma ending_phase m : (forall st, mo_phase m <> MWrite st ThenReturn) -> Ending m.
Proof. intros Hp st Hs. by destruct (Hp st). Qed.

Lemma ending_apply o caller m : Ending (apply_observation initial_deadline o caller m).
Proof.
  apply ending_phase. intros st. unfold apply_observation.
  destruct (lo_current _); [|by destruct caller]. destruct (_ || _); [by destruct caller|].
  destruct (observe _ _ _). by destruct (_ && _).
Qed.

Lemma apply_goes_on o caller m : mo_phase (apply_observation initial_deadline o caller m) <> MReturned.
Proof.
  unfold apply_observation. destruct (lo_current _); [|by destruct caller]. destruct (_ || _); [by destruct caller|].
  destruct (observe _ _ _). by destruct (_ && _).
Qed.

Lemma ending_poll now_ms uuid arm m : Ending (poll native_store core_kind initial_deadline now_ms uuid arm m).
Proof.
  unfold poll. destruct arm as [|[|[|[|[|[|arm]]]]]]; [..|by apply ending_phase].
  - by destruct (_ && _).
  - destruct (mo_events m) as [|event rest]; [by destruct (mo_closed m)|]. destruct event; try by apply ending_phase.
    cbn [on_event]. destruct (diagnostics _ _ _) as [text shared]. intros st [= <-]. by eexists.
  - by destruct (_ && _).
  - destruct (lo_respawn_deadline _); [by case_decide|done].
  - by destruct (mo_requests m).
  - destruct (mo_observations m); [done|apply ending_apply].
Qed.

Lemma ending_reachable m : reachable m -> Ending m.
Proof.
  induction 1 as [now now_ms epoch|m m' _ IH [Hs|[Hs|Hs]]]; [done|..].
  - clear IH. destruct Hs as [m now_ms uuid arm Hph|m caller Hph|m status next Hph|m answer pid update o caller Hph].
    + apply ending_poll.
    + unfold on_drain. destruct (mo_observations m); [|apply ending_apply]. unfold on_deadline.
      by destruct (match caller with ByInitial => _ | _ => _ end).
    + apply ending_phase. intros st. unfold on_write. by destruct next as [| |pid|[] []]; try done; unfold start_run; cbn; destruct (lo_probes_cancelled _).
    + apply ending_phase. intros st. unfold on_ack_answer. destruct (_ && _); [done|]. by destruct caller.
  - revert IH. destruct Hs as [m now Hn|m event recorded Hc|m|m Hs Hc|m stream line at_ Hl|m Hl|m Hl|m frame rest Hl|m st frame rest Hl
    |m d phase now_ms result Hd Hp Hn|m d commands Hd Hc|m d request commands now_ms result Hd Hc|m request|m|m]; intros IH; try exact IH.
    + unfold supervisor_event. destruct event, recorded; try exact IH. destruct native_store; exact IH.
    + unfold process_line. destruct (push_at stream line at_ (sh_parser (mo_shared m))) as [[frames parser]|]; exact IH.
    + unfold hand_on. destruct (store_failure native_store core_kind frame); exact IH.
  - revert IH. destruct Hs as [m Hs|m Hs|m Hs|m Hs Ha|m Hs|m terminal Hs]; intros IH; try exact IH; [done|].
    destruct terminal; exact IH.
Qed.

Lemma finish_verdict m :
  Verdict (sh_user_stop (mo_shared m)) (lo_last_exit (mo_local m)) (sh_status (mo_shared (finish_loop native_store core_kind m))).
Proof.
  exists (terminal_reason (lo_last_exit (mo_local m)) (flush_log_record native_store core_kind (mo_shared m))).
  split; [reflexivity|]. set (s := flush_log_record native_store core_kind (mo_shared m)).
  assert (sh_user_stop s = sh_user_stop (mo_shared m)) as Hu.
  { subst s. unfold flush_log_record. destruct (log_finish (sh_parser (mo_shared m))) as [frames parser].
    change (sh_user_stop (mo_shared m)) with (sh_user_stop (set_parser parser (mo_shared m))). generalize (set_parser parser (mo_shared m)).
    induction (flatten frames) as [|f fs IH]; intros t; [done|]. cbn. rewrite IH. unfold publish_log_frame. by destruct (store_failure native_store core_kind f). }
  unfold terminal_reason. rewrite Hu. destruct (sh_user_stop (mo_shared m)); [by split|].
  destruct (sh_probe_timeout s); [by split|]. destruct (lo_last_exit (mo_local m)) as [p|]; [|by split].
  destruct (clean_exit p) eqn:Ec; [|by split]. split; [done|]. intros _. by exists p.
Qed.

(** The end is told truthfully.  A loop that returns leaves a terminal
    status, without a process and without a health; it says that the user
    stopped the instance only when a stop was asked for, and that the process
    finished only behind an exit with code 0. *)
Theorem the_end_is_told m m' :
  reachable m -> Monitor_step m m' -> mo_phase m' = MReturned ->
  Verdict (sh_user_stop (mo_shared m)) (lo_last_exit (mo_local m)) (sh_status (mo_shared m')).
Proof.
  intros Hr%ending_reachable Hs. revert Hr.
  destruct Hs as [m now_ms uuid arm Hph|m caller Hph|m status next Hph|m answer pid update o caller Hph]; intros Hr Hret.
  - unfold poll in *. destruct arm as [|[|[|[|[|[|arm]]]]]]; try done.
    + by destruct (_ && _).
    + destruct (mo_events m) as [|event rest]; [destruct (mo_closed m); [apply finish_verdict|done]|].
      destruct event; try done; [|apply (finish_verdict (with_events rest (mo_closed m) m))]. by eexists.
    + by destruct (_ && _).
    + destruct (lo_respawn_deadline _); [destruct (decide _) in Hret; done|done].
    + by destruct (mo_requests m).
    + destruct (mo_observations m); [done|]. by apply apply_goes_on in Hret.
  - unfold on_drain in Hret. destruct (mo_observations m); [|by apply apply_goes_on in Hret].
    unfold on_deadline in Hret. by destruct (match caller with ByInitial => _ | _ => _ end).
  - unfold on_write in *. destruct next as [| |pid|[] []]; try done.
    destruct (Hr _ Hph) as (text & ->). cbn. by eexists.
  - unfold on_ack_answer in Hret. destruct (_ && _); [done|]. by destruct caller.
Qed.

End Safety.
