(* ===== verification/MonitorRuns.v ===== *)
(** * Runs of the monitor

    Concrete histories of [Monitor.v]: the witnesses of the theorems of
    [MonitorSafety.v], and three histories that show what the code does not
    promise. *)

From stdpp Require Import relations.
From S2P Require Export MonitorSafety.
Open Scope rust_scope.

(** ** A way to run the loop *)

Section Runs.
Context `{Chrono} (native_store : bool) (core_kind : CoreKind).
Context (options : InstanceOptions) (initial_deadline : Instant) (has_liveness : bool).

Notation reachable := (mo_reachable native_store core_kind options initial_deadline has_liveness).

(** The step of the loop, the supervisor accepting every readiness. *)
Definition advance (m : Monitor) : Monitor :=
  match mo_phase m with
  | MPoll arm => poll native_store core_kind initial_deadline 0 9 arm m
  | MDrain caller => on_drain initial_deadline caller m
  | MWrite status next => on_write options status next m
  | MAck pid update observation caller => on_ack_answer true pid update observation caller m
  | MReturned => m
  end.

Lemma advance_step m :
  advance m = m \/ mo_step native_store core_kind options initial_deadline has_liveness m (advance m).
Proof.
  unfold advance. destruct (mo_phase m) eqn:Hph; [..|by left]; right; left; by constructor.
Qed.
Lemma advance_moves m :
  match mo_phase m with MReturned => false | _ => true end = true ->
  monitor_step native_store core_kind options initial_deadline m (Nat.iter 1 advance m).
Proof.
  change (Nat.iter 1 advance m) with (advance m). unfold advance. destruct (mo_phase m) eqn:Hph; [..|done]; intros _; by constructor.
Qed.
Lemma advance_rtc n m : rtc (mo_step native_store core_kind options initial_deadline has_liveness) m (Nat.iter n advance m).
Proof.
  induction n as [|n IH]; [apply rtc_refl|]. change (Nat.iter (S n) advance m) with (advance (Nat.iter n advance m)).
  destruct (advance_step (Nat.iter n advance m)) as [->|Hs]; [done|by eapply rtc_r].
Qed.
Lemma advance_reachable n m : reachable m -> reachable (Nat.iter n advance m).
Proof. intros Hm. by apply (reachable_later _ _ _ _ _ _ _ Hm (advance_rtc n m)). Qed.

Lemma task_reachable m m' : task_step native_store core_kind options has_liveness m m' -> reachable m -> reachable m'.
Proof. intros Hs Hr. eapply mo_reach_step; [exact Hr|]. right. by left. Qed.
Lemma stop_reachable m m' : stop_step m m' -> reachable m -> reachable m'.
Proof. intros Hs Hr. eapply mo_reach_step; [exact Hr|]. right. by right. Qed.

Lemma stop_look_open m :
  mo_stop m = StFlagged -> is_terminal (ist_state (sh_status (mo_shared m))) = false -> stop_step m (with_stop StLooked m).
Proof. intros Hs Ht. pose proof (stop_look m Hs) as Hl. by rewrite Ht in Hl. Qed.

Definition probe_answers (result : ProbeResult) (m : Monitor) : Monitor :=
  match mo_driver m with
  | Some d =>
      with_driver (Some (driver_wait (mo_now m + probe_interval options) (dr_periodic d) (dr_commands d) d))
        (observe_probe (run_attempt d (default Readiness (dr_periodic d)) (mo_now m) 0 result) m)
  | None => m
  end.
Lemma probe_reachable result m :
  match mo_driver m with
  | Some d => bool_decide (dr_next_probe d <= mo_now m) && bool_decide (is_Some (dr_periodic d))
  | None => true
  end = true ->
  reachable m -> reachable (probe_answers result m).
Proof.
  unfold probe_answers. destruct (mo_driver m) as [d|] eqn:Ed; [|done].
  intros [Hn%bool_decide_eq_true [phase Hp]%bool_decide_eq_true]%andb_true_iff.
  apply task_reachable. rewrite Hp. by apply (task_probe _ _ _ _ _ d phase).
Qed.

End Runs.

Definition demo_instance : InstanceOptions :=
  {| io_local_ipc := None; io_startup_timeout := duration_from_secs 10; io_health := HealthPolicy_default;
     io_restart_policy := so_policy SupervisorOptions_default; io_backoff := so_backoff SupervisorOptions_default |}.
Definition demo_deadline : Instant := duration_from_secs 10.
Notation demo_reachable := (@mo_reachable demo_chrono false Mihomo demo_instance demo_deadline true).
Notation demo_advance n := (Nat.iter n (@advance demo_chrono false Mihomo demo_instance demo_deadline)).

(** A process starts, its first probe is healthy, and the loop publishes it. *)
Definition demo_begin : @Monitor demo_chrono := @monitor_initial demo_chrono Mihomo 0 0 1.
Definition demo_started : @Monitor demo_chrono :=
  demo_advance 3 (@supervisor_event demo_chrono false (SvStarted 7) (Ok tt) demo_begin).
Definition demo_running : @Monitor demo_chrono :=
  demo_advance 8 (@probe_answers demo_chrono demo_instance ProbeHealthy demo_started).

Lemma demo_started_reachable : demo_reachable demo_started.
Proof.
  apply advance_reachable. eapply task_reachable; [by apply task_event|]. apply mo_reach_initial.
Qed.
Lemma history_running_reachable : demo_reachable demo_running.
Proof. apply advance_reachable, probe_reachable; [vm_compute; reflexivity|apply demo_started_reachable]. Qed.

Lemma running_is_earned_witness :
  ist_state (sh_status (mo_shared demo_running)) = IRunning 7 /\
  (forall pid, ist_state (sh_status (mo_shared demo_running)) = IRunning pid ->
    exists o, (pid, o) ∈ mo_acked demo_running /\ ob_pid o = pid /\ is_healthy (ob_result o) = true)
  /\ (forall x, last (mo_acked demo_running) = Some x -> ob_completed_at x.2 <= demo_deadline).
Proof.
  split; [vm_compute; reflexivity|].
  apply (@running_is_earned demo_chrono false Mihomo demo_instance demo_deadline true demo_running), history_running_reachable.
Defined.

(** A stop cancels the probes; an answer that was on its way changes nothing. *)
Definition demo_stopping : @Monitor demo_chrono :=
  demo_advance 1 (with_stop StFlagged (with_shared stop_flags (@probe_answers demo_chrono demo_instance ProbeHealthy demo_started))).
Definition demo_stopped : @Monitor demo_chrono := demo_advance 7 demo_stopping.

Lemma demo_stopping_reachable : demo_reachable demo_stopping.
Proof.
  apply advance_reachable. eapply stop_reachable; [by apply stop_begin|].
  apply probe_reachable; [vm_compute; reflexivity|apply demo_started_reachable].
Qed.

Lemma nothing_is_ready_behind_cancel_witness :
  length (mo_observations demo_stopping) = 1%nat /\ mo_observations demo_stopped = [] /\ mo_acked demo_stopped = mo_acked demo_stopping.
Proof.
  split; [vm_compute; reflexivity|]. split; [vm_compute; reflexivity|].
  apply (@nothing_is_ready_behind_cancel demo_chrono false Mihomo demo_instance demo_deadline true).
  - apply demo_stopping_reachable.
  - left. vm_compute. reflexivity.
  - apply advance_rtc.
  - vm_compute. reflexivity.
Defined.

(** ** The deadline and the end *)

(** No probe answers, and the deadline passes. *)
Definition demo_late : @Monitor demo_chrono := demo_advance 3 (with_now demo_deadline demo_started).

Lemma startup_is_bounded_witness :
  draining demo_late /\
  (exists m', @monitor_step demo_chrono false Mihomo demo_instance demo_deadline demo_late m')
  /\ forall m', @monitor_step demo_chrono false Mihomo demo_instance demo_deadline demo_late m' ->
       settled m' \/ draining m' /\ (drain_measure m' < drain_measure demo_late)%nat.
Proof.
  assert (draining demo_late) as Hd by (vm_compute; reflexivity). split; [exact Hd|].
  apply (@startup_is_bounded demo_chrono false Mihomo demo_instance demo_deadline demo_late Hd).
Defined.

(** The supervisor reports the end of the process behind a clean exit. *)
Definition clean : TerminatedPayload := {| tp_code := Some 0%Z; tp_signal := None |}.
Definition demo_exited : @Monitor demo_chrono :=
  demo_advance 3 (@supervisor_event demo_chrono false SvStopped (Ok tt)
    (@supervisor_event demo_chrono false (SvExited clean) (Ok tt) demo_running)).

Lemma history_exited_reachable : demo_reachable demo_exited.
Proof.
  apply advance_reachable. eapply task_reachable; [apply task_event; vm_compute; reflexivity|].
  eapply task_reachable; [apply task_event; vm_compute; reflexivity|]. apply history_running_reachable.
Qed.

Lemma the_end_is_told_witness :
  ist_state (sh_status (mo_shared (demo_advance 1 demo_exited))) = IStopped Finished /\
  Verdict (sh_user_stop (mo_shared demo_exited)) (lo_last_exit (mo_local demo_exited))
    (sh_status (mo_shared (demo_advance 1 demo_exited))).
Proof.
  split; [vm_compute; reflexivity|].
  apply (@the_end_is_told demo_chrono false Mihomo demo_instance demo_deadline true demo_exited).
  - apply history_exited_reachable.
  - apply advance_moves. vm_compute. reflexivity.
  - vm_compute. reflexivity.
Defined.

(** ** What is not promised *)

(** The look of a stop at the status and its publication are two steps: the end
    of the process may be published between them, and then the last status of
    the instance is [Stopping]. *)
Definition demo_overtaken : @Monitor demo_chrono :=
  with_stop StTake (with_shared (publish_state IStopping)
    (demo_advance 3 (with_stop StLooked (with_stop StFlagged (with_shared stop_flags
      (@supervisor_event demo_chrono false SvStopped (Ok tt) demo_running)))))).

Lemma stop_overtakes_the_end :
  demo_reachable demo_overtaken /\ mo_phase demo_overtaken = MReturned
  /\ ist_state (sh_status (mo_shared demo_overtaken)) = IStopping.
Proof.
  split; [|vm_compute; by split].
  eapply stop_reachable; [apply stop_publish; vm_compute; reflexivity|]. apply advance_reachable.
  eapply stop_reachable.
  { apply (stop_look_open (with_stop StFlagged (with_shared stop_flags
      (@supervisor_event demo_chrono false SvStopped (Ok tt) demo_running)))); vm_compute; reflexivity. }
  eapply stop_reachable; [apply stop_begin; vm_compute; reflexivity|].
  eapply task_reachable; [apply task_event; vm_compute; reflexivity|]. apply history_running_reachable.
Qed.

(** With a leased native store, a console line about its cache publishes a copy
    of the status.  A readiness published between the copy and its publication
    is lost: the loop has gone ready, the status says starting, and every later
    probe repeats what the status says. *)
Definition cache_line : string :=
  print_logfmt [(false, ("time", "0")); (false, ("level", "warning")); (true, ("msg", "[CacheFile] can't open cache"))].
Notation store_advance n := (Nat.iter n (@advance demo_chrono true Mihomo demo_instance demo_deadline)).
Definition demo_copied : @Monitor demo_chrono :=
  let m := store_advance 3 (@supervisor_event demo_chrono true (SvStarted 7) (Ok tt) demo_begin) in
  let m := @process_line demo_chrono Stdout cache_line demo_observed m in
  match mo_log m with
  | LFrames (frame :: rest) => @hand_on demo_chrono true Mihomo frame rest m
  | _ => m
  end.
Definition demo_ready : @Monitor demo_chrono := store_advance 8 (@probe_answers demo_chrono demo_instance ProbeHealthy demo_copied).
Definition demo_lost : @Monitor demo_chrono :=
  match mo_log demo_ready with
  | LClone status frame rest => @hand_on_clone demo_chrono status frame rest demo_ready
  | _ => demo_ready
  end.

Lemma readiness_is_overwritten :
  @mo_reachable demo_chrono true Mihomo demo_instance demo_deadline true demo_lost
  /\ ist_state (sh_status (mo_shared demo_ready)) = IRunning 7
  /\ lo_ever_ready (mo_local demo_lost) = true /\ ist_state (sh_status (mo_shared demo_lost)) = IStarting.
Proof.
  split; [|vm_compute; by repeat split].
  assert (@mo_reachable demo_chrono true Mihomo demo_instance demo_deadline true demo_ready) as Hready.
  { apply advance_reachable, probe_reachable; [vm_compute; reflexivity|]. unfold demo_copied.
    set (m := store_advance 3 _). set (m' := @process_line demo_chrono Stdout cache_line demo_observed m).
    assert (@mo_reachable demo_chrono true Mihomo demo_instance demo_deadline true m') as Hm.
    { eapply task_reachable; [apply task_line; vm_compute; reflexivity|]. apply advance_reachable.
      eapply task_reachable; [by apply task_event|]. apply mo_reach_initial. }
    cbv zeta. destruct (mo_log m') as [|[|frame rest]| |] eqn:El; [exact Hm|exact Hm| |exact Hm|exact Hm].
    eapply task_reachable; [by apply task_frame|exact Hm]. }
  unfold demo_lost. destruct (mo_log demo_ready) as [| |status frame rest|] eqn:El;
    [exact Hready|exact Hready| |exact Hready].
  eapply task_reachable; [by apply task_clone|exact Hready].
Qed.

(** A preparation that fails ends the loop without releasing the record the
    parser still holds. *)
Lemma failed_preparation_keeps_the_record `{Chrono} native_store core_kind now_ms uuid detail m :
  let m' := on_event native_store core_kind now_ms uuid (SvPreparationFailed detail) m in
  mo_phase m' = MReturned /\ sh_parser (mo_shared m') = sh_parser (mo_shared m) /\ sh_sent (mo_shared m') = sh_sent (mo_shared m).
Proof. by repeat split. Qed.
