(* ===== verification/Instance.v ===== *)
(** * One epoch of a core: its command, its start and its stop

    [instance.rs] around the monitor: the command line an instance is launched
    with, the checks and the failure path of [spawn_configured], what
    [wait_ready] and [probe_now] answer, and [stop_and_confirm_dead] with
    what its success rests on. *)

From S2P Require Export Kind Monitor PidDeath.
Open Scope rust_scope.
Open Scope act_scope.

(** ** The command *)

Definition epoch_pid_path (spec : InstanceSpec) (epoch : N) : option string :=
  pid_file ← is_pid_file spec;
  let expected_pid := "core-" +:+ show_N epoch +:+ ".pid" in
  let expected_config := "config-" +:+ show_N epoch +:+ ".yaml" in
  if bool_decide (file_name pid_file = Some expected_pid)
     && bool_decide (file_name (is_config_path spec) = Some expected_config)
     && match parent pid_file, parent (is_config_path spec) with
        | Some p, Some q => path_eq p q
        | None, None => true
        | _, _ => false
        end
  then Some pid_file else None.

Definition build_command (spec : InstanceSpec) (epoch : N) (controller : ResolvedController)
    (source_data_dir : option string) : Command :=
  let args := match run_args (cs_kind (is_core spec)) (is_working_dir spec) (is_config_path spec) with
              | Ok args => args
              | Err _ => []                                     (* [expect]: there is no error path *)
              end in
  {| co_program := cs_binary_path (is_core spec);
     co_args := args ++ controller_args (cs_kind (is_core spec)) (rc_host controller);
     co_env := [(MIHOMO_SAFE_PATHS_ENV_NAME,
                 safe_paths_with_source (is_working_dir spec)
                   (default (is_config_path spec) (parent (is_config_path spec))) source_data_dir);
                (CLICOLOR_FORCE_ENV_NAME, "0")];
     co_current_dir := Some (is_working_dir spec);
     co_timeout := None;
     co_pid_file := match is_pid_file spec with
                    | None => NoPidFile
                    | Some pid_file =>
                        match epoch_pid_path spec epoch with
                        | Some _ => EpochPid pid_file (is_config_path spec) epoch
                        | None => LegacyPidFile pid_file
                        end
                    end |}.

(** ** Readiness, as a caller sees it *)

Section Waiting.
Context `{LogFormat.Chrono} (native_store : bool) (core_kind : CoreKind).

Definition debug_reason (r : StopReason) : string :=
  match r with Finished => "Finished" | User => "User" | StopError text => "Error(" +:+ str_debug text +:+ ")" end.

(** One look of [wait_ready] at the status: its answer, if it has one. *)
Definition wait_ready_look (s : Shared) : option (result () Error) * Shared :=
  match ist_state (sh_status s) with
  | IRunning _ => (Some (Ok tt), s)
  | IStopped reason =>
      let text := match reason with
                  | StopError text => text
                  | other => "stopped before ready: " +:+ debug_reason other
                  end in
      let '(stderr_tail, s) := failure_summary native_store core_kind text s in
      (Some (Err (if sh_probe_timeout s then StartupTimeout stderr_tail else StartupFailed stderr_tail)), s)
  | _ => (None, s)
  end.
(** The channel of the status is closed. *)
Definition wait_ready_closed (s : Shared) : result () Error * Shared :=
  let '(text, s) := diagnostics native_store core_kind s in (Err (StartupFailed text), s).

(** [probe_now]: the request on its way, or what is answered at once. *)
Definition probe_now (phase : ProbePhase) (running : bool) (request : N) (m : Monitor) : option ProbeResult * Monitor :=
  if decide (phase <> Reconcile) then
    (Some (ProbeUnhealthy (Some "only reconciliation probes can be requested directly")), m)
  else if negb running then (Some (ProbeUnhealthy (Some "instance probe monitor is not running")), m)
  else (None, with_requests (mo_requests m ++ [request]) (mo_replies m) m).

End Waiting.

(** ** Start and stop *)

Section Lifecycle.
Context `{Host_os} (debug : Duration -> string).

Definition io_of (e : StdError) : Error :=
  IoErr {| ioe_not_found := bool_decide (se_kind e = EkNotFound); ioe_text := se_text e |}.

(** The tail of [spawn_configured] behind a failed launch under a native store;
    [confirmed] is what [confirm_stopped] answers. *)
Definition spawn_failed (spec : InstanceSpec) (epoch : N) (error : ProcessError) (store : option (result () Error))
    : Act (result () Error) :=
  let text := ProcessError_to_string debug error in
  match store with
  | None => act_ret (Err (ProcessErr text))
  | Some confirmed =>
      let finish := match confirmed with Ok _ => Err (ProcessErr text) | Err e => Err e end in
      match epoch_pid_path spec epoch with
      | None => act_ret finish
      | Some pid_file =>
          do* reaped := reap_epoch_pid_file pid_file (default "" (parent (is_config_path spec))) in
          act_ret match reaped with
                  | Ok _ => finish
                  | Err reap_error => Err (StopUnconfirmed (text +:+ "; " +:+ se_text reap_error))
                  end
      end
  end.

(** [spawn_configured]: what the checks, the construction of the probe and the
    launch answer. *)
Definition spawn_configured (spec : InstanceSpec) (epoch : N) (config_exists binary_exists : bool)
    (probe : result () Error) (spawned : result () ProcessError) (store : option (result () Error)) : Act (result () Error) :=
  if negb config_exists then act_ret (Err (ConfigNotFound (is_config_path spec)))
  else if negb binary_exists then act_ret (Err (BinaryNotFound (cs_binary_path (is_core spec))))
  else match run_args (cs_kind (is_core spec)) (is_working_dir spec) (is_config_path spec), probe with
       | Err e, _ | Ok _, Err e => act_ret (Err e)
       | Ok _, Ok _ =>
           match spawned with
           | Ok _ => act_ret (Ok tt)
           | Err error => spawn_failed spec epoch error store
           end
       end.

Definition reap_epoch_record_if_present (spec : InstanceSpec) (epoch : N) : Act (result () Error) :=
  match epoch_pid_path spec epoch with
  | None => act_ret (Ok tt)
  | Some pid_file =>
      do* found := try_exists pid_file in
      match found with
      | Err e => act_ret (Err (io_of e))
      | Ok false => act_ret (Ok tt)
      | Ok true =>
          match parent (is_config_path spec) with
          | None => act_ret (Err (StopUnconfirmed "runtime config has no parent directory"))
          | Some runtime_dir =>
              do* reaped := reap_epoch_pid_file pid_file runtime_dir in
              act_ret match reaped with Ok _ => Ok tt | Err e => Err (io_of e) end
          end
      end
  end.

(** What the waits of a stop end with: [sa_supervisor], when there was one, the
    answer of its [stop] or [None] when that took too long; [sa_monitor], when
    there was one, whether its task ended in time; [sa_terminal], the status
    behind both; [sa_confirmed], the answer of [confirm_stopped] under a native
    store. *)
Record StopAnswers := {
  sa_supervisor : option (option (result () ProcessError));
  sa_monitor : option bool;
  sa_terminal : bool;
  sa_confirmed : option (result () Error);
}.

Definition stop_result (timeout : Duration) (a : StopAnswers) : result () string :=
  match sa_supervisor a with
  | None | Some (Some (Ok _)) | Some (Some (Err PeAlreadyExited)) => Ok tt
  | Some (Some (Err error)) => Err ("supervisor stop failed: " +:+ ProcessError_to_string debug error)
  | Some None => Err ("supervisor stop exceeded " +:+ debug timeout)
  end.
Definition monitor_confirmed (a : StopAnswers) : bool := bool_decide (sa_monitor a = Some true).
Definition confirm_stopped (a : StopAnswers) : result () Error := default (Ok tt) (sa_confirmed a).

(** [stop_and_confirm_dead] behind its waits. *)
Definition stop_and_confirm_dead (spec : InstanceSpec) (epoch : N) (timeout : Duration) (a : StopAnswers)
    : Act (result () Error) :=
  if is_ok (stop_result timeout a) && (monitor_confirmed a || sa_terminal a) then
    do* reaped := reap_epoch_record_if_present spec epoch in
    act_ret match reaped with
            | Err error => Err (StopUnconfirmed ("stopped instance identity verification failed: " +:+ Error_to_string error))
            | Ok _ => confirm_stopped a
            end
  else
    let stop_error := match stop_result timeout a with
                      | Err error => error
                      | Ok _ => "instance monitor did not confirm termination"
                      end in
    match epoch_pid_path spec epoch with
    | None => act_ret (Err (StopUnconfirmed stop_error))
    | Some pid_file =>
        match parent (is_config_path spec) with
        | None => act_ret (Err (StopUnconfirmed "runtime config has no parent directory"))
        | Some runtime_dir =>
            do* reaped := reap_epoch_pid_file pid_file runtime_dir in
            act_ret match reaped with
                    | Err error => Err (StopUnconfirmed (stop_error +:+ "; epoch identity reaper failed: " +:+ se_text error))
                    | Ok ReapNotFound => if sa_terminal a then confirm_stopped a else Err (StopUnconfirmed stop_error)
                    | Ok _ => confirm_stopped a
                    end
        end
    end.

(** ** What a stop that succeeds rests on *)

Context (host : HostOk).

(** What is known of the process behind a pid file: no record is there, or the
    process of the one that is there is dead or was renamed. *)
Definition Accounted (pid_file : string) (w w' : World) : Prop :=
  Absent pid_file w w' \/ exists record, Stored pid_file record w w' /\ Settled record w w'.

Lemma reap_accounted pid_file dir w o w' :
  Valid token w -> reap_epoch_pid_file pid_file dir w = (Ok o, w') -> Accounted pid_file w w'.
Proof. intros Hv E. destruct (reap_verdict host _ _ _ _ _ Hv E) as [[_ Ha]|Hd]; [by left|by right]. Qed.

Lemma accounted_grows pid_file w w1 w2 w' :
  Later w w1 -> Later w1 w2 -> Later w2 w' -> Accounted pid_file w1 w2 -> Accounted pid_file w w'.
Proof.
  intros Hl Hl' Hl'' [Ha|(record & Hs & Hd)].
  - left. by eapply absent_grows.
  - right. exists record. split; [by eapply stored_grows|]. by eapply (settled_grows record w w1 w2 w').
Qed.

Lemma present_accounted spec epoch w w' :
  Valid token w -> reap_epoch_record_if_present spec epoch w = (Ok tt, w') ->
  forall pid_file, epoch_pid_path spec epoch = Some pid_file -> Accounted pid_file w w'.
Proof.
  intros Hv E pid_file Hp. unfold reap_epoch_record_if_present in E. rewrite Hp in E.
  apply bind_inv in E as (found & w1 & E1 & E).
  destruct (nothing_run _ _ _ _ (does_call host _ (calm_read _)) Hv E1) as (Hv1 & Hl1 & _).
  apply (read_call_moment host _ _ _ _ Hv) in E1 as [(e & -> & _)|(wm & -> & Hm)]; [done|].
  case_bool_decide as Hfile.
  - destruct (parent (is_config_path spec)) as [dir|]; [|done].
    apply bind_inv in E as (reaped & w2 & E2 & E). destruct reaped as [o|e]; [|done]. injection E as <-.
    destruct (reap_file_moves host _ _ _ _ _ Hv1 E2) as (_ & Hl2).
    eapply accounted_grows; [exact Hl1|exact Hl2|apply later_refl|]. by eapply reap_accounted.
  - injection E as <-. left. exists (w_procs wm, w_files wm). split; [done|]. cbn.
    destruct (w_files wm !! pid_file) eqn:Ef; [|done]. exfalso. apply Hfile. by eexists.
Qed.

(** C20: what a stop that succeeds rests on.  When [stop_and_confirm_dead]
    returns without an error, then one of two things holds.  Either the supervisor
    said that the process ended or had ended, or there was none, the monitor ended
    or the status had told the end, and the epoch's pid record is accounted for: the
    file was not there, in which case the word of the supervisor is all there is, or
    a record in it names a process that is dead.  Or the supervisor failed or the
    monitor did not end, and then the pid file decides: a record in it names a
    process that is dead, or the file was not there and the status had told the end.
    As in [reap_outcome_accounts_for_the_process], a recorded process may in place of being dead
    have been renamed while it was looked at. *)
Theorem stop_accounts_for_the_process spec epoch timeout a w w' :
  Valid token w -> stop_and_confirm_dead spec epoch timeout a w = (Ok tt, w') ->
  (stop_result timeout a = Ok tt /\ (sa_monitor a = Some true \/ sa_terminal a = true)
   /\ forall pid_file, epoch_pid_path spec epoch = Some pid_file ->
        Absent pid_file w w'
        \/ exists record, Stored pid_file record w w' /\ (Dead record w w' \/ Renamed record w w'))
  \/ exists pid_file, epoch_pid_path spec epoch = Some pid_file
      /\ ((exists record, Stored pid_file record w w' /\ (Dead record w w' \/ Renamed record w w'))
          \/ sa_terminal a = true /\ Absent pid_file w w').
Proof.
  intros Hv E. unfold stop_and_confirm_dead in E.
  destruct (is_ok (stop_result timeout a) && (monitor_confirmed a || sa_terminal a)) eqn:Ec.
  - left. apply andb_true_iff in Ec as [Hok Hm]. split; [by destruct (stop_result timeout a) as [[]|]|]. split.
    { apply orb_true_iff in Hm as [Hm%bool_decide_eq_true|?]; auto. }
    apply bind_inv in E as ([[]|e] & w1 & E1 & E); [|by injection E]. injection E as _ <-. by apply present_accounted.
  - right. destruct (epoch_pid_path spec epoch) as [pid_file|]; [|done].
    destruct (parent (is_config_path spec)) as [dir|]; [|done]. exists pid_file. split; [done|].
    apply bind_inv in E as (reaped & w1 & E1 & E). destruct reaped as [o|e]; [|by injection E].
    assert (w1 = w') as -> by by injection E.
    destruct (reap_verdict host _ _ _ _ _ Hv E1) as [[-> Ha]|Hd]; [right|by left].
    destruct (sa_terminal a); [done|by injection E].
Qed.

End Lifecycle.

(** A supervisor that does not answer in time, and the record of a live core. *)
Definition core_spec : InstanceSpec :=
  {| is_core := {| cs_kind := Mihomo; cs_binary_path := "/bin/core"; cs_version := None; cs_features := [] |};
     is_config_path := "/run/config-3.yaml"; is_working_dir := "/run"; is_pid_file := Some "/run/core-3.pid";
     is_options := {| io_local_ipc := None; io_startup_timeout := 0; io_health := HealthPolicy_default;
                      io_restart_policy := Never; io_backoff := exponential 0 0 |} |}.
Definition hung : StopAnswers :=
  {| sa_supervisor := Some None; sa_monitor := Some false; sa_terminal := false; sa_confirmed := None |}.
Definition core_stopped : World :=
  (@stop_and_confirm_dead obedient_host show_N core_spec 3 10 hung core_world).2.

Lemma stop_accounts_for_the_process_witness :
  stop_result show_N 10 hung = Err "supervisor stop exceeded 10" /\
  exists pid_file, epoch_pid_path core_spec 3 = Some pid_file
    /\ exists record, Stored pid_file record core_world core_stopped
        /\ (@Dead obedient_host record core_world core_stopped \/ @Renamed obedient_host record core_world core_stopped).
Proof.
  split; [vm_compute; reflexivity|].
  destruct (@stop_accounts_for_the_process obedient_host show_N obedient_ok core_spec 3 10 hung core_world core_stopped)
    as [(Hr & _)|(pid_file & Hp & [Hd|[Ht _]])];
    [apply core_world_valid|vm_compute; reflexivity|vm_compute in Hr; discriminate|by exists pid_file|vm_compute in Ht; discriminate].
Defined.
