(* ===== verification/Capability.v ===== *)
(** * Capabilities of a core build

    [chimera-core-metadata/src/feature.rs] and [feature/clash.rs]: which
    release of which core speaks which local transport; [capability.rs]: the
    version cache of the manager and the choice of the runtime features.
    Version parsing and requirement matching belong to the [semver] crate and
    are parameters. *)

From S2P Require Export Text Types.
Open Scope rust_scope.

(** Major, minor, patch. *)
Definition ReleaseVersion : Type := N * N * N.

Class Semver := {
  Version_parse : string -> option ReleaseVersion;
  VersionReq_matches : string -> ReleaseVersion -> bool;
}.

Inductive CoreVersion := Release (v : ReleaseVersion) | Nightly | Unknown.

Inductive Support := Yes | Since (req : string) | No.
#[export] Instance Support_eq_dec : EqDecision Support.
Proof. solve_decision. Defined.

(** ** Words of a version banner *)

(** The characters [trim_matches] keeps. *)
Definition is_version_char (a : Ascii.ascii) : bool :=
  let c := Ascii.N_of_ascii a in
  bool_decide ((48 <= c /\ c <= 57) \/ (65 <= c /\ c <= 90) \/ (97 <= c /\ c <= 122))
  || bool_decide (a ∈ ["."%char; "-"%char; "+"%char; "_"%char]).

Fixpoint trim_start (keep : Ascii.ascii -> bool) (s : string) : string :=
  match s with
  | EmptyString => EmptyString
  | String a s' => if keep a then s else trim_start keep s'
  end.
Fixpoint trim_end (keep : Ascii.ascii -> bool) (s : string) : string :=
  match s with
  | EmptyString => EmptyString
  | String a s' =>
      let rest := trim_end keep s' in
      if decide (rest = "") then (if keep a then String a "" else "") else String a rest
  end.
Definition trim_token (s : string) : string := trim_end is_version_char (trim_start is_version_char s).

Section Versions.
Context `{Semver}.

Definition nightly_token (token : string) : bool :=
  existsb (fun prefix =>
      match strip_prefix prefix token with Some value => negb (bool_decide (value = "")) | None => false end)
    ["alpha-"; "nightly-"].

Fixpoint parse_tokens (tokens : list string) : CoreVersion :=
  match tokens with
  | [] => Unknown
  | token :: tokens' =>
      let token := trim_token token in
      let version := default token (strip_prefix "v" token) in
      match Version_parse version with
      | Some v => Release v
      | None => if nightly_token token then Nightly else parse_tokens tokens'
      end
  end.
Definition CoreVersion_parse (raw : string) : CoreVersion := parse_tokens (split_whitespace raw).

(** ** Feature support *)

Definition since (req : string) (version : option CoreVersion) : Support :=
  match version with
  | Some (Release v) => if VersionReq_matches req v then Yes else No
  | Some Nightly => Yes
  | Some Unknown => No
  | None => Since req
  end.

Definition MIHOMO_UNIX : string := ">=1.18.4".
Definition MIHOMO_PIPE : string := ">=1.18.9".
Definition CLASH_RS_UNIX : string := ">=0.9.1".
Definition CLASH_RS_PIPE : string := ">=0.9.7".

Definition supports (kind : CoreKind) (feature : Feature) (version : option CoreVersion) : Support :=
  match kind with
  | Mihomo =>
      match feature with
      | NamedPipeIpc => since MIHOMO_PIPE version
      | NamedPipeSecurityDescriptor => since MIHOMO_PIPE version
      | UnixSocketIpc => since MIHOMO_UNIX version
      | DisableTcpController => No
      end
  | ClashRust | ChimeraClient =>
      match feature with
      | NamedPipeIpc => since CLASH_RS_PIPE version
      | NamedPipeSecurityDescriptor => No
      | UnixSocketIpc => since CLASH_RS_UNIX version
      | DisableTcpController => No
      end
  | ClashPremium => No
  | Meow => No
  end.

(** [EnumSet::all], in declaration order. *)
Definition all_features : list Feature :=
  [NamedPipeIpc; UnixSocketIpc; DisableTcpController; NamedPipeSecurityDescriptor].
Definition features (kind : CoreKind) (version : option CoreVersion) : list Feature :=
  List.filter (fun f => bool_decide (supports kind f version = Yes)) all_features.
Definition potential_features (kind : CoreKind) : list Feature :=
  List.filter (fun f => negb (bool_decide (supports kind f None = No))) all_features.

(** The transport feature of a host that is not Windows. *)
Definition LOCAL_TRANSPORT_FEATURE : Feature := UnixSocketIpc.

(** ** The runtime decision ([capability.rs]) *)

Record ResolvedFeatures := {
  rf_capabilities : list Feature;
  rf_runtime : list RuntimeFeature;
  rf_version : option string;
}.

Definition resolve_runtime (policy : LocalIpcPolicy) (core : CoreSpec) (capabilities : list Feature)
    (resolved_version : option string) : result (list RuntimeFeature) Error :=
  let local_supported := bool_decide (LOCAL_TRANSPORT_FEATURE ∈ capabilities) in
  match policy, local_supported with
  | Force, false =>
      Err (RequiredLocalIpcUnsupported (cs_kind core)
             (default "unknown" (match resolved_version with
                                 | Some v => Some v
                                 | None => cs_version core end)))
  | Force, true | Prefer, true => Ok [LocalIpc]
  | Prefer, false | Disable, _ => Ok []
  end.

(** ** The version cache *)

(** [SystemTime] of the binary, in nanoseconds. *)
Record VersionCacheKey := { vk_binary_path : string; vk_modified : Z }.
#[export] Instance VersionCacheKey_eq_dec : EqDecision VersionCacheKey.
Proof. solve_decision. Defined.

(** Newest insertion first; a key occurs once. *)
Definition VersionCache := list (VersionCacheKey * string).

Definition cache_get (cache : VersionCache) (key : VersionCacheKey) : option string :=
  snd <$> List.find (fun e => bool_decide (e.1 = key)) cache.
Definition cache_insert (cache : VersionCache) (key : VersionCacheKey) (version : string) : VersionCache :=
  (key, version) :: List.filter (fun e => negb (bool_decide (e.1 = key))) cache.
Definition cache_retain_other (cache : VersionCache) (path : string) : VersionCache :=
  List.filter (fun e => negb (bool_decide (vk_binary_path e.1 = path))) cache.

(** What the host answers while one version is resolved: the modification time
    before and after the probe, and the probe itself. *)
Record VersionHost := {
  vh_modified : result Z Error;
  vh_probe : result string Error;
  vh_modified_after : result Z Error;
}.

Definition changed_during_probe (path : string) : Error :=
  CoreVersionProbeFailed path
    "core binary changed during version probe; retry with the replacement binary".

(** [VersionCache::resolve]: the answer and the cache behind the lock. *)
Definition resolve (cache : VersionCache) (spec : CoreSpec) (host : VersionHost)
  : result string Error * VersionCache :=
  match cs_version spec with
  | Some version => (Ok version, cache)
  | None =>
      match vh_modified host with
      | Err e => (Err e, cache)
      | Ok modified =>
          let key := {| vk_binary_path := cs_binary_path spec; vk_modified := modified |} in
          match cache_get cache key with
          | Some version => (Ok version, cache)
          | None =>
              match vh_probe host with
              | Err e => (Err e, cache)
              | Ok version =>
                  match vh_modified_after host with
                  | Err e => (Err e, cache)
                  | Ok after =>
                      if decide (after <> modified) then (Err (changed_during_probe (cs_binary_path spec)), cache)
                      else (Ok version, cache_insert (cache_retain_other cache (vk_binary_path key)) key version)
                  end
              end
          end
      end
  end.

Definition resolve_features (cache : VersionCache) (core : CoreSpec) (policy : LocalIpcPolicy)
    (host : VersionHost) : result ResolvedFeatures Error * VersionCache :=
  let finish (capabilities : list Feature) (version : option string) (cache : VersionCache) :=
    ((let? runtime := resolve_runtime policy core capabilities version in
      Ok {| rf_capabilities := capabilities; rf_runtime := runtime; rf_version := version |}), cache) in
  if bool_decide (potential_features (cs_kind core) = []) then finish [] (cs_version core) cache
  else
    match resolve cache core host with
    | (Err e, cache') => (Err e, cache')
    | (Ok version, cache') =>
        finish (features (cs_kind core) (Some (CoreVersion_parse version))) (Some version) cache'
    end.

End Versions.

(** ** The documented meaning of a floor *)

Definition version_leb (a b : ReleaseVersion) : bool :=
  let '(a1, a2, a3) := a in
  let '(b1, b2, b3) := b in
  bool_decide (a1 < b1 \/ (a1 = b1 /\ (a2 < b2 \/ (a2 = b2 /\ a3 <= b3)))).

Class SemverLaws `{Semver} : Prop :=
  matches_floor : forall a b c v,
    a < u64_modulus -> b < u64_modulus -> c < u64_modulus ->
    VersionReq_matches (">=" +:+ show_N a +:+ "." +:+ show_N b +:+ "." +:+ show_N c) v
      = version_leb (a, b, c) v.

(** ** Properties *)

Section Properties.
Context `{SemverLaws}.

Lemma since_yes (req : string) (v : ReleaseVersion) :
  since req (Some (Release v)) = Yes <-> VersionReq_matches req v = true.
Proof. cbn. by destruct (VersionReq_matches _ _). Qed.

Lemma elem_of_features kind f version :
  f ∈ features kind version <-> supports kind f version = Yes.
Proof.
  unfold features. rewrite list_elem_of_In, filter_In, bool_decide_eq_true.
  split; [by intros [_ ?]|]. intros Hf. split; [|done]. destruct f; cbn; tauto.
Qed.

(** The floor of the local transport of a kind. *)
Definition local_floor (kind : CoreKind) : option ReleaseVersion :=
  match kind with
  | Mihomo => Some (1, 18, 4)
  | ClashRust | ChimeraClient => Some (0, 9, 1)
  | ClashPremium | Meow => None
  end.

Definition has_local_transport (kind : CoreKind) (version : CoreVersion) : bool :=
  match local_floor kind, version with
  | Some floor, Release v => version_leb floor v
  | Some _, Nightly => true
  | _, _ => false
  end.

Lemma local_transport_supported kind version :
  supports kind LOCAL_TRANSPORT_FEATURE (Some version) = Yes <-> has_local_transport kind version = true.
Proof.
  assert (forall v, VersionReq_matches MIHOMO_UNIX v = version_leb (1, 18, 4) v) as Hm.
  { intros v. by apply (matches_floor 1 18 4). }
  assert (forall v, VersionReq_matches CLASH_RS_UNIX v = version_leb (0, 9, 1) v) as Hc.
  { intros v. by apply (matches_floor 0 9 1). }
  destruct kind, version as [v| |]; unfold has_local_transport; cbn [local_floor]; try done;
    unfold supports, LOCAL_TRANSPORT_FEATURE; rewrite since_yes.
  - by rewrite <- Hm.
  - by rewrite <- Hc.
  - by rewrite <- Hc.
Qed.

(** Local IPC is turned on exactly when policy and build agree.  Whenever
    features resolve, the epoch runs with local IPC iff the policy is not
    [Disable] and the resolved version of the build reaches the floor of its
    kind (1.18.4 for Mihomo, 0.9.1 for clash-rs and Chimera Client, never for
    the others); and [Force] fails with [RequiredLocalIpcUnsupported] exactly
    when a resolved build does not reach it. *)
Theorem local_ipc_decision cache core policy host :
  match resolve_features cache core policy host with
  | (Ok r, _) =>
      LocalIpc ∈ rf_runtime r <->
        policy <> Disable
        /\ exists version, rf_version r = Some version
             /\ has_local_transport (cs_kind core) (CoreVersion_parse version) = true
  | (Err (RequiredLocalIpcUnsupported kind version), _) =>
      (exists v, resolve cache core host = (Err (RequiredLocalIpcUnsupported kind version), v))
      \/ (policy = Force /\ kind = cs_kind core
          /\ forall v c, resolve cache core host = (Ok v, c) ->
               has_local_transport (cs_kind core) (CoreVersion_parse v) = false)
  | (Err e, _) => exists c, resolve cache core host = (Err e, c)
  end.
Proof.
  unfold resolve_features. case_bool_decide as Hpot.
  - assert (forall version, has_local_transport (cs_kind core) version = false) as Hno.
    { intros version. unfold has_local_transport. unfold potential_features in Hpot.
      by destruct (cs_kind core). }
    unfold resolve_runtime. rewrite bool_decide_false by (by intros ?%elem_of_nil).
    destruct policy; cbn.
    + right. split; [done|]. split; [done|]. intros v c _. apply Hno.
    + split; [by intros ?%elem_of_nil|]. intros (_ & v & _ & Hv). by rewrite Hno in Hv.
    + split; [by intros ?%elem_of_nil|]. by intros [? _].
  - destruct (resolve cache core host) as [[version|e] cache'] eqn:Er; cbn [result_bind].
    2:{ destruct e; eauto. }
    pose proof (local_transport_supported (cs_kind core) (CoreVersion_parse version)) as Hl.
    rewrite <- elem_of_features in Hl. unfold resolve_runtime.
    case_bool_decide as Hin; destruct policy; cbn [result_bind rf_runtime rf_version].
    + split; [|intros _; by left]. intros _. split; [done|]. exists version. by rewrite <- Hl.
    + split; [|intros _; by left]. intros _. split; [done|]. exists version. by rewrite <- Hl.
    + split; [by intros ?%elem_of_nil|]. by intros [? _].
    + right. split; [done|]. split; [done|]. intros v c [= <- _].
      destruct (has_local_transport _ _); [|done]. destruct Hin. by apply Hl.
    + split; [by intros ?%elem_of_nil|]. intros (_ & v & [= <-] & Hv). by apply Hl in Hv.
    + split; [by intros ?%elem_of_nil|]. by intros [? _].
Qed.

End Properties.

(** ** The cache *)

Lemma cache_get_insert cache key version k :
  cache_get (cache_insert cache key version) k =
    if decide (key = k) then Some version else cache_get cache k.
Proof.
  unfold cache_get, cache_insert. cbn [List.find fst]. case_decide as Hk.
  - subst k. by rewrite bool_decide_true.
  - rewrite bool_decide_false by done. f_equal.
    induction cache as [|[ke ve] cache IH]; [done|]. cbn [List.filter List.find fst].
    destruct (decide (ke = key)) as [->|He].
    + rewrite (bool_decide_true (key = key)) by done. cbn [negb].
      rewrite (bool_decide_false (key = k)) by done. exact IH.
    + rewrite (bool_decide_false (ke = key)) by done. cbn [negb List.find fst]. by rewrite IH.
Qed.

Lemma cache_get_retain cache path k :
  cache_get (cache_retain_other cache path) k =
    if decide (vk_binary_path k = path) then None else cache_get cache k.
Proof.
  unfold cache_get, cache_retain_other. induction cache as [|[ke ve] cache IH]; cbn [List.filter List.find fst]; [by case_decide|].
  destruct (decide (vk_binary_path ke = path)) as [He|He].
  - rewrite (bool_decide_true (_ = path)) by done. cbn [negb]. rewrite IH.
    case_decide as Hk; [done|]. rewrite bool_decide_false; [done|]. intros ->. done.
  - rewrite (bool_decide_false (_ = path)) by done. cbn [negb List.find fst].
    destruct (decide (ke = k)) as [<-|Hne].
    + rewrite bool_decide_true by done. by rewrite decide_False.
    + rewrite bool_decide_false by done. exact IH.
Qed.

(** The version cache answers for the binary that is there.  A pinned
    version is returned without a probe and a cached one is returned for the
    same path and modification time; a new answer is recorded only if the
    binary has not changed under the probe, and then replaces everything
    recorded for that path; every failure, a change under the probe included,
    leaves the cache as it was. *)
Theorem version_cache_is_sound cache spec host :
  let '(answer, cache') := resolve cache spec host in
  (forall v, cs_version spec = Some v -> answer = Ok v /\ cache' = cache)
  /\ (forall e, answer = Err e -> cache' = cache)
  /\ (forall v modified, answer = Ok v -> cs_version spec = None -> vh_modified host = Ok modified ->
        let key := {| vk_binary_path := cs_binary_path spec; vk_modified := modified |} in
        cache_get cache' key = Some v
        /\ (cache_get cache key = Some v /\ cache' = cache
            \/ cache_get cache key = None /\ vh_probe host = Ok v /\ vh_modified_after host = Ok modified
               /\ forall k, k <> key ->
                    cache_get cache' k =
                      if decide (vk_binary_path k = cs_binary_path spec) then None else cache_get cache k)).
Proof.
  unfold resolve. destruct (cs_version spec) as [v0|].
  { split; [by intros v [= <-]|]. by split. }
  destruct (vh_modified host) as [modified|e]; [|by repeat split].
  set (key := {| vk_binary_path := cs_binary_path spec; vk_modified := modified |}).
  destruct (cache_get cache key) as [v0|] eqn:Hg.
  { split; [done|]. split; [done|]. intros v m [= <-] _ [= <-]. split; [done|]. by left. }
  destruct (vh_probe host) as [v0|e]; [|by repeat split].
  destruct (vh_modified_after host) as [after|e]; [|by repeat split].
  case_decide as Hne; [by repeat split|]. split; [done|]. split; [done|].
  intros v m [= <-] _ [= <-]. cbv zeta. fold key. split.
  { rewrite cache_get_insert. by rewrite decide_True. }
  right. split; [done|]. split; [done|]. split; [f_equal; destruct (decide (after = modified)); tauto|].
  intros k Hk. rewrite cache_get_insert, decide_False by congruence. apply cache_get_retain.
Qed.

(** ** Witnesses *)

(** A reader of plain [major.minor.patch] versions and [>=] floors. *)
Definition plain_version (s : string) : option ReleaseVersion :=
  '(a, rest) ← split_once "." s;
  '(b, c) ← split_once "." rest;
  x ← parse_u64 a; y ← parse_u64 b; z ← parse_u64 c;
  Some (x, y, z).
#[local] Instance plain_semver : Semver :=
  {| Version_parse := plain_version;
     VersionReq_matches := fun req v =>
       match strip_prefix ">=" req ≫= plain_version with
       | Some floor => version_leb floor v
       | None => false
       end |}.

Lemma split_once_number (n : N) (rest : string) :
  split_once "." (show_N n +:+ "." +:+ rest) = Some (show_N n, rest).
Proof.
  apply (split_once_app "."%char "" (show_N n) rest).
  eapply str_all_impl, show_N_digits. intros a. by apply is_digit_not.
Qed.

Lemma plain_version_show (a b c : N) :
  a < u64_modulus -> b < u64_modulus -> c < u64_modulus ->
  plain_version (show_N a +:+ "." +:+ show_N b +:+ "." +:+ show_N c) = Some (a, b, c).
Proof.
  intros Ha Hb Hc. unfold plain_version. rewrite split_once_number. cbn [mbind option_bind].
  rewrite split_once_number. cbn [mbind option_bind]. by rewrite !parse_u64_show.
Qed.

#[local] Instance plain_semver_laws : SemverLaws.
Proof.
  intros a b c v Ha Hb Hc. cbn [VersionReq_matches plain_semver].
  rewrite strip_prefix_app. cbn [mbind option_bind]. by rewrite plain_version_show.
Qed.

Definition mihomo_spec : CoreSpec :=
  {| cs_kind := Mihomo; cs_binary_path := "/opt/mihomo"; cs_version := None; cs_features := [] |}.
Definition probing_host (banner : string) : VersionHost :=
  {| vh_modified := Ok 5%Z; vh_probe := Ok banner; vh_modified_after := Ok 5%Z |}.

Lemma local_ipc_decision_witness :
  LocalIpc ∈ [LocalIpc] <->
    Prefer <> Disable
    /\ exists version, Some "Mihomo Meta v1.19.0 linux" = Some version
         /\ has_local_transport Mihomo (CoreVersion_parse version) = true.
Proof. exact (local_ipc_decision [] mihomo_spec Prefer (probing_host "Mihomo Meta v1.19.0 linux")). Defined.
