(* ===== verification/RuntimeStore.v ===== *)
(** * The runtime artifact store ([config/runtime_store.rs])

    One directory of runtime artifacts on a Unix host: their names, staging,
    the atomic publications, backups, clean-up, and the orphan sweep of
    [manager/quarantine.rs] that seeds the epoch allocator.  Every system call
    may fail; the file system primitives are those of
    [chimera-utils/src/io/atomic_fs.rs]. *)

From S2P Require Export Types.
Open Scope rust_scope.

(** ** The directory *)

(** What [symlink_metadata] tells apart; a symbolic link may dangle. *)
Inductive Node :=
| NFile (contents : list Byte.byte)
| NSymlink (target_exists : bool)
| NDirectory
| NSocket.

(** The entries, the faults of the system calls to come ([None]: the call is
    made), and the process-wide [TEMP_COUNTER]. *)
Record Fs := {
  fs_dir : gmap string Node;
  fs_faults : list (option string);
  fs_counter : N;
}.
Definition with_dir (d : gmap string Node) (fs : Fs) : Fs :=
  {| fs_dir := d; fs_faults := fs_faults fs; fs_counter := fs_counter fs |}.

Definition FsM (A : Type) : Type := Fs -> result A Error * Fs.

Definition fs_ret {A} (a : A) : FsM A := fun fs => (Ok a, fs).
Definition fs_err {A} (e : Error) : FsM A := fun fs => (Err e, fs).
Definition fs_bind {A B} (m : FsM A) (k : A -> FsM B) : FsM B :=
  fun fs => match m fs with (Ok a, fs') => k a fs' | (Err e, fs') => (Err e, fs') end.
(** [let _ = m.await]. *)
Definition fs_ignore {A} (m : FsM A) : FsM () := fun fs => (Ok tt, (m fs).2).
(** [match m.await { Err(e) => { cleanup; Err(e) } .. }]. *)
Definition fs_on_err {A} (m : FsM A) (cleanup : FsM ()) : FsM A :=
  fun fs => match m fs with
            | (Ok a, fs') => (Ok a, fs')
            | (Err e, fs') => (Err e, (cleanup fs').2)
            end.

Declare Scope fs_scope.
Delimit Scope fs_scope with fs.
Notation "'let!' x ':=' m 'in' k" := (fs_bind m (fun x => k))
  (at level 10, x pattern, m at level 100, k at level 200) : fs_scope.
Notation "m ;! k" := (fs_bind m (fun _ => k)) (at level 100, k at level 200, right associativity) : fs_scope.
Open Scope fs_scope.

Definition io_error (text : string) : Error := IoErr {| ioe_not_found := false; ioe_text := text |}.
Definition not_found : Error :=
  IoErr {| ioe_not_found := true; ioe_text := "No such file or directory (os error 2)" |}.

(** One system call on the directory. *)
Definition syscall {A} (op : gmap string Node -> result A Error * gmap string Node) : FsM A :=
  fun fs =>
    match fs_faults fs with
    | Some text :: rest =>
        (Err (io_error text), {| fs_dir := fs_dir fs; fs_faults := rest; fs_counter := fs_counter fs |})
    | faults =>
        let '(r, d) := op (fs_dir fs) in
        (r, {| fs_dir := d; fs_faults := List.tl faults; fs_counter := fs_counter fs |})
    end.

Definition lstat (name : string) : FsM (option Node) := syscall (fun d => (Ok (d !! name), d)).
Definition nop : FsM () := syscall (fun d => (Ok tt, d)).
Definition unlink (name : string) : FsM () :=
  syscall (fun d => match d !! name with
                    | None => (Err not_found, d)
                    | Some NDirectory => (Err (io_error "Is a directory (os error 21)"), d)
                    | Some _ => (Ok tt, delete name d)
                    end).
Definition hard_link (source target : string) : FsM () :=
  syscall (fun d => match d !! source, d !! target with
                    | None, _ => (Err not_found, d)
                    | _, Some _ => (Err (io_error "File exists (os error 17)"), d)
                    | Some node, None => (Ok tt, <[target := node]> d)
                    end).
Definition rename (source target : string) : FsM () :=
  syscall (fun d => match d !! source, d !! target with
                    | None, _ => (Err not_found, d)
                    | _, Some NDirectory => (Err (io_error "Is a directory (os error 21)"), d)
                    | Some node, _ => (Ok tt, <[target := node]> (delete source d))
                    end).
Definition create_new (name : string) : FsM () :=
  syscall (fun d => match d !! name with
                    | Some _ => (Err (io_error "File exists (os error 17)"), d)
                    | None => (Ok tt, <[name := NFile []]> d)
                    end).
(** Writing through the handle of a file that was created in the directory. *)
Definition write_all (name : string) (contents : list Byte.byte) : FsM () :=
  syscall (fun d => (Ok tt, alter (fun _ => NFile contents) name d)).
Definition read (name : string) : FsM (list Byte.byte) :=
  syscall (fun d => match d !! name with
                    | Some (NFile contents) => (Ok contents, d)
                    | Some _ => (Err (io_error "not a regular file"), d)
                    | None => (Err not_found, d)
                    end).
Definition read_dir : FsM (list string) := syscall (fun d => (Ok (elements (dom d)), d)).
Definition try_exists (name : string) : FsM bool :=
  syscall (fun d => (Ok match d !! name with
                        | None | Some (NSymlink false) => false
                        | Some _ => true
                        end, d)).

(** ** Names *)

Definition artifact_runtime_name (discovered : N) : string := "config-" +:+ show_N discovered +:+ ".yaml".
Definition artifact_pid_name (discovered : N) : string := "core-" +:+ show_N discovered +:+ ".pid".
Definition artifact_socket_name (discovered : N) : string := "core-" +:+ show_N discovered +:+ ".sock".
Definition runtime_name (epoch : Epoch) : string := artifact_runtime_name (Epoch_get epoch).
Definition staged_prefix (epoch : N) : string := ".config-" +:+ show_N epoch +:+ ".yaml.tmp-".
Definition backup_prefix (epoch : N) : string := "config-" +:+ show_N epoch +:+ ".yaml.backup-".
Definition pid_temp_prefix (epoch : N) : string := "core-" +:+ show_N epoch +:+ ".pid.tmp-".
Definition backup_name (epoch : Epoch) (generation : N) : string :=
  backup_prefix (Epoch_get epoch) +:+ show_N generation.

Definition or_else {A} (o k : option A) : option A := match o with Some a => Some a | None => k end.

(** [artifact_epoch]. *)
Definition artifact_epoch (name : string) : option N :=
  rest ←
    or_else (strip_prefix "core-" name ≫= strip_suffix ".pid")
    (or_else (strip_prefix "core-" name ≫= strip_suffix ".sock")
    (or_else (strip_prefix "config-" name ≫= fun value =>
                or_else (strip_suffix ".yaml" value) (fst <$> split_once ".yaml.backup-" value))
    (or_else (strip_prefix ".config-" name ≫= fun value => fst <$> split_once ".yaml.tmp-" value)
             (strip_prefix "core-" name ≫= fun value => fst <$> split_once ".pid.tmp-" value))));
  parse_u64 rest.

(** ** The store *)

Section Store.
Context (dir : string) (process_id : N).

Definition unsafe_path {A} (name : string) : FsM A := fs_err (UnsafeRuntimeArtifact (path_join dir name)).

(** [atomic_fs] *)
Definition validate_absent_regular_target (name : string) : FsM () :=
  let! node := lstat name in
  match node with
  | None => fs_ret tt
  | Some (NFile _) => fs_err (io_error ("runtime artifact already exists: " +:+ path_join dir name))
  | Some _ => unsafe_path name
  end.
Definition validate_existing_regular_target (name : string) : FsM () :=
  let! node := lstat name in
  match node with
  | None => fs_err not_found
  | Some (NFile _) => fs_ret tt
  | Some _ => unsafe_path name
  end.
Definition remove_regular_file (name : string) : FsM () :=
  let! node := lstat name in
  match node with
  | None => fs_ret tt
  | Some (NFile _) => unlink name
  | Some _ => unsafe_path name
  end.
Definition atomic_move_new (source target : string) : FsM () :=
  hard_link source target ;! unlink source.
Definition sync_dir : FsM () := nop.

(** The name of a staged file; the handle that owns it removes it when it is
    dropped unconsumed. *)
Definition Staged := string.
Definition drop_staged (staged : Staged) : FsM () := fs_ignore (unlink staged).

Definition next_temp : FsM N :=
  fun fs => (Ok (fs_counter fs),
             {| fs_dir := fs_dir fs; fs_faults := fs_faults fs;
                fs_counter := (fs_counter fs + 1) mod u64_modulus |}).

Definition stage (epoch : Epoch) (contents : list Byte.byte) : FsM Staged :=
  let! counter := next_temp in
  let path := staged_prefix (Epoch_get epoch) +:+ show_N process_id +:+ "-" +:+ show_N counter in
  validate_absent_regular_target path ;!
  create_new path ;!
  (* set_permissions *) nop ;!
  fs_on_err
    (write_all path contents ;! (* flush *) nop ;! (* sync_all *) nop)
    (fs_ignore (unlink path)) ;!
  fs_ret path.

Definition validate_staged (staged : Staged) (epoch : Epoch) : FsM () :=
  if starts_with (staged_prefix (Epoch_get epoch)) staged
  then validate_existing_regular_target staged
  else unsafe_path staged.

Definition commit_new (staged : Staged) (epoch : Epoch) : FsM string :=
  let target := runtime_name epoch in
  fs_on_err
    (validate_staged staged epoch ;!
     validate_absent_regular_target target ;!
     atomic_move_new staged target)
    (drop_staged staged) ;!
  sync_dir ;!
  fs_ret (path_join dir target).

(** The installed path and, when the parent directory could not be synced, the
    warning. *)
Definition installed_commit (target : string) (parent_sync : result () Error) : string * option string :=
  (path_join dir target,
   match parent_sync with
   | Ok _ => None
   | Err error =>
       Some ("runtime config was atomically installed, but parent-directory synchronization failed: "
               +:+ Error_to_string error)
   end).

Definition commit_replace (staged : Staged) (epoch : Epoch) : FsM (string * option string) :=
  let target := runtime_name epoch in
  fs_on_err
    (validate_staged staged epoch ;!
     validate_existing_regular_target target ;!
     rename staged target)
    (drop_staged staged) ;!
  fun fs => let '(parent_sync, fs') := sync_dir fs in (Ok (installed_commit target parent_sync), fs').

Definition replace (epoch : Epoch) (contents : list Byte.byte) : FsM (string * option string) :=
  let! staged := stage epoch contents in
  commit_replace staged epoch.

Record Backup := { ba_name : string; ba_epoch : Epoch }.

Definition backup (epoch : Epoch) (generation : N) : FsM Backup :=
  let target := runtime_name epoch in
  validate_existing_regular_target target ;!
  let! contents := read target in
  let! staged := stage epoch contents in
  let name := backup_name epoch generation in
  fs_on_err
    (validate_absent_regular_target name ;! atomic_move_new staged name)
    (drop_staged staged) ;!
  sync_dir ;!
  fs_ret {| ba_name := name; ba_epoch := epoch |}.

Definition restore (b : Backup) : FsM (string * option string) :=
  validate_existing_regular_target (ba_name b) ;!
  let! contents := read (ba_name b) in
  replace (ba_epoch b) contents.

Definition remove_backup (b : Backup) : FsM () := remove_regular_file (ba_name b).

Definition remove_socket_artifact (name : string) : FsM () :=
  let! node := lstat name in
  match node with
  | None => fs_ret tt
  | Some NSocket => unlink name
  | Some _ => unsafe_path name
  end.

Fixpoint fs_iter (l : list string) (f : string -> FsM ()) : FsM () :=
  match l with
  | [] => fs_ret tt
  | x :: rest => f x ;! fs_iter rest f
  end.

(** Artifacts that carry more than their epoch in the name. *)
Definition numbered_artifact (discovered : N) (name : string) : bool :=
  starts_with (backup_prefix discovered) name
  || starts_with (staged_prefix discovered) name
  || starts_with (pid_temp_prefix discovered) name.

Definition cleanup_artifacts (discovered : N) : FsM () :=
  fs_iter [artifact_runtime_name discovered; artifact_pid_name discovered] remove_regular_file ;!
  remove_socket_artifact (artifact_socket_name discovered) ;!
  let! names := read_dir in
  fs_iter names (fun name =>
    if numbered_artifact discovered name then remove_regular_file name else fs_ret tt) ;!
  sync_dir.

(** [sort_unstable] and [dedup]. *)
Fixpoint insert_epoch (n : N) (l : list N) : list N :=
  match l with
  | [] => [n]
  | m :: rest => if decide (n < m) then n :: l
                 else if decide (n = m) then l else m :: insert_epoch n rest
  end.
Definition artifact_epochs : FsM (list N) :=
  let! names := read_dir in
  fs_ret (foldr insert_epoch [] (omap artifact_epoch names)).

(** ** The orphan sweep *)

(** [reap_epoch_pid_file] of a record, and [cleanup_controller]. *)
Context (reap : string -> FsM ()) (cleanup_controller : Epoch -> FsM ()).

Fixpoint sweep_loop (discovered : list N) : FsM () :=
  match discovered with
  | [] => fs_ret tt
  | artifact :: rest =>
      let! exists_ := try_exists (artifact_pid_name artifact) in
      (if exists_ then reap (artifact_pid_name artifact) else fs_ret tt) ;!
      match Epoch_new artifact with
      | Some epoch => cleanup_controller epoch
      | None => fs_ret tt
      end ;!
      cleanup_artifacts artifact ;!
      sweep_loop rest
  end.

Definition list_max (l : list N) : N := foldr N.max 0 l.

Definition sweep_orphans : FsM N :=
  let! discovered := artifact_epochs in
  let max_seen := list_max discovered in
  sweep_loop discovered ;!
  fs_ret max_seen.

End Store.

(** ** Reasoning about directory programs *)

Definition fwp {A} (m : FsM A) (Q : result A Error -> gmap string Node -> Prop) (d : gmap string Node) : Prop :=
  forall fs, fs_dir fs = d -> Q (m fs).1 (fs_dir (m fs).2).

Lemma fwp_ret {A} (a : A) Q d : Q (Ok a) d -> fwp (fs_ret a) Q d.
Proof. by intros HQ fs <-. Qed.
Lemma fwp_err {A} e Q d : Q (Err e) d -> fwp (fs_err (A := A) e) Q d.
Proof. by intros HQ fs <-. Qed.

Lemma fwp_bind {A B} (m : FsM A) (k : A -> FsM B) Q d :
  fwp m (fun r d' => match r with Ok a => fwp (k a) Q d' | Err e => Q (Err e) d' end) d ->
  fwp (fs_bind m k) Q d.
Proof.
  intros Hm fs Hd. unfold fs_bind. specialize (Hm fs Hd).
  destruct (m fs) as [[a|e] fs']; cbn in *; [by apply Hm|done].
Qed.

Lemma fwp_on_err {A} (m : FsM A) c Q d :
  fwp m (fun r d' => match r with
                     | Ok a => Q (Ok a) d'
                     | Err e => fwp c (fun _ d'' => Q (Err e) d'') d'
                     end) d ->
  fwp (fs_on_err m c) Q d.
Proof.
  intros Hm fs Hd. unfold fs_on_err. specialize (Hm fs Hd).
  destruct (m fs) as [[a|e] fs']; cbn in *; [done|by apply Hm].
Qed.

Lemma fwp_ignore {A} (m : FsM A) Q d : fwp m (fun _ d' => Q (Ok tt) d') d -> fwp (fs_ignore m) Q d.
Proof. intros Hm fs Hd. by apply Hm. Qed.

Lemma fwp_mono {A} (m : FsM A) (Q Q' : result A Error -> gmap string Node -> Prop) d :
  fwp m Q d -> (forall r d', Q r d' -> Q' r d') -> fwp m Q' d.
Proof. intros Hm HQ fs Hd. by apply HQ, Hm. Qed.

Lemma fwp_syscall {A} (op : gmap string Node -> result A Error * gmap string Node) Q d :
  (forall text, Q (Err (io_error text)) d) -> Q (op d).1 (op d).2 -> fwp (syscall op) Q d.
Proof.
  intros Hf Hop fs <-. unfold syscall. destruct (fs_faults fs) as [|[text|] rest]; cbn.
  - by destruct (op (fs_dir fs)).
  - apply Hf.
  - by destruct (op (fs_dir fs)).
Qed.

Lemma fwp_lstat name Q d :
  (forall e, Q (Err e) d) -> Q (Ok (d !! name)) d -> fwp (lstat name) Q d.
Proof. intros. by apply fwp_syscall. Qed.

Lemma fwp_nop Q d : (forall r, Q r d) -> fwp nop Q d.
Proof. intros HQ. apply fwp_syscall; intros; apply HQ. Qed.

Lemma fwp_next_temp Q d : (forall n, Q (Ok n) d) -> fwp next_temp Q d.
Proof. intros HQ fs <-. apply HQ. Qed.

Lemma fwp_read_dir Q d : (forall e, Q (Err e) d) -> Q (Ok (elements (dom d))) d -> fwp read_dir Q d.
Proof. intros. by apply fwp_syscall. Qed.

(** A program touches only the names of [P]. *)
Definition same_but (P : string -> Prop) (d d' : gmap string Node) : Prop :=
  forall name, ~ P name -> d' !! name = d !! name.

Lemma same_but_refl P d : same_but P d d.
Proof. done. Qed.
Lemma same_but_insert (P : string -> Prop) d d' name node :
  P name -> same_but P d d' -> same_but P d (<[name := node]> d').
Proof. intros HP Hd n Hn. rewrite lookup_insert_ne; [by apply Hd|]. by intros ->. Qed.
Lemma same_but_delete (P : string -> Prop) d d' name :
  P name -> same_but P d d' -> same_but P d (delete name d').
Proof. intros HP Hd n Hn. rewrite lookup_delete_ne; [by apply Hd|]. by intros ->. Qed.

(** Removal of one name, whatever the outcome. *)
Definition removed (name : string) (d d' : gmap string Node) : Prop := d' = d \/ d' = delete name d.

Lemma fwp_unlink name (Q : result () Error -> gmap string Node -> Prop) d :
  (forall e, Q (Err e) d) -> Q (Ok tt) (delete name d) -> fwp (unlink name) Q d.
Proof. intros He Hok. apply fwp_syscall; [done|]. by destruct (d !! name) as [[]|]; cbn. Qed.

Section StoreProofs.
Context (dir : string) (process_id : N).

Lemma fwp_validate_existing name Q d :
  (forall e, Q (Err e) d) -> (forall c, d !! name = Some (NFile c) -> Q (Ok tt) d) ->
  fwp (validate_existing_regular_target dir name) Q d.
Proof.
  intros He Hok. apply fwp_bind, fwp_lstat; [done|].
  destruct (d !! name) as [[]|]; try (by apply fwp_err). apply fwp_ret. by eapply Hok.
Qed.

Lemma fwp_validate_absent name Q d :
  (forall e, Q (Err e) d) -> (d !! name = None -> Q (Ok tt) d) ->
  fwp (validate_absent_regular_target dir name) Q d.
Proof.
  intros He Hok. apply fwp_bind, fwp_lstat; [done|].
  destruct (d !! name) as [[]|]; try (by apply fwp_err). apply fwp_ret. by apply Hok.
Qed.

Lemma fwp_drop_staged staged (Q : result () Error -> gmap string Node -> Prop) d :
  (forall d', removed staged d d' -> Q (Ok tt) d') -> fwp (drop_staged staged) Q d.
Proof.
  intros HQ. apply fwp_ignore, fwp_unlink; intros; apply HQ; [by left|by right].
Qed.

Lemma fwp_validate_staged staged epoch Q d :
  (forall e, Q (Err e) d) ->
  (forall c, starts_with (staged_prefix (Epoch_get epoch)) staged = true ->
     d !! staged = Some (NFile c) -> Q (Ok tt) d) ->
  fwp (validate_staged dir staged epoch) Q d.
Proof.
  intros He Hok. unfold validate_staged. destruct (starts_with _ _) eqn:Es; [|by apply fwp_err].
  apply fwp_validate_existing; [done|]. intros c Hc. by eapply Hok.
Qed.

(** A staged file is a new regular file with its contents. *)
Lemma fwp_stage epoch contents (Q : result Staged Error -> gmap string Node -> Prop) d :
  (forall e path d', starts_with (staged_prefix (Epoch_get epoch)) path = true -> d !! path = None ->
     (d' = d \/ exists c, d' = <[path := NFile c]> d) -> Q (Err e) d') ->
  (forall path, starts_with (staged_prefix (Epoch_get epoch)) path = true -> d !! path = None ->
     Q (Ok path) (<[path := NFile contents]> d)) ->
  (forall e, Q (Err e) d) ->
  fwp (stage dir process_id epoch contents) Q d.
Proof.
  intros He Hok He0. unfold stage. apply fwp_bind, fwp_next_temp. intros counter.
  set (path := staged_prefix (Epoch_get epoch) +:+ _).
  assert (starts_with (staged_prefix (Epoch_get epoch)) path = true) as Hpath.
  { apply starts_with_app. }
  clearbody path. cbv zeta.
  apply fwp_bind, fwp_validate_absent; [done|]. intros Hnone.
  assert (forall c, delete path (<[path := NFile c]> d) = d) as Hdel.
  { intros c. rewrite delete_insert_eq. by apply delete_id. }
  assert (forall e c, Q (Err e) (<[path := NFile c]> d)) as Herr.
  { intros e c. eapply (He e path); [done|done|]. right. by eexists. }
  apply fwp_bind, fwp_syscall; [done|]. cbv beta. rewrite Hnone. cbn.
  apply fwp_bind, fwp_nop. intros [[]|e]; [|by apply Herr].
  apply fwp_bind, fwp_on_err.
  assert (forall e c, fwp (fs_ignore (unlink path)) (fun _ d'' => Q (Err e) d'') (<[path := NFile c]> d)) as Hcl.
  { intros e c. apply fwp_ignore, fwp_unlink; [intros _; apply Herr|]. rewrite Hdel. apply He0. }
  apply fwp_bind, fwp_syscall; [intros; apply Hcl|]. cbn.
  assert (alter (fun _ => NFile contents) path (<[path := NFile []]> d) = <[path := NFile contents]> d) as ->.
  { rewrite alter_insert_eq. done. }
  apply fwp_bind, fwp_nop. intros [[]|e]; [|by apply Hcl].
  apply fwp_nop. intros [[]|e]; [|by apply Hcl]. by apply fwp_ret, Hok.
Qed.

(** ** Publication *)

Lemma staged_not_runtime epoch staged :
  starts_with (staged_prefix (Epoch_get epoch)) staged = true -> staged <> runtime_name epoch.
Proof. by intros [r ->]%starts_with_true. Qed.

(** What [commit_replace] leaves. *)
Definition replaced_atomically (staged : Staged) (epoch : Epoch) (d : gmap string Node)
    (r : result (string * option string) Error) (d' : gmap string Node) : Prop :=
  same_but (fun name => name = staged \/ name = runtime_name epoch) d d'
  /\ match r with
     | Ok _ => exists c, d !! staged = Some (NFile c) /\ d' !! runtime_name epoch = Some (NFile c)
                        /\ d' !! staged = None
     | Err _ => staged <> runtime_name epoch -> d' !! runtime_name epoch = d !! runtime_name epoch
     end.

Lemma removed_same_but staged d d' (P : string -> Prop) :
  P staged -> removed staged d d' -> same_but P d d'.
Proof. intros HP [->| ->]; [done|]. by apply same_but_delete. Qed.

Lemma removed_other staged name d d' : removed staged d d' -> staged <> name -> d' !! name = d !! name.
Proof. intros [->| ->] Hne; [done|]. by rewrite lookup_delete_ne. Qed.

Lemma fwp_commit_replace staged epoch d :
  fwp (commit_replace dir staged epoch) (replaced_atomically staged epoch d) d.
Proof.
  unfold commit_replace. cbv zeta. apply fwp_bind, fwp_on_err.
  assert (forall e, fwp (drop_staged staged) (fun _ d' => replaced_atomically staged epoch d (Err e) d') d) as Hdrop.
  { intros e. apply fwp_drop_staged. intros d' Hr. split; [by apply (removed_same_but staged); [left|]|].
    intros Hne. by apply (removed_other staged). }
  apply fwp_bind, fwp_validate_staged; [done|]. intros c Hs Hc.
  apply fwp_bind, fwp_validate_existing; [done|]. intros old Hold.
  apply fwp_syscall; [done|]. rewrite Hc, Hold. cbn.
  pose proof (staged_not_runtime epoch staged Hs) as Hne.
  intros fs Hd. pose proof (fwp_nop (fun _ d' => d' = fs_dir fs) (fs_dir fs) ltac:(done) fs eq_refl) as Hn.
  unfold sync_dir. destruct (nop fs) as [r fs']. cbn in Hn |- *. rewrite Hn, Hd. split.
  - apply same_but_insert; [by right|]. by apply same_but_delete; [left|].
  - exists c. split; [done|]. split; [by rewrite lookup_insert_eq|].
    by rewrite lookup_insert_ne, lookup_delete_eq.
Qed.

(** What [commit_new] leaves: an error may come after the publication, when
    the staging name or the directory entry could not be settled. *)
Definition published_new (staged : Staged) (epoch : Epoch) (d : gmap string Node)
    (r : result string Error) (d' : gmap string Node) : Prop :=
  same_but (fun name => name = staged \/ name = runtime_name epoch) d d'
  /\ (d !! runtime_name epoch <> None -> staged <> runtime_name epoch ->
        is_ok r = false /\ d' !! runtime_name epoch = d !! runtime_name epoch)
  /\ (is_ok r = true ->
        exists c, d !! staged = Some (NFile c) /\ d' !! runtime_name epoch = Some (NFile c)).

Lemma fwp_commit_new staged epoch d :
  fwp (commit_new dir staged epoch) (published_new staged epoch d) d.
Proof.
  unfold commit_new. cbv zeta. apply fwp_bind, fwp_on_err.
  assert (forall e, fwp (drop_staged staged) (fun _ d' => published_new staged epoch d (Err e) d') d) as Hdrop.
  { intros e. apply fwp_drop_staged. intros d' Hr. split; [by apply (removed_same_but staged); [left|]|].
    split; [|done]. intros _ Hne. split; [done|]. by apply (removed_other staged). }
  apply fwp_bind, fwp_validate_staged; [done|]. intros c Hs Hc.
  apply fwp_bind, fwp_validate_absent; [done|]. intros Hnone.
  pose proof (staged_not_runtime epoch staged Hs) as Hne.
  apply fwp_bind, fwp_syscall; [done|]. rewrite Hc, Hnone. cbn.
  assert (forall r d', d' = <[runtime_name epoch := NFile c]> d
                       \/ d' = delete staged (<[runtime_name epoch := NFile c]> d) ->
                       published_new staged epoch d r d') as Hpub.
  { intros r d' Hd'. split; [|split; [by rewrite Hnone|]].
    - destruct Hd' as [->| ->]; [|apply same_but_delete; [by left|]]; by apply same_but_insert; [right|].
    - intros _. exists c. split; [done|].
      destruct Hd' as [->| ->]; rewrite ?lookup_delete_ne by done; by rewrite lookup_insert_eq. }
  apply fwp_unlink.
  - intros e. apply fwp_drop_staged. intros d' [->| ->]; apply Hpub; [by left|by right].
  - apply fwp_bind, fwp_nop. intros [[]|e]; [apply fwp_ret|]; apply Hpub; by right.
Qed.

(** ** Backups *)

Definition backed_up (epoch : Epoch) (generation : N) (d : gmap string Node)
    (r : result Backup Error) (d' : gmap string Node) : Prop :=
  forall b, r = Ok b ->
    b = {| ba_name := backup_name epoch generation; ba_epoch := epoch |}
    /\ exists c, d !! runtime_name epoch = Some (NFile c) /\ d' !! runtime_name epoch = Some (NFile c)
                 /\ d' !! ba_name b = Some (NFile c) /\ d !! ba_name b = None.

Lemma backup_not_staged epoch g staged :
  starts_with (staged_prefix (Epoch_get epoch)) staged = true -> staged <> backup_name epoch g.
Proof. by intros [r ->]%starts_with_true. Qed.

Lemma fwp_backup epoch g d : fwp (backup dir process_id epoch g) (backed_up epoch g d) d.
Proof.
  unfold backup. cbv zeta. apply fwp_bind, fwp_validate_existing; [done|]. intros c Hc.
  apply fwp_bind, fwp_syscall; [done|]. rewrite Hc. cbn.
  apply fwp_bind, fwp_stage; [done| |done]. intros staged Hs Hnew.
  pose proof (staged_not_runtime epoch staged Hs) as Hne.
  pose proof (backup_not_staged epoch g staged Hs) as Hneb.
  apply fwp_bind, fwp_on_err.
  assert (forall e d', fwp (drop_staged staged) (fun _ d'' => backed_up epoch g d (Err e) d'') d') as Hdrop.
  { intros e d'. by apply fwp_drop_staged. }
  apply fwp_bind, fwp_validate_absent; [done|]. intros Hnone.
  rewrite lookup_insert_ne in Hnone by done.
  apply fwp_bind, fwp_syscall; [done|]. rewrite lookup_insert_eq.
  rewrite lookup_insert_ne, Hnone by done. cbn.
  apply fwp_unlink; [done|]. apply fwp_bind, fwp_nop. intros [[]|e]; [|done].
  apply fwp_ret. intros b [= <-]. split; [done|]. exists c. cbn.
  assert (runtime_name epoch <> backup_name epoch g) as Hrb.
  { intros Heq. rewrite Heq in Hc. congruence. }
  split; [done|]. rewrite !lookup_delete_ne by done. split; [|split; [by rewrite lookup_insert_eq|done]].
  by rewrite !lookup_insert_ne.
Qed.

Lemma fwp_restore b d :
  fwp (restore dir process_id b)
    (fun r d' => is_ok r = true -> exists c, d !! ba_name b = Some (NFile c)
                                             /\ d' !! runtime_name (ba_epoch b) = Some (NFile c)) d.
Proof.
  unfold restore, replace. apply fwp_bind, fwp_validate_existing; [done|]. intros c Hc.
  apply fwp_bind, fwp_syscall; [done|]. rewrite Hc. cbn.
  apply fwp_bind, fwp_stage; [done| |done]. intros staged Hs Hnew.
  eapply fwp_mono; [apply fwp_commit_replace|]. intros [x|e] d' [_ Hd']; [|done]. intros _.
  destruct Hd' as (c' & Hc' & Ht & _). rewrite lookup_insert_eq in Hc'. injection Hc' as <-. by exists c.
Qed.

End StoreProofs.

(** ** Names *)

(** The names that are one epoch's. *)
Definition artifact_names (n : N) (name : string) : Prop :=
  name = artifact_runtime_name n \/ name = artifact_pid_name n \/ name = artifact_socket_name n
  \/ numbered_artifact n name = true.

(** The names the program makes for an epoch. *)
Inductive artifact (n : N) : string -> Prop :=
| artifact_runtime : artifact n (artifact_runtime_name n)
| artifact_pid : artifact n (artifact_pid_name n)
| artifact_socket : artifact n (artifact_socket_name n)
| artifact_backup g : artifact n (backup_prefix n +:+ show_N g)
| artifact_staged process counter :
    artifact n (staged_prefix n +:+ show_N process +:+ "-" +:+ show_N counter)
| artifact_pid_temp process counter :
    artifact n (pid_temp_prefix n +:+ show_N process +:+ "-" +:+ show_N counter).

Lemma artifact_is_named n name : artifact n name -> artifact_names n name.
Proof.
  intros []; [by left|by right; left|by right; right; left|..]; right; right; right;
    unfold numbered_artifact; rewrite starts_with_app; by rewrite ?orb_true_r.
Qed.

Fixpoint last_char (s : string) : option Ascii.ascii :=
  match s with
  | EmptyString => None
  | String a EmptyString => Some a
  | String _ s' => last_char s'
  end.

Lemma last_char_app (s t : string) : t <> "" -> last_char (s +:+ t) = last_char t.
Proof.
  intros Ht. induction s as [|a s IH]; [done|]. rewrite string_app_cons, <- IH.
  cbn. by destruct s, t.
Qed.

Lemma last_char_all f (s : string) : s <> "" -> str_all f s = true -> exists a, last_char s = Some a /\ f a = true.
Proof.
  induction s as [|a s IH]; [done|]. intros _ [Ha Hs]%andb_true_iff. destruct s as [|b s].
  - by exists a.
  - by apply IH.
Qed.

(** A name that ends in a number has none of the textual suffixes. *)
Lemma strip_suffix_number (p s : string) (n : N) (a : Ascii.ascii) :
  last_char p = Some a -> is_digit a = false -> strip_suffix p (s +:+ show_N n) = None.
Proof.
  intros Hp Ha. destruct (strip_suffix p _) as [r|] eqn:Es; [|done]. exfalso.
  apply strip_suffix_Some in Es. apply (f_equal last_char) in Es.
  rewrite !last_char_app, Hp in Es; [|by intros ->|apply show_N_nonempty].
  destruct (last_char_all is_digit (show_N n)) as (b & Hb & Hd); [apply show_N_nonempty|apply show_N_digits|].
  congruence.
Qed.

Lemma split_once_epoch (p r : string) (n : N) :
  split_once (String "."%char p) (show_N n +:+ String "."%char p +:+ r) = Some (show_N n, r).
Proof.
  apply split_once_app. eapply str_all_impl, show_N_digits. intros a. by apply is_digit_not.
Qed.

Lemma strip_suffix_other (p q s : string) a b :
  last_char p = Some a -> last_char q = Some b -> a <> b -> strip_suffix p (s +:+ q) = None.
Proof.
  intros Hp Hq Hne. destruct (strip_suffix p _) as [r|] eqn:Es; [|done]. exfalso.
  apply strip_suffix_Some in Es. apply (f_equal last_char) in Es.
  rewrite !last_char_app, Hp, Hq in Es; [congruence|by intros ->|by intros ->].
Qed.

Lemma artifact_discovered n name :
  n < u64_modulus -> artifact n name -> artifact_epoch name = Some n.
Proof.
  intros Hn Ha. rewrite <- (parse_u64_show n Hn).
  destruct Ha as [| | |g|process counter|process counter]; unfold artifact_epoch.
  - unfold artifact_runtime_name. rewrite (strip_prefix_app "config-").
    cbn [mbind option_bind]. rewrite strip_suffix_app. reflexivity.
  - unfold artifact_pid_name. rewrite strip_prefix_app.
    cbn [mbind option_bind]. rewrite strip_suffix_app. reflexivity.
  - unfold artifact_socket_name. rewrite strip_prefix_app.
    cbn [mbind option_bind].
    rewrite (strip_suffix_other ".pid" ".sock" _ "d" "k"), strip_suffix_app by done. reflexivity.
  - unfold backup_prefix. rewrite <- !string_app_assoc, (strip_prefix_app "config-").
    cbn [mbind option_bind]. rewrite (string_app_assoc (show_N n) _ (show_N g)).
    rewrite (strip_suffix_number ".yaml" _ g "l") by done.
    rewrite <- string_app_assoc, split_once_epoch. reflexivity.
  - unfold staged_prefix. rewrite <- !string_app_assoc, (strip_prefix_app ".config-").
    cbn [mbind option_bind]. rewrite split_once_epoch. reflexivity.
  - unfold pid_temp_prefix. rewrite <- !string_app_assoc, strip_prefix_app.
    cbn [mbind option_bind]. rewrite !string_app_assoc.
    rewrite (strip_suffix_number ".pid" _ _ "d"), (strip_suffix_number ".sock" _ _ "k") by done.
    rewrite <- !string_app_assoc, split_once_epoch. reflexivity.
Qed.

(** ** The sweep *)

(** A program that only removes entries. *)
Definition shrinks_dir (d d' : gmap string Node) : Prop := forall name, d' !! name = d !! name \/ d' !! name = None.

Lemma shrinks_dir_refl d : shrinks_dir d d.
Proof. by left. Qed.
Lemma shrinks_dir_trans d1 d2 d3 : shrinks_dir d1 d2 -> shrinks_dir d2 d3 -> shrinks_dir d1 d3.
Proof. intros H1 H2 n. destruct (H2 n) as [->|]; [apply H1|by right]. Qed.
Lemma shrinks_dir_delete name d : shrinks_dir d (delete name d).
Proof. intros n. destruct (decide (name = n)) as [->|]; [right; by rewrite lookup_delete_eq|left; by rewrite lookup_delete_ne]. Qed.
Lemma shrinks_dir_none d d' name : shrinks_dir d d' -> d !! name = None -> d' !! name = None.
Proof. intros Hs Hn. destruct (Hs name) as [->|]; done. Qed.

Lemma elem_of_insert_epoch x n l : x ∈ insert_epoch n l <-> x = n \/ x ∈ l.
Proof.
  induction l as [|m l IH]; cbn; [set_solver|]. case_decide as H1; [set_solver|].
  case_decide as H2; [subst; set_solver|]. set_solver.
Qed.

Lemma elem_of_sorted_epochs x l : x ∈ foldr insert_epoch [] l <-> x ∈ l.
Proof. induction l as [|n l IH]; cbn; [done|]. rewrite elem_of_insert_epoch, IH. set_solver. Qed.

Lemma list_max_le x l : x ∈ l -> x <= list_max l.
Proof.
  induction l as [|n l IH]; [by intros ?%elem_of_nil|].
  change (list_max (n :: l)) with (N.max n (list_max l)).
  intros [->|Hx]%elem_of_cons; [lia|]. specialize (IH Hx). lia.
Qed.

Section Sweep.
Context (dir : string) (reap : string -> FsM ()) (cleanup_controller : Epoch -> FsM ()).

Lemma fwp_remove_regular name (Q : result () Error -> gmap string Node -> Prop) d :
  (forall e, Q (Err e) d) -> (forall d', shrinks_dir d d' -> d' !! name = None -> Q (Ok tt) d') ->
  fwp (remove_regular_file dir name) Q d.
Proof.
  intros He Hok. apply fwp_bind, fwp_lstat; [done|]. destruct (d !! name) as [[]|] eqn:En; try by apply fwp_err.
  - apply fwp_unlink; [done|]. apply Hok; [apply shrinks_dir_delete|apply lookup_delete_eq].
  - apply fwp_ret, Hok; [apply shrinks_dir_refl|done].
Qed.

Lemma fwp_remove_socket name (Q : result () Error -> gmap string Node -> Prop) d :
  (forall e, Q (Err e) d) -> (forall d', shrinks_dir d d' -> d' !! name = None -> Q (Ok tt) d') ->
  fwp (remove_socket_artifact dir name) Q d.
Proof.
  intros He Hok. apply fwp_bind, fwp_lstat; [done|]. destruct (d !! name) as [[]|] eqn:En; try by apply fwp_err.
  - apply fwp_unlink; [done|]. apply Hok; [apply shrinks_dir_delete|apply lookup_delete_eq].
  - apply fwp_ret, Hok; [apply shrinks_dir_refl|done].
Qed.

(** A loop of removals: what it was to remove is gone when it succeeds. *)
Lemma fwp_iter (wanted : string -> bool) (f : string -> FsM ()) names :
  (forall name d, fwp (f name) (fun r d' => shrinks_dir d d'
     /\ (is_ok r = true -> wanted name = true -> d' !! name = None)) d) ->
  forall d, fwp (fs_iter names f) (fun r d' => shrinks_dir d d'
     /\ (is_ok r = true -> forall name, name ∈ names -> wanted name = true -> d' !! name = None)) d.
Proof.
  intros Hf. induction names as [|x names IH]; intros d; cbn [fs_iter].
  - apply fwp_ret. split; [apply shrinks_dir_refl|]. by intros _ name Hn%elem_of_nil.
  - apply fwp_bind. eapply fwp_mono; [apply Hf|]. intros [[]|e] d1 [Hs1 H1]; [|by split].
    eapply fwp_mono; [apply IH|]. intros r d2 [Hs2 H2]. split; [by eapply shrinks_dir_trans|].
    intros Hok name [->|Hin]%elem_of_cons Hw; [|by apply H2].
    eapply shrinks_dir_none; [exact Hs2|]. by apply H1.
Qed.

Lemma fwp_cleanup n d :
  fwp (cleanup_artifacts dir n) (fun r d' => shrinks_dir d d'
     /\ (is_ok r = true -> forall name, artifact_names n name -> d' !! name = None)) d.
Proof.
  unfold cleanup_artifacts. apply fwp_bind. eapply fwp_mono.
  { apply (fwp_iter (fun _ => true)). intros name d0. apply fwp_remove_regular.
    - intros e. split; [apply shrinks_dir_refl|done].
    - intros d' Hs Hn. by split. }
  intros [[]|e] d1 [Hs1 H1]; [|by split].
  apply fwp_bind, fwp_remove_socket; [by intros e; split|]. intros d2 Hs2 H2.
  apply fwp_bind, fwp_read_dir; [intros e; split; [by eapply shrinks_dir_trans|done]|].
  apply fwp_bind. eapply fwp_mono.
  { apply (fwp_iter (numbered_artifact n)). intros name d0. destruct (numbered_artifact n name).
    - apply fwp_remove_regular; [intros e; split; [apply shrinks_dir_refl|done]|by intros d' Hs Hn].
    - apply fwp_ret. split; [apply shrinks_dir_refl|done]. }
  assert (shrinks_dir d d2) as Hs02 by by eapply shrinks_dir_trans.
  intros [[]|e] d3 [Hs3 H3]; [|split; [by eapply shrinks_dir_trans|done]].
  apply fwp_nop. intros r. split; [by eapply shrinks_dir_trans|]. intros _ name Hname.
  assert (forall x, x ∈ [artifact_runtime_name n; artifact_pid_name n] -> d3 !! x = None) as Hfix.
  { intros x Hx. eapply shrinks_dir_none; [exact Hs3|]. eapply shrinks_dir_none; [exact Hs2|]. by apply H1. }
  destruct Hname as [->|[->|[->|Hnum]]].
  - apply Hfix. by left.
  - apply Hfix. by right; left.
  - by eapply shrinks_dir_none.
  - destruct (d2 !! name) eqn:E2; [|by eapply shrinks_dir_none].
    apply H3; [done| |done]. apply elem_of_elements, elem_of_dom. by eexists.
Qed.

(** What the code relies on: reaping a recorded process and removing a
    controller socket add nothing to the runtime directory. *)
Context (reap_shrinks : forall name d, fwp (reap name) (fun _ d' => shrinks_dir d d') d).
Context (controller_shrinks : forall e d, fwp (cleanup_controller e) (fun _ d' => shrinks_dir d d') d).

Lemma fwp_sweep_loop l : forall d,
  fwp (sweep_loop dir reap cleanup_controller l) (fun r d' => shrinks_dir d d'
     /\ (is_ok r = true -> forall n name, n ∈ l -> artifact_names n name -> d' !! name = None)) d.
Proof.
  induction l as [|n l IH]; intros d; cbn [sweep_loop].
  { apply fwp_ret. split; [apply shrinks_dir_refl|]. by intros _ n name Hn%elem_of_nil. }
  apply fwp_bind, fwp_syscall; [intros; by split; [apply shrinks_dir_refl|]|]. cbn.
  apply fwp_bind. eapply (fwp_mono _ (fun _ d' => shrinks_dir d d')).
  { destruct (match d !! artifact_pid_name n with None | Some (NSymlink false) => false | Some _ => true end);
      [apply reap_shrinks|by apply fwp_ret, shrinks_dir_refl]. }
  intros [[]|e] d1 Hs1; [|by split]. apply fwp_bind. eapply (fwp_mono _ (fun _ d' => shrinks_dir d1 d')).
  { destruct (Epoch_new n); [apply controller_shrinks|by apply fwp_ret, shrinks_dir_refl]. }
  intros [[]|e] d2 Hs2; [|split; [by eapply shrinks_dir_trans|done]].
  apply fwp_bind. eapply fwp_mono; [apply fwp_cleanup|].
  assert (shrinks_dir d d2) as Hs02 by by eapply shrinks_dir_trans.
  intros [[]|e] d3 [Hs3 H3]; [|split; [by eapply shrinks_dir_trans|done]].
  eapply fwp_mono; [apply IH|]. intros r d4 [Hs4 H4].
  split; [eapply shrinks_dir_trans; [|exact Hs4]; by eapply shrinks_dir_trans|].
  intros Hok m name [->|Hm]%elem_of_cons Hname; [|by apply (H4 Hok m)].
  eapply shrinks_dir_none; [exact Hs4|]. by apply H3.
Qed.

(** ** Properties *)

(** The orphan sweep leaves nothing of an earlier manager.  When it
    succeeds no artifact of any 64-bit epoch number is left in the directory -
    configuration, pid record, socket, backup or temporary file, zero included -
    and every number that was in use is at most the one that seeds the epoch
    allocator, so the epochs of this manager are new in the directory. *)
Theorem sweep_clears_the_directory fs max_seen fs' :
  sweep_orphans dir reap cleanup_controller fs = (Ok max_seen, fs') ->
  forall n name, n < u64_modulus -> artifact n name ->
    fs_dir fs' !! name = None /\ (fs_dir fs !! name <> None -> n <= max_seen).
Proof.
  intros Hrun n name Hn Hname.
  assert (fwp (sweep_orphans dir reap cleanup_controller) (fun r d' => shrinks_dir (fs_dir fs) d'
    /\ forall m, r = Ok m -> forall k x, artifact_epoch x = Some k -> is_Some (fs_dir fs !! x) ->
         k <= m /\ forall y, artifact_names k y -> d' !! y = None) (fs_dir fs)) as Hw.
  { unfold sweep_orphans, artifact_epochs. apply fwp_bind, fwp_bind, fwp_read_dir.
    { intros e. split; [apply shrinks_dir_refl|done]. }
    apply fwp_ret. cbv zeta. apply fwp_bind. eapply fwp_mono; [apply fwp_sweep_loop|].
    intros [[]|e] d' [Hs Hok]; [|by split]. apply fwp_ret. split; [done|].
    intros m [= <-] k x Hk Hx.
    assert (k ∈ foldr insert_epoch [] (omap artifact_epoch (elements (dom (fs_dir fs))))) as Hin.
    { apply elem_of_sorted_epochs, list_elem_of_omap. exists x. split; [|done].
      by apply elem_of_elements, elem_of_dom. }
    split; [by apply list_max_le|]. intros y Hy. by apply (Hok eq_refl k). }
  specialize (Hw fs eq_refl). rewrite Hrun in Hw. destruct Hw as [Hs Hok]. cbn in Hs, Hok.
  pose proof (artifact_discovered n name Hn Hname) as Hdisc.
  destruct (fs_dir fs !! name) as [node|] eqn:En.
  - destruct (Hok max_seen eq_refl n name Hdisc) as [Hle Hgone]; [by eexists|].
    split; [|done]. by apply Hgone, artifact_is_named.
  - split; [by eapply shrinks_dir_none|done].
Qed.

End Sweep.

(** C10: publication is atomic.  Whatever fails, replacing the document of an
    epoch touches no other file; an error leaves the old document installed,
    and a success, uncertain durability included, leaves exactly the staged
    bytes. *)
Theorem commit_replace_is_atomic dir staged epoch fs :
  starts_with (staged_prefix (Epoch_get epoch)) staged = true ->
  let '(r, fs') := commit_replace dir staged epoch fs in
  (forall name, name <> staged -> name <> runtime_name epoch -> fs_dir fs' !! name = fs_dir fs !! name)
  /\ match r with
     | Ok _ => exists bytes, fs_dir fs !! staged = Some (NFile bytes)
                 /\ fs_dir fs' !! runtime_name epoch = Some (NFile bytes)
                 /\ fs_dir fs' !! staged = None
     | Err _ => fs_dir fs' !! runtime_name epoch = fs_dir fs !! runtime_name epoch
     end.
Proof.
  intros Hs. pose proof (fwp_commit_replace dir staged epoch (fs_dir fs) fs eq_refl) as [Hsame Hr].
  destruct (commit_replace dir staged epoch fs) as [r fs']. cbn in *. split.
  - intros name H1 H2. apply Hsame. tauto.
  - destruct r; [done|]. by apply Hr, staged_not_runtime.
Qed.

(** A restore undoes what came after the backup.  If a backup of an
    epoch's document succeeded, the document was left alone, and a restore from
    that backup - after any changes that did not touch the backup file -
    reinstalls exactly the bytes the document had. *)
Theorem restore_returns_the_backup dir process_id epoch generation fs b fs1 fs2 commit fs3 :
  backup dir process_id epoch generation fs = (Ok b, fs1) ->
  fs_dir fs2 !! ba_name b = fs_dir fs1 !! ba_name b ->
  restore dir process_id b fs2 = (Ok commit, fs3) ->
  exists bytes, fs_dir fs !! runtime_name epoch = Some (NFile bytes)
    /\ fs_dir fs1 !! runtime_name epoch = Some (NFile bytes)
    /\ fs_dir fs3 !! runtime_name epoch = Some (NFile bytes).
Proof.
  intros Hb Hkeep Hr.
  pose proof (fwp_backup dir process_id epoch generation (fs_dir fs) fs eq_refl) as H1.
  rewrite Hb in H1. destruct (H1 b eq_refl) as (Hbe & c & Hc & Hc1 & Hbak & _).
  pose proof (fwp_restore dir process_id b (fs_dir fs2) fs2 eq_refl) as H2.
  rewrite Hr in H2. destruct (H2 eq_refl) as (c' & Hc' & Ht). cbn in *.
  rewrite Hkeep, Hbak in Hc'. injection Hc' as <-. exists c. subst b. done.
Qed.

(** ** Witnesses *)

Definition bytes_1 : list Byte.byte := [Byte.x01].
Definition bytes_2 : list Byte.byte := [Byte.x02].
Definition dir_of (d : gmap string Node) (faults : list (option string)) : Fs :=
  {| fs_dir := d; fs_faults := faults; fs_counter := 0 |}.

(** A directory an earlier manager left, with a file of somebody else. *)
Definition littered : Fs :=
  dir_of (list_to_map [("config-7.yaml", NFile bytes_1); ("core-7.pid", NFile bytes_2);
    ("core-7.sock", NSocket); (".config-7.yaml.tmp-99-0", NFile []); ("config-0.yaml", NFile []);
    ("notes.txt", NFile bytes_2)]) [].
Definition forget_record (name : string) : FsM () := fs_ignore (unlink name).
Definition no_controller (_ : Epoch) : FsM () := fs_ret tt.

Lemma sweep_clears_the_directory_witness :
  fs_dir (sweep_orphans "/run/core" forget_record no_controller littered).2 !! "config-7.yaml" = None.
Proof.
  apply (sweep_clears_the_directory "/run/core" forget_record no_controller) with (fs := littered)
    (max_seen := 7) (n := 7).
  - intros name d. apply fwp_ignore, fwp_unlink; intros; [by left|]. apply shrinks_dir_delete.
  - intros e d. apply fwp_ret. by left.
  - vm_compute. reflexivity.
  - reflexivity.
  - apply (artifact_runtime 7).
Defined.

(** The replacement fails at its rename: the old document stays. *)
Definition staged_7 : Fs :=
  dir_of (list_to_map [("config-7.yaml", NFile bytes_1); (".config-7.yaml.tmp-1-0", NFile bytes_2)])
    [None; None; Some "disk full"].
Lemma commit_replace_is_atomic_witness :
  fs_dir (commit_replace "/run/core" ".config-7.yaml.tmp-1-0" 7%positive staged_7).2 !! "config-7.yaml"
    = Some (NFile bytes_1).
Proof.
  pose proof (commit_replace_is_atomic "/run/core" ".config-7.yaml.tmp-1-0" 7%positive staged_7 eq_refl) as Hr.
  destruct (commit_replace "/run/core" ".config-7.yaml.tmp-1-0" 7%positive staged_7) as [r fs'] eqn:E.
  destruct Hr as [_ Hr]. cbn [snd].
  assert (r = Err (io_error "disk full")) as ->.
  { change r with (r, fs').1. rewrite <- E. vm_compute. reflexivity. }
  change "config-7.yaml" with (runtime_name 7%positive). rewrite Hr. vm_compute. reflexivity.
Defined.

Definition running_7 : Fs := dir_of (list_to_map [("config-7.yaml", NFile bytes_1)]) [].
Definition backed_7 : Fs := (backup "/run/core" 1 7%positive 2 running_7).2.
(** Another document is installed after the backup. *)
Definition replaced_7 : Fs := (replace "/run/core" 1 7%positive bytes_2 backed_7).2.
Definition backup_7 : Backup := {| ba_name := "config-7.yaml.backup-2"; ba_epoch := 7%positive |}.

Lemma restore_returns_the_backup_witness :
  fs_dir replaced_7 !! "config-7.yaml" = Some (NFile bytes_2)
  /\ exists bytes, fs_dir (restore "/run/core" 1 backup_7 replaced_7).2 !! runtime_name 7%positive = Some (NFile bytes).
Proof.
  split; [vm_compute; reflexivity|].
  destruct (restore_returns_the_backup "/run/core" 1 7%positive 2 running_7 backup_7 backed_7 replaced_7
    ("/run/core/config-7.yaml", None) (restore "/run/core" 1 backup_7 replaced_7).2) as (bytes & _ & _ & H3).
  - vm_compute. reflexivity.
  - vm_compute. reflexivity.
  - vm_compute. reflexivity.
  - exists bytes. exact H3.
Defined.
