(* ===== verification/AtomicFs.v ===== *)
(** * Locks, replacements and permissions of files

    The rest of [chimera-utils/src/io/atomic_fs.rs] (the publication on a Unix host is
    in [RuntimeStore] and [RuntimeDisk]): the lock of a directory, as a Unix and a
    Windows host give it, the retried replacement of Windows, and the permissions
    its directories get and are checked for. *)

From stdpp Require Import relations.
From S2P Require Import Prelude Types PidRecord.
Open Scope rust_scope.

(** ** Targets and failures *)

Inductive Target := TUnix | TWindows | TOther.

Inductive AtomicFsError :=
| UnsafePath (path : string)
| Contended (path : string)
| AtomicIo (error : StdError).
(** [From<AtomicFsError> for Error]. *)
Definition Error_from_atomic (error : AtomicFsError) : Error :=
  match error with
  | UnsafePath path => UnsafeRuntimeArtifact path
  | Contended path => RuntimeDirectoryOwned path
  | AtomicIo io_error =>
      IoErr {| ioe_not_found := bool_decide (se_kind io_error = EkNotFound); ioe_text := se_text io_error |}
  end.

(** What [symlink_metadata] tells. *)
Record Metadata := { md_symlink : bool; md_file : bool; md_dir : bool; md_attributes : N }.
Definition FILE_ATTRIBUTE_REPARSE_POINT : N := 0x400.
Definition is_reparse_point (t : Target) (metadata : Metadata) : bool :=
  match t with
  | TWindows => negb (N.land (md_attributes metadata) FILE_ATTRIBUTE_REPARSE_POINT =? 0)
  | _ => false
  end.
Definition ERROR_ACCESS_DENIED : N := 5.
Definition ERROR_SHARING_VIOLATION : N := 32.
Definition ERROR_LOCK_VIOLATION : N := 33.
Definition sharing_failure (error : StdError) : bool :=
  bool_decide (se_raw error ∈ [Some ERROR_ACCESS_DENIED; Some ERROR_SHARING_VIOLATION; Some ERROR_LOCK_VIOLATION]).
Definition dir_lock_is_contended (t : Target) (error : StdError) : bool :=
  match t with
  | TUnix => bool_decide (se_kind error ∈ [EkWouldBlock; EkPermissionDenied])
  | TWindows => sharing_failure error
  | TOther => false
  end.

(** ** The lock of a directory *)

(** The entries with the file behind them, the locks by file with the handle that
    holds each, and the faults of the calls to come. *)
Record Host := {
  ho_dir : gmap string (N * Metadata);
  ho_next : N;
  ho_locks : gmap N N;
  ho_faults : list (option StdError);
}.
Definition with_locks (locks : gmap N N) (h : Host) : Host :=
  {| ho_dir := ho_dir h; ho_next := ho_next h; ho_locks := locks; ho_faults := ho_faults h |}.
Definition with_entries (dir : gmap string (N * Metadata)) (next : N) (h : Host) : Host :=
  {| ho_dir := dir; ho_next := next; ho_locks := ho_locks h; ho_faults := ho_faults h |}.

Definition HostM (A : Type) : Type := Host -> result A StdError * Host.
Definition sys {A} (op : HostM A) : HostM A :=
  fun h =>
    let rest := {| ho_dir := ho_dir h; ho_next := ho_next h; ho_locks := ho_locks h; ho_faults := List.tl (ho_faults h) |} in
    match ho_faults h with
    | Some error :: _ => (Err error, rest)
    | _ => op rest
    end.

Definition no_such_file : StdError := {| se_kind := EkNotFound; se_raw := Some 2; se_text := "No such file or directory" |}.
Definition would_block : StdError := {| se_kind := EkWouldBlock; se_raw := Some 11; se_text := "Resource temporarily unavailable" |}.
Definition sharing_violation : StdError :=
  {| se_kind := EkOther; se_raw := Some ERROR_SHARING_VIOLATION; se_text := "The process cannot access the file" |}.
Definition regular : Metadata := {| md_symlink := false; md_file := true; md_dir := false; md_attributes := 0 |}.

Definition symlink_metadata (path : string) : HostM Metadata :=
  sys (fun h => (match ho_dir h !! path with Some (_, metadata) => Ok metadata | None => Err no_such_file end, h)).
(** [create(true)], on Windows with no sharing: the handle that is open already is
    the lock. *)
Definition open (t : Target) (holder : N) (path : string) : HostM N :=
  sys (fun h =>
    let '(inode, h) :=
      match ho_dir h !! path with
      | Some (inode, _) => (inode, h)
      | None => (ho_next h, with_entries (<[path := (ho_next h, regular)]> (ho_dir h)) (ho_next h + 1) h)
      end in
    match t with
    | TWindows =>
        match ho_locks h !! inode with
        | Some _ => (Err sharing_violation, h)
        | None => (Ok inode, with_locks (<[inode := holder]> (ho_locks h)) h)
        end
    | _ => (Ok inode, h)
    end).
Definition flock (holder inode : N) : HostM () :=
  sys (fun h =>
    match ho_locks h !! inode with
    | Some _ => (Err would_block, h)
    | None => (Ok tt, with_locks (<[inode := holder]> (ho_locks h)) h)
    end).

Record DirLock := { dl_inode : N }.
Definition contended_or_io (t : Target) (path : string) (error : StdError) : AtomicFsError :=
  if dir_lock_is_contended t error then Contended path else AtomicIo error.

(** The part from the open on. *)
Definition take_lock (t : Target) (holder : N) (path : string) (h : Host) : result DirLock AtomicFsError * Host :=
  match open t holder path h with
  | (Err error, h) => (Err (contended_or_io t path error), h)
  | (Ok inode, h) =>
      match t with
      | TUnix =>
          match flock holder inode h with
          | (Err error, h) => (Err (contended_or_io t path error), h)
          | (Ok _, h) => (Ok {| dl_inode := inode |}, h)
          end
      | _ => (Ok {| dl_inode := inode |}, h)
      end
  end.
Definition acquire_dir_lock (t : Target) (holder : N) (path : string) (h : Host) : result DirLock AtomicFsError * Host :=
  match symlink_metadata path h with
  | (Ok metadata, h) =>
      if (md_symlink metadata || negb (md_file metadata) || is_reparse_point t metadata)%bool
      then (Err (UnsafePath path), h)
      else take_lock t holder path h
  | (Err error, h) =>
      if decide (se_kind error = EkNotFound) then take_lock t holder path h else (Err (AtomicIo error), h)
  end.
(** Dropping the lock, or the death of its process. *)
Definition release (holder : N) (h : Host) : Host :=
  with_locks (filter (fun lock => lock.2 <> holder) (ho_locks h)) h.

(** ** At most one owner *)

Section Ownership.
Context (t : Target) (path : string).

(** Managers come and go: they try to take the lock, whatever call fails, drop it or
    die, and files change around it, but for the entry of the lock itself. *)
Record LockWorld := { lw_host : Host; lw_owners : gset N }.
Inductive lock_step : LockWorld -> LockWorld -> Prop :=
| LsTaken w holder lock h :
    acquire_dir_lock t holder path (lw_host w) = (Ok lock, h) ->
    lock_step w {| lw_host := h; lw_owners := {[holder]} ∪ lw_owners w |}
| LsRefused w holder error h :
    acquire_dir_lock t holder path (lw_host w) = (Err error, h) ->
    lock_step w {| lw_host := h; lw_owners := lw_owners w |}
| LsReleased w holder :
    lock_step w {| lw_host := release holder (lw_host w); lw_owners := lw_owners w ∖ {[holder]} |}
| LsFiles w dir next faults :
    dir !! path = ho_dir (lw_host w) !! path ->
    lock_step w {| lw_host := {| ho_dir := dir; ho_next := next; ho_locks := ho_locks (lw_host w); ho_faults := faults |};
                   lw_owners := lw_owners w |}.
Definition lock_initial (dir : gmap string (N * Metadata)) (next : N) : LockWorld :=
  {| lw_host := {| ho_dir := dir; ho_next := next; ho_locks := ∅; ho_faults := [] |}; lw_owners := ∅ |}.

Definition plain (metadata : Metadata) : Prop :=
  (md_symlink metadata || negb (md_file metadata) || is_reparse_point t metadata)%bool = false.
Definition lock_invariant (w : LockWorld) : Prop :=
  forall p, p ∈ lw_owners w ->
    exists inode metadata, ho_dir (lw_host w) !! path = Some (inode, metadata) /\ ho_locks (lw_host w) !! inode = Some p.

(** An attempt leaves the entry where there was one, and takes a lock nobody has. *)
Definition attempt_spec (holder : N) (h : Host) (outcome : result DirLock AtomicFsError * Host) : Prop :=
  (ho_dir h !! path <> None -> ho_dir outcome.2 !! path = ho_dir h !! path) /\
  match outcome.1 with
  | Ok _ => exists inode metadata, ho_dir outcome.2 !! path = Some (inode, metadata) 
              /\ ho_locks h !! inode = None /\ ho_locks outcome.2 = <[inode := holder]> (ho_locks h)
  | Err _ => ho_locks outcome.2 = ho_locks h
  end.
Lemma take_lock_spec holder h :
  t <> TOther -> attempt_spec holder h (take_lock t holder path h).
Proof.
  intros Ht. unfold take_lock, open, sys, attempt_spec.
  destruct (ho_faults h) as [|[e|] faults]; [| done |]; cbn.
  all: destruct (ho_dir h !! path) as [[inode metadata]|] eqn:Hd; cbn.
  all: destruct t; try done; cbn.
  all: try (unfold flock, sys; cbn; destruct faults as [|[e|] faults]; cbn).
  all: try (destruct (ho_locks h !! _) eqn:Hl; cbn).
  all: split; [done|].
  all: try done.
  all: try (by exists inode, metadata; done).
  all: exists (ho_next h), regular; by rewrite lookup_insert_eq.
Qed.
Lemma acquire_spec holder h :
  t <> TOther -> attempt_spec holder h (acquire_dir_lock t holder path h).
Proof.
  intros Ht. unfold acquire_dir_lock. destruct (symlink_metadata path h) as [r h1] eqn:Hm.
  assert (ho_dir h1 = ho_dir h /\ ho_locks h1 = ho_locks h) as [Hd Hl].
  { unfold symlink_metadata, sys in Hm. destruct (ho_faults h) as [|[error|] faults]; by simplify_eq. }
  assert (Htake : attempt_spec holder h (take_lock t holder path h1)).
  { pose proof (take_lock_spec holder h1 Ht) as Ha. unfold attempt_spec in *. by rewrite Hd, Hl in Ha. }
  destruct r as [metadata|error].
  - destruct (_ || _ || _)%bool; [|done]. split; [by rewrite <- Hd|done].
  - case_decide; [done|]. split; [by rewrite <- Hd|done].
Qed.

Lemma step_keeps_the_owner w w' : t <> TOther -> lock_step w w' -> lock_invariant w -> lock_invariant w'.
Proof.
  intros Ht [w0 holder lock h Ha|w0 holder error h Ha|w0 holder|w0 dir next faults Hd] Hinv p Hp; cbn in *.
  - pose proof (acquire_spec holder (lw_host w0) Ht) as Hs. rewrite Ha in Hs. destruct Hs as [Hkeep (inode & metadata & Hd & Hfree & Hl)]. cbn in *.
    exists inode, metadata. split; [done|]. rewrite Hl. apply elem_of_union in Hp as [->%elem_of_singleton|Hp].
    + by rewrite lookup_insert_eq.
    + destruct (Hinv p Hp) as (i & md & Hi & Hlock). rewrite Hkeep, Hi in Hd by (by rewrite Hi). by simplify_eq.
  - pose proof (acquire_spec holder (lw_host w0) Ht) as Hs. rewrite Ha in Hs. destruct Hs as [Hkeep Hl]. cbn in *.
    destruct (Hinv p Hp) as (i & md & Hi & Hlock). exists i, md. rewrite Hl, Hkeep; [done|by rewrite Hi].
  - apply elem_of_difference in Hp as [Hp Hne]. destruct (Hinv p Hp) as (i & md & Hi & Hlock). exists i, md. split; [done|].
    apply map_lookup_filter_Some_2; [done|]. cbn. by intros ->; apply Hne, elem_of_singleton.
  - destruct (Hinv p Hp) as (i & md & Hi & Hlock). exists i, md. by rewrite Hd.
Qed.
Lemma reachable_owner dir next w : t <> TOther -> rtc lock_step (lock_initial dir next) w -> lock_invariant w.
Proof.
  intros Ht Hr. remember (lock_initial dir next) as w0 eqn:Hw.
  assert (lock_invariant w0) as H0 by (intros p Hp; subst; by apply elem_of_empty in Hp).
  clear Hw. induction Hr as [|w w1 w2 Hs _ IH]; [done|]. by eapply IH, step_keeps_the_owner.
Qed.
End Ownership.

(** C12: on a Unix and on a Windows host, whatever calls fail and whatever files
    change around the lock, a directory has at most one owner at a time; while it has
    one, an attempt on its lock file is refused and told the lock is contended; and
    when the owner has let go, or died, an attempt that meets no failure succeeds. *)
Theorem one_owner_per_directory t path dir next w :
  t <> TOther -> rtc (lock_step t path) (lock_initial dir next) w ->
  (forall p q, p ∈ lw_owners w -> q ∈ lw_owners w -> p = q) /\
  (forall holder inode metadata, ho_faults (lw_host w) = [] -> ho_dir (lw_host w) !! path = Some (inode, metadata) -> plain t metadata ->
     (forall p, p ∈ lw_owners w ->
        (acquire_dir_lock t holder path (lw_host w)).1 = Err (Contended path)) /\
     (forall p, ho_locks (lw_host w) !! inode = Some p ->
        is_ok (acquire_dir_lock t holder path (release p (lw_host w))).1 = true)).
Proof.
  intros Ht Hr. pose proof (reachable_owner t path dir next w Ht Hr) as Hinv. split.
  - intros p q Hp Hq. destruct (Hinv p Hp) as (i & md & Hi & Hlp), (Hinv q Hq) as (j & md' & Hj & Hlq). by simplify_eq.
  - intros holder inode metadata Hf Hd Hplain. split.
    + intros p Hp. destruct (Hinv p Hp) as (i & md & Hi & Hlp). simplify_eq. unfold acquire_dir_lock, symlink_metadata, take_lock, open, flock, sys.
      rewrite Hf. cbn. rewrite Hd. cbn. rewrite Hplain. cbn.
      destruct t; [| |done]; cbn; rewrite Hlp; done.
    + intros p Hp. unfold acquire_dir_lock, symlink_metadata, take_lock, open, flock, sys, release. cbn.
      rewrite Hf. cbn. rewrite Hd. cbn. rewrite Hplain. cbn.
      assert (filter (fun lock : N * N => lock.2 <> p) (ho_locks (lw_host w)) !! inode = None) as Hfree.
      { apply map_lookup_filter_None_2. right. intros q Hq. cbn. intros Hne. by simplify_eq. }
      destruct t; [| |done]; cbn; by rewrite Hfree.
Qed.

(** ** Replacement on Windows *)

Definition REPLACE_RETRIES : nat := 20.
Definition REPLACE_PAUSE_MS : Z := 25.
Section Replace.
(** What [windows_replace_file] answers the n-th time it is asked. *)
Context (windows_replace_file : nat -> result () AtomicFsError).

(** The loop from [attempt] on: what it returns ([None] is the [unreachable!] behind
    it), with the number of attempts and the time slept. *)
Fixpoint replace_attempts (attempts : list nat) : option (result () AtomicFsError) * nat * Z :=
  match attempts with
  | [] => (None, 0%nat, 0%Z)
  | attempt :: rest =>
      match windows_replace_file attempt with
      | Ok _ => (Some (Ok tt), 1%nat, 0%Z)
      | Err error =>
          let again := match error with
                       | AtomicIo error => sharing_failure error && bool_decide (attempt + 1 < REPLACE_RETRIES)%nat
                       | _ => false
                       end in
          if again then
            let '(r, tries, slept) := replace_attempts rest in (r, S tries, (REPLACE_PAUSE_MS + slept)%Z)
          else (Some (Err error), 1%nat, 0%Z)
      end
  end.
Definition atomic_replace : option (result () AtomicFsError) * nat * Z := replace_attempts (seq 0 REPLACE_RETRIES).

Definition passing (r : result () AtomicFsError) : Prop := exists error, r = Err (AtomicIo error) /\ sharing_failure error = true.
Lemma replace_attempts_spec n k :
  (0 < n)%nat -> (k + n = REPLACE_RETRIES)%nat ->
  exists tries,
    (tries < n)%nat /\ replace_attempts (seq k n) = (Some (windows_replace_file (k + tries)), S tries, (REPLACE_PAUSE_MS * Z.of_nat tries)%Z) /\
    (forall i, (i < tries)%nat -> passing (windows_replace_file (k + i))) /\
    (passing (windows_replace_file (k + tries)) -> S tries = n).
Proof.
  revert k; induction n as [|n IH]; intros k Hn Hk; [lia|]. cbn [seq replace_attempts].
  destruct (windows_replace_file k) as [[]|error] eqn:Hw.
  { exists 0%nat. rewrite Nat.add_0_r, Hw. split_and!; [lia|done|lia|by intros (? & ? & _)]. }
  destruct (match error with AtomicIo error => _ | _ => _ end) eqn:Hagain.
  - destruct error as [| |error]; try done. apply andb_true_iff in Hagain as [Hs Hlt%bool_decide_eq_true].
    destruct (IH (S k)) as (tries & Ht & -> & Hpass & Hlast); [lia|lia|].
    exists (S tries). rewrite Nat.add_succ_r. split_and!; [lia|do 2 f_equal; unfold REPLACE_PAUSE_MS; lia| |].
    + intros [|i] Hi; [rewrite Nat.add_0_r, Hw; by exists error|]. rewrite Nat.add_succ_r. apply Hpass; lia.
    + intros Hp. by rewrite (Hlast Hp).
  - exists 0%nat. rewrite Nat.add_0_r, Hw. split_and!; [lia|done|lia|]. intros (error' & Heq & Hs). injection Heq as ->.
    rewrite Hs in Hagain. apply bool_decide_eq_false in Hagain. lia.
Qed.

(** The loop answers what one of its attempts answered, the first that is not
    a sharing failure or the last of all: it never runs into its [unreachable!], asks
    at most twenty times, and sleeps less than half a second. *)
Theorem replacement_is_tried_again_while_shared :
  exists tries,
    atomic_replace = (Some (windows_replace_file tries), S tries, (25 * Z.of_nat tries)%Z) /\ (tries < 20)%nat /\
    (forall i, (i < tries)%nat -> passing (windows_replace_file i)) /\
    (passing (windows_replace_file tries) -> tries = 19%nat).
Proof.
  destruct (replace_attempts_spec REPLACE_RETRIES 0) as (tries & Ht & Hr & Hpass & Hlast); [unfold REPLACE_RETRIES; lia|lia|].
  exists tries. unfold REPLACE_RETRIES in *. split_and!; [done|done|done|]. intros Hp. specialize (Hlast Hp). lia.
Qed.
End Replace.

(** ** What the Windows calls are asked for *)

Definition MOVEFILE_REPLACE_EXISTING : N := 1.
Definition MOVEFILE_WRITE_THROUGH : N := 8.
Definition windows_move_flags (replace : bool) : N :=
  N.lor MOVEFILE_WRITE_THROUGH (if replace then MOVEFILE_REPLACE_EXISTING else 0).

(** [windows_io_error]: the code of a Win32 failure behind an [HRESULT]. *)
Inductive WindowsIoError := RawOsError (code : N) | OtherError (code : N).
Definition windows_io_error (code : N) : WindowsIoError :=
  if decide (N.land code 0xffff0000 = 0x80070000) then RawOsError (N.land code 0xffff) else OtherError code.
(** [HRESULT_FROM_WIN32], as Windows documents it. *)
Definition hresult_from_win32 (e : N) : N := N.lor (N.land e 0xffff) 0x80070000.
Lemma windows_io_error_of_win32 e : e < 0x10000 -> windows_io_error (hresult_from_win32 e) = RawOsError e.
Proof.
  intros He. unfold windows_io_error, hresult_from_win32.
  assert (N.land e 0xffff = e) as He'. { change 0xffff with (N.ones 16). rewrite N.land_ones. by apply N.mod_small. }
  assert (N.land e 0xffff0000 = 0) as Hhigh.
  { rewrite <- He', <- N.land_assoc. change (N.land 0xffff 0xffff0000) with 0. apply N.land_0_r. }
  rewrite !N.land_lor_distr_l, <- !N.land_assoc.
  change (N.land 0xffff 0xffff0000) with 0. change (N.land 0x80070000 0xffff0000) with 0x80070000.
  change (N.land 0xffff 0xffff) with 0xffff. change (N.land 0x80070000 0xffff) with 0.
  by rewrite N.land_0_r, He', decide_True, N.lor_0_r.
Qed.

(** ** Permissions of a directory *)

(** What the security calls of Windows answer about a path. *)
Record AclApi := {
  aa_parse : string -> result N N;
  aa_set : N -> result () StdError;
  aa_needed : N;
  aa_last_error : StdError;
  aa_get : result () StdError;
  aa_control : result N N;
  aa_print : result string N;
}.
Definition io_of (code : N) : AtomicFsError :=
  AtomicIo match windows_io_error code with
           | RawOsError raw => {| se_kind := EkOther; se_raw := Some raw; se_text := "" |}
           | OtherError _ => {| se_kind := EkOther; se_raw := None; se_text := "" |}
           end.
Definition HARDENED_SDDL : string := "D:P(A;OICI;FA;;;OW)(A;OICI;FA;;;SY)(A;OICI;FA;;;BA)".
Definition SE_DACL_PROTECTED : N := 0x1000.
Definition BROAD_PRINCIPALS : list string := [";;;WD)"; ";;;AU)"; ";;;BU)"; ";;;IU)"; ";;;AN)"; ";;;NU)"].
Definition harden_windows_directory_acl (api : AclApi) : result () AtomicFsError :=
  let? descriptor := map_err io_of (aa_parse api HARDENED_SDDL) in
  map_err AtomicIo (aa_set api descriptor).
Definition verify_windows_directory_acl (api : AclApi) (path : string) : result () AtomicFsError :=
  if aa_needed api =? 0 then Err (AtomicIo (aa_last_error api))
  else
    let? _ := map_err AtomicIo (aa_get api) in
    let? control := map_err io_of (aa_control api) in
    if N.land control SE_DACL_PROTECTED =? 0 then Err (UnsafePath path)
    else
      let? text := map_err io_of (aa_print api) in
      if existsb (fun principal => str_contains principal text) BROAD_PRINCIPALS then Err (UnsafePath path)
      else Ok tt.

Lemma str_contains_middle (p before after : string) : str_contains p (before +:+ p +:+ after) = true.
Proof.
  unfold str_contains. apply bool_decide_eq_true.
  induction before as [|a before IH]; rewrite split_once_eq.
  - rewrite string_app_nil_l, strip_prefix_app. by eexists.
  - destruct (strip_prefix p _) as [r|]; [by eexists|]. rewrite string_app_cons. destruct IH as [[l r] ->]. by eexists.
Qed.

(** An accepted directory is protected from inheritance and grants nothing to a broad
    principal; what [harden_windows_directory_acl] sets is accepted. *)
Definition ace (trustee : string) : string := "(A;OICI;FA;;;" +:+ trustee +:+ ")".
Lemma verified_directories_are_private api path :
  verify_windows_directory_acl api path = Ok tt ->
  exists control text, aa_control api = Ok control /\ N.land control SE_DACL_PROTECTED <> 0
    /\ aa_print api = Ok text
    /\ forall trustee before after, trustee ∈ ["WD"; "AU"; "BU"; "IU"; "AN"; "NU"] -> text <> before +:+ ace trustee +:+ after.
Proof.
  unfold verify_windows_directory_acl. destruct (aa_needed api =? 0); [done|].
  destruct (aa_get api), (aa_control api) as [control|], (aa_print api) as [text|]; cbn [result_bind map_err]; try done.
  all: destruct (N.land control SE_DACL_PROTECTED =? 0) eqn:Hc; try done.
  destruct (existsb (fun principal => str_contains principal text) BROAD_PRINCIPALS) eqn:He; [done|]. intros _. exists control, text. split_and!; [done|by apply N.eqb_neq|done|].
  intros trustee before after Ht ->. apply not_true_iff_false in He. apply He, existsb_exists.
  exists (";;;" +:+ trustee +:+ ")"). split.
  - unfold BROAD_PRINCIPALS. repeat (apply elem_of_cons in Ht as [->|Ht]; [vm_compute; auto 10|]). by apply elem_of_nil in Ht.
  - unfold ace. change "(A;OICI;FA;;;" with ("(A;OICI;FA" +:+ ";;;"). rewrite !string_app_assoc.
    pose proof (str_contains_middle (";;;" +:+ trustee +:+ ")") (before +:+ "(A;OICI;FA") after) as Hm.
    by rewrite !string_app_assoc in Hm.
Qed.
Lemma hardened_directories_are_accepted api path control :
  aa_needed api <> 0 -> aa_get api = Ok tt -> aa_control api = Ok control -> N.testbit control 12 = true ->
  aa_print api = Ok HARDENED_SDDL -> verify_windows_directory_acl api path = Ok tt.
Proof.
  intros Hn Hg Hc Hb Hp. unfold verify_windows_directory_acl. apply N.eqb_neq in Hn. rewrite Hn, Hg, Hc, Hp. cbn [result_bind map_err].
  destruct (N.land control SE_DACL_PROTECTED =? 0) eqn:Hz; [|by vm_compute].
  apply N.eqb_eq in Hz. assert (N.testbit (N.land control SE_DACL_PROTECTED) 12 = false) as Ht by (by rewrite Hz).
  by rewrite N.land_spec, Hb in Ht.
Qed.

(** A host with the lock taken once, refused once and taken again after its owner died. *)
Module LockExample.
Definition entries : gmap string (N * Metadata) := {[ "lock" := (0, regular) ]}.
Definition taken : Host := (acquire_dir_lock TUnix 7 "lock" (lw_host (lock_initial entries 1))).2.
Definition owned : LockWorld := {| lw_host := taken; lw_owners := {[ 7 ]} ∪ ∅ |}.
Example a_second_one_is_refused : (acquire_dir_lock TUnix 8 "lock" taken).1 = Err (Contended "lock").
Proof. vm_compute. reflexivity. Qed.
Example the_dead_make_room : (acquire_dir_lock TUnix 8 "lock" (release 7 taken)).1 = Ok {| dl_inode := 0 |}.
Proof. vm_compute. reflexivity. Qed.
Lemma owned_reachable : rtc (lock_step TUnix "lock") (lock_initial entries 1) owned.
Proof. apply rtc_once. by apply (LsTaken TUnix "lock" (lock_initial entries 1) 7 {| dl_inode := 0 |}). Qed.
End LockExample.

Lemma one_owner_per_directory_witness :
  TUnix <> TOther /\ rtc (lock_step TUnix "lock") (lock_initial LockExample.entries 1) LockExample.owned
  /\ forall p q, p ∈ lw_owners LockExample.owned -> q ∈ lw_owners LockExample.owned -> p = q.
Proof.
  split; [discriminate|]. split; [exact LockExample.owned_reachable|].
  exact (proj1 (one_owner_per_directory TUnix "lock" LockExample.entries 1 LockExample.owned ltac:(discriminate) LockExample.owned_reachable)).
Defined.
