(* ===== verification/RuntimeDisk.v ===== *)
(** * The runtime store on a disk that may lose power

    [RuntimeStore] sees the directory as the running system does.  Here the same
    operations ([stage], [commit_new], [commit_replace] of [config/runtime_store.rs])
    run on a disk that keeps what was not synced only by luck: after a power loss the
    directory is as one of the states it went through since it was last synced, and a
    file that was written and not synced holds anything.  The directory of the disk
    is that of [RuntimeStore], and no power loss tears a configuration. *)

From S2P Require Import RuntimeStore.
Open Scope rust_scope.
Open Scope fs_scope.

(** ** Disks *)

Record Inode := { in_contents : list Byte.byte; in_synced : bool }.
Inductive DirEntry := EFile (inode : nat) | EOther (node : Node).
Notation Entries := (gmap string DirEntry).
(** The files, the directory, and the directories it was since it was synced (that
    one included). *)
Record Disk := { dk_inodes : list Inode; dk_dir : Entries; dk_before : list Entries }.

Definition node_of (inodes : list Inode) (e : DirEntry) : Node :=
  match e with
  | EFile i => NFile (default [] (in_contents <$> inodes !! i))
  | EOther node => node
  end.
(** The directory as the system sees it. *)
Definition view (dk : Disk) : gmap string Node := node_of (dk_inodes dk) <$> dk_dir dk.

(** What a power loss may leave at a name. *)
Definition possible (dk : Disk) : list Entries := dk_dir dk :: dk_before dk.
Definition may_leave (dk : Disk) (name : string) (left : option Node) : Prop :=
  exists dir, dir ∈ possible dk /\
    match dir !! name with
    | None => left = None
    | Some (EOther node) => left = Some node
    | Some (EFile i) =>
        exists contents, left = Some (NFile contents) /\
          forall inode, dk_inodes dk !! i = Some inode -> in_synced inode = true -> contents = in_contents inode
    end.
Definition well_formed (dk : Disk) : Prop :=
  forall dir name, dir ∈ possible dk ->
    match dir !! name with
    | Some (EFile i) => (i < length (dk_inodes dk))%nat
    | Some (EOther (NFile _)) => False
    | _ => True
    end.

(** ** Programs *)

(** The disk, the disks before the calls made so far, the faults to come, and
    [TEMP_COUNTER]. *)
Record Machine := { ma_disk : Disk; ma_past : list Disk; ma_faults : list (option string); ma_counter : N }.
Definition DiskM (A : Type) : Type := Machine -> result A Error * Machine.
Definition dk_ret {A} (a : A) : DiskM A := fun m => (Ok a, m).
Definition dk_err {A} (e : Error) : DiskM A := fun m => (Err e, m).
Definition dk_bind {A B} (c : DiskM A) (k : A -> DiskM B) : DiskM B :=
  fun m => match c m with (Ok a, m') => k a m' | (Err e, m') => (Err e, m') end.
Definition dk_ignore {A} (c : DiskM A) : DiskM () := fun m => (Ok tt, (c m).2).
Definition dk_on_err {A} (c : DiskM A) (cleanup : DiskM ()) : DiskM A :=
  fun m => match c m with
           | (Ok a, m') => (Ok a, m')
           | (Err e, m') => (Err e, (cleanup m').2)
           end.
Declare Scope disk_scope.
Delimit Scope disk_scope with disk.
Notation "'let+' x ':=' c 'in' k" := (dk_bind c (fun x => k))
  (at level 10, x pattern, c at level 100, k at level 200) : disk_scope.
Notation "c ;+ k" := (dk_bind c (fun _ => k)) (at level 100, k at level 200, right associativity) : disk_scope.
Open Scope disk_scope.

Definition call {A} (op : Disk -> result A Error * Disk) : DiskM A :=
  fun m =>
    match ma_faults m with
    | Some text :: rest =>
        (Err (io_error text), {| ma_disk := ma_disk m; ma_past := ma_past m; ma_faults := rest; ma_counter := ma_counter m |})
    | faults =>
        let '(r, dk) := op (ma_disk m) in
        (r, {| ma_disk := dk; ma_past := ma_disk m :: ma_past m; ma_faults := List.tl faults; ma_counter := ma_counter m |})
    end.

(** A change of the directory reaches the disk some time before the next sync. *)
Definition set_dir (dir : Entries) (dk : Disk) : Disk :=
  {| dk_inodes := dk_inodes dk; dk_dir := dir; dk_before := dk_dir dk :: dk_before dk |}.
Definition set_inode (i : nat) (inode : Inode) (dk : Disk) : Disk :=
  {| dk_inodes := <[i := inode]> (dk_inodes dk); dk_dir := dk_dir dk; dk_before := dk_before dk |}.

Definition dk_lstat (name : string) : DiskM (option Node) := call (fun dk => (Ok (view dk !! name), dk)).
Definition dk_nop : DiskM () := call (fun dk => (Ok tt, dk)).
Definition dk_unlink (name : string) : DiskM () :=
  call (fun dk => match view dk !! name with
                  | None => (Err not_found, dk)
                  | Some NDirectory => (Err (io_error "Is a directory (os error 21)"), dk)
                  | Some _ => (Ok tt, set_dir (delete name (dk_dir dk)) dk)
                  end).
Definition dk_hard_link (source target : string) : DiskM () :=
  call (fun dk => match dk_dir dk !! source, dk_dir dk !! target with
                  | None, _ => (Err not_found, dk)
                  | _, Some _ => (Err (io_error "File exists (os error 17)"), dk)
                  | Some e, None => (Ok tt, set_dir (<[target := e]> (dk_dir dk)) dk)
                  end).
Definition dk_rename (source target : string) : DiskM () :=
  call (fun dk => match dk_dir dk !! source, view dk !! target with
                  | None, _ => (Err not_found, dk)
                  | _, Some NDirectory => (Err (io_error "Is a directory (os error 21)"), dk)
                  | Some e, _ => (Ok tt, set_dir (<[target := e]> (delete source (dk_dir dk))) dk)
                  end).
(** The handle of the new file. *)
Definition dk_create_new (name : string) : DiskM nat :=
  call (fun dk => match dk_dir dk !! name with
                  | Some _ => (Err (io_error "File exists (os error 17)"), dk)
                  | None =>
                      let i := length (dk_inodes dk) in
                      (Ok i, set_dir (<[name := EFile i]> (dk_dir dk))
                               {| dk_inodes := dk_inodes dk ++ [{| in_contents := []; in_synced := false |}];
                                  dk_dir := dk_dir dk; dk_before := dk_before dk |})
                  end).
Definition dk_write_all (file : nat) (contents : list Byte.byte) : DiskM () :=
  call (fun dk => (Ok tt, set_inode file {| in_contents := contents; in_synced := false |} dk)).
Definition dk_sync_all (file : nat) : DiskM () :=
  call (fun dk => (Ok tt, match dk_inodes dk !! file with
                          | Some inode => set_inode file {| in_contents := in_contents inode; in_synced := true |} dk
                          | None => dk
                          end)).
Definition dk_sync_dir : DiskM () :=
  call (fun dk => (Ok tt, {| dk_inodes := dk_inodes dk; dk_dir := dk_dir dk; dk_before := [] |})).

(** ** The store *)

Section Store.
Context (dir : string) (process_id : N).

Definition dk_unsafe_path {A} (name : string) : DiskM A := dk_err (UnsafeRuntimeArtifact (path_join dir name)).
Definition dk_validate_absent (name : string) : DiskM () :=
  let+ node := dk_lstat name in
  match node with
  | None => dk_ret tt
  | Some (NFile _) => dk_err (io_error ("runtime artifact already exists: " +:+ path_join dir name))
  | Some _ => dk_unsafe_path name
  end.
Definition dk_validate_existing (name : string) : DiskM () :=
  let+ node := dk_lstat name in
  match node with
  | None => dk_err not_found
  | Some (NFile _) => dk_ret tt
  | Some _ => dk_unsafe_path name
  end.
Definition dk_atomic_move_new (source target : string) : DiskM () := dk_hard_link source target ;+ dk_unlink source.
Definition dk_drop_staged (staged : Staged) : DiskM () := dk_ignore (dk_unlink staged).
Definition dk_next_temp : DiskM N :=
  fun m => (Ok (ma_counter m),
            {| ma_disk := ma_disk m; ma_past := ma_past m; ma_faults := ma_faults m;
               ma_counter := (ma_counter m + 1) mod u64_modulus |}).

Definition dk_stage (epoch : Epoch) (contents : list Byte.byte) : DiskM Staged :=
  let+ counter := dk_next_temp in
  let path := staged_prefix (Epoch_get epoch) +:+ show_N process_id +:+ "-" +:+ show_N counter in
  dk_validate_absent path ;+
  let+ file := dk_create_new path in
  (* set_permissions *) dk_nop ;+
  dk_on_err
    (dk_write_all file contents ;+ (* flush *) dk_nop ;+ dk_sync_all file)
    (dk_ignore (dk_unlink path)) ;+
  dk_ret path.
Definition dk_validate_staged (staged : Staged) (epoch : Epoch) : DiskM () :=
  if starts_with (staged_prefix (Epoch_get epoch)) staged
  then dk_validate_existing staged
  else dk_unsafe_path staged.
Definition dk_commit_new (staged : Staged) (epoch : Epoch) : DiskM string :=
  let target := runtime_name epoch in
  dk_on_err
    (dk_validate_staged staged epoch ;+
     dk_validate_absent target ;+
     dk_atomic_move_new staged target)
    (dk_drop_staged staged) ;+
  dk_sync_dir ;+
  dk_ret (path_join dir target).
Definition dk_commit_replace (staged : Staged) (epoch : Epoch) : DiskM (string * option string) :=
  let target := runtime_name epoch in
  dk_on_err
    (dk_validate_staged staged epoch ;+
     dk_validate_existing target ;+
     dk_rename staged target)
    (dk_drop_staged staged) ;+
  fun m => let '(parent_sync, m') := dk_sync_dir m in (Ok (installed_commit dir target parent_sync), m').
Definition dk_replace (epoch : Epoch) (contents : list Byte.byte) : DiskM (string * option string) :=
  let+ staged := dk_stage epoch contents in
  dk_commit_replace staged epoch.
(** A first publication, as the manager makes it. *)
Definition dk_publish (epoch : Epoch) (contents : list Byte.byte) : DiskM string :=
  let+ staged := dk_stage epoch contents in
  dk_commit_new staged epoch.
End Store.

(** ** The directory of the disk is the store's *)

Definition fs_of (m : Machine) : Fs :=
  {| fs_dir := view (ma_disk m); fs_faults := ma_faults m; fs_counter := ma_counter m |}.

Lemma view_lookup dk name : view dk !! name = node_of (dk_inodes dk) <$> dk_dir dk !! name.
Proof. apply lookup_fmap. Qed.

(** A program of the disk does what one of the store does. *)
Definition simulates {A B} (P : Disk -> Prop) (c : DiskM A) (f : FsM B) (Q : A -> B -> Disk -> Prop) : Prop :=
  forall m, well_formed (ma_disk m) -> P (ma_disk m) ->
    (f (fs_of m)).2 = fs_of (c m).2 /\ well_formed (ma_disk (c m).2) /\
    match (c m).1, (f (fs_of m)).1 with
    | Ok a, Ok b => Q a b (ma_disk (c m).2)
    | Err e, Err e' => e = e'
    | _, _ => False
    end.

Lemma sim_ret {A B} (a : A) (b : B) (P : Disk -> Prop) (Q : A -> B -> Disk -> Prop) :
  (forall dk, P dk -> Q a b dk) -> simulates P (dk_ret a) (fs_ret b) Q.
Proof. intros HQ m Hw HP. split_and!; [done|done|]. by apply HQ. Qed.
Lemma sim_err {A B} e (P : Disk -> Prop) Q : simulates (A := A) (B := B) P (dk_err e) (fs_err e) Q.
Proof. by intros m Hw HP. Qed.
Lemma sim_bind {A B A' B'} P (c : DiskM A) (f : FsM B) (Q : A -> B -> Disk -> Prop) (k : A -> DiskM A') (k' : B -> FsM B') Q' :
  simulates P c f Q -> (forall a b, simulates (Q a b) (k a) (k' b) Q') ->
  simulates P (dk_bind c k) (fs_bind f k') Q'.
Proof.
  intros Hc Hk m Hw HP. destruct (Hc m Hw HP) as (Hfs & Hw' & HQ). unfold dk_bind, fs_bind.
  destruct (c m) as [[a|e] m'], (f (fs_of m)) as [[b|e'] fs']; cbn in *; subst; try done. by apply Hk.
Qed.
Lemma sim_bind_eq {A A' B'} P (c : DiskM A) (f : FsM A) (k : A -> DiskM A') (k' : A -> FsM B') Q' :
  simulates P c f (fun a b _ => a = b) -> (forall a, simulates (fun _ => True) (k a) (k' a) Q') ->
  simulates P (dk_bind c k) (fs_bind f k') Q'.
Proof. intros Hc Hk. eapply sim_bind; [exact Hc|]. intros a b m Hw ->. by apply Hk. Qed.
Lemma sim_on_err {A B} P (c : DiskM A) (f : FsM B) Q (cl : DiskM ()) (cl' : FsM ()) :
  simulates P c f Q -> simulates (fun _ => True) cl cl' (fun _ _ _ => True) ->
  simulates P (dk_on_err c cl) (fs_on_err f cl') Q.
Proof.
  intros Hc Hcl m Hw HP. destruct (Hc m Hw HP) as (Hfs & Hw' & HQ). unfold dk_on_err, fs_on_err.
  destruct (c m) as [[a|e] m'], (f (fs_of m)) as [[b|e'] fs']; cbn in *; subst; try done.
  by destruct (Hcl m' Hw' I) as (? & ? & _).
Qed.
Lemma sim_ignore P (c : DiskM ()) (f : FsM ()) Q :
  simulates P c f Q -> simulates P (dk_ignore c) (fs_ignore f) (fun _ _ _ => True).
Proof. intros Hc m Hw HP. by destruct (Hc m Hw HP) as (? & ? & _). Qed.
Lemma sim_weaken {A B} (P P' : Disk -> Prop) (c : DiskM A) (f : FsM B) (Q Q' : A -> B -> Disk -> Prop) :
  simulates P c f Q -> (forall dk, P' dk -> P dk) -> (forall a b dk, Q a b dk -> Q' a b dk) -> simulates P' c f Q'.
Proof.
  intros Hc HP HQ m Hw Hm. destruct (Hc m Hw (HP _ Hm)) as (? & ? & Hr). split_and!; [done|done|].
  destruct (c m) as [[a|e] m'], (f (fs_of m)) as [[b|e'] fs']; cbn in *; eauto.
Qed.
Lemma sim_call {A B} (P : Disk -> Prop) (op : Disk -> result A Error * Disk) (op' : gmap string Node -> result B Error * gmap string Node) Q :
  (forall dk, well_formed dk -> P dk ->
     (op' (view dk)).2 = view (op dk).2 /\ well_formed (op dk).2 /\
     match (op dk).1, (op' (view dk)).1 with
     | Ok a, Ok b => Q a b (op dk).2
     | Err e, Err e' => e = e'
     | _, _ => False
     end) -> simulates P (call op) (syscall op') Q.
Proof.
  intros Hop m Hw HP. destruct (Hop _ Hw HP) as (Hv & Hw' & Hr). unfold call, syscall, fs_of. cbn.
  destruct (ma_faults m) as [|[text|] rest]; [|done|].
  all: destruct (op (ma_disk m)) as [r dk], (op' (view (ma_disk m))) as [r' d]; cbn in *; by subst.
Qed.

(** *** Changes of the directory *)

Lemma well_formed_set_dir dir dk :
  well_formed dk ->
  (forall name, match dir !! name with
                | Some (EFile i) => (i < length (dk_inodes dk))%nat
                | Some (EOther (NFile _)) => False
                | _ => True
                end) -> well_formed (set_dir dir dk).
Proof. intros Hw Hd d name [->|Hin]%elem_of_cons; [apply Hd|]. by apply (Hw d name). Qed.
Lemma well_formed_entry dk name e :
  well_formed dk -> dk_dir dk !! name = Some e ->
  match e with EFile i => (i < length (dk_inodes dk))%nat | EOther (NFile _) => False | _ => True end.
Proof. intros Hw He. specialize (Hw (dk_dir dk) name ltac:(by left)). by rewrite He in Hw. Qed.
Lemma well_formed_insert dk name e dir :
  well_formed dk -> match e with EFile i => (i < length (dk_inodes dk))%nat | EOther (NFile _) => False | _ => True end ->
  (forall name e, dir !! name = Some e -> dk_dir dk !! name = Some e) ->
  well_formed (set_dir (<[name := e]> dir) dk).
Proof.
  intros Hw He Hd. apply well_formed_set_dir; [done|]. intros n. destruct (decide (n = name)) as [->|Hne].
  - by rewrite lookup_insert_eq.
  - rewrite lookup_insert_ne by done. destruct (dir !! n) as [e'|] eqn:E; [|done]. by apply (well_formed_entry dk n), Hd.
Qed.
Lemma well_formed_delete dk name : well_formed dk -> well_formed (set_dir (delete name (dk_dir dk)) dk).
Proof.
  intros Hw. apply well_formed_set_dir; [done|]. intros n. destruct (delete name (dk_dir dk) !! n) as [e|] eqn:E; [|done].
  apply lookup_delete_Some in E as [_ E]. by apply (well_formed_entry dk n).
Qed.

Lemma sim_lstat P name : simulates P (dk_lstat name) (lstat name) (fun a b dk => a = b /\ P dk /\ a = view dk !! name).
Proof. by apply sim_call. Qed.
Lemma sim_nop P : simulates P dk_nop nop (fun _ _ dk => P dk).
Proof. by apply sim_call. Qed.
Lemma sim_unlink P name : simulates P (dk_unlink name) (unlink name) (fun _ _ _ => True).
Proof.
  apply sim_call. intros dk Hw HP. destruct (view dk !! name) as [[]|]; cbn; try done.
  all: split_and!; [by unfold view; cbn; rewrite fmap_delete|by apply well_formed_delete|done].
Qed.
Lemma sim_hard_link P source target : simulates P (dk_hard_link source target) (hard_link source target) (fun _ _ _ => True).
Proof.
  apply sim_call. intros dk Hw HP. rewrite !view_lookup.
  destruct (dk_dir dk !! source) as [e|] eqn:Es, (dk_dir dk !! target) as [e'|] eqn:Et; cbn; try done.
  split_and!; [by unfold view; cbn; rewrite fmap_insert|apply well_formed_insert; [done|by apply (well_formed_entry dk source)|done]|done].
Qed.
Lemma sim_rename P source target : simulates P (dk_rename source target) (rename source target) (fun _ _ _ => True).
Proof.
  apply sim_call. intros dk Hw HP. rewrite !view_lookup.
  destruct (dk_dir dk !! source) as [e|] eqn:Es; cbn; [|done].
  assert (Hdone : view (set_dir (<[target := e]> (delete source (dk_dir dk))) dk)
                  = <[target := node_of (dk_inodes dk) e]> (delete source (view dk))).
  { unfold view; cbn. by rewrite fmap_insert, fmap_delete. }
  assert (Hwf : well_formed (set_dir (<[target := e]> (delete source (dk_dir dk))) dk)).
  { apply well_formed_insert; [done|by apply (well_formed_entry dk source)|]. intros n e' [_ He]%lookup_delete_Some. done. }
  destruct (node_of _ <$> dk_dir dk !! target) as [[]|]; done.
Qed.
Lemma sim_sync_dir P : simulates P dk_sync_dir sync_dir (fun _ _ _ => True).
Proof.
  apply sim_call. intros dk Hw HP. split_and!; [done| |done]. intros d name [->|[]%elem_of_nil]%elem_of_cons. by apply Hw; left.
Qed.

(** *** A file that was just created *)

(** The handle is that of the only entry at the name. *)
Definition owns (path : string) (file : nat) (dk : Disk) : Prop :=
  dk_dir dk !! path = Some (EFile file) /\ (file < length (dk_inodes dk))%nat /\
  forall name, dk_dir dk !! name = Some (EFile file) -> name = path.

Lemma well_formed_inodes dk inodes :
  well_formed dk -> (length (dk_inodes dk) <= length inodes)%nat ->
  well_formed {| dk_inodes := inodes; dk_dir := dk_dir dk; dk_before := dk_before dk |}.
Proof. intros Hw Hl dir name Hd. specialize (Hw dir name Hd). destruct (dir !! name) as [[i|[]]|]; cbn in *; try done. lia. Qed.
Lemma sim_create_new P path :
  simulates P (dk_create_new path) (create_new path) (fun file _ dk => owns path file dk).
Proof.
  apply sim_call. intros dk Hw HP. rewrite view_lookup.
  destruct (dk_dir dk !! path) as [e|] eqn:He; cbn; [done|].
  set (dk' := {| dk_inodes := dk_inodes dk ++ [{| in_contents := []; in_synced := false |}]; dk_dir := dk_dir dk; dk_before := dk_before dk |}).
  assert (Hw' : well_formed dk') by (apply well_formed_inodes; [done|]; rewrite length_app; lia).
  assert (Hview : view dk' = view dk).
  { unfold view; cbn. apply map_fmap_ext. intros name e Hn. pose proof (well_formed_entry dk name e Hw Hn) as Hlt.
    destruct e as [i|]; [|done]. cbn. by rewrite lookup_app_l. }
  split_and!.
  - rewrite <- Hview. unfold view. cbn. rewrite fmap_insert. cbn. by rewrite list_lookup_middle.
  - apply well_formed_insert; [done|cbn; rewrite length_app; cbn; lia|done].
  - split_and!; cbn; [by rewrite lookup_insert_eq|rewrite length_app; cbn; lia|].
    intros name. destruct (decide (name = path)) as [|Hne]; [done|]. rewrite lookup_insert_ne by done.
    intros Hn. pose proof (well_formed_entry dk name _ Hw Hn). cbn in *. lia.
Qed.
Lemma sim_write_all path file contents :
  simulates (owns path file) (dk_write_all file contents) (write_all path contents) (fun _ _ dk => owns path file dk).
Proof.
  apply sim_call. intros dk Hw (Hp & Hl & Hsole). cbn. split_and!.
  - unfold view. cbn. apply map_eq. intros name. rewrite lookup_fmap. destruct (decide (name = path)) as [->|Hne].
    + rewrite lookup_alter_eq, lookup_fmap, Hp. cbn. by rewrite list_lookup_insert_eq.
    + rewrite lookup_alter_ne, lookup_fmap by done. destruct (dk_dir dk !! name) as [[i|]|] eqn:E; [|done|done]. cbn.
      rewrite list_lookup_insert_ne; [done|]. intros ->. by apply Hne, Hsole.
  - apply well_formed_inodes; [done|]. by rewrite length_insert.
  - split_and!; cbn; [done|by rewrite length_insert|done].
Qed.
Lemma sim_sync_all path file : simulates (owns path file) (dk_sync_all file) nop (fun _ _ dk => owns path file dk).
Proof.
  apply sim_call. intros dk Hw (Hp & Hl & Hsole). cbn. destruct (dk_inodes dk !! file) as [inode|] eqn:Hi; [|done]. split_and!.
  - unfold view. cbn. apply map_fmap_ext. intros name e _. destruct e as [i|]; [|done]. cbn.
    destruct (decide (i = file)) as [->|Hne]; [by rewrite list_lookup_insert_eq, Hi|by rewrite list_lookup_insert_ne].
  - apply well_formed_inodes; [done|]. by rewrite length_insert.
  - split_and!; cbn; [done|by rewrite length_insert|done].
Qed.

Section Simulation.
Context (dir : string) (process_id : N).

Lemma sim_validate_absent P name :
  simulates P (dk_validate_absent dir name) (validate_absent_regular_target dir name) (fun _ _ _ => True).
Proof. eapply sim_bind; [apply sim_lstat|]. intros a b m Hw [-> _]. by destruct b as [[]|]. Qed.
Lemma sim_validate_existing P name :
  simulates P (dk_validate_existing dir name) (validate_existing_regular_target dir name) (fun _ _ _ => True).
Proof. eapply sim_bind; [apply sim_lstat|]. intros a b m Hw [-> _]. by destruct b as [[]|]. Qed.
Lemma sim_validate_staged P staged epoch :
  simulates P (dk_validate_staged dir staged epoch) (validate_staged dir staged epoch) (fun _ _ _ => True).
Proof. unfold dk_validate_staged, validate_staged. destruct (starts_with _ _); [apply sim_validate_existing|apply sim_err]. Qed.
Lemma sim_drop_staged P staged : simulates P (dk_drop_staged staged) (drop_staged staged) (fun _ _ _ => True).
Proof. by eapply sim_ignore, sim_unlink. Qed.

Lemma sim_stage P epoch contents :
  simulates P (dk_stage dir process_id epoch contents) (stage dir process_id epoch contents) (fun a b _ => a = b).
Proof.
  unfold dk_stage, stage. eapply sim_bind_eq; [by intros m Hw HP|]. intros n.
  cbv zeta. set (path := staged_prefix _ +:+ _).
  eapply sim_bind; [apply sim_validate_absent|]. intros ? ?.
  eapply sim_bind; [apply sim_create_new|]. intros file ?.
  eapply sim_bind; [apply sim_nop|]. intros ? ?.
  eapply sim_bind; [apply sim_on_err|].
  - eapply sim_bind; [apply sim_write_all|]. intros ? ?. eapply sim_bind; [apply sim_nop|]. intros ? ?. apply sim_sync_all.
  - by eapply sim_ignore, sim_unlink.
  - intros ? ?. by apply sim_ret.
Qed.
Lemma sim_commit_new P staged epoch :
  simulates P (dk_commit_new dir staged epoch) (commit_new dir staged epoch) (fun a b _ => a = b).
Proof.
  eapply sim_bind; [apply sim_on_err|].
  - eapply sim_bind; [apply sim_validate_staged|]. intros ? ?. eapply sim_bind; [apply sim_validate_absent|]. intros ? ?.
    eapply sim_bind; [apply sim_hard_link|]. intros ? ?. apply sim_unlink.
  - apply sim_drop_staged.
  - intros ? ?. eapply sim_bind; [apply sim_sync_dir|]. intros ? ?. by apply sim_ret.
Qed.
Lemma sim_commit_replace P staged epoch :
  simulates P (dk_commit_replace dir staged epoch) (commit_replace dir staged epoch) (fun a b _ => a = b).
Proof.
  eapply sim_bind; [apply sim_on_err|].
  - eapply sim_bind; [apply sim_validate_staged|]. intros ? ?. eapply sim_bind; [apply sim_validate_existing|]. intros ? ?. apply sim_rename.
  - apply sim_drop_staged.
  - intros _ _ m Hw HP. destruct (sim_sync_dir (fun _ => True) m Hw I) as (Hfs & Hw' & Hr).
    destruct (dk_sync_dir m) as [[[]|e] m'], (sync_dir (fs_of m)) as [[[]|e'] fs']; cbn in *; by subst.
Qed.

(** On the disk, a first publication and a replacement answer what they answer
    in [RuntimeStore], leave the directory the system sees as they leave it there, and
    consume the same faults, from any directory and at any of the faults. *)
Theorem the_disk_is_the_store epoch contents m :
  well_formed (ma_disk m) ->
  (let '(r, m') := dk_replace dir process_id epoch contents m in
   replace dir process_id epoch contents (fs_of m) = (r, fs_of m') /\ well_formed (ma_disk m')) /\
  (let '(r, m') := dk_publish dir process_id epoch contents m in
   fs_bind (stage dir process_id epoch contents) (fun staged => commit_new dir staged epoch) (fs_of m) = (r, fs_of m')
   /\ well_formed (ma_disk m')).
Proof.
  intros Hw. split.
  - pose proof (sim_bind_eq (fun _ => True) _ _ _ _ _ (sim_stage _ epoch contents)
      (fun staged => sim_commit_replace _ staged epoch) m Hw I) as (Hfs & Hw' & Hr).
    change (dk_bind _ _) with (dk_replace dir process_id epoch contents) in *.
    change (fs_bind _ _) with (replace dir process_id epoch contents) in *.
    destruct (dk_replace _ _ _ _ m) as [[a|e] m'], (replace _ _ _ _ (fs_of m)) as [[b|e'] fs']; cbn in *; by subst.
  - pose proof (sim_bind_eq (fun _ => True) _ _ _ _ _ (sim_stage _ epoch contents)
      (fun staged => sim_commit_new _ staged epoch) m Hw I) as (Hfs & Hw' & Hr).
    change (dk_bind _ _) with (dk_publish dir process_id epoch contents) in *.
    destruct (dk_publish _ _ _ _ m) as [[a|e] m'], (fs_bind _ _ (fs_of m)) as [[b|e'] fs']; cbn in *; by subst.
Qed.
End Simulation.

(** ** Power losses *)

(** A program that keeps [I] on every disk it goes through. *)
Definition crash_safe {A} (I : Disk -> Prop) (c : DiskM A) (Q : result A Error -> Disk -> Prop) (dk : Disk) : Prop :=
  forall m, ma_disk m = dk -> Forall I (ma_past m) -> I dk ->
    Forall I (ma_past (c m).2) /\ I (ma_disk (c m).2) /\ Q (c m).1 (ma_disk (c m).2).

Lemma cs_ret {A} I (a : A) (Q : result A Error -> Disk -> Prop) dk : Q (Ok a) dk -> crash_safe I (dk_ret a) Q dk.
Proof. by intros HQ m <- HI Hdk. Qed.
Lemma cs_err {A} I e (Q : result A Error -> Disk -> Prop) dk : Q (Err e) dk -> crash_safe I (dk_err e) Q dk.
Proof. by intros HQ m <- HI Hdk. Qed.
Lemma cs_bind {A B} I (c : DiskM A) (k : A -> DiskM B) Q dk :
  crash_safe I c (fun r dk' => match r with Ok a => crash_safe I (k a) Q dk' | Err e => Q (Err e) dk' end) dk ->
  crash_safe I (dk_bind c k) Q dk.
Proof.
  intros Hc m Hm HI Hdk. destruct (Hc m Hm HI Hdk) as (HI' & Hdk' & Hr). unfold dk_bind.
  destruct (c m) as [[a|e] m']; cbn in *; [by apply Hr|done].
Qed.
Lemma cs_on_err {A} I (c : DiskM A) cl Q dk :
  crash_safe I c (fun r dk' => match r with Ok a => Q (Ok a) dk' | Err e => crash_safe I cl (fun _ dk'' => Q (Err e) dk'') dk' end) dk ->
  crash_safe I (dk_on_err c cl) Q dk.
Proof.
  intros Hc m Hm HI Hdk. destruct (Hc m Hm HI Hdk) as (HI' & Hdk' & Hr). unfold dk_on_err.
  destruct (c m) as [[a|e] m']; cbn in *; [done|by apply Hr].
Qed.
Lemma cs_ignore {A} I (c : DiskM A) Q dk :
  crash_safe I c (fun _ dk' => Q (Ok tt) dk') dk -> crash_safe I (dk_ignore c) Q dk.
Proof. intros Hc m Hm HI Hdk. by apply (Hc m Hm HI Hdk). Qed.
Lemma cs_call {A} I (op : Disk -> result A Error * Disk) Q dk :
  (forall text, Q (Err (io_error text)) dk) -> (I dk -> I (op dk).2 /\ Q (op dk).1 (op dk).2) -> crash_safe I (call op) Q dk.
Proof.
  intros He Hop m <- HI Hdk. unfold call. destruct (ma_faults m) as [|[text|] rest]; cbn; [|by auto|].
  all: destruct (Hop Hdk) as [? ?]; destruct (op (ma_disk m)); cbn in *; split_and!; [by constructor|done|done].
Qed.
Lemma cs_read {A} I (f : Disk -> result A Error) Q dk :
  (forall text, Q (Err (io_error text)) dk) -> Q (f dk) dk -> crash_safe I (call (fun dk => (f dk, dk))) Q dk.
Proof. intros. by apply cs_call. Qed.
Lemma cs_lstat I name Q dk :
  (forall e, Q (Err e) dk) -> Q (Ok (view dk !! name)) dk -> crash_safe I (dk_lstat name) Q dk.
Proof. intros. by apply (cs_read I (fun dk => Ok (view dk !! name))). Qed.
Lemma cs_validate_absent I dir name Q dk :
  (forall e, Q (Err e) dk) -> (dk_dir dk !! name = None -> Q (Ok tt) dk) -> crash_safe I (dk_validate_absent dir name) Q dk.
Proof.
  intros He Hok. apply cs_bind, cs_lstat; [done|]. rewrite view_lookup.
  destruct (dk_dir dk !! name) as [e|]; cbn; [|by apply cs_ret, Hok]. destruct (node_of _ e); by apply cs_err.
Qed.
Lemma cs_validate_existing I dir name Q dk :
  (forall e, Q (Err e) dk) -> Q (Ok tt) dk -> crash_safe I (dk_validate_existing dir name) Q dk.
Proof.
  intros He Hok. apply cs_bind, cs_lstat; [done|]. destruct (view dk !! name) as [[]|]; first [by apply cs_err|by apply cs_ret].
Qed.

Section PowerLoss.
Context (dir : string) (process_id : N) (epoch : Epoch) (contents : list Byte.byte) (dk0 : Disk).
#[local] Notation target := (runtime_name epoch).

(** Files are only added. *)
Definition grown (dk : Disk) : Prop := exists more, dk_inodes dk = dk_inodes dk0 ++ more.
(** In any directory a power loss may leave, the configuration is as one left it
    before, or it is the new one, on the disk. *)
Definition as_before (entries : Entries) : Prop := exists before, before ∈ possible dk0 /\ entries !! target = before !! target.
Definition installed (dk : Disk) (entries : Entries) : Prop :=
  exists i, entries !! target = Some (EFile i) /\ dk_inodes dk !! i = Some {| in_contents := contents; in_synced := true |}.
Definition untouched (dk : Disk) : Prop := grown dk /\ forall entries, entries ∈ possible dk -> as_before entries.
Definition settled (dk : Disk) : Prop := grown dk /\ forall entries, entries ∈ possible dk -> as_before entries \/ installed dk entries.
Definition fully_installed (dk : Disk) : Prop := grown dk /\ forall entries, entries ∈ possible dk -> installed dk entries.
(** A staged file with the new contents, on the disk. *)
Definition staged_file (path : string) (dk : Disk) : Prop :=
  path <> target /\ exists i, dk_dir dk !! path = Some (EFile i) /\ dk_inodes dk !! i = Some {| in_contents := contents; in_synced := true |}.

Lemma untouched_settled dk : untouched dk -> settled dk.
Proof. intros [Hg Hp]. split; [done|]. intros e He. left. by apply Hp. Qed.
Lemma untouched_refl : untouched dk0.
Proof. split; [exists []; by rewrite app_nil_r|]. intros e He. by exists e. Qed.
(** A change of the directory off the target. *)
Lemma untouched_set_dir entries dk :
  untouched dk -> entries !! target = dk_dir dk !! target -> untouched (set_dir entries dk).
Proof.
  intros [Hg Hp] He. split; [done|]. intros e [->|Hin]%elem_of_cons; [|by apply Hp].
  destruct (Hp (dk_dir dk)) as (b & Hb & Heq); [by left|]. exists b. cbn. by rewrite He.
Qed.
Lemma settled_set_dir entries dk :
  settled dk -> entries !! target = dk_dir dk !! target -> settled (set_dir entries dk).
Proof.
  intros [Hg Hp] He. split; [done|]. intros e [->|Hin]%elem_of_cons; [|by apply Hp].
  destruct (Hp (dk_dir dk)) as [(b & Hb & Heq)|(i & Hi & Hn)]; [by left| |].
  - left. exists b. cbn. by rewrite He.
  - right. exists i. cbn. by rewrite He.
Qed.
(** The installation itself. *)
Lemma settled_install entries dk :
  settled dk -> installed dk entries -> settled (set_dir entries dk).
Proof. intros [Hg Hp] He. split; [done|]. intros e [->|Hin]%elem_of_cons; [by right|by apply Hp]. Qed.
(** A file that is new since the start is written. *)
Lemma untouched_set_inode i inode dk :
  untouched dk -> (length (dk_inodes dk0) <= i)%nat -> untouched (set_inode i inode dk).
Proof.
  intros [[more Hg] Hp] Hi. split; [|done]. exists (<[(i - length (dk_inodes dk0))%nat := inode]> more).
  cbn. rewrite Hg. by rewrite insert_app_r_alt.
Qed.

Lemma cs_unlink name (Q : result () Error -> Disk -> Prop) dk :
  name <> target -> (forall r, Q r dk) -> (forall r, Q r (set_dir (delete name (dk_dir dk)) dk)) ->
  crash_safe settled (dk_unlink name) Q dk.
Proof.
  intros Hne Hs Hd. apply cs_call; [done|]. intros HI.
  destruct (view dk !! name) as [[]|]; cbn; split; try done. all: apply settled_set_dir; [done|by rewrite lookup_delete_ne].
Qed.
Lemma cs_nop (Q : result () Error -> Disk -> Prop) dk : (forall r, Q r dk) -> crash_safe settled dk_nop Q dk.
Proof. intros HQ. by apply (cs_read settled (fun _ => Ok tt)). Qed.

Lemma cs_next_temp I (Q : result N Error -> Disk -> Prop) dk : (forall n, Q (Ok n) dk) -> crash_safe I dk_next_temp Q dk.
Proof. intros HQ m <- HI Hdk. by split_and!; [| |apply HQ]. Qed.

(** *** Staging *)

Definition new_file (path : string) (i : nat) (dk : Disk) : Prop :=
  untouched dk /\ (length (dk_inodes dk0) <= i < length (dk_inodes dk))%nat /\ dk_dir dk !! path = Some (EFile i).
Lemma cs_create_new path (Q : result nat Error -> Disk -> Prop) dk :
  untouched dk -> path <> target -> (forall e, Q (Err e) dk) -> (forall i dk', new_file path i dk' -> Q (Ok i) dk') ->
  crash_safe settled (dk_create_new path) Q dk.
Proof.
  intros Hu Hne He Hok. apply cs_call; [done|]. intros HI. destruct (dk_dir dk !! path) as [e|] eqn:Hd; cbn; [by split|].
  set (dk' := {| dk_inodes := dk_inodes dk ++ [_]; dk_dir := dk_dir dk; dk_before := dk_before dk |}).
  assert (Hu' : untouched dk').
  { destruct Hu as [[more Hg] Hp]. split; [|done]. eexists. cbn. by rewrite Hg, <- app_assoc. }
  assert (Hs : untouched (set_dir (<[path := EFile (length (dk_inodes dk))]> (dk_dir dk)) dk')).
  { apply untouched_set_dir; [done|]. by rewrite lookup_insert_ne. }
  split; [by apply untouched_settled|]. apply Hok. destruct Hu as [[more Hg] _].
  split_and!; [done|rewrite Hg, length_app; lia|cbn; rewrite !length_app; cbn; lia|cbn; by rewrite lookup_insert_eq].
Qed.
Lemma new_file_set_inode path i inode dk : new_file path i dk -> new_file path i (set_inode i inode dk).
Proof. intros (Hu & Hi & Hd). split_and!; [by apply untouched_set_inode; [|lia]|lia|cbn; rewrite length_insert; lia|done]. Qed.
Lemma cs_write_all path i bytes (Q : result () Error -> Disk -> Prop) dk :
  new_file path i dk -> (forall e, Q (Err e) dk) ->
  (forall dk', new_file path i dk' -> dk_inodes dk' !! i = Some {| in_contents := bytes; in_synced := false |} -> Q (Ok tt) dk') ->
  crash_safe settled (dk_write_all i bytes) Q dk.
Proof.
  intros Hn He Hok. apply cs_call; [done|]. intros _. pose proof (new_file_set_inode path i {| in_contents := bytes; in_synced := false |} dk Hn) as Hn'.
  split; [by apply untouched_settled, Hn'|]. apply Hok; [done|]. cbn. apply list_lookup_insert_eq. apply Hn.
Qed.
Lemma cs_sync_all path i bytes (Q : result () Error -> Disk -> Prop) dk :
  new_file path i dk -> dk_inodes dk !! i = Some {| in_contents := bytes; in_synced := false |} -> (forall e, Q (Err e) dk) ->
  (forall dk', new_file path i dk' -> dk_inodes dk' !! i = Some {| in_contents := bytes; in_synced := true |} -> Q (Ok tt) dk') ->
  crash_safe settled (dk_sync_all i) Q dk.
Proof.
  intros Hn Hi He Hok. apply cs_call; [done|]. intros _. rewrite Hi. cbn.
  pose proof (new_file_set_inode path i {| in_contents := bytes; in_synced := true |} dk Hn) as Hn'.
  split; [by apply untouched_settled, Hn'|]. apply Hok; [done|]. cbn. apply list_lookup_insert_eq. apply Hn.
Qed.
Lemma cs_cleanup path (Q : result () Error -> Disk -> Prop) dk :
  untouched dk -> path <> target -> (forall r dk', untouched dk' -> Q r dk') -> crash_safe settled (dk_ignore (dk_unlink path)) (fun _ dk' => Q (Ok tt) dk') dk.
Proof.
  intros Hu Hne HQ. apply cs_ignore, cs_unlink; [done| |]; intros _; apply HQ; [done|].
  apply untouched_set_dir; [done|]. by rewrite lookup_delete_ne.
Qed.

Definition staged_ok (r : result Staged Error) (dk : Disk) : Prop :=
  untouched dk /\ match r with
                  | Ok path => starts_with (staged_prefix (Epoch_get epoch)) path = true /\ staged_file path dk
                  | Err _ => True
                  end.
Lemma cs_stage : crash_safe settled (dk_stage dir process_id epoch contents) staged_ok dk0.
Proof.
  pose proof untouched_refl as Hu. apply cs_bind, cs_next_temp. intros n. cbv zeta.
  set (path := staged_prefix _ +:+ _). assert (Hpath : starts_with (staged_prefix (Epoch_get epoch)) path = true) by apply starts_with_app.
  pose proof (staged_not_runtime epoch path Hpath) as Hne. clearbody path.
  assert (Herr : forall e dk, untouched dk -> staged_ok (Err e) dk) by done.
  assert (Hclean : forall e dk, untouched dk -> crash_safe settled (dk_ignore (dk_unlink path)) (fun _ dk' => staged_ok (Err e) dk') dk).
  { intros e dk Hdk. apply (cs_cleanup path (fun _ dk' => staged_ok (Err e) dk')); auto. }
  apply cs_bind, cs_validate_absent; [by intros; apply Herr|]. intros _.
  apply cs_bind, cs_create_new; [done|done|by intros; apply Herr|]. intros i dk1 Hn1.
  apply cs_bind, cs_nop. intros [[]|e]; [|apply Herr, Hn1].
  apply cs_bind, cs_on_err, cs_bind, (cs_write_all path); [done|intros; apply Hclean, Hn1|]. intros dk2 Hn2 Hi2.
  apply cs_bind, cs_nop. intros [[]|e]; [|apply Hclean, Hn2].
  apply (cs_sync_all path _ contents); [done|done|intros; apply Hclean, Hn2|]. intros dk3 Hn3 Hi3.
  apply cs_ret. split; [apply Hn3|]. split; [done|]. split; [done|]. exists i. split; [apply Hn3|done].
Qed.

(** *** Publication *)

Definition replaced_safely (r : result (string * option string) Error) (dk : Disk) : Prop :=
  match r with
  | Ok (_, None) => fully_installed dk
  | Ok _ => True
  | Err _ => untouched dk
  end.
Lemma fully_installed_sync dk :
  grown dk -> installed dk (dk_dir dk) -> fully_installed {| dk_inodes := dk_inodes dk; dk_dir := dk_dir dk; dk_before := [] |}.
Proof. intros Hg Hi. split; [done|]. by intros e [->|[]%elem_of_nil]%elem_of_cons. Qed.
Lemma fully_installed_settled dk : fully_installed dk -> settled dk.
Proof. intros [Hg Hi]. split; [done|]. intros e He. right. by apply Hi. Qed.

Lemma cs_commit_replace staged dk :
  untouched dk -> staged_file staged dk -> crash_safe settled (dk_commit_replace dir staged epoch) replaced_safely dk.
Proof.
  intros Hu (Hne & i & Hd & Hi).
  assert (Hdrop : forall e, crash_safe settled (dk_drop_staged staged) (fun _ dk' => replaced_safely (Err e) dk') dk).
  { intros e. by apply (cs_cleanup staged (fun _ dk' => replaced_safely (Err e) dk')). }
  apply cs_bind, cs_on_err, cs_bind. unfold dk_validate_staged. destruct (starts_with _ staged); [|by apply cs_err].
  apply cs_validate_existing; [done|].
  apply cs_bind, cs_validate_existing; [done|].
  apply cs_call; [done|]. intros HI. rewrite Hd.
  set (dk' := set_dir (<[target := EFile i]> (delete staged (dk_dir dk))) dk).
  assert (Hinst : installed dk (<[target := EFile i]> (delete staged (dk_dir dk)))).
  { exists i. by rewrite lookup_insert_eq. }
  assert (Hs : settled dk') by (by apply settled_install).
  assert (Hsync : crash_safe settled
    (fun m => let '(parent_sync, m') := dk_sync_dir m in (Ok (installed_commit dir target parent_sync), m')) replaced_safely dk').
  { intros m Hm HI' Hdk'. unfold dk_sync_dir, call. destruct (ma_faults m) as [|[text|] rest]; cbn; [|by rewrite Hm|].
    all: rewrite Hm; split_and!; [by constructor| |].
    all: first [apply fully_installed_settled|idtac]; apply fully_installed_sync; [apply Hs|done]. }
  destruct (view dk !! target) as [[]|]; (split; [done|]); first [exact Hsync|apply Hdrop].
Qed.

Definition published_safely (r : result string Error) (dk : Disk) : Prop :=
  match r with Ok _ => fully_installed dk | Err _ => True end.
Lemma cs_commit_new staged dk :
  untouched dk -> staged_file staged dk -> crash_safe settled (dk_commit_new dir staged epoch) published_safely dk.
Proof.
  intros Hu (Hne & i & Hd & Hi).
  assert (Hdrop : forall e dk, crash_safe settled (dk_drop_staged staged) (fun _ dk' => published_safely (Err e) dk') dk).
  { intros e dk1. apply (cs_ignore _ _ (fun _ dk' => published_safely (Err e) dk')). by apply cs_unlink. }
  apply cs_bind, cs_on_err, cs_bind. unfold dk_validate_staged. destruct (starts_with _ staged); [|by apply cs_err].
  apply cs_validate_existing; [done|].
  apply cs_bind, cs_validate_absent; [done|]. intros Hnone.
  apply cs_bind, cs_call; [done|]. intros HI. rewrite Hd, Hnone. cbn.
  assert (Hinst : installed dk (<[target := EFile i]> (dk_dir dk))) by (exists i; by rewrite lookup_insert_eq).
  set (dk' := set_dir (<[target := EFile i]> (dk_dir dk)) dk).
  assert (Hs : settled dk') by (by apply settled_install).
  split; [done|]. apply cs_call; [intros text; exact (Hdrop (io_error text) _)|]. intros _.
  assert (Hv : view dk' !! staged = Some (NFile contents)).
  { rewrite view_lookup. cbn. rewrite lookup_insert_ne by done. rewrite Hd. cbn. by rewrite Hi. }
  rewrite Hv. cbn.
  assert (Hs' : settled (set_dir (delete staged (dk_dir dk')) dk')).
  { apply settled_set_dir; [done|]. by rewrite lookup_delete_ne. }
  split; [done|]. apply cs_bind, cs_call; [done|]. intros _. cbn.
  set (dk2 := set_dir (delete staged (dk_dir dk')) dk').
  assert (Hf : fully_installed {| dk_inodes := dk_inodes dk2; dk_dir := dk_dir dk2; dk_before := [] |}).
  { apply fully_installed_sync; [apply Hs|]. exists i. cbn. by rewrite lookup_delete_ne, lookup_insert_eq. }
  split; [by apply fully_installed_settled|]. by apply cs_ret.
Qed.
End PowerLoss.

(** What [settled] says to a client. *)
Section Client.
Context (epoch : Epoch) (contents : list Byte.byte) (dk0 : Disk).
#[local] Notation target := (runtime_name epoch).

Lemma grown_entry dk i inode :
  grown dk0 dk -> (i < length (dk_inodes dk0))%nat -> dk_inodes dk0 !! i = Some inode -> dk_inodes dk !! i = Some inode.
Proof. intros [more ->] Hi Hn. by rewrite lookup_app_l. Qed.
Lemma as_before_leaves dk entries left :
  well_formed dk0 -> grown dk0 dk -> as_before epoch dk0 entries ->
  match entries !! target with
  | None => left = None
  | Some (EOther node) => left = Some node
  | Some (EFile i) =>
      exists contents, left = Some (NFile contents) /\
        forall inode, dk_inodes dk !! i = Some inode -> in_synced inode = true -> contents = in_contents inode
  end -> may_leave dk0 target left.
Proof.
  intros Hw Hg (before & Hb & Heq) Hl. exists before. split; [done|]. rewrite Heq in Hl. pose proof (Hw before target Hb) as Hwf.
  destruct (before !! target) as [[i|]|]; [|done|done]. destruct Hl as (c & -> & Hc). exists c. split; [done|].
  intros inode Hi. by apply Hc, grown_entry.
Qed.
Lemma settled_leaves dk left :
  well_formed dk0 -> settled epoch contents dk0 dk -> may_leave dk target left ->
  may_leave dk0 target left \/ left = Some (NFile contents).
Proof.
  intros Hw [Hg Hp] (entries & Hin & Hl). destruct (Hp entries Hin) as [Hb|(i & Hi & Hn)].
  - left. by eapply as_before_leaves.
  - right. rewrite Hi in Hl. destruct Hl as (c & -> & Hc). by rewrite (Hc _ Hn).
Qed.
Lemma untouched_leaves dk left :
  well_formed dk0 -> untouched epoch dk0 dk -> may_leave dk target left -> may_leave dk0 target left.
Proof. intros Hw [Hg Hp] (entries & Hin & Hl). eapply as_before_leaves; eauto. Qed.
Lemma installed_leaves dk left :
  fully_installed epoch contents dk0 dk -> may_leave dk target left -> left = Some (NFile contents).
Proof.
  intros [_ Hp] (entries & Hin & Hl). destruct (Hp entries Hin) as (i & Hi & Hn). rewrite Hi in Hl.
  destruct Hl as (c & -> & Hc). by rewrite (Hc _ Hn).
Qed.
End Client.

(** C11: whenever the power fails while a configuration is published or replaced,
    and whatever calls failed before, the next start finds at its name what it could
    have found before, or the new document, whole: never a part of it, and never
    nothing where there was a document.  A replacement that is reported durable, and a
    publication that succeeds, leave the new one only; a replacement that failed
    leaves what was there. *)
Theorem power_loss_tears_no_configuration dir process_id epoch contents m :
  well_formed (ma_disk m) -> ma_past m = [] ->
  (let '(r, m') := dk_replace dir process_id epoch contents m in
   (forall dk left, dk ∈ ma_disk m' :: ma_past m' -> may_leave dk (runtime_name epoch) left ->
      may_leave (ma_disk m) (runtime_name epoch) left \/ left = Some (NFile contents)) /\
   (forall path left, r = Ok (path, None) -> may_leave (ma_disk m') (runtime_name epoch) left -> left = Some (NFile contents)) /\
   (forall e left, r = Err e -> may_leave (ma_disk m') (runtime_name epoch) left -> may_leave (ma_disk m) (runtime_name epoch) left)) /\
  (let '(r, m') := dk_publish dir process_id epoch contents m in
   (forall dk left, dk ∈ ma_disk m' :: ma_past m' -> may_leave dk (runtime_name epoch) left ->
      may_leave (ma_disk m) (runtime_name epoch) left \/ left = Some (NFile contents)) /\
   (forall path left, r = Ok path -> may_leave (ma_disk m') (runtime_name epoch) left -> left = Some (NFile contents))).
Proof.
  intros Hw Hpast. set (dk0 := ma_disk m) in *.
  assert (Hrun : forall A (c : DiskM A) Q, crash_safe (settled epoch contents dk0) c Q dk0 ->
            (forall dk left, dk ∈ ma_disk (c m).2 :: ma_past (c m).2 -> may_leave dk (runtime_name epoch) left ->
               may_leave dk0 (runtime_name epoch) left \/ left = Some (NFile contents)) /\ Q (c m).1 (ma_disk (c m).2)).
  { intros A c Q Hc. destruct (Hc m) as (Hp & Hd & HQ); [done|by rewrite Hpast|by apply untouched_settled, untouched_refl|].
    split; [|done]. intros dk left Hin. apply settled_leaves; [done|]. apply elem_of_cons in Hin as [->|Hin]; [done|].
    rewrite Forall_forall in Hp. by apply Hp. }
  split.
  - destruct (Hrun _ (dk_replace dir process_id epoch contents) (replaced_safely epoch contents dk0)) as [Hleft HQ].
    { apply cs_bind. intros m1 Hm HI Hdk. destruct (cs_stage dir process_id epoch contents dk0 m1 Hm HI Hdk) as (? & ? & Hu & Hr).
      split_and!; [done|done|]. destruct (dk_stage dir process_id epoch contents m1).1; [|done]. destruct Hr as [_ Hr]. by apply cs_commit_replace. }
    destruct (dk_replace dir process_id epoch contents m) as [r m']. split_and!; [done| |].
    + intros path left ->. by apply installed_leaves with dk0.
    + intros e left ->. by apply untouched_leaves.
  - destruct (Hrun _ (dk_publish dir process_id epoch contents) (published_safely epoch contents dk0)) as [Hleft HQ].
    { apply cs_bind. intros m1 Hm HI Hdk. destruct (cs_stage dir process_id epoch contents dk0 m1 Hm HI Hdk) as (? & ? & Hu & Hr).
      split_and!; [done|done|]. destruct (dk_stage dir process_id epoch contents m1).1; [|done]. destruct Hr as [_ Hr]. by apply cs_commit_new. }
    destruct (dk_publish dir process_id epoch contents m) as [r m']. split; [done|].
    intros path left ->. by apply installed_leaves with dk0.
Qed.

(** A directory with one configuration, its replacement, and the fault of a directory
    that does not sync. *)
Module DiskExample.
Definition document (text : string) : list Byte.byte := String.list_byte_of_string text.
Definition one : Epoch := 1%positive.
Definition disk : Disk :=
  {| dk_inodes := [{| in_contents := document "mode: rule"; in_synced := true |}];
     dk_dir := {[ runtime_name one := EFile 0 ]}; dk_before := [] |}.
Definition machine (faults : list (option string)) : Machine :=
  {| ma_disk := disk; ma_past := []; ma_faults := faults; ma_counter := 0 |}.
Lemma disk_well_formed : well_formed disk.
Proof.
  intros dir name [->|[]%elem_of_nil]%elem_of_cons. cbn.
  destruct (decide (name = runtime_name one)) as [->|Hne]; [rewrite lookup_singleton_eq; cbn; lia|].
  by rewrite lookup_singleton_ne.
Qed.
(** The ten calls of a replacement, the last one the sync of the directory. *)
Example the_replacement_is_durable :
  (dk_replace "/run" 7 one (document "mode: global") (machine [])).1 = Ok ("/run/config-1.yaml", None).
Proof. vm_compute. reflexivity. Qed.
Example an_unsynced_directory_is_told :
  (dk_replace "/run" 7 one (document "mode: global") (machine (repeat None 9 ++ [Some "I/O error"]))).1
  = Ok ("/run/config-1.yaml", Some "runtime config was atomically installed, but parent-directory synchronization failed: I/O error").
Proof. vm_compute. reflexivity. Qed.
End DiskExample.

Lemma the_disk_is_the_store_witness :
  let m := DiskExample.machine [] in
  exists r m', well_formed (ma_disk m)
    /\ replace "/run" 7 DiskExample.one (DiskExample.document "mode: global") (fs_of m) = (r, fs_of m').
Proof.
  cbv zeta. set (m := DiskExample.machine []).
  destruct (the_disk_is_the_store "/run" 7 DiskExample.one (DiskExample.document "mode: global") m DiskExample.disk_well_formed) as [H _].
  destruct (dk_replace "/run" 7 DiskExample.one (DiskExample.document "mode: global") m) as [r m'].
  exists r, m'. split; [exact DiskExample.disk_well_formed|exact (proj1 H)].
Defined.
Lemma power_loss_tears_no_configuration_witness :
  let m := DiskExample.machine [] in
  well_formed (ma_disk m) /\ ma_past m = [] /\
  forall left, may_leave (ma_disk (dk_replace "/run" 7 DiskExample.one (DiskExample.document "mode: global") m).2) (runtime_name DiskExample.one) left ->
    left = Some (NFile (DiskExample.document "mode: global")).
Proof.
  cbv zeta. split; [exact DiskExample.disk_well_formed|]. split; [reflexivity|]. intros left Hl.
  destruct (power_loss_tears_no_configuration "/run" 7 DiskExample.one (DiskExample.document "mode: global") (DiskExample.machine [])
    DiskExample.disk_well_formed eq_refl) as [H _].
  pose proof DiskExample.the_replacement_is_durable as Hr.
  destruct (dk_replace "/run" 7 DiskExample.one (DiskExample.document "mode: global") (DiskExample.machine [])) as [r m'].
  exact (proj1 (proj2 H) _ left Hr Hl).
Defined.
