(* ===== verification/StoreDirectory.v ===== *)
(** * The directory of the runtime store

    [RuntimeConfigStore::new] and [acquire_ownership] of [config/runtime_store.rs]: the
    directory is made private and looked at again where it really is; its lock is
    never an artifact of the store, so that no clean-up lets a second manager in. *)

From S2P Require Import PidRecord AtomicFs RuntimeStore.
Open Scope rust_scope.
Open Scope fs_scope.

(** ** Making the directory private *)

(** The directories of a host with their permission bits; [dh_canonicalize] is where
    a path leads, [None] for one that is not UTF-8. *)
Record DirHost := {
  dh_nodes : gmap string (Metadata * N);
  dh_canonicalize : string -> option string;
  dh_acl : AclApi;
  dh_faults : list (option StdError);
}.
Definition with_nodes (nodes : gmap string (Metadata * N)) (h : DirHost) : DirHost :=
  {| dh_nodes := nodes; dh_canonicalize := dh_canonicalize h; dh_acl := dh_acl h; dh_faults := dh_faults h |}.
Definition DirM (A : Type) : Type := DirHost -> result A StdError * DirHost.
Definition dir_sys {A} (op : DirM A) : DirM A :=
  fun h =>
    let rest := {| dh_nodes := dh_nodes h; dh_canonicalize := dh_canonicalize h; dh_acl := dh_acl h; dh_faults := List.tl (dh_faults h) |} in
    match dh_faults h with
    | Some error :: _ => (Err error, rest)
    | _ => op rest
    end.
Definition a_directory : Metadata := {| md_symlink := false; md_file := false; md_dir := true; md_attributes := 0 |}.
Definition dir_lstat (path : string) : DirM Metadata :=
  dir_sys (fun h => (match dh_nodes h !! path with Some (metadata, _) => Ok metadata | None => Err no_such_file end, h)).
(** The new directory has the bits the umask leaves. *)
Definition umask_bits : N := 7 * 64 + 5 * 8 + 5.
Definition create_dir_all (path : string) : DirM () :=
  dir_sys (fun h => (Ok tt, match dh_nodes h !! path with
                            | Some _ => h
                            | None => with_nodes (<[path := (a_directory, umask_bits)]> (dh_nodes h)) h
                            end)).
Definition set_permissions (path : string) (bits : N) : DirM () :=
  dir_sys (fun h => match dh_nodes h !! path with
                    | None => (Err no_such_file, h)
                    | Some (metadata, _) => (Ok tt, with_nodes (<[path := (metadata, bits)]> (dh_nodes h)) h)
                    end).
Definition canonicalize (path : string) : DirM (option string) := dir_sys (fun h => (Ok (dh_canonicalize h path), h)).

Definition io_result {A} (r : result A StdError * DirHost) : result A Error * DirHost :=
  (map_err (fun e => Error_from_atomic (AtomicIo e)) r.1, r.2).
Definition dir_bind {A B} (r : result A Error * DirHost) (k : A -> DirHost -> result B Error * DirHost) : result B Error * DirHost :=
  match r with (Ok a, h) => k a h | (Err e, h) => (Err e, h) end.

Definition PRIVATE_BITS : N := 7 * 64.
Definition validate_directory_metadata (t : Target) (path : string) (metadata : Metadata) : result () Error :=
  if (md_symlink metadata || negb (md_dir metadata) || is_reparse_point t metadata)%bool
  then Err (UnsafeRuntimeArtifact path) else Ok tt.
Definition make_private (t : Target) (dir : string) (h : DirHost) : result () Error * DirHost :=
  match t with
  | TUnix => io_result (set_permissions dir PRIVATE_BITS h)
  | TWindows =>
      (map_err Error_from_atomic
         (let? _ := harden_windows_directory_acl (dh_acl h) in verify_windows_directory_acl (dh_acl h) dir), h)
  | TOther => (Ok tt, h)
  end.
(** The directory the store works in. *)
Definition RuntimeConfigStore_new (t : Target) (dir : string) (h : DirHost) : result string Error * DirHost :=
  dir_bind
    (match dir_lstat dir h with
     | (Ok metadata, h) => (validate_directory_metadata t dir metadata, h)
     | (Err error, h) =>
         if decide (se_kind error = EkNotFound) then io_result (create_dir_all dir h)
         else (Err (Error_from_atomic (AtomicIo error)), h)
     end) (fun _ h =>
  dir_bind (make_private t dir h) (fun _ h =>
  dir_bind (io_result (canonicalize dir h)) (fun canonical h =>
  match canonical with
  | None => (Err (InvalidManagerOptions "runtime directory is not UTF-8"), h)
  | Some dir =>
      dir_bind (io_result (dir_lstat dir h)) (fun metadata h =>
      match validate_directory_metadata t dir metadata with
      | Ok _ => (Ok dir, h)
      | Err e => (Err e, h)
      end)
  end))).

Lemma dir_sys_ok {A} (op : DirM A) h a h' :
  dir_sys op h = (Ok a, h') -> exists h1, dh_nodes h1 = dh_nodes h /\ dh_canonicalize h1 = dh_canonicalize h
                                          /\ dh_acl h1 = dh_acl h /\ op h1 = (Ok a, h').
Proof.
  unfold dir_sys. destruct (dh_faults h) as [|[e|] rest]; [|done|]; intros Ho; (eexists; split_and!; [| | |exact Ho]); done.
Qed.
Lemma dir_bind_ok {A B} r (k : A -> DirHost -> result B Error * DirHost) b h' :
  dir_bind r k = (Ok b, h') -> exists a h, r = (Ok a, h) /\ k a h = (Ok b, h').
Proof. destruct r as [[a|e] h]; [|done]. by exists a, h. Qed.
Lemma io_result_ok {A} (r : result A StdError * DirHost) a h : io_result r = (Ok a, h) -> r = (Ok a, h).
Proof. destruct r as [[x|e] h0]; unfold io_result; cbn; by intros [= -> ->]. Qed.

Lemma dir_lstat_ok path h metadata h' :
  dir_lstat path h = (Ok metadata, h') -> dh_nodes h' = dh_nodes h /\ dh_canonicalize h' = dh_canonicalize h /\ dh_acl h' = dh_acl h
    /\ exists bits, dh_nodes h !! path = Some (metadata, bits).
Proof.
  intros (h1 & Hn & Hc & Ha & Ho)%dir_sys_ok. rewrite Hn in Ho. destruct (dh_nodes h !! path) as [[m bits]|] eqn:E; [|done].
  simplify_eq. split_and!; [done|done|done|by exists bits].
Qed.
Lemma canonicalize_ok path h r h' :
  canonicalize path h = (Ok r, h') -> dh_nodes h' = dh_nodes h /\ dh_canonicalize h' = dh_canonicalize h /\ dh_acl h' = dh_acl h
    /\ r = dh_canonicalize h path.
Proof. intros (h1 & Hn & Hc & Ha & Ho)%dir_sys_ok. simplify_eq. by rewrite Hc. Qed.
Lemma make_private_ok t dir h h' :
  make_private t dir h = (Ok tt, h') ->
  dh_canonicalize h' = dh_canonicalize h /\ dh_acl h' = dh_acl h /\
  match t with
  | TUnix => exists metadata, dh_nodes h' !! dir = Some (metadata, PRIVATE_BITS)
  | TWindows => verify_windows_directory_acl (dh_acl h) dir = Ok tt
  | TOther => True
  end.
Proof.
  destruct t; cbn.
  - intros (h1 & Hn & Hc & Ha & Ho)%io_result_ok%dir_sys_ok. destruct (dh_nodes h1 !! dir) as [[m b]|]; [|done].
    simplify_eq. cbn. split_and!; [done|done|]. exists m. by rewrite lookup_insert_eq.
  - destruct (harden_windows_directory_acl (dh_acl h)); cbn; [|done].
    destruct (verify_windows_directory_acl (dh_acl h) dir) as [[]|]; cbn; [|done]. intros [= <-]. by split_and!.
  - intros [= <-]. done.
Qed.

(** A store that was made works in the directory its path really leads to: a
    directory, no link and no reparse point, whose path has the owner's permissions
    only (on Unix) or an access list no broad principal is in (on Windows). *)
Theorem the_store_directory_is_private t dir h d h' :
  RuntimeConfigStore_new t dir h = (Ok d, h') ->
  dh_canonicalize h dir = Some d /\
  (exists metadata bits, dh_nodes h' !! d = Some (metadata, bits) /\ md_symlink metadata = false /\ md_dir metadata = true
                         /\ is_reparse_point t metadata = false) /\
  match t with
  | TUnix => exists metadata, dh_nodes h' !! dir = Some (metadata, PRIVATE_BITS)
  | TWindows => verify_windows_directory_acl (dh_acl h) dir = Ok tt
  | TOther => True
  end.
Proof.
  intros ([] & h1 & H1 & H)%dir_bind_ok.
  assert (dh_canonicalize h1 = dh_canonicalize h /\ dh_acl h1 = dh_acl h) as [Hc1 Ha1].
  { destruct (dir_lstat dir h) as [[metadata|e] h0] eqn:E.
    - apply dir_lstat_ok in E as (_ & ? & ? & _). by simplify_eq.
    - assert (dh_canonicalize h0 = dh_canonicalize h /\ dh_acl h0 = dh_acl h) as [<- <-].
      { unfold dir_lstat, dir_sys in E. destruct (dh_faults h) as [|[]]; by simplify_eq. }
      case_decide; [|done]. apply io_result_ok, dir_sys_ok in H1 as (h2 & Hn & <- & <- & Ho). destruct (dh_nodes h2 !! dir); by simplify_eq. }
  apply dir_bind_ok in H as ([] & h2 & (Hc2 & Ha2 & Hp)%make_private_ok & H).
  apply dir_bind_ok in H as (canonical & h3 & (Hn3 & Hc3 & _ & Hcan)%io_result_ok%canonicalize_ok & H).
  rewrite Hc2, Hc1 in Hcan. destruct canonical as [d'|]; [|done].
  apply dir_bind_ok in H as (metadata & h4 & (Hn4 & _ & _ & bits & Hd)%io_result_ok%dir_lstat_ok & H).
  unfold validate_directory_metadata in H.
  destruct (md_symlink metadata || negb (md_dir metadata) || is_reparse_point t metadata)%bool eqn:Hv; [done|]. simplify_eq.
  apply orb_false_iff in Hv as [[Hs Hm%negb_false_iff]%orb_false_iff Hr]. split_and!; [done| |].
  - exists metadata, bits. by rewrite Hn4.
  - destruct t; [|by rewrite <- Ha1|done]. by rewrite Hn4, Hn3.
Qed.

(** ** The lock is not an artifact *)

Definition LOCK_NAME : string := ".manager.lock".
Definition acquire_ownership (t : Target) (holder : N) (dir : string) (h : AtomicFs.Host) : result DirLock Error * AtomicFs.Host :=
  let '(r, h) := acquire_dir_lock t holder (path_join dir LOCK_NAME) h in (map_err Error_from_atomic r, h).

(** A program that never touches a name. *)
Definition leaves {A} (name : string) (m : FsM A) : Prop := forall d, fwp m (fun _ d' => d' !! name = d !! name) d.

Lemma leaves_ret {A} name (a : A) : leaves name (fs_ret a).
Proof. intros d. by apply fwp_ret. Qed.
Lemma leaves_err {A} name e : leaves name (fs_err (A := A) e).
Proof. intros d. by apply fwp_err. Qed.
Lemma leaves_bind {A B} name (m : FsM A) (k : A -> FsM B) : leaves name m -> (forall a, leaves name (k a)) -> leaves name (fs_bind m k).
Proof.
  intros Hm Hk d. apply fwp_bind. apply (fwp_mono _ _ _ _ (Hm d)). intros [a|e] d' Hd; [|done].
  apply (fwp_mono _ _ _ _ (Hk a d')). by intros r d'' ->.
Qed.
Lemma leaves_on_err {A} name (m : FsM A) c : leaves name m -> leaves name c -> leaves name (fs_on_err m c).
Proof.
  intros Hm Hc d. apply fwp_on_err. apply (fwp_mono _ _ _ _ (Hm d)). intros [a|e] d' Hd; [done|].
  apply (fwp_mono _ _ _ _ (Hc d')). by intros r d'' ->.
Qed.
Lemma leaves_ignore {A} name (m : FsM A) : leaves name m -> leaves name (fs_ignore m).
Proof. intros Hm d. by apply fwp_ignore. Qed.
Lemma leaves_syscall {A} name (op : gmap string Node -> result A Error * gmap string Node) :
  (forall d, (op d).2 !! name = d !! name) -> leaves name (syscall op).
Proof. intros Hop d. by apply fwp_syscall. Qed.
Lemma leaves_next_temp name : leaves name next_temp.
Proof. intros d. by apply fwp_next_temp. Qed.
Lemma leaves_lstat name n : leaves name (lstat n).
Proof. by apply leaves_syscall. Qed.
Lemma leaves_nop name : leaves name nop.
Proof. by apply leaves_syscall. Qed.
Lemma leaves_read name n : leaves name (read n).
Proof. apply leaves_syscall. intros d. by destruct (d !! n) as [[]|]. Qed.
Lemma leaves_read_dir name : leaves name read_dir.
Proof. by apply leaves_syscall. Qed.
Lemma leaves_try_exists name n : leaves name (try_exists n).
Proof. by apply leaves_syscall. Qed.
Lemma leaves_unlink name n : n <> name -> leaves name (unlink n).
Proof. intros Hn. apply leaves_syscall. intros d. destruct (d !! n) as [[]|]; cbn; try done; by rewrite lookup_delete_ne. Qed.
Lemma leaves_hard_link name s t : t <> name -> leaves name (hard_link s t).
Proof. intros Hn. apply leaves_syscall. intros d. destruct (d !! s), (d !! t); cbn; try done. by rewrite lookup_insert_ne. Qed.
Lemma leaves_rename name s t : s <> name -> t <> name -> leaves name (rename s t).
Proof.
  intros Hs Ht. apply leaves_syscall. intros d. destruct (d !! s); cbn; [|done].
  destruct (d !! t) as [[]|]; cbn; try done; by rewrite lookup_insert_ne, lookup_delete_ne.
Qed.
Lemma leaves_create_new name n : n <> name -> leaves name (create_new n).
Proof. intros Hn. apply leaves_syscall. intros d. destruct (d !! n); cbn; [done|]. by rewrite lookup_insert_ne. Qed.
Lemma leaves_write_all name n c : n <> name -> leaves name (write_all n c).
Proof. intros Hn. apply leaves_syscall. intros d. cbn. by rewrite lookup_alter_ne. Qed.

Create HintDb leaves.
#[export] Hint Resolve leaves_ret leaves_err leaves_bind leaves_on_err leaves_ignore leaves_next_temp leaves_lstat leaves_nop
  leaves_read leaves_read_dir leaves_try_exists leaves_unlink leaves_hard_link leaves_rename leaves_create_new leaves_write_all : leaves.

Section Lock.
Context (dir : string) (process_id : N).

Lemma not_the_lock prefix name : starts_with prefix LOCK_NAME = false -> starts_with prefix name = true -> name <> LOCK_NAME.
Proof. by intros Hf Ht ->; rewrite Hf in Ht. Qed.
Lemma prefix_not_the_lock (a : Ascii.ascii) (p : string) : a <> "."%char -> starts_with (String a p) LOCK_NAME = false.
Proof. intros Ha. apply not_true_iff_false. intros [r Hr]%starts_with_true. rewrite string_app_cons in Hr. unfold LOCK_NAME in Hr. congruence. Qed.
Lemma staged_not_the_lock n name : starts_with (staged_prefix n) name = true -> name <> LOCK_NAME.
Proof. intros [r ->]%starts_with_true. unfold staged_prefix. rewrite !string_app_assoc, string_app_cons. unfold LOCK_NAME. rewrite ?string_app_cons. intros Hr. discriminate Hr. Qed.
Lemma numbered_not_the_lock n name : numbered_artifact n name = true -> name <> LOCK_NAME.
Proof.
  unfold numbered_artifact. intros [[H|H]%orb_true_iff|H]%orb_true_iff.
  - revert H. apply not_the_lock. unfold backup_prefix. rewrite string_app_cons. by apply prefix_not_the_lock.
  - by eapply staged_not_the_lock.
  - revert H. apply not_the_lock. unfold pid_temp_prefix. rewrite string_app_cons. by apply prefix_not_the_lock.
Qed.

Lemma leaves_validate_absent name n : leaves name (validate_absent_regular_target dir n).
Proof. apply leaves_bind; [auto with leaves|]. intros [[]|]; apply leaves_err || apply leaves_ret. Qed.
Lemma leaves_validate_existing name n : leaves name (validate_existing_regular_target dir n).
Proof. apply leaves_bind; [auto with leaves|]. intros [[]|]; apply leaves_err || apply leaves_ret. Qed.
Lemma leaves_remove_regular name n : n <> name -> leaves name (remove_regular_file dir n).
Proof. intros Hn. apply leaves_bind; [auto with leaves|]. intros [[]|]; first [by apply leaves_unlink|apply leaves_err|apply leaves_ret]. Qed.
Lemma leaves_remove_socket name n : n <> name -> leaves name (remove_socket_artifact dir n).
Proof. intros Hn. apply leaves_bind; [auto with leaves|]. intros [[]|]; first [by apply leaves_unlink|apply leaves_err|apply leaves_ret]. Qed.
Lemma leaves_iter name names f : (forall n, leaves name (f n)) -> leaves name (fs_iter names f).
Proof. intros Hf. induction names; cbn; auto with leaves. Qed.

Lemma leaves_stage epoch contents : leaves LOCK_NAME (stage dir process_id epoch contents).
Proof.
  apply leaves_bind; [auto with leaves|]. intros counter. cbv zeta. set (path := staged_prefix _ +:+ _).
  assert (path <> LOCK_NAME) as Hp by (apply (staged_not_the_lock (Epoch_get epoch)), starts_with_app).
  apply leaves_bind; [apply leaves_validate_absent|]. intros _. auto 10 with leaves.
Qed.
Lemma runtime_not_the_lock epoch : runtime_name epoch <> LOCK_NAME.
Proof. done. Qed.
Lemma leaves_commit_new epoch staged : staged <> LOCK_NAME -> leaves LOCK_NAME (commit_new dir staged epoch).
Proof.
  intros Hs. apply leaves_bind; [apply leaves_on_err|auto with leaves].
  - apply leaves_bind; [unfold validate_staged; destruct (starts_with _ _); [apply leaves_validate_existing|apply leaves_err]|].
    intros _. apply leaves_bind; [apply leaves_validate_absent|]. intros _. apply leaves_bind; auto with leaves.
  - by apply leaves_ignore, leaves_unlink.
Qed.
Lemma leaves_commit_replace epoch staged : staged <> LOCK_NAME -> leaves LOCK_NAME (commit_replace dir staged epoch).
Proof.
  intros Hs. apply leaves_bind; [apply leaves_on_err|].
  - apply leaves_bind; [unfold validate_staged; destruct (starts_with _ _); [apply leaves_validate_existing|apply leaves_err]|].
    intros _. apply leaves_bind; [apply leaves_validate_existing|]. intros _. by apply leaves_rename.
  - by apply leaves_ignore, leaves_unlink.
  - intros _ d fs Hd. pose proof (leaves_nop LOCK_NAME d fs Hd) as Hn. unfold sync_dir. by destruct (nop fs).
Qed.
(** What [stage] hands on is a staged name. *)
Lemma leaves_staged {A} epoch contents (k : Staged -> FsM A) :
  (forall staged, staged <> LOCK_NAME -> leaves LOCK_NAME (k staged)) ->
  leaves LOCK_NAME (fs_bind (stage dir process_id epoch contents) k).
Proof.
  intros Hk d. apply fwp_bind, fwp_stage.
  - intros e path d' Hp _ [->|[c ->]]; [done|]. rewrite lookup_insert_ne; [done|]. by eapply staged_not_the_lock.
  - intros path Hp _. assert (path <> LOCK_NAME) as Hne by (by eapply staged_not_the_lock).
    apply (fwp_mono _ _ _ _ (Hk path Hne _)). intros r d' ->. by rewrite lookup_insert_ne.
  - done.
Qed.
Lemma leaves_cleanup n : leaves LOCK_NAME (cleanup_artifacts dir n).
Proof.
  unfold cleanup_artifacts. apply leaves_bind; [|intros _].
  { cbn. apply leaves_bind; [by apply leaves_remove_regular|]. intros _. apply leaves_bind; [by apply leaves_remove_regular|]. auto with leaves. }
  apply leaves_bind; [by apply leaves_remove_socket|intros _].
  apply leaves_bind; [auto with leaves|intros names].
  apply leaves_bind; [|intros _; apply leaves_nop]. apply leaves_iter. intros name.
  destruct (numbered_artifact n name) eqn:E; [|apply leaves_ret]. by eapply leaves_remove_regular, numbered_not_the_lock.
Qed.

(** No operation of the store, and not the sweep of what dead managers left,
    ever touches the file of the lock, so the owner keeps it (see
    [AtomicFs.one_owner_per_directory], whose lock world allows exactly such changes). *)
Theorem the_store_leaves_its_lock reap cleanup_controller epoch contents generation b fs :
  (forall path, leaves LOCK_NAME (reap path)) -> (forall e, leaves LOCK_NAME (cleanup_controller e)) ->
  ba_name b <> LOCK_NAME ->
  let kept {A} (m : FsM A) := fs_dir (m fs).2 !! LOCK_NAME = fs_dir fs !! LOCK_NAME in
  kept (stage dir process_id epoch contents) /\
  kept (fs_bind (stage dir process_id epoch contents) (fun staged => commit_new dir staged epoch)) /\
  kept (replace dir process_id epoch contents) /\
  kept (backup dir process_id epoch generation) /\
  kept (restore dir process_id b) /\
  kept (remove_backup dir b) /\
  kept (cleanup_artifacts dir (Epoch_get epoch)) /\
  kept (sweep_orphans dir reap cleanup_controller).
Proof.
  intros Hreap Hcontroller Hb kept.
  assert (Hkept : forall A (m : FsM A), leaves LOCK_NAME m -> kept A m) by (intros A m Hm; by apply (Hm (fs_dir fs))).
  split_and!; apply Hkept.
  - apply leaves_stage.
  - by apply leaves_staged; intros; apply leaves_commit_new.
  - by apply leaves_staged; intros; apply leaves_commit_replace.
  - apply leaves_bind; [apply leaves_validate_existing|intros _]. apply leaves_bind; [auto with leaves|intros c].
    apply leaves_staged. intros staged Hs. apply leaves_bind; [apply leaves_on_err|auto with leaves].
    + apply leaves_bind; [apply leaves_validate_absent|intros _]. apply leaves_bind; auto with leaves.
    + by apply leaves_ignore, leaves_unlink.
  - apply leaves_bind; [apply leaves_validate_existing|intros _]. apply leaves_bind; [auto with leaves|intros c].
    by apply leaves_staged; intros; apply leaves_commit_replace.
  - by apply leaves_remove_regular.
  - apply leaves_cleanup.
  - apply leaves_bind; [apply leaves_bind; auto with leaves|intros discovered]. cbv zeta. apply leaves_bind; [|auto with leaves].
    induction discovered as [|n rest IH]; cbn; [auto with leaves|].
    apply leaves_bind; [auto with leaves|intros exists_]. apply leaves_bind; [destruct exists_; auto with leaves|intros _].
    apply leaves_bind; [destruct (Epoch_new n); auto with leaves|intros _]. apply leaves_bind; [apply leaves_cleanup|auto].
Qed.
End Lock.
