(* ===== verification/ManagerState.v ===== *)
(** * The manager's state, its host and its publications

    The data of [manager/mod.rs], the monad its transactions run in, and
    [manager/publish.rs].

    A transaction holds the control lock from its first to its last step, so it
    is one computation on the manager's state.  Everything outside the manager
    - the runtime backend and its instances, the artifact store, the DNS
    controller, the control client, the clock - is an operation of
    [ManagerHost] on a host state, so that a theorem about every host covers
    every sequence of answers.  Each operation leaves an event in a trace, which
    is what the theorems speak about; the trace has no influence on the code. *)

From S2P Require Export Config Capability Health PidRecord.
Open Scope rust_scope.

(** ** DNS data ([dns.rs]) *)

Record DnsIntent := { di_servers : list string }.
#[export] Instance DnsIntent_eq_dec : EqDecision DnsIntent.
Proof. solve_decision. Defined.

Inductive DnsOverrideState := DnsApplied | RestorePending.
#[export] Instance DnsOverrideState_eq_dec : EqDecision DnsOverrideState.
Proof. solve_decision. Defined.

Record DnsOverrideRecord := {
  dr_interface : string;
  dr_previous : list string;
  dr_applied : list string;
  dr_runtime_epoch : N;
  dr_owner_generation : option N;
  dr_state : DnsOverrideState;
}.
#[export] Instance DnsOverrideRecord_eq_dec : EqDecision DnsOverrideRecord.
Proof. solve_decision. Defined.

(** [tokio::time::timeout] around a fallible call whose error is shown. *)
Inductive Timed (A : Type) := Elapsed | Done (r : result A string).
Arguments Elapsed {A}.
Arguments Done {A} r.

(** ** Epoch data ([manager/mod.rs]) *)

Record EpochPlan := {
  ep_source_spec : InstanceSpec;
  ep_effective_spec : InstanceSpec;
  ep_controller : ResolvedController;
  ep_revision : ConfigRevision;
  ep_capabilities : list Feature;
  ep_runtime_features : list RuntimeFeature;
  ep_source_document : Mapping;
  ep_effective_document : Mapping;
}.
Definition ep_epoch (plan : EpochPlan) : Epoch := cr_epoch (ep_revision plan).

Definition with_source_spec (spec : InstanceSpec) (plan : EpochPlan) : EpochPlan :=
  {| ep_source_spec := spec; ep_effective_spec := ep_effective_spec plan;
     ep_controller := ep_controller plan; ep_revision := ep_revision plan;
     ep_capabilities := ep_capabilities plan; ep_runtime_features := ep_runtime_features plan;
     ep_source_document := ep_source_document plan;
     ep_effective_document := ep_effective_document plan |}.

Definition classification_view (plan : EpochPlan) : ConfigClassificationView :=
  {| cv_source := ep_source_document plan; cv_effective := ep_effective_document plan;
     cv_spec := ep_source_spec plan |}.

Record EffectiveConfigSnapshot := {
  ec_instance_id : Uuid;
  ec_revision : ConfigRevision;
  ec_config : Mapping;
}.
Definition effective_config_snapshot (plan : EpochPlan) (instance_id : Uuid) : EffectiveConfigSnapshot :=
  {| ec_instance_id := instance_id; ec_revision := ep_revision plan;
     ec_config := ep_effective_document plan |}.

(** [RuntimeLaunchRequest]; the log channel is left out. *)
Record RuntimeLaunchRequest := {
  lr_capabilities : list Feature;
  lr_effective_spec : InstanceSpec;
  lr_epoch : Epoch;
  lr_controller : ResolvedController;
}.

(** A [Box<dyn RuntimeInstance>]: an owned object, told apart by a serial
    number, which reports the request it was launched from. *)
Record Instance := { in_serial : nat; in_request : RuntimeLaunchRequest }.
Definition in_epoch (i : Instance) : Epoch := lr_epoch (in_request i).
Definition in_controller (i : Instance) : ResolvedController := lr_controller (in_request i).

(** The request an epoch is launched with. *)
Definition launch_request (plan : EpochPlan) : RuntimeLaunchRequest :=
  {| lr_capabilities := ep_capabilities plan; lr_effective_spec := ep_effective_spec plan;
     lr_epoch := ep_epoch plan; lr_controller := ep_controller plan |}.

Record Active := { a_instance : Instance; a_plan : EpochPlan }.

Record QuarantinedEpoch := { q_epoch : Epoch; q_reason : string; q_death_proven : bool }.

Record Ctrl := {
  c_last : N;
  c_current : option Active;
  c_last_spec : option InstanceSpec;
  c_quarantine : list QuarantinedEpoch;
  c_dns_record : option DnsOverrideRecord;
}.

Definition Ctrl_new (max_epoch : N) : Ctrl :=
  {| c_last := max_epoch; c_current := None; c_last_spec := None; c_quarantine := [];
     c_dns_record := None |}.

Definition set_last (n : N) (c : Ctrl) : Ctrl :=
  {| c_last := n; c_current := c_current c; c_last_spec := c_last_spec c;
     c_quarantine := c_quarantine c; c_dns_record := c_dns_record c |}.
Definition set_current (a : option Active) (c : Ctrl) : Ctrl :=
  {| c_last := c_last c; c_current := a; c_last_spec := c_last_spec c;
     c_quarantine := c_quarantine c; c_dns_record := c_dns_record c |}.
Definition set_last_spec (spec : option InstanceSpec) (c : Ctrl) : Ctrl :=
  {| c_last := c_last c; c_current := c_current c; c_last_spec := spec;
     c_quarantine := c_quarantine c; c_dns_record := c_dns_record c |}.
Definition set_quarantine (q : list QuarantinedEpoch) (c : Ctrl) : Ctrl :=
  {| c_last := c_last c; c_current := c_current c; c_last_spec := c_last_spec c;
     c_quarantine := q; c_dns_record := c_dns_record c |}.
Definition set_dns_record (r : option DnsOverrideRecord) (c : Ctrl) : Ctrl :=
  {| c_last := c_last c; c_current := c_current c; c_last_spec := c_last_spec c;
     c_quarantine := c_quarantine c; c_dns_record := r |}.

(** ** Store artifacts ([config/runtime_store.rs]), as the manager holds them *)

(** A staging file and the epoch it was staged for.  The [consumed] flag only
    decides whether dropping the value removes the file: the model drops a
    staged file explicitly, on the paths that do not hand it to a commit. *)
Record StagedRuntimeConfig := { sg_path : string; sg_epoch : Epoch }.
Record RuntimeConfigBackup := { bk_path : string; bk_epoch : Epoch }.
Record RuntimeConfigCommit := { cm_path : string; cm_warning : option string }.

(** ** The host *)

Class ManagerHost (E : Type) := {
  mh_clash :: ClashApi;
  mh_config :: ConfigHost;
  mh_semver :: Semver;
  (** Injected at construction and constant: options, the artifact directory,
      the access service ([Some] of its answer), the native store (data
      directory and homes), whether a DNS controller is registered. *)
  mh_options : ManagerOptions;
  mh_dir : string;
  mh_access_supports_local_ipc : option bool;
  mh_native_store : option (string * (CoreKind -> string));
  mh_dns : bool;
  (** Clock and files. *)
  mh_now : E -> Z * E;
  mh_read : string -> E -> result (list Byte.byte) IoError * E;
  mh_exists : string -> E -> bool * E;
  mh_version_host : CoreSpec -> E -> VersionHost * E;
  (** Artifact store. *)
  mh_stage : Epoch -> list Byte.byte -> E -> result StagedRuntimeConfig Error * E;
  mh_drop_staged : StagedRuntimeConfig -> E -> () * E;
  mh_commit_new : StagedRuntimeConfig -> Epoch -> E -> result string Error * E;
  mh_commit_replace : StagedRuntimeConfig -> Epoch -> E -> result RuntimeConfigCommit Error * E;
  mh_backup : Epoch -> N -> E -> result RuntimeConfigBackup Error * E;
  mh_restore : RuntimeConfigBackup -> E -> result RuntimeConfigCommit Error * E;
  mh_remove_backup : RuntimeConfigBackup -> E -> result () Error * E;
  mh_cleanup_controller : Epoch -> E -> result () Error * E;
  mh_cleanup_epoch : Epoch -> E -> result () Error * E;
  (** Runtime backend and instances. *)
  mh_check_config : InstanceSpec -> E -> result () Error * E;
  mh_launch : RuntimeLaunchRequest -> E -> result () Error * E;
  mh_state : Instance -> E -> InstanceStatus;
  mh_pid : Instance -> E -> option N;
  mh_wait_ready : Instance -> E -> result () Error * E;
  mh_probe_now : Instance -> E -> ProbeResult * E;
  mh_stop : Instance -> Duration -> E -> result () Error * E;
  mh_reap : Epoch -> E -> result OrphanReapOutcome string * E;
  (** What the forwarder task of an instance reads while the operation before
      ran. *)
  mh_forwarded : Instance -> E -> list InstanceStatus * E;
  (** DNS controller. *)
  mh_dns_desired : Mapping -> option DnsIntent;
  mh_dns_apply : DnsIntent -> Epoch -> E -> Timed DnsOverrideRecord * E;
  mh_dns_restore : DnsOverrideRecord -> E -> Timed () * E;
  (** The record file: staging it (create, write, flush, sync), looking for the
      target, publishing the staging file over or as the target, and removals. *)
  mh_record_stage : DnsOverrideRecord -> E -> result () IoError * E;
  mh_record_exists : E -> result bool IoError * E;
  mh_record_replace : E -> result () IoError * E;
  mh_record_move_new : E -> result () IoError * E;
  mh_record_drop_staging : E -> () * E;
  mh_record_remove : E -> result () IoError * E;
  mh_sync_dir : E -> result () IoError * E;
  (** Control client. *)
  mh_build_client : ResolvedController -> result () Error;
  mh_patch_config : Instance -> ConfigPatch -> E -> result () string * E;
  mh_put_config : Instance -> string -> E -> result () string * E;
  mh_configs : Instance -> E -> result RuntimeConfig string * E;
  (** Whether the reconcile timeout has elapsed. *)
  mh_deadline : E -> bool;
  (** Log sink. *)
  mh_log_sink_shutdown : E -> () * E;
}.

(** ** The trace *)

Inductive Event :=
| EvChecked (path : string) (ok : bool)
| EvCommitted (path : string) (epoch : Epoch) (new : bool) (ok : bool)
| EvRestored (backup : RuntimeConfigBackup) (ok : bool)
| EvLaunched (i : Instance)
| EvLaunchFailed (epoch : Epoch) (error : Error)
| EvReady (i : Instance) (ok : bool)
| EvStopped (i : Instance) (r : result () Error)
| EvReaped (epoch : Epoch) (r : result OrphanReapOutcome string)
| EvCleaned (epoch : Epoch)
| EvRecord (record : option DnsOverrideRecord)
| EvDnsApply (intent : DnsIntent) (epoch : Epoch)
| EvDnsRestored (record : DnsOverrideRecord) (ok : bool)
| EvPatched (i : Instance)
| EvReloaded (i : Instance) (path : string).

(** ** The manager and its monad *)

(** [Inner]: what a transaction reads and writes of it.  The options and the
    injected collaborators are constants of the host class; the watch channels
    are the values they hold; [m_forwarder] is the task that follows an
    instance; [m_launches] numbers the instances, [m_env] is the state of the
    host and [m_events] the trace of what was asked of it. *)
Record Mgr (E : Type) := {
  m_ctrl : Ctrl;
  m_status : CoreStatus;
  m_commits : option EffectiveConfigSnapshot;
  m_forwarder : option Instance;
  m_log_sink : bool;
  m_versions : VersionCache;
  m_launches : nat;
  m_env : E;
  m_events : list Event;
}.
Arguments m_ctrl {E} _.
Arguments m_status {E} _.
Arguments m_commits {E} _.
Arguments m_forwarder {E} _.
Arguments m_log_sink {E} _.
Arguments m_versions {E} _.
Arguments m_launches {E} _.
Arguments m_env {E} _.
Arguments m_events {E} _.

Definition M (E A : Type) : Type := Mgr E -> outcome A * Mgr E.

Definition mgr_ret {E A} (a : A) : M E A := fun s => (Return a, s).
Definition mgr_panic {E A} (message : string) : M E A := fun s => (Panicked message, s).
Definition mgr_bind {E A B} (m : M E A) (k : A -> M E B) : M E B :=
  fun s => match m s with
           | (Return a, s') => k a s'
           | (Panicked message, s') => (Panicked message, s')
           end.
Definition mgr_try {E A B} (m : M E (result A Error)) (k : A -> M E (result B Error)) : M E (result B Error) :=
  mgr_bind m (fun r => match r with Ok a => k a | Err e => mgr_ret (Err e) end).
Definition mgr_get {E A} (f : Mgr E -> A) : M E A := fun s => (Return (f s), s).
Definition mgr_modify {E} (f : Mgr E -> Mgr E) : M E () := fun s => (Return tt, f s).

Declare Scope mgr_scope.
Delimit Scope mgr_scope with mgr.
Notation "'do' x ← m ; k" := (mgr_bind m (fun x => k))
  (at level 10, x pattern, m at level 100, k at level 200) : mgr_scope.
Notation "'do?' x ← m ; k" := (mgr_try m (fun x => k))
  (at level 10, x pattern, m at level 100, k at level 200) : mgr_scope.
Notation "m ;; k" := (mgr_bind m (fun _ => k)) (at level 100, k at level 200, right associativity) : mgr_scope.
Open Scope mgr_scope.

Section State.
Context {E : Type}.

Definition on_ctrl (f : Ctrl -> Ctrl) (s : Mgr E) : Mgr E :=
  {| m_ctrl := f (m_ctrl s); m_status := m_status s; m_commits := m_commits s;
     m_forwarder := m_forwarder s; m_log_sink := m_log_sink s; m_versions := m_versions s;
     m_launches := m_launches s; m_env := m_env s; m_events := m_events s |}.
Definition set_status (status : CoreStatus) (s : Mgr E) : Mgr E :=
  {| m_ctrl := m_ctrl s; m_status := status; m_commits := m_commits s;
     m_forwarder := m_forwarder s; m_log_sink := m_log_sink s; m_versions := m_versions s;
     m_launches := m_launches s; m_env := m_env s; m_events := m_events s |}.
Definition set_commits (c : option EffectiveConfigSnapshot) (s : Mgr E) : Mgr E :=
  {| m_ctrl := m_ctrl s; m_status := m_status s; m_commits := c;
     m_forwarder := m_forwarder s; m_log_sink := m_log_sink s; m_versions := m_versions s;
     m_launches := m_launches s; m_env := m_env s; m_events := m_events s |}.
Definition set_forwarder (f : option Instance) (s : Mgr E) : Mgr E :=
  {| m_ctrl := m_ctrl s; m_status := m_status s; m_commits := m_commits s;
     m_forwarder := f; m_log_sink := m_log_sink s; m_versions := m_versions s;
     m_launches := m_launches s; m_env := m_env s; m_events := m_events s |}.
Definition set_log_sink (b : bool) (s : Mgr E) : Mgr E :=
  {| m_ctrl := m_ctrl s; m_status := m_status s; m_commits := m_commits s;
     m_forwarder := m_forwarder s; m_log_sink := b; m_versions := m_versions s;
     m_launches := m_launches s; m_env := m_env s; m_events := m_events s |}.
Definition set_versions (v : VersionCache) (s : Mgr E) : Mgr E :=
  {| m_ctrl := m_ctrl s; m_status := m_status s; m_commits := m_commits s;
     m_forwarder := m_forwarder s; m_log_sink := m_log_sink s; m_versions := v;
     m_launches := m_launches s; m_env := m_env s; m_events := m_events s |}.
Definition set_launches (n : nat) (s : Mgr E) : Mgr E :=
  {| m_ctrl := m_ctrl s; m_status := m_status s; m_commits := m_commits s;
     m_forwarder := m_forwarder s; m_log_sink := m_log_sink s; m_versions := m_versions s;
     m_launches := n; m_env := m_env s; m_events := m_events s |}.
Definition set_env (e : E) (s : Mgr E) : Mgr E :=
  {| m_ctrl := m_ctrl s; m_status := m_status s; m_commits := m_commits s;
     m_forwarder := m_forwarder s; m_log_sink := m_log_sink s; m_versions := m_versions s;
     m_launches := m_launches s; m_env := e; m_events := m_events s |}.
Definition add_event (ev : Event) (s : Mgr E) : Mgr E :=
  {| m_ctrl := m_ctrl s; m_status := m_status s; m_commits := m_commits s;
     m_forwarder := m_forwarder s; m_log_sink := m_log_sink s; m_versions := m_versions s;
     m_launches := m_launches s; m_env := m_env s; m_events := ev :: m_events s |}.

Definition modify_ctrl (f : Ctrl -> Ctrl) : M E () := mgr_modify (on_ctrl f).
Definition emit (ev : Event) : M E () := mgr_modify (add_event ev).
Definition get_ctrl : M E Ctrl := mgr_get m_ctrl.

End State.

(** ** Publication ([manager/publish.rs]) *)

Definition instance_core_state (epoch : Epoch) (state : InstanceState) : CoreState :=
  match state with
  | IStarting => CStarting epoch
  | IRunning pid => CRunning epoch pid
  | IRestarting attempt => CRestarting epoch attempt
  | IStopping => CStopping epoch
  | IStopped reason => CStopped (Some reason)
  end.

Definition spec_summary (plan : EpochPlan) : SpecSummary :=
  {| ss_kind := cs_kind (is_core (ep_source_spec plan));
     ss_config_path := is_config_path (ep_source_spec plan);
     ss_capabilities := ep_capabilities plan;
     ss_runtime_features := ep_runtime_features plan |}.

(** [default_health_for_state]; [now] is the clock it reads. *)
Definition default_health_for_state (previous : option HealthStatus) (state : CoreState) (now : Z)
  : option HealthStatus :=
  let target :=
    match state with
    | CStarting _ | CRestarting _ _ | CSwitching _ _ => Some HStarting
    | CRunning _ _ => Some HHealthy
    | CStopping _ | CStopped _ => None
    end in
  match target with
  | None => None
  | Some target =>
      match previous with
      | Some p =>
          if decide (hs_state p = target) then
            Some {| hs_state := target; hs_changed_at := hs_changed_at p;
                    hs_consecutive_failures := hs_consecutive_failures p;
                    hs_last_error := hs_last_error p; hs_last_success_at := hs_last_success_at p |}
          else Some {| hs_state := target; hs_changed_at := now; hs_consecutive_failures := 0;
                       hs_last_error := None; hs_last_success_at := None |}
      | None => Some {| hs_state := target; hs_changed_at := now; hs_consecutive_failures := 0;
                        hs_last_error := None; hs_last_success_at := None |}
      end
  end.

(** The closure [Inner::publish] sends; the clock is read for the health first
    and for the transition behind it. *)
Definition published (status : CoreStatus) (state : CoreState) (plan : option EpochPlan)
    (health_now now : Z) : CoreStatus :=
  {| st_instance_id := None;
     st_state := state;
     st_changed_at := if decide (st_state status = state) then st_changed_at status else now;
     st_health := default_health_for_state (st_health status) state health_now;
     st_spec := spec_summary <$> plan;
     st_controller := (fun p => rc_host (ep_controller p)) <$> plan;
     st_revision := ep_revision <$> plan |}.

(** The closure [Inner::publish_instance] sends. *)
Definition published_instance (status : CoreStatus) (snapshot : InstanceStatus) (i : Instance)
    (state : CoreState) (plan : EpochPlan) (now : Z) : CoreStatus :=
  {| st_instance_id := ist_instance_id snapshot;
     st_state := state;
     st_changed_at := if decide (st_state status = state) then st_changed_at status else now;
     st_health := ist_health snapshot;
     st_spec := Some (spec_summary plan);
     st_controller := Some (rc_host (in_controller i));
     st_revision := Some (ep_revision plan) |}.

(** [apply_epoch_status]: the status after it, and whether watchers wake. *)
Definition apply_epoch_status (status : CoreStatus) (epoch : Epoch) (instance : InstanceStatus) (now : Z)
  : CoreStatus * bool :=
  if decide (cr_epoch <$> st_revision status <> Some epoch) then (status, false)
  else
    let state := instance_core_state epoch (ist_state instance) in
    let lifecycle_changed := negb (bool_decide (st_state status = state)) in
    let health_changed := negb (bool_decide (st_health status = ist_health instance)) in
    if negb lifecycle_changed && negb health_changed
       && bool_decide (st_instance_id status = ist_instance_id instance)
    then (status, false)
    else
      ({| st_instance_id := ist_instance_id instance;
          st_state := state;
          st_changed_at := if lifecycle_changed then now else st_changed_at status;
          st_health := ist_health instance;
          st_spec := st_spec status;
          st_controller := st_controller status;
          st_revision := st_revision status |}, true).

Section Host.
Context {E : Type} `{ManagerHost E}.

Definition now_ms : M E Z :=
  fun s => let '(t, e) := mh_now (m_env s) in (Return t, set_env e s).

Definition publish (state : CoreState) (plan : option EpochPlan) : M E () :=
  do health_now ← now_ms;
  do now ← now_ms;
  mgr_modify (fun s => set_status (published (m_status s) state plan health_now now) s).

Definition publish_instance (i : Instance) (state : CoreState) (plan : EpochPlan) : M E () :=
  do snapshot ← mgr_get (fun s => mh_state i (m_env s));
  (match state, ist_instance_id snapshot with
   | CRunning _ _, Some id =>
       mgr_modify (set_commits (Some (effective_config_snapshot plan id)))
   | _, _ => mgr_ret tt
   end) ;;
  do now ← now_ms;
  mgr_modify (fun s => set_status (published_instance (m_status s) snapshot i state plan now) s).

Definition publish_active (active : Active) (state : CoreState) : M E () :=
  publish_instance (a_instance active) state (a_plan active).

(** One status of the forwarder task. *)
Definition publish_epoch_status (epoch : Epoch) (status : InstanceStatus) (s : Mgr E) : Mgr E :=
  let '(now, e) := mh_now (m_env s) in
  let s := set_env e s in
  set_status (apply_epoch_status (m_status s) epoch status now).1 s.

(** The loop of [spawn_forwarder]: it ends behind a terminal status. *)
Fixpoint forward (i : Instance) (statuses : list InstanceStatus) (s : Mgr E) : Mgr E :=
  match statuses with
  | [] => s
  | status :: rest =>
      let s := publish_epoch_status (in_epoch i) status s in
      if is_terminal (ist_state status) then set_forwarder None s else forward i rest s
  end.

(** The forwarder runs while the transaction waits. *)
Definition pump (s : Mgr E) : Mgr E :=
  match m_forwarder s with
  | None => s
  | Some i =>
      let '(statuses, e) := mh_forwarded i (m_env s) in
      forward i statuses (set_env e s)
  end.

(** One awaited host operation. *)
Definition host {A} (op : E -> A * E) : M E A :=
  fun s => let '(a, e) := op (m_env s) in (Return a, pump (set_env e s)).

Definition publish_terminal_error (error : Error) : M E () :=
  publish (CStopped (Some (StopError (Error_to_string error)))) None.

Definition republish_retained : M E () :=
  do ctrl ← get_ctrl;
  match c_current ctrl with
  | None => mgr_ret tt
  | Some active =>
      do st ← mgr_get (fun s => mh_state (a_instance active) (m_env s));
      publish_active active (instance_core_state (in_epoch (a_instance active)) (ist_state st))
  end.

(** ** Host operations that leave an event *)

Definition check_config (spec : InstanceSpec) : M E (result () Error) :=
  do r ← host (mh_check_config spec);
  emit (EvChecked (is_config_path spec) (is_ok r)) ;;
  mgr_ret r.

Definition commit_new (staged : StagedRuntimeConfig) (epoch : Epoch) : M E (result string Error) :=
  do r ← host (mh_commit_new staged epoch);
  emit (EvCommitted (sg_path staged) epoch true (is_ok r)) ;;
  mgr_ret r.

Definition commit_replace (staged : StagedRuntimeConfig) (epoch : Epoch)
  : M E (result RuntimeConfigCommit Error) :=
  do r ← host (mh_commit_replace staged epoch);
  emit (EvCommitted (sg_path staged) epoch false (is_ok r)) ;;
  mgr_ret r.

Definition restore_backup (backup : RuntimeConfigBackup) : M E (result RuntimeConfigCommit Error) :=
  do r ← host (mh_restore backup);
  emit (EvRestored backup (is_ok r)) ;;
  mgr_ret r.

(** [CoreManager::spawn_instance]. *)
Definition spawn_instance (plan : EpochPlan) : M E (result Instance Error) :=
  let request := launch_request plan in
  do r ← host (mh_launch request);
  match r with
  | Ok _ =>
      do n ← mgr_get m_launches;
      let i := {| in_serial := n; in_request := request |} in
      mgr_modify (set_launches (S n)) ;;
      emit (EvLaunched i) ;;
      mgr_ret (Ok i)
  | Err e => emit (EvLaunchFailed (ep_epoch plan) e) ;; mgr_ret (Err e)
  end.

Definition wait_ready (i : Instance) : M E (result () Error) :=
  do r ← host (mh_wait_ready i);
  emit (EvReady i (is_ok r)) ;;
  mgr_ret r.

Definition stop_and_confirm_dead (i : Instance) : M E (result () Error) :=
  do r ← host (mh_stop i (mo_stop_timeout mh_options));
  emit (EvStopped i r) ;;
  mgr_ret r.

Definition instance_pid (i : Instance) : M E N :=
  mgr_get (fun s => default 0 (mh_pid i (m_env s))).

Definition instance_status (i : Instance) : M E InstanceStatus :=
  mgr_get (fun s => mh_state i (m_env s)).

(** [abort_and_await(forwarder)]. *)
Definition abort_forwarder : M E () := mgr_modify (set_forwarder None).

(** [EpochAllocator::next]. *)
Definition next_epoch : M E Epoch :=
  do ctrl ← get_ctrl;
  match checked_add u64_modulus (c_last ctrl) 1 with
  | None => mgr_panic "epoch space exhausted"
  | Some last =>
      modify_ctrl (set_last last) ;;
      match Epoch_new last with
      | None => mgr_panic "a checked increment cannot produce zero"
      | Some epoch => mgr_ret epoch
      end
  end.

End Host.
