(* ===== verification/ManagerDns.v ===== *)
(** * DNS override convergence ([manager/dns_sync.rs])

    The ownership record, the activation before a launch, the restore at the
    head of a stop, and the converge tail of every transaction.  Branches
    compiled only for macOS and log messages are left out. *)

From S2P Require Export ManagerState.
Open Scope rust_scope.
Open Scope mgr_scope.

Section Dns.
Context {E : Type} `{ManagerHost E}.

(** The staged write of a record: staging file, then publication. *)
Definition write_dns_record (entry : DnsOverrideRecord) : M E (result () IoError) :=
  do staged ← host (mh_record_stage entry);
  match staged with
  | Err e => mgr_ret (Err e)
  | Ok _ =>
      do exists_ ← host mh_record_exists;
      match exists_ with
      | Err e => mgr_ret (Err e)
      | Ok true => host mh_record_replace
      | Ok false => host mh_record_move_new
      end
  end.

(** The record is visible: the manager owns it. *)
Definition advance_dns_record (record : option DnsOverrideRecord) : M E () :=
  modify_ctrl (set_dns_record record) ;; emit (EvRecord record).

Definition persist_dns_record (record : option DnsOverrideRecord) : M E (result () IoError) :=
  match record with
  | Some entry =>
      do written ← write_dns_record entry;
      match written with
      | Err e => host mh_record_drop_staging ;; mgr_ret (Err e)
      | Ok _ =>
          host mh_sync_dir ;;
          advance_dns_record record ;;
          mgr_ret (Ok tt)
      end
  | None =>
      do removed ← host mh_record_remove;
      match removed with
      | Ok _ => host mh_sync_dir ;; advance_dns_record record ;; mgr_ret (Ok tt)
      | Err e =>
          if ioe_not_found e then advance_dns_record record ;; mgr_ret (Ok tt)
          else mgr_ret (Err e)
      end
  end.

Definition dns_baseline (ctrl : Ctrl) : option (string * list string) :=
  match c_dns_record ctrl with
  | Some record =>
      if decide (dr_interface record = "") then None
      else Some (dr_interface record, dr_previous record)
  | None => None
  end.

Definition dns_pre_record (baseline : option (string * list string)) (intent : DnsIntent) (epoch : Epoch)
  : DnsOverrideRecord :=
  {| dr_interface := default "" (fst <$> baseline);
     dr_previous := default [] (snd <$> baseline);
     dr_applied := di_servers intent;
     dr_runtime_epoch := Epoch_get epoch;
     dr_owner_generation := None;
     dr_state := DnsApplied |}.

Definition with_previous (previous : list string) (r : DnsOverrideRecord) : DnsOverrideRecord :=
  {| dr_interface := dr_interface r; dr_previous := previous; dr_applied := dr_applied r;
     dr_runtime_epoch := dr_runtime_epoch r; dr_owner_generation := dr_owner_generation r;
     dr_state := dr_state r |}.
Definition with_record_state (state : DnsOverrideState) (r : DnsOverrideRecord) : DnsOverrideRecord :=
  {| dr_interface := dr_interface r; dr_previous := dr_previous r; dr_applied := dr_applied r;
     dr_runtime_epoch := dr_runtime_epoch r; dr_owner_generation := dr_owner_generation r;
     dr_state := state |}.

(** The read-back under a baseline: [None] when the interface changed. *)
Definition reconcile_baseline (baseline : option (string * list string)) (record : DnsOverrideRecord)
  : option DnsOverrideRecord :=
  match baseline with
  | Some (interface, previous) =>
      if decide (dr_interface record <> interface) then None
      else Some (with_previous previous record)
  | None => Some record
  end.

Definition apply_failed {A} (text : string) : M E (result A Error) := mgr_ret (Err (ApplyFailed text)).

Definition dns_apply (intent : DnsIntent) (epoch : Epoch) : M E (Timed DnsOverrideRecord) :=
  emit (EvDnsApply intent epoch) ;; host (mh_dns_apply intent epoch).

Definition dns_timeout_text : string := fmt_duration (mo_dns_timeout mh_options).

Definition dns_activate_for_plan (plan : EpochPlan) : M E (result () Error) :=
  if negb mh_dns then mgr_ret (Ok tt)
  else
    match mh_dns_desired (ep_effective_document plan) with
    | None => mgr_ret (Ok tt)
    | Some intent =>
        do ctrl ← get_ctrl;
        let baseline := dns_baseline ctrl in
        do pre ← persist_dns_record (Some (dns_pre_record baseline intent (ep_epoch plan)));
        match pre with
        | Err e =>
            apply_failed ("could not persist DNS override ownership before activation: " +:+ ioe_text e)
        | Ok _ =>
            do applied ← dns_apply intent (ep_epoch plan);
            match applied with
            | Done (Err e) => apply_failed ("DNS override activation failed: " +:+ e)
            | Elapsed => apply_failed ("DNS override activation timed out after " +:+ dns_timeout_text)
            | Done (Ok record) =>
                match reconcile_baseline baseline record with
                | None => apply_failed "DNS interface changed while the override was active"
                | Some record =>
                    do post ← persist_dns_record (Some record);
                    match post with
                    | Ok _ => mgr_ret (Ok tt)
                    | Err e =>
                        apply_failed ("could not persist DNS override read-back before activation: "
                                        +:+ ioe_text e)
                    end
                end
            end
        end
    end.

Definition dns_restore : M E (result () Error) :=
  do ctrl ← get_ctrl;
  match c_dns_record ctrl with
  | None => mgr_ret (Ok tt)
  | Some record =>
      if negb mh_dns then
        apply_failed "DNS override is recorded but no host DNS controller is registered"
      else
        persist_dns_record (Some (with_record_state RestorePending record)) ;;
        do restored ← host (mh_dns_restore record);
        match restored with
        | Done (Ok _) =>
            emit (EvDnsRestored record true) ;;
            persist_dns_record None ;;
            mgr_ret (Ok tt)
        | Done (Err e) =>
            emit (EvDnsRestored record false) ;;
            apply_failed ("DNS override restore failed; ownership record retained: " +:+ e)
        | Elapsed =>
            emit (EvDnsRestored record false) ;;
            apply_failed ("DNS override restore timed out after " +:+ dns_timeout_text
                            +:+ "; ownership record retained")
        end
  end.

Definition dns_deactivate_for_plan (plan : EpochPlan) : M E (result () Error) :=
  do ctrl ← get_ctrl;
  match c_dns_record ctrl with
  | None => mgr_ret (Ok tt)
  | Some _ =>
      let target_needs_override :=
        mh_dns && bool_decide (is_Some (mh_dns_desired (ep_effective_document plan))) in
      if target_needs_override then mgr_ret (Ok tt) else dns_restore
  end.

(** A runtime is in the slot and has not ended. *)
Definition runtime_alive : M E bool :=
  do ctrl ← get_ctrl;
  match c_current ctrl with
  | None => mgr_ret false
  | Some active =>
      do st ← instance_status (a_instance active);
      mgr_ret (negb (is_terminal (ist_state st)))
  end.

Definition dns_desired_now : M E (option (DnsIntent * Epoch)) :=
  do alive ← runtime_alive;
  do ctrl ← get_ctrl;
  mgr_ret (if alive then
    active ← c_current ctrl;
    intent ← mh_dns_desired (ep_effective_document (a_plan active));
    Some (intent, in_epoch (a_instance active))
  else None).

Definition dns_converge : M E (result () Error) :=
  if negb mh_dns then dns_restore
  else
    do desired ← dns_desired_now;
    match desired with
    | None => dns_restore
    | Some (intent, epoch) =>
        do ctrl ← get_ctrl;
        let baseline := dns_baseline ctrl in
        do pre ← persist_dns_record (Some (dns_pre_record baseline intent epoch));
        match pre with
        | Err e =>
            apply_failed ("could not persist DNS override ownership during convergence: " +:+ ioe_text e)
        | Ok _ =>
            do applied ← dns_apply intent epoch;
            match applied with
            | Done (Ok record) =>
                match reconcile_baseline baseline record with
                | None =>
                    apply_failed "DNS interface changed during convergence; ownership record retained"
                | Some record =>
                    do post ← persist_dns_record (Some record);
                    match post with
                    | Ok _ => mgr_ret (Ok tt)
                    | Err e =>
                        apply_failed ("could not persist DNS override read-back during convergence: "
                                        +:+ ioe_text e)
                    end
                end
            | Done (Err e) =>
                apply_failed ("DNS override convergence failed; ownership record retained: " +:+ e)
            | Elapsed =>
                apply_failed ("DNS override convergence timed out after " +:+ dns_timeout_text
                                +:+ "; ownership record retained")
            end
        end
    end.

Definition finish_dns_converge {T} (outcome_ : result T Error) : M E (result T Error) :=
  do alive ← runtime_alive;
  do dns_result ← (if is_ok outcome_ || negb alive then dns_converge else mgr_ret (Ok tt));
  mgr_ret
    match outcome_, dns_result with
    | Ok t, Ok _ => Ok t
    | Ok _, Err dns_error =>
        Err (ApplyFailed ("runtime transition completed, but host DNS state is unconfirmed: "
                            +:+ Error_to_string dns_error))
    | Err operation_error, Ok _ => Err operation_error
    | Err operation_error, Err dns_error =>
        Err (ApplyFailed ("runtime transition failed (" +:+ Error_to_string operation_error
          +:+ "); host DNS convergence also failed: " +:+ Error_to_string dns_error))
    end.

End Dns.
