(* ===== verification/ManagerCore.v ===== *)
(** * Quarantine, start, stop and the slot

    [manager/quarantine.rs] and the transactions of [manager/mod.rs] that
    start, stop and shut down, with the preparation of a launch from
    [manager/switching.rs] they use. *)

From S2P Require Import Kind.
From S2P Require Export ManagerDns.
Open Scope rust_scope.
Open Scope mgr_scope.

(** ** The latch ([quarantine.rs]) *)

Definition quarantine_error (ctrl : Ctrl) : option Error :=
  match c_quarantine ctrl with
  | [] => None
  | first :: _ =>
      let reason :=
        if decide (length (c_quarantine ctrl) = 1%nat) then q_reason first
        else q_reason first +:+ "; additional uncertain epochs: "
               +:+ str_join ", " (map (fun entry => Epoch_fmt (q_epoch entry)) (c_quarantine ctrl)) in
      Some (ManagerQuarantined (q_epoch first) reason)
  end.

(** The first entry of the epoch gets the new reason. *)
Fixpoint update_reason (epoch : Epoch) (reason : string) (l : list QuarantinedEpoch)
  : option (list QuarantinedEpoch) :=
  match l with
  | [] => None
  | entry :: rest =>
      if decide (q_epoch entry = epoch) then
        Some ({| q_epoch := q_epoch entry; q_reason := reason; q_death_proven := q_death_proven entry |} :: rest)
      else cons entry <$> update_reason epoch reason rest
  end.
Definition record_quarantine (epoch : Epoch) (reason : string) (ctrl : Ctrl) : Ctrl :=
  match update_reason epoch reason (c_quarantine ctrl) with
  | Some l => set_quarantine l ctrl
  | None =>
      set_quarantine
        (c_quarantine ctrl ++ [{| q_epoch := epoch; q_reason := reason; q_death_proven := false |}]) ctrl
  end.

Definition reject_quarantine (ctrl : Ctrl) : result () Error :=
  match quarantine_error ctrl with Some error => Err error | None => Ok tt end.

(** [quarantine.death_proven = true] on the first entry of the epoch. *)
Fixpoint mark_death_proven (epoch : Epoch) (l : list QuarantinedEpoch) : list QuarantinedEpoch :=
  match l with
  | [] => []
  | entry :: rest =>
      if decide (q_epoch entry = epoch) then
        {| q_epoch := q_epoch entry; q_reason := q_reason entry; q_death_proven := true |} :: rest
      else entry :: mark_death_proven epoch rest
  end.
Definition retain_other (epoch : Epoch) (l : list QuarantinedEpoch) : list QuarantinedEpoch :=
  List.filter (fun entry => negb (bool_decide (q_epoch entry = epoch))) l.

(** ** Slot data *)

Definition native_dir : InstanceSpec -> option (string * (CoreKind -> string)) -> InstanceSpec :=
  fun spec store =>
    match store with
    | Some (_, home) => with_working_dir (home (cs_kind (is_core spec))) spec
    | None => spec
    end.

Section Core.
Context {E : Type} `{ManagerHost E}.

Definition latch_quarantine (epoch : Epoch) (error : Error) : M E Error :=
  modify_ctrl (record_quarantine epoch (Error_to_string error)) ;;
  do ctrl ← get_ctrl;
  match quarantine_error ctrl with
  | Some quarantine => publish_terminal_error quarantine ;; mgr_ret error
  | None => mgr_panic "quarantine was just inserted"
  end.

(** [Err(self.latch_quarantine(..))]. *)
Definition latch_err {A} (epoch : Epoch) (error : Error) : M E (result A Error) :=
  do e ← latch_quarantine epoch error; mgr_ret (Err e).

(** [self.publish_terminal_error(&error); Err(error)]. *)
Definition terminal_err {A} (error : Error) : M E (result A Error) :=
  publish_terminal_error error ;; mgr_ret (Err error).

Definition cleanup_epoch (epoch : Epoch) : M E (result () Error) :=
  do? _ ← (match mo_controller_dir mh_options with
           | Some _ => host (mh_cleanup_controller epoch)
           | None => mgr_ret (Ok tt)
           end);
  do? _ ← host (mh_cleanup_epoch epoch);
  emit (EvCleaned epoch) ;;
  mgr_ret (Ok tt).

(** [reap_epoch_pid_file] of the epoch's record. *)
Definition reap (epoch : Epoch) : M E (result OrphanReapOutcome string) :=
  do r ← host (mh_reap epoch);
  emit (EvReaped epoch r) ;;
  mgr_ret r.

(** [failures.push(format!(..))]. *)
Definition entry_failed (entry : QuarantinedEpoch) (failures : list string) (text : string) : M E (list string) :=
  mgr_ret (failures ++
    ["epoch " +:+ Epoch_fmt (q_epoch entry) +:+ ": " +:+ q_reason entry +:+ text]).

(** The artifacts of a dead epoch go, then its entry. *)
Definition clean_entry (entry : QuarantinedEpoch) (failures : list string) : M E (list string) :=
  do cleaned ← cleanup_epoch (q_epoch entry);
  match cleaned with
  | Ok _ =>
      modify_ctrl (fun c => set_quarantine (retain_other (q_epoch entry) (c_quarantine c)) c) ;;
      mgr_ret failures
  | Err error => entry_failed entry failures ("; artifact cleanup failed: " +:+ Error_to_string error)
  end.

(** One entry of the recovery loop, with the failures so far. *)
Definition recover_entry (entry : QuarantinedEpoch) (failures : list string) : M E (list string) :=
  if q_death_proven entry then clean_entry entry failures
  else
    do reaped ← reap (q_epoch entry);
    match reaped with
    | Ok ReapAlreadyExited | Ok ReapKilled =>
        modify_ctrl (fun c => set_quarantine (mark_death_proven (q_epoch entry) (c_quarantine c)) c) ;;
        clean_entry entry failures
    | Ok ReapNotFound =>
        entry_failed entry failures "; authoritative epoch pid record is unavailable"
    | Err error => entry_failed entry failures ("; recovery failed: " +:+ error)
    end.

Fixpoint recover_entries (entries : list QuarantinedEpoch) (failures : list string) : M E (list string) :=
  match entries with
  | [] => mgr_ret failures
  | entry :: rest =>
      do failures ← recover_entry entry failures;
      recover_entries rest failures
  end.

Definition recover_quarantine : M E (result () Error) :=
  do ctrl ← get_ctrl;
  if decide (length (c_quarantine ctrl) = 0%nat) then mgr_ret (Ok tt)
  else
    do failures ← recover_entries (c_quarantine ctrl) [];
    if decide (length failures = 0%nat) then
      do? _ ← dns_restore;
      publish (CStopped None) None ;;
      mgr_ret (Ok tt)
    else
      do ctrl ← get_ctrl;
      match c_quarantine ctrl with
      | first :: _ => mgr_ret (Err (ManagerQuarantined (q_epoch first) (str_join " | " failures)))
      | [] => mgr_panic "a failed recovery leaves its epoch quarantined"
      end.

(** ** The slot *)

Definition install (i : Instance) (plan : EpochPlan) : M E Active :=
  mgr_modify (set_forwarder (Some i)) ;;
  modify_ctrl (set_last_spec (Some (ep_source_spec plan))) ;;
  let active := {| a_instance := i; a_plan := plan |} in
  modify_ctrl (set_current (Some active)) ;;
  mgr_ret active.

Record RetireFailure := { rtf_epoch : Epoch; rtf_error : Error }.

Definition take_current : M E (option Active) :=
  do ctrl ← get_ctrl;
  modify_ctrl (set_current None) ;;
  mgr_ret (c_current ctrl).

Definition retire_current : M E (result (option EpochPlan) RetireFailure) :=
  do taken ← take_current;
  match taken with
  | None => mgr_ret (Ok None)
  | Some active =>
      abort_forwarder ;;
      do stopped ← stop_and_confirm_dead (a_instance active);
      mgr_ret (match stopped with
               | Ok _ => Ok (Some (a_plan active))
               | Err error => Err {| rtf_epoch := ep_epoch (a_plan active); rtf_error := error |}
               end)
  end.

Definition discard_stale : M E (result () Error) :=
  do retired ← retire_current;
  match retired with
  | Ok None => mgr_ret (Ok tt)
  | Ok (Some plan) => cleanup_epoch (ep_epoch plan)
  | Err failure =>
      if is_stop_unconfirmed (rtf_error failure)
      then latch_err (rtf_epoch failure) (rtf_error failure)
      else mgr_ret (Err (rtf_error failure))
  end.

(** ** Preparing a launch ([switching.rs]) *)

Definition default_local_ipc_settings : LocalIpcSettings :=
  {| li_policy := mo_local_ipc_policy mh_options; li_keep_http_controller := false |}.
Definition local_ipc_settings (spec : InstanceSpec) : LocalIpcSettings :=
  default default_local_ipc_settings (io_local_ipc (is_options spec)).

Definition controller_dir : string := default mh_dir (mo_controller_dir mh_options).
Definition pid_path (epoch : Epoch) : string :=
  path_join mh_dir ("core-" +:+ Epoch_fmt epoch +:+ ".pid").

Definition load_snapshot (spec : InstanceSpec) : M E (result ConfigSnapshot Error) :=
  do raw ← host (mh_read (is_config_path spec));
  mgr_ret (load (is_config_path spec) (fun _ => raw)).

Definition manager_resolve_features (spec : InstanceSpec) : M E (result ResolvedFeatures Error) :=
  let policy := li_policy (local_ipc_settings spec) in
  let available := default true mh_access_supports_local_ipc in
  if negb available && bool_decide (policy = Force) then
    mgr_ret (Err (InvalidManagerOptions "the host cannot authorize local IPC"))
  else
    do answers ← host (mh_version_host (is_core spec));
    fun s =>
      let '(r, cache) :=
        resolve_features (m_versions s) (is_core spec) (if available then policy else Disable) answers in
      (Return r, set_versions cache s).

Definition validate_launchable (spec : InstanceSpec) : M E (result () Error) :=
  do found ← host (mh_exists (cs_binary_path (is_core spec)));
  mgr_ret
    (if negb found then Err (BinaryNotFound (cs_binary_path (is_core spec)))
     else map_ok (fun _ => tt)
            (run_args (cs_kind (is_core spec)) (is_working_dir spec) (is_config_path spec))).

(** A pure preparation step inside a transaction. *)
Definition lift_outcome {A} (o : outcome A) : M E A :=
  fun s => (o, s).

(** [prepare_full] and, with a native store, [native_paths]. *)
Definition prepare_document (spec : InstanceSpec) (epoch : Epoch) (snapshot : ConfigSnapshot)
    (resolved : ResolvedFeatures) : M E (result PreparedConfig Error) :=
  do? prepared ← lift_outcome (prepare_full snapshot (mo_controller_template mh_options)
    controller_dir epoch (rf_runtime resolved) (Some (local_ipc_settings spec)));
  match mh_native_store with
  | Some (data_dir, _) =>
      match native_paths prepared (cs_kind (is_core spec)) data_dir with
      | (Ok _, prepared) => mgr_ret (Ok prepared)
      | (Err e, _) => mgr_ret (Err e)
      end
  | None => mgr_ret (Ok prepared)
  end.

(** Stage the bytes and dry-run them under the spec; a staged file that is not
    returned is dropped. *)
Definition stage_and_check (spec : InstanceSpec) (epoch : Epoch) (bytes : list Byte.byte)
  : M E (result StagedRuntimeConfig Error) :=
  do? staged ← host (mh_stage epoch bytes);
  do checked ← check_config (with_config_path (sg_path staged) spec);
  match checked with
  | Ok _ => mgr_ret (Ok staged)
  | Err e => host (mh_drop_staged staged) ;; mgr_ret (Err e)
  end.

Definition epoch_plan (spec : InstanceSpec) (epoch : Epoch) (generation : N) (snapshot : ConfigSnapshot)
    (resolved : ResolvedFeatures) (prepared : PreparedConfig) (runtime_path : string) : EpochPlan :=
  {| ep_source_spec := spec;
     ep_effective_spec :=
       with_pid_file (Some (pid_path epoch))
         (with_config_path runtime_path (native_dir spec mh_native_store));
     ep_controller := pc_controller prepared;
     ep_revision :=
       {| cr_epoch := epoch; cr_generation := generation; cr_source_hash := pc_source_hash prepared;
          cr_effective_hash := pc_effective_hash prepared; cr_runtime_path := runtime_path |};
     ep_capabilities := rf_capabilities resolved;
     ep_runtime_features := rf_runtime resolved;
     ep_source_document := sn_document snapshot;
     ep_effective_document := pc_document prepared |}.

Definition prepare_launch_with_features (spec : InstanceSpec) (epoch : Epoch) (snapshot : ConfigSnapshot)
    (resolved : ResolvedFeatures) : M E (result EpochPlan Error) :=
  do? prepared ← prepare_document spec epoch snapshot resolved;
  do? staged ← stage_and_check spec epoch (pc_bytes prepared);
  do? runtime_path ← commit_new staged epoch;
  mgr_ret (Ok (epoch_plan spec epoch 1 snapshot resolved prepared runtime_path)).

Definition prepare_launch (spec : InstanceSpec) (epoch : Epoch) (snapshot : ConfigSnapshot)
  : M E (result EpochPlan Error) :=
  do? _ ← validate_launchable spec;
  do? resolved ← manager_resolve_features spec;
  prepare_launch_with_features spec epoch snapshot resolved.

(** ** Start *)

Definition start_prepared (plan : EpochPlan) : M E (result () Error) :=
  let epoch := ep_epoch plan in
  do activated ← dns_activate_for_plan plan;
  match activated with
  | Err error =>
      dns_restore ;; cleanup_epoch epoch ;; terminal_err error
  | Ok _ =>
      do deactivated ← dns_deactivate_for_plan plan;
      match deactivated with
      | Err error => cleanup_epoch epoch ;; terminal_err error
      | Ok _ =>
          publish (CStarting epoch) (Some plan) ;;
          do spawned ← spawn_instance plan;
          match spawned with
          | Err error => dns_restore ;; cleanup_epoch epoch ;; terminal_err error
          | Ok instance =>
              do ready ← wait_ready instance;
              match ready with
              | Err readiness_error =>
                  do stopped ← stop_and_confirm_dead instance;
                  match stopped with
                  | Ok _ => dns_restore ;; cleanup_epoch epoch ;; terminal_err readiness_error
                  | Err stop_error =>
                      latch_err epoch (StopUnconfirmed (Error_to_string readiness_error
                        +:+ "; failed to stop rejected initial instance: "
                        +:+ Error_to_string stop_error))
                  end
              | Ok _ =>
                  do pid ← instance_pid instance;
                  publish_instance instance (CRunning epoch pid) plan ;;
                  install instance plan ;;
                  mgr_ret (Ok tt)
              end
          end
      end
  end.

Definition start_locked (spec : InstanceSpec) : M E (result () Error) :=
  do epoch ← next_epoch;
  do loaded ← load_snapshot spec;
  match loaded with
  | Err error => terminal_err error
  | Ok snapshot =>
      do prepared ← prepare_launch spec epoch snapshot;
      match prepared with
      | Err error => cleanup_epoch epoch ;; terminal_err error
      | Ok plan => start_prepared plan
      end
  end.

Definition start (spec : InstanceSpec) : M E (result () Error) :=
  do ctrl ← get_ctrl;
  match reject_quarantine ctrl with
  | Err e => mgr_ret (Err e)
  | Ok _ =>
      do running ← runtime_alive;
      if running then mgr_ret (Err AlreadyRunning)
      else
        do? _ ← discard_stale;
        do started ← start_locked spec;
        finish_dns_converge started
  end.

(** ** Stop and shutdown *)

(** The tail both share: a stop that failed. *)
Definition stop_failed (epoch : Epoch) (error : Error) (terminal : bool) : M E (result () Error) :=
  if is_stop_unconfirmed error then latch_err epoch error
  else if terminal then terminal_err error
  else mgr_ret (Err error).

Definition cleanup_or_fail (epoch : Epoch) : M E (result () Error) :=
  do cleaned ← cleanup_epoch epoch;
  match cleaned with
  | Err error => terminal_err error
  | Ok _ => mgr_ret (Ok tt)
  end.

(** [stop] behind its restore. *)
Definition stop_current : M E (result () Error) :=
  do taken ← take_current;
  match taken with
  | None => mgr_ret (Err NotStarted)
  | Some active =>
      let instance := a_instance active in
      let epoch := in_epoch instance in
      do captured ← instance_status instance;
      abort_forwarder ;;
      if is_terminal (ist_state captured) then
        publish (instance_core_state epoch (ist_state captured)) (Some (a_plan active)) ;;
        do stopped ← stop_and_confirm_dead instance;
        match stopped with
        | Err error => stop_failed epoch error false
        | Ok _ =>
            do? _ ← cleanup_or_fail epoch;
            mgr_ret (Err NotStarted)
        end
      else
        publish (CStopping epoch) (Some (a_plan active)) ;;
        do stopped ← stop_and_confirm_dead instance;
        match stopped with
        | Err error => stop_failed epoch error true
        | Ok _ =>
            do? _ ← cleanup_or_fail epoch;
            publish (CStopped (Some User)) None ;;
            mgr_ret (Ok tt)
        end
  end.

Definition stop : M E (result () Error) :=
  do? _ ← dns_restore;
  stop_current.

Definition shutdown_runtime : M E (result () Error) :=
  do taken ← take_current;
  match taken with
  | None => mgr_ret (Ok tt)
  | Some active =>
      abort_forwarder ;;
      let epoch := in_epoch (a_instance active) in
      publish (CStopping epoch) (Some (a_plan active)) ;;
      do stopped ← stop_and_confirm_dead (a_instance active);
      match stopped with
      | Err error => stop_failed epoch error true
      | Ok _ =>
          do? _ ← cleanup_or_fail epoch;
          publish (CStopped (Some User)) None ;;
          mgr_ret (Ok tt)
      end
  end.

(** [shutdown] behind its restore. *)
Definition shutdown_tail : M E (result () Error) :=
  do outcome_ ← shutdown_runtime;
  do sink ← mgr_get m_log_sink;
  (if sink then mgr_modify (set_log_sink false) ;; host mh_log_sink_shutdown else mgr_ret tt) ;;
  mgr_ret outcome_.

Definition shutdown : M E (result () Error) :=
  do? _ ← dns_restore;
  shutdown_tail.

End Core.
