(* ===== verification/ManagerSwitch.v ===== *)
(** * Restart and switch ([manager/switching.rs])

    Replacing the running epoch by another one: hard (stop, then start) or
    graceful (the new epoch runs beside the old one on a document without
    listeners, and takes them over by a patch). *)

From S2P Require Export ManagerCore.
Open Scope rust_scope.
Open Scope mgr_scope.

Definition graceful_degrade_reason (local_controller : bool) (kind : CoreKind)
    (block : option OverlapBlock) : option DegradeReason :=
  if negb local_controller then Some DHttpController
  else if negb (bool_decide (kind = Mihomo)) then Some DUnsupportedKind
  else match block with
       | Some DnsListen => Some DDnsListen
       | Some InboundSurface => Some DInboundConflict
       | None => None
       end.

Definition with_switch_durability_warning (outcome_ : SwitchOutcome) (warning : option string) : SwitchOutcome :=
  match warning with
  | Some warning => SwitchDurabilityUncertain outcome_ warning
  | None => outcome_
  end.
Definition with_switch_durability_result (r : result SwitchOutcome Error) (warning : option string)
  : result SwitchOutcome Error :=
  match r, warning with
  | Ok outcome_, warning => Ok (with_switch_durability_warning outcome_ warning)
  | Err error, Some warning => Err (DurabilityUncertain error warning)
  | Err error, None => Err error
  end.

(** The document declares an HTTP controller. *)
Definition has_http (doc : Mapping) : bool :=
  existsb (fun field =>
      match map_get doc field ≫= as_str with Some value => negb (bool_decide (value = "")) | None => false end)
    [EXTERNAL_CONTROLLER; EXTERNAL_CONTROLLER_TLS].

Definition is_healthy (r : ProbeResult) : bool :=
  match r with ProbeHealthy => true | ProbeUnhealthy _ => false end.

Section Switch.
Context {E : Type} `{ManagerHost E}.

Record PreparedGraceful := {
  pg_plan : EpochPlan;
  pg_full_staged : StagedRuntimeConfig;
  pg_restoration : option (ConfigPatch * RuntimeProjection);
}.

Definition drop_staged (staged : StagedRuntimeConfig) : M E () := host (mh_drop_staged staged).

(** An awaited step under [reconcile_timeout]: [None] when the timeout had
    elapsed by its end, which drops the rest. *)
Definition timed {A} (m : M E A) (k : A -> M E bool) : M E bool :=
  do a ← m;
  do elapsed ← mgr_get (fun s => mh_deadline (m_env s));
  if elapsed then mgr_ret false else k a.

Definition probe_healthy (i : Instance) : M E bool :=
  timed (host (mh_probe_now i)) (fun r => mgr_ret (is_healthy r)).

(** [patch_and_verify]; a failed [PATCH] is verified like a successful one. *)
Definition patch_and_verify (i : Instance) (patch : ConfigPatch) (projection : RuntimeProjection) : M E bool :=
  match mh_build_client (in_controller i) with
  | Err _ => mgr_ret false
  | Ok _ =>
      timed (emit (EvPatched i) ;; host (mh_patch_config i patch)) (fun _ =>
      timed (host (mh_configs i)) (fun runtime =>
        match runtime with
        | Ok runtime =>
            match projection_verify projection runtime with
            | Ok true => probe_healthy i
            | Ok false | Err _ => mgr_ret false
            end
        | Err _ => mgr_ret false
        end))
  end.

(** [spawn_replacement]. *)
Definition spawn_replacement (plan : EpochPlan) : M E (result Instance Error) :=
  do? _ ← dns_deactivate_for_plan plan;
  do? _ ← dns_activate_for_plan plan;
  do? instance ← spawn_instance plan;
  do ready ← wait_ready instance;
  match ready with
  | Ok _ => mgr_ret (Ok instance)
  | Err error =>
      do stopped ← stop_and_confirm_dead instance;
      mgr_ret (match stopped with
               | Ok _ => Err error
               | Err stop_error =>
                   Err (StopUnconfirmed (Error_to_string error
                     +:+ "; failed to stop rejected replacement: " +:+ Error_to_string stop_error))
               end)
  end.

Definition prepare_graceful (spec : InstanceSpec) (epoch : Epoch) (snapshot : ConfigSnapshot)
    (resolved : ResolvedFeatures) : M E (result PreparedGraceful Error) :=
  let settings := Some (local_ipc_settings spec) in
  do? full ← lift_outcome (prepare_full snapshot (mo_controller_template mh_options)
    controller_dir epoch (rf_runtime resolved) settings);
  do? bootstrap ← lift_outcome (prepare_bootstrap snapshot (mo_controller_template mh_options)
    controller_dir epoch (rf_runtime resolved) settings);
  if bool_decide (rc_host (pc_controller full) <> rc_host (pc_controller bootstrap))
     || bool_decide (rc_secret (pc_controller full) <> rc_secret (pc_controller bootstrap))
  then mgr_ret (Err (InvalidConfig "full and bootstrap configs resolved different controllers"))
  else
    do? restoration ← mgr_ret (restoration_patch (pc_document bootstrap) (pc_document full));
    do? full_staged ← stage_and_check spec epoch (pc_bytes full);
    do bootstrap_staged ← stage_and_check spec epoch (pc_bytes bootstrap);
    match bootstrap_staged with
    | Err e => drop_staged full_staged ;; mgr_ret (Err e)
    | Ok bootstrap_staged =>
        do committed ← commit_new bootstrap_staged epoch;
        match committed with
        | Err e => drop_staged full_staged ;; mgr_ret (Err e)
        | Ok runtime_path =>
            mgr_ret (Ok {| pg_plan := epoch_plan spec epoch 1 snapshot resolved full runtime_path;
                           pg_full_staged := full_staged; pg_restoration := restoration |})
        end
    end.

(** [let _ = cleanup_epoch; republish_retained; Err(error)]. *)
Definition reject_retained {A} (epoch : Epoch) (error : Error) : M E (result A Error) :=
  cleanup_epoch epoch ;; republish_retained ;; mgr_ret (Err error).

Definition hard_switch (spec : InstanceSpec) (snapshot : ConfigSnapshot) (resolved : ResolvedFeatures)
  : M E (result () Error) :=
  do epoch ← next_epoch;
  do prepared ← prepare_launch_with_features spec epoch snapshot resolved;
  match prepared with
  | Err error => reject_retained epoch error
  | Ok plan =>
      do deactivated ← dns_deactivate_for_plan plan;
      match deactivated with
      | Err error => reject_retained epoch error
      | Ok _ =>
          do ctrl ← get_ctrl;
          publish (CSwitching ((fun a => in_epoch (a_instance a)) <$> c_current ctrl) epoch) (Some plan) ;;
          do retired ← retire_current;
          match retired with
          | Err failure =>
              cleanup_epoch epoch ;;
              if is_stop_unconfirmed (rtf_error failure)
              then latch_err (rtf_epoch failure) (rtf_error failure)
              else terminal_err (rtf_error failure)
          | Ok None => mgr_panic "running checked by caller"
          | Ok (Some old_plan) =>
              do cleaned ← cleanup_epoch (ep_epoch old_plan);
              match cleaned with
              | Err error => terminal_err error
              | Ok _ => start_prepared plan
              end
          end
      end
  end.

(** Stop a bootstrap that is not taken over; the error behind it. *)
Definition reject_bootstrap (i : Instance) (epoch : Epoch) (error : Error) (context : string)
  : M E (result SwitchOutcome Error) :=
  do stopped ← stop_and_confirm_dead i;
  match stopped with
  | Ok _ => reject_retained epoch error
  | Err stop_error =>
      latch_err epoch (StopUnconfirmed (Error_to_string error +:+ context +:+ Error_to_string stop_error))
  end.

(** The old epoch's stop failed while the bootstrap runs. *)
Definition old_stop_failed (i : Instance) (epoch : Epoch) (failure : RetireFailure)
  : M E (result SwitchOutcome Error) :=
  let error := rtf_error failure in
  let old_uncertain := is_stop_unconfirmed error in
  do new_stop ← stop_and_confirm_dead i;
  match new_stop with
  | Ok _ =>
      cleanup_epoch epoch ;;
      if old_uncertain then latch_err (rtf_epoch failure) error else terminal_err error
  | Err new_error =>
      (if old_uncertain
       then modify_ctrl (record_quarantine (rtf_epoch failure) (Error_to_string error))
       else mgr_ret tt) ;;
      latch_err epoch (StopUnconfirmed ("old epoch stop failed: " +:+ Error_to_string error
        +:+ "; new bootstrap stop also failed: " +:+ Error_to_string new_error))
  end.

(** The full document could not be installed. *)
Definition commit_failed (i : Instance) (epoch : Epoch) (error : Error) : M E (result SwitchOutcome Error) :=
  do new_stop ← stop_and_confirm_dead i;
  match new_stop with
  | Ok _ =>
      cleanup_epoch epoch ;;
      if is_stop_unconfirmed error then latch_err epoch error else terminal_err error
  | Err new_error =>
      latch_err epoch (StopUnconfirmed ("full runtime commit failed: " +:+ Error_to_string error
        +:+ "; bootstrap stop also failed: " +:+ Error_to_string new_error))
  end.

(** Take the new epoch over: publish, install, clean the old epoch. *)
Definition take_over (i : Instance) (plan : EpochPlan) (old_epoch : Epoch) (outcome_ : SwitchOutcome)
    (warning : option string) : M E (result SwitchOutcome Error) :=
  do pid ← instance_pid i;
  publish_instance i (CRunning (ep_epoch plan) pid) plan ;;
  install i plan ;;
  do cleaned ← cleanup_epoch old_epoch;
  mgr_ret (with_switch_durability_result (map_ok (fun _ => outcome_) cleaned) warning).

(** The takeover patch did not take: replace the bootstrap by a process of the
    installed document. *)
Definition replace_bootstrap (i : Instance) (plan : EpochPlan) (old_epoch : Epoch) (warning : option string)
  : M E (result SwitchOutcome Error) :=
  let epoch := ep_epoch plan in
  let durable (r : result SwitchOutcome Error) := with_switch_durability_result r warning in
  do stopped ← stop_and_confirm_dead i;
  match stopped with
  | Err error =>
      do r ← (if is_stop_unconfirmed error then latch_err epoch error else terminal_err error);
      mgr_ret (durable r)
  | Ok _ =>
      do spawned ← spawn_replacement plan;
      match spawned with
      | Ok replacement => take_over replacement plan old_epoch (Hard DPatchFailed) warning
      | Err error =>
          if is_stop_unconfirmed error then
            do r ← latch_err epoch error; mgr_ret (durable r)
          else
            cleanup_epoch epoch ;;
            do r ← terminal_err error; mgr_ret (durable r)
      end
  end.

(** From the retired old epoch on. *)
Definition commit_graceful (i : Instance) (prepared : PreparedGraceful) (old_epoch : Epoch)
  : M E (result SwitchOutcome Error) :=
  let plan := pg_plan prepared in
  let epoch := ep_epoch plan in
  do committed ← commit_replace (pg_full_staged prepared) epoch;
  match committed with
  | Err error => commit_failed i epoch error
  | Ok commit =>
      do reconciled ←
        (match pg_restoration prepared with
         | Some (patch, projection) => patch_and_verify i patch projection
         | None => probe_healthy i
         end);
      if reconciled then take_over i plan old_epoch Graceful (cm_warning commit)
      else replace_bootstrap i plan old_epoch (cm_warning commit)
  end.

Definition graceful_switch (spec : InstanceSpec) (snapshot : ConfigSnapshot) (resolved : ResolvedFeatures)
  : M E (result SwitchOutcome Error) :=
  do ctrl ← get_ctrl;
  let old_epoch := (fun a => in_epoch (a_instance a)) <$> c_current ctrl in
  do epoch ← next_epoch;
  do prepared ← prepare_graceful spec epoch snapshot resolved;
  match prepared with
  | Err error => reject_retained epoch error
  | Ok prepared =>
      let launch := pg_plan prepared in
      let staged := pg_full_staged prepared in
      do activated ← dns_activate_for_plan launch;
      match activated with
      | Err error => dns_converge ;; drop_staged staged ;; reject_retained epoch error
      | Ok _ =>
          publish (CSwitching old_epoch epoch) (Some launch) ;;
          do spawned ← spawn_instance launch;
          match spawned with
          | Err error => drop_staged staged ;; reject_retained epoch error
          | Ok instance =>
              do ready ← wait_ready instance;
              match ready with
              | Err error =>
                  drop_staged staged ;;
                  reject_bootstrap instance epoch error "; failed to stop rejected graceful bootstrap: "
              | Ok _ =>
                  do deactivated ← dns_deactivate_for_plan launch;
                  match deactivated with
                  | Err error =>
                      drop_staged staged ;;
                      reject_bootstrap instance epoch error
                        "; failed to stop graceful bootstrap after DNS restore failure: "
                  | Ok _ =>
                      do retired ← retire_current;
                      match retired with
                      | Ok None => mgr_panic "running checked by caller"
                      | Err failure => drop_staged staged ;; old_stop_failed instance epoch failure
                      | Ok (Some old_plan) => commit_graceful instance prepared (ep_epoch old_plan)
                      end
                  end
              end
          end
      end
  end.

Definition switch_locked (spec : InstanceSpec) : M E (result SwitchOutcome Error) :=
  do running ← runtime_alive;
  if negb running then
    do? _ ← discard_stale;
    do? _ ← start_locked spec;
    mgr_ret (Ok (Hard DNotRunning))
  else
    do? snapshot ← load_snapshot spec;
    do? _ ← validate_launchable spec;
    do? resolved ← manager_resolve_features spec;
    do ctrl ← get_ctrl;
    let local_controller := bool_decide (LocalIpc ∈ rf_runtime resolved) in
    let http_listener :=
      match c_current ctrl with Some active => has_http (ep_effective_document (a_plan active)) | None => false end
      || (li_keep_http_controller (local_ipc_settings spec) && has_http (sn_document snapshot)) in
    if bool_decide (is_Some mh_native_store) then
      do? _ ← hard_switch spec snapshot resolved;
      mgr_ret (Ok (Hard DNativeStoreShared))
    else
      match graceful_degrade_reason (local_controller && negb http_listener)
              (cs_kind (is_core spec)) (overlap_block (sn_document snapshot)) with
      | Some reason =>
          do? _ ← hard_switch spec snapshot resolved;
          mgr_ret (Ok (Hard reason))
      | None => graceful_switch spec snapshot resolved
      end.

Definition switch (spec : InstanceSpec) : M E (result SwitchOutcome Error) :=
  do ctrl ← get_ctrl;
  match reject_quarantine ctrl with
  | Err e => mgr_ret (Err e)
  | Ok _ => do switched ← switch_locked spec; finish_dns_converge switched
  end.

Definition restart : M E (result SwitchOutcome Error) :=
  do ctrl ← get_ctrl;
  match reject_quarantine ctrl with
  | Err e => mgr_ret (Err e)
  | Ok _ =>
      match c_last_spec ctrl with
      | None => mgr_ret (Err NotStarted)
      | Some spec => do switched ← switch_locked spec; finish_dns_converge switched
      end
  end.

End Switch.
