(* ===== verification/ManagerApply.v ===== *)
(** * Apply and reconcile ([manager/apply.rs], [manager/reconcile.rs])

    Making the running epoch match a desired specification: nothing, a patch, a
    reload, a new process of the epoch, or another epoch, with the way back for
    each when the desired one does not come up. *)

From S2P Require Export ManagerSwitch.
Open Scope rust_scope.
Open Scope mgr_scope.

Definition with_durability_warning (outcome_ : ApplyOutcome) (warning : option string) : ApplyOutcome :=
  match warning with
  | Some warning => ApplyDurabilityUncertain outcome_ warning
  | None => outcome_
  end.
Definition with_durability_result (r : result ApplyOutcome Error) (warning : option string)
  : result ApplyOutcome Error :=
  match r, warning with
  | Ok outcome_, warning => Ok (with_durability_warning outcome_ warning)
  | Err error, Some warning => Err (DurabilityUncertain error warning)
  | Err error, None => Err error
  end.

Section Apply.
Context {E : Type} `{ManagerHost E}.

Record PreparedApply := { pa_plan : EpochPlan; pa_staged : StagedRuntimeConfig }.

Definition prepare_apply (current : Active) (input : InstanceSpec) (snapshot : ConfigSnapshot)
  : M E (result PreparedApply Error) :=
  do? _ ← validate_launchable input;
  do? resolved ← manager_resolve_features input;
  let revision := ep_revision (a_plan current) in
  let epoch := cr_epoch revision in
  do? prepared ← prepare_document input epoch snapshot resolved;
  do? staged ← stage_and_check input epoch (pc_bytes prepared);
  mgr_ret (Ok {| pa_plan := epoch_plan input epoch ((cr_generation revision + 1) mod u64_modulus) snapshot resolved prepared
                              (cr_runtime_path revision);
                 pa_staged := staged |}).

(** [reconcile_in_place] under [reconcile_timeout]. *)
Definition reconcile_in_place (current : Active) (change : ConfigChange) (desired : EpochPlan) : M E bool :=
  match change with
  | ChangePatch patch projection => patch_and_verify (a_instance current) patch projection
  | ChangeSwitch => mgr_ret false
  | ChangeNoop => mgr_ret true
  | ChangeReload =>
      match mh_build_client (in_controller (a_instance current)) with
      | Err _ => mgr_ret false
      | Ok _ =>
          let path := cr_runtime_path (ep_revision desired) in
          timed (emit (EvReloaded (a_instance current) path) ;;
                 host (mh_put_config (a_instance current) path)) (fun r =>
            match r with
            | Err _ => mgr_ret false
            | Ok _ => probe_healthy (a_instance current)
            end)
      end
  end.

(** Install a replacement and publish it as running. *)
Definition install_running (i : Instance) (plan : EpochPlan) : M E () :=
  do pid ← instance_pid i;
  do active ← install i plan;
  publish_active active (CRunning (ep_epoch plan) pid).

(** The way back: the old plan is launched again. *)
Definition rollback (old_plan : EpochPlan) (apply_text context : string)
    (on_success : M E ()) : M E (result ApplyOutcome Error) :=
  publish (CRestarting (ep_epoch old_plan) 0) (Some old_plan) ;;
  do spawned ← spawn_replacement old_plan;
  match spawned with
  | Ok instance =>
      install_running instance old_plan ;;
      on_success ;;
      mgr_ret (Ok (RolledBack (ep_revision old_plan) apply_text))
  | Err rollback_error =>
      if is_stop_unconfirmed rollback_error then
        latch_err (ep_epoch old_plan)
          (StopUnconfirmed (context +:+ " (" +:+ apply_text +:+ "); rollback replacement "
             +:+ Error_to_string rollback_error))
      else terminal_err (ApplyRollbackFailed apply_text (Error_to_string rollback_error))
  end.

Definition restart_with_compensation (desired : EpochPlan) (backup : RuntimeConfigBackup)
  : M E (result ApplyOutcome Error) :=
  do? _ ← dns_deactivate_for_plan desired;
  do retired ← retire_current;
  match retired with
  | Ok None => mgr_panic "current held by control lock"
  | Err failure =>
      let error := rtf_error failure in
      if is_stop_unconfirmed error then latch_err (rtf_epoch failure) error
      else terminal_err (ApplyFailed ("failed to stop current epoch for reconcile: " +:+ Error_to_string error))
  | Ok (Some old_plan) =>
      publish (CRestarting (ep_epoch desired) 0) (Some desired) ;;
      do spawned ← spawn_replacement desired;
      match spawned with
      | Ok instance =>
          install_running instance desired ;;
          host (mh_remove_backup backup) ;;
          mgr_ret (Ok (Restarted (ep_revision desired)))
      | Err apply_error =>
          if is_stop_unconfirmed apply_error then latch_err (ep_epoch desired) apply_error
          else
            let apply_text := Error_to_string apply_error in
            do restored ← restore_backup backup;
            match restored with
            | Err restore_error =>
                terminal_err (ApplyRollbackFailed apply_text
                  ("runtime restore failed: " +:+ Error_to_string restore_error))
            | Ok restore =>
                do r ← rollback old_plan apply_text "desired apply failed"
                         (host (mh_remove_backup backup) ;; mgr_ret tt);
                mgr_ret (with_durability_result r (cm_warning restore))
            end
      end
  end.

Definition switch_with_compensation (input : InstanceSpec) (snapshot : ConfigSnapshot)
  : M E (result ApplyOutcome Error) :=
  do epoch ← next_epoch;
  do? desired ← prepare_launch input epoch snapshot;
  do deactivated ← dns_deactivate_for_plan desired;
  match deactivated with
  | Err error => cleanup_epoch epoch ;; mgr_ret (Err error)
  | Ok _ =>
      do retired ← retire_current;
      match retired with
      | Ok None => mgr_panic "current held by control lock"
      | Err failure =>
          let error := rtf_error failure in
          cleanup_epoch epoch ;;
          if is_stop_unconfirmed error then latch_err (rtf_epoch failure) error
          else terminal_err (ApplyFailed ("failed to stop current epoch for switch: " +:+ Error_to_string error))
      | Ok (Some old_plan) =>
          publish (CSwitching (Some (ep_epoch old_plan)) (ep_epoch desired)) (Some desired) ;;
          do spawned ← spawn_replacement desired;
          match spawned with
          | Ok instance =>
              install_running instance desired ;;
              cleanup_epoch (ep_epoch old_plan) ;;
              mgr_ret (Ok (Switched (ep_revision desired)))
          | Err apply_error =>
              if is_stop_unconfirmed apply_error then latch_err (ep_epoch desired) apply_error
              else
                cleanup_epoch epoch ;;
                rollback old_plan (Error_to_string apply_error) "desired switch failed" (mgr_ret tt)
          end
      end
  end.

(** The in-place commit: from the prepared document to the outcome. *)
Definition commit_in_place (change : ConfigChange) (prepared : PreparedApply) (backup : RuntimeConfigBackup)
  : M E (result ApplyOutcome Error) :=
  let desired := pa_plan prepared in
  do ctrl ← get_ctrl;
  match c_current ctrl with
  | None => drop_staged (pa_staged prepared) ;; mgr_ret (Err NotStarted)
  | Some current =>
      do committed ← commit_replace (pa_staged prepared) (ep_epoch desired);
      match committed with
      | Err error =>
          dns_converge ;;
          host (mh_remove_backup backup) ;;
          mgr_ret (Err error)
      | Ok commit =>
          do reconciled ← reconcile_in_place current change desired;
          if reconciled then
            let revision := ep_revision desired in
            do outcome_ ←
              (match change with
               | ChangePatch _ _ => mgr_ret (Patched revision)
               | ChangeReload => mgr_ret (Reloaded revision)
               | ChangeNoop | ChangeSwitch => mgr_panic "internal error: entered unreachable code"
               end);
            let active := {| a_instance := a_instance current; a_plan := desired |} in
            modify_ctrl (set_current (Some active)) ;;
            do pid ← instance_pid (a_instance current);
            publish_active active (CRunning (cr_epoch revision) pid) ;;
            modify_ctrl (set_last_spec (Some (ep_source_spec desired))) ;;
            host (mh_remove_backup backup) ;;
            mgr_ret (Ok (with_durability_warning outcome_ (cm_warning commit)))
          else
            do r ← restart_with_compensation desired backup;
            mgr_ret (with_durability_result r (cm_warning commit))
      end
  end.

Definition apply_in_place (current : Active) (change : ConfigChange) (prepared : PreparedApply)
  : M E (result ApplyOutcome Error) :=
  let desired := pa_plan prepared in
  let reject backup error :=
    host (mh_remove_backup backup) ;; drop_staged (pa_staged prepared) ;; mgr_ret (Err error) in
  do backed ← host (mh_backup (ep_epoch (a_plan current)) (cr_generation (ep_revision desired)));
  match backed with
  | Err e => drop_staged (pa_staged prepared) ;; mgr_ret (Err e)
  | Ok backup =>
      do deactivated ← dns_deactivate_for_plan desired;
      match deactivated with
      | Err error => reject backup error
      | Ok _ =>
          do activated ← dns_activate_for_plan desired;
          match activated with
          | Err error => dns_converge ;; reject backup error
          | Ok _ => commit_in_place change prepared backup
          end
      end
  end.

Definition apply_locked (input : InstanceSpec) (expected_revision : option RevisionId)
  : M E (result ApplyOutcome Error) :=
  do ctrl ← get_ctrl;
  match c_current ctrl with
  | None => mgr_ret (Err NotStarted)
  | Some current =>
      do st ← instance_status (a_instance current);
      if is_terminal (ist_state st) then mgr_ret (Err NotStarted)
      else
        let actual := ConfigRevision_id (ep_revision (a_plan current)) in
        do? _ ← mgr_ret (match expected_revision with
                         | Some expected =>
                             if decide (expected <> actual)
                             then Err (RevisionConflict expected (Some actual))
                             else Ok tt
                         | None => Ok tt
                         end);
        do? snapshot ← load_snapshot input;
        do? prepared ← prepare_apply current input snapshot;
        match classify (classification_view (a_plan current)) (classification_view (pa_plan prepared)) with
        | Err e => drop_staged (pa_staged prepared) ;; mgr_ret (Err e)
        | Ok ChangeNoop =>
            let revision := ep_revision (a_plan current) in
            modify_ctrl (set_current (Some {| a_instance := a_instance current;
                                              a_plan := with_source_spec input (a_plan current) |})) ;;
            modify_ctrl (set_last_spec (Some input)) ;;
            drop_staged (pa_staged prepared) ;;
            mgr_ret (Ok (Noop revision))
        | Ok ChangeSwitch =>
            drop_staged (pa_staged prepared) ;;
            switch_with_compensation input snapshot
        | Ok change => apply_in_place current change prepared
        end
  end.

Definition apply_config (input : InstanceSpec) (expected_revision : option RevisionId)
  : M E (result ApplyOutcome Error) :=
  do ctrl ← get_ctrl;
  match reject_quarantine ctrl with
  | Err e => mgr_ret (Err e)
  | Ok _ => do applied ← apply_locked input expected_revision; finish_dns_converge applied
  end.

Definition reconcile_locked (spec : InstanceSpec) (expected_applied : option RevisionId)
  : M E (result ApplyOutcome Error) :=
  do running ← runtime_alive;
  if running then apply_locked spec expected_applied
  else
    match expected_applied with
    | Some expected => mgr_ret (Err (RevisionConflict expected None))
    | None =>
        do? _ ← discard_stale;
        do? _ ← start_locked spec;
        do ctrl ← get_ctrl;
        match c_current ctrl with
        | Some active => mgr_ret (Ok (Started (ep_revision (a_plan active))))
        | None => mgr_panic "start_locked installed the active runtime"
        end
    end.

Definition reconcile (spec : InstanceSpec) (expected_applied : option RevisionId)
  : M E (result ApplyOutcome Error) :=
  do ctrl ← get_ctrl;
  match reject_quarantine ctrl with
  | Err e => mgr_ret (Err e)
  | Ok _ => do reconciled ← reconcile_locked spec expected_applied; finish_dns_converge reconciled
  end.

End Apply.
