(* ===== verification/ManagerOps.v ===== *)
(** * The manager's surface

    Construction, the read operations, the transactions as one step relation
    over [Op], and a scripted host that the witnesses run it on. *)

From S2P Require Export ManagerApply.
Open Scope rust_scope.
Open Scope mgr_scope.

(** ** Construction ([CoreManager::build_configured]) *)

(** The options that are refused; the runtime directory, the store and the
    controller template are checked before the rest. *)
Definition validate_timeouts (options : ManagerOptions) : result () Error :=
  let refuse text := Err (InvalidManagerOptions text) in
  let zero d := bool_decide (d = 0) in
  if zero (mo_control_timeout options) then refuse "control_timeout must be greater than zero"
  else if zero (mo_reconcile_timeout options) then refuse "reconcile_timeout must be greater than zero"
  else if zero (mo_stop_timeout options) then refuse "stop_timeout must be greater than zero"
  else if zero (mo_dns_timeout options) then refuse "dns_timeout must be greater than zero"
  else if zero (mo_log_max_bytes options) then refuse "log_max_bytes must be greater than zero"
  else if zero (mo_log_max_files options) then refuse "log_max_files must be greater than zero"
  else Ok tt.

Section Surface.
Context {E : Type} `{ManagerHost E}.

(** The manager behind a construction that found [max_epoch] on disk. *)
Definition manager_new (max_epoch : N) (env : E) : Mgr E :=
  let '(now, env) := mh_now env in
  {| m_ctrl := Ctrl_new max_epoch; m_status := CoreStatus_initial now; m_commits := None;
     m_forwarder := None; m_log_sink := mo_log_sink_enabled mh_options; m_versions := [];
     m_launches := 0%nat; m_env := env; m_events := [] |}.

(** ** Reading *)

Definition running_id (snapshot : InstanceStatus) : option Uuid :=
  match ist_state snapshot with IRunning _ => ist_instance_id snapshot | _ => None end.

Definition api_connection : M E (option (Uuid * ResolvedController)) :=
  do ctrl ← get_ctrl;
  match c_current ctrl with
  | None => mgr_ret None
  | Some active =>
      do snapshot ← instance_status (a_instance active);
      mgr_ret ((fun id => (id, ep_controller (a_plan active))) <$> running_id snapshot)
  end.

Definition effective_config : M E (option EffectiveConfigSnapshot) :=
  do ctrl ← get_ctrl;
  match c_current ctrl with
  | None => mgr_ret None
  | Some active =>
      do snapshot ← instance_status (a_instance active);
      mgr_ret (effective_config_snapshot (a_plan active) <$> running_id snapshot)
  end.

(** ** Transactions *)

Inductive Op :=
| OpStart (spec : InstanceSpec)
| OpStop
| OpRestart
| OpSwitch (spec : InstanceSpec)
| OpApply (spec : InstanceSpec) (expected : option RevisionId)
| OpReconcile (spec : InstanceSpec) (expected : option RevisionId)
| OpRecover
| OpShutdown.

Inductive Answer := ADone | ASwitched (o : SwitchOutcome) | AApplied (o : ApplyOutcome).

Definition answer {A} (f : A -> Answer) (m : M E (result A Error)) : M E (result Answer Error) :=
  do r ← m; mgr_ret (map_ok f r).

(** Transactions hold the control lock, so they run one after the other. *)
Definition perform (op : Op) : M E (result Answer Error) :=
  match op with
  | OpStart spec => answer (fun _ => ADone) (start spec)
  | OpStop => answer (fun _ => ADone) stop
  | OpRestart => answer ASwitched restart
  | OpSwitch spec => answer ASwitched (switch spec)
  | OpApply spec expected => answer AApplied (apply_config spec expected)
  | OpReconcile spec expected => answer AApplied (reconcile spec expected)
  | OpRecover => answer (fun _ => ADone) recover_quarantine
  | OpShutdown => answer (fun _ => ADone) shutdown
  end.

(** The transactions that launch a runtime; a latch refuses them. *)
Definition launches (op : Op) : bool :=
  match op with
  | OpStart _ | OpRestart | OpSwitch _ | OpApply _ _ | OpReconcile _ _ => true
  | OpStop | OpRecover | OpShutdown => false
  end.

(** The states behind any number of transactions, with the forwarder running
    between them; a transaction that panicked is over too. *)
Inductive reachable : Mgr E -> Prop :=
| reachable_new max_epoch env : reachable (manager_new max_epoch env)
| reachable_perform s op : reachable s -> reachable (perform op s).2
| reachable_idle s : reachable s -> reachable (pump s).

(** A run of transactions. *)
Definition run_ops (ops : list Op) (s : Mgr E) : Mgr E :=
  fold_left (fun s op => (perform op s).2) ops s.

Lemma reachable_run ops s : reachable s -> reachable (run_ops ops s).
Proof.
  revert s. induction ops as [|op ops IH]; intros s Hs; [done|]. by apply IH, reachable_perform.
Qed.

End Surface.

(** ** A scripted host

    Stops answer from a script, then succeed; everything else succeeds at
    once.  The document asks for a DNS override when it has a [tun] key. *)
Module Scripted.

Record Script := { sc_clock : Z; sc_stops : list (result () Error); sc_ready : list (result () Error) }.

Definition tick (e : Script) : Script :=
  {| sc_clock := sc_clock e + 1; sc_stops := sc_stops e; sc_ready := sc_ready e |}.
Definition next_stop (e : Script) : result () Error * Script :=
  match sc_stops e with
  | [] => (Ok tt, e)
  | r :: rest => (r, {| sc_clock := sc_clock e; sc_stops := rest; sc_ready := sc_ready e |})
  end.
Definition next_ready (e : Script) : result () Error * Script :=
  match sc_ready e with
  | [] => (Ok tt, e)
  | r :: rest => (r, {| sc_clock := sc_clock e; sc_stops := sc_stops e; sc_ready := rest |})
  end.

Definition scripted_semver : Semver :=
  {| Version_parse := fun _ => None; VersionReq_matches := fun _ _ => false |}.

Definition answers {A} (a : A) : Script -> A * Script := fun e => (a, e).
Definition id_0 : Uuid := 7.
Definition running : InstanceStatus :=
  {| ist_instance_id := Some id_0; ist_state := IRunning 4242; ist_health := None |}.

Definition scripted_options : ManagerOptions :=
  {| mo_runtime_dir := Some "/run/core"; mo_local_ipc_policy := Disable; mo_controller_template := None; mo_controller_dir := None;
     mo_control_timeout := duration_from_secs 10; mo_reconcile_timeout := duration_from_secs 30;
     mo_stop_timeout := duration_from_secs 10; mo_dns_timeout := duration_from_secs 10; mo_log_sink_enabled := true;
     mo_log_max_bytes := 4 * 1024 * 1024; mo_log_max_files := 5 |}.

Definition scripted_host (launch : result () Error) : ManagerHost Script :=
  {| mh_clash := document_api; mh_config := plain_host; mh_semver := scripted_semver;
     mh_options := scripted_options; mh_dir := "/run/core";
     mh_access_supports_local_ipc := None; mh_native_store := None; mh_dns := true;
     mh_now := fun e => (sc_clock e, tick e);
     mh_read := fun _ => answers (Ok []);
     mh_exists := fun _ => answers true;
     mh_version_host := fun _ => answers {| vh_modified := Ok 1%Z; vh_probe := Ok "v1";
                                            vh_modified_after := Ok 1%Z |};
     mh_stage := fun epoch _ => answers (Ok {| sg_path := "/run/core/.staged-" +:+ Epoch_fmt epoch;
                                               sg_epoch := epoch |});
     mh_drop_staged := fun _ => answers tt;
     mh_commit_new := fun _ epoch => answers (Ok ("/run/core/config-" +:+ Epoch_fmt epoch +:+ ".yaml"));
     mh_commit_replace := fun _ epoch =>
       answers (Ok {| cm_path := "/run/core/config-" +:+ Epoch_fmt epoch +:+ ".yaml"; cm_warning := None |});
     mh_backup := fun epoch _ => answers (Ok {| bk_path := "/run/core/backup"; bk_epoch := epoch |});
     mh_restore := fun b => answers (Ok {| cm_path := bk_path b; cm_warning := None |});
     mh_remove_backup := fun _ => answers (Ok tt);
     mh_cleanup_controller := fun _ => answers (Ok tt);
     mh_cleanup_epoch := fun _ => answers (Ok tt);
     mh_check_config := fun _ => answers (Ok tt);
     mh_launch := fun _ => answers launch;
     mh_state := fun _ _ => running;
     mh_pid := fun _ _ => Some 4242;
     mh_wait_ready := fun _ => next_ready;
     mh_probe_now := fun _ => answers ProbeHealthy;
     mh_stop := fun _ _ => next_stop;
     mh_reap := fun _ => answers (Ok ReapKilled);
     mh_forwarded := fun _ => answers [];
     mh_dns_desired := fun _ => Some {| di_servers := ["198.18.0.2"] |};
     mh_dns_apply := fun intent epoch =>
       answers (Done (Ok {| dr_interface := "eth0"; dr_previous := ["1.1.1.1"]; dr_applied := di_servers intent;
                            dr_runtime_epoch := Epoch_get epoch; dr_owner_generation := None;
                            dr_state := DnsApplied |}));
     mh_dns_restore := fun _ => answers (Done (Ok tt));
     mh_record_stage := fun _ => answers (Ok tt);
     mh_record_exists := answers (Ok true);
     mh_record_replace := answers (Ok tt);
     mh_record_move_new := answers (Ok tt);
     mh_record_drop_staging := answers tt;
     mh_record_remove := answers (Ok tt);
     mh_sync_dir := answers (Ok tt);
     mh_build_client := fun _ => Ok tt;
     mh_patch_config := fun _ _ => answers (Ok tt);
     mh_put_config := fun _ _ => answers (Ok tt);
     mh_configs := fun _ => answers (Err "unavailable");
     mh_deadline := fun _ => false;
     mh_log_sink_shutdown := answers tt |}.
#[export] Instance scripted : ManagerHost Script := scripted_host (Ok tt).

Definition quick : Script := {| sc_clock := 0; sc_stops := []; sc_ready := [] |}.
Definition fresh (e : Script) : Mgr Script := manager_new 0 e.

(** One runtime is started; then its stop cannot be confirmed. *)
Definition after_start : Mgr Script := run_ops [OpStart sample_spec] (fresh quick).
Definition stubborn : Script :=
  {| sc_clock := 0; sc_stops := [Err (StopUnconfirmed "still there")]; sc_ready := [] |}.
Definition after_lost_stop : Mgr Script := run_ops [OpStart sample_spec; OpStop] (fresh stubborn).

Example start_answers : (perform (OpStart sample_spec) (fresh quick)).1 = Return (Ok ADone).
Proof. vm_compute. reflexivity. Qed.
Example lost_stop_latches : map q_epoch (c_quarantine (m_ctrl after_lost_stop)) = [1%positive].
Proof. vm_compute. reflexivity. Qed.

End Scripted.
