(* ===== verification/ManagerLogic.v ===== *)
(** * Reasoning about the manager's transactions

    What a trace may look like ([trace_ok]), which processes may be alive
    behind it of those whose launch gave an instance ([live]), the weakest precondition of a transaction step, and the
    steps that are quiet: they change neither the slot, the latch nor the set of
    processes. *)

From S2P Require Export ManagerApply.
Open Scope rust_scope.
Open Scope mgr_scope.

#[export] Instance RuntimeLaunchRequest_eq_dec : EqDecision RuntimeLaunchRequest.
Proof. solve_decision. Defined.
#[export] Instance Instance_eq_dec : EqDecision Instance.
Proof. solve_decision. Defined.

(** ** Traces, newest event first *)

(** A stop whose result leaves the process possibly alive. *)
Definition unproven (r : result () Error) : bool :=
  match r with Ok _ => false | Err e => is_stop_unconfirmed e end.

Definition drop_instance (i : Instance) (l : list Instance) : list Instance :=
  List.filter (fun j => negb (bool_decide (j = i))) l.
Definition drop_epoch (e : Epoch) (l : list Instance) : list Instance :=
  List.filter (fun j => negb (bool_decide (in_epoch j = e))) l.

(** The processes whose launch was answered with an instance and that are not
    proven dead.  A launch that fails adds none, whatever its error says: the
    manager takes it to have left nothing running. *)
Fixpoint live (events : list Event) : list Instance :=
  match events with
  | [] => []
  | EvLaunched i :: older => i :: live older
  | EvStopped i r :: older => if unproven r then live older else drop_instance i (live older)
  | EvReaped e (Ok ReapAlreadyExited) :: older
  | EvReaped e (Ok ReapKilled) :: older => drop_epoch e (live older)
  | _ :: older => live older
  end.

(** The epochs for which a new artifact was committed. *)
Definition new_commits (events : list Event) : list Epoch :=
  omap (fun ev => match ev with EvCommitted _ e true _ => Some e | _ => None end) events.

(** The ownership record that is visible. *)
Fixpoint last_record (events : list Event) : option DnsOverrideRecord :=
  match events with
  | [] => None
  | EvRecord r :: _ => r
  | _ :: older => last_record older
  end.

(** The override that may be on the host: the last one that was asked for, as
    long as no restore was confirmed. *)
Fixpoint overridden (events : list Event) : option (DnsIntent * Epoch) :=
  match events with
  | [] => None
  | EvDnsApply intent epoch :: _ => Some (intent, epoch)
  | EvDnsRestored _ true :: _ => None
  | _ :: older => overridden older
  end.

(** What has to hold when an event happens. *)
Definition event_ok (ev : Event) (older : list Event) : Prop :=
  match ev with
  | EvCommitted path epoch new _ =>
      EvChecked path true ∈ older
      /\ (new = true -> Forall (fun e => (e < epoch)%positive) (new_commits older))
  | EvDnsApply intent epoch =>
      exists r, last_record older = Some r /\ dr_applied r = di_servers intent
                /\ dr_runtime_epoch r = Epoch_get epoch
  | EvRecord None => overridden older = None
  | EvLaunched i => (length (live older) <= 1)%nat
  | _ => True
  end.

Fixpoint trace_ok (events : list Event) : Prop :=
  match events with
  | [] => True
  | ev :: older => event_ok ev older /\ trace_ok older
  end.

Section Logic.
Context {E : Type} `{ManagerHost E}.

(** ** Weakest preconditions

    A step may panic only because the epoch numbers are used up. *)

Definition exhausted (message : string) (s : Mgr E) : Prop :=
  message = "epoch space exhausted" /\ u64_modulus <= c_last (m_ctrl s) + 1.

Definition wp {A} (m : M E A) (Q : A -> Mgr E -> Prop) (K : Mgr E -> Prop) (s : Mgr E) : Prop :=
  match m s with
  | (Return a, s') => Q a s'
  | (Panicked message, s') => exhausted message s' /\ K s'
  end.

Lemma wp_ret {A} (a : A) Q K s : Q a s -> wp (mgr_ret a) Q K s.
Proof. done. Qed.

Lemma wp_bind {A B} (m : M E A) (k : A -> M E B) Q K s :
  wp m (fun a s' => wp (k a) Q K s') K s -> wp (mgr_bind m k) Q K s.
Proof. unfold wp, mgr_bind. destruct (m s) as [[a|msg] s']; [|done]. done. Qed.

Lemma wp_try {A B} (m : M E (result A Error)) (k : A -> M E (result B Error)) Q K s :
  wp m (fun r s' => match r with Ok a => wp (k a) Q K s' | Err e => Q (Err e) s' end) K s ->
  wp (mgr_try m k) Q K s.
Proof.
  intros Hm. apply wp_bind. unfold wp in *. destruct (m s) as [[[a|e]|msg] s']; done.
Qed.

Lemma wp_mono {A} (m : M E A) (Q Q' : A -> Mgr E -> Prop) (K K' : Mgr E -> Prop) s :
  wp m Q K s -> (forall a s', Q a s' -> Q' a s') -> (forall s', K s' -> K' s') -> wp m Q' K' s.
Proof. unfold wp. destruct (m s) as [[a|msg] s']; [eauto|]. intros [? ?]; eauto. Qed.

Lemma wp_modify_ctrl (f : Ctrl -> Ctrl) Q K s : Q tt (on_ctrl f s) -> wp (modify_ctrl f) Q K s.
Proof. done. Qed.

Lemma wp_get_ctrl Q K s : Q (m_ctrl s) s -> wp get_ctrl Q K s.
Proof. done. Qed.

Lemma wp_emit ev Q K s : Q tt (add_event ev s) -> wp (emit ev) Q K s.
Proof. done. Qed.

(** ** Quiet steps *)

(** The visible record is the manager's, and the trace is in order. *)
Definition trace_wf (s : Mgr E) : Prop :=
  trace_ok (m_events s) /\ last_record (m_events s) = c_dns_record (m_ctrl s).

Record quiet (s s' : Mgr E) : Prop := {
  quiet_last : c_last (m_ctrl s') = c_last (m_ctrl s);
  quiet_current : c_current (m_ctrl s') = c_current (m_ctrl s);
  quiet_last_spec : c_last_spec (m_ctrl s') = c_last_spec (m_ctrl s);
  quiet_quarantine : c_quarantine (m_ctrl s') = c_quarantine (m_ctrl s);
  quiet_launches : m_launches s' = m_launches s;
  quiet_live : live (m_events s') = live (m_events s);
  quiet_commits : new_commits (m_events s') = new_commits (m_events s);
  quiet_extends : exists evs, m_events s' = evs ++ m_events s;
  quiet_trace : trace_wf s -> trace_wf s';
}.

Lemma quiet_refl s : quiet s s.
Proof. split; try done. by exists []. Qed.

Lemma quiet_trans s1 s2 s3 : quiet s1 s2 -> quiet s2 s3 -> quiet s1 s3.
Proof.
  intros [] []. split; try congruence; [|tauto].
  destruct quiet_extends0 as [e1 He1], quiet_extends1 as [e2 He2].
  exists (e2 ++ e1). by rewrite He2, He1, app_assoc.
Qed.

(** A state with the same controller, launches and events. *)
Lemma quiet_same s s' :
  m_ctrl s' = m_ctrl s -> m_launches s' = m_launches s -> m_events s' = m_events s -> quiet s s'.
Proof.
  intros Hc Hl He. split; rewrite ?Hc, ?He; try done; [by exists []|].
  unfold trace_wf. by rewrite Hc, He.
Qed.

(** Events that no rule looks at. *)
Definition harmless (ev : Event) : bool :=
  match ev with
  | EvChecked _ _ | EvRestored _ _ | EvLaunchFailed _ _ | EvReady _ _ | EvCleaned _
  | EvDnsRestored _ _ | EvPatched _ | EvReloaded _ _ => true
  | _ => false
  end.

Lemma quiet_harmless ev s : harmless ev = true -> quiet s (add_event ev s).
Proof.
  intros Hev. split; try (by destruct ev); [by exists [ev]|].
  intros [Ht Hr]. split; [|by destruct ev]. cbn. split; [by destruct ev|done].
Qed.

(** A quiet computation never panics and takes quiet steps only. *)
Definition neutral {A} (m : M E A) : Prop :=
  forall s, exists a s', m s = (Return a, s') /\ quiet s s'.

Lemma wp_neutral {A} (m : M E A) Q K s :
  neutral m -> (forall a s', quiet s s' -> Q a s') -> wp m Q K s.
Proof. intros Hm HQ. unfold wp. destruct (Hm s) as (a & s' & -> & Hq). by apply HQ. Qed.

Lemma neutral_ret {A} (a : A) : neutral (mgr_ret a).
Proof. intros s. exists a, s. split; [done|apply quiet_refl]. Qed.

Lemma neutral_bind {A B} (m : M E A) (k : A -> M E B) :
  neutral m -> (forall a, neutral (k a)) -> neutral (mgr_bind m k).
Proof.
  intros Hm Hk s. unfold mgr_bind. destruct (Hm s) as (a & s1 & -> & H1).
  destruct (Hk a s1) as (b & s2 & -> & H2). exists b, s2. split; [done|].
  by eapply quiet_trans.
Qed.

Lemma neutral_try {A B} (m : M E (result A Error)) (k : A -> M E (result B Error)) :
  neutral m -> (forall a, neutral (k a)) -> neutral (mgr_try m k).
Proof. intros Hm Hk. apply neutral_bind; [done|]. intros [a|e]; [apply Hk|apply neutral_ret]. Qed.

Lemma neutral_get {A} (f : Mgr E -> A) : neutral (mgr_get f).
Proof. intros s. exists (f s), s. split; [done|apply quiet_refl]. Qed.

Lemma neutral_modify_same (f : Mgr E -> Mgr E) :
  (forall s, m_ctrl (f s) = m_ctrl s) -> (forall s, m_launches (f s) = m_launches s) ->
  (forall s, m_events (f s) = m_events s) -> neutral (mgr_modify f).
Proof. intros Hc Hl He s. exists tt, (f s). split; [done|by apply quiet_same]. Qed.

Lemma neutral_emit ev : harmless ev = true -> neutral (emit ev).
Proof. intros Hev s. exists tt, (add_event ev s). split; [done|by apply quiet_harmless]. Qed.

Lemma publish_epoch_status_same e st s :
  let s' := publish_epoch_status e st s in
  m_ctrl s' = m_ctrl s /\ m_launches s' = m_launches s /\ m_events s' = m_events s.
Proof. unfold publish_epoch_status. by destruct (mh_now (m_env s)). Qed.

Lemma forward_same i sts s :
  let s' := forward i sts s in
  m_ctrl s' = m_ctrl s /\ m_launches s' = m_launches s /\ m_events s' = m_events s.
Proof.
  revert s; induction sts as [|st sts IH]; intros s; cbn [forward]; [done|].
  destruct (publish_epoch_status_same (in_epoch i) st s) as (H1 & H2 & H3).
  destruct (is_terminal (ist_state st)); [done|].
  destruct (IH (publish_epoch_status (in_epoch i) st s)) as (I1 & I2 & I3).
  rewrite I1, I2, I3. done.
Qed.

Lemma pump_same s :
  m_ctrl (pump s) = m_ctrl s /\ m_launches (pump s) = m_launches s /\ m_events (pump s) = m_events s.
Proof.
  unfold pump. destruct (m_forwarder s) as [i|]; [|done].
  destruct (mh_forwarded i (m_env s)) as [sts e].
  destruct (forward_same i sts (set_env e s)) as (H1 & H2 & H3). by rewrite H1, H2, H3.
Qed.

Lemma neutral_host {A} (op : E -> A * E) : neutral (host op).
Proof.
  intros s. unfold host. destruct (op (m_env s)) as [a e]. exists a, (pump (set_env e s)).
  split; [done|]. destruct (pump_same (set_env e s)) as (H1 & H2 & H3). by apply quiet_same.
Qed.

Lemma neutral_now : neutral now_ms.
Proof.
  intros s. unfold now_ms. destruct (mh_now (m_env s)) as [t e].
  eexists _, _. split; [done|]. by apply quiet_same.
Qed.

(** ** What a computation may emit *)

(** Every event of the computation satisfies [P], and the trace only grows. *)
Definition emits (P : Event -> bool) {A} (m : M E A) : Prop :=
  forall s, exists evs, m_events (m s).2 = evs ++ m_events s /\ forallb P evs = true.

Lemma emits_ret P {A} (a : A) : emits P (mgr_ret a).
Proof. intros s. by exists []. Qed.

Lemma emits_panic P {A} msg : emits P (mgr_panic (A := A) msg).
Proof. intros s. by exists []. Qed.

Lemma emits_bind P {A B} (m : M E A) (k : A -> M E B) :
  emits P m -> (forall a, emits P (k a)) -> emits P (mgr_bind m k).
Proof.
  intros Hm Hk s. unfold mgr_bind. destruct (Hm s) as (e1 & He1 & H1).
  destruct (m s) as [[a|msg] s1]; cbn in *; [|by exists e1].
  destruct (Hk a s1) as (e2 & He2 & H2). exists (e2 ++ e1).
  rewrite He2, He1, app_assoc, forallb_app, H1, H2. done.
Qed.

Lemma emits_try P {A B} (m : M E (result A Error)) (k : A -> M E (result B Error)) :
  emits P m -> (forall a, emits P (k a)) -> emits P (mgr_try m k).
Proof. intros Hm Hk. apply emits_bind; [done|]. intros [a|e]; [apply Hk|apply emits_ret]. Qed.

Lemma emits_get P {A} (f : Mgr E -> A) : emits P (mgr_get f).
Proof. intros s. by exists []. Qed.

Lemma emits_modify P (f : Mgr E -> Mgr E) : (forall s, m_events (f s) = m_events s) -> emits P (mgr_modify f).
Proof. intros Hf s. exists []. by cbn; rewrite Hf. Qed.

Lemma emits_emit P ev : P ev = true -> emits P (emit ev).
Proof. intros Hev s. exists [ev]. cbn. by rewrite Hev. Qed.

Lemma emits_host P {A} (op : E -> A * E) : emits P (host op).
Proof.
  intros s. exists []. split; [|done]. unfold host. destruct (op (m_env s)) as [a e]. cbn.
  apply (pump_same (set_env e s)).
Qed.

Lemma emits_now P : emits P now_ms.
Proof. intros s. exists []. split; [|done]. unfold now_ms. by destruct (mh_now (m_env s)). Qed.

(** ** The tactic for quiet computations *)

Create HintDb neutral.
#[local] Hint Resolve neutral_ret neutral_get neutral_host neutral_now : neutral.

End Logic.
#[export] Hint Resolve neutral_ret neutral_get neutral_host neutral_now : neutral.

Ltac neutral_step :=
  first
    [ solve [eauto with neutral nocore]
    | apply neutral_bind; [|intros ?]
    | apply neutral_try; [|intros ?]
    | apply neutral_emit; reflexivity
    | apply neutral_modify_same; reflexivity
    | match goal with
      | |- neutral (match ?x with _ => _ end) => destruct x
      | |- neutral (if ?x then _ else _) => destruct x
      | |- neutral (let _ := _ in _) => cbv zeta
      end ].
Ltac neutral := repeat neutral_step.

Ltac emits_step :=
  first
    [ apply emits_ret | apply emits_panic | apply emits_get | apply emits_host | apply emits_now
    | apply emits_emit; reflexivity
    | apply emits_modify; reflexivity
    | apply emits_bind; [|intros ?]
    | apply emits_try; [|intros ?]
    | match goal with
      | |- emits _ (match ?x with _ => _ end) => destruct x
      | |- emits _ (let _ := _ in _) => cbv zeta
      end ].
Ltac emits := repeat emits_step.

Section Quiet.
Context {E : Type} `{ManagerHost E}.

Lemma neutral_publish state plan : neutral (E := E) (publish state plan).
Proof. unfold publish. neutral. Qed.
#[local] Hint Resolve neutral_publish : neutral.

Lemma neutral_publish_instance i state plan : neutral (E := E) (publish_instance i state plan).
Proof. unfold publish_instance. neutral. Qed.
#[local] Hint Resolve neutral_publish_instance : neutral.

Lemma neutral_publish_terminal error : neutral (E := E) (publish_terminal_error error).
Proof. unfold publish_terminal_error. neutral. Qed.
#[local] Hint Resolve neutral_publish_terminal : neutral.

Lemma neutral_republish : neutral (E := E) republish_retained.
Proof. unfold republish_retained, get_ctrl, publish_active. neutral. Qed.
#[local] Hint Resolve neutral_republish : neutral.

Lemma neutral_get_ctrl : neutral (E := E) get_ctrl.
Proof. unfold get_ctrl. neutral. Qed.
#[local] Hint Resolve neutral_get_ctrl : neutral.

Lemma neutral_check_config spec : neutral (E := E) (check_config spec).
Proof. unfold check_config. neutral. Qed.
#[local] Hint Resolve neutral_check_config : neutral.

Lemma neutral_restore_backup b : neutral (E := E) (restore_backup b).
Proof. unfold restore_backup. neutral. Qed.
#[local] Hint Resolve neutral_restore_backup : neutral.

Lemma neutral_wait_ready i : neutral (E := E) (wait_ready i).
Proof. unfold wait_ready. neutral. Qed.
#[local] Hint Resolve neutral_wait_ready : neutral.

Lemma neutral_instance_pid i : neutral (E := E) (instance_pid i).
Proof. unfold instance_pid. neutral. Qed.
#[local] Hint Resolve neutral_instance_pid : neutral.

Lemma neutral_instance_status i : neutral (E := E) (instance_status i).
Proof. unfold instance_status. neutral. Qed.
#[local] Hint Resolve neutral_instance_status : neutral.

Lemma neutral_abort_forwarder : neutral (E := E) abort_forwarder.
Proof. unfold abort_forwarder. neutral. Qed.
#[local] Hint Resolve neutral_abort_forwarder : neutral.

Lemma neutral_cleanup_epoch e : neutral (E := E) (cleanup_epoch e).
Proof. unfold cleanup_epoch. neutral. Qed.
#[local] Hint Resolve neutral_cleanup_epoch : neutral.

Lemma neutral_terminal_err {A} error : neutral (E := E) (terminal_err (A := A) error).
Proof. unfold terminal_err. neutral. Qed.
#[local] Hint Resolve neutral_terminal_err : neutral.

(** ** The DNS steps are quiet *)

Lemma quiet_advance record (s : Mgr E) :
  (record = None -> overridden (m_events s) = None) ->
  quiet s (add_event (EvRecord record) (on_ctrl (set_dns_record record) s)).
Proof.
  intros Hrec. split; try done; [by exists [EvRecord record]|]. intros [Ht Hr]. split; [|done].
  split; [|done]. destruct record; [done|by apply Hrec].
Qed.

Lemma neutral_advance r : neutral (E := E) (advance_dns_record (Some r)).
Proof. intros s. eexists _, _. split; [done|by apply quiet_advance]. Qed.
#[local] Hint Resolve neutral_advance : neutral.

Lemma neutral_write_record r : neutral (E := E) (write_dns_record r).
Proof. unfold write_dns_record. neutral. Qed.
#[local] Hint Resolve neutral_write_record : neutral.

Lemma neutral_persist r : neutral (E := E) (persist_dns_record (Some r)).
Proof. unfold persist_dns_record. neutral. Qed.
#[local] Hint Resolve neutral_persist : neutral.

(** A host operation leaves the trace alone. *)
Lemma host_step {A} (op : E -> A * E) (s : Mgr E) :
  exists a s', host op s = (Return a, s') /\ quiet s s' /\ m_events s' = m_events s.
Proof.
  unfold host. destruct (op (m_env s)) as [a e]. destruct (pump_same (set_env e s)) as (H1 & H2 & H3).
  exists a, (pump (set_env e s)). split; [done|]. split; [by apply quiet_same|done].
Qed.

(** Behind a confirmed restore the record may go. *)
Lemma persist_none_step (s : Mgr E) :
  overridden (m_events s) = None ->
  exists r s', persist_dns_record None s = (Return r, s') /\ quiet s s'
               /\ overridden (m_events s') = None.
Proof.
  intros Ho. unfold persist_dns_record, mgr_bind.
  destruct (host_step mh_record_remove s) as (r & s1 & -> & Hq1 & He1). rewrite <- He1 in Ho.
  destruct r as [[]|e].
  - destruct (host_step mh_sync_dir s1) as (r & s2 & -> & Hq2 & He2). rewrite <- He2 in Ho.
    eexists _, _. split; [done|]. split; [|done].
    eapply quiet_trans; [exact Hq1|]. eapply quiet_trans; [exact Hq2|]. by apply quiet_advance.
  - destruct (ioe_not_found e); eexists _, _; (split; [done|]); (split; [|done]); [|done].
    eapply quiet_trans; [exact Hq1|]. by apply quiet_advance.
Qed.

Lemma neutral_apply_failed {A} text : neutral (E := E) (apply_failed (A := A) text).
Proof. unfold apply_failed. neutral. Qed.
#[local] Hint Resolve neutral_apply_failed : neutral.

Lemma neutral_forget record :
  neutral (E := E) (emit (EvDnsRestored record true) ;; persist_dns_record None ;; mgr_ret (A := result () Error) (Ok tt)).
Proof.
  intros s. set (s1 := add_event (EvDnsRestored record true) s).
  destruct (persist_none_step s1) as (r & s2 & Hp & Hq & _); [done|].
  eexists _, s2. unfold mgr_bind. cbn [emit mgr_modify]. fold s1. rewrite Hp. split; [done|].
  eapply quiet_trans; [|exact Hq]. by apply quiet_harmless.
Qed.

Lemma neutral_dns_restore : neutral (E := E) dns_restore.
Proof. unfold dns_restore. pose proof neutral_forget. neutral. Qed.
#[local] Hint Resolve neutral_dns_restore : neutral.

Lemma neutral_dns_deactivate plan : neutral (E := E) (dns_deactivate_for_plan plan).
Proof. unfold dns_deactivate_for_plan. neutral. Qed.
#[local] Hint Resolve neutral_dns_deactivate : neutral.

Lemma neutral_runtime_alive : neutral (E := E) runtime_alive.
Proof. unfold runtime_alive. neutral. Qed.
#[local] Hint Resolve neutral_runtime_alive : neutral.

(** A record that was persisted is the visible one. *)
Lemma persist_visible (r : DnsOverrideRecord) (s s' : Mgr E) :
  persist_dns_record (Some r) s = (Return (Ok tt), s') -> c_dns_record (m_ctrl s') = Some r.
Proof.
  unfold persist_dns_record, mgr_bind. intros Hp.
  destruct (neutral_write_record r s) as (w & s1 & Hw & _). rewrite Hw in Hp.
  destruct w as [[]|e].
  - destruct (neutral_host mh_sync_dir s1) as (x & s2 & Hx & _). rewrite Hx in Hp.
    cbn in Hp. by injection Hp as <-.
  - destruct (neutral_host mh_record_drop_staging s1) as (x & s2 & Hx & _). rewrite Hx in Hp.
    by cbn in Hp.
Qed.

(** Persisting a record and then applying its override is quiet: this is the
    one place an override is applied. *)
Lemma neutral_persist_then_apply {B} baseline intent epoch (k : Timed DnsOverrideRecord -> M E B)
    (fail : IoError -> M E B) :
  (forall a, neutral (k a)) -> (forall e, neutral (fail e)) ->
  neutral (do pre ← persist_dns_record (Some (dns_pre_record baseline intent epoch));
           match pre with
           | Err e => fail e
           | Ok _ => do applied ← dns_apply intent epoch; k applied
           end).
Proof.
  intros Hk Hfail s. unfold mgr_bind at 1.
  destruct (neutral_persist (dns_pre_record baseline intent epoch) s) as (r & s1 & Hp & Hq).
  rewrite Hp. destruct r as [[]|e].
  2:{ destruct (Hfail e s1) as (b & s2 & -> & Hq2). exists b, s2.
      split; [done|]. by eapply quiet_trans. }
  pose proof (persist_visible _ _ _ Hp) as Hvis.
  assert (quiet s (add_event (EvDnsApply intent epoch) s1)) as Hq1.
  { destruct Hq. split; try done.
    - destruct quiet_extends0 as [evs Hevs]. exists (EvDnsApply intent epoch :: evs).
      cbn. by rewrite Hevs.
    - intros Hwf. destruct (quiet_trace0 Hwf) as [Ht Hr]. split; [|done].
      split; [|done]. cbn [event_ok]. exists (dns_pre_record baseline intent epoch).
      cbn. rewrite Hr, Hvis. done. }
  assert (neutral (do applied ← host (mh_dns_apply intent epoch); k applied)) as Hrest.
  { apply neutral_bind; [apply neutral_host|done]. }
  destruct (Hrest (add_event (EvDnsApply intent epoch) s1)) as (b & s2 & Hb & Hq2).
  exists b, s2. split; [|by eapply quiet_trans].
  unfold dns_apply, mgr_bind in *. cbn. exact Hb.
Qed.

Lemma neutral_dns_activate plan : neutral (E := E) (dns_activate_for_plan plan).
Proof.
  unfold dns_activate_for_plan. destruct (negb mh_dns); [neutral|].
  destruct (mh_dns_desired _) as [intent|]; [|neutral].
  apply neutral_bind; [neutral|]. intros ctrl. cbv zeta.
  apply neutral_persist_then_apply; intros; neutral.
Qed.
#[local] Hint Resolve neutral_dns_activate : neutral.

Lemma neutral_dns_converge : neutral (E := E) dns_converge.
Proof.
  unfold dns_converge. destruct (negb mh_dns); [neutral|].
  apply neutral_bind; [unfold dns_desired_now; neutral|]. intros [[intent epoch]|]; [|neutral].
  apply neutral_bind; [neutral|]. intros ctrl. cbv zeta.
  apply neutral_persist_then_apply; intros; neutral.
Qed.
#[local] Hint Resolve neutral_dns_converge : neutral.

Lemma neutral_finish_dns_converge {T} (r : result T Error) : neutral (E := E) (finish_dns_converge r).
Proof. unfold finish_dns_converge. neutral. Qed.
#[local] Hint Resolve neutral_finish_dns_converge : neutral.

(** ** Preparation is quiet up to its commit *)

Lemma neutral_load_snapshot spec : neutral (E := E) (load_snapshot spec).
Proof. unfold load_snapshot. neutral. Qed.
#[local] Hint Resolve neutral_load_snapshot : neutral.

Lemma neutral_resolve spec : neutral (E := E) (manager_resolve_features spec).
Proof.
  unfold manager_resolve_features. cbv zeta. destruct (_ && _); [neutral|].
  apply neutral_bind; [neutral|]. intros answers s.
  destruct (resolve_features _ _ _ _) as [r cache]. eexists _, _. split; [done|]. by apply quiet_same.
Qed.
#[local] Hint Resolve neutral_resolve : neutral.

Lemma neutral_validate spec : neutral (E := E) (validate_launchable spec).
Proof. unfold validate_launchable. neutral. Qed.
#[local] Hint Resolve neutral_validate : neutral.

Lemma neutral_lift_prepare self t dir e rt st z :
  neutral (E := E) (lift_outcome (prepare self t dir e rt st z)).
Proof.
  intros s. destruct (prepare_returns self t dir e rt st z) as [r ->].
  exists r, s. split; [done|apply quiet_refl].
Qed.
#[local] Hint Resolve neutral_lift_prepare : neutral.

Lemma neutral_prepare_document spec e sn rf : neutral (E := E) (prepare_document spec e sn rf).
Proof.
  unfold prepare_document, prepare_full. neutral.
Qed.
#[local] Hint Resolve neutral_prepare_document : neutral.

Lemma neutral_stage_and_check spec e bytes : neutral (E := E) (stage_and_check spec e bytes).
Proof. unfold stage_and_check. neutral. Qed.
#[local] Hint Resolve neutral_stage_and_check : neutral.

Lemma neutral_drop_staged st : neutral (E := E) (drop_staged st).
Proof. unfold drop_staged. neutral. Qed.
#[local] Hint Resolve neutral_drop_staged : neutral.

Lemma neutral_timed {A} (m : M E A) k : neutral m -> (forall a, neutral (k a)) -> neutral (timed m k).
Proof. intros. unfold timed. neutral; auto. Qed.

Lemma neutral_probe i : neutral (E := E) (probe_healthy i).
Proof. apply neutral_timed; intros; neutral. Qed.
#[local] Hint Resolve neutral_probe : neutral.

Lemma neutral_patch_and_verify i p pr : neutral (E := E) (patch_and_verify i p pr).
Proof.
  unfold patch_and_verify. destruct (mh_build_client _); [|neutral].
  apply neutral_timed; [neutral|]. intros _. apply neutral_timed; [neutral|]. intros []; neutral.
Qed.
#[local] Hint Resolve neutral_patch_and_verify : neutral.

Lemma neutral_reconcile_in_place cur change d : neutral (E := E) (reconcile_in_place cur change d).
Proof.
  unfold reconcile_in_place. neutral.
Qed.
#[local] Hint Resolve neutral_reconcile_in_place : neutral.

Lemma neutral_reject_retained {A} e error : neutral (E := E) (reject_retained (A := A) e error).
Proof. unfold reject_retained. neutral. Qed.
#[local] Hint Resolve neutral_reject_retained : neutral.

Lemma neutral_cleanup_or_fail e : neutral (E := E) (cleanup_or_fail e).
Proof. unfold cleanup_or_fail. neutral. Qed.
#[local] Hint Resolve neutral_cleanup_or_fail : neutral.

End Quiet.
#[export] Hint Resolve neutral_publish neutral_publish_instance neutral_publish_terminal neutral_republish neutral_get_ctrl neutral_check_config neutral_restore_backup neutral_wait_ready neutral_instance_pid neutral_instance_status neutral_abort_forwarder neutral_cleanup_epoch neutral_terminal_err neutral_advance neutral_write_record neutral_persist neutral_apply_failed neutral_dns_restore neutral_dns_deactivate neutral_runtime_alive neutral_dns_activate neutral_dns_converge neutral_finish_dns_converge neutral_load_snapshot neutral_resolve neutral_validate neutral_lift_prepare neutral_prepare_document neutral_stage_and_check neutral_drop_staged neutral_probe neutral_patch_and_verify neutral_reconcile_in_place neutral_reject_retained neutral_cleanup_or_fail : neutral.
