(* ===== verification/ManagerSafety.v ===== *)
(** * No process is lost

    The invariant of the manager - every process it was given an instance of and
    that is not proven dead is the active one or belongs to a latched epoch - with its preservation by every
    transaction, and what it says of the traces of every reachable state. *)

From S2P Require Export ManagerLogic.
Open Scope rust_scope.
Open Scope mgr_scope.

(** ** Lists *)

Lemma elem_of_drop_instance i j l : j ∈ drop_instance i l <-> j ∈ l /\ j <> i.
Proof.
  unfold drop_instance. rewrite !list_elem_of_In, filter_In, negb_true_iff, bool_decide_eq_false. done.
Qed.

Lemma elem_of_drop_epoch e j l : j ∈ drop_epoch e l <-> j ∈ l /\ in_epoch j <> e.
Proof.
  unfold drop_epoch. rewrite !list_elem_of_In, filter_In, negb_true_iff, bool_decide_eq_false. done.
Qed.

Lemma NoDup_List_filter {A} (f : A -> bool) (l : list A) : NoDup l -> NoDup (List.filter f l).
Proof. rewrite !NoDup_ListNoDup. apply List.NoDup_filter. Qed.

Notation q_epochs := (map q_epoch).

Lemma update_reason_epochs e reason l l' : update_reason e reason l = Some l' -> q_epochs l' = q_epochs l.
Proof.
  revert l'; induction l as [|x l IH]; intros l'; cbn; [done|]. case_decide.
  - by intros [= <-].
  - intros (l0 & Hl0 & ->)%fmap_Some. cbn. by rewrite (IH _ Hl0).
Qed.

Lemma update_reason_None e reason l : update_reason e reason l = None <-> e ∉ q_epochs l.
Proof.
  induction l as [|x l IH]; cbn.
  - split; [intros _ Hin; by apply elem_of_nil in Hin|done].
  - case_decide as Hx.
    + split; [done|]. intros Hin. destruct Hin. rewrite Hx. by left.
    + rewrite fmap_None, IH, not_elem_of_cons. split; [by intros|by intros [_ ?]].
Qed.

(** Proven entries of an updated latch are those of the old one. *)
Lemma update_reason_proven e reason l l' x :
  update_reason e reason l = Some l' -> x ∈ l' -> q_death_proven x = true ->
  exists y, y ∈ l /\ q_epoch y = q_epoch x /\ q_death_proven y = true.
Proof.
  revert l'; induction l as [|z l IH]; intros l'; cbn; [done|]. case_decide as Hz.
  - intros [= <-] [->|Hin]%elem_of_cons Hp; cbn in *; [|exists x; split; [by right|done]].
    exists z. split; [by left|done].
  - intros (l0 & Hl0 & ->)%fmap_Some [->|Hin]%elem_of_cons Hp; [exists z; split; [by left|done]|].
    destruct (IH _ Hl0 Hin Hp) as (y & Hy & ?). exists y. split; [by right|done].
Qed.

Lemma record_quarantine_spec e reason c :
  let q' := c_quarantine (record_quarantine e reason c) in
  e ∈ q_epochs q'
  /\ (forall e', e' ∈ q_epochs q' <-> e' = e \/ e' ∈ q_epochs (c_quarantine c))
  /\ (NoDup (q_epochs (c_quarantine c)) -> NoDup (q_epochs q'))
  /\ (forall x, x ∈ q' -> q_death_proven x = true ->
        exists y, y ∈ c_quarantine c /\ q_epoch y = q_epoch x /\ q_death_proven y = true)
  /\ record_quarantine e reason c = set_quarantine q' c.
Proof.
  unfold record_quarantine. destruct (update_reason e reason (c_quarantine c)) as [l'|] eqn:Eu; cbn.
  - pose proof (update_reason_epochs _ _ _ _ Eu) as He. rewrite He.
    assert (e ∈ q_epochs (c_quarantine c)) as Hin.
    { destruct (decide (e ∈ q_epochs (c_quarantine c))) as [|Hn]; [done|].
      apply (update_reason_None e reason) in Hn. congruence. }
    split; [done|]. split; [set_solver|]. split; [done|]. split; [|done].
    intros x. by eapply update_reason_proven.
  - apply update_reason_None in Eu. rewrite map_app. cbn.
    split; [set_solver|]. split; [set_solver|]. split; [|split; [|done]].
    + intros Hn. apply NoDup_app. split; [done|]. split; [|apply NoDup_singleton].
      intros x Hx ->%list_elem_of_singleton. done.
    + intros x [Hx|Hx]%elem_of_app Hp; [by exists x|].
      apply list_elem_of_singleton in Hx as ->. done.
Qed.

Section Safety.
Context {E : Type} `{ManagerHost E}.
Implicit Types (s : Mgr E).

(** ** The invariant

    [L]: the processes a transaction holds in its own variables; [cur], [q],
    [n]: what is in the slot, the latch and the epoch allocator. *)
Record Inv (L : list Instance) (cur : option Active) (q : list QuarantinedEpoch) (n : N) (s : Mgr E) : Prop := {
  inv_current : c_current (m_ctrl s) = cur;
  inv_quarantine : c_quarantine (m_ctrl s) = q;
  inv_last : c_last (m_ctrl s) = n;
  inv_covered : forall i, i ∈ live (m_events s) ->
    i ∈ L \/ (exists a, cur = Some a /\ a_instance a = i) \/ in_epoch i ∈ q_epochs q;
  inv_coherent : forall a, cur = Some a ->
    in_epoch (a_instance a) = ep_epoch (a_plan a) /\ N.pos (ep_epoch (a_plan a)) <= n
    /\ ep_epoch (a_plan a) ∉ q_epochs q;
  inv_serial : NoDup (live (m_events s))
    /\ forall i, i ∈ live (m_events s) -> (in_serial i < m_launches s)%nat;
  inv_trace : trace_wf s;
  inv_commits : forall e, e ∈ new_commits (m_events s) -> N.pos e <= n;
  inv_proven : forall x, x ∈ q -> q_death_proven x = true ->
    forall i, i ∈ live (m_events s) -> in_epoch i <> q_epoch x;
  inv_distinct : NoDup (q_epochs q);
}.

(** An allocated epoch that has no artifact yet. *)
Definition Fresh (e : Epoch) (s : Mgr E) : Prop :=
  forall e', e' ∈ new_commits (m_events s) -> (e' < e)%positive.
Definition Checked (path : string) (s : Mgr E) : Prop := EvChecked path true ∈ m_events s.

Lemma Inv_quiet L cur q n s s' : quiet s s' -> Inv L cur q n s -> Inv L cur q n s'.
Proof.
  intros [] []. split; rewrite ?quiet_live, ?quiet_commits, ?quiet_launches; try done; try congruence.
  by apply quiet_trace.
Qed.
Lemma Fresh_quiet e s s' : quiet s s' -> Fresh e s -> Fresh e s'.
Proof. intros [] Hf. unfold Fresh. by rewrite quiet_commits. Qed.
Lemma Checked_quiet p s s' : quiet s s' -> Checked p s -> Checked p s'.
Proof.
  intros [] Hc. destruct quiet_extends as [evs He]. unfold Checked. rewrite He.
  apply elem_of_app. by right.
Qed.

Lemma Inv_weaken L L' cur q n s : L ⊆ L' -> Inv L cur q n s -> Inv L' cur q n s.
Proof. intros HL []. split; try done. intros i Hi. destruct (inv_covered0 i Hi); [left; by apply HL|tauto]. Qed.

(** The trace only grows, so a checked path stays checked. *)
Notation grows := (emits (fun _ => true)).

Lemma grows_spawn plan : grows (spawn_instance plan).
Proof. unfold spawn_instance. emits. Qed.

Lemma grows_retire : grows retire_current.
Proof.
  unfold retire_current, take_current, get_ctrl, modify_ctrl, abort_forwarder, stop_and_confirm_dead.
  emits.
Qed.

Lemma wp_checked {A} (m : M E A) Q K s p :
  grows m -> Checked p s -> wp m (fun a s' => Checked p s' -> Q a s') K s -> wp m Q K s.
Proof.
  intros Hm Hp. unfold wp. destruct (Hm s) as (evs & He & _). destruct (m s) as [[a|msg] s']; [|done].
  intros HQ. apply HQ. unfold Checked. cbn in He. rewrite He. apply elem_of_app. by right.
Qed.

(** ** Rules for the steps that are not quiet *)

(** The process was launched with the request of the plan. *)
Definition launched_for (plan : EpochPlan) (i : Instance) : Prop := in_request i = launch_request plan.
Lemma launched_epoch plan i : launched_for plan i -> in_epoch i = ep_epoch plan.
Proof. unfold in_epoch. by intros ->. Qed.

Lemma wp_spawn L cur n plan Q K s :
  Inv L cur [] n s -> (length L + length (option_list cur) <= 1)%nat ->
  (forall i s', Inv (i :: L) cur [] n s' -> launched_for plan i -> Q (Ok i) s') ->
  (forall e s', Inv L cur [] n s' -> Q (Err e) s') ->
  wp (spawn_instance plan) Q K s.
Proof.
  intros HI Hlen HOk HErr. unfold spawn_instance. cbv zeta. apply wp_bind.
  apply wp_neutral; [neutral|]. intros r s1 Hq1. apply (Inv_quiet _ _ _ _ _ _ Hq1) in HI.
  destruct r as [[]|e].
  - unfold wp. cbn -[live event_ok]. apply HOk; [|done]. destruct HI.
    destruct inv_serial0 as [Hnd Hser]. destruct inv_trace0 as [Ht Hr].
    assert (length (live (m_events s1)) <= 1)%nat as Hl1.
    { etrans; [|exact Hlen]. rewrite <- length_map with (f := a_instance) (l := option_list cur).
      rewrite <- length_app. apply submseteq_length, NoDup_submseteq; [done|].
      intros i Hi. apply elem_of_app. destruct (inv_covered0 i Hi) as [?|[(a & -> & <-)|Hn]]; [by left| |].
      - right. apply list_elem_of_here.
      - by apply elem_of_nil in Hn. }
    split; cbn -[live event_ok]; try done.
    + intros j. cbn [live]. intros [->|Hj]%elem_of_cons; [left; by left|].
      destruct (inv_covered0 j Hj); [left; by right|tauto].
    + cbn [live]. split.
      * apply NoDup_cons. split; [|done]. intros Hin. apply Hser in Hin. cbn in Hin. lia.
      * intros i [->|Hi]%elem_of_cons; cbn; [lia|]. apply Hser in Hi. lia.
    + by intros x Hx%elem_of_nil.
  - unfold wp. cbn. apply HErr. eapply Inv_quiet; [|exact HI]. by apply quiet_harmless.
Qed.

Lemma wp_stop L cur q n i Q K s :
  Inv (i :: L) cur q n s ->
  (forall r s', (if unproven r then Inv (i :: L) cur q n s' else Inv L cur q n s') -> Q r s') ->
  wp (stop_and_confirm_dead i) Q K s.
Proof.
  intros HI HQ. unfold stop_and_confirm_dead. apply wp_bind.
  apply wp_neutral; [neutral|]. intros r s1 Hq1. apply (Inv_quiet _ _ _ _ _ _ Hq1) in HI.
  unfold wp. cbn -[live event_ok]. apply HQ. destruct HI. destruct inv_trace0 as [Ht Hr].
  destruct (unproven r) eqn:Er.
  - split; cbn -[live event_ok]; cbn [live]; rewrite ?Er; try done.
  - destruct inv_serial0 as [Hnd Hser].
    split; cbn -[live event_ok]; cbn [live]; rewrite ?Er; try done.
    + intros j [Hj Hne]%elem_of_drop_instance. destruct (inv_covered0 j Hj) as [Hin|]; [|tauto].
      apply elem_of_cons in Hin as [->|]; [done|by left].
    + split; [by apply NoDup_List_filter|]. intros j [Hj _]%elem_of_drop_instance. by apply Hser.
    + intros x Hx Hp j [Hj _]%elem_of_drop_instance. by apply (inv_proven0 x).
Qed.

Lemma Inv_take L cur q n s :
  Inv L cur q n s ->
  Inv ((a_instance <$> option_list cur) ++ L) None q n (on_ctrl (set_current None) s).
Proof.
  intros []. split; cbn; try done.
  intros i Hi. destruct (inv_covered0 i Hi) as [?|[(a & -> & <-)|?]].
  - left. apply elem_of_app. by right.
  - left. apply elem_of_app. left. apply list_elem_of_here.
  - by right; right.
Qed.

Lemma wp_take_current L cur q n Q K s :
  Inv L cur q n s ->
  (forall s', Inv ((a_instance <$> option_list cur) ++ L) None q n s' -> Q cur s') ->
  wp take_current Q K s.
Proof.
  intros HI HQ. unfold wp, take_current, get_ctrl. cbn.
  rewrite (inv_current _ _ _ _ _ HI). apply HQ. by apply Inv_take.
Qed.

Lemma wp_install L n i plan Q K s :
  Inv (i :: L) None [] n s -> in_epoch i = ep_epoch plan -> N.pos (ep_epoch plan) <= n ->
  (forall s', Inv L (Some {| a_instance := i; a_plan := plan |}) [] n s' ->
     Q {| a_instance := i; a_plan := plan |} s') ->
  wp (install i plan) Q K s.
Proof.
  intros HI Hi Hn HQ. unfold wp, install. cbn. apply HQ. destruct HI. split; cbn; try done.
  - intros j Hj. destruct (inv_covered0 j Hj) as [Hin|[(a & Ha & _)|?]]; [|done|tauto].
    apply elem_of_cons in Hin as [->|]; [|by left]. right. left. by eexists.
  - intros a [= <-]. split; [done|]. split; [done|]. by apply not_elem_of_nil.
Qed.

Lemma wp_next L cur q n Q (K : Mgr E -> Prop) s :
  Inv L cur q n s -> (forall s', Inv L cur q n s' -> K s') ->
  (forall e s', Inv L cur q (N.pos e) s' -> Fresh e s' ->
     (forall a, cur = Some a -> (ep_epoch (a_plan a) < e)%positive) -> Q e s') ->
  wp next_epoch Q K s.
Proof.
  intros HI HK HQ. unfold next_epoch, get_ctrl, checked_add. apply wp_bind.
  unfold wp at 1. cbn [mgr_get]. case_decide as Hlt.
  - apply wp_bind. unfold wp, modify_ctrl. cbn [mgr_modify].
    destruct (c_last (m_ctrl s) + 1) as [|e] eqn:Ee; [lia|]. cbn [Epoch_new mgr_ret].
    destruct HI. apply HQ.
    + split; cbn; try done.
      * intros a Ha. destruct (inv_coherent0 a Ha) as (? & ? & ?). split; [done|]. split; [lia|done].
      * intros e' He'. specialize (inv_commits0 e' He'). lia.
    + intros e' He'. cbn in He'. specialize (inv_commits0 e' He'). lia.
    + intros a Ha. destruct (inv_coherent0 a Ha) as (? & ? & ?). lia.
  - unfold wp, mgr_panic. split; [|by apply HK]. split; [done|]. lia.
Qed.

Lemma wp_commit_new L cur q n st e Q K s :
  Inv L cur q n s -> Checked (sg_path st) s -> Fresh e s -> N.pos e <= n ->
  (forall r s', Inv L cur q n s' -> (forall p, Checked p s -> Checked p s') -> Q r s') ->
  wp (commit_new st e) Q K s.
Proof.
  intros HI Hch Hf Hn HQ. unfold commit_new. apply wp_bind.
  apply wp_neutral; [neutral|]. intros r s1 Hq1. apply (Inv_quiet _ _ _ _ _ _ Hq1) in HI.
  assert (forall p, Checked p s -> Checked p s1) as Hkeep by (intros p; by apply Checked_quiet).
  apply (Checked_quiet _ _ _ Hq1) in Hch. apply (Fresh_quiet _ _ _ Hq1) in Hf.
  unfold wp. cbn -[event_ok]. apply HQ; [|intros p Hp; right; by apply Hkeep]. destruct HI. destruct inv_trace0 as [Ht Hr].
  split; cbn -[event_ok]; try done.
  - split; [|done]. split; [|done]. split; [done|]. intros _. by apply Forall_forall.
  - intros e' [->|He']%elem_of_cons; [done|]. by apply inv_commits0.
Qed.

Lemma quiet_commit_replace st e ok s :
  Checked (sg_path st) s -> quiet s (add_event (EvCommitted (sg_path st) e false ok) s).
Proof.
  intros Hch. split; try done; [by eexists [_]|]. intros [Ht Hr]. split; [|done]. split; [|done].
  split; [exact Hch|done].
Qed.

Lemma wp_commit_replace st e Q K s :
  Checked (sg_path st) s -> (forall r s', quiet s s' -> Q r s') -> wp (commit_replace st e) Q K s.
Proof.
  intros Hch HQ. unfold commit_replace. apply wp_bind.
  apply wp_neutral; [neutral|]. intros r s1 Hq1. unfold wp. cbn. apply HQ.
  eapply quiet_trans; [exact Hq1|]. apply quiet_commit_replace. by eapply Checked_quiet.
Qed.

Lemma Inv_record L L' cur q n e reason s :
  Inv L cur q n s -> (forall i, i ∈ L -> i ∈ L' \/ in_epoch i = e) ->
  (forall a, cur = Some a -> ep_epoch (a_plan a) <> e) ->
  exists q', q' <> [] /\ Inv L' cur q' n (on_ctrl (record_quarantine e reason) s)
    /\ c_quarantine (record_quarantine e reason (m_ctrl s)) = q'.
Proof.
  intros [] HL Hcur.
  destruct (record_quarantine_spec e reason (m_ctrl s)) as (He & Hq & Hnd & Hp & Heq).
  rewrite inv_quarantine0 in *.
  set (q' := c_quarantine (record_quarantine e reason (m_ctrl s))) in *. exists q'.
  split; [intros Hnil; rewrite Hnil in He; by apply elem_of_nil in He|].
  split; [|done]. unfold on_ctrl. rewrite Heq. clearbody q'. split; cbn; try done.
  - intros i Hi. destruct (inv_covered0 i Hi) as [Hin|[?|Hin]].
    + destruct (HL i Hin) as [?|<-]; [by left|right; right; done].
    + tauto.
    + right. right. apply Hq. by right.
  - intros a Ha. destruct (inv_coherent0 a Ha) as (? & ? & Hout). split; [done|]. split; [done|].
    rewrite Hq. specialize (Hcur a Ha). tauto.
  - intros x Hx Hpx i Hi. destruct (Hp x Hx Hpx) as (y & Hy & <- & Hpy). by apply (inv_proven0 y).
  - by apply Hnd.
Qed.

Lemma wp_latch_err {A} L cur q n e error (Q : result A Error -> Mgr E -> Prop) K s :
  Inv L cur q n s -> (forall i, i ∈ L -> in_epoch i = e) ->
  (forall a, cur = Some a -> ep_epoch (a_plan a) <> e) ->
  (forall q' s', q' <> [] -> Inv [] cur q' n s' -> Q (Err error) s') ->
  wp (latch_err e error) Q K s.
Proof.
  intros HI HL Hcur HQ. unfold latch_err, latch_quarantine.
  destruct (Inv_record L [] cur q n e (Error_to_string error) s HI) as (q' & Hq' & HI' & Hqq); [|done|].
  { intros i Hi. right. by apply HL. }
  do 3 apply wp_bind. unfold wp at 1, get_ctrl. cbn [modify_ctrl mgr_modify].
  unfold wp at 1. cbn [mgr_get].
  pose proof (inv_quarantine _ _ _ _ _ HI') as Hq2.
  unfold quarantine_error. rewrite Hq2. destruct q' as [|x q']; [done|].
  apply wp_bind. apply wp_neutral; [neutral|]. intros [] s1 Hq1.
  apply (Inv_quiet _ _ _ _ _ _ Hq1) in HI'. apply wp_ret, wp_ret. by eapply HQ.
Qed.

Lemma wp_record L L' cur q n e reason Q K s :
  Inv L cur q n s -> (forall i, i ∈ L -> i ∈ L' \/ in_epoch i = e) ->
  (forall a, cur = Some a -> ep_epoch (a_plan a) <> e) ->
  (forall q' s', Inv L' cur q' n s' -> Q tt s') ->
  wp (modify_ctrl (record_quarantine e reason)) Q K s.
Proof.
  intros HI HL Hcur HQ. destruct (Inv_record L L' cur q n e reason s HI HL Hcur) as (q' & _ & HI' & _).
  apply wp_modify_ctrl. by eapply HQ.
Qed.

End Safety.
