(* ===== verification/ManagerTransactions.v ===== *)
(** * The transactions keep the invariant

    One rule per transaction of the manager: what the slot, the latch and the
    allocator hold behind it, on every answer of the host. *)

From S2P Require Export ManagerSafety.
Open Scope rust_scope.
Open Scope mgr_scope.

(** ** Symbolic execution *)

(** Carry the facts about a state over a quiet step. *)
Ltac carry Hq :=
  repeat match goal with
  | HI : Inv _ _ _ _ ?s |- _ =>
      match type of Hq with quiet s _ => apply (Inv_quiet _ _ _ _ _ _ Hq) in HI end
  | HF : Fresh _ ?s |- _ =>
      match type of Hq with quiet s _ => apply (Fresh_quiet _ _ _ Hq) in HF end
  | HC : Checked _ ?s |- _ =>
      match type of Hq with quiet s _ => apply (Checked_quiet _ _ _ Hq) in HC end
  end; clear Hq.

Ltac quiet_step :=
  apply wp_neutral; [solve [neutral]|];
  let r := fresh "r" in let s := fresh "t" in let Hq := fresh "Hq" in
  intros r s Hq; carry Hq.

Ltac wp_case :=
  lazymatch goal with
  | |- wp (match ?x with _ => _ end) _ _ _ => destruct x
  | |- match ?x with _ => _ end => destruct x
  end.

(** The same with a pattern for the answer. *)
Tactic Notation "quiet_as" simple_intropattern(p) :=
  apply wp_neutral; [solve [neutral]|];
  intros p; let s := fresh "t" in let Hq := fresh "Hq" in intros s Hq; carry Hq.

Section Refusals.
Context {E : Type} `{ManagerHost E}.

(** The two ways a transaction answers an error it does not latch. *)
Lemma wp_terminal_err {A} err (Q : result A Error -> Mgr E -> Prop) K s :
  (forall s', quiet s s' -> Q (Err err) s') -> wp (terminal_err err) Q K s.
Proof. intros HQ. apply wp_bind, wp_neutral; [neutral|]. intros _ s' Hq. by apply wp_ret, HQ. Qed.

Lemma wp_reject_retained {A} e err (Q : result A Error -> Mgr E -> Prop) K s :
  (forall s', quiet s s' -> Q (Err err) s') -> wp (reject_retained e err) Q K s.
Proof.
  intros HQ. apply wp_bind, wp_neutral; [neutral|]. intros r s1 H1.
  apply wp_bind, wp_neutral; [neutral|]. intros [] s2 H2. apply wp_ret, HQ. by eapply quiet_trans.
Qed.
End Refusals.

(** Run to the next step that has a rule of its own. *)
Ltac refusal rule :=
  apply rule; let s := fresh "t" in let Hq := fresh "Hq" in intros s Hq; carry Hq.
Ltac run_step :=
  lazymatch goal with
  | |- wp (mgr_bind _ _) _ _ _ => apply wp_bind
  | |- wp (mgr_try _ _) _ _ _ => apply wp_try
  | |- wp (mgr_ret _) _ _ _ => apply wp_ret
  | |- wp (match ?x with _ => _ end) _ _ _ => destruct x
  | |- wp (let _ := _ in _) _ _ _ => cbv zeta
  | |- wp (terminal_err _) _ _ _ => refusal (@wp_terminal_err)
  | |- wp (reject_retained _ _) _ _ _ => refusal (@wp_reject_retained)
  | |- wp _ _ _ _ => quiet_step
  | |- match ?x with _ => _ end => is_var x; destruct x
  end.
Ltac run := cbv beta; repeat (run_step; cbv beta).

Section Transactions.
Context {E : Type} `{ManagerHost E}.
Implicit Types (s : Mgr E).

Definition Good (s : Mgr E) : Prop := exists cur q n, Inv [] cur q n s.

Lemma Good_intro cur q n s : Inv [] cur q n s -> Good s.
Proof. by exists cur, q, n. Qed.
Hint Resolve Good_intro : core.

(** ** Preparation *)

(** Checked staging is quiet, and what it returns is checked. *)
Lemma wp_stage_and_check spec e bytes (Q : result StagedRuntimeConfig Error -> Mgr E -> Prop) K s :
  (forall r s', quiet s s' -> (forall st, r = Ok st -> Checked (sg_path st) s') -> Q r s') ->
  wp (stage_and_check spec e bytes) Q K s.
Proof.
  intros HQ. unfold stage_and_check. apply wp_try, wp_neutral; [neutral|]. intros [st|err] s1 H1; [|by apply HQ].
  apply wp_bind. unfold check_config. apply wp_bind, wp_neutral; [neutral|]. intros r s2 H2.
  apply wp_bind, wp_emit, wp_ret.
  set (s3 := add_event _ s2). assert (quiet s s3) as H3.
  { eapply quiet_trans; [exact H1|]. eapply quiet_trans; [exact H2|]. by apply quiet_harmless. }
  destruct r as [[]|err].
  - apply wp_ret, HQ; [done|]. intros ? [= <-]. by left.
  - apply wp_bind, wp_neutral; [neutral|]. intros [] s4 H4. apply wp_ret, HQ; [|done].
    by eapply quiet_trans.
Qed.

Lemma wp_prepare_with_features spec e sn rf L cur q n (Q : result EpochPlan Error -> Mgr E -> Prop) s :
  Inv L cur q n s -> Fresh e s -> N.pos e <= n ->
  (forall r s', Inv L cur q n s' -> (forall plan, r = Ok plan -> ep_epoch plan = e /\ ep_source_spec plan = spec) -> Q r s') ->
  wp (prepare_launch_with_features spec e sn rf) Q Good s.
Proof.
  intros HI HF Hn HQ. unfold prepare_launch_with_features. apply wp_try. quiet_step.
  destruct r as [prepared|err]; [|by apply HQ]. apply wp_try.
  apply wp_stage_and_check. intros [st|err] s1 Hq1 Hst; carry Hq1; [|by apply HQ].
  apply wp_try. eapply wp_commit_new; [done|by apply Hst|done..|].
  intros [path|err] s2 HI2 _; [|by apply HQ]. apply wp_ret. apply HQ; [done|]. by intros plan [= <-].
Qed.

Lemma wp_prepare_launch spec e sn L cur q n (Q : result EpochPlan Error -> Mgr E -> Prop) s :
  Inv L cur q n s -> Fresh e s -> N.pos e <= n ->
  (forall r s', Inv L cur q n s' -> (forall plan, r = Ok plan -> ep_epoch plan = e /\ ep_source_spec plan = spec) -> Q r s') ->
  wp (prepare_launch spec e sn) Q Good s.
Proof.
  intros HI HF Hn HQ. unfold prepare_launch. apply wp_try. quiet_step.
  destruct r; [|by apply HQ]. apply wp_try. quiet_step. destruct r; [|by apply HQ].
  by eapply wp_prepare_with_features.
Qed.

(** ** The slot *)

Lemma wp_retire L cur q n Q s :
  Inv L cur q n s ->
  (cur = None -> forall s', Inv L None q n s' -> Q (Ok None) s') ->
  (forall a, cur = Some a -> forall s', Inv L None q n s' -> Q (Ok (Some (a_plan a))) s') ->
  (forall a err, cur = Some a -> in_epoch (a_instance a) = ep_epoch (a_plan a) ->
     forall s',
     (if is_stop_unconfirmed err then Inv (a_instance a :: L) None q n s' else Inv L None q n s') ->
     Q (Err {| rtf_epoch := ep_epoch (a_plan a); rtf_error := err |}) s') ->
  wp retire_current Q Good s.
Proof.
  intros HI HNone HOk HErr. unfold retire_current. apply wp_bind.
  eapply wp_take_current; [done|]. intros s1 HI1. destruct cur as [a|].
  - pose proof (inv_coherent _ _ _ _ _ HI a eq_refl) as (Hep & _). cbn in HI1.
    apply wp_bind. quiet_step. apply wp_bind. eapply wp_stop; [done|].
    intros [[]|err] s3 HI3; cbn [unproven] in HI3; apply wp_ret; [by eapply HOk|by eapply HErr].
  - apply wp_ret. by apply HNone.
Qed.

Lemma wp_discard_stale cur n Q s :
  Inv [] cur [] n s ->
  (forall s', Inv [] None [] n s' -> Q (Ok tt) s') ->
  (forall err q s', Inv [] None q n s' -> Q (Err err) s') ->
  wp discard_stale Q Good s.
Proof.
  intros HI HOk HErr. unfold discard_stale. apply wp_bind. eapply wp_retire; [done| | |].
  - intros _ s1 HI1. apply wp_ret. by apply HOk.
  - intros a _ s1 HI1. quiet_step. destruct r as [[]|]; [by apply HOk|by eapply HErr].
  - intros a err _ Hep s1 HI1. cbn [rtf_error rtf_epoch]. destruct (is_stop_unconfirmed err).
    + eapply wp_latch_err; [done|by intros i ->%list_elem_of_singleton|done|].
      intros q' s2 _ HI2. by eapply HErr.
    + apply wp_ret. by eapply HErr.
Qed.

(** ** Start *)

Definition started (plan : EpochPlan) (n : N) (r : result () Error) (s : Mgr E) : Prop :=
  match r with
  | Ok _ => exists i, Inv [] (Some {| a_instance := i; a_plan := plan |}) [] n s /\ launched_for plan i
  | Err _ => exists q, Inv [] None q n s
  end.

Lemma wp_start_prepared plan n s :
  Inv [] None [] n s -> N.pos (ep_epoch plan) <= n -> wp (start_prepared plan) (started plan n) Good s.
Proof.
  intros HI Hn. unfold start_prepared. cbv zeta. apply wp_bind. quiet_step.
  destruct r as [[]|]; [|by run; eexists].
  apply wp_bind. quiet_step. destruct r as [[]|]; [|by run; eexists].
  apply wp_bind. quiet_step. apply wp_bind. eapply wp_spawn; [done|cbn; lia| |by intros; run; eexists].
  intros i s3 HI3 Hl. pose proof (launched_epoch _ _ Hl) as Hi. apply wp_bind. quiet_step. destruct r0 as [[]|].
  - run. eapply wp_install; [done..|]. intros s5 HI5. run. by eexists.
  - apply wp_bind. eapply wp_stop; [done|]. intros [[]|stop_error] s5 HI5; cbn [unproven] in HI5.
    + run. by eexists.
    + assert (Inv [i] None [] n s5) as HI6.
      { destruct (is_stop_unconfirmed stop_error); [done|]. eapply Inv_weaken; [|done]. set_solver. }
      eapply wp_latch_err; [exact HI6|by intros j ->%list_elem_of_singleton|done|].
      intros q' s6 _ HI7. by exists q'.
Qed.

(** What a transaction that launches [spec] leaves in the slot. *)
Definition runs {A} (spec : InstanceSpec) (_ : A) (act : Active) : Prop :=
  ep_source_spec (a_plan act) = spec.

Definition started_some (spec : InstanceSpec) (r : result () Error) (s : Mgr E) : Prop :=
  match r with
  | Ok x => exists a n, Inv [] (Some a) [] n s /\ runs spec x a /\ launched_for (a_plan a) (a_instance a)
  | Err _ => exists q n, Inv [] None q n s
  end.

Lemma wp_start_locked spec n s :
  Inv [] None [] n s -> wp (start_locked spec) (started_some spec) Good s.
Proof.
  intros HI. unfold start_locked. apply wp_bind. eapply wp_next; [done|by eauto|].
  intros e s1 HI1 HF1 _. apply wp_bind. quiet_step. destruct r as [sn|]; [|by run; do 2 eexists].
  apply wp_bind. eapply wp_prepare_launch; [done|done|done|].
  intros [plan|err] s3 HI3 Hplan; [|by run; do 2 eexists].
  destruct (Hplan plan eq_refl) as [He Hspec].
  eapply wp_mono; [apply wp_start_prepared; [done|by rewrite He]| |done].
  intros [[]|err] s4; cbn.
  - intros (i & Hi & Hl). by do 2 eexists.
  - intros [q Hq]. by do 2 eexists.
Qed.

Definition good_result {A} (r : A) (s : Mgr E) : Prop := Good s.

(** What a transaction that leaves a runtime on success ends in. *)
Definition ends {A} (ok : A -> Active -> Prop) (r : result A Error) (s : Mgr E) : Prop :=
  match r with
  | Ok a => exists act n, Inv [] (Some act) [] n s /\ ok a act
  | Err _ => Good s
  end.

Lemma ends_quiet {A} ok (r : result A Error) s s' : quiet s s' -> ends ok r s -> ends ok r s'.
Proof.
  intros Hq. destruct r as [a|e]; cbn.
  - intros (act & n & HI & Ha). exists act, n. split; [by eapply Inv_quiet|done].
  - intros (cur & q & n & HI). exists cur, q, n. by eapply Inv_quiet.
Qed.

(** The converge tail turns a success into an error or passes it on. *)
Lemma wp_finish {A} ok (r : result A Error) s :
  ends ok r s -> wp (finish_dns_converge r) (fun r' s' => ends ok r' s' /\ (forall a, r' = Ok a -> r = Ok a)) Good s.
Proof.
  intros Hr. unfold finish_dns_converge.
  apply wp_bind, wp_neutral; [neutral|]. intros alive s1 Hq1.
  apply wp_bind, wp_neutral; [neutral|]. intros d s2 Hq2. apply wp_ret.
  apply (ends_quiet ok r s s2) in Hr; [|by eapply quiet_trans].
  destruct r as [a|e], d as [[]|e']; cbn in *; try done.
  - split; [|done]. destruct Hr as (act & n & HI & _). eauto.
Qed.

Lemma wp_start spec s : Good s -> wp (start spec) (ends (runs spec)) Good s.
Proof.
  intros (cur & q & n & HI). unfold start. apply wp_bind, wp_get_ctrl.
  unfold reject_quarantine, quarantine_error. rewrite (inv_quarantine _ _ _ _ _ HI).
  destruct q as [|x q]; [|apply wp_ret; by eapply Good_intro].
  apply wp_bind. quiet_step. destruct r; [apply wp_ret; by eapply Good_intro|].
  apply wp_try. eapply wp_discard_stale; [done| |by intros; eapply Good_intro].
  intros s2 HI2. apply wp_bind. eapply wp_mono; [by eapply wp_start_locked| |done].
  intros r s3 Hr. eapply wp_mono; [apply (wp_finish (runs spec) r)| |done].
  - destruct r as [[]|]; cbn in *; [destruct Hr as (a & m & Ha & Hs & _); by exists a, m|].
    destruct Hr as (q & m & Hq). by eapply Good_intro.
  - by intros r' s4 [Hr' _].
Qed.

(** ** Stop and shutdown *)

Lemma wp_stop_failed L n q e err terminal s :
  (if is_stop_unconfirmed err then Inv L None q n s else Inv [] None q n s) ->
  (forall i, i ∈ L -> in_epoch i = e) ->
  wp (stop_failed e err terminal) good_result Good s.
Proof.
  intros HI HL. unfold stop_failed. destruct (is_stop_unconfirmed err).
  - eapply wp_latch_err; [done..|]. intros q' s' _ HI'. by eapply Good_intro.
  - destruct terminal; run; by eapply Good_intro.
Qed.

Lemma wp_stop_op s : Good s -> wp stop good_result Good s.
Proof.
  intros (cur & q & n & HI). unfold stop, stop_current. apply wp_try. quiet_step.
  destruct r; [|by eapply Good_intro]. apply wp_bind. eapply wp_take_current; [done|].
  intros s1 HI1. destruct cur as [a|]; [|apply wp_ret; by eapply Good_intro].
  cbn in HI1. cbv zeta. apply wp_bind. quiet_step. apply wp_bind. quiet_step.
  destruct (is_terminal _).
  - apply wp_bind. quiet_step. apply wp_bind. eapply wp_stop; [done|].
    intros [[]|err] s5 HI5; cbn [unproven] in HI5; [run; by eapply Good_intro|].
    eapply wp_stop_failed; [done|]. by intros i ->%list_elem_of_singleton.
  - apply wp_bind. quiet_step. apply wp_bind. eapply wp_stop; [done|].
    intros [[]|err] s5 HI5; cbn [unproven] in HI5; [run; by eapply Good_intro|].
    eapply wp_stop_failed; [done|]. by intros i ->%list_elem_of_singleton.
Qed.

Lemma wp_shutdown_runtime s : Good s -> wp shutdown_runtime good_result Good s.
Proof.
  intros (cur & q & n & HI). unfold shutdown_runtime. apply wp_bind. eapply wp_take_current; [done|].
  intros s1 HI1. destruct cur as [a|]; [|apply wp_ret; by eapply Good_intro].
  cbn in HI1. apply wp_bind. quiet_step. cbv zeta. apply wp_bind. quiet_step.
  apply wp_bind. eapply wp_stop; [done|].
  intros [[]|err] s5 HI5; cbn [unproven] in HI5; [run; by eapply Good_intro|].
  eapply wp_stop_failed; [done|]. by intros i ->%list_elem_of_singleton.
Qed.

Lemma wp_shutdown s : Good s -> wp shutdown good_result Good s.
Proof.
  intros HG. unfold shutdown, shutdown_tail. apply wp_try. destruct HG as (cur & q & n & HI). quiet_step.
  destruct r; [|by eapply Good_intro]. apply wp_bind.
  eapply wp_mono; [apply wp_shutdown_runtime; by eapply Good_intro| |done].
  intros r s2 (cur' & q' & n' & HI'). run; by eapply Good_intro.
Qed.

End Transactions.
#[export] Hint Resolve Good_intro : core.
