(* ===== verification/ManagerReplace.v ===== *)
(** * Replacing the running epoch keeps the invariant

    The rules of [switching.rs], [apply.rs] and [reconcile.rs]: behind a
    replacement, on every answer of the host, the slot holds the old runtime,
    the new one or nothing, and a process that could not be stopped is latched. *)

From S2P Require Export ManagerTransactions.
Open Scope rust_scope.
Open Scope mgr_scope.

Section Replace.
Context {E : Type} `{ManagerHost E}.
Implicit Types (s : Mgr E).

Ltac good := by eapply Good_intro.

Lemma Good_quiet s s' : quiet s s' -> Good s -> Good s'.
Proof. intros Hq (cur & q & n & HI). exists cur, q, n. by eapply Inv_quiet. Qed.

Lemma wp_latch_ends {A} ok L q n e err s :
  Inv L None q n s -> (forall i, i ∈ L -> in_epoch i = e) ->
  wp (latch_err (A := A) e err) (ends ok) Good s.
Proof. intros HI HL. eapply wp_latch_err; [done..|]. intros q' s' _ HI'. good. Qed.

Lemma ends_weaken {A} (ok ok' : A -> Active -> Prop) (r : result A Error) s :
  (forall a act, ok a act -> ok' a act) -> ends ok r s -> ends ok' r s.
Proof. intros Hok. destruct r as [a|e]; cbn; [|done]. intros (act & n & HI & Ha). eauto. Qed.

Lemma wp_runtime_alive L cur q n Q s :
  Inv L cur q n s -> (forall r s', Inv L cur q n s' -> (r = true -> is_Some cur) -> Q r s') ->
  wp runtime_alive Q Good s.
Proof.
  intros HI HQ. unfold runtime_alive. apply wp_bind, wp_get_ctrl. rewrite (inv_current _ _ _ _ _ HI).
  destruct cur as [a|].
  - apply wp_bind. quiet_step. apply wp_ret. apply HQ; [done|]. by eexists.
  - apply wp_ret. by apply HQ.
Qed.

(** ** Spawning a replacement into an empty slot *)

Definition replaced (plan : EpochPlan) (n : N) (r : result Instance Error) (s : Mgr E) : Prop :=
  match r with
  | Ok i => Inv [i] None [] n s /\ launched_for plan i
  | Err e =>
      if is_stop_unconfirmed e
      then exists L, Inv L None [] n s /\ forall i, i ∈ L -> in_epoch i = ep_epoch plan
      else Inv [] None [] n s
  end.

Lemma replaced_err plan n e s : Inv [] None [] n s -> replaced plan n (Err e) s.
Proof.
  intros HI. cbn. destruct (is_stop_unconfirmed e); [|done]. exists []. split; [done|].
  by intros i Hi%elem_of_nil.
Qed.

Lemma wp_spawn_replacement plan n s :
  Inv [] None [] n s -> wp (spawn_replacement plan) (replaced plan n) Good s.
Proof.
  intros HI. unfold spawn_replacement.
  apply wp_try. quiet_as [[]|?]; [|by apply replaced_err].
  apply wp_try. quiet_as [[]|?]; [|by apply replaced_err].
  apply wp_try. eapply wp_spawn; [done|cbn; lia| |intros; by apply replaced_err].
  intros i s1 HI1 Hl. pose proof (launched_epoch _ _ Hl) as Hi. apply wp_bind. quiet_as [[]|err]; [by apply wp_ret|].
  apply wp_bind. eapply wp_stop; [done|]. intros [[]|stop_error] s2 HI2; cbn [unproven] in HI2; apply wp_ret.
  - by apply replaced_err.
  - cbn. exists [i]. split; [|by intros j ->%list_elem_of_singleton].
    destruct (is_stop_unconfirmed stop_error); [done|]. eapply Inv_weaken; [|done]. set_solver.
Qed.

(** ** Hard switch *)

Lemma started_ends plan n r s : started plan n r s -> ends (runs (ep_source_spec plan)) r s.
Proof. destruct r; cbn; [intros (i & Hi & _); by do 2 eexists|intros [q Hq]; good]. Qed.

Lemma wp_hard_switch spec sn rf a n s :
  Inv [] (Some a) [] n s -> wp (hard_switch spec sn rf) (ends (runs spec)) Good s.
Proof.
  intros HI. unfold hard_switch. apply wp_bind. eapply wp_next; [done|by intros; good|].
  intros e s1 HI1 HF1 _. apply wp_bind. eapply wp_prepare_with_features; [done|done|lia|].
  intros [plan|err] s2 HI2 Hplan; [|run; good]. destruct (Hplan plan eq_refl) as [He Hspec].
  apply wp_bind. quiet_as [[]|?]; [|run; good].
  apply wp_bind, wp_get_ctrl. apply wp_bind. quiet_step. apply wp_bind. eapply wp_retire; [done|done| |].
  - intros a' [= <-] s3 HI3. apply wp_bind. quiet_as [[]|?]; [|run; good].
    eapply wp_mono; [eapply wp_start_prepared; [done|by rewrite He]| |done].
    intros r' s4. rewrite <- Hspec. apply started_ends.
  - intros a' err [= <-] Hep s3 HI3. cbn [rtf_error rtf_epoch].
    destruct (is_stop_unconfirmed err) eqn:Hu; [|run; good].
    apply wp_bind. quiet_step. eapply wp_latch_ends; [done|]. by intros i ->%list_elem_of_singleton.
Qed.

(** ** Graceful switch *)

Definition graceful_plan (spec : InstanceSpec) (e : Epoch) (r : result PreparedGraceful Error) (s : Mgr E) : Prop :=
  forall prepared, r = Ok prepared ->
    ep_epoch (pg_plan prepared) = e /\ ep_source_spec (pg_plan prepared) = spec
    /\ Checked (sg_path (pg_full_staged prepared)) s.

Lemma wp_prepare_graceful spec e sn rf L cur q n (Q : result PreparedGraceful Error -> Mgr E -> Prop) s :
  Inv L cur q n s -> Fresh e s -> N.pos e <= n ->
  (forall r s', Inv L cur q n s' -> graceful_plan spec e r s' -> Q r s') ->
  wp (prepare_graceful spec e sn rf) Q Good s.
Proof.
  intros HI HF Hn HQ. unfold prepare_graceful, prepare_full, prepare_bootstrap. cbv zeta.
  apply wp_try. quiet_as [full|?]; [|by apply HQ].
  apply wp_try. quiet_as [bootstrap|?]; [|by apply HQ].
  destruct (_ || _); [by apply wp_ret, HQ|].
  apply wp_try. quiet_as [restoration|?]; [|by apply HQ].
  apply wp_try, wp_stage_and_check. intros [st|?] s1 Hq1 Hst; carry Hq1; [|by apply HQ].
  specialize (Hst st eq_refl). apply wp_bind, wp_stage_and_check.
  intros [boot|?] s2 Hq2 Hboot; carry Hq2; [|run; by apply HQ].
  specialize (Hboot boot eq_refl). apply wp_bind. eapply wp_commit_new; [done..|].
  intros [path|?] s3 HI3 Hkeep; [|run; by apply HQ].
  apply wp_ret. apply HQ; [done|]. intros prepared [= <-]. split; [done|]. split; [done|]. cbn. by apply Hkeep.
Qed.

Lemma wp_reject_bootstrap spec i a e err context n s :
  Inv [i] (Some a) [] n s -> in_epoch i = e -> (ep_epoch (a_plan a) < e)%positive ->
  wp (reject_bootstrap i e err context) (ends (runs spec)) Good s.
Proof.
  intros HI Hi Hlt. unfold reject_bootstrap. apply wp_bind. eapply wp_stop; [done|].
  intros [[]|stop_error] s1 HI1; cbn [unproven] in HI1; [run; good|].
  assert (Inv [i] (Some a) [] n s1) as HI2.
  { destruct (is_stop_unconfirmed stop_error); [done|]. eapply Inv_weaken; [|done]. set_solver. }
  eapply wp_latch_err; [done|by intros j ->%list_elem_of_singleton| |].
  - intros a' [= <-] Heq. lia.
  - intros q' s2 _ HI3. good.
Qed.

(** What a failed retirement leaves beside a bootstrap [i]. *)
Lemma wp_old_stop_failed spec L i e failure n s :
  Inv (i :: L) None [] n s -> in_epoch i = e ->
  (forall j, j ∈ L -> in_epoch j = rtf_epoch failure) ->
  (is_stop_unconfirmed (rtf_error failure) = false -> L = []) ->
  wp (old_stop_failed i e failure) (ends (runs spec)) Good s.
Proof.
  intros HI Hi HL Hnil. unfold old_stop_failed. cbv zeta. apply wp_bind. eapply wp_stop; [done|].
  intros [[]|new_error] s1 HI1; cbn [unproven] in HI1.
  - apply wp_bind. quiet_step. destruct (is_stop_unconfirmed _); [by eapply wp_latch_ends|].
    rewrite (Hnil eq_refl) in HI1. run. good.
  - assert (Inv (i :: L) None [] n s1) as HI2.
    { destruct (is_stop_unconfirmed new_error); [done|]. eapply Inv_weaken; [|done]. set_solver. }
    destruct (is_stop_unconfirmed (rtf_error failure)); apply wp_bind.
    + eapply (wp_record (i :: L) [i]); [done| |done|].
      * intros j [->|Hj]%elem_of_cons; [left; set_solver|right; by apply HL].
      * intros q' s2 HI3. eapply wp_latch_ends; [done|]. by intros j ->%list_elem_of_singleton.
    + rewrite (Hnil eq_refl) in HI2. apply wp_ret. eapply wp_latch_ends; [done|].
      by intros j ->%list_elem_of_singleton.
Qed.

Lemma wp_commit_failed spec i e err n s :
  Inv [i] None [] n s -> in_epoch i = e -> wp (commit_failed i e err) (ends (runs spec)) Good s.
Proof.
  intros HI Hi. unfold commit_failed. apply wp_bind. eapply wp_stop; [done|].
  intros [[]|new_error] s1 HI1; cbn [unproven] in HI1.
  - apply wp_bind. quiet_step. destruct (is_stop_unconfirmed _); [|run; good].
    eapply wp_latch_ends; [done|]. by intros j Hj%elem_of_nil.
  - destruct (is_stop_unconfirmed new_error); (eapply wp_latch_ends; [done|]).
    + by intros j ->%list_elem_of_singleton.
    + by intros j Hj%elem_of_nil.
Qed.

Lemma ends_switch_durable spec w (r : result SwitchOutcome Error) s :
  ends (runs spec) r s -> ends (runs spec) (with_switch_durability_result r w) s.
Proof. by destruct r, w. Qed.

Lemma wp_take_over spec i plan old o w n s :
  ep_source_spec plan = spec ->
  Inv [i] None [] n s -> in_epoch i = ep_epoch plan -> N.pos (ep_epoch plan) <= n ->
  wp (take_over i plan old o w) (ends (runs spec)) Good s.
Proof.
  intros Hspec HI Hi Hn. unfold take_over. apply wp_bind. quiet_step. apply wp_bind. quiet_step.
  apply wp_bind. eapply wp_install; [done..|]. intros s1 HI1. apply wp_bind. quiet_as [[]|?].
  - apply wp_ret, ends_switch_durable. by do 2 eexists.
  - apply wp_ret, ends_switch_durable. good.
Qed.

Lemma wp_replace_bootstrap spec i plan old w n s :
  ep_source_spec plan = spec ->
  Inv [i] None [] n s -> in_epoch i = ep_epoch plan -> N.pos (ep_epoch plan) <= n ->
  wp (replace_bootstrap i plan old w) (ends (runs spec)) Good s.
Proof.
  intros Hspec HI Hi Hn. unfold replace_bootstrap. cbv zeta. apply wp_bind. eapply wp_stop; [done|].
  intros [[]|error] s1 HI1; cbn [unproven] in HI1.
  - apply wp_bind. eapply wp_mono; [by eapply wp_spawn_replacement| |done].
    intros [j|error] s2 Hr; [destruct Hr as [HI2 Hj%launched_epoch]; by eapply wp_take_over|]. cbn in Hr.
    destruct (is_stop_unconfirmed error).
    + destruct Hr as (L & HI2 & HL). apply wp_bind.
      eapply wp_mono; [by eapply (wp_latch_ends (runs spec))| |done]. intros r s3 Hr.
      by apply wp_ret, ends_switch_durable.
    + run. apply ends_switch_durable. good.
  - destruct (is_stop_unconfirmed error); apply wp_bind.
    + eapply wp_mono; [eapply (wp_latch_ends (runs spec)); [done|by intros j ->%list_elem_of_singleton]| |done].
      intros r s3 Hr. by apply wp_ret, ends_switch_durable.
    + run. apply ends_switch_durable. good.
Qed.

Lemma wp_commit_graceful spec i prepared old n s :
  ep_source_spec (pg_plan prepared) = spec ->
  Inv [i] None [] n s -> in_epoch i = ep_epoch (pg_plan prepared) ->
  N.pos (ep_epoch (pg_plan prepared)) <= n -> Checked (sg_path (pg_full_staged prepared)) s ->
  wp (commit_graceful i prepared old) (ends (runs spec)) Good s.
Proof.
  intros Hspec HI Hi Hn Hch. unfold commit_graceful. cbv zeta. apply wp_bind.
  apply wp_commit_replace; [done|]. intros [commit|error] s1 Hq1; carry Hq1; [|by eapply wp_commit_failed].
  apply wp_bind. destruct (pg_restoration prepared) as [[patch projection]|];
    (quiet_as [|]; [by eapply wp_take_over|by eapply wp_replace_bootstrap]).
Qed.

Lemma wp_graceful_switch spec sn rf a n s :
  Inv [] (Some a) [] n s -> wp (graceful_switch spec sn rf) (ends (runs spec)) Good s.
Proof.
  intros HI. unfold graceful_switch. apply wp_bind, wp_get_ctrl. cbv zeta.
  apply wp_bind. eapply wp_next; [done|by intros; good|]. intros e s1 HI1 HF1 Hlt.
  specialize (Hlt a eq_refl).
  apply wp_bind. eapply wp_prepare_graceful; [done|done|lia|].
  intros [prepared|err] s2 HI2 Hprep; [|run; good]. destruct (Hprep prepared eq_refl) as (He & Hspec & Hch).
  apply wp_bind. quiet_as [[]|?]; [|run; good]. apply wp_bind. quiet_step.
  apply wp_bind. apply (wp_checked _ _ _ _ (sg_path (pg_full_staged prepared)) (grows_spawn _)); [done|].
  eapply wp_spawn; [done|cbn; lia| |intros; run; good].
  intros i s3 HI3 Hi%launched_epoch Hch3. apply wp_bind. cbn in Hi. rewrite He in Hi.
  quiet_as [[]|?]; [|apply wp_bind; quiet_step; by eapply wp_reject_bootstrap].
  apply wp_bind. quiet_as [[]|?]; [|apply wp_bind; quiet_step; by eapply wp_reject_bootstrap].
  apply wp_bind. apply (wp_checked _ _ _ _ (sg_path (pg_full_staged prepared)) grows_retire); [done|].
  eapply wp_retire; [done|done| |].
  - intros a' [= <-] s4 HI4 Hch4. eapply wp_commit_graceful; [done|done|congruence|by rewrite He|done].
  - intros a' err [= <-] Hep s4 HI4 _.
    destruct (is_stop_unconfirmed err) eqn:Hu; apply wp_bind; quiet_step.
    + eapply (wp_old_stop_failed spec [a_instance a]); cbn; try done.
      * eapply Inv_weaken; [|done]. set_solver.
      * by intros j ->%list_elem_of_singleton.
      * by rewrite Hu.
    + eapply (wp_old_stop_failed spec []); try done. by intros j Hj%elem_of_nil.
Qed.

(** ** Switch and restart *)

Lemma wp_start_locked_ends spec n s :
  Inv [] None [] n s -> wp (start_locked spec) (ends (runs spec)) Good s.
Proof.
  intros HI. eapply wp_mono; [by eapply wp_start_locked| |done]. intros [[]|err] s1; cbn.
  - intros (a & m & Ha & Hs & _). by exists a, m.
  - intros (q & m & Hq). good.
Qed.

Lemma wp_switch_locked spec cur n s :
  Inv [] cur [] n s -> wp (switch_locked spec) (ends (runs spec)) Good s.
Proof.
  intros HI. unfold switch_locked. apply wp_bind. eapply wp_runtime_alive; [done|].
  intros [|] s1 HI1 Hsome; cbn [negb].
  - destruct (Hsome eq_refl) as [a ->].
    assert (forall reason t, Inv [] (Some a) [] n t -> forall sn rf,
      wp (do? _ ← hard_switch spec sn rf; mgr_ret (Ok (Hard reason))) (ends (runs spec)) Good t) as Hhard.
    { intros reason t HIt sn rf. apply wp_try.
      eapply wp_mono; [by eapply wp_hard_switch| |done]. intros [[]|err] s2 Hr; [|done].
      apply wp_ret. destruct Hr as (a' & m & Ha & Hs). by exists a', m. }
    apply wp_try. quiet_as [snapshot|?]; [|good]. apply wp_try. quiet_as [[]|?]; [|good].
    apply wp_try. quiet_as [resolved|?]; [|good]. apply wp_bind, wp_get_ctrl. cbv zeta.
    destruct (bool_decide (is_Some _)); [by apply Hhard|].
    destruct (graceful_degrade_reason _ _ _); [by apply Hhard|by eapply wp_graceful_switch].
  - apply wp_try. eapply wp_discard_stale; [done| |by intros; good].
    intros s2 HI2. apply wp_try. eapply wp_mono; [by eapply wp_start_locked_ends| |done].
    intros [[]|err] s3 Hr; [|done]. apply wp_ret. destruct Hr as (a' & m & Ha & Hs). by exists a', m.
Qed.

(** The latch is checked first; behind it the answer is brought to the DNS
    state that fits it. *)
Lemma wp_guarded {A} ok (m : M E (result A Error)) (s : Mgr E) :
  Good s -> (forall cur n, Inv [] cur [] n s -> wp m (ends ok) Good s) ->
  wp (do ctrl ← get_ctrl;
      match reject_quarantine ctrl with
      | Err e => mgr_ret (Err e)
      | Ok _ => do r ← m; finish_dns_converge r
      end) (ends ok) Good s.
Proof.
  intros (cur & q & n & HI) Hm. apply wp_bind, wp_get_ctrl.
  unfold reject_quarantine, quarantine_error. rewrite (inv_quarantine _ _ _ _ _ HI).
  destruct q as [|x q]; [|apply wp_ret; good].
  apply wp_bind. eapply wp_mono; [by eapply Hm| |done]. intros r s1 Hr.
  eapply wp_mono; [by apply (wp_finish ok)| |done]. by intros r' s2 [Hr' _].
Qed.

Lemma wp_switch spec s : Good s -> wp (switch spec) (ends (runs spec)) Good s.
Proof. intros HG. apply wp_guarded; [done|]. intros. by eapply wp_switch_locked. Qed.

Lemma wp_restart s :
  Good s ->
  wp restart (ends (fun _ act => c_last_spec (m_ctrl s) = Some (ep_source_spec (a_plan act)))) Good s.
Proof.
  intros HG. unfold restart. destruct HG as (cur & q & n & HI). apply wp_bind, wp_get_ctrl.
  unfold reject_quarantine, quarantine_error. rewrite (inv_quarantine _ _ _ _ _ HI).
  destruct q as [|x q]; [|apply wp_ret; good].
  destruct (c_last_spec (m_ctrl s)) as [spec|]; [|apply wp_ret; good].
  apply wp_bind. eapply wp_mono; [by eapply wp_switch_locked| |done]. intros r s1 Hr.
  eapply wp_mono; [by apply (wp_finish (runs spec))| |done]. intros r' s2 [Hr' _].
  eapply ends_weaken; [|done]. by intros a act <-.
Qed.

End Replace.
