(* ===== verification/ManagerReconcile.v ===== *)
(** * Applying, reconciling and recovering keep the invariant

    The rules of [apply.rs], [reconcile.rs] and [quarantine.rs]: an accepted
    apply leaves the runtime whose revision it reports, a rollback the old one,
    and a recovery that succeeds leaves nothing latched. *)

From S2P Require Export ManagerReplace.
Open Scope rust_scope.
Open Scope mgr_scope.

(** The revision an outcome reports as running. *)
Fixpoint outcome_revision (o : ApplyOutcome) : ConfigRevision :=
  match o with
  | Started r | Noop r | Patched r | Reloaded r | Restarted r | Switched r | RolledBack r _ => r
  | ApplyDurabilityUncertain o _ => outcome_revision o
  end.

(** The desired runtime did not come up and the old one was launched again. *)
Fixpoint rolled_back (o : ApplyOutcome) : bool :=
  match o with
  | RolledBack _ _ => true
  | ApplyDurabilityUncertain o _ => rolled_back o
  | _ => false
  end.

(** The slot holds a process that was launched for this outcome; for the others
    the process that ran before runs on. *)
Fixpoint launched_anew (o : ApplyOutcome) : bool :=
  match o with
  | Started _ | Restarted _ | Switched _ | RolledBack _ _ => true
  | Noop _ | Patched _ | Reloaded _ => false
  | ApplyDurabilityUncertain o _ => launched_anew o
  end.

(** The slot an apply of [input] answers [o] with, where [before] ran. *)
Record applied (before : option Instance) (input : InstanceSpec) (o : ApplyOutcome) (act : Active) : Prop := {
  applied_revision : outcome_revision o = ep_revision (a_plan act);
  applied_spec : rolled_back o = false -> ep_source_spec (a_plan act) = input;
  applied_anew : launched_anew o = true -> launched_for (a_plan act) (a_instance act);
  applied_kept : launched_anew o = false -> before = Some (a_instance act);
}.

Section Reconcile.
Context {E : Type} `{ManagerHost E}.
Implicit Types (s : Mgr E).

Ltac good := by eapply Good_intro.

Lemma applied_warning before input o w act :
  applied before input o act -> applied before input (with_durability_warning o w) act.
Proof. destruct w; [|done]. intros []. by split. Qed.

Lemma ends_durable before input w (r : result ApplyOutcome Error) s :
  ends (applied before input) r s -> ends (applied before input) (with_durability_result r w) s.
Proof.
  destruct r as [o|err]; [|by destruct w]. cbn. intros (act & n & HI & Ho). exists act, n.
  split; [done|]. by apply applied_warning.
Qed.

Lemma wp_durable before input (m : M E (result ApplyOutcome Error)) w s :
  wp m (ends (applied before input)) Good s ->
  wp (do r ← m; mgr_ret (with_durability_result r w)) (ends (applied before input)) Good s.
Proof.
  intros Hm. apply wp_bind. eapply wp_mono; [exact Hm| |done]. intros r s1 Hr.
  by apply wp_ret, ends_durable.
Qed.

(** ** The slot keeps its process and gets another plan of the epoch *)

Lemma Inv_set_plan L a p q n s :
  Inv L (Some a) q n s -> ep_epoch p = ep_epoch (a_plan a) ->
  Inv L (Some {| a_instance := a_instance a; a_plan := p |}) q n
    (on_ctrl (set_current (Some {| a_instance := a_instance a; a_plan := p |})) s).
Proof.
  intros [] Hp. split; cbn; try done.
  - intros i Hi. destruct (inv_covered i Hi) as [?|[(b & [= <-] & <-)|?]]; [by left| |tauto].
    right. left. by eexists.
  - intros b [= <-]. cbn. rewrite Hp. by apply inv_coherent.
Qed.

Lemma quiet_last_spec s spec L cur q n :
  Inv L cur q n s -> Inv L cur q n (on_ctrl (set_last_spec spec) s).
Proof. intros []. by split. Qed.

(** ** Compensation *)

Lemma wp_install_running i plan n (Q : () -> Mgr E -> Prop) s :
  Inv [i] None [] n s -> in_epoch i = ep_epoch plan -> N.pos (ep_epoch plan) <= n ->
  (forall s', Inv [] (Some {| a_instance := i; a_plan := plan |}) [] n s' -> Q tt s') ->
  wp (install_running i plan) Q Good s.
Proof.
  intros HI Hi Hn HQ. unfold install_running, publish_active. apply wp_bind. quiet_step.
  apply wp_bind. eapply wp_install; [done..|]. intros s1 HI1. quiet_as []. by apply HQ.
Qed.

Lemma wp_rollback before input old text context on_success n s :
  Inv [] None [] n s -> N.pos (ep_epoch old) <= n -> neutral on_success ->
  wp (rollback old text context on_success) (ends (applied before input)) Good s.
Proof.
  intros HI Hn Hs. unfold rollback. apply wp_bind. quiet_step. apply wp_bind.
  eapply wp_mono; [by eapply wp_spawn_replacement| |done]. intros [i|err] s1 Hr.
  - destruct Hr as [HI1 Hl]. apply wp_bind. eapply wp_install_running; [done|by apply launched_epoch|done|].
    intros s2 HI2. apply wp_bind, wp_neutral; [done|]. intros [] s3 Hq; carry Hq.
    apply wp_ret. by do 2 eexists.
  - cbn in Hr. destruct (is_stop_unconfirmed err).
    + destruct Hr as (L & HI1 & HL). by eapply wp_latch_ends.
    + run. good.
Qed.

Lemma wp_restart_with_compensation before input desired backup a n s :
  ep_source_spec desired = input ->
  Inv [] (Some a) [] n s -> N.pos (ep_epoch desired) <= n ->
  wp (restart_with_compensation desired backup) (ends (applied before input)) Good s.
Proof.
  intros Hspec HI Hn. unfold restart_with_compensation.
  pose proof (inv_coherent _ _ _ _ _ HI a eq_refl) as (_ & Hold & _).
  apply wp_try. quiet_as [[]|?]; [|good]. apply wp_bind. eapply wp_retire; [done|done| |].
  - intros a' [= <-] s1 HI1. apply wp_bind. quiet_step. apply wp_bind.
    eapply wp_mono; [by eapply wp_spawn_replacement| |done]. intros [i|err] s2 Hr.
    + destruct Hr as [HI2 Hl]. apply wp_bind. eapply wp_install_running; [done|by apply launched_epoch|done|].
      intros s3 HI3. run. by do 2 eexists.
    + cbn in Hr. destruct (is_stop_unconfirmed err).
      * destruct Hr as (L & HI2 & HL). by eapply wp_latch_ends.
      * cbv zeta. apply wp_bind. quiet_as [restore|?]; [|run; good].
        apply wp_durable. eapply wp_rollback; [done|done|neutral].
  - intros a' err [= <-] Hep s1 HI1. cbn [rtf_error rtf_epoch]. cbv zeta.
    destruct (is_stop_unconfirmed err); [|run; good].
    eapply wp_latch_ends; [done|]. by intros i ->%list_elem_of_singleton.
Qed.

Lemma wp_switch_with_compensation before input sn a n s :
  Inv [] (Some a) [] n s -> wp (switch_with_compensation input sn) (ends (applied before input)) Good s.
Proof.
  intros HI. unfold switch_with_compensation. apply wp_bind.
  eapply wp_next; [done|by intros; good|]. intros e s1 HI1 HF1 _.
  pose proof (inv_coherent _ _ _ _ _ HI1 a eq_refl) as (_ & Hold & _).
  apply wp_try. eapply wp_prepare_launch; [done|done|lia|].
  intros [desired|?] s2 HI2 Hd; [|good]. destruct (Hd desired eq_refl) as [Hd' Hspec].
  apply wp_bind. quiet_as [[]|?]; [|run; good]. apply wp_bind. eapply wp_retire; [done|done| |].
  - intros a' [= <-] s3 HI3. apply wp_bind. quiet_step. apply wp_bind.
    eapply wp_mono; [by eapply wp_spawn_replacement| |done]. intros [i|err] s4 Hr.
    + destruct Hr as [HI4 Hl]. apply wp_bind. eapply wp_install_running; [done|by apply launched_epoch|by rewrite Hd'|].
      intros s5 HI5. run; by do 2 eexists.
    + cbn in Hr. destruct (is_stop_unconfirmed err).
      * destruct Hr as (L & HI4 & HL). by eapply wp_latch_ends.
      * apply wp_bind. quiet_step. eapply wp_rollback; [done|done|neutral].
  - intros a' err [= <-] Hep s3 HI3. cbn [rtf_error rtf_epoch]. cbv zeta.
    destruct (is_stop_unconfirmed err); apply wp_bind; quiet_step; [|run; good].
    eapply wp_latch_ends; [done|]. by intros i ->%list_elem_of_singleton.
Qed.

(** ** In place *)

Lemma wp_prepare_apply current input sn L cur q n (Q : result PreparedApply Error -> Mgr E -> Prop) s :
  Inv L cur q n s ->
  (forall r s', Inv L cur q n s' ->
     (forall p, r = Ok p -> ep_epoch (pa_plan p) = ep_epoch (a_plan current)
                            /\ ep_source_spec (pa_plan p) = input
                            /\ Checked (sg_path (pa_staged p)) s') -> Q r s') ->
  wp (prepare_apply current input sn) Q Good s.
Proof.
  intros HI HQ. unfold prepare_apply. cbv zeta. apply wp_try. quiet_as [[]|?]; [|by apply HQ].
  apply wp_try. quiet_as [resolved|?]; [|by apply HQ]. apply wp_try. quiet_as [prepared|?]; [|by apply HQ].
  apply wp_try, wp_stage_and_check. intros [st|?] s1 Hq1 Hst; carry Hq1; [|by apply HQ].
  apply wp_ret, HQ; [done|]. intros p [= <-]. split; [done|]. split; [done|by apply Hst].
Qed.

(** The changes that are made in place. *)
Definition in_place (change : ConfigChange) : bool :=
  match change with ChangePatch _ _ | ChangeReload => true | ChangeNoop | ChangeSwitch => false end.

Lemma wp_commit_in_place change prepared backup input a n s :
  ep_source_spec (pa_plan prepared) = input ->
  in_place change = true -> Inv [] (Some a) [] n s ->
  ep_epoch (pa_plan prepared) = ep_epoch (a_plan a) -> Checked (sg_path (pa_staged prepared)) s ->
  wp (commit_in_place change prepared backup) (ends (applied (Some (a_instance a)) input)) Good s.
Proof.
  intros Hspec Hc HI Hp Hch. pose proof (inv_coherent _ _ _ _ _ HI a eq_refl) as (_ & Hold & _).
  unfold commit_in_place. cbv zeta. apply wp_bind, wp_get_ctrl. rewrite (inv_current _ _ _ _ _ HI).
  apply wp_bind, wp_commit_replace; [done|]. intros [commit|err] s1 Hq1; carry Hq1; [|run; good].
  apply wp_bind. quiet_as [|].
  - apply wp_bind.
    apply (wp_mono _ (fun o s' => (outcome_revision o = ep_revision (pa_plan prepared) /\ launched_anew o = false) /\ s' = t) _ Good);
      [by destruct change| |done].
    intros o s2 [[Ho Hb] ->]. apply wp_bind, wp_modify_ctrl.
    apply (Inv_set_plan _ _ _ _ _ _ HI) in Hp as HI2. unfold publish_active.
    apply wp_bind. quiet_step. apply wp_bind. quiet_step.
    apply wp_bind, wp_modify_ctrl. apply (quiet_last_spec _ (Some (ep_source_spec (pa_plan prepared)))) in HI2.
    run. do 2 eexists. split; [done|]. apply applied_warning. split; cbn; [done|done|by rewrite Hb|done].
  - apply wp_durable. eapply wp_restart_with_compensation; [done|done|by rewrite Hp].
Qed.

Lemma wp_apply_in_place change prepared input a n s :
  ep_source_spec (pa_plan prepared) = input ->
  in_place change = true -> Inv [] (Some a) [] n s ->
  ep_epoch (pa_plan prepared) = ep_epoch (a_plan a) -> Checked (sg_path (pa_staged prepared)) s ->
  wp (apply_in_place a change prepared) (ends (applied (Some (a_instance a)) input)) Good s.
Proof.
  intros Hspec Hc HI Hp Hch. unfold apply_in_place. cbv zeta. apply wp_bind. quiet_as [backup|?]; [|run; good].
  apply wp_bind. quiet_as [[]|?]; [|run; good]. apply wp_bind. quiet_as [[]|?]; [|run; good].
  by eapply wp_commit_in_place.
Qed.

Lemma wp_apply_locked input expected cur n s :
  Inv [] cur [] n s -> wp (apply_locked input expected) (ends (applied (a_instance <$> cur) input)) Good s.
Proof.
  intros HI. unfold apply_locked. apply wp_bind, wp_get_ctrl. rewrite (inv_current _ _ _ _ _ HI).
  destruct cur as [a|]; [|apply wp_ret; good]. apply wp_bind. quiet_step.
  destruct (is_terminal _); [apply wp_ret; good|]. cbv zeta. apply wp_try. quiet_as [[]|?]; [|good].
  apply wp_try. quiet_as [snapshot|?]; [|good]. apply wp_try. eapply wp_prepare_apply; [done|].
  intros [prepared|?] s1 HI1 Hp; [|good]. destruct (Hp prepared eq_refl) as (He & Hspec & Hch).
  destruct (classify _ _) as [change|?]; [|run; good]. destruct change as [|patch projection| |].
  - apply wp_bind, wp_modify_ctrl.
    apply (Inv_set_plan _ _ (with_source_spec input (a_plan a))) in HI1; [|done].
    apply wp_bind, wp_modify_ctrl. apply (quiet_last_spec _ (Some input)) in HI1.
    run. do 2 eexists. done.
  - by eapply wp_apply_in_place.
  - by eapply wp_apply_in_place.
  - apply wp_bind. quiet_step. by eapply wp_switch_with_compensation.
Qed.

Lemma wp_apply_config input expected s :
  Good s -> wp (apply_config input expected) (ends (applied (a_instance <$> c_current (m_ctrl s)) input)) Good s.
Proof.
  intros HG. apply wp_guarded; [done|]. intros cur n HI. rewrite (inv_current _ _ _ _ _ HI). by eapply wp_apply_locked.
Qed.

Lemma wp_reconcile_locked spec expected cur n s :
  Inv [] cur [] n s -> wp (reconcile_locked spec expected) (ends (applied (a_instance <$> cur) spec)) Good s.
Proof.
  intros HI. unfold reconcile_locked. apply wp_bind. eapply wp_runtime_alive; [done|].
  intros [|] s1 HI1 _; [by eapply wp_apply_locked|]. destruct expected; [apply wp_ret; good|].
  apply wp_try. eapply wp_discard_stale; [done| |by intros; good]. intros s2 HI2. apply wp_try.
  eapply wp_mono; [by eapply wp_start_locked| |done]. intros [[]|err] s3; cbn.
  - intros (a & m & HI3 & Hs & Hl). apply wp_bind, wp_get_ctrl. rewrite (inv_current _ _ _ _ _ HI3).
    apply wp_ret. by exists a, m.
  - intros (q & m & HI3). good.
Qed.

Lemma wp_reconcile spec expected s :
  Good s -> wp (reconcile spec expected) (ends (applied (a_instance <$> c_current (m_ctrl s)) spec)) Good s.
Proof.
  intros HG. apply wp_guarded; [done|]. intros cur n HI. rewrite (inv_current _ _ _ _ _ HI). by eapply wp_reconcile_locked.
Qed.

End Reconcile.
