(* ===== verification/ManagerRecovery.v ===== *)
(** * Recovering the latch ([manager/quarantine.rs])

    A latched epoch leaves the latch when its process is proven dead and its
    artifacts are gone; a recovery that fails keeps what it could not clear. *)

From S2P Require Export ManagerReconcile.
Open Scope rust_scope.
Open Scope mgr_scope.

(** ** The latch as a list of epochs *)

Lemma mark_death_proven_epochs e q : q_epochs (mark_death_proven e q) = q_epochs q.
Proof. induction q as [|x q IH]; cbn; [done|]. case_decide; cbn; [done|by rewrite IH]. Qed.

Lemma mark_death_proven_elem e q x :
  x ∈ mark_death_proven e q -> q_death_proven x = true ->
  q_epoch x = e \/ exists y, y ∈ q /\ q_epoch y = q_epoch x /\ q_death_proven y = true.
Proof.
  induction q as [|y q IH]; cbn; [by intros Hx%elem_of_nil|]. case_decide as Hy.
  - intros [->|Hx]%elem_of_cons Hp; [by left|]. right. exists x. split; [by right|done].
  - intros [->|Hx]%elem_of_cons Hp; [right; exists y; split; [by left|done]|].
    destruct (IH Hx Hp) as [?|(z & Hz & ?)]; [by left|]. right. exists z. split; [by right|done].
Qed.

Lemma retain_other_elem e q x : x ∈ retain_other e q <-> x ∈ q /\ q_epoch x <> e.
Proof.
  unfold retain_other. rewrite !list_elem_of_In, filter_In, negb_true_iff, bool_decide_eq_false. done.
Qed.

Lemma retain_other_epochs e q :
  q_epochs (retain_other e q) = List.filter (fun e' => negb (bool_decide (e' = e))) (q_epochs q).
Proof.
  induction q as [|x q IH]; cbn; [done|]. destruct (bool_decide (q_epoch x = e)); cbn; by rewrite <- IH.
Qed.

Lemma filter_other_id e (l : list Epoch) :
  e ∉ l -> List.filter (fun e' => negb (bool_decide (e' = e))) l = l.
Proof.
  induction l as [|x l IH]; cbn; [done|]. intros [Hx Hl]%not_elem_of_cons.
  rewrite bool_decide_eq_false_2 by done. cbn. by rewrite IH.
Qed.

(** Dropping one epoch of a duplicate-free latch. *)
Lemma retain_other_middle e q (l1 l2 : list Epoch) :
  q_epochs q = l1 ++ e :: l2 -> NoDup (q_epochs q) -> q_epochs (retain_other e q) = l1 ++ l2.
Proof.
  intros Hq Hnd. rewrite retain_other_epochs. rewrite Hq in *.
  apply NoDup_app in Hnd as (_ & H12 & [Hn2 _]%NoDup_cons).
  rewrite List.filter_app. cbn. rewrite bool_decide_eq_true_2 by done. cbn.
  rewrite !filter_other_id; [done|done|]. intros Hin. apply (H12 e Hin). by left.
Qed.

Section Recovery.
Context {E : Type} `{ManagerHost E}.
Implicit Types (s : Mgr E).

Ltac good := by eapply Good_intro.

(** No process of the epoch may be alive. *)
Definition Dead (e : Epoch) (s : Mgr E) : Prop := forall i, i ∈ live (m_events s) -> in_epoch i <> e.
Definition shrinks (s s' : Mgr E) : Prop := forall i, i ∈ live (m_events s') -> i ∈ live (m_events s).

Lemma shrinks_quiet s s' : quiet s s' -> shrinks s s'.
Proof. intros [] i. by rewrite quiet_live. Qed.
Lemma shrinks_trans s1 s2 s3 : shrinks s1 s2 -> shrinks s2 s3 -> shrinks s1 s3.
Proof. intros H1 H2 i Hi. by apply H1, H2. Qed.
Lemma Dead_shrinks e s s' : shrinks s s' -> Dead e s -> Dead e s'.
Proof. intros Hs Hd i Hi. by apply Hd, Hs. Qed.

(** An answer that proves the death of the recorded process. *)
Definition proves_death (r : result OrphanReapOutcome string) : bool :=
  match r with Ok ReapAlreadyExited | Ok ReapKilled => true | _ => false end.

Lemma live_reaped e r older :
  live (EvReaped e r :: older) = if proves_death r then drop_epoch e (live older) else live older.
Proof. by destruct r as [[]|]. Qed.

Lemma wp_reap L cur q n e Q K s :
  Inv L cur q n s ->
  (forall r s', Inv L cur q n s' -> shrinks s s' -> (proves_death r = true -> Dead e s') -> Q r s') ->
  wp (reap e) Q K s.
Proof.
  intros HI HQ. unfold reap. apply wp_bind, wp_neutral; [neutral|]. intros r s1 Hq1.
  pose proof (shrinks_quiet _ _ Hq1) as Hs1. apply (Inv_quiet _ _ _ _ _ _ Hq1) in HI.
  unfold wp. cbn -[live event_ok]. set (s2 := add_event _ s1).
  assert (live (m_events s2) = if proves_death r then drop_epoch e (live (m_events s1))
                               else live (m_events s1)) as Hl by apply live_reaped.
  assert (shrinks s1 s2) as Hs2.
  { intros i. rewrite Hl. destruct (proves_death r); [|done]. by intros [? _]%elem_of_drop_epoch. }
  apply HQ; [|by eapply shrinks_trans|].
  - destruct HI. destruct inv_serial as [Hnd Hser], inv_trace as [Ht Hr].
    split; cbn -[live event_ok]; try done.
    + intros i Hi. by apply inv_covered, Hs2.
    + split; [|by intros i Hi; apply Hser, Hs2]. rewrite live_reaped.
      destruct (proves_death r); [by apply NoDup_List_filter|done].
    + intros x Hx Hp i Hi. apply (inv_proven x Hx Hp). by apply Hs2.
  - intros Hp i. rewrite Hl, Hp. by intros [_ ?]%elem_of_drop_epoch.
Qed.

Lemma wp_mark L cur q n e Q K s :
  Inv L cur q n s -> Dead e s ->
  (forall s', Inv L cur (mark_death_proven e q) n s' -> m_events s' = m_events s -> Q tt s') ->
  wp (modify_ctrl (fun c => set_quarantine (mark_death_proven e (c_quarantine c)) c)) Q K s.
Proof.
  intros HI Hd HQ. apply wp_modify_ctrl. apply HQ; [|done]. destruct HI.
  split; cbn; rewrite ?inv_quarantine, ?mark_death_proven_epochs; try done.
  intros x Hx Hp i Hi. destruct (mark_death_proven_elem _ _ _ Hx Hp) as [->|(y & Hy & <- & Hpy)].
  - by apply Hd.
  - by apply (inv_proven y).
Qed.

Lemma wp_retain L cur q n e Q K s :
  Inv L cur q n s -> Dead e s ->
  (forall s', Inv L cur (retain_other e q) n s' -> m_events s' = m_events s -> Q tt s') ->
  wp (modify_ctrl (fun c => set_quarantine (retain_other e (c_quarantine c)) c)) Q K s.
Proof.
  intros HI Hd HQ. apply wp_modify_ctrl. apply HQ; [|done]. destruct HI.
  assert (forall e', e' ∈ q_epochs (retain_other e q) -> e' ∈ q_epochs q) as Hsub.
  { intros e' (x & -> & [Hx _]%retain_other_elem)%list_elem_of_fmap. apply list_elem_of_fmap. by eexists. }
  split; cbn; rewrite ?inv_quarantine; try done.
  - intros i Hi. destruct (inv_covered i Hi) as [?|[?|(x & Hx & Hin)%list_elem_of_fmap]]; [by left|tauto|].
    right. right. apply list_elem_of_fmap. exists x. split; [done|]. apply retain_other_elem.
    split; [done|]. rewrite <- Hx. by apply Hd.
  - intros a Ha. destruct (inv_coherent a Ha) as (? & ? & Hn). split; [done|]. split; [done|].
    intros Hin. by apply Hn, Hsub.
  - intros x [Hx _]%retain_other_elem. by apply inv_proven.
  - rewrite retain_other_epochs. by apply NoDup_List_filter.
Qed.

(** ** The loop *)

(** Where the loop stands: the latch holds the entries that failed and those
    that are still to come. *)
Record at_entries (cur : option Active) (n : N) (failed : list Epoch) (failures : list string)
    (rest : list QuarantinedEpoch) (s : Mgr E) : Prop := {
  at_inv : exists q, Inv [] cur q n s /\ q_epochs q = failed ++ q_epochs rest;
  at_proven : forall x, x ∈ rest -> q_death_proven x = true -> Dead (q_epoch x) s;
  at_failures : failures = [] <-> failed = [];
}.

Definition recovered cur n rest (failures : list string) (s : Mgr E) : Prop :=
  exists failed, at_entries cur n failed failures rest s.

(** The tail of an entry whose process is dead. *)
Lemma wp_clean_entry cur n failed failures entry rest q s :
  Inv [] cur q n s -> q_epochs q = failed ++ q_epoch entry :: q_epochs rest ->
  Dead (q_epoch entry) s ->
  (forall x, x ∈ rest -> q_death_proven x = true -> Dead (q_epoch x) s) ->
  (failures = [] <-> failed = []) ->
  wp (clean_entry entry failures) (recovered cur n rest) Good s.
Proof.
  intros HI Hq Hd Hrest Hiff. unfold clean_entry. apply wp_bind, wp_neutral; [neutral|]. intros r s1 Hq1.
  pose proof (shrinks_quiet _ _ Hq1) as Hs1. apply (Inv_quiet _ _ _ _ _ _ Hq1) in HI.
  assert (forall x, x ∈ rest -> q_death_proven x = true -> Dead (q_epoch x) s1) as Hrest1.
  { intros x Hx Hp. eapply Dead_shrinks; [done|by apply Hrest]. }
  destruct r as [[]|err].
  - apply wp_bind. eapply wp_retain; [done|by eapply Dead_shrinks|]. intros s2 HI2 Hev.
    apply wp_ret. exists failed. split; [|by intros x Hx Hp i; rewrite Hev; apply Hrest1|done].
    exists (retain_other (q_epoch entry) q). split; [done|].
    apply retain_other_middle; [done|]. by apply (inv_distinct _ _ _ _ _ HI).
  - apply wp_ret. exists (failed ++ [q_epoch entry]). split; [|done|].
    + exists q. split; [done|]. by rewrite <- app_assoc.
    + split; intros Hn; by apply app_nil in Hn as [_ ?].
Qed.

Lemma wp_recover_entry cur n failed failures entry rest s :
  at_entries cur n failed failures (entry :: rest) s ->
  wp (recover_entry entry failures) (recovered cur n rest) Good s.
Proof.
  intros [(q & HI & Hq) Hproven Hiff]. unfold recover_entry.
  assert (forall x, x ∈ rest -> q_death_proven x = true -> Dead (q_epoch x) s) as Hrest.
  { intros x Hx. apply Hproven. by right. }
  destruct (q_death_proven entry) eqn:Ep.
  { eapply wp_clean_entry; [done..| |done|done]. apply Hproven; [by left|done]. }
  apply wp_bind. eapply wp_reap; [done|]. intros r s1 HI1 Hs1 Hdead.
  assert (forall x, x ∈ rest -> q_death_proven x = true -> Dead (q_epoch x) s1) as Hrest1.
  { intros x Hx Hp. eapply Dead_shrinks; [done|by apply Hrest]. }
  assert (forall text, wp (entry_failed entry failures text) (recovered cur n rest) Good s1) as Hfail.
  { intros text. apply wp_ret. exists (failed ++ [q_epoch entry]). split; [|done|].
    - exists q. split; [done|]. by rewrite <- app_assoc.
    - split; intros Hn; by apply app_nil in Hn as [_ ?]. }
  destruct r as [[| |]|err]; [apply Hfail| | |apply Hfail].
  all: apply wp_bind; (eapply wp_mark; [done|by apply Hdead|]); intros s2 HI2 Hev.
  all: eapply wp_clean_entry; [done|by rewrite mark_death_proven_epochs| | |done].
  all: try (unfold Dead; rewrite Hev; by apply Hdead).
  all: intros x Hx Hp; unfold Dead; rewrite Hev; by apply Hrest1.
Qed.

Lemma wp_recover_entries cur n rest : forall failed failures s,
  at_entries cur n failed failures rest s ->
  wp (recover_entries rest failures) (recovered cur n []) Good s.
Proof.
  induction rest as [|entry rest IH]; intros failed failures s Hat; cbn [recover_entries].
  - apply wp_ret. by exists failed.
  - apply wp_bind. eapply wp_mono; [by eapply wp_recover_entry| |done].
    intros failures' s1 [failed' Hat']. by eapply IH.
Qed.

Lemma wp_recover_quarantine s :
  Good s ->
  wp recover_quarantine
    (fun r s' => Good s' /\ (is_ok r = true -> c_quarantine (m_ctrl s') = [])) Good s.
Proof.
  intros (cur & q & n & HI). unfold recover_quarantine. apply wp_bind, wp_get_ctrl.
  rewrite (inv_quarantine _ _ _ _ _ HI). case_decide as Hl.
  { apply wp_ret. split; [good|]. intros _. rewrite (inv_quarantine _ _ _ _ _ HI). by destruct q. }
  apply wp_bind. eapply wp_mono; [apply (wp_recover_entries cur n q [])| |done].
  { split; [by exists q| |done]. intros x Hx Hp i Hi. by apply (inv_proven _ _ _ _ _ HI x). }
  intros failures s1 [failed [(q1 & HI1 & Hq1) _ Hiff]]. cbn in Hq1. rewrite app_nil_r in Hq1.
  case_decide as Hf.
  - apply length_zero_iff_nil in Hf. apply Hiff in Hf as ->. destruct q1; [|done].
    apply wp_try. quiet_as [[]|?].
    + apply wp_bind. quiet_step. apply wp_ret. split; [good|]. intros _. by apply (inv_quarantine _ _ _ _ _ HI1).
    + split; [good|done].
  - apply wp_bind, wp_get_ctrl. rewrite (inv_quarantine _ _ _ _ _ HI1). destruct q1 as [|x q1].
    + exfalso. apply Hf. cbn in Hq1. symmetry in Hq1. apply Hiff in Hq1 as ->. done.
    + apply wp_ret. split; [good|done].
Qed.

End Recovery.
