(* ===== verification/ManagerProperties.v ===== *)
(** * What the manager guarantees

    The properties of every reachable manager state and of every accepted
    transaction, each with a run of the scripted host. *)

From S2P Require Export ManagerOps ManagerRecovery.
Open Scope rust_scope.
Open Scope mgr_scope.

(** ** Traces *)

Lemma trace_ok_at newer ev older : trace_ok (newer ++ ev :: older) -> event_ok ev older /\ trace_ok older.
Proof. induction newer as [|x newer IH]; cbn; [by intros []|]. intros [_ Ht]. by apply IH. Qed.

(** An override on the host has a visible record. *)
Lemma overridden_recorded events o :
  trace_ok events -> overridden events = Some o -> is_Some (last_record events).
Proof.
  induction events as [|ev events IH]; [done|]. cbn -[event_ok]. intros [Hev Ht].
  destruct ev; try (by apply IH).
  - intros Ho. destruct record as [r|]; [by exists r|]. cbn in Hev. congruence.
  - intros _. cbn in Hev. destruct Hev as (r & Hr & _). by exists r.
  - destruct ok; [done|]. by apply IH.
Qed.

Lemma drop_instance_length i l : (length (drop_instance i l) <= length l)%nat.
Proof. apply List.filter_length_le. Qed.
Lemma drop_epoch_length e l : (length (drop_epoch e l) <= length l)%nat.
Proof. apply List.filter_length_le. Qed.

Lemma trace_two_processes events : trace_ok events -> (length (live events) <= 2)%nat.
Proof.
  induction events as [|ev events IH]; [cbn; lia|]. cbn -[event_ok]. intros [Hev Ht].
  specialize (IH Ht). destruct ev; try done.
  - cbn in *. lia.
  - cbn. destruct (unproven r); [done|]. pose proof (drop_instance_length i (live events)). lia.
  - cbn. pose proof (drop_epoch_length epoch (live events)). by destruct r as [[]|]; try lia.
Qed.

Section Surface.
Context {E : Type} `{ManagerHost E}.
Implicit Types (s : Mgr E).

Lemma wp_run {A} (m : M E A) Q K s a s' : wp m Q K s -> m s = (Return a, s') -> Q a s'.
Proof. unfold wp. intros Hw Hm. by rewrite Hm in Hw. Qed.

Lemma wp_and {A} (m : M E A) Q Q' K s :
  wp m Q K s -> wp m Q' K s -> wp m (fun a s' => Q a s' /\ Q' a s') K s.
Proof. unfold wp. destruct (m s) as [[a|msg] s']; tauto. Qed.

Lemma wp_answer {A} (f : A -> Answer) (m : M E (result A Error)) ok s :
  wp m (fun r s' => ok (map_ok f r) s') Good s -> wp (answer f m) ok Good s.
Proof. intros Hm. apply wp_bind. eapply wp_mono; [exact Hm| |done]. intros r s' Hr. by apply wp_ret. Qed.

(** ** Every transaction keeps the invariant *)

Lemma ends_good {A} ok (r : result A Error) s : ends ok r s -> Good s.
Proof. destruct r; [|done]. intros (act & n & HI & _). by eapply Good_intro. Qed.

Lemma wp_ends_good {A} ok (f : A -> Answer) (m : M E (result A Error)) s :
  wp m (ends ok) Good s -> wp (answer f m) (fun _ => Good) Good s.
Proof. intros Hm. apply wp_answer. eapply wp_mono; [exact Hm| |done]. intros r s'. apply ends_good. Qed.

Lemma wp_perform op s : Good s -> wp (perform op) (fun _ => Good) Good s.
Proof.
  intros HG. destruct op; cbn [perform].
  - by eapply wp_ends_good, wp_start.
  - by apply wp_answer, wp_stop_op.
  - by eapply wp_ends_good, wp_restart.
  - by eapply wp_ends_good, wp_switch.
  - by eapply wp_ends_good, wp_apply_config.
  - by eapply wp_ends_good, wp_reconcile.
  - apply wp_answer. eapply wp_mono; [by apply wp_recover_quarantine| |done]. by intros r s' [? _].
  - by apply wp_answer, wp_shutdown.
Qed.

Lemma Good_pump s : Good s -> Good (pump s).
Proof.
  intros HG. destruct (pump_same s) as (H1 & H2 & H3). eapply Good_quiet; [|done]. by apply quiet_same.
Qed.

Lemma Good_new n env : Good (manager_new n env).
Proof.
  exists None, [], n. unfold manager_new. destruct (mh_now env) as [now env'].
  split; cbn; try done; try (by intros ? ?%elem_of_nil); [|by apply NoDup_nil].
  split; [by apply NoDup_nil|]. by intros i Hi%elem_of_nil.
Qed.

Lemma reachable_good s : reachable s -> Good s.
Proof.
  induction 1 as [n env|s op _ IH|s _ IH]; [apply Good_new| |by apply Good_pump].
  pose proof (wp_perform op s IH) as Hw. unfold wp in Hw.
  destruct (perform op s) as [[r|msg] s']; [done|]. by destruct Hw.
Qed.

Lemma reachable_inv s :
  reachable s -> Inv [] (c_current (m_ctrl s)) (c_quarantine (m_ctrl s)) (c_last (m_ctrl s)) s.
Proof.
  intros (cur & q & n & HI)%reachable_good. pose proof HI as [-> -> -> _ _ _ _ _ _ _]. done.
Qed.

(** ** DNS *)

(** The override that may be on the host is the one the runtime in the slot
    asks for, under its epoch. *)
Definition settled (s : Mgr E) : Prop :=
  match overridden (m_events s) with
  | None => True
  | Some (intent, epoch) =>
      exists active, c_current (m_ctrl s) = Some active
        /\ mh_dns_desired (ep_effective_document (a_plan active)) = Some intent
        /\ in_epoch (a_instance active) = epoch
  end.

Lemma wp_dns_restore_settles K s :
  trace_wf s ->
  wp dns_restore (fun r s' => is_ok r = true -> overridden (m_events s') = None) K s.
Proof.
  intros [Ht Hr]. unfold dns_restore. apply wp_bind, wp_get_ctrl.
  destruct (c_dns_record (m_ctrl s)) as [record|].
  - destruct (negb mh_dns); [by apply wp_ret|].
    apply wp_bind, wp_neutral; [neutral|]. intros _ s1 _.
    apply wp_bind, wp_neutral; [neutral|]. intros [|[[]|e]] s2 _.
    + by apply wp_bind, wp_emit, wp_ret.
    + apply wp_bind, wp_emit, wp_bind.
      destruct (persist_none_step (add_event (EvDnsRestored record true) s2)) as (r & s3 & Hp & _ & Ho); [done|].
      unfold wp at 1. rewrite Hp. by apply wp_ret.
    + by apply wp_bind, wp_emit, wp_ret.
  - apply wp_ret. intros _. destruct (overridden (m_events s)) eqn:Eo; [|done].
    apply overridden_recorded in Eo as [r Hr']; [|done]. congruence.
Qed.

(** Writing a record leaves the override alone. *)
Lemma persist_keeps_override r s :
  exists x s', persist_dns_record (Some r) s = (Return x, s') /\ quiet s s'
               /\ overridden (m_events s') = overridden (m_events s).
Proof.
  destruct (neutral_persist r s) as (x & s' & Hp & Hq). exists x, s'. split; [done|]. split; [done|].
  revert Hp. unfold persist_dns_record, write_dns_record, mgr_bind.
  destruct (host_step (mh_record_stage r) s) as ([[]|e1] & s1 & -> & _ & He1); cbn.
  - destruct (host_step mh_record_exists s1) as ([[|]|e2] & s2 & -> & _ & He2); cbn.
    + destruct (host_step mh_record_replace s2) as ([[]|e3] & s3 & -> & _ & He3).
      * destruct (host_step mh_sync_dir s3) as (? & s4 & -> & _ & He4). intros [= _ <-]. cbn.
        by rewrite He4, He3, He2, He1.
      * destruct (host_step mh_record_drop_staging s3) as (? & s4 & -> & _ & He4). intros [= _ <-].
        by rewrite He4, He3, He2, He1.
    + destruct (host_step mh_record_move_new s2) as ([[]|e3] & s3 & -> & _ & He3).
      * destruct (host_step mh_sync_dir s3) as (? & s4 & -> & _ & He4). intros [= _ <-]. cbn.
        by rewrite He4, He3, He2, He1.
      * destruct (host_step mh_record_drop_staging s3) as (? & s4 & -> & _ & He4). intros [= _ <-].
        by rewrite He4, He3, He2, He1.
    + destruct (host_step mh_record_drop_staging s2) as (? & s4 & -> & _ & He4). intros [= _ <-].
      by rewrite He4, He2, He1.
  - destruct (host_step mh_record_drop_staging s1) as (? & s4 & -> & _ & He4). intros [= _ <-].
    by rewrite He4, He1.
Qed.

Lemma wp_dns_converge K s :
  trace_wf s -> wp dns_converge (fun r s' => is_ok r = true -> settled s') K s.
Proof.
  intros Hwf. unfold dns_converge.
  assert (forall t, trace_wf t -> wp dns_restore (fun r s' => is_ok r = true -> settled s') K t) as Hrestore.
  { intros t Ht. eapply wp_mono; [by apply wp_dns_restore_settles| |done].
    intros r s' Hr Hok. unfold settled. by rewrite (Hr Hok). }
  destruct (negb mh_dns); [by apply Hrestore|]. apply wp_bind. unfold dns_desired_now, runtime_alive.
  apply wp_bind, wp_bind, wp_get_ctrl. destruct (c_current (m_ctrl s)) as [active|] eqn:Ec.
  2:{ apply wp_ret, wp_bind, wp_get_ctrl, wp_ret. by apply Hrestore. }
  apply wp_bind. unfold wp at 1, instance_status. cbn [mgr_get].
  apply wp_ret, wp_bind, wp_get_ctrl, wp_ret. rewrite Ec. cbn [mbind option_bind].
  destruct (negb (is_terminal _)); [|by apply Hrestore].
  destruct (mh_dns_desired _) as [intent|] eqn:Ei; cbn [mbind option_bind]; [|by apply Hrestore].
  apply wp_bind, wp_get_ctrl. cbv zeta. apply wp_bind, wp_neutral; [neutral|].
  intros [[]|e] s1 Hq1; [|by apply wp_ret]. apply wp_bind. unfold dns_apply.
  apply wp_bind, wp_emit.
  set (s2 := add_event _ s1).
  assert (c_current (m_ctrl s2) = Some active) as Hc2 by (cbn; by rewrite (quiet_current _ _ Hq1)).
  destruct (host_step (mh_dns_apply intent (in_epoch (a_instance active))) s2) as (r & s3 & Hh & Hq3 & He3).
  unfold wp at 1. rewrite Hh. destruct r as [|[record|e]]; [by apply wp_ret| |by apply wp_ret].
  destruct (reconcile_baseline _ record) as [record'|]; [|by apply wp_ret].
  apply wp_bind. destruct (persist_keeps_override record' s3) as (x & s4 & Hp & Hq4 & Ho).
  unfold wp at 1. rewrite Hp. destruct x as [[]|e]; apply wp_ret; [|done]. intros _.
  unfold settled. rewrite Ho, He3. cbn. exists active. split; [|done].
  by rewrite (quiet_current _ _ Hq4), (quiet_current _ _ Hq3).
Qed.

Lemma wp_finish_settles {A} (r : result A Error) K s :
  trace_wf s -> wp (finish_dns_converge r) (fun r' s' => is_ok r' = true -> settled s') K s.
Proof.
  intros Hwf. unfold finish_dns_converge. apply wp_bind, wp_neutral; [neutral|]. intros alive s1 Hq.
  apply wp_bind. destruct (is_ok r || negb alive) eqn:Er.
  - eapply wp_mono; [apply wp_dns_converge; by apply (quiet_trace _ _ Hq)| |done].
    intros d s2 Hd. apply wp_ret. by destruct r, d as [[]|].
  - apply wp_ret, wp_ret. by destruct r.
Qed.

(** A launch that is accepted ends in the converge tail. *)
Lemma wp_tail_settles {A} ok (m : M E (result A Error)) s :
  wp m (ends ok) Good s ->
  wp (do r ← m; finish_dns_converge r) (fun r s' => is_ok r = true -> settled s') Good s.
Proof.
  intros Hm. apply wp_bind. eapply wp_mono; [exact Hm| |done]. intros r s1 Hr.
  apply ends_good in Hr as (cur & q & n & HI). apply wp_finish_settles. apply (inv_trace _ _ _ _ _ HI).
Qed.

Lemma wp_launch_settles op s :
  Good s -> launches op = true -> wp (perform op) (fun r s' => is_ok r = true -> settled s') Good s.
Proof.
  intros HG Hop.
  assert (forall A (f : A -> Answer) (m : M E (result A Error)),
    wp m (fun r s' => is_ok r = true -> settled s') Good s ->
    wp (answer f m) (fun r s' => is_ok r = true -> settled s') Good s) as Hans.
  { intros A f m Hm. apply wp_answer. eapply wp_mono; [exact Hm| |done]. by intros [a|e] s'. }
  assert (forall c, reject_quarantine c = match quarantine_error c with Some e => Err e | None => Ok tt end)
    as Hrej by done.
  destruct op as [spec| | |spec|spec expected|spec expected| |]; try done; cbn [perform]; apply Hans;
    clear Hans; destruct HG as (cur & q & n & HI);
    [unfold start|unfold restart|unfold switch|unfold apply_config|unfold reconcile];
    apply wp_bind, wp_get_ctrl; rewrite Hrej; unfold quarantine_error;
    rewrite (inv_quarantine _ _ _ _ _ HI); (destruct q as [|x q]; [|by apply wp_ret]).
  - apply wp_bind. quiet_as [|]; [by apply wp_ret|].
    unfold mgr_try. apply wp_bind. eapply wp_discard_stale; [done| |by intros; apply wp_ret].
    intros s1 HI1. by eapply wp_tail_settles, wp_start_locked_ends.
  - destruct (c_last_spec (m_ctrl s)); [|by apply wp_ret].
    by eapply wp_tail_settles, wp_switch_locked.
  - by eapply wp_tail_settles, wp_switch_locked.
  - by eapply wp_tail_settles, wp_apply_locked.
  - by eapply wp_tail_settles, wp_reconcile_locked.
Qed.

(** ** Stop *)

(** The latch and the allocator are as before and the slot is empty. *)
Definition cleared (q : list QuarantinedEpoch) (n : N) (r : result () Error) (s : Mgr E) : Prop :=
  is_ok r = true -> Inv [] None q n s.

Lemma wp_stop_failed_cleared L q n e err terminal s :
  (if is_stop_unconfirmed err then Inv L None q n s else Inv [] None q n s) ->
  (forall i, i ∈ L -> in_epoch i = e) ->
  wp (stop_failed e err terminal) (cleared q n) Good s.
Proof.
  intros HI HL. unfold stop_failed. destruct (is_stop_unconfirmed err).
  - by eapply wp_latch_err.
  - by destruct terminal; run.
Qed.

Lemma wp_stop_cleared cur q n s : Inv [] cur q n s -> wp stop (cleared q n) Good s.
Proof.
  intros HI. unfold stop, stop_current. apply wp_try. quiet_as [[]|?]; [|done].
  apply wp_bind. eapply wp_take_current; [done|]. intros s1 HI1. destruct cur as [a|]; [|by apply wp_ret].
  cbn in HI1. cbv zeta. apply wp_bind. quiet_step. apply wp_bind. quiet_step.
  destruct (is_terminal _).
  - apply wp_bind. quiet_step. apply wp_bind. eapply wp_stop; [done|].
    intros [[]|err] s5 HI5; cbn [unproven] in HI5; [by run|].
    eapply wp_stop_failed_cleared; [done|]. by intros i ->%list_elem_of_singleton.
  - apply wp_bind. quiet_step. apply wp_bind. eapply wp_stop; [done|].
    intros [[]|err] s5 HI5; cbn [unproven] in HI5; [by run; intros _|].
    eapply wp_stop_failed_cleared; [done|]. by intros i ->%list_elem_of_singleton.
Qed.

(** Stop and shutdown begin with the restore; behind it no override is applied. *)
Definition no_stop (ev : Event) : bool := match ev with EvStopped _ _ => false | _ => true end.
Definition no_override (ev : Event) : bool := match ev with EvDnsApply _ _ => false | _ => true end.

Lemma overridden_none_app evs older :
  forallb no_override evs = true -> overridden older = None -> overridden (evs ++ older) = None.
Proof.
  induction evs as [|ev evs IH]; cbn; [done|]. intros [Hev Hevs]%andb_true_iff Ho.
  specialize (IH Hevs Ho). destruct ev; try done. by destruct ok.
Qed.

Lemma app_inside {A} (l1 l2 newer older base : list A) x :
  l2 ++ l1 ++ base = newer ++ x :: older -> (length base <= length older)%nat ->
  (exists mid, older = mid ++ l1 ++ base /\ l2 = newer ++ x :: mid)
  \/ x ∈ l1.
Proof.
  revert newer. induction l2 as [|y l2 IH]; intros newer Heq Hlen.
  - right. cbn in Heq. revert newer Heq. induction l1 as [|z l1 IHl]; intros newer Heq.
    + exfalso. cbn in Heq. apply (f_equal length) in Heq. rewrite length_app in Heq. cbn in Heq. lia.
    + destruct newer as [|w newer]; injection Heq as -> Heq; [by left|]. right. by eapply IHl.
  - destruct newer as [|w newer]; injection Heq as -> Heq.
    + left. by exists l2.
    + destruct (IH newer Heq Hlen) as [(mid & -> & ->)|Hx]; [left; by exists mid|by right].
Qed.

Lemma emits_dns_restore : emits no_stop dns_restore.
Proof.
  unfold dns_restore, get_ctrl, apply_failed, persist_dns_record, write_dns_record, advance_dns_record, modify_ctrl.
  emits.
Qed.

Lemma emits_stop_current : emits no_override stop_current.
Proof.
  unfold stop_current, take_current, get_ctrl, modify_ctrl, instance_status, abort_forwarder, publish,
    stop_and_confirm_dead, stop_failed, latch_err, latch_quarantine, terminal_err, publish_terminal_error,
    publish, cleanup_or_fail, cleanup_epoch. emits.
Qed.

Lemma emits_shutdown_tail : emits no_override shutdown_tail.
Proof.
  unfold shutdown_tail, shutdown_runtime, take_current, get_ctrl, modify_ctrl, abort_forwarder, publish,
    stop_and_confirm_dead, stop_failed, latch_err, latch_quarantine, terminal_err, publish_terminal_error,
    publish, cleanup_or_fail, cleanup_epoch. emits.
Qed.

End Surface.

(** ** Properties *)

Section Claims.
Context {E : Type} `{ManagerHost E}.
Implicit Types (s : Mgr E).

(** C1: no process is lost.  In every reachable state, whatever the host
    answered and whichever transactions failed on the way, a process whose launch
    was answered with an instance and that is not proven dead is the one in the
    slot or belongs to an epoch that the latch holds; with nothing latched at most
    one of them is not proven dead, and there are never more than two.  A launch
    that is answered with an error is not covered, also when the error says that
    its process could not be stopped: see [unconfirmed_launches_are_forgotten]. *)
Theorem no_process_is_lost s :
  reachable s ->
  (forall i, i ∈ live (m_events s) ->
     (exists active, c_current (m_ctrl s) = Some active /\ a_instance active = i)
     \/ exists entry, entry ∈ c_quarantine (m_ctrl s) /\ q_epoch entry = in_epoch i)
  /\ (c_quarantine (m_ctrl s) = [] -> (length (live (m_events s)) <= 1)%nat)
  /\ (length (live (m_events s)) <= 2)%nat.
Proof.
  intros HI%reachable_inv.
  pose proof (inv_covered _ _ _ _ _ HI) as Hcov. pose proof (inv_serial _ _ _ _ _ HI) as [Hnd _].
  pose proof (inv_trace _ _ _ _ _ HI) as [Ht _]. split; [|split; [|by apply trace_two_processes]].
  - intros i Hi. destruct (Hcov i Hi) as [Hin|[?|(x & Hx & Hin)%list_elem_of_fmap]].
    + by apply elem_of_nil in Hin.
    + by left.
    + right. by exists x.
  - intros Hq. destruct (live (m_events s)) as [|i [|j l]] eqn:El; cbn; try lia. exfalso.
    assert (forall k, k ∈ i :: j :: l -> exists a, c_current (m_ctrl s) = Some a /\ a_instance a = k) as Hone.
    { intros k Hk. destruct (Hcov k Hk) as [Hin|[?|Hin]]; [by apply elem_of_nil in Hin|done|].
      rewrite Hq in Hin. by apply elem_of_nil in Hin. }
    destruct (Hone i) as (a & Ha & <-); [by left|]. destruct (Hone j) as (b & Hb & <-); [by right; left|].
    rewrite Ha in Hb. injection Hb as <-. apply NoDup_cons in Hnd as [Hn _]. apply Hn. by left.
Qed.

(** C7: a document becomes the file of an epoch only behind a dry-run that
    accepted it, and a new epoch is younger than every epoch that was
    committed before it, so no epoch number is used twice. *)
Theorem only_checked_documents_are_committed s newer path epoch new ok older :
  reachable s -> m_events s = newer ++ EvCommitted path epoch new ok :: older ->
  EvChecked path true ∈ older
  /\ (new = true -> forall e, e ∈ new_commits older -> (e < epoch)%positive).
Proof.
  intros HI%reachable_inv Hev. pose proof (inv_trace _ _ _ _ _ HI) as [Ht _].
  rewrite Hev in Ht. apply trace_ok_at in Ht as [[Hc Hnew] _]. split; [done|].
  intros Hn e He. specialize (Hnew Hn). by apply (Forall_forall _ _) with (x := e) in Hnew.
Qed.

(** C2: no host DNS override without an owner.  Whenever an override may be
    on the host the manager holds its ownership record, an override is only
    applied while the visible record names its servers and its epoch, and the
    record is only forgotten behind a confirmed restore. *)
Theorem overrides_are_owned s :
  reachable s ->
  (is_Some (overridden (m_events s)) -> is_Some (c_dns_record (m_ctrl s)))
  /\ (forall newer intent epoch older, m_events s = newer ++ EvDnsApply intent epoch :: older ->
        exists r, last_record older = Some r /\ dr_applied r = di_servers intent
                  /\ dr_runtime_epoch r = Epoch_get epoch)
  /\ (forall newer older, m_events s = newer ++ EvRecord None :: older -> overridden older = None).
Proof.
  intros HI%reachable_inv. pose proof (inv_trace _ _ _ _ _ HI) as [Ht Hr]. split; [|split].
  - intros [o Ho]. rewrite <- Hr. by eapply overridden_recorded.
  - intros newer intent epoch older Hev. rewrite Hev in Ht. by apply trace_ok_at in Ht as [? _].
  - intros newer older Hev. rewrite Hev in Ht. by apply trace_ok_at in Ht as [? _].
Qed.

(** C4: a transaction always answers.  The only way a transaction of a
    reachable manager panics is that the 64-bit epoch numbers are used up: the
    [expect]s on the slot and on the latch never fail. *)
Theorem only_exhaustion_panics s op message s' :
  reachable s -> perform op s = (Panicked message, s') ->
  message = "epoch space exhausted" /\ u64_modulus <= c_last (m_ctrl s') + 1.
Proof.
  intros HG%reachable_good Hop. pose proof (wp_perform op s HG) as Hw. unfold wp in Hw.
  rewrite Hop in Hw. by destruct Hw as [Hex _].
Qed.

(** C9: the latch refuses.  While an epoch is latched every transaction that
    would launch a runtime answers with the first latched epoch and changes
    nothing at all, neither in the manager nor on the host. *)
Theorem latch_refuses_launches s op entry rest :
  c_quarantine (m_ctrl s) = entry :: rest -> launches op = true ->
  exists reason, perform op s = (Return (Err (ManagerQuarantined (q_epoch entry) reason)), s).
Proof.
  intros Hq Hop. unfold perform, answer, start, restart, switch, apply_config, reconcile, mgr_bind, get_ctrl.
  destruct op; try done; cbn [mgr_get]; unfold reject_quarantine, quarantine_error; rewrite Hq;
    by eexists.
Qed.

(** A recovery that succeeds leaves nothing behind.  No epoch is latched
    afterwards, so every process that may be alive is the one in the slot. *)
Theorem recovery_clears_the_latch s s' :
  reachable s -> perform OpRecover s = (Return (Ok ADone), s') ->
  c_quarantine (m_ctrl s') = []
  /\ forall i, i ∈ live (m_events s') ->
       exists active, c_current (m_ctrl s') = Some active /\ a_instance active = i.
Proof.
  intros HG%reachable_good Hop.
  assert (wp (perform OpRecover) (fun r s' => Good s' /\ (is_ok r = true -> c_quarantine (m_ctrl s') = [])) Good s)
    as Hw.
  { apply wp_answer. eapply wp_mono; [by apply wp_recover_quarantine| |done]. by intros [[]|e] s1. }
  destruct (wp_run _ _ _ _ _ _ Hw Hop) as [(cur & q & n & HI) Hnil]. specialize (Hnil eq_refl).
  split; [done|]. rewrite (inv_quarantine _ _ _ _ _ HI) in Hnil. subst q. intros i Hi.
  rewrite (inv_current _ _ _ _ _ HI).
  destruct (inv_covered _ _ _ _ _ HI i Hi) as [Hin|[?|Hin]]; [|done|]; by apply elem_of_nil in Hin.
Qed.

(** What runs behind an accepted launch. *)
Definition slot_runs (s : Mgr E) (spec : InstanceSpec) : Prop :=
  exists active, c_current (m_ctrl s) = Some active
    /\ c_quarantine (m_ctrl s) = []
    /\ ep_source_spec (a_plan active) = spec
    /\ in_epoch (a_instance active) = ep_epoch (a_plan active).

Lemma ends_slot {A} ok (r : result A Error) s a :
  ends ok r s -> r = Ok a ->
  exists active, c_current (m_ctrl s) = Some active /\ c_quarantine (m_ctrl s) = [] /\ ok a active
    /\ in_epoch (a_instance active) = ep_epoch (a_plan active).
Proof.
  intros Hr ->. destruct Hr as (act & n & HI & Hok). exists act.
  split; [apply (inv_current _ _ _ _ _ HI)|]. split; [apply (inv_quarantine _ _ _ _ _ HI)|].
  split; [done|]. by apply (inv_coherent _ _ _ _ _ HI).
Qed.

(** C6: what was asked for runs.  A start or switch that succeeds leaves
    the asked specification in the slot under its own epoch, a restart the
    specification that was last installed, with nothing latched. *)
Theorem accepted_launch_runs_the_spec s op spec a s' :
  reachable s -> perform op s = (Return (Ok a), s') ->
  (op = OpStart spec \/ op = OpSwitch spec \/ op = OpRestart /\ c_last_spec (m_ctrl s) = Some spec) ->
  slot_runs s' spec.
Proof.
  intros HG%reachable_good Hop Hcase.
  assert (forall B (f : B -> Answer) (m : M E (result B Error)) (ok : B -> Active -> Prop),
    (forall b act, ok b act -> ep_source_spec (a_plan act) = spec) ->
    wp m (ends ok) Good s -> answer f m s = (Return (Ok a), s') -> slot_runs s' spec) as Hgen.
  { intros B f m ok Hok Hm Hrun.
    assert (wp (answer f m) (fun r s1 => is_ok r = true -> slot_runs s1 spec) Good s) as Hw.
    { apply wp_answer. eapply wp_mono; [exact Hm| |done]. intros [b|e] s1 Hr; [|done]. intros _.
      destruct (ends_slot _ _ _ _ Hr eq_refl) as (act & Hc & Hq & Ha & Hep). exists act. split; [done|]. split; [done|]. split; [by eapply Hok|done]. }
    by apply (wp_run _ _ _ _ _ _ Hw Hrun). }
  destruct Hcase as [->|[->|[-> Hlast]]]; cbn [perform] in Hop.
  - eapply Hgen; [|by apply wp_start|exact Hop]. done.
  - eapply Hgen; [|by apply wp_switch|exact Hop]. done.
  - eapply Hgen; [|by apply wp_restart|exact Hop]. cbn. intros b act. rewrite Hlast. by intros [= ->].
Qed.

(** C5: an apply reports what runs.  Behind an apply or a reconcile that is
    accepted nothing is latched and the slot has the reported revision under its
    own epoch; it records the desired specification, for the restarts to come,
    unless the answer says that the old runtime was rolled back to.  When the
    answer says that a process was launched (started, restarted, switched or
    rolled back), the one in the slot was launched with exactly the specification,
    controller, capabilities and epoch of the plan that the slot records; when it
    says that none was (nothing to do, patched, reloaded), it is the process that
    ran before, whatever it was launched from. *)
Theorem apply_reports_what_runs s op spec expected o s' :
  reachable s -> perform op s = (Return (Ok (AApplied o)), s') ->
  (op = OpApply spec expected \/ op = OpReconcile spec expected) ->
  exists active, c_current (m_ctrl s') = Some active /\ c_quarantine (m_ctrl s') = []
    /\ outcome_revision o = ep_revision (a_plan active)
    /\ (rolled_back o = false -> ep_source_spec (a_plan active) = spec)
    /\ in_epoch (a_instance active) = ep_epoch (a_plan active)
    /\ (launched_anew o = true -> in_request (a_instance active) = launch_request (a_plan active))
    /\ (launched_anew o = false -> a_instance <$> c_current (m_ctrl s) = Some (a_instance active)).
Proof.
  intros HG%reachable_good Hop Hcase. set (before := a_instance <$> c_current (m_ctrl s)).
  assert (forall m : M E (result ApplyOutcome Error),
    wp m (ends (applied before spec)) Good s -> answer AApplied m s = (Return (Ok (AApplied o)), s') ->
    ends (applied before spec) (Ok o) s') as Hgen.
  { intros m Hm Hrun.
    assert (wp (answer AApplied m) (fun r s1 => forall x, r = Ok (AApplied x) -> ends (applied before spec) (Ok x) s1) Good s)
      as Hw.
    { apply wp_answer. eapply wp_mono; [exact Hm| |done]. intros [b|e] s1 Hr x; [|done]. by intros [= <-]. }
    by apply (wp_run _ _ _ _ _ _ Hw Hrun). }
  assert (ends (applied before spec) (Ok o) s') as Hr.
  { destruct Hcase as [->| ->]; (eapply Hgen; [|exact Hop]); [by apply wp_apply_config|by apply wp_reconcile]. }
  destruct (ends_slot _ _ _ _ Hr eq_refl) as (act & Hc & Hq & [Hrev Hspec Hnew Hold] & Hep).
  exists act. eauto 10.
Qed.

(** An accepted launch leaves the host's DNS as the runtime asks.  If an
    override may be on the host afterwards it is the one the effective document
    in the slot asks for, applied under the epoch that runs. *)
Theorem accepted_launch_settles_dns s op a s' :
  reachable s -> launches op = true -> perform op s = (Return (Ok a), s') -> settled s'.
Proof.
  intros HG%reachable_good Hl Hop. by apply (wp_run _ _ _ _ _ _ (wp_launch_settles op s HG Hl) Hop).
Qed.

(** A stale revision is refused.  An apply or reconcile that expects a
    revision which is not the running one answers with the conflict and
    changes nothing at all. *)
Theorem stale_revision_is_refused s op spec expected active :
  c_quarantine (m_ctrl s) = [] -> c_current (m_ctrl s) = Some active ->
  is_terminal (ist_state (mh_state (a_instance active) (m_env s))) = false ->
  expected <> ConfigRevision_id (ep_revision (a_plan active)) ->
  (op = OpApply spec (Some expected) \/ op = OpReconcile spec (Some expected)) ->
  perform op s =
    (Return (Err (RevisionConflict expected (Some (ConfigRevision_id (ep_revision (a_plan active)))))), s).
Proof.
  intros Hq Hc Ht Hne Hcase.
  assert (runtime_alive s = (Return true, s)) as Halive.
  { unfold runtime_alive, get_ctrl, mgr_bind. cbn [mgr_get]. rewrite Hc. cbn. by rewrite Ht. }
  assert (apply_locked spec (Some expected) s = (Return (Err (RevisionConflict expected
    (Some (ConfigRevision_id (ep_revision (a_plan active)))))), s)) as Hlocked.
  { unfold apply_locked, get_ctrl, mgr_bind. cbn [mgr_get]. rewrite Hc. cbn [instance_status mgr_get].
    rewrite Ht. unfold mgr_try, mgr_bind, mgr_ret. by rewrite decide_True. }
  destruct Hcase as [->| ->]; unfold perform, answer, apply_config, reconcile, reconcile_locked,
    finish_dns_converge, mgr_bind, get_ctrl; cbn [mgr_get]; unfold reject_quarantine, quarantine_error; rewrite Hq.
  - rewrite Hlocked, Halive. done.
  - rewrite Halive, Hlocked, Halive. done.
Qed.

(** A stop that succeeds stops.  The slot is empty afterwards, the
    latch is as it was, and whatever may still be alive is latched. *)
Theorem stop_clears_the_slot s s' :
  reachable s -> perform OpStop s = (Return (Ok ADone), s') ->
  c_current (m_ctrl s') = None /\ c_quarantine (m_ctrl s') = c_quarantine (m_ctrl s)
  /\ (c_quarantine (m_ctrl s) = [] -> live (m_events s') = []).
Proof.
  intros HI%reachable_inv Hop.
  assert (wp (perform OpStop) (fun r s1 => is_ok r = true ->
    Inv [] None (c_quarantine (m_ctrl s)) (c_last (m_ctrl s)) s1) Good s) as Hw.
  { apply wp_answer. eapply wp_mono; [by eapply wp_stop_cleared| |done]. by intros [[]|e] s1. }
  pose proof (wp_run _ _ _ _ _ _ Hw Hop eq_refl) as HI'.
  split; [apply (inv_current _ _ _ _ _ HI')|]. split; [apply (inv_quarantine _ _ _ _ _ HI')|].
  intros Hq. destruct (live (m_events s')) as [|i l] eqn:El; [done|]. exfalso.
  destruct (inv_covered _ _ _ _ _ HI' i) as [Hin|[(a & Ha & _)|Hin]].
  - rewrite El. by left.
  - by apply elem_of_nil in Hin.
  - done.
  - rewrite Hq in Hin. by apply elem_of_nil in Hin.
Qed.

(** C8: DNS first.  Stop and shutdown touch the process only when no
    override is on the host any more: at every stop they make, the last
    override was restored with the host's confirmation. *)
Theorem stop_restores_dns_first s op newer i r older :
  reachable s -> (op = OpStop \/ op = OpShutdown) ->
  m_events (perform op s).2 = newer ++ EvStopped i r :: older ->
  (length (m_events s) <= length older)%nat ->
  overridden older = None.
Proof.
  intros HI%reachable_inv Hop Hev Hlen. pose proof (inv_trace _ _ _ _ _ HI) as Hwf.
  assert (exists tail : M E (result () Error), emits no_override tail
    /\ m_events (perform op s).2 = m_events (mgr_try dns_restore (fun _ => tail) s).2) as (tail & Htail & Heq).
  { destruct Hop as [->| ->]; [exists stop_current|exists shutdown_tail];
      (split; [apply emits_stop_current || apply emits_shutdown_tail|]);
      cbn [perform]; unfold answer, mgr_bind;
      [change stop with (mgr_try (E := E) dns_restore (fun _ => stop_current))
      |change shutdown with (mgr_try (E := E) dns_restore (fun _ => shutdown_tail))];
      by destruct (mgr_try _ _ s) as [[|] ?]. }
  rewrite Heq in Hev. unfold mgr_try, mgr_bind in Hev.
  destruct (emits_dns_restore s) as (e1 & He1 & Hno1).
  pose proof (wp_dns_restore_settles (fun _ => True) s Hwf) as Hres. unfold wp in Hres.
  destruct (dns_restore s) as [[[[]|e]|msg] s1]; cbn in He1, Hev.
  - destruct (Htail s1) as (e2 & He2 & Hno2). rewrite He2, He1 in Hev.
    destruct (app_inside _ _ _ _ _ _ Hev Hlen) as [(mid & -> & ->)|Hin].
    + rewrite forallb_app in Hno2. apply andb_true_iff in Hno2 as [_ Hno2]. cbn in Hno2.
      apply overridden_none_app; [done|]. rewrite <- He1. by apply Hres.
    + rewrite forallb_forall in Hno1. apply list_elem_of_In in Hin. by apply Hno1 in Hin.
  - destruct (app_inside e1 [] newer older (m_events s) (EvStopped i r)) as [(mid & _ & Hm)|Hin]; [|done| |].
    + cbn. by rewrite <- He1.
    + by destruct newer.
    + rewrite forallb_forall in Hno1. apply list_elem_of_In in Hin. by apply Hno1 in Hin.
  - destruct (app_inside e1 [] newer older (m_events s) (EvStopped i r)) as [(mid & _ & Hm)|Hin]; [|done| |].
    + cbn. by rewrite <- He1.
    + by destruct newer.
    + rewrite forallb_forall in Hno1. apply list_elem_of_In in Hin. by apply Hno1 in Hin.
Qed.

End Claims.

(** ** Witnesses: runs of the scripted host *)

Import Scripted.

Definition no_epochs_left : Mgr Script := manager_new (u64_modulus - 1) quick.
Definition switched : Mgr Script := (perform (OpSwitch sample_spec) after_start).2.

Lemma reachable_after_start : reachable after_start.
Proof. apply reachable_run, reachable_new. Qed.
Lemma reachable_after_lost_stop : reachable after_lost_stop.
Proof. apply reachable_run, reachable_new. Qed.

(** The process whose stop was not confirmed is alive and latched. *)
Lemma no_process_is_lost_witness :
  exists i, i ∈ live (m_events after_lost_stop)
    /\ exists entry, entry ∈ c_quarantine (m_ctrl after_lost_stop) /\ q_epoch entry = in_epoch i.
Proof.
  destruct (live (m_events after_lost_stop)) as [|i l] eqn:El; [by vm_compute in El|].
  exists i. split; [by left|].
  destruct (no_process_is_lost after_lost_stop) as (Hcov & _).
  - apply reachable_after_lost_stop.
  - destruct (Hcov i) as [(a & Ha & _)|Hl]; [rewrite El; by left|by vm_compute in Ha|done].
Defined.

(** A launch that answers that its process could not be stopped leaves nothing in
    the slot and nothing in the latch. *)
Lemma unconfirmed_launches_are_forgotten :
  let lost := StopUnconfirmed "the failed launch is still there" in
  let '(r, s') := perform (H := scripted_host (Err lost)) (OpStart sample_spec) (fresh quick) in
  r = Return (Err lost) /\ EvLaunchFailed 1%positive lost ∈ m_events s'
  /\ c_current (m_ctrl s') = None /\ c_quarantine (m_ctrl s') = [] /\ live (m_events s') = [].
Proof. vm_compute. repeat split. repeat (first [left; done|right]). Qed.

Lemma only_checked_documents_are_committed_witness :
  EvChecked "/run/core/.staged-1" true ∈ drop 13 (m_events after_lost_stop).
Proof.
  destruct (only_checked_documents_are_committed after_lost_stop (take 12 (m_events after_lost_stop))
    "/run/core/.staged-1" 1%positive true true (drop 13 (m_events after_lost_stop))) as [Hc _].
  - apply reachable_after_lost_stop.
  - vm_compute. reflexivity.
  - exact Hc.
Defined.

Lemma overrides_are_owned_witness : is_Some (c_dns_record (m_ctrl after_start)).
Proof.
  destruct (overrides_are_owned after_start) as (Hown & _); [apply reachable_after_start|].
  apply Hown. vm_compute. by eexists.
Defined.

Lemma only_exhaustion_panics_witness :
  exists s', perform (OpStart sample_spec) no_epochs_left = (Panicked "epoch space exhausted", s')
             /\ u64_modulus <= c_last (m_ctrl s') + 1.
Proof.
  destruct (perform (OpStart sample_spec) no_epochs_left) as [r s'] eqn:E. exists s'.
  assert (r = Panicked "epoch space exhausted") as ->.
  { change r with (r, s').1. rewrite <- E. vm_compute. reflexivity. }
  split; [done|]. eapply (only_exhaustion_panics no_epochs_left); [apply reachable_new|exact E].
Defined.

Lemma latch_refuses_launches_witness :
  exists e, (perform (OpStart sample_spec) after_lost_stop) = (Return (Err e), after_lost_stop).
Proof.
  destruct (c_quarantine (m_ctrl after_lost_stop)) as [|entry rest] eqn:Eq; [by vm_compute in Eq|].
  destruct (latch_refuses_launches after_lost_stop (OpStart sample_spec) entry rest Eq eq_refl) as [reason Hr].
  by eexists.
Defined.

Lemma recovery_clears_the_latch_witness :
  c_quarantine (m_ctrl (perform OpRecover after_lost_stop).2) = [].
Proof.
  apply (recovery_clears_the_latch after_lost_stop); [apply reachable_after_lost_stop|].
  vm_compute. reflexivity.
Defined.

Lemma accepted_launch_runs_the_spec_witness : slot_runs switched sample_spec.
Proof.
  apply (accepted_launch_runs_the_spec after_start (OpSwitch sample_spec) sample_spec
    (ASwitched (Hard DHttpController))).
  - apply reachable_after_start.
  - vm_compute. reflexivity.
  - by right; left.
Defined.

Lemma apply_reports_what_runs_witness :
  exists o active, c_current (m_ctrl (perform (OpReconcile sample_spec None) after_start).2) = Some active
    /\ outcome_revision o = ep_revision (a_plan active).
Proof.
  destruct (perform (OpReconcile sample_spec None) after_start) as [r s'] eqn:E.
  assert (exists o, r = Return (Ok (AApplied o))) as [o ->].
  { change r with (r, s').1. rewrite <- E. vm_compute. by eexists. }
  destruct (apply_reports_what_runs after_start (OpReconcile sample_spec None) sample_spec None o s')
    as (active & Hc & _ & Hrev & _).
  - apply reachable_after_start.
  - exact E.
  - by right.
  - exists o, active. split; [exact Hc|exact Hrev].
Defined.

Lemma accepted_launch_settles_dns_witness : settled switched.
Proof.
  apply (accepted_launch_settles_dns after_start (OpSwitch sample_spec) (ASwitched (Hard DHttpController))).
  - apply reachable_after_start.
  - reflexivity.
  - vm_compute. reflexivity.
Defined.

Lemma stale_revision_is_refused_witness :
  exists e, perform (OpApply sample_spec (Some {| rid_epoch := 1%positive; rid_generation := 2; rid_effective_hash := "0" |})) after_start
            = (Return (Err e), after_start).
Proof.
  destruct (c_current (m_ctrl after_start)) as [active|] eqn:Ec; [|by vm_compute in Ec].
  eexists. eapply (stale_revision_is_refused after_start _ sample_spec
    {| rid_epoch := 1%positive; rid_generation := 2; rid_effective_hash := "0" |} active).
  - vm_compute. reflexivity.
  - exact Ec.
  - reflexivity.
  - vm_compute in Ec. injection Ec as <-. intros Heq%(f_equal rid_generation). vm_compute in Heq. discriminate Heq.
  - by left.
Defined.

Lemma stop_clears_the_slot_witness : live (m_events (perform OpStop after_start).2) = [].
Proof.
  apply (stop_clears_the_slot after_start).
  - apply reachable_after_start.
  - vm_compute. reflexivity.
  - vm_compute. reflexivity.
Defined.

Lemma stop_restores_dns_first_witness :
  overridden (drop 2 (m_events (perform OpStop after_start).2)) = None.
Proof.
  destruct (c_current (m_ctrl after_start)) as [a|] eqn:Ec; [|by vm_compute in Ec].
  apply (stop_restores_dns_first after_start OpStop
    (take 1 (m_events (perform OpStop after_start).2)) (a_instance a) (Ok tt)).
  - apply reachable_after_start.
  - by left.
  - vm_compute in Ec. injection Ec as <-. vm_compute. reflexivity.
  - vm_compute. lia.
Defined.
