(* ===== verification/ApiClient.v ===== *)
(** * The client of a core's control API

    [crates/clash-api]: [client.rs], [retry.rs], [error.rs] and [stream.rs].  A
    call is one logical operation: it builds its request anew for every attempt,
    a retry policy says which failures are repeated, and a refusal of the core
    becomes an error with a bounded copy of its text.  The crates below (URLs,
    HTTP, JSON, back-off schedules) are class [ApiKit]; [ApiCalls] has the typed
    calls. *)

From S2P Require Import Prelude Text Types.
Open Scope rust_scope.

(** ** Requests *)

Inductive Json :=
| JNull
| JBool (b : bool)
| JNumber (n : Z)
| JString (s : string)
| JArray (items : list Json)
| JObject (fields : list (string * Json)).

Inductive Method := GET | POST | PUT | PATCH | DELETE.
#[export] Instance Method_eq_dec : EqDecision Method.
Proof. solve_decision. Defined.

(** What a failure of the transport tells. *)
Record TransportError := { te_connect : bool; te_timeout : bool; te_request : bool; te_text : string }.
Inductive WsError := WsTransport (source : TransportError) | WsUnexpectedStatus (status : N) | WsOther (text : string).

(** The crates. *)
Class ApiKit := {
  Url : Type;
  url_parse : string -> result Url string;
  url_text : Url -> string;
  url_scheme : Url -> string;
  url_cannot_be_a_base : Url -> bool;
  url_query : Url -> option string;
  url_fragment : Url -> option string;
  url_path : Url -> string;
  url_set_path : string -> Url -> Url;
  url_join : Url -> string -> result Url string;
  (** [path_segments_mut] and a [push] of each segment. *)
  url_push_all : list string -> Url -> option Url;
  header_value : string -> result string string;
  build_http_client : option string -> result () string;
  json_message : list Byte.byte -> option string;
  exponential_delays : Duration -> Duration -> nat -> bool -> list Duration;
  status_text : N -> string;
  ws_text : WsError -> string;
}.

(** ** Errors ([error.rs]) *)

(** [eb_bytes] are the bytes whose lossy text the error shows. *)
Record ErrorBody := { eb_message : option string; eb_bytes : list Byte.byte }.
Definition MAX_ERROR_BODY_LENGTH : nat := N.to_nat (16 * 1024).

Inductive ApiError :=
| InvalidBaseUrl (value source : string)
| UnsupportedUrlScheme (scheme : string)
| UrlCannotBeABase (url : string)
| BaseUrlHasQueryOrFragment (url : string)
| AbsoluteEndpoint (endpoint : string)
| InvalidEndpoint (endpoint source : string)
| CannotAppendPathSegment (url : string)
| InvalidArgument (argument message : string)
| UnsupportedTransport (transport platform : string)
| InvalidSecret (source : string)
| BuildClient (source : string)
| RequestFailed (operation : string) (source : TransportError)
| HttpStatus (operation : string) (status : N) (body : option ErrorBody)
| DecodeFailed (operation source : string)
| StreamFailed (operation source : string)
| WebSocketRead (operation : string) (source : WsError)
| WebSocketFailed (operation : string) (source : WsError).

Definition error_status (e : ApiError) : option N := match e with HttpStatus _ status _ => Some status | _ => None end.
Definition error_body (e : ApiError) : option ErrorBody := match e with HttpStatus _ _ body => body | _ => None end.
(** [Display]. *)
Definition ApiError_to_string `{ApiKit} (e : ApiError) : string :=
  match e with
  | InvalidBaseUrl value source => "invalid Clash API base URL `" +:+ value +:+ "`: " +:+ source
  | UnsupportedUrlScheme scheme => "unsupported Clash API URL scheme `" +:+ scheme +:+ "`"
  | UrlCannotBeABase url => "URL cannot be used as a Clash API base URL: " +:+ url
  | BaseUrlHasQueryOrFragment url => "Clash API base URL must not contain a query or fragment: " +:+ url
  | AbsoluteEndpoint endpoint => "Clash API endpoint must be relative, got `" +:+ endpoint +:+ "`"
  | InvalidEndpoint endpoint source => "invalid Clash API endpoint `" +:+ endpoint +:+ "`: " +:+ source
  | CannotAppendPathSegment url => "cannot append a path segment to Clash API URL `" +:+ url +:+ "`"
  | InvalidArgument argument message => "invalid argument `" +:+ argument +:+ "`: " +:+ message
  | UnsupportedTransport transport platform => transport +:+ " transport is not supported on " +:+ platform
  | InvalidSecret _ => "the Clash API secret cannot be represented as an HTTP header"
  | BuildClient source => "failed to build the Clash API HTTP client: " +:+ source
  | RequestFailed operation source => "Clash API request `" +:+ operation +:+ "` failed: " +:+ te_text source
  | HttpStatus operation status _ => "Clash API request `" +:+ operation +:+ "` returned HTTP " +:+ status_text status
  | DecodeFailed operation source => "failed to decode Clash API response for `" +:+ operation +:+ "`: " +:+ source
  | StreamFailed operation source => "failed to read Clash API stream `" +:+ operation +:+ "`: " +:+ source
  | WebSocketRead operation source => "Clash API WebSocket read `" +:+ operation +:+ "` failed: " +:+ ws_text source
  | WebSocketFailed operation source => "Clash API WebSocket handshake `" +:+ operation +:+ "` failed: " +:+ ws_text source
  end.
(** [is_named_pipe_busy] of [reqwest_ext.rs] on a host that is not Windows. *)
Definition is_named_pipe_busy (e : ApiError) : bool := false.

(** ** Retries ([retry.rs]) *)

Record RequestMetadata := { md_operation : string; md_method : Method; md_retry_safe : bool }.
Definition metadata (operation : string) (method : Method) (retry_safe : bool) : RequestMetadata :=
  {| md_operation := operation; md_method := method; md_retry_safe := retry_safe |}.

Record RetryPolicy := { rp_delays : RequestMetadata -> list Duration; rp_is_retryable : RequestMetadata -> ApiError -> bool }.
Definition NoRetry : RetryPolicy := {| rp_delays := fun _ => []; rp_is_retryable := fun _ _ => false |}.

(** A connection that failed, was too slow or was never a request. *)
Definition transport_transient (e : TransportError) : bool := te_connect e || te_timeout e || te_request e.
Definition status_transient (status : N) : bool := bool_decide (status ∈ [502; 503; 504]).
Definition is_transient (e : ApiError) : bool :=
  match e with
  | RequestFailed _ source => transport_transient source
  | HttpStatus _ status _ => status_transient status
  | WebSocketFailed _ source =>
      match source with
      | WsTransport source => transport_transient source
      | WsUnexpectedStatus status => status_transient status
      | WsOther _ => false
      end
  | _ => false
  end.

Record ExponentialRetry := { xr_max_retries : nat; xr_min_delay : Duration; xr_max_delay : Duration; xr_jitter : bool }.
Definition conservative : ExponentialRetry :=
  {| xr_max_retries := 3; xr_min_delay := duration_from_millis 100; xr_max_delay := duration_from_secs 2; xr_jitter := true |}.
Definition ExponentialRetry_new (max_retries : nat) (min max : Duration) : ExponentialRetry :=
  {| xr_max_retries := max_retries; xr_min_delay := min; xr_max_delay := max; xr_jitter := false |}.
Definition with_jitter (jitter : bool) (self : ExponentialRetry) : ExponentialRetry :=
  {| xr_max_retries := xr_max_retries self; xr_min_delay := xr_min_delay self; xr_max_delay := xr_max_delay self; xr_jitter := jitter |}.

Section Client.
Context `{ApiKit}.

Definition exponential_policy (self : ExponentialRetry) : RetryPolicy :=
  {| rp_delays := fun _ => exponential_delays (xr_min_delay self) (xr_max_delay self) (xr_max_retries self) (xr_jitter self);
     rp_is_retryable := fun request error => md_retry_safe request && is_transient error |}.

(** [ErrorBody::from_bytes]. *)
Definition ErrorBody_from_bytes (bytes : list Byte.byte) : ErrorBody :=
  let bytes := take MAX_ERROR_BODY_LENGTH bytes in
  {| eb_message := json_message bytes; eb_bytes := bytes |}.

(** ** The endpoint and the client ([client.rs]) *)

Inductive Host := NamedPipe (path : string) | UnixSocket (path : string) | Http (base_url : Url).

Definition normalize_base_url (base_url : Url) : result Url ApiError :=
  if negb (bool_decide (url_scheme base_url = "http")) && negb (bool_decide (url_scheme base_url = "https"))
  then Err (UnsupportedUrlScheme (url_scheme base_url))
  else if url_cannot_be_a_base base_url then Err (UrlCannotBeABase (url_text base_url))
  else if bool_decide (is_Some (url_query base_url)) || bool_decide (is_Some (url_fragment base_url))
  then Err (BaseUrlHasQueryOrFragment (url_text base_url))
  else if negb (ends_with "/" (url_path base_url)) then Ok (url_set_path (url_path base_url +:+ "/") base_url)
  else Ok base_url.
Definition parse_complete_url (value : string) : result Host ApiError :=
  let? url := map_err (InvalidBaseUrl value) (url_parse value) in
  let? url := normalize_base_url url in
  Ok (Http url).
Definition parse_controller_url (value default_scheme : string) : result Host ApiError :=
  if str_contains "://" value then parse_complete_url value
  else parse_complete_url (default_scheme +:+ "://" +:+ value).
Definition Host_http (base_url : string) : result Host ApiError := parse_controller_url base_url "http".
Definition Host_https (base_url : string) : result Host ApiError := parse_controller_url base_url "https".
Definition Host_url (base_url : string) : result Host ApiError := parse_complete_url base_url.

Record Client := {
  cl_host : Host;
  cl_base_url : Url;
  cl_authorization : option string;
  cl_websocket_token_query : bool;
  cl_retry_policy : RetryPolicy;
}.
Record ClientBuilder := {
  cb_host : Host;
  cb_secret : option string;
  cb_websocket_token_query : bool;
  cb_retry_policy : RetryPolicy;
}.
Definition ClientBuilder_new (host : Host) : ClientBuilder :=
  {| cb_host := host; cb_secret := None; cb_websocket_token_query := false; cb_retry_policy := NoRetry |}.
Definition secret (s : string) (b : ClientBuilder) : ClientBuilder :=
  {| cb_host := cb_host b; cb_secret := Some s; cb_websocket_token_query := cb_websocket_token_query b;
     cb_retry_policy := cb_retry_policy b |}.
Definition websocket_token_query_compatibility (b : ClientBuilder) : ClientBuilder :=
  {| cb_host := cb_host b; cb_secret := cb_secret b; cb_websocket_token_query := true; cb_retry_policy := cb_retry_policy b |}.
Definition retry_policy (p : RetryPolicy) (b : ClientBuilder) : ClientBuilder :=
  {| cb_host := cb_host b; cb_secret := cb_secret b; cb_websocket_token_query := cb_websocket_token_query b; cb_retry_policy := p |}.

Definition LOCAL_TRANSPORT_BASE_URL : string := "http://localhost/".
Definition bearer : string := "Bearer ".
(** [build], on a Unix host; the URL of the local transport parses. *)
Definition build (local : Url) (b : ClientBuilder) : result Client ApiError :=
  let? hb :=
    match cb_host b with
    | Http base_url => map_ok (fun url => (Http url, url, None)) (normalize_base_url base_url)
    | NamedPipe _ => Err (UnsupportedTransport "Windows named pipe" "linux")
    | UnixSocket path => Ok (UnixSocket path, local, Some path)
    end in
  let '(host, base_url, socket) := hb in
  let? authorization :=
    match host, cb_secret b with
    | Http _, Some s =>
        if decide (s = "") then Ok None else map_ok Some (map_err InvalidSecret (header_value (bearer +:+ s)))
    | _, _ => Ok None
    end in
  let? _ := map_err BuildClient (build_http_client socket) in
  Ok {| cl_host := host; cl_base_url := base_url; cl_authorization := authorization;
        cl_websocket_token_query := cb_websocket_token_query b; cl_retry_policy := cb_retry_policy b |}.

Record Request := {
  rq_method : Method;
  rq_url : Url;
  rq_authorization : option string;
  rq_query : list (string * string);
  rq_body : option Json;
}.
Definition with_query (pairs : list (string * string)) (r : Request) : Request :=
  {| rq_method := rq_method r; rq_url := rq_url r; rq_authorization := rq_authorization r; rq_query := rq_query r ++ pairs;
     rq_body := rq_body r |}.
Definition with_json (body : Json) (r : Request) : Request :=
  {| rq_method := rq_method r; rq_url := rq_url r; rq_authorization := rq_authorization r; rq_query := rq_query r;
     rq_body := Some body |}.

Fixpoint trim_slashes (s : string) : string :=
  match s with
  | String a rest => if decide (a = Ascii.ascii_of_N 47) then trim_slashes rest else s
  | EmptyString => s
  end.
Definition endpoint (self : Client) (path : string) : result Url ApiError :=
  if is_ok (url_parse path) then Err (AbsoluteEndpoint path)
  else map_err (InvalidEndpoint path) (url_join (cl_base_url self) (trim_slashes path)).
Definition endpoint_with_segments (self : Client) (path : string) (segments : list string) : result Url ApiError :=
  let? url := endpoint self path in
  ok_or (url_push_all segments url) (CannotAppendPathSegment (url_text url)).
Definition request_url (self : Client) (method : Method) (url : Url) : Request :=
  {| rq_method := method; rq_url := url; rq_authorization := cl_authorization self; rq_query := []; rq_body := None |}.
Definition request (self : Client) (method : Method) (path : string) : result Request ApiError :=
  map_ok (request_url self method) (endpoint self path).

(** ** Sending

    The transport answers requests and upgrades from a state of its own;
    [ht_sent] and [ht_slept] are the history. *)
Record Response := { rs_status : N; rs_chunks : list (result (list Byte.byte) TransportError) }.
Inductive Message := MsText (text : string) | MsBinary (bytes : list Byte.byte) | MsClose | MsControl.
Definition Socket : Type := list (result Message WsError).
Record Transport (E : Type) := {
  tr_send : Request -> E -> result Response TransportError * E;
  tr_upgrade : Request -> E -> result Socket WsError * E;
}.
#[global] Arguments tr_send {E}.
#[global] Arguments tr_upgrade {E}.
Record HttpState (E : Type) := { ht_env : E; ht_sent : list Request; ht_slept : list Duration }.
#[global] Arguments ht_env {E}.
#[global] Arguments ht_sent {E}.
#[global] Arguments ht_slept {E}.

Definition is_success (status : N) : bool := bool_decide (200 <= status < 300).
(** The loop of [ensure_success]: at most 16 KiB, up to the first failure. *)
Fixpoint collect_body (bytes : list Byte.byte) (chunks : list (result (list Byte.byte) TransportError)) : list Byte.byte :=
  if bool_decide (MAX_ERROR_BODY_LENGTH <= length bytes)%nat then bytes
  else match chunks with
  | Ok chunk :: chunks => collect_body (bytes ++ take (MAX_ERROR_BODY_LENGTH - length bytes) chunk) chunks
  | Err _ :: _ | [] => bytes
  end.
Definition ensure_success (response : Response) (operation : string) : result Response ApiError :=
  if is_success (rs_status response) then Ok response
  else
    let bytes := collect_body [] (rs_chunks response) in
    Err (HttpStatus operation (rs_status response) (if decide (bytes = []) then None else Some (ErrorBody_from_bytes bytes))).
(** [Response::bytes]. *)
Fixpoint response_bytes (chunks : list (result (list Byte.byte) TransportError)) : result (list Byte.byte) TransportError :=
  match chunks with
  | [] => Ok []
  | Err e :: _ => Err e
  | Ok chunk :: chunks => map_ok (fun rest => chunk ++ rest) (response_bytes chunks)
  end.
Definition decode_json {A} (parse : list Byte.byte -> result A string) (response : Response) (operation : string) : result A ApiError :=
  let? bytes := map_err (RequestFailed operation) (response_bytes (rs_chunks response)) in
  map_err (DecodeFailed operation) (parse bytes).

Section Sending.
Context {E : Type} (transport : Transport E).

Definition Http_act (A : Type) : Type := HttpState E -> result A ApiError * HttpState E.
Definition slept (d : Duration) (s : HttpState E) : HttpState E :=
  {| ht_env := ht_env s; ht_sent := ht_sent s; ht_slept := ht_slept s ++ [d] |}.
Definition answered (r : Request) (env : E) (s : HttpState E) : HttpState E :=
  {| ht_env := env; ht_sent := ht_sent s ++ [r]; ht_slept := ht_slept s |}.

(** [execute]: the loop, along the delays the policy grants. *)
Fixpoint execute_loop {A} (retryable : ApiError -> bool) (operation : Http_act A) (delays : list Duration) (s : HttpState E)
    : result A ApiError * HttpState E :=
  match operation s with
  | (Ok value, s) => (Ok value, s)
  | (Err error, s) =>
      if negb (is_named_pipe_busy error) && retryable error then
        match delays with
        | [] => (Err error, s)
        | delay :: delays => execute_loop retryable operation delays (slept delay s)
        end
      else (Err error, s)
  end.
Definition execute {A} (self : Client) (md : RequestMetadata) (operation : Http_act A) : Http_act A :=
  execute_loop (rp_is_retryable (cl_retry_policy self) md) operation (rp_delays (cl_retry_policy self) md).

Definition attempt (operation : string) (make_request : result Request ApiError) : Http_act Response :=
  fun s =>
    match make_request with
    | Err e => (Err e, s)
    | Ok rq =>
        let '(r, env) := tr_send transport rq (ht_env s) in
        (match r with
         | Err source => Err (RequestFailed operation source)
         | Ok response => ensure_success response operation
         end, answered rq env s)
    end.
Definition send (self : Client) (md : RequestMetadata) (make_request : result Request ApiError) : Http_act Response :=
  execute self md (attempt (md_operation md) make_request).
Definition send_json {A} (parse : list Byte.byte -> result A string) (self : Client) (md : RequestMetadata)
    (make_request : result Request ApiError) : Http_act A :=
  fun s => let '(r, s) := send self md make_request s in
           (let? response := r in decode_json parse response (md_operation md), s).
Definition send_empty (self : Client) (md : RequestMetadata) (make_request : result Request ApiError) : Http_act () :=
  fun s => let '(r, s) := send self md make_request s in (map_ok (fun _ => tt) r, s).

(** [websocket]: the legacy token is the secret of the bearer header. *)
Definition websocket_token (self : Client) : option string :=
  if cl_websocket_token_query self then Some (default "" (cl_authorization self ≫= strip_prefix bearer)) else None.
Definition websocket (self : Client) (md : RequestMetadata) (make_request : result Request ApiError) : Http_act Socket :=
  execute self md (fun s =>
    match make_request with
    | Err e => (Err e, s)
    | Ok rq =>
        let rq := match websocket_token self with Some token => with_query [("token", token)] rq | None => rq end in
        let '(r, env) := tr_upgrade transport rq (ht_env s) in
        (map_err (WebSocketFailed (md_operation md)) r, answered rq env s)
    end).
End Sending.

(** ** Streams ([stream.rs])

    The lines of a body as the line codec of the crate gives them, at most one
    MiB each; the frames of a socket up to the one that closes it. *)
Definition http_stream {A} (parse : string -> result A string) (operation : string) (lines : list (result string string))
    : list (result A ApiError) :=
  omap (fun line => match line with
                    | Ok line => if decide (trim line = "") then None else Some (map_err (DecodeFailed operation) (parse line))
                    | Err source => Some (Err (StreamFailed operation source))
                    end) lines.
Fixpoint until_close (frames : Socket) : Socket :=
  match frames with
  | [] => []
  | Ok MsClose :: _ => []
  | frame :: frames => frame :: until_close frames
  end.
Definition websocket_stream {A} (parse_text : string -> result A string) (parse_bytes : list Byte.byte -> result A string)
    (operation : string) (socket : Socket) : list (result A ApiError) :=
  omap (fun frame => match frame with
                     | Ok (MsText text) => Some (map_err (DecodeFailed operation) (parse_text text))
                     | Ok (MsBinary bytes) => Some (map_err (DecodeFailed operation) (parse_bytes bytes))
                     | Ok _ => None
                     | Err source => Some (Err (WebSocketRead operation source))
                     end) (until_close socket).
End Client.

(** ** What a call does to the wire *)

Section History.
Context `{ApiKit} {E : Type}.
Implicit Types (s : HttpState E).

(** An operation that sends exactly [rqs] and sleeps for nothing. *)
Definition adds {A} (rqs : list Request) (operation : Http_act A) : Prop :=
  forall s, ht_sent (operation s).2 = ht_sent s ++ rqs /\ ht_slept (operation s).2 = ht_slept s.

Lemma execute_loop_history {A} retryable (operation : Http_act A) rqs delays s :
  adds rqs operation ->
  exists n, (n <= length delays)%nat /\
    ht_sent (execute_loop retryable operation delays s).2 = ht_sent s ++ concat (replicate (S n) rqs) /\
    ht_slept (execute_loop retryable operation delays s).2 = ht_slept s ++ take n delays /\
    match (execute_loop retryable operation delays s).1 with
    | Ok _ => True
    | Err e => retryable e = true -> n = length delays
    end.
Proof.
  intros Hadds; revert s; induction delays as [|d delays IH]; intros s; cbn -[concat replicate];
    destruct (operation s) as [[v|e] s1] eqn:Hop; pose proof (Hadds s) as [Hs Hd]; rewrite Hop in Hs, Hd; cbn in Hs, Hd.
  1,3: exists 0%nat; cbn; rewrite ?app_nil_r; split_and!; first lia; done.
  - exists 0%nat; destruct (retryable e); cbn; rewrite ?app_nil_r; split_and!; first lia; done.
  - destruct (retryable e) eqn:Hr; cbn -[concat replicate]; last first.
    { exists 0%nat; cbn; rewrite ?app_nil_r, Hr; split_and!; [lia | done | done | discriminate]. }
    destruct (IH (slept d s1)) as (n & Hn & Hsent & Hslept & Hend).
    exists (S n); rewrite Hsent, Hslept; cbn -[concat replicate]; rewrite Hs, Hd, <- !app_assoc.
    split_and!; [lia | done | done |].
    destruct (execute_loop _ _ _ _).1; [done | intros ?; f_equal; eauto].
Qed.

Lemma execute_loop_gives_up_at_once {A} retryable (operation : Http_act A) delays s :
  (forall e, retryable e = false) -> execute_loop retryable operation delays s = operation s.
Proof. intros Hno; destruct delays; cbn; destruct (operation s) as [[v|e] s1]; rewrite ?Hno; done. Qed.

(** A success of the loop is a success of the operation. *)
Lemma execute_loop_ok {A} (P : A -> Prop) retryable (operation : Http_act A) delays s v s' :
  (forall s0 v0 s0', operation s0 = (Ok v0, s0') -> P v0) ->
  execute_loop retryable operation delays s = (Ok v, s') -> P v.
Proof.
  intros HP; revert s; induction delays as [|d delays IH]; intros s; cbn;
    destruct (operation s) as [[w|e] s1] eqn:Hop; repeat case_match; intros; simplify_eq; eauto.
Qed.

Definition requests_of (make_request : result Request ApiError) : list Request :=
  match make_request with Ok rq => [rq] | Err _ => [] end.

Lemma attempt_adds (transport : Transport E) operation make_request :
  adds (requests_of make_request) (attempt transport operation make_request).
Proof.
  intros s; destruct make_request as [rq|e]; cbn; last by rewrite app_nil_r.
  destruct (tr_send transport rq (ht_env s)); done.
Qed.
Lemma attempt_ok (transport : Transport E) operation make_request s response s' :
  attempt transport operation make_request s = (Ok response, s') -> is_success (rs_status response) = true.
Proof.
  destruct make_request as [rq|e]; cbn; [|congruence].
  destruct (tr_send transport rq (ht_env s)) as [[resp|te] env]; [|congruence].
  unfold ensure_success; destruct (is_success (rs_status resp)) eqn:?; congruence.
Qed.
End History.

(** ** The text of an error *)

(** What came before the first failure of the body. *)
Fixpoint received (chunks : list (result (list Byte.byte) TransportError)) : list Byte.byte :=
  match chunks with
  | Ok chunk :: chunks => chunk ++ received chunks
  | Err _ :: _ | [] => []
  end.

Lemma collect_body_received bytes chunks :
  (length bytes <= MAX_ERROR_BODY_LENGTH)%nat ->
  collect_body bytes chunks = take MAX_ERROR_BODY_LENGTH (bytes ++ received chunks).
Proof.
  revert bytes; induction chunks as [|[chunk|e] chunks IH]; intros bytes Hlen; cbn [collect_body received];
    case_bool_decide as Hfull.
  all: try (rewrite ?app_nil_r, take_ge by lia; done).
  - rewrite take_app_le, take_ge by lia; done.
  - rewrite IH by (rewrite length_app, length_take; lia); rewrite app_assoc.
    destruct (decide (length chunk <= MAX_ERROR_BODY_LENGTH - length bytes)%nat) as [Hfit|Hover]; [by rewrite (take_ge chunk)|].
    rewrite take_app_le by (rewrite ?length_app, ?length_take; lia).
    rewrite take_ge by (rewrite length_app, length_take; lia).
    by rewrite take_app_le, take_app_ge by (rewrite ?length_app; lia).
Qed.

(** ** The promises of the client *)

(** What the crates document of themselves: the schedule of [max_times] has that
    many delays; a path that was set is the path. *)
Class ApiLaws `{ApiKit} := {
  exponential_delays_count : forall min max n jitter, length (exponential_delays min max n jitter) = n;
  set_path_path : forall u, url_path (url_set_path (url_path u +:+ "/") u) = url_path u +:+ "/";
  set_path_rest : forall p u, url_scheme (url_set_path p u) = url_scheme u /\ url_cannot_be_a_base (url_set_path p u) = url_cannot_be_a_base u /\
                              url_query (url_set_path p u) = url_query u /\ url_fragment (url_set_path p u) = url_fragment u;
}.

Section Promises.
Context `{ApiLaws} {E : Type}.

(** An address that a client can start from. *)
Definition is_base (u : Url) : Prop :=
  url_scheme u ∈ ["http"; "https"] /\ url_cannot_be_a_base u = false /\ url_query u = None /\ url_fragment u = None /\
  ends_with "/" (url_path u) = true.

Lemma ends_with_slash s : ends_with "/" (s +:+ "/") = true.
Proof. unfold ends_with; rewrite strip_suffix_app; by apply bool_decide_eq_true. Qed.

Lemma normalized_is_base u v : normalize_base_url u = Ok v -> is_base v.
Proof.
  intros Hn; assert (Hu : url_scheme u ∈ ["http"; "https"] /\ url_cannot_be_a_base u = false /\ url_query u = None /\
                          url_fragment u = None /\
                          (if ends_with "/" (url_path u) then u else url_set_path (url_path u +:+ "/") u) = v).
  { unfold normalize_base_url in Hn; destruct (url_cannot_be_a_base u) eqn:?, (url_query u) eqn:?, (url_fragment u) eqn:?;
      repeat case_bool_decide; destruct (ends_with "/" (url_path u)); cbn in *; simplify_eq.
    all: try (exfalso; by eauto).
    all: split_and!; try done; set_solver. }
  destruct Hu as (Hs & Hc & Hq & Hf & <-); unfold is_base.
  destruct (ends_with "/" (url_path u)) eqn:He; [done|].
  destruct (set_path_rest (url_path u +:+ "/") u) as (-> & -> & -> & ->); rewrite set_path_path, ends_with_slash; done.
Qed.

(** Under the exponential policy a call sends its request again only when
    the operation says that it may be repeated, each time the very same request,
    at most [max_retries] times and after the delays of the schedule; a transient
    failure of such an operation is reported only after all of them. *)
Theorem calls_are_repeated_within_the_policy (transport : Transport E) client x md make_request s r s'
    (Hpolicy : cl_retry_policy client = exponential_policy x) (Hsend : send transport client md make_request s = (r, s')) :
  exists n, (n <= xr_max_retries x)%nat /\ (md_retry_safe md = false -> n = 0%nat) /\
    ht_sent s' = ht_sent s ++ concat (replicate (S n) (requests_of make_request)) /\
    ht_slept s' = ht_slept s ++ take n (exponential_delays (xr_min_delay x) (xr_max_delay x) (xr_max_retries x) (xr_jitter x)) /\
    match r with
    | Ok response => is_success (rs_status response) = true
    | Err e => md_retry_safe md = true -> is_transient e = true -> n = xr_max_retries x
    end.
Proof.
  unfold send, execute in Hsend; rewrite Hpolicy in Hsend; cbn [rp_is_retryable rp_delays exponential_policy] in Hsend.
  pose proof (attempt_adds transport (md_operation md) make_request) as Hadds.
  assert (Hok : match r with Ok response => is_success (rs_status response) = true | Err _ => True end).
  { destruct r; [|done]. eapply (execute_loop_ok (fun v => is_success (rs_status v) = true)); [intros *; apply attempt_ok | exact Hsend]. }
  destruct (md_retry_safe md) eqn:Hsafe; cbn [andb] in Hsend.
  - edestruct (execute_loop_history (fun e => is_transient e) _ _
      (exponential_delays (xr_min_delay x) (xr_max_delay x) (xr_max_retries x) (xr_jitter x)) s Hadds) as (n & Hn & Hsent & Hslept & Hend).
    rewrite Hsend in Hsent, Hslept, Hend; cbn [fst snd] in *; rewrite exponential_delays_count in Hn, Hend.
    exists n; split_and!; [done | discriminate | done | done |]. destruct r; [done | intros _; exact Hend].
  - rewrite execute_loop_gives_up_at_once in Hsend by done.
    destruct (Hadds s) as [Hsent Hslept]; rewrite Hsend in Hsent, Hslept; cbn [fst snd] in *.
    exists 0%nat; rewrite Hsent, Hslept; cbn; rewrite !app_nil_r; split_and!; try done; [lia|]. by destruct r.
Qed.

(** The error of a refusal carries a copy of the body that came before
    its first failure, cut at 16 KiB, and no body only if nothing came. *)
Theorem refusals_keep_a_bounded_text (response : Response) operation e
    (Hbad : ensure_success response operation = Err e) :
  is_success (rs_status response) = false /\ error_status e = Some (rs_status response) /\
  match error_body e with
  | None => received (rs_chunks response) = []
  | Some body => eb_bytes body = take MAX_ERROR_BODY_LENGTH (received (rs_chunks response)) /\ eb_bytes body <> []
  end.
Proof.
  unfold ensure_success in Hbad; destruct (is_success _) eqn:Hs; [discriminate|]; simplify_eq; cbn [error_status error_body].
  split_and!; [done | done |].
  rewrite collect_body_received by (unfold MAX_ERROR_BODY_LENGTH; cbn [length]; lia); cbn [app].
  assert (Hpos : exists k, MAX_ERROR_BODY_LENGTH = S k) by (exists (N.to_nat 16383); unfold MAX_ERROR_BODY_LENGTH; lia).
  case_decide as Hnil.
  - destruct Hpos as [k Hk]; rewrite Hk in Hnil; by destruct (received (rs_chunks response)).
  - cbn [eb_bytes ErrorBody_from_bytes]; rewrite take_take, Nat.min_id; done.
Qed.

(** A request of a built client carries the secret only over HTTP to a
    base address without query or fragment, as the bearer token of a non-empty
    secret of the builder; no request over a local socket has one. *)
Theorem secrets_go_to_http_controllers_only local builder client method path rq value
    (Hbuild : build local builder = Ok client) (Hrq : request client method path = Ok rq)
    (Hauth : rq_authorization rq = Some value) :
  exists url s, cl_host client = Http url /\ cl_base_url client = url /\
    url_scheme url ∈ ["http"; "https"] /\ url_query url = None /\ url_fragment url = None /\
    ends_with "/" (url_path url) = true /\
    cb_secret builder = Some s /\ s <> "" /\ header_value (bearer +:+ s) = Ok value.
Proof.
  unfold request in Hrq; destruct (endpoint client path); cbn in Hrq; simplify_eq; cbn in Hauth.
  unfold build in Hbuild; destruct (cb_host builder) as [p|p|u]; cbn [result_bind map_ok map_err] in Hbuild; [discriminate| |].
  - destruct (build_http_client (Some p)); cbn in Hbuild; simplify_eq; done.
  - destruct (normalize_base_url u) as [v|] eqn:Hn; cbn in Hbuild; [|discriminate].
    destruct (normalized_is_base _ _ Hn) as (? & ? & ? & ? & ?).
    destruct (cb_secret builder) as [s|]; cbn in Hbuild; [case_decide|]; cbn in Hbuild.
    + destruct (build_http_client None); cbn in Hbuild; simplify_eq; done.
    + destruct (header_value _) as [h|] eqn:Hh; cbn in Hbuild; [|discriminate].
      destruct (build_http_client None); cbn in Hbuild; simplify_eq; cbn in *; simplify_eq; eauto 12.
    + destruct (build_http_client None); cbn in Hbuild; simplify_eq; done.
Qed.
End Promises.

(** ** A controller that recovers *)

(** URLs as scheme, authority and path; no query and no fragment. *)
Record DemoUrl := { du_scheme : string; du_authority : string; du_path : string }.
Definition demo_url_parse (s : string) : result DemoUrl string :=
  match split_once "://" s with
  | Some (scheme, rest) =>
      match split_once "/" rest with
      | Some (authority, path) => Ok {| du_scheme := scheme; du_authority := authority; du_path := "/" +:+ path |}
      | None => Ok {| du_scheme := scheme; du_authority := rest; du_path := "/" |}
      end
  | None => Err "relative URL without a base"
  end.
Definition demo_set_path (p : string) (u : DemoUrl) : DemoUrl :=
  {| du_scheme := du_scheme u; du_authority := du_authority u; du_path := p |}.
Fixpoint demo_delays (d cap : Duration) (n : nat) : list Duration :=
  match n with O => [] | S n => N.min d cap :: demo_delays (2 * d) cap n end.
#[local] Instance demo_kit : ApiKit :=
  {| Url := DemoUrl; url_parse := demo_url_parse; url_text := fun u => du_scheme u +:+ "://" +:+ du_authority u +:+ du_path u;
     url_scheme := du_scheme; url_cannot_be_a_base := fun _ => false; url_query := fun _ => None; url_fragment := fun _ => None;
     url_path := du_path; url_set_path := demo_set_path; url_join := fun u s => Ok (demo_set_path (du_path u +:+ s) u);
     url_push_all := fun segments u =>
       Some (demo_set_path (fold_left (fun p s => p +:+ "/" +:+ s) (filter (fun s => s <> "." /\ s <> "..") segments) (du_path u)) u);
     header_value := Ok; build_http_client := fun _ => Ok tt; json_message := fun _ => None;
     exponential_delays := fun min max n _ => demo_delays min max n; status_text := show_N; ws_text := fun _ => "closed" |}.
#[local] Instance demo_laws : ApiLaws.
Proof.
  split; [|done|done]. intros d cap n j; cbn; clear j; revert d; induction n as [|n IH]; intros d; cbn; [done|]. f_equal; apply IH.
Qed.

(** Two refusals, then the answer. *)
Definition demo_transport : Transport nat :=
  {| tr_send := fun _ n => match n with
                           | O => (Ok {| rs_status := 200; rs_chunks := [] |}, O)
                           | S n => (Ok {| rs_status := 503; rs_chunks := [Ok [Byte.x62]] |}, n)
                           end;
     tr_upgrade := fun _ n => (Err (WsOther "no socket"), n) |}.
Definition demo_builder : ClientBuilder :=
  retry_policy (exponential_policy (with_jitter false conservative))
    (secret "s3cret" (ClientBuilder_new (Http {| du_scheme := "http"; du_authority := "127.0.0.1:9090"; du_path := "/api" |}))).
Definition demo_local : Url := {| du_scheme := "http"; du_authority := "localhost"; du_path := "/" |}.
Definition demo_base : DemoUrl := {| du_scheme := "http"; du_authority := "127.0.0.1:9090"; du_path := "/api/" |}.
Definition demo_client : Client :=
  {| cl_host := Http demo_base; cl_base_url := demo_base; cl_authorization := Some "Bearer s3cret"; cl_websocket_token_query := false;
     cl_retry_policy := exponential_policy (with_jitter false conservative) |}.
Example demo_build : build demo_local demo_builder = Ok demo_client.
Proof. reflexivity. Qed.
Example demo_segments :
  map_ok url_text (endpoint_with_segments demo_client "/storage" ["a"]) = Ok "http://127.0.0.1:9090/api/storage/a" /\
  map_ok url_text (endpoint_with_segments demo_client "/storage" [".."]) = Ok "http://127.0.0.1:9090/api/storage".
Proof. split; reflexivity. Qed.

Definition demo_start : HttpState nat := {| ht_env := 2%nat; ht_sent := []; ht_slept := [] |}.
Definition demo_request : result Request ApiError := request demo_client GET "/version".
Definition demo_run : result Response ApiError * HttpState nat :=
  send demo_transport demo_client (metadata "version" GET true) demo_request demo_start.

Lemma calls_are_repeated_within_the_policy_witness :
  is_ok demo_run.1 = true /\
  exists n, (n <= 3)%nat /\ ht_sent demo_run.2 = [] ++ concat (replicate (S n) (requests_of demo_request)) /\ length (ht_sent demo_run.2) = 3%nat.
Proof.
  split; [reflexivity|].
  destruct (calls_are_repeated_within_the_policy demo_transport demo_client (with_jitter false conservative) (metadata "version" GET true)
              demo_request demo_start demo_run.1 demo_run.2 eq_refl eq_refl) as (n & Hn & _ & Hsent & _).
  exists n; split; [exact Hn | split; [exact Hsent | reflexivity]].
Defined.
Lemma refusals_keep_a_bounded_text_witness :
  let response := {| rs_status := 502; rs_chunks := [Ok [Byte.x61]; Ok [Byte.x62]] |} in
  is_ok (ensure_success response "configs") = false /\ is_success (rs_status response) = false.
Proof.
  split; [reflexivity|].
  eapply (refusals_keep_a_bounded_text {| rs_status := 502; rs_chunks := [Ok [Byte.x61]; Ok [Byte.x62]] |} "configs"); reflexivity.
Defined.
Lemma secrets_go_to_http_controllers_only_witness :
  exists url s, cl_host demo_client = Http url /\ cb_secret demo_builder = Some s /\ header_value (bearer +:+ s) = Ok "Bearer s3cret".
Proof.
  destruct (secrets_go_to_http_controllers_only demo_local demo_builder demo_client GET "/version"
              (request_url demo_client GET {| du_scheme := "http"; du_authority := "127.0.0.1:9090"; du_path := "/api/version" |})
              "Bearer s3cret" eq_refl eq_refl eq_refl) as (url & s & Hh & _ & _ & _ & _ & _ & Hs & _ & Hv).
  exists url, s; auto.
Defined.
