(* ===== verification/ApiTypes.v ===== *)
(** * The values of the control API

    [crates/clash-api/src/api]: what the calls of [ApiCalls] send and receive, and
    how a request body is written as JSON: [serde] writes the fields of a struct in
    order under their names and leaves out an unset one that says so. *)

From stdpp Require Import sorting.
From S2P Require Import Prelude Text Types ApiClient.
Open Scope rust_scope.

(** Values of other crates, with the text they are written as. *)
Class NetKit := {
  IpNet : Type;
  IpAddr : Type;
  Uuid : Type;
  DateTime : Type;
  NaiveTime : Type;
  ip_net_text : IpNet -> string;
  ip_addr_text : IpAddr -> string;
  uuid_text : Uuid -> string;
  uuid_parse : string -> result Uuid string;
}.
Class NetLaws `{NetKit} := {
  ip_net_text_inj : Inj (=) (=) ip_net_text;
  ip_addr_text_inj : Inj (=) (=) ip_addr_text;
}.
#[export] Existing Instances ip_net_text_inj ip_addr_text_inj.

(** ** Words *)

Inductive ConfigEnum (A : Type) := Known (value : A) | Unknown (text : string).
#[global] Arguments Known {A}.
#[global] Arguments Unknown {A}.
Definition ConfigEnum_as_str {A} (name : A -> string) (e : ConfigEnum A) : string :=
  match e with Known value => name value | Unknown text => text end.

Inductive TunnelMode := ModeGlobal | ModeRule | ModeDirect.
Definition TunnelMode_text (m : TunnelMode) : string :=
  match m with ModeGlobal => "global" | ModeRule => "rule" | ModeDirect => "direct" end.
Inductive FindProcessMode := FindStrict | FindAlways | FindOff.
Definition FindProcessMode_text (m : FindProcessMode) : string :=
  match m with FindStrict => "strict" | FindAlways => "always" | FindOff => "off" end.
Inductive TunStack := Gvisor | System | Mixed | UnknownStack.
Definition TunStack_text (s : TunStack) : string :=
  match s with Gvisor => "gVisor" | System => "system" | Mixed => "mixed" | UnknownStack => "Unknown" end.
Inductive LogLevel := LevelDebug | LevelInfo | LevelWarning | LevelError | LevelSilent.
Definition LogLevel_text (l : LogLevel) : string :=
  match l with
  | LevelDebug => "debug" | LevelInfo => "info" | LevelWarning => "warning" | LevelError => "error" | LevelSilent => "silent"
  end.
Inductive StructuredLogLevel := StructuredDebug | StructuredInfo | StructuredWarn | StructuredError.
Inductive ConnectionNetwork := Tcp | Udp | All | Invalid.
Inductive ConnectionType :=
  | TypeHttp | TypeHttps | TypeSocks4 | TypeSocks5 | TypeShadowSocks | TypeSnell | TypeVmess | TypeVless | TypeRedir
  | TypeTProxy | TypeTrojan | TypeTunnel | TypeTun | TypeTuic | TypeHysteria2 | TypeAnyTls | TypeMieru | TypeSudoku
  | TypeTrustTunnel | TypeShadowQuic | TypeInner | TypeUnknown.
Inductive DnsMode := DnsNormal | DnsFakeIp | DnsRedirHost | DnsHosts | DnsUnknown.
Inductive ProviderType := ProviderProxy | ProviderRule | ProviderUnknown (text : string).
Definition ProviderType_as_str (t : ProviderType) : string :=
  match t with ProviderProxy => "Proxy" | ProviderRule => "Rule" | ProviderUnknown text => text end.
Inductive VehicleType := VehicleFile | VehicleHttp | VehicleCompatible | VehicleInline | VehicleUnknown (text : string).
Definition VehicleType_as_str (t : VehicleType) : string :=
  match t with
  | VehicleFile => "File" | VehicleHttp => "HTTP" | VehicleCompatible => "Compatible" | VehicleInline => "Inline"
  | VehicleUnknown text => text
  end.
Inductive RuleProviderBehavior := BehaviorDomain | BehaviorIpCidr | BehaviorClassical | BehaviorUnknown (text : string).
Definition RuleProviderBehavior_as_str (t : RuleProviderBehavior) : string :=
  match t with
  | BehaviorDomain => "Domain" | BehaviorIpCidr => "IPCIDR" | BehaviorClassical => "Classical" | BehaviorUnknown text => text
  end.
Inductive RuleFormat := YamlRule | TextRule | MrsRule | FormatUnknown (text : string).
Definition RuleFormat_as_str (t : RuleFormat) : string :=
  match t with YamlRule => "YamlRule" | TextRule => "TextRule" | MrsRule => "MrsRule" | FormatUnknown text => text end.

(** [ProxyName], [ProviderName], [RuleProviderName], [DnsRecordType], [StorageKey]
    and [ExpectedStatus] wrap a text. *)
Definition ProxyName : Type := string.
Definition ProviderName : Type := string.
Definition RuleProviderName : Type := string.
Definition DnsRecordType : Type := string.
Definition StorageKey : Type := string.
Definition ExpectedStatus : Type := string.
Definition Bytes : Type := Z.
Definition BytesPerSecond : Type := Z.

(** ** Answers *)

Section Values.
Context `{NetKit}.

Record GeoUrls := {
  geo_geo_ip : string;
  geo_mmdb : string;
  geo_asn : string;
  geo_geo_site : string;
}.
Record BrutalOptions := {
  bo_enabled : bool;
  bo_up : string;
  bo_down : string;
}.
Record MuxOptions := {
  mx_padding : bool;
  mx_brutal : BrutalOptions;
}.
Record RuntimeTun := {
  rt_enable : bool;
  rt_device : string;
  rt_stack : TunStack;
  rt_dns_hijack : list string;
  rt_auto_route : bool;
  rt_auto_detect_interface : bool;
  rt_mtu : N;
  rt_gso : bool;
  rt_gso_max_size : N;
  rt_inet4_address : list IpNet;
  rt_inet6_address : list IpNet;
  rt_iproute2_table_index : Z;
  rt_iproute2_rule_index : Z;
  rt_auto_redirect : bool;
  rt_auto_redirect_input_mark : N;
  rt_auto_redirect_output_mark : N;
  rt_auto_redirect_iproute2_fallback_rule_index : Z;
  rt_loopback_address : list IpAddr;
  rt_strict_route : bool;
  rt_route_address : list IpNet;
  rt_route_address_set : list string;
  rt_route_exclude_address : list IpNet;
  rt_route_exclude_address_set : list string;
  rt_include_interface : list string;
  rt_exclude_interface : list string;
  rt_include_uid : list N;
  rt_include_uid_range : list string;
  rt_exclude_uid : list N;
  rt_exclude_uid_range : list string;
  rt_exclude_src_port : list N;
  rt_exclude_src_port_range : list string;
  rt_exclude_dst_port : list N;
  rt_exclude_dst_port_range : list string;
  rt_include_android_user : list Z;
  rt_include_package : list string;
  rt_exclude_package : list string;
  rt_include_mac_address : list string;
  rt_exclude_mac_address : list string;
  rt_endpoint_independent_nat : bool;
  rt_udp_timeout : Z;
  rt_icmp_timeout : Z;
  rt_disable_icmp_forwarding : bool;
  rt_file_descriptor : Z;
  rt_inet4_route_address : list IpNet;
  rt_inet6_route_address : list IpNet;
  rt_inet4_route_exclude_address : list IpNet;
  rt_inet6_route_exclude_address : list IpNet;
  rt_recvmsgx : bool;
  rt_sendmsgx : bool;
}.
Record RuntimeTuicServer := {
  rts_enable : bool;
  rts_listen : string;
  rts_token : list string;
  rts_users : list (string * string);
  rts_certificate : string;
  rts_private_key : string;
  rts_client_auth_type : string;
  rts_client_auth_cert : string;
  rts_ech_key : string;
  rts_congestion_controller : string;
  rts_max_idle_time : Z;
  rts_authentication_timeout : Z;
  rts_alpn : list string;
  rts_max_udp_relay_packet_size : Z;
  rts_max_datagram_frame_size : Z;
  rts_cwnd : Z;
  rts_bbr_profile : string;
  rts_mux_option : MuxOptions;
}.
Record RuntimeConfig := {
  rc_socket_port : option Z;
  rc_external_controller : option string;
  rc_secret : option string;
  rc_port : option Z;
  rc_socks_port : option Z;
  rc_redir_port : option Z;
  rc_tproxy_port : option Z;
  rc_mixed_port : option Z;
  rc_tun : option RuntimeTun;
  rc_tuic_server : option RuntimeTuicServer;
  rc_ss_config : option string;
  rc_vmess_config : option string;
  rc_tcptun_config : option string;
  rc_udptun_config : option string;
  rc_authentication : option (list string);
  rc_skip_auth_prefixes : option (list IpNet);
  rc_lan_allowed_ips : option (list IpNet);
  rc_lan_disallowed_ips : option (list IpNet);
  rc_allow_lan : option bool;
  rc_bind_address : option string;
  rc_inbound_tfo : option bool;
  rc_inbound_mptcp : option bool;
  rc_mode : option (ConfigEnum TunnelMode);
  rc_unified_delay : option bool;
  rc_log_level : option (ConfigEnum LogLevel);
  rc_ipv6 : option bool;
  rc_interface_name : option string;
  rc_routing_mark : option Z;
  rc_geox_url : option GeoUrls;
  rc_geo_auto_update : option bool;
  rc_geo_update_interval : option Z;
  rc_geodata_mode : option bool;
  rc_geodata_loader : option string;
  rc_geosite_matcher : option string;
  rc_tcp_concurrent : option bool;
  rc_find_process_mode : option FindProcessMode;
  rc_sniffing : option bool;
  rc_global_ua : option string;
  rc_etag_support : option bool;
  rc_keep_alive_idle : option Z;
  rc_keep_alive_interval : option Z;
  rc_disable_keep_alive : option bool;
}.
Record ConnectionMetadataFields := {
  cm_network : option (ConfigEnum ConnectionNetwork);
  cm_connection_type : option (ConfigEnum ConnectionType);
  cm_source_ip : option string;
  cm_destination_ip : option string;
  cm_source_geo_ip : option (list string);
  cm_destination_geo_ip : option (list string);
  cm_source_ip_asn : option string;
  cm_destination_ip_asn : option string;
  cm_source_port : option N;
  cm_destination_port : option N;
  cm_inbound_ip : option string;
  cm_inbound_port : option N;
  cm_inbound_name : option string;
  cm_inbound_user : option string;
  cm_rematch_name : option string;
  cm_host : option string;
  cm_dns_mode : option (ConfigEnum DnsMode);
  cm_uid : option N;
  cm_process : option string;
  cm_process_path : option string;
  cm_special_proxy : option string;
  cm_special_rules : option string;
  cm_remote_destination : option string;
  cm_dscp : option N;
  cm_sniff_host : option string;
}.
Record ConnectionMetadata := {
  cd_known : ConnectionMetadataFields;
  cd_extra : list (string * Json);
}.
Record Connection := {
  cn_id : Uuid;
  cn_metadata : option ConnectionMetadata;
  cn_upload : Z;
  cn_download : Z;
  cn_start : DateTime;
  cn_chains : list string;
  cn_provider_chains : option (list string);
  cn_rule : string;
  cn_rule_payload : string;
  cn_extra : list (string * Json);
}.
Record ConnectionsSnapshot := {
  cs_download_total : Z;
  cs_upload_total : Z;
  cs_connections : option (list Connection);
  cs_memory : option N;
}.
Record DnsQuery := {
  dq_name : string;
  dq_record_type : DnsRecordType;
}.
Record DnsQuestion := {
  dn_name : string;
  dn_query_type : N;
  dn_query_class : N;
}.
Record DnsRecord := {
  dr_name : string;
  dr_record_type : N;
  dr_ttl : N;
  dr_data : string;
}.
Record DnsResponse := {
  dp_status : Z;
  dp_question : list DnsQuestion;
  dp_truncated : bool;
  dp_recursion_desired : bool;
  dp_recursion_available : bool;
  dp_authenticated_data : bool;
  dp_checking_disabled : bool;
  dp_answer : option (list DnsRecord);
  dp_authority : option (list DnsRecord);
  dp_additional : option (list DnsRecord);
}.
Record LogEntry := {
  le_level : ConfigEnum LogLevel;
  le_payload : string;
}.
Record LogField := {
  lf_key : string;
  lf_value : string;
}.
Record StructuredLogEntry := {
  sl_time : NaiveTime;
  sl_level : StructuredLogLevel;
  sl_message : string;
  sl_fields : list LogField;
}.
Record Hello := {
  hl_hello : string;
}.
Record StatusResponse := {
  stat_status : string;
}.
Record UpgradeOptions := {
  uo_channel : option string;
  uo_force : bool;
}.
Record Memory := {
  mm_in_use : N;
  mm_os_limit : N;
}.
Record DelayHistory := {
  dh_time : DateTime;
  dh_delay : Z;
}.
Record ProxyExtra := {
  pe_alive : bool;
  pe_history : list DelayHistory;
}.
Record Proxy := {
  px_name : ProxyName;
  px_proxy_type : string;
  px_history : list DelayHistory;
  px_extra : option (list (string * ProxyExtra));
  px_alive : option bool;
  px_udp : bool;
  px_uot : option bool;
  px_xudp : option bool;
  px_tfo : option bool;
  px_mptcp : option bool;
  px_smux : option bool;
  px_interface : option string;
  px_routing_mark : option Z;
  px_provider_name : option string;
  px_dialer_proxy : option string;
  px_id : option string;
  px_now : option ProxyName;
  px_all : option (list ProxyName);
  px_test_url : option string;
  px_expected_status : option string;
  px_fixed : option ProxyName;
  px_hidden : option bool;
  px_icon : option string;
  px_empty_fallback : option ProxyName;
  px_provider : option string;
}.
Record SubscriptionInfo := {
  si_upload : Z;
  si_download : Z;
  si_total : Z;
  si_expire : Z;
}.
Record ProxyProvider := {
  pp_name : ProviderName;
  pp_provider_type : ProviderType;
  pp_vehicle_type : VehicleType;
  pp_proxies : list Proxy;
  pp_test_url : option string;
  pp_expected_status : option string;
  pp_updated_at : option DateTime;
  pp_subscription_info : option SubscriptionInfo;
}.
Record Delay := {
  dl_delay : N;
}.
Record RuleExtra := {
  re_disabled : bool;
  re_hit_count : N;
  re_hit_at : DateTime;
  re_miss_count : N;
  re_miss_at : DateTime;
}.
Record Rule := {
  ru_index : option Z;
  ru_rule_type : string;
  ru_payload : string;
  ru_proxy : string;
  ru_size : option Z;
  ru_extra : option RuleExtra;
}.
Record RuleProvider := {
  rvp_behavior : option RuleProviderBehavior;
  rvp_format : option RuleFormat;
  rvp_name : RuleProviderName;
  rvp_rule_count : option Z;
  rvp_provider_type : option ProviderType;
  rvp_vehicle_type : option VehicleType;
  rvp_updated_at : option DateTime;
  rvp_payload : option (list string);
}.
Record Traffic := {
  tf_up : BytesPerSecond;
  tf_down : BytesPerSecond;
  tf_up_total : option Bytes;
  tf_down_total : option Bytes;
}.
Record Version := {
  vs_meta : bool;
  vs_version : string;
  vs_premium : option bool;
}.

(** ** Requests *)

Record UpdateConfigRequest := {
  ur_path : string;
  ur_payload : string;
}.
Record UpdateConfigOptions := {
  up_force : bool;
}.
Record TunPatch := {
  tp_enable : bool;
  tp_device : option string;
  tp_stack : option TunStack;
  tp_dns_hijack : option (list string);
  tp_auto_route : option bool;
  tp_auto_detect_interface : option bool;
  tp_mtu : option N;
  tp_gso : option bool;
  tp_gso_max_size : option N;
  tp_inet6_address : option (list IpNet);
  tp_iproute2_table_index : option Z;
  tp_iproute2_rule_index : option Z;
  tp_auto_redirect : option bool;
  tp_auto_redirect_input_mark : option N;
  tp_auto_redirect_output_mark : option N;
  tp_auto_redirect_iproute2_fallback_rule_index : option Z;
  tp_loopback_address : option (list IpAddr);
  tp_strict_route : option bool;
  tp_route_address : option (list IpNet);
  tp_route_address_set : option (list string);
  tp_route_exclude_address : option (list IpNet);
  tp_route_exclude_address_set : option (list string);
  tp_include_interface : option (list string);
  tp_exclude_interface : option (list string);
  tp_include_uid : option (list N);
  tp_include_uid_range : option (list string);
  tp_exclude_uid : option (list N);
  tp_exclude_uid_range : option (list string);
  tp_include_android_user : option (list Z);
  tp_include_package : option (list string);
  tp_exclude_package : option (list string);
  tp_include_mac_address : option (list string);
  tp_exclude_mac_address : option (list string);
  tp_endpoint_independent_nat : option bool;
  tp_udp_timeout : option Z;
  tp_icmp_timeout : option Z;
  tp_file_descriptor : option Z;
  tp_inet4_route_address : option (list IpNet);
  tp_inet6_route_address : option (list IpNet);
  tp_inet4_route_exclude_address : option (list IpNet);
  tp_inet6_route_exclude_address : option (list IpNet);
  tp_recvmsgx : option bool;
  tp_sendmsgx : option bool;
}.
Record TuicServerPatch := {
  ts_enable : bool;
  ts_listen : option string;
  ts_token : option (list string);
  ts_users : option (list (string * string));
  ts_certificate : option string;
  ts_private_key : option string;
  ts_congestion_controller : option string;
  ts_max_idle_time : option Z;
  ts_authentication_timeout : option Z;
  ts_alpn : option (list string);
  ts_max_udp_relay_packet_size : option Z;
  ts_cwnd : option Z;
  ts_bbr_profile : option string;
}.
Record ConfigPatch := {
  cp_port : option Z;
  cp_socks_port : option Z;
  cp_redir_port : option Z;
  cp_tproxy_port : option Z;
  cp_mixed_port : option Z;
  cp_tun : option TunPatch;
  cp_tuic_server : option TuicServerPatch;
  cp_ss_config : option string;
  cp_vmess_config : option string;
  cp_tcptun_config : option string;
  cp_udptun_config : option string;
  cp_allow_lan : option bool;
  cp_skip_auth_prefixes : option (list IpNet);
  cp_lan_allowed_ips : option (list IpNet);
  cp_lan_disallowed_ips : option (list IpNet);
  cp_bind_address : option string;
  cp_mode : option TunnelMode;
  cp_log_level : option LogLevel;
  cp_ipv6 : option bool;
  cp_sniffing : option bool;
  cp_tcp_concurrent : option bool;
  cp_find_process_mode : option FindProcessMode;
  cp_interface_name : option string;
}.
End Values.

Definition UpdateConfigRequest_from_path (path : string) : UpdateConfigRequest := {| ur_path := path; ur_payload := "" |}.
Definition UpdateConfigRequest_from_payload (payload : string) : UpdateConfigRequest := {| ur_path := ""; ur_payload := payload |}.

(** [RulePatch]: rule indices, each once, to disable or to enable. *)
Definition RulePatch : Type := gmap N bool.
Definition RulePatch_is_empty (p : RulePatch) : bool := bool_decide (p = ∅).
Definition set_disabled (index : N) (disabled : bool) (p : RulePatch) : RulePatch := <[index := disabled]> p.

(** *** Writing JSON *)

Class ToJson (A : Type) := to_json : A -> Json.
#[global] Instance string_json : ToJson string := JString.
#[global] Instance bool_json : ToJson bool := JBool.
#[global] Instance Z_json : ToJson Z := JNumber.
#[global] Instance N_json : ToJson N := fun n => JNumber (Z.of_N n).
#[global] Instance list_json {A} `{ToJson A} : ToJson (list A) := fun l => JArray (map to_json l).
#[global] Instance dict_json {A} `{ToJson A} : ToJson (list (string * A)) := fun l => JObject (map (fun '(k, v) => (k, to_json v)) l).
#[global] Instance TunnelMode_json : ToJson TunnelMode := fun m => JString (TunnelMode_text m).
#[global] Instance FindProcessMode_json : ToJson FindProcessMode := fun m => JString (FindProcessMode_text m).
#[global] Instance TunStack_json : ToJson TunStack := fun m => JString (TunStack_text m).
#[global] Instance LogLevel_json : ToJson LogLevel := fun m => JString (LogLevel_text m).
#[global] Instance IpNet_json `{NetKit} : ToJson IpNet := fun n => JString (ip_net_text n).
#[global] Instance IpAddr_json `{NetKit} : ToJson IpAddr := fun n => JString (ip_addr_text n).

(** The fields that are written: all but an unset one. *)
Definition skip_none (fields : list (string * option Json)) : list (string * Json) :=
  omap (fun '(key, value) => (key,.) <$> value) fields.

Section Patches.
Context `{NetKit}.

Definition UpdateConfigRequest_fields (r : UpdateConfigRequest) : list (string * option Json) :=
  [("path", Some (to_json (ur_path r)));
   ("payload", Some (to_json (ur_payload r)))].
#[global] Instance UpdateConfigRequest_json : ToJson UpdateConfigRequest := fun r => JObject (skip_none (UpdateConfigRequest_fields r)).
Definition TunPatch_fields (p : TunPatch) : list (string * option Json) :=
  [("enable", Some (to_json (tp_enable p)));
   ("device", to_json <$> tp_device p);
   ("stack", to_json <$> tp_stack p);
   ("dns-hijack", to_json <$> tp_dns_hijack p);
   ("auto-route", to_json <$> tp_auto_route p);
   ("auto-detect-interface", to_json <$> tp_auto_detect_interface p);
   ("mtu", to_json <$> tp_mtu p);
   ("gso", to_json <$> tp_gso p);
   ("gso-max-size", to_json <$> tp_gso_max_size p);
   ("inet6-address", to_json <$> tp_inet6_address p);
   ("iproute2-table-index", to_json <$> tp_iproute2_table_index p);
   ("iproute2-rule-index", to_json <$> tp_iproute2_rule_index p);
   ("auto-redirect", to_json <$> tp_auto_redirect p);
   ("auto-redirect-input-mark", to_json <$> tp_auto_redirect_input_mark p);
   ("auto-redirect-output-mark", to_json <$> tp_auto_redirect_output_mark p);
   ("auto-redirect-iproute2-fallback-rule-index", to_json <$> tp_auto_redirect_iproute2_fallback_rule_index p);
   ("loopback-address", to_json <$> tp_loopback_address p);
   ("strict-route", to_json <$> tp_strict_route p);
   ("route-address", to_json <$> tp_route_address p);
   ("route-address-set", to_json <$> tp_route_address_set p);
   ("route-exclude-address", to_json <$> tp_route_exclude_address p);
   ("route-exclude-address-set", to_json <$> tp_route_exclude_address_set p);
   ("include-interface", to_json <$> tp_include_interface p);
   ("exclude-interface", to_json <$> tp_exclude_interface p);
   ("include-uid", to_json <$> tp_include_uid p);
   ("include-uid-range", to_json <$> tp_include_uid_range p);
   ("exclude-uid", to_json <$> tp_exclude_uid p);
   ("exclude-uid-range", to_json <$> tp_exclude_uid_range p);
   ("include-android-user", to_json <$> tp_include_android_user p);
   ("include-package", to_json <$> tp_include_package p);
   ("exclude-package", to_json <$> tp_exclude_package p);
   ("include-mac-address", to_json <$> tp_include_mac_address p);
   ("exclude-mac-address", to_json <$> tp_exclude_mac_address p);
   ("endpoint-independent-nat", to_json <$> tp_endpoint_independent_nat p);
   ("udp-timeout", to_json <$> tp_udp_timeout p);
   ("icmp-timeout", to_json <$> tp_icmp_timeout p);
   ("file-descriptor", to_json <$> tp_file_descriptor p);
   ("inet4-route-address", to_json <$> tp_inet4_route_address p);
   ("inet6-route-address", to_json <$> tp_inet6_route_address p);
   ("inet4-route-exclude-address", to_json <$> tp_inet4_route_exclude_address p);
   ("inet6-route-exclude-address", to_json <$> tp_inet6_route_exclude_address p);
   ("recvmsgx", to_json <$> tp_recvmsgx p);
   ("sendmsgx", to_json <$> tp_sendmsgx p)].
#[global] Instance TunPatch_json : ToJson TunPatch := fun p => JObject (skip_none (TunPatch_fields p)).
Definition TuicServerPatch_fields (p : TuicServerPatch) : list (string * option Json) :=
  [("enable", Some (to_json (ts_enable p)));
   ("listen", to_json <$> ts_listen p);
   ("token", to_json <$> ts_token p);
   ("users", to_json <$> ts_users p);
   ("certificate", to_json <$> ts_certificate p);
   ("private-key", to_json <$> ts_private_key p);
   ("congestion-controller", to_json <$> ts_congestion_controller p);
   ("max-idle-time", to_json <$> ts_max_idle_time p);
   ("authentication-timeout", to_json <$> ts_authentication_timeout p);
   ("alpn", to_json <$> ts_alpn p);
   ("max-udp-relay-packet-size", to_json <$> ts_max_udp_relay_packet_size p);
   ("cwnd", to_json <$> ts_cwnd p);
   ("bbr-profile", to_json <$> ts_bbr_profile p)].
#[global] Instance TuicServerPatch_json : ToJson TuicServerPatch := fun p => JObject (skip_none (TuicServerPatch_fields p)).
Definition ConfigPatch_fields (p : ConfigPatch) : list (string * option Json) :=
  [("port", to_json <$> cp_port p);
   ("socks-port", to_json <$> cp_socks_port p);
   ("redir-port", to_json <$> cp_redir_port p);
   ("tproxy-port", to_json <$> cp_tproxy_port p);
   ("mixed-port", to_json <$> cp_mixed_port p);
   ("tun", to_json <$> cp_tun p);
   ("tuic-server", to_json <$> cp_tuic_server p);
   ("ss-config", to_json <$> cp_ss_config p);
   ("vmess-config", to_json <$> cp_vmess_config p);
   ("tcptun-config", to_json <$> cp_tcptun_config p);
   ("udptun-config", to_json <$> cp_udptun_config p);
   ("allow-lan", to_json <$> cp_allow_lan p);
   ("skip-auth-prefixes", to_json <$> cp_skip_auth_prefixes p);
   ("lan-allowed-ips", to_json <$> cp_lan_allowed_ips p);
   ("lan-disallowed-ips", to_json <$> cp_lan_disallowed_ips p);
   ("bind-address", to_json <$> cp_bind_address p);
   ("mode", to_json <$> cp_mode p);
   ("log-level", to_json <$> cp_log_level p);
   ("ipv6", to_json <$> cp_ipv6 p);
   ("sniffing", to_json <$> cp_sniffing p);
   ("tcp-concurrent", to_json <$> cp_tcp_concurrent p);
   ("find-process-mode", to_json <$> cp_find_process_mode p);
   ("interface-name", to_json <$> cp_interface_name p)].
#[global] Instance ConfigPatch_json : ToJson ConfigPatch := fun p => JObject (skip_none (ConfigPatch_fields p)).
End Patches.

(** In the order of the indices, as a [BTreeMap] is walked. *)
Definition index_le (a b : N * bool) : Prop := a.1 <= b.1.
#[global] Instance index_le_dec : RelDecision index_le := fun a b => decide (a.1 <= b.1).
#[global] Instance RulePatch_json : ToJson RulePatch := fun p =>
  JObject (map (fun '(index, disabled) => (show_N index, JBool disabled)) (merge_sort index_le (map_to_list p))).

(** ** What is written tells what was meant *)

Lemma skip_none_keys fields key value : (key, value) ∈ skip_none fields -> key ∈ map fst fields.
Proof.
  unfold skip_none; rewrite list_elem_of_omap; intros ([k v] & Hin & Heq).
  destruct v; cbn in Heq; simplify_eq. by apply (list_elem_of_fmap_2' fst _ (key, Some value)).
Qed.

(** With the same names in the same order, the written fields tell the unset ones. *)
Lemma skip_none_inj f g : map fst f = map fst g -> NoDup (map fst f) -> skip_none f = skip_none g -> f = g.
Proof.
  revert g; induction f as [|[k v] f IH]; intros [|[k' w] g]; try done; cbn [map fst].
  intros [= -> Hkeys] [Hnew Hnd]%NoDup_cons Heq.
  destruct v as [v|], w as [w|]; cbn in Heq.
  - simplify_eq; f_equal; by apply IH.
  - exfalso; apply Hnew; rewrite Hkeys; apply (skip_none_keys _ _ v).
    change (omap _ g) with (skip_none g) in Heq; rewrite <- Heq; apply elem_of_cons; by left.
  - exfalso; apply Hnew; apply (skip_none_keys _ _ w).
    change (omap _ f) with (skip_none f) in Heq; rewrite Heq; apply elem_of_cons; by left.
  - f_equal; by apply IH.
Qed.

#[global] Instance string_json_inj : Inj (=) (=) (@to_json string _).
Proof. by intros ? ? [=]. Qed.
#[global] Instance bool_json_inj : Inj (=) (=) (@to_json bool _).
Proof. by intros ? ? [=]. Qed.
#[global] Instance Z_json_inj : Inj (=) (=) (@to_json Z _).
Proof. by intros ? ? [=]. Qed.
#[global] Instance N_json_inj : Inj (=) (=) (@to_json N _).
Proof. by intros ? ? [= ?%N2Z.inj]. Qed.
#[global] Instance list_json_inj {A} `{ToJson A} `{!Inj (=) (=) (@to_json A _)} : Inj (=) (=) (@to_json (list A) _).
Proof. intros ? ? [= Heq]; by apply (inj (fmap to_json)) in Heq. Qed.
#[global] Instance dict_json_inj {A} `{ToJson A} `{!Inj (=) (=) (@to_json A _)} : Inj (=) (=) (@to_json (list (string * A)) _).
Proof.
  intros l l' [= Heq]; revert l' Heq; induction l as [|[k v] l IH]; intros [|[k' v'] l'] Heq; try done.
  cbn in Heq; injection Heq as -> Hv Hl; apply (inj to_json) in Hv as ->; by rewrite (IH l').
Qed.
#[global] Instance TunnelMode_json_inj : Inj (=) (=) (@to_json TunnelMode _).
Proof. by intros [] []. Qed.
#[global] Instance FindProcessMode_json_inj : Inj (=) (=) (@to_json FindProcessMode _).
Proof. by intros [] []. Qed.
#[global] Instance TunStack_json_inj : Inj (=) (=) (@to_json TunStack _).
Proof. by intros [] []. Qed.
#[global] Instance LogLevel_json_inj : Inj (=) (=) (@to_json LogLevel _).
Proof. by intros [] []. Qed.

Section Injectivity.
Context `{NetLaws}.

#[local] Instance IpNet_json_inj : Inj (=) (=) (@to_json IpNet _).
Proof. intros ? ? [= Heq]; by apply (inj ip_net_text) in Heq. Qed.
#[local] Instance IpAddr_json_inj : Inj (=) (=) (@to_json IpAddr _).
Proof. intros ? ? [= Heq]; by apply (inj ip_addr_text) in Heq. Qed.

(** Equal texts of every field: the fields are equal. *)
Ltac same_fields :=
  repeat match goal with
  | Heq : Some _ = Some _ |- _ => injection Heq as Heq
  | Heq : to_json <$> _ = to_json <$> _ |- _ => apply (inj (fmap to_json)) in Heq
  | Heq : to_json _ = to_json _ |- _ => apply (inj to_json) in Heq
  end.

Lemma object_inj fields fields' :
  map fst fields = map fst fields' -> bool_decide (NoDup (map fst fields)) = true ->
  JObject (skip_none fields) = JObject (skip_none fields') -> fields = fields'.
Proof. intros Hk Hnd [= Heq]; apply skip_none_inj; [done | by apply bool_decide_eq_true in Hnd | done]. Qed.

#[local] Instance TunPatch_json_inj : Inj (=) (=) (@to_json TunPatch _).
Proof.
  intros p q Heq; apply (object_inj (TunPatch_fields p) (TunPatch_fields q)) in Heq; [|reflexivity|vm_compute; reflexivity].
  injection Heq; clear Heq; intros; same_fields; destruct p, q; cbn in *; by subst.
Qed.
#[local] Instance TuicServerPatch_json_inj : Inj (=) (=) (@to_json TuicServerPatch _).
Proof.
  intros p q Heq; apply (object_inj (TuicServerPatch_fields p) (TuicServerPatch_fields q)) in Heq; [|reflexivity|vm_compute; reflexivity].
  injection Heq; clear Heq; intros; same_fields; destruct p, q; cbn in *; by subst.
Qed.

(** Two configuration patches that differ are written differently: a
    field that is set, one that is set to nothing and one that is left alone are
    told apart in every field, the nested tables included. *)
Theorem patches_say_what_they_mean (p q : ConfigPatch) (Hjson : to_json p = to_json q) : p = q.
Proof.
  apply (object_inj (ConfigPatch_fields p) (ConfigPatch_fields q)) in Hjson; [|reflexivity|vm_compute; reflexivity].
  injection Hjson; clear Hjson; intros; same_fields; destruct p, q; cbn in *; by subst.
Qed.
End Injectivity.

(** *** A patch that leaves everything alone *)

#[local] Instance demo_net : NetKit :=
  {| IpNet := string; IpAddr := string; Uuid := string; DateTime := string; NaiveTime := string; ip_net_text := id; ip_addr_text := id;
     uuid_text := id; uuid_parse := fun s => if decide (s = "") then Err "empty" else Ok s |}.
#[local] Instance demo_net_laws : NetLaws.
Proof. split; by intros ? ? ?. Qed.

Definition demo_tun_patch : TunPatch :=
  {| tp_enable := false; tp_device := None; tp_stack := None; tp_dns_hijack := None; tp_auto_route := None;
     tp_auto_detect_interface := None; tp_mtu := None; tp_gso := None; tp_gso_max_size := None; tp_inet6_address :=
     None; tp_iproute2_table_index := None; tp_iproute2_rule_index := None; tp_auto_redirect := None;
     tp_auto_redirect_input_mark := None; tp_auto_redirect_output_mark := None;
     tp_auto_redirect_iproute2_fallback_rule_index := None; tp_loopback_address := None; tp_strict_route := None;
     tp_route_address := None; tp_route_address_set := None; tp_route_exclude_address := None;
     tp_route_exclude_address_set := None; tp_include_interface := None; tp_exclude_interface := None; tp_include_uid :=
     None; tp_include_uid_range := None; tp_exclude_uid := None; tp_exclude_uid_range := None; tp_include_android_user
     := None; tp_include_package := None; tp_exclude_package := None; tp_include_mac_address := None;
     tp_exclude_mac_address := None; tp_endpoint_independent_nat := None; tp_udp_timeout := None; tp_icmp_timeout :=
     None; tp_file_descriptor := None; tp_inet4_route_address := None; tp_inet6_route_address := None;
     tp_inet4_route_exclude_address := None; tp_inet6_route_exclude_address := None; tp_recvmsgx := None; tp_sendmsgx :=
     None |}.
Definition demo_patch : ConfigPatch :=
  {| cp_port := None; cp_socks_port := None; cp_redir_port := None; cp_tproxy_port := None; cp_mixed_port := None;
     cp_tun := Some demo_tun_patch; cp_tuic_server := None; cp_ss_config := None; cp_vmess_config := None;
     cp_tcptun_config := None; cp_udptun_config := None; cp_allow_lan := None; cp_skip_auth_prefixes := None;
     cp_lan_allowed_ips := None; cp_lan_disallowed_ips := None; cp_bind_address := None; cp_mode := Some ModeRule;
     cp_log_level := None; cp_ipv6 := None; cp_sniffing := None; cp_tcp_concurrent := None; cp_find_process_mode :=
     None; cp_interface_name := None |}.
Example demo_patch_text :
  to_json demo_patch = JObject [("tun", JObject [("enable", JBool false)]); ("mode", JString "rule")].
Proof. reflexivity. Qed.
Lemma patches_say_what_they_mean_witness : to_json demo_patch = to_json demo_patch /\ demo_patch = demo_patch.
Proof. split; [reflexivity | apply (patches_say_what_they_mean demo_patch demo_patch); reflexivity]. Defined.
