(* ===== verification/ApiCalls.v ===== *)
(** * The calls of the control API

    [crates/clash-api/src/api]: one definition per call of the client, built from
    the sending functions of [ApiClient].  The decoders that [serde] derives for the
    answers are instances of [Decode]. *)

From S2P Require Import Prelude Text Types Paths ApiClient ApiTypes.
Open Scope rust_scope.

(** A derived decoder: of a whole body and of a text. *)
Class Decode (A : Type) := {
  decode : list Byte.byte -> result A string;
  decode_text : string -> result A string;
}.

(** ** Arguments *)

Definition i16_max : N := 32767.
Definition i32_max : N := 2147483647.
Definition isize_max : N := 9223372036854775807.
Definition as_millis (d : Duration) : N := d / 1000000.

Definition DnsRecordType_new (value : string) : result DnsRecordType ApiError :=
  let dns_char (c : Ascii.ascii) :=
    let n := Ascii.N_of_ascii c in
    bool_decide (65 <= n <= 90) || bool_decide (48 <= n <= 57) || bool_decide (n = 45) in
  if bool_decide (value = "") || negb (str_all dns_char value)
  then Err (InvalidArgument "type" "must be a case-sensitive miekg/dns record type")
  else Ok value.
Definition DnsQuery_new (name : string) (record_type : DnsRecordType) : result DnsQuery ApiError :=
  if decide (name = "") then Err (InvalidArgument "name" "must not be empty")
  else Ok {| dq_name := name; dq_record_type := record_type |}.
Definition StorageKey_new (value : string) : result StorageKey ApiError :=
  if decide (value = "") then Err (InvalidArgument "key" "must not be empty") else Ok value.

Record ConnectionStreamQuery := { csq_interval : Duration }.
Definition ConnectionStreamQuery_new (interval : Duration) : result ConnectionStreamQuery ApiError :=
  if decide (as_millis interval = 0) then Err (InvalidArgument "interval" "must be at least one millisecond")
  else if decide (isize_max < as_millis interval)
  then Err (InvalidArgument "interval" "does not fit Mihomo's millisecond query")
  else Ok {| csq_interval := interval |}.
Definition ConnectionStreamQuery_default : ConnectionStreamQuery := {| csq_interval := duration_from_secs 1 |}.

Definition parse_status (value : string) : option N := from_str_radix 10 65536 value.
Definition valid_status_item (item : string) : bool :=
  match split_once "-" item with
  | Some (first, last) =>
      match parse_status first, parse_status last with
      | Some first, Some last => bool_decide (first <= last)
      | _, _ => false
      end
  | None => bool_decide (is_Some (parse_status item))
  end.
Definition validate_expected_status (value : string) : result () ApiError :=
  if decide (value = "") then Err (InvalidArgument "expected" "must not be empty")
  else if forallb valid_status_item (split_slash "" value) then Ok tt
  else Err (InvalidArgument "expected" ("invalid status expression `" +:+ value +:+ "`")).
Definition ExpectedStatus_new (value : string) : result ExpectedStatus ApiError :=
  map_ok (fun _ => value) (validate_expected_status value).

Definition index_map {A} (entries : list (string * A)) : list (string * A) :=
  foldl (fun m '(key, value) => index_insert key value m) [] entries.

Section Queries.
Context `{ApiKit}.

Record DelayQuery := { dq_url : Url; dq_timeout : Duration; dq_expected : option ExpectedStatus }.
Definition DelayQuery_new (url : Url) (timeout : Duration) : result DelayQuery ApiError :=
  if decide (as_millis timeout = 0) then Err (InvalidArgument "timeout" "must be at least one millisecond")
  else if decide (i32_max < as_millis timeout) then Err (InvalidArgument "timeout" "does not fit Mihomo's group timeout")
  else Ok {| dq_url := url; dq_timeout := timeout; dq_expected := None |}.
Definition with_expected (expected : ExpectedStatus) (self : DelayQuery) : DelayQuery :=
  {| dq_url := dq_url self; dq_timeout := dq_timeout self; dq_expected := Some expected |}.
Definition query_pairs (self : DelayQuery) : list (string * string) :=
  [("url", url_text (dq_url self)); ("timeout", show_N (as_millis (dq_timeout self)))] ++
  match dq_expected self with Some expected => [("expected", expected)] | None => [] end.
Definition validate_proxy_timeout (self : DelayQuery) : result () ApiError :=
  if decide (i16_max < as_millis (dq_timeout self))
  then Err (InvalidArgument "timeout" "proxy delay endpoints accept at most 32767 milliseconds")
  else Ok tt.
End Queries.

Section Values.
Context `{NetKit}.

(** Mihomo lists the groups, Meow indexes them by name. *)
Inductive Groups := GroupSeq (groups : list Proxy) | GroupMap (groups : list (ProxyName * Proxy)).
Definition deserialize_groups (g : Groups) : list (ProxyName * Proxy) :=
  match g with
  | GroupSeq groups => index_map (map (fun group => (px_name group, group)) groups)
  | GroupMap groups => index_map groups
  end.
End Values.

(** ** The calls

    [response_lines] is the line codec on a body: at most one MiB to a line. *)

Section Calls.
Context `{ApiKit} `{NetKit} {E : Type} (transport : Transport E).
Context (response_lines : list (result (list Byte.byte) TransportError) -> list (result string string)).
Context `{!Decode Json} `{!Decode RuntimeConfig} `{!Decode ConnectionsSnapshot} `{!Decode DnsResponse} `{!Decode LogEntry}
  `{!Decode StructuredLogEntry} `{!Decode Hello} `{!Decode StatusResponse} `{!Decode Memory} `{!Decode Groups} `{!Decode Proxy}
  `{!Decode (list (string * N))} `{!Decode (list (string * Proxy))} `{!Decode Delay} `{!Decode (list (string * ProxyProvider))}
  `{!Decode ProxyProvider} `{!Decode (list Rule)} `{!Decode (list (string * RuleProvider))}
  `{!Decode Traffic} `{!Decode Version}.
Implicit Types (self : Client).

(** [?] before the call proper. *)
Definition checked {A B} (r : result A ApiError) (k : A -> Http_act (E := E) B) : Http_act B :=
  fun s => match r with Ok v => k v s | Err e => (Err e, s) end.
Definition mapped {A B} (f : A -> B) (act : Http_act (E := E) A) : Http_act B :=
  fun s => let '(r, s) := act s in (map_ok f r, s).
Definition json_call {A} `{!Decode A} self (operation : string) (method : Method) (retry_safe : bool)
    (make_request : result Request ApiError) : Http_act A :=
  send_json transport decode self (metadata operation method retry_safe) make_request.
Definition empty_call self (operation : string) (method : Method) (retry_safe : bool)
    (make_request : result Request ApiError) : Http_act () :=
  send_empty transport self (metadata operation method retry_safe) make_request.
(** [send] and [HttpStream::from_response]: what the stream will yield. *)
Definition stream_call (A : Type) `{!Decode A} self (operation : string) (make_request : result Request ApiError)
    : Http_act (list (result A ApiError)) :=
  mapped (fun response => http_stream decode_text operation (response_lines (rs_chunks response)))
    (send transport self (metadata operation GET true) make_request).
(** [websocket] and [WebSocketStream::new]. *)
Definition socket_call (A : Type) `{!Decode A} self (operation : string) (make_request : result Request ApiError)
    : Http_act (list (result A ApiError)) :=
  mapped (websocket_stream decode_text decode operation) (websocket transport self (metadata operation GET true) make_request).

(** *** [configs.rs] *)

Definition configs_value self : Http_act Json :=
  json_call self "configs_value" GET true (request self GET "/configs").
Definition configs self : Http_act RuntimeConfig :=
  json_call self "configs" GET true (request self GET "/configs").
Definition show_bool (b : bool) : string := if b then "true" else "false".
Definition update_config self (req : UpdateConfigRequest) (options : UpdateConfigOptions) : Http_act () :=
  empty_call self "update_config" PUT false (map_ok (fun r => with_json (to_json req) (with_query [("force", show_bool (up_force options))] r)) (request self PUT "/configs")).
Definition patch_config self (patch : ConfigPatch) : Http_act () :=
  empty_call self "patch_config" PATCH false (map_ok (with_json (to_json patch)) (request self PATCH "/configs")).
Definition patch_config_value self (patch : Json) : Http_act () :=
  empty_call self "patch_config_value" PATCH false (map_ok (with_json patch) (request self PATCH "/configs")).
Definition update_geo_databases self : Http_act () :=
  empty_call self "update_geo_databases" POST false (request self POST "/configs/geo").

(** *** [connections.rs] *)

Definition connections self : Http_act ConnectionsSnapshot :=
  json_call self "connections" GET true (request self GET "/connections").
Definition connections_ws self (query : ConnectionStreamQuery) : Http_act (list (result ConnectionsSnapshot ApiError)) :=
  let interval := show_N (as_millis (csq_interval query)) in
  socket_call ConnectionsSnapshot self "connections_ws" (map_ok (with_query [("interval", interval)]) (request self GET "/connections")).
Definition close_connection self (id : Uuid) : Http_act () :=
  checked (endpoint_with_segments self "/connections" [uuid_text id]) (fun url =>
    empty_call self "close_connection" DELETE true (Ok (request_url self DELETE url))).
Definition close_connection_id self (id : string) : Http_act () :=
  checked (map_err (InvalidArgument "connection id") (uuid_parse id)) (close_connection self).
Definition close_all_connections self : Http_act () :=
  empty_call self "close_all_connections" DELETE false (request self DELETE "/connections").

(** *** [dns.rs] *)

Definition dns_query self (query : DnsQuery) : Http_act DnsResponse :=
  json_call self "dns_query" GET true (map_ok (with_query [("name", dq_name query); ("type", dq_record_type query)]) (request self GET "/dns/query")).

(** *** [logs.rs] *)

Record LogQuery := { lq_level : LogLevel }.
Definition log_pairs (query : LogQuery) : list (string * string) := [("level", LogLevel_text (lq_level query))].
Definition logs self (query : LogQuery) : Http_act (list (result LogEntry ApiError)) :=
  stream_call LogEntry self "logs" (map_ok (with_query (log_pairs query)) (request self GET "/logs")).
Definition logs_ws self (query : LogQuery) : Http_act (list (result LogEntry ApiError)) :=
  socket_call LogEntry self "logs_ws" (map_ok (with_query (log_pairs query)) (request self GET "/logs")).
Definition structured_logs self (query : LogQuery) : Http_act (list (result StructuredLogEntry ApiError)) :=
  stream_call StructuredLogEntry self "structured_logs"
    (map_ok (fun r => with_query [("format", "structured")] (with_query (log_pairs query) r)) (request self GET "/logs")).
Definition structured_logs_ws self (query : LogQuery) : Http_act (list (result StructuredLogEntry ApiError)) :=
  socket_call StructuredLogEntry self "structured_logs_ws"
    (map_ok (fun r => with_query [("format", "structured")] (with_query (log_pairs query) r)) (request self GET "/logs")).

(** *** [maintenance.rs] *)

Definition hello self : Http_act Hello :=
  json_call self "hello" GET true (request self GET "/").
Definition collect_garbage self : Http_act () :=
  empty_call self "collect_garbage" PUT false (request self PUT "/debug/gc").
Definition flush_fake_ip_cache self : Http_act () :=
  empty_call self "flush_fake_ip_cache" POST false (request self POST "/cache/fakeip/flush").
Definition flush_dns_cache self : Http_act () :=
  empty_call self "flush_dns_cache" POST false (request self POST "/cache/dns/flush").
Definition restart self : Http_act StatusResponse :=
  json_call self "restart" POST false (request self POST "/restart").
Definition upgrade_pairs (options : UpgradeOptions) : list (string * string) :=
  match uo_channel options with Some channel => [("channel", channel)] | None => [] end ++ [("force", show_bool (uo_force options))].
Definition upgrade self (options : UpgradeOptions) : Http_act StatusResponse :=
  json_call self "upgrade" POST false (map_ok (with_query (upgrade_pairs options)) (request self POST "/upgrade")).
Definition upgrade_ui self : Http_act StatusResponse :=
  json_call self "upgrade_ui" POST false (request self POST "/upgrade/ui").
Definition upgrade_geo_databases self : Http_act () :=
  empty_call self "upgrade_geo_databases" POST false (request self POST "/upgrade/geo").

(** *** [memory.rs] *)

Definition memory self : Http_act (list (result Memory ApiError)) := stream_call Memory self "memory" (request self GET "/memory").
Definition memory_ws self : Http_act (list (result Memory ApiError)) := socket_call Memory self "memory_ws" (request self GET "/memory").

(** *** [proxies.rs] *)

Definition groups self : Http_act (list (ProxyName * Proxy)) :=
  mapped deserialize_groups (json_call self "groups" GET true (request self GET "/group")).
Definition group self (name : ProxyName) : Http_act Proxy :=
  checked (endpoint_with_segments self "/group" [name]) (fun url =>
    json_call self "group" GET true (Ok (request_url self GET url))).
Definition group_delay self (name : ProxyName) (query : DelayQuery) : Http_act (list (ProxyName * N)) :=
  checked (endpoint_with_segments self "/group" [name; "delay"]) (fun url =>
    json_call self "group_delay" GET false (Ok (with_query (query_pairs query) (request_url self GET url)))).
Definition proxies self : Http_act (list (ProxyName * Proxy)) :=
  mapped index_map (json_call self "proxies" GET true (request self GET "/proxies")).
Definition proxy self (name : ProxyName) : Http_act Proxy :=
  checked (endpoint_with_segments self "/proxies" [name]) (fun url =>
    json_call self "proxy" GET true (Ok (request_url self GET url))).
Definition proxy_delay self (name : ProxyName) (query : DelayQuery) : Http_act Delay :=
  checked (validate_proxy_timeout query) (fun _ =>
  checked (endpoint_with_segments self "/proxies" [name; "delay"]) (fun url =>
    json_call self "proxy_delay" GET false (Ok (with_query (query_pairs query) (request_url self GET url))))).
Record ProxySelection := { psel_group : ProxyName; psel_target : ProxyName }.
Definition SelectProxyRequest_json (name : ProxyName) : Json := JObject [("name", JString name)].
Definition select_proxy self (selection : ProxySelection) : Http_act () :=
  checked (endpoint_with_segments self "/proxies" [psel_group selection]) (fun url =>
    empty_call self "select_proxy" PUT false (Ok (with_json (SelectProxyRequest_json (psel_target selection)) (request_url self PUT url)))).
Definition clear_proxy_selection self (group : ProxyName) : Http_act () :=
  checked (endpoint_with_segments self "/proxies" [group]) (fun url =>
    empty_call self "clear_proxy_selection" DELETE false (Ok (request_url self DELETE url))).
Definition proxy_providers self : Http_act (list (ProviderName * ProxyProvider)) :=
  mapped index_map (json_call self "proxy_providers" GET true (request self GET "/providers/proxies")).
Definition proxy_provider self (provider : ProviderName) : Http_act ProxyProvider :=
  checked (endpoint_with_segments self "/providers/proxies" [provider]) (fun url =>
    json_call self "proxy_provider" GET true (Ok (request_url self GET url))).
Definition update_proxy_provider self (provider : ProviderName) : Http_act () :=
  checked (endpoint_with_segments self "/providers/proxies" [provider]) (fun url =>
    empty_call self "update_proxy_provider" PUT false (Ok (request_url self PUT url))).
Definition healthcheck_proxy_provider self (provider : ProviderName) : Http_act () :=
  checked (endpoint_with_segments self "/providers/proxies" [provider; "healthcheck"]) (fun url =>
    empty_call self "healthcheck_proxy_provider" GET false (Ok (request_url self GET url))).
Definition provider_proxy self (provider : ProviderName) (proxy : ProxyName) : Http_act Proxy :=
  checked (endpoint_with_segments self "/providers/proxies" [provider; proxy]) (fun url =>
    json_call self "provider_proxy" GET true (Ok (request_url self GET url))).
Definition provider_proxy_delay self (provider : ProviderName) (proxy : ProxyName) (query : DelayQuery) : Http_act Delay :=
  checked (validate_proxy_timeout query) (fun _ =>
  checked (endpoint_with_segments self "/providers/proxies" [provider; proxy; "healthcheck"]) (fun url =>
    json_call self "provider_proxy_delay" GET false (Ok (with_query (query_pairs query) (request_url self GET url))))).

(** *** [rules.rs] *)

Definition rules self : Http_act (list Rule) :=
  json_call self "rules" GET true (request self GET "/rules/").
Definition patch_rules self (patch : RulePatch) : Http_act () :=
  empty_call self "patch_rules" PATCH false (map_ok (with_json (to_json patch)) (request self PATCH "/rules/disable")).
Definition rule_providers self : Http_act (list (RuleProviderName * RuleProvider)) :=
  mapped index_map (json_call self "rule_providers" GET true (request self GET "/providers/rules/")).
Definition update_rule_provider self (provider : RuleProviderName) : Http_act () :=
  checked (endpoint_with_segments self "/providers/rules" [provider; EmptyString]) (fun url =>
    empty_call self "update_rule_provider" PUT false (Ok (request_url self PUT url))).

(** *** [storage.rs] *)

Definition storage_get {A} `{!Decode (option A)} self (key : StorageKey) : Http_act (option A) :=
  checked (endpoint_with_segments self "/storage" [key]) (fun url =>
    json_call self "storage_get" GET true (Ok (request_url self GET url))).
Definition storage_put {A} `{ToJson A} self (key : StorageKey) (value : A) : Http_act () :=
  checked (endpoint_with_segments self "/storage" [key]) (fun url =>
    empty_call self "storage_put" PUT false (Ok (with_json (to_json value) (request_url self PUT url)))).
Definition storage_delete self (key : StorageKey) : Http_act () :=
  checked (endpoint_with_segments self "/storage" [key]) (fun url =>
    empty_call self "storage_delete" DELETE true (Ok (request_url self DELETE url))).

(** *** [traffic.rs, version.rs] *)

Definition traffic self : Http_act (list (result Traffic ApiError)) := stream_call Traffic self "traffic" (request self GET "/traffic").
Definition traffic_ws self : Http_act (list (result Traffic ApiError)) := socket_call Traffic self "traffic_ws" (request self GET "/traffic").
Definition version self : Http_act Version :=
  json_call self "version" GET true (request self GET "/version").
End Calls.

(** ** Commands are sent once

    The calls that make the core do something, probes of a delay included. *)

Section Commands.
Context `{ApiKit} `{NetKit} {E : Type} (transport : Transport E).
Context `{!Decode StatusResponse} `{!Decode (list (string * N))} `{!Decode Delay}.

Inductive Command :=
| UpdateConfig (req : UpdateConfigRequest) (options : UpdateConfigOptions)
| PatchConfig (patch : ConfigPatch)
| PatchConfigValue (patch : Json)
| UpdateGeoDatabases
| CloseAllConnections
| CollectGarbage
| FlushFakeIpCache
| FlushDnsCache
| Restart
| Upgrade (options : UpgradeOptions)
| UpgradeUi
| UpgradeGeoDatabases
| SelectProxy (selection : ProxySelection)
| ClearProxySelection (group : ProxyName)
| UpdateProxyProvider (provider : ProviderName)
| HealthcheckProxyProvider (provider : ProviderName)
| GroupDelay (name : ProxyName) (query : DelayQuery)
| ProxyDelay (name : ProxyName) (query : DelayQuery)
| ProviderProxyDelay (provider : ProviderName) (proxy : ProxyName) (query : DelayQuery)
| PatchRules (patch : RulePatch)
| UpdateRuleProvider (provider : RuleProviderName)
| StoragePut (key : StorageKey) (value : Json).

#[local] Instance Json_json : ToJson Json := id.

Definition discard {A} (act : Http_act (E := E) A) : Http_act () := mapped (fun _ => tt) act.
Definition run_command (self : Client) (c : Command) : Http_act (E := E) () :=
  match c with
  | UpdateConfig req options => update_config transport self req options
  | PatchConfig patch => patch_config transport self patch
  | PatchConfigValue patch => patch_config_value transport self patch
  | UpdateGeoDatabases => update_geo_databases transport self
  | CloseAllConnections => close_all_connections transport self
  | CollectGarbage => collect_garbage transport self
  | FlushFakeIpCache => flush_fake_ip_cache transport self
  | FlushDnsCache => flush_dns_cache transport self
  | Restart => discard (restart transport self)
  | Upgrade options => discard (upgrade transport self options)
  | UpgradeUi => discard (upgrade_ui transport self)
  | UpgradeGeoDatabases => upgrade_geo_databases transport self
  | SelectProxy selection => select_proxy transport self selection
  | ClearProxySelection group => clear_proxy_selection transport self group
  | UpdateProxyProvider provider => update_proxy_provider transport self provider
  | HealthcheckProxyProvider provider => healthcheck_proxy_provider transport self provider
  | GroupDelay name query => discard (group_delay transport self name query)
  | ProxyDelay name query => discard (proxy_delay transport self name query)
  | ProviderProxyDelay provider proxy query => discard (provider_proxy_delay transport self provider proxy query)
  | PatchRules patch => patch_rules transport self patch
  | UpdateRuleProvider provider => update_rule_provider transport self provider
  | StoragePut key value => storage_put transport self key value
  end.
Definition command_method (c : Command) : Method :=
  match c with
  | UpdateConfig _ _ | CollectGarbage | SelectProxy _ | UpdateProxyProvider _ | UpdateRuleProvider _ | StoragePut _ _ => PUT
  | PatchConfig _ | PatchConfigValue _ | PatchRules _ => PATCH
  | CloseAllConnections | ClearProxySelection _ => DELETE
  | HealthcheckProxyProvider _ | GroupDelay _ _ | ProxyDelay _ _ | ProviderProxyDelay _ _ _ => GET
  | _ => POST
  end.

(** A policy that repeats only what may be repeated. *)
Definition careful (p : RetryPolicy) : Prop := forall md e, md_retry_safe md = false -> rp_is_retryable p md e = false.

Lemma NoRetry_careful : careful NoRetry.
Proof. done. Qed.
Lemma exponential_careful x : careful (exponential_policy x).
Proof. intros md e Hsafe; cbn; by rewrite Hsafe. Qed.

(** At most one request leaves, without a pause, and exactly one if the call succeeds. *)
Definition once {A} (m : Method) (act : Http_act (E := E) A) : Prop :=
  forall s, exists rqs, ht_sent (act s).2 = ht_sent s ++ rqs /\ ht_slept (act s).2 = ht_slept s /\ (length rqs <= 1)%nat /\
    Forall (fun rq => rq_method rq = m) rqs /\ (is_ok (act s).1 = true -> length rqs = 1%nat).

Lemma once_checked {A B} m (r : result A ApiError) (k : A -> Http_act (E := E) B) :
  (forall v, r = Ok v -> once m (k v)) -> once m (checked r k).
Proof.
  intros Hk s; unfold checked; destruct r as [v|e]; [by apply Hk|].
  exists []; rewrite app_nil_r; split_and!; [done | done | cbn; lia | constructor | done].
Qed.
Lemma once_mapped {A B} m (f : A -> B) (act : Http_act (E := E) A) : once m act -> once m (mapped f act).
Proof.
  intros Hact s; unfold mapped; destruct (Hact s) as (rqs & Hsent & Hslept & Hlen & Hm & Hok); exists rqs.
  destruct (act s) as [[v|e] s']; done.
Qed.

Section Once.
Context (self : Client) (operation : string) (m : Method) (retry_safe : bool).
Context (Hnever : forall e, rp_is_retryable (cl_retry_policy self) (metadata operation m retry_safe) e = false).
Context (make_request : result Request ApiError) (Hm : forall rq, make_request = Ok rq -> rq_method rq = m).

Lemma send_is_attempt s :
  send transport self (metadata operation m retry_safe) make_request s = attempt transport operation make_request s.
Proof. unfold send, execute; by rewrite execute_loop_gives_up_at_once. Qed.
Lemma once_send : once m (send transport self (metadata operation m retry_safe) make_request).
Proof.
  intros s; rewrite send_is_attempt; destruct (attempt_adds transport operation make_request s) as [Hsent Hslept].
  exists (requests_of make_request); split_and!; [done | done | | | ].
  - destruct make_request; cbn; lia.
  - destruct make_request; repeat constructor; by apply Hm.
  - by destruct make_request.
Qed.
Lemma once_json {A} `{!Decode A} : once m (json_call (A := A) transport self operation m retry_safe make_request).
Proof.
  intros s; unfold json_call, send_json; destruct (once_send s) as (rqs & Hsent & Hslept & Hlen & Hms & Hok).
  exists rqs; destruct (send _ _ _ _ s) as [[v|e] s']; cbn in *; done || (split_and!; try done; by intros _; apply Hok).
Qed.
Lemma once_empty : once m (empty_call transport self operation m retry_safe make_request).
Proof.
  intros s; unfold empty_call, send_empty; destruct (once_send s) as (rqs & Hsent & Hslept & Hlen & Hms & Hok).
  exists rqs; destruct (send _ _ _ _ s) as [[v|e] s']; done.
Qed.
End Once.

Lemma request_method self m path rq : request self m path = Ok rq -> rq_method rq = m.
Proof. unfold request; destruct (endpoint self path); cbn; intros; by simplify_eq. Qed.
Lemma request_with_method self m path (f : Request -> Request) rq :
  (forall r, rq_method (f r) = rq_method r) -> map_ok f (request self m path) = Ok rq -> rq_method rq = m.
Proof.
  intros Hf; destruct (request self m path) eqn:Hr; cbn; intros; simplify_eq.
  rewrite Hf; by apply (request_method self m path).
Qed.

(** Under a policy that repeats only what may be repeated, as the two of
    the crate are, a call that makes the core do something sends at most one
    request, of the method the API gives it and without a pause, and exactly one
    when it succeeds. *)
Theorem commands_are_sent_at_most_once self (Hcareful : careful (cl_retry_policy self)) c :
  once (command_method c) (run_command self c).
Proof.
  destruct c; cbn [run_command command_method]; unfold discard;
    repeat first [apply (once_json self); [by intros ?; apply Hcareful|] | apply (once_empty self); [by intros ?; apply Hcareful|]
                 | apply once_checked; intros ? _ | apply once_mapped].
  all: intros rq; first [apply request_method | by intros ?; simplify_eq | by apply request_with_method].
Qed.
End Commands.

(** ** Indexed answers *)

(** An answer has each name once, whichever of the two forms a core sends. *)
Lemma index_map_nodup {A} (entries : list (string * A)) : NoDup (map fst (index_map entries)).
Proof.
  unfold index_map; assert (Hnil : NoDup (map fst (@nil (string * A)))) by constructor; revert Hnil.
  generalize (@nil (string * A)); induction entries as [|[k v] entries IH]; intros m Hm; cbn; [done|].
  apply IH; by apply index_insert_nodup.
Qed.

(** ** Concrete arguments *)

#[local] Existing Instance demo_kit.
#[local] Existing Instance demo_net.

Example statuses :
  map (fun v => is_ok (ExpectedStatus_new v)) ["200/204/401-429"; "429-401"; "200/"; "65536"; EmptyString] = [true; false; false; false; false].
Proof. reflexivity. Qed.
Example long_proxy_delay :
  is_ok (validate_proxy_timeout {| dq_url := demo_base; dq_timeout := duration_from_secs 40; dq_expected := None |}) = false.
Proof. reflexivity. Qed.

#[local] Instance demo_decode {A} : Decode A :=
  {| decode := fun _ => Err "not JSON"; decode_text := fun _ => Err "not JSON" |}.
Definition demo_after : HttpState nat :=
  (run_command demo_transport demo_client (PatchConfigValue (JObject [])) demo_start).2.
Example demo_patch_is_sent_once : length (ht_sent demo_after) = 1%nat /\ ht_slept demo_after = [].
Proof. split; reflexivity. Qed.
Lemma commands_are_sent_at_most_once_witness :
  careful (cl_retry_policy demo_client) /\
  once PATCH (run_command demo_transport demo_client (PatchConfigValue (JObject []))).
Proof.
  split; [apply exponential_careful|].
  apply (commands_are_sent_at_most_once demo_transport demo_client (exponential_careful _) (PatchConfigValue (JObject []))).
Defined.
