(* ===== verification/ManagerClient.v ===== *)
(** * The client the manager links to

    [crates/chimera-clash-api], the copy of the API client that
    [chimera-core-manager] depends on: it never sends the legacy token of a socket,
    has no open patches and reads no connection ids, asks the proxy routes of Mihomo with their trailing slash, and reads groups
    as a list.  Errors, retry policies, hosts, values and queries are those of
    [ApiClient], [ApiTypes] and [ApiCalls], whose crate has them word for word; the
    theorems say that the rest does the same as that crate does. *)

From S2P Require Import Prelude Text Types Paths ApiClient ApiTypes ApiCalls.
Open Scope rust_scope.

(** ** The client ([client.rs]) *)

Section Client.
Context `{ApiKit}.

Record Client := {
  lc_host : Host;
  lc_base_url : Url;
  lc_authorization : option string;
  lc_retry_policy : RetryPolicy;
}.
Record ClientBuilder := { lb_host : Host; lb_secret : option string; lb_retry_policy : RetryPolicy }.
Definition ClientBuilder_new (host : Host) : ClientBuilder := {| lb_host := host; lb_secret := None; lb_retry_policy := NoRetry |}.
Definition secret (s : string) (b : ClientBuilder) : ClientBuilder :=
  {| lb_host := lb_host b; lb_secret := Some s; lb_retry_policy := lb_retry_policy b |}.
Definition retry_policy (p : RetryPolicy) (b : ClientBuilder) : ClientBuilder :=
  {| lb_host := lb_host b; lb_secret := lb_secret b; lb_retry_policy := p |}.
(** [build], on a Unix host; the URL of the local transport parses. *)
Definition build (local : Url) (b : ClientBuilder) : result Client ApiError :=
  let? hb :=
    match lb_host b with
    | Http base_url => map_ok (fun url => (Http url, url, None)) (normalize_base_url base_url)
    | NamedPipe _ => Err (UnsupportedTransport "Windows named pipe" "linux")
    | UnixSocket path => Ok (UnixSocket path, local, Some path)
    end in
  let '(host, base_url, socket) := hb in
  let? authorization :=
    match host, lb_secret b with
    | Http _, Some s =>
        if decide (s = "") then Ok None else map_ok Some (map_err InvalidSecret (header_value (bearer +:+ s)))
    | _, _ => Ok None
    end in
  let? _ := map_err BuildClient (build_http_client socket) in
  Ok {| lc_host := host; lc_base_url := base_url; lc_authorization := authorization; lc_retry_policy := lb_retry_policy b |}.

Definition endpoint (self : Client) (path : string) : result Url ApiError :=
  if is_ok (url_parse path) then Err (AbsoluteEndpoint path)
  else map_err (InvalidEndpoint path) (url_join (lc_base_url self) (trim_slashes path)).
Definition endpoint_with_segments (self : Client) (path : string) (segments : list string) : result Url ApiError :=
  let? url := endpoint self path in
  ok_or (url_push_all segments url) (CannotAppendPathSegment (url_text url)).
Definition request_url (self : Client) (method : Method) (url : Url) : Request :=
  {| rq_method := method; rq_url := url; rq_authorization := lc_authorization self; rq_query := []; rq_body := None |}.
Definition request (self : Client) (method : Method) (path : string) : result Request ApiError :=
  map_ok (request_url self method) (endpoint self path).

Section Sending.
Context {E : Type} (transport : Transport E).
Definition execute {A} (self : Client) (md : RequestMetadata) (operation : Http_act (E := E) A) : Http_act A :=
  execute_loop (rp_is_retryable (lc_retry_policy self) md) operation (rp_delays (lc_retry_policy self) md).
Definition send (self : Client) (md : RequestMetadata) (make_request : result Request ApiError) : Http_act Response :=
  execute self md (attempt transport (md_operation md) make_request).
Definition send_json {A} (parse : list Byte.byte -> result A string) (self : Client) (md : RequestMetadata)
    (make_request : result Request ApiError) : Http_act A :=
  fun s => let '(r, s) := send self md make_request s in
           (let? response := r in decode_json parse response (md_operation md), s).
Definition send_empty (self : Client) (md : RequestMetadata) (make_request : result Request ApiError) : Http_act () :=
  fun s => let '(r, s) := send self md make_request s in (map_ok (fun _ => tt) r, s).
Definition websocket (self : Client) (md : RequestMetadata) (make_request : result Request ApiError) : Http_act Socket :=
  execute self md (fun s =>
    match make_request with
    | Err e => (Err e, s)
    | Ok rq =>
        let '(r, env) := tr_upgrade transport rq (ht_env s) in
        (map_err (WebSocketFailed (md_operation md)) r, answered rq env s)
    end).
End Sending.
End Client.

(** ** The calls ([api/*.rs]) *)

Section Calls.
Context `{ApiKit} `{NetKit} {E : Type} (transport : Transport E).
Context (response_lines : list (result (list Byte.byte) TransportError) -> list (result string string)).
Context `{!Decode RuntimeConfig} `{!Decode ConnectionsSnapshot} `{!Decode DnsResponse} `{!Decode LogEntry}
  `{!Decode StructuredLogEntry} `{!Decode Hello} `{!Decode StatusResponse} `{!Decode Memory} `{!Decode (list Proxy)} `{!Decode Proxy}
  `{!Decode (list (string * N))} `{!Decode (list (string * Proxy))} `{!Decode Delay} `{!Decode (list (string * ProxyProvider))}
  `{!Decode ProxyProvider} `{!Decode (list Rule)} `{!Decode (list (string * RuleProvider))}
  `{!Decode Traffic} `{!Decode Version}.
Implicit Types (self : Client).

Definition json_call {A} `{!Decode A} self (operation : string) (method : Method) (retry_safe : bool)
    (make_request : result Request ApiError) : Http_act (E := E) A :=
  send_json transport decode self (metadata operation method retry_safe) make_request.
Definition empty_call self (operation : string) (method : Method) (retry_safe : bool)
    (make_request : result Request ApiError) : Http_act (E := E) () :=
  send_empty transport self (metadata operation method retry_safe) make_request.
Definition stream_call (A : Type) `{!Decode A} self (operation : string) (make_request : result Request ApiError)
    : Http_act (E := E) (list (result A ApiError)) :=
  mapped (fun response => http_stream decode_text operation (response_lines (rs_chunks response)))
    (send transport self (metadata operation GET true) make_request).
Definition socket_call (A : Type) `{!Decode A} self (operation : string) (make_request : result Request ApiError)
    : Http_act (E := E) (list (result A ApiError)) :=
  mapped (websocket_stream decode_text decode operation) (websocket transport self (metadata operation GET true) make_request).

(** *** [configs.rs] *)

Definition configs self : Http_act RuntimeConfig :=
  json_call self "configs" GET true (request self GET "/configs").
Definition update_config self (req : UpdateConfigRequest) (options : UpdateConfigOptions) : Http_act () :=
  empty_call self "update_config" PUT false (map_ok (fun r => with_json (to_json req) (with_query [("force", show_bool (up_force options))] r)) (request self PUT "/configs")).
Definition patch_config self (patch : ConfigPatch) : Http_act () :=
  empty_call self "patch_config" PATCH false (map_ok (with_json (to_json patch)) (request self PATCH "/configs")).
Definition update_geo_databases self : Http_act () :=
  empty_call self "update_geo_databases" POST false (request self POST "/configs/geo").

(** *** [connections.rs] *)

Definition connections self : Http_act ConnectionsSnapshot :=
  json_call self "connections" GET true (request self GET "/connections").
Definition connections_ws self (query : ConnectionStreamQuery) : Http_act (list (result ConnectionsSnapshot ApiError)) :=
  let interval := show_N (as_millis (csq_interval query)) in
  socket_call ConnectionsSnapshot self "connections_ws" (map_ok (with_query [("interval", interval)]) (request self GET "/connections")).
Definition close_connection self (id : Uuid) : Http_act () :=
  checked (endpoint_with_segments self "/connections" [uuid_text id]) (fun url =>
    empty_call self "close_connection" DELETE true (Ok (request_url self DELETE url))).
Definition close_all_connections self : Http_act () :=
  empty_call self "close_all_connections" DELETE false (request self DELETE "/connections").

(** *** [dns.rs] *)

Definition dns_query self (query : DnsQuery) : Http_act DnsResponse :=
  json_call self "dns_query" GET true (map_ok (with_query [("name", dq_name query); ("type", dq_record_type query)]) (request self GET "/dns/query")).

(** *** [logs.rs] *)

Definition logs self (query : LogQuery) : Http_act (list (result LogEntry ApiError)) :=
  stream_call LogEntry self "logs" (map_ok (with_query (log_pairs query)) (request self GET "/logs")).
Definition logs_ws self (query : LogQuery) : Http_act (list (result LogEntry ApiError)) :=
  socket_call LogEntry self "logs_ws" (map_ok (with_query (log_pairs query)) (request self GET "/logs")).
Definition structured_logs self (query : LogQuery) : Http_act (list (result StructuredLogEntry ApiError)) :=
  stream_call StructuredLogEntry self "structured_logs"
    (map_ok (fun r => with_query [("format", "structured")] (with_query (log_pairs query) r)) (request self GET "/logs")).
Definition structured_logs_ws self (query : LogQuery) : Http_act (list (result StructuredLogEntry ApiError)) :=
  socket_call StructuredLogEntry self "structured_logs_ws"
    (map_ok (fun r => with_query [("format", "structured")] (with_query (log_pairs query) r)) (request self GET "/logs")).

(** *** [maintenance.rs] *)

Definition hello self : Http_act Hello :=
  json_call self "hello" GET true (request self GET "/").
Definition collect_garbage self : Http_act () :=
  empty_call self "collect_garbage" PUT false (request self PUT "/debug/gc").
Definition flush_fake_ip_cache self : Http_act () :=
  empty_call self "flush_fake_ip_cache" POST false (request self POST "/cache/fakeip/flush").
Definition flush_dns_cache self : Http_act () :=
  empty_call self "flush_dns_cache" POST false (request self POST "/cache/dns/flush").
Definition restart self : Http_act StatusResponse :=
  json_call self "restart" POST false (request self POST "/restart").
Definition upgrade self (options : UpgradeOptions) : Http_act StatusResponse :=
  json_call self "upgrade" POST false (map_ok (with_query (upgrade_pairs options)) (request self POST "/upgrade")).
Definition upgrade_ui self : Http_act StatusResponse :=
  json_call self "upgrade_ui" POST false (request self POST "/upgrade/ui").
Definition upgrade_geo_databases self : Http_act () :=
  empty_call self "upgrade_geo_databases" POST false (request self POST "/upgrade/geo").

(** *** [memory.rs] *)

Definition memory self : Http_act (list (result Memory ApiError)) := stream_call Memory self "memory" (request self GET "/memory").
Definition memory_ws self : Http_act (list (result Memory ApiError)) := socket_call Memory self "memory_ws" (request self GET "/memory").

(** *** [proxies.rs] *)

Definition groups self : Http_act (list Proxy) :=
  json_call self "groups" GET true (request self GET "/group/").
Definition group self (name : ProxyName) : Http_act Proxy :=
  checked (endpoint_with_segments self "/group" [name; EmptyString]) (fun url =>
    json_call self "group" GET true (Ok (request_url self GET url))).
Definition group_delay self (name : ProxyName) (query : DelayQuery) : Http_act (list (ProxyName * N)) :=
  checked (endpoint_with_segments self "/group" [name; "delay"]) (fun url =>
    json_call self "group_delay" GET false (Ok (with_query (query_pairs query) (request_url self GET url)))).
Definition proxies self : Http_act (list (ProxyName * Proxy)) :=
  mapped index_map (json_call self "proxies" GET true (request self GET "/proxies/")).
Definition proxy self (name : ProxyName) : Http_act Proxy :=
  checked (endpoint_with_segments self "/proxies" [name; EmptyString]) (fun url =>
    json_call self "proxy" GET true (Ok (request_url self GET url))).
Definition proxy_delay self (name : ProxyName) (query : DelayQuery) : Http_act Delay :=
  checked (validate_proxy_timeout query) (fun _ =>
  checked (endpoint_with_segments self "/proxies" [name; "delay"]) (fun url =>
    json_call self "proxy_delay" GET false (Ok (with_query (query_pairs query) (request_url self GET url))))).
Definition select_proxy self (selection : ProxySelection) : Http_act () :=
  checked (endpoint_with_segments self "/proxies" [psel_group selection; EmptyString]) (fun url =>
    empty_call self "select_proxy" PUT false (Ok (with_json (SelectProxyRequest_json (psel_target selection)) (request_url self PUT url)))).
Definition clear_proxy_selection self (group : ProxyName) : Http_act () :=
  checked (endpoint_with_segments self "/proxies" [group; EmptyString]) (fun url =>
    empty_call self "clear_proxy_selection" DELETE false (Ok (request_url self DELETE url))).
Definition proxy_providers self : Http_act (list (ProviderName * ProxyProvider)) :=
  mapped index_map (json_call self "proxy_providers" GET true (request self GET "/providers/proxies/")).
Definition proxy_provider self (provider : ProviderName) : Http_act ProxyProvider :=
  checked (endpoint_with_segments self "/providers/proxies" [provider; EmptyString]) (fun url =>
    json_call self "proxy_provider" GET true (Ok (request_url self GET url))).
Definition update_proxy_provider self (provider : ProviderName) : Http_act () :=
  checked (endpoint_with_segments self "/providers/proxies" [provider; EmptyString]) (fun url =>
    empty_call self "update_proxy_provider" PUT false (Ok (request_url self PUT url))).
Definition healthcheck_proxy_provider self (provider : ProviderName) : Http_act () :=
  checked (endpoint_with_segments self "/providers/proxies" [provider; "healthcheck"]) (fun url =>
    empty_call self "healthcheck_proxy_provider" GET false (Ok (request_url self GET url))).
Definition provider_proxy self (provider : ProviderName) (proxy : ProxyName) : Http_act Proxy :=
  checked (endpoint_with_segments self "/providers/proxies" [provider; proxy; EmptyString]) (fun url =>
    json_call self "provider_proxy" GET true (Ok (request_url self GET url))).
Definition provider_proxy_delay self (provider : ProviderName) (proxy : ProxyName) (query : DelayQuery) : Http_act Delay :=
  checked (validate_proxy_timeout query) (fun _ =>
  checked (endpoint_with_segments self "/providers/proxies" [provider; proxy; "healthcheck"]) (fun url =>
    json_call self "provider_proxy_delay" GET false (Ok (with_query (query_pairs query) (request_url self GET url))))).

(** *** [rules.rs] *)

Definition rules self : Http_act (list Rule) :=
  json_call self "rules" GET true (request self GET "/rules/").
Definition patch_rules self (patch : RulePatch) : Http_act () :=
  empty_call self "patch_rules" PATCH false (map_ok (with_json (to_json patch)) (request self PATCH "/rules/disable")).
Definition rule_providers self : Http_act (list (RuleProviderName * RuleProvider)) :=
  mapped index_map (json_call self "rule_providers" GET true (request self GET "/providers/rules/")).
Definition update_rule_provider self (provider : RuleProviderName) : Http_act () :=
  checked (endpoint_with_segments self "/providers/rules" [provider; EmptyString]) (fun url =>
    empty_call self "update_rule_provider" PUT false (Ok (request_url self PUT url))).

(** *** [storage.rs] *)

Definition storage_get {A} `{!Decode (option A)} self (key : StorageKey) : Http_act (option A) :=
  checked (endpoint_with_segments self "/storage" [key]) (fun url =>
    json_call self "storage_get" GET true (Ok (request_url self GET url))).
Definition storage_put {A} `{ToJson A} self (key : StorageKey) (value : A) : Http_act () :=
  checked (endpoint_with_segments self "/storage" [key]) (fun url =>
    empty_call self "storage_put" PUT false (Ok (with_json (to_json value) (request_url self PUT url)))).
Definition storage_delete self (key : StorageKey) : Http_act () :=
  checked (endpoint_with_segments self "/storage" [key]) (fun url =>
    empty_call self "storage_delete" DELETE true (Ok (request_url self DELETE url))).

(** *** [traffic.rs, version.rs] *)

Definition traffic self : Http_act (list (result Traffic ApiError)) := stream_call Traffic self "traffic" (request self GET "/traffic").
Definition traffic_ws self : Http_act (list (result Traffic ApiError)) := socket_call Traffic self "traffic_ws" (request self GET "/traffic").
Definition version self : Http_act Version :=
  json_call self "version" GET true (request self GET "/version").
End Calls.

(** ** It is the other client *)

Section Agreement.
Context `{ApiKit} `{NetKit} {E : Type} (transport : Transport E).
Context (response_lines : list (result (list Byte.byte) TransportError) -> list (result string string)).

Definition as_client (self : Client) : ApiClient.Client :=
  {| cl_host := lc_host self; cl_base_url := lc_base_url self; cl_authorization := lc_authorization self;
     cl_websocket_token_query := false; cl_retry_policy := lc_retry_policy self |}.
Definition as_builder (b : ClientBuilder) : ApiClient.ClientBuilder :=
  {| cb_host := lb_host b; cb_secret := lb_secret b; cb_websocket_token_query := false; cb_retry_policy := lb_retry_policy b |}.

(** A client is built where the other is, and is the other. *)
Lemma build_agrees local b : map_ok as_client (build local b) = ApiClient.build local (as_builder b).
Proof.
  unfold build, ApiClient.build; destruct b as [host s p]; cbn; destruct host as [|path|url]; cbn; [done|..].
  - by destruct (build_http_client (Some path)).
  - destruct (normalize_base_url url) as [base|]; cbn; [|done].
    destruct s as [s|]; cbn; [case_decide; cbn; [|destruct (header_value _); cbn; [|done]]|]; by destruct (build_http_client None).
Qed.
Lemma sends_agree {A} `{!Decode A} self operation m retry_safe rq :
  json_call (A := A) transport self operation m retry_safe rq = ApiCalls.json_call transport (as_client self) operation m retry_safe rq /\
  empty_call transport self operation m retry_safe rq = ApiCalls.empty_call transport (as_client self) operation m retry_safe rq /\
  socket_call transport A self operation rq = ApiCalls.socket_call transport A (as_client self) operation rq.
Proof. done. Qed.
(** The probe of a controller asks what the other crate asks. *)
Lemma version_agrees `{!Decode Version} self : version transport self = ApiCalls.version transport (as_client self).
Proof. done. Qed.

(** *** Commands *)

Context `{!Decode StatusResponse} `{!Decode (list (string * N))} `{!Decode Delay}.
#[local] Instance Json_json : ToJson Json := id.
(** Every call that makes the core do or change something: the commands of the other
    crate but the one with an open patch, and the two deletions whose requests are
    declared to be repeatable. *)
Definition run_command_linked (self : Client) (c : Command) : option (Http_act (E := E) ()) :=
  match c with
  | UpdateConfig req options => Some (update_config transport self req options)
  | PatchConfig patch => Some (patch_config transport self patch)
  | PatchConfigValue _ => None
  | UpdateGeoDatabases => Some (update_geo_databases transport self)
  | CloseAllConnections => Some (close_all_connections transport self)
  | CollectGarbage => Some (collect_garbage transport self)
  | FlushFakeIpCache => Some (flush_fake_ip_cache transport self)
  | FlushDnsCache => Some (flush_dns_cache transport self)
  | Restart => Some (discard (restart transport self))
  | Upgrade options => Some (discard (upgrade transport self options))
  | UpgradeUi => Some (discard (upgrade_ui transport self))
  | UpgradeGeoDatabases => Some (upgrade_geo_databases transport self)
  | SelectProxy selection => Some (select_proxy transport self selection)
  | ClearProxySelection group => Some (clear_proxy_selection transport self group)
  | UpdateProxyProvider provider => Some (update_proxy_provider transport self provider)
  | HealthcheckProxyProvider provider => Some (healthcheck_proxy_provider transport self provider)
  | GroupDelay name query => Some (discard (group_delay transport self name query))
  | ProxyDelay name query => Some (discard (proxy_delay transport self name query))
  | ProviderProxyDelay provider proxy query => Some (discard (provider_proxy_delay transport self provider proxy query))
  | PatchRules patch => Some (patch_rules transport self patch)
  | UpdateRuleProvider provider => Some (update_rule_provider transport self provider)
  | StoragePut key value => Some (storage_put transport self key value)
  end.
Lemma linked_request_method self m path rq : request self m path = Ok rq -> rq_method rq = m.
Proof. apply (request_method (as_client self)). Qed.
Lemma linked_request_with_method self m path (f : Request -> Request) rq :
  (forall r, rq_method (f r) = rq_method r) -> map_ok f (request self m path) = Ok rq -> rq_method rq = m.
Proof. apply (request_with_method (as_client self)). Qed.

Inductive LinkedCommand := Declared (c : Command) | CloseConnection (id : Uuid) | StorageDelete (key : StorageKey).
Definition run_linked (self : Client) (c : LinkedCommand) : option (Http_act (E := E) ()) :=
  match c with
  | Declared c => run_command_linked self c
  | CloseConnection id => Some (close_connection transport self id)
  | StorageDelete key => Some (storage_delete transport self key)
  end.
Definition linked_method (c : LinkedCommand) : Method :=
  match c with Declared c => command_method c | CloseConnection _ | StorageDelete _ => DELETE end.
(** How often the request may be sent again. *)
Definition repeats (p : RetryPolicy) (c : LinkedCommand) : nat :=
  match c with
  | Declared _ => 0%nat
  | CloseConnection _ => length (rp_delays p (metadata "close_connection" DELETE true))
  | StorageDelete _ => length (rp_delays p (metadata "storage_delete" DELETE true))
  end.

(** One request, sent at most [extra] times more, with a pause before each time. *)
Definition sent_within (extra : nat) (m : Method) (act : Http_act (E := E) ()) : Prop :=
  forall s, exists rqs pauses,
    ht_sent (act s).2 = ht_sent s ++ rqs /\ ht_slept (act s).2 = ht_slept s ++ pauses /\
    (length rqs <= S extra)%nat /\ length pauses = pred (length rqs) /\
    Forall (fun rq => rq_method rq = m) rqs /\ (forall a b, a ∈ rqs -> b ∈ rqs -> a = b) /\
    (is_ok (act s).1 = true -> rqs <> []).

Lemma sent_once m (act : Http_act (E := E) ()) : once m act -> sent_within 0 m act.
Proof.
  intros Hact s; destruct (Hact s) as (rqs & Hsent & Hslept & Hlen & Hm & Hok). exists rqs, []; rewrite app_nil_r.
  split_and!; [done|done|lia|destruct rqs as [|? []]; cbn in *; lia|done| |].
  - destruct rqs as [|rq [|? ?]]; cbn in Hlen; [by intros a b Ha%elem_of_nil| |lia].
    by intros a b ->%list_elem_of_singleton ->%list_elem_of_singleton.
  - by intros Hr%Hok ->.
Qed.

Lemma sent_checked {A} extra m (r : result A ApiError) (k : A -> Http_act (E := E) ()) :
  (forall v, sent_within extra m (k v)) -> sent_within extra m (checked r k).
Proof.
  intros Hk s; unfold checked; destruct r as [v|e]; [by apply Hk|].
  exists [], []; rewrite !app_nil_r; split_and!; try done; [cbn; lia|]. by intros a b Ha%elem_of_nil.
Qed.
Lemma sent_repeatedly self operation m retry_safe rq :
  rq_method rq = m ->
  sent_within (length (rp_delays (lc_retry_policy self) (metadata operation m retry_safe))) m
    (empty_call transport self operation m retry_safe (Ok rq)).
Proof.
  intros Hm s; unfold empty_call, send_empty, send, execute.
  pose proof (attempt_adds transport operation (Ok rq)) as Hadds; cbn [requests_of] in Hadds.
  set (md := metadata operation m retry_safe).
  destruct (execute_loop_history (rp_is_retryable (lc_retry_policy self) md) _ _ (rp_delays (lc_retry_policy self) md) s Hadds)
    as (n & Hn & Hsent & Hslept & _).
  assert (Hone : forall k, concat (replicate k [rq]) = replicate k rq) by (induction k; cbn; congruence).
  rewrite Hone in Hsent. change (md_operation md) with operation.
  destruct (execute_loop _ _ _ s) as [r s'] eqn:Hrun; cbn in *. exists (replicate (S n) rq), (take n (rp_delays (lc_retry_policy self) md)).
  split_and!; try done.
  - rewrite length_replicate; lia.
  - rewrite length_replicate, length_take; cbn; lia.
  - by apply Forall_replicate.
  - intros a b [-> _]%elem_of_replicate [-> _]%elem_of_replicate; done.
Qed.

(** C28: under a policy that repeats only what may be repeated, as the two of the crate
    are, a call of the manager's client that makes the core do or change something sends
    one request, of the method the API gives it, and sends it exactly once when it
    succeeds, and at most once in any case and without a pause.  Only the closing of one
    connection and the deletion of a stored value, which the code declares to be
    repeatable, may send their request again: the very same one, after a pause, and not
    more often than the policy has delays. *)
Theorem linked_calls_are_sent_as_declared self c act :
  careful (lc_retry_policy self) -> run_linked self c = Some act ->
  sent_within (repeats (lc_retry_policy self) c) (linked_method c) act.
Proof.
  intros Hcareful Hact; destruct c as [c|id|key]; cbn [run_linked linked_method repeats] in *.
  - apply sent_once. destruct c; cbn in Hact; simplify_eq; cbn [command_method]; unfold discard;
      repeat first [apply (once_json transport (as_client self)); [by intros ?; apply Hcareful|]
                   | apply (once_empty transport (as_client self)); [by intros ?; apply Hcareful|]
                   | apply once_checked; intros ? _ | apply once_mapped].
    all: intros rq; first [apply linked_request_method | by intros ?; simplify_eq | by apply linked_request_with_method].
  - injection Hact as <-. apply sent_checked; intros url. by apply sent_repeatedly.
  - injection Hact as <-. apply sent_checked; intros url. by apply sent_repeatedly.
Qed.
End Agreement.

(** A list of groups may name one twice, where the other crate keeps the last. *)
Lemma listed_groups_are_indexed_by_the_other `{NetKit} (groups : list Proxy) :
  deserialize_groups (GroupSeq groups) = index_map (map (fun group => (px_name group, group)) groups) /\
  NoDup (map fst (deserialize_groups (GroupSeq groups))).
Proof. split; [done|]. apply index_map_nodup. Qed.

(** ** Concrete arguments *)

#[local] Existing Instance demo_kit.
#[local] Existing Instance demo_net.
#[local] Instance demo_decode {A} : Decode A :=
  {| decode := fun _ => Err "not JSON"; decode_text := fun _ => Err "not JSON" |}.
Definition demo_linked : Client :=
  {| lc_host := Http demo_base; lc_base_url := demo_base; lc_authorization := Some "Bearer s3cret"; lc_retry_policy := NoRetry |}.
Example linked_paths_end_with_a_slash :
  map_ok (fun rq => url_text (rq_url rq)) (map_ok (request_url demo_linked GET) (endpoint_with_segments demo_linked "/proxies" ["a"; EmptyString]))
  = Ok "http://127.0.0.1:9090/api/proxies/a/".
Proof. reflexivity. Qed.
(** A client that tries again, and a core that is not there the first two times. *)
Definition demo_patient : Client :=
  {| lc_host := Http demo_base; lc_base_url := demo_base; lc_authorization := Some "Bearer s3cret";
     lc_retry_policy := exponential_policy (with_jitter false conservative) |}.
Lemma linked_calls_are_sent_as_declared_witness :
  sent_within 0 PUT (collect_garbage demo_transport demo_patient) /\
  sent_within 3 DELETE (storage_delete demo_transport demo_patient "a") /\
  length (ht_sent (storage_delete demo_transport demo_patient "a" demo_start).2) = 3%nat.
Proof.
  split; [|split].
  - apply (linked_calls_are_sent_as_declared demo_transport demo_patient (Declared CollectGarbage));
      [apply exponential_careful|reflexivity].
  - apply (linked_calls_are_sent_as_declared demo_transport demo_patient (StorageDelete "a"));
      [apply exponential_careful|reflexivity].
  - reflexivity.
Defined.
