(* ===== verification/SerdeMaps.v ===== *)
(** * Direct map decoding

    [crates/chimera-serde] and the map half of [crates/chimera-serde-derive]:
    the two derives that turn a struct into code which reads a map entry by
    entry, one flattened group and one sink for unknown names included, without
    the buffer that Serde's own [flatten] uses.

    The first part is the derives: a struct as [syn] and Serde's attribute
    parser (class [AttributeParser]) give it, the screens on its attributes, and
    [generate], whose answer [Generated] is the generated code as data.  The
    second part runs generated code: [field], [read], [unknown] and [finish] of
    its [MapFields] instance, and the runtime's [deserialize_map].  Class
    [SerdeKit] is Serde: the [Deserialize] instance of every type.  The last part
    is what it must agree with, [reference]: the meaning of the attributes over
    the buffered entries of the map.

    Generic parameters, lifetimes and inlining of the generated code are left
    out; the trait bounds it asks for are [g_bounds]. *)

From S2P Require Import Prelude.
Local Open Scope rust_scope.

(** ** A struct as the derives are given it *)

(** Types, as far as the derives look into them: [syn::Type]. *)
Inductive syn_type : Type :=
| TyPath (qself : option syn_type) (segments : list (string * option (list syn_type)))
| TyOther (inner : list syn_type).

Definition ty_named (name : string) : syn_type := TyPath None [(name, None)].

(** An item of an attribute, [name] or [name = "value"]. *)
Record Meta := { m_path : string; m_value : option string }.

(** An attribute that does not parse is [None]. *)
Definition Attributes := list (option (list Meta)).

Record FieldSource := {
  fs_member : string;
  fs_ty : syn_type;
  fs_serde : Attributes;
  fs_chimera : Attributes }.

Inductive Style := StructStyle | TupleStyle | NewtypeStyle | UnitStyle.

Record VariantSource := {
  vs_ident : string;
  vs_style : Style;
  vs_fields : list FieldSource;
  vs_serde : Attributes;
  vs_chimera : Attributes }.

Inductive SynData :=
| SynStruct (style : Style) (fields : list FieldSource)
| SynEnum (variants : list VariantSource)
| SynUnion.

Record DeriveInput := {
  di_ident : string;
  di_serde : Attributes;
  di_chimera : Attributes;
  di_data : SynData }.

(** What [serde_derive_internals] makes of the attributes. *)
Inductive FieldDefault := DefaultNone | DefaultDefault | DefaultPath (path : string).

Record AstField := {
  f_member : string;
  f_ty : syn_type;
  f_original : FieldSource;
  f_name : string;
  f_aliases : list string;
  f_default : FieldDefault;
  f_flatten : bool;
  f_deserialize_with : option string;
  f_skip_deserializing : bool }.

Record AstVariant := {
  v_ident : string;
  v_style : Style;
  v_fields : list AstField;
  v_original : VariantSource;
  v_name : string;
  v_aliases : list string;
  v_skip_deserializing : bool;
  v_untagged : bool }.

Inductive TagType := TagExternal | TagInternal | TagAdjacent | TagNone.

Inductive AstData :=
| AstStruct (style : Style) (fields : list AstField)
| AstEnum (variants : list AstVariant).

Record AstContainer := { c_data : AstData; c_tag : TagType }.

(** [Container::from_ast] and the check of its context. *)
Class AttributeParser := from_ast : DeriveInput -> result (option AstContainer) string.

(** ** Screens *)

Definition unsupported_attribute := "unsupported Serde attribute for direct map decoding".

Fixpoint validate_attributes (attributes : Attributes) (allowed : list string) : result unit string :=
  match attributes with
  | [] => Ok tt
  | None :: _ => Err "the attribute does not parse"
  | Some items :: rest =>
      if forallb (fun item => bool_decide (m_path item ∈ allowed)) items
      then validate_attributes rest allowed
      else Err unsupported_attribute
  end.

Definition struct_attributes : list string := ["rename"; "rename_all"].
Definition field_attributes : list string :=
  ["rename"; "alias"; "default"; "flatten"; "with"; "deserialize_with"; "serialize_with";
   "skip_serializing"; "skip_serializing_if"; "skip_deserializing"].

Fixpoint validate_fields (fields : list FieldSource) : result unit string :=
  match fields with
  | [] => Ok tt
  | f :: rest =>
      let? _ := validate_attributes (fs_serde f) field_attributes in
      validate_fields rest
  end.

(** The [extra] marker.  A marker with a value is left unread and refused by the
    parser of the list. *)
Fixpoint extra_items (found : bool) (items : list Meta) : result bool string :=
  match items with
  | [] => Ok found
  | item :: rest =>
      if negb (bool_decide (m_path item = "extra")) || found
      then Err "expected a single `extra` marker"
      else match m_value item with
           | Some _ => Err "expected `,`"
           | None => extra_items true rest
           end
  end.
Fixpoint extra_attributes (found : bool) (attributes : Attributes) : result bool string :=
  match attributes with
  | [] => Ok found
  | None :: _ => Err "the attribute does not parse"
  | Some items :: rest =>
      let? found := extra_items found items in
      extra_attributes found rest
  end.
Definition extra (f : FieldSource) : result bool string := extra_attributes false (fs_chimera f).

(** Whether a path below the type names the struct itself. *)
Fixpoint mentions (name : string) (ty : syn_type) : bool :=
  match ty with
  | TyPath qself segments =>
      existsb (fun segment => bool_decide (segment.1 = "Self") || bool_decide (segment.1 = name)) segments
      || match qself with Some t => mentions name t | None => false end
      || existsb (fun segment => match segment.2 with
                                 | Some args => existsb (mentions name) args
                                 | None => false
                                 end) segments
  | TyOther inner => existsb (mentions name) inner
  end.

Definition reject_recursion (ty : syn_type) (name : string) : result unit string :=
  if mentions name ty then Err "recursive fields are unsupported by direct map derives" else Ok tt.

(** ** Generated code *)

(** What stands for a field that is missing from the map. *)
Inductive Missing :=
| MissingDefault
| MissingPath (path : string)
| MissingRequired
| MissingDecode.

Record Slot := {
  sl_member : string;
  sl_ty : syn_type;
  sl_name : string;
  sl_aliases : list string;
  sl_with : option string;
  sl_missing : Missing }.

(** The fields of the struct, in the order they are built in. *)
Inductive Finish :=
| FinishSlot (member : string) (index : nat)
| FinishFlat (member : string)
| FinishExtra (member : string)
| FinishSkipped (member : string) (ty : syn_type) (path : option string).

Inductive Bound :=
| BoundExtraFields (ty : syn_type)
| BoundKnownFields (ty : syn_type)
| BoundDefault (ty : syn_type)
| BoundDeserialize (ty : syn_type).

Record Generated := {
  g_ident : string;
  g_deserialize : bool;
  g_marker : string;
  g_slots : list Slot;
  g_flat : option (string * syn_type);
  g_extra : option (string * syn_type);
  g_finishes : list Finish;
  g_bounds : list Bound }.

(** The loop of [generate]: what is left of its local variables.  [index] is the
    number of slots. *)
Record Gen := {
  n_slots : list Slot;
  n_flat : option (string * syn_type);
  n_extra : option (string * syn_type);
  n_finishes : list Finish;
  n_names : list string;
  n_bounds : list Bound }.
Definition gen_start : Gen :=
  {| n_slots := []; n_flat := None; n_extra := None; n_finishes := []; n_names := []; n_bounds := [] |}.

(** [names.insert] of every alias. *)
Fixpoint insert_names (names aliases : list string) : option (list string) :=
  match aliases with
  | [] => Some names
  | alias :: rest => if decide (alias ∈ names) then None else insert_names (alias :: names) rest
  end.

Definition is_none_default (d : FieldDefault) : bool :=
  match d with DefaultNone => true | _ => false end.

Definition field_missing (f : AstField) : Missing :=
  match f_default f with
  | DefaultDefault => MissingDefault
  | DefaultPath path => MissingPath path
  | DefaultNone => if bool_decide (is_Some (f_deserialize_with f)) then MissingRequired else MissingDecode
  end.

Definition field_bounds (f : AstField) : list Bound :=
  (if bool_decide (is_Some (f_deserialize_with f)) then [] else [BoundDeserialize (f_ty f)])
  ++ match f_default f with DefaultDefault => [BoundDefault (f_ty f)] | _ => [] end.

Definition generate_flattened (deserialize is_extra : bool) (f : AstField) (n : Gen) : result Gen string :=
  if negb (is_none_default (f_default f)) || bool_decide (is_Some (f_deserialize_with f))
     || f_skip_deserializing f
  then Err "flattened fields cannot have decoding modifiers"
  else if is_extra then
    if negb deserialize || bool_decide (is_Some (n_extra n)) || negb (f_flatten f)
    then Err "one #[serde(flatten)] extra sink is allowed on DeserializeMap"
    else Ok {| n_slots := n_slots n; n_flat := n_flat n;
               n_extra := Some (f_member f, f_ty f);
               n_finishes := n_finishes n ++ [FinishExtra (f_member f)];
               n_names := n_names n;
               n_bounds := n_bounds n ++ [BoundExtraFields (f_ty f)] |}
  else if bool_decide (is_Some (n_flat n))
  then Err "only one flattened field group is supported"
  else Ok {| n_slots := n_slots n; n_flat := Some (f_member f, f_ty f);
             n_extra := n_extra n;
             n_finishes := n_finishes n ++ [FinishFlat (f_member f)];
             n_names := n_names n;
             n_bounds := n_bounds n ++ [BoundKnownFields (f_ty f)] |}.

Definition generate_skipped (f : AstField) (n : Gen) : Gen :=
  let path := match f_default f with DefaultPath path => Some path | _ => None end in
  {| n_slots := n_slots n; n_flat := n_flat n; n_extra := n_extra n;
     n_finishes := n_finishes n ++ [FinishSkipped (f_member f) (f_ty f) path];
     n_names := n_names n;
     n_bounds := n_bounds n ++ (if path is Some _ then [] else [BoundDefault (f_ty f)]) |}.

Definition generate_slot (f : AstField) (n : Gen) : result Gen string :=
  match insert_names (n_names n) (f_aliases f) with
  | None => Err "overlapping field names or aliases"
  | Some names =>
      Ok {| n_slots := n_slots n ++
              [{| sl_member := f_member f; sl_ty := f_ty f; sl_name := f_name f;
                  sl_aliases := f_aliases f; sl_with := f_deserialize_with f;
                  sl_missing := field_missing f |}];
            n_flat := n_flat n; n_extra := n_extra n;
            n_finishes := n_finishes n ++ [FinishSlot (f_member f) (length (n_slots n))];
            n_names := names;
            n_bounds := n_bounds n ++ field_bounds f |}
  end.

Definition generate_field (name : string) (deserialize : bool) (f : AstField) (n : Gen) : result Gen string :=
  let? _ := reject_recursion (f_ty f) name in
  let? is_extra := extra (f_original f) in
  if is_extra || f_flatten f then generate_flattened deserialize is_extra f n
  else if f_skip_deserializing f then Ok (generate_skipped f n)
  else generate_slot f n.

Fixpoint generate_fields (name : string) (deserialize : bool) (fields : list AstField) (n : Gen) : result Gen string :=
  match fields with
  | [] => Ok n
  | f :: rest =>
      let? n := generate_field name deserialize f n in
      generate_fields name deserialize rest n
  end.

(** The marker of the generated state gets underscores until no field has its
    name; one step per field is enough. *)
Fixpoint free_marker (fuel : nat) (members : list string) (marker : string) : string :=
  match fuel with
  | O => marker
  | S fuel => if decide (marker ∈ members) then free_marker fuel members ("_" +:+ marker) else marker
  end.
Definition marker_of (members : list string) : string :=
  free_marker (length members) members "__marker".

Definition generate `{AttributeParser} (input : DeriveInput) (deserialize : bool) : result Generated string :=
  let? _ := validate_attributes (di_serde input) struct_attributes in
  if negb (bool_decide (di_chimera input = [])) then Err "extra is a field attribute"
  else
    let? _ := match di_data input with SynStruct _ fields => validate_fields fields | _ => Ok tt end in
    let? container := from_ast input in
    let? container := ok_or container "expected a struct" in
    match c_data container with
    | AstStruct StructStyle fields =>
        let marker := marker_of (map f_member fields) in
        let? n := generate_fields (di_ident input) deserialize fields gen_start in
        Ok {| g_ident := di_ident input; g_deserialize := deserialize; g_marker := marker;
              g_slots := n_slots n; g_flat := n_flat n; g_extra := n_extra n;
              g_finishes := n_finishes n; g_bounds := n_bounds n |}
    | _ => Err "direct map derives require named structs"
    end.

(** [DeserializeMap] and [DeserializeFields]. *)
Definition deserialize_map_derive `{AttributeParser} (input : DeriveInput) : result Generated string :=
  generate input true.
Definition deserialize_fields_derive `{AttributeParser} (input : DeriveInput) : result Generated string :=
  generate input false.

(** ** Serde *)

(** The [deserialize_*] methods a type can ask for. *)
Inductive Hint :=
| HAny | HBool | HNumber | HStr | HBytes | HOption | HUnit | HNewtype | HSeq | HMap | HStruct
| HEnum | HIdentifier | HIgnored.

Inductive DeError :=
| DeCustom (message : string)
| DeMissingField (name : string)
| DeDuplicateField (name : string)
| DeUnknownVariant (name : string) (expected : list string)
| DeInvalidLength (length : nat) (expecting : string)
| DeInvalidType (expecting : string)
| DeFormat (message : string).

(** The method of a visitor that a deserializer calls.  A malformed key or value
    is a deserializer that answers every request with an error, and a map whose
    text breaks off ends in such a key. *)
Inductive Event :=
| VUnit
| VNone
| VSome (inner : Hint -> result Event DeError)
| VBool (b : bool)
| VI64 (z : Z)
| VU64 (z : Z)
| VI128 (z : Z)
| VU128 (z : Z)
| VF64 (bits : N)
| VStr (s : string)
| VBorrowedStr (s : string)
| VString (s : string)
| VEnum (variant : string)
| VSeq (items : list (Hint -> result Event DeError))
| VMap (entries : list ((Hint -> result Event DeError) * (Hint -> result Event DeError))).

Definition Deserializer := Hint -> result Event DeError.

Definition Entries := list (Deserializer * Deserializer).

Class SerdeKit := {
  Val : Type;
  decode : syn_type -> Deserializer -> result Val DeError;
  with_fn : string -> syn_type -> Deserializer -> result Val DeError;
  default_of : syn_type -> Val;
  default_fn : string -> Val;
  ignored_any : Deserializer -> result unit DeError;
  decode_unit : Deserializer -> result unit DeError }.

(** The deserializer of a missing field: nothing but an [Option] reads it. *)
Definition MissingField (name : string) : Deserializer :=
  fun hint => match hint with HOption => Ok VNone | _ => Err (DeMissingField name) end.

(** ** Running generated code *)

Inductive SinkKind := IndexMapSink | BTreeMapSink.

(** The [ExtraFields] instances of the runtime. *)
Definition sink_of (ty : syn_type) : option (SinkKind * syn_type) :=
  match ty with
  | TyPath None segments =>
      match last segments with
      | Some (name, Some (key :: value :: _)) =>
          match key with
          | TyPath None [("String", None)] =>
              if bool_decide (name = "IndexMap") then Some (IndexMapSink, value)
              else if bool_decide (name = "BTreeMap") then Some (BTreeMapSink, value)
              else None
          | _ => None
          end
      | _ => None
      end
  | _ => None
  end.

(** [BTreeMap::insert]. *)
Fixpoint btree_map_insert {A} (key : string) (value : A) (m : list (string * A)) : list (string * A) :=
  match m with
  | [] => [(key, value)]
  | (k, v) :: rest =>
      if decide (k = key) then (k, value) :: rest
      else if String.ltb key k then (key, value) :: m
      else (k, v) :: btree_map_insert key value rest
  end.

Definition sink_insert {A} (kind : SinkKind) (key : string) (value : A) (m : list (string * A)) : list (string * A) :=
  match kind with IndexMapSink => index_insert key value m | BTreeMapSink => btree_map_insert key value m end.

Section Running.
Context `{SerdeKit}.

(** A decoded struct. *)
Inductive Out :=
| OutVal (v : Val)
| OutGroup (fields : list (string * Out))
| OutSink (m : list (string * Val)).

(** The states of a struct and of the groups flattened into it, outermost first:
    one option per slot. *)
Definition State := list (list (option Val)).
Definition Sink := list (string * Val).

(** A struct with the groups flattened into it: the instances that
    [<ty as MapFields>] of the generated code resolves to. *)
Definition Chain := list Generated.

Definition state_default (c : Chain) : State := map (fun g => map (fun _ => None) (g_slots g)) c.

Fixpoint slot_index (slots : list Slot) (name : string) : option nat :=
  match slots with
  | [] => None
  | s :: rest => if decide (name ∈ sl_aliases s) then Some O else S <$> slot_index rest name
  end.

(** [MapFields::field]. *)
Fixpoint field (c : Chain) (name : string) : option nat :=
  match c with
  | [] => None
  | g :: c' =>
      match slot_index (g_slots g) name with
      | Some i => Some i
      | None =>
          match g_flat g with
          | Some _ => (fun i => i + length (g_slots g))%nat <$> field c' name
          | None => None
          end
      end
  end.

(** The value of a slot, through its seed where it has a custom decoder. *)
Definition slot_value (s : Slot) (d : Deserializer) : result Val DeError :=
  match sl_with s with
  | Some path => with_fn path (sl_ty s) d
  | None => decode (sl_ty s) d
  end.

Definition outcome_map {A B} (f : A -> B) (o : outcome A) : outcome B :=
  match o with Return a => Return (f a) | Panicked m => Panicked m end.

Definition invalid_index := "internal error: entered unreachable code: invalid generated field index".

(** [MapFields::read]. *)
Fixpoint read (c : Chain) (state : State) (index : nat) (d : Deserializer) : outcome (result State DeError) :=
  match c, state with
  | g :: c', own :: rest =>
      match g_slots g !! index with
      | Some s =>
          Return match own !! index with
                 | Some (Some _) => Err (DeDuplicateField (sl_name s))
                 | _ => map_ok (fun v => <[index := Some v]> own :: rest) (slot_value s d)
                 end
      | None =>
          match g_flat g with
          | Some _ => outcome_map (map_ok (cons own)) (read c' rest (index - length (g_slots g)) d)
          | None => Panicked invalid_index
          end
      end
  | _, _ => Panicked invalid_index
  end.

(** [MapFields::unknown]: into the sink of the struct, or nowhere. *)
Definition unknown (c : Chain) (sink : Sink) (key : string) (d : Deserializer) : result Sink DeError :=
  match head c with
  | Some g =>
      match g_extra g with
      | Some (_, ty) =>
          match sink_of ty with
          | Some (kind, value) => map_ok (fun v => sink_insert kind key v sink) (decode value d)
          | None => Err (DeCustom "no ExtraFields instance")
          end
      | None => map_ok (fun _ => sink) (ignored_any d)
      end
  | None => Err (DeCustom "no MapFields instance")
  end.

Definition slot_missing (s : Slot) : result Val DeError :=
  match sl_missing s with
  | MissingDefault => Ok (default_of (sl_ty s))
  | MissingPath path => Ok (default_fn path)
  | MissingRequired => Err (DeMissingField (sl_name s))
  | MissingDecode => decode (sl_ty s) (MissingField (sl_name s))
  end.

Definition skipped_value (ty : syn_type) (path : option string) : Val :=
  match path with Some path => default_fn path | None => default_of ty end.

(** One field of [MapFields::finish], given what the group below answers. *)
Definition finish_field (slots : list Slot) (own : list (option Val)) (inner : result (list (string * Out)) DeError)
    (sink : Sink) (f : Finish) : result (string * Out) DeError :=
  match f with
  | FinishSlot member index =>
      match own !! index, slots !! index with
      | Some (Some v), _ => Ok (member, OutVal v)
      | _, Some s => map_ok (fun v => (member, OutVal v)) (slot_missing s)
      | _, None => Err (DeCustom invalid_index)
      end
  | FinishFlat member => map_ok (fun fields => (member, OutGroup fields)) inner
  | FinishExtra member => Ok (member, OutSink sink)
  | FinishSkipped member ty path => Ok (member, OutVal (skipped_value ty path))
  end.

Fixpoint finish (c : Chain) (state : State) (sink : Sink) : result (list (string * Out)) DeError :=
  match c, state with
  | g :: c', own :: rest =>
      collect_results (map (finish_field (g_slots g) own (finish c' rest []) sink) (g_finishes g))
  | _, _ => Err (DeCustom "no MapFields instance")
  end.

(** ** The runtime *)

(** [KeySeed]: a key is any of the texts a format can give. *)
Definition read_key (d : Deserializer) : result string DeError :=
  match d HIdentifier with
  | Ok (VStr s) | Ok (VBorrowedStr s) | Ok (VString s) => Ok s
  | Ok _ => Err (DeInvalidType "a string field name")
  | Err e => Err e
  end.

(** The loop of [MapVisitor::visit_map]. *)
Fixpoint visit_entries (c : Chain) (state : State) (sink : Sink) (entries : Entries)
    : outcome (result (State * Sink) DeError) :=
  match entries with
  | [] => Return (Ok (state, sink))
  | (key, value) :: rest =>
      match read_key key with
      | Err e => Return (Err e)
      | Ok name =>
          match field c name with
          | Some index =>
              match read c state index value with
              | Return (Ok state) => visit_entries c state sink rest
              | Return (Err e) => Return (Err e)
              | Panicked m => Panicked m
              end
          | None =>
              match unknown c sink name value with
              | Ok sink => visit_entries c state sink rest
              | Err e => Return (Err e)
              end
          end
      end
  end.

Definition visit_map (c : Chain) (entries : Entries) : outcome (result (list (string * Out)) DeError) :=
  outcome_map (fun r => let? (state, sink) := r in finish c state sink)
    (visit_entries c (state_default c) [] entries).

Definition deserialize_map (c : Chain) (d : Deserializer) : outcome (result (list (string * Out)) DeError) :=
  match d HMap with
  | Ok (VMap entries) => visit_map c entries
  | Ok _ => Return (Err (DeInvalidType "a string-keyed object"))
  | Err e => Return (Err e)
  end.

(** ** What the attributes mean

    Serde's reading of them, over all entries of the map at once: a field is the
    one entry under one of its names, the flattened group is read from what the
    struct does not claim, and the sink holds what nobody claims. *)

Definition ok_part {A} (r : result A DeError) : option A :=
  match r with Ok a => Some a | Err _ => None end.

Definition named_entries (entries : Entries) : option (list (string * Deserializer)) :=
  mapM (fun kv => (fun name => (name, kv.2)) <$> ok_part (read_key kv.1)) entries.

Definition occurrences (s : Slot) (entries : list (string * Deserializer)) : list (string * Deserializer) :=
  filter (fun kv => kv.1 ∈ sl_aliases s) entries.

(** What a struct leaves to its flattened group. *)
Definition unclaimed (g : Generated) (entries : list (string * Deserializer)) : list (string * Deserializer) :=
  filter (fun kv => kv.1 ∉ concat (map sl_aliases (g_slots g))) entries.

Fixpoint unclaimed_by (c : Chain) (entries : list (string * Deserializer)) : list (string * Deserializer) :=
  match c with [] => entries | g :: c' => unclaimed_by c' (unclaimed g entries) end.

Definition reference_slot (s : Slot) (entries : list (string * Deserializer)) : option Val :=
  match occurrences s entries with
  | [] => ok_part (slot_missing s)
  | [(_, d)] => ok_part (slot_value s d)
  | _ => None
  end.

Definition reference_field (g : Generated) (entries : list (string * Deserializer))
    (inner : option (list (string * Out))) (sink : Sink) (f : Finish) : option (string * Out) :=
  match f with
  | FinishSlot member index =>
      s ← g_slots g !! index;
      v ← reference_slot s entries;
      Some (member, OutVal v)
  | FinishFlat member => (fun fields => (member, OutGroup fields)) <$> inner
  | FinishExtra member => Some (member, OutSink sink)
  | FinishSkipped member ty path => Some (member, OutVal (skipped_value ty path))
  end.

Fixpoint reference_fields (c : Chain) (entries : list (string * Deserializer)) (sink : Sink)
    : option (list (string * Out)) :=
  match c with
  | [] => None
  | g :: c' =>
      mapM (reference_field g entries (reference_fields c' (unclaimed g entries) []) sink) (g_finishes g)
  end.

(** The sink is filled in the order of the map. *)
Definition reference_sink (c : Chain) (entries : list (string * Deserializer)) : option Sink :=
  foldl (fun sink kv => m ← sink; ok_part (unknown c m kv.1 kv.2)) (Some []) entries.

Definition reference (c : Chain) (d : Deserializer) : option (list (string * Out)) :=
  match d HMap with
  | Ok (VMap entries) =>
      named ← named_entries entries;
      sink ← reference_sink c (unclaimed_by c named);
      reference_fields c named sink
  | _ => None
  end.

End Running.

(** ** Resolution of the flattened groups

    The compiler's choice of the instance behind [<ty as KnownFields>]: [impls]
    are the structs that derive [DeserializeFields]. *)
Fixpoint link (fuel : nat) (impls : syn_type -> option Generated) (g : Generated) : option (list Generated) :=
  match fuel with
  | O => None
  | S fuel =>
      match g_flat g with
      | None => Some [g]
      | Some (_, ty) => inner ← impls ty; c ← link fuel impls inner; Some (g :: c)
      end
  end.

(** ** What [generate] accepts *)

Record generated_ok (g : Generated) : Prop := {
  ok_names : NoDup (concat (map sl_aliases (g_slots g)));
  ok_slots : forall index, (index < length (g_slots g))%nat <-> exists member, FinishSlot member index ∈ g_finishes g;
  ok_flat : is_Some (g_flat g) <-> exists member, FinishFlat member ∈ g_finishes g }.

(** A chain is complete: the struct at each place has its group behind it. *)
Inductive linked : list Generated -> Prop :=
| linked_last g : generated_ok g -> g_flat g = None -> linked [g]
| linked_more g flat c : generated_ok g -> g_flat g = Some flat -> linked c -> linked (g :: c).

Lemma insert_names_spec aliases : forall names names',
  insert_names names aliases = Some names' -> NoDup names -> NoDup names' /\ names' ≡ₚ aliases ++ names.
Proof.
  induction aliases as [|a aliases IH]; intros names names'; cbn [insert_names]; [by intros [= ->]|].
  case_decide as Hin; [done|]. intros Hrest Hnd.
  destruct (IH _ _ Hrest) as [? Hperm]; [by apply NoDup_cons|].
  split; [done|]. rewrite Hperm; cbn. by rewrite <- Permutation_middle.
Qed.

Definition finish_slots (finishes : list Finish) : list nat :=
  omap (fun f => match f with FinishSlot _ i => Some i | _ => None end) finishes.
Definition finish_flats (finishes : list Finish) : list string :=
  omap (fun f => match f with FinishFlat m => Some m | _ => None end) finishes.

(** The loop keeps its books: names are those of the slots, every slot is built
    once and in order, and so is the flattened group. *)
Record gen_ok (n : Gen) : Prop := {
  gen_names : n_names n ≡ₚ concat (map sl_aliases (n_slots n)) /\ NoDup (n_names n);
  gen_slots : finish_slots (n_finishes n) = seq 0 (length (n_slots n));
  gen_flats : finish_flats (n_finishes n) = match n_flat n with Some (m, _) => [m] | None => [] end }.

Lemma gen_start_ok : gen_ok gen_start.
Proof. by repeat constructor. Qed.

Lemma generate_field_ok name deserialize f n n' :
  generate_field name deserialize f n = Ok n' -> gen_ok n -> gen_ok n'.
Proof.
  unfold generate_field, reject_recursion, generate_flattened, generate_slot, generate_skipped.
  destruct (mentions _ _); [done|]; cbn [result_bind]; destruct (extra _) as [is_extra|]; [|done]; cbn [result_bind].
  intros Hgen Hn; repeat (case_match; try discriminate); simplify_eq/=;
    destruct Hn as [[Hnames Hnd] Hslots Hflats]; split; cbn [n_names n_slots n_finishes n_flat].
  all: unfold finish_slots, finish_flats in *; rewrite ?omap_app, ?Hslots, ?Hflats; cbn; rewrite ?app_nil_r; try done.
  all: try (by destruct (n_flat n) as [[]|]; cbn in *; [discriminate|]).
  - match goal with Hins : insert_names _ _ = _ |- _ => destruct (insert_names_spec _ _ _ Hins Hnd) as [? Hperm] end.
    split; [|done].
    rewrite Hperm, Hnames, map_app, concat_app; cbn; rewrite app_nil_r. apply Permutation_app_comm.
  - by rewrite length_app, seq_app.
Qed.
Lemma generate_fields_ok name deserialize fields : forall n n',
  generate_fields name deserialize fields n = Ok n' -> gen_ok n -> gen_ok n'.
Proof.
  induction fields as [|f fields IH]; intros n n'; cbn [generate_fields]; [by intros [= ->]|].
  destruct (generate_field _ _ f n) eqn:Hf; cbn [result_bind]; [|done].
  eauto using generate_field_ok.
Qed.

Lemma flat_books (flat : option (string * syn_type)) :
  is_Some flat <-> exists m, m ∈ match flat with Some (m, _) => [m] | None => [] end.
Proof.
  destruct flat as [[m ty]|]; split; intros [x Hx]; try done; [exists m; by left|by apply elem_of_nil in Hx].
Qed.

Lemma generate_ok `{AttributeParser} input deserialize g :
  generate input deserialize = Ok g -> generated_ok g.
Proof.
  unfold generate. destruct (validate_attributes _ _); cbn [result_bind]; [|done].
  case_match; [done|]. destruct (di_data input); cbn [result_bind].
  all: try (destruct (validate_fields _); cbn [result_bind]; [|done]).
  all: destruct (from_ast input) as [[[[[] ?|] ?]|]|]; cbn [result_bind ok_or c_data]; try done.
  all: destruct (generate_fields _ _ _ _) as [n|] eqn:Hgen; cbn [result_bind]; [|done]; intros [= <-].
  all: destruct (generate_fields_ok _ _ _ _ _ Hgen gen_start_ok) as [[Hnames Hnd] Hslots Hflats].
  all: split; cbn [g_slots g_finishes g_flat]; [by rewrite <- Hnames| |].
  all: try (intros index; transitivity (index ∈ seq 0 (length (n_slots n))); [rewrite elem_of_seq; lia|];
    rewrite <- Hslots; unfold finish_slots; rewrite list_elem_of_omap;
    split; [intros ([] & ? & ?); simplify_eq; eauto|intros [m ?]; eexists; split; [eassumption|done]]).
  all: transitivity (exists m, m ∈ finish_flats (n_finishes n));
    [rewrite Hflats; apply flat_books|].
  all: unfold finish_flats; split;
    [intros (m & ([] & ? & ?)%list_elem_of_omap); simplify_eq; eauto
    |intros (m & Hm); exists m; apply list_elem_of_omap; eexists; split; [exact Hm|done]].
Qed.

(** ** Direct decoding agrees with the reference *)

Section Equivalence.
Context `{SerdeKit}.
Implicit Types (c : list Generated) (l m : list (string * Deserializer)).

Lemma ok_part_map {A B} (f : A -> B) (r : result A DeError) : ok_part (map_ok f r) = f <$> ok_part r.
Proof. by destruct r. Qed.
Lemma ok_part_collect {A B} (f : A -> result B DeError) (xs : list A) :
  ok_part (collect_results (map f xs)) = mapM (fun x => ok_part (f x)) xs.
Proof.
  induction xs as [|x xs IH]; [done|]. cbn. destruct (f x); cbn; [|done].
  rewrite ok_part_map, IH. by destruct (mapM _ xs).
Qed.
Lemma mapM_none {A B} (f : A -> option B) (xs : list A) (x : A) : x ∈ xs -> f x = None -> mapM f xs = None.
Proof.
  intros Hin Hx; induction Hin as [xs|x y xs Hin IH]; cbn; [by rewrite Hx|].
  destruct (f y); cbn; [|done]. by rewrite (IH Hx).
Qed.

(** What a slot has been given after some entries. *)
Definition slot_seen l (s : Slot) : option (option Val) :=
  match occurrences s l with
  | [] => Some None
  | [(_, d)] => Some <$> ok_part (slot_value s d)
  | _ => None
  end.
Fixpoint state_after c l : option State :=
  match c with
  | [] => Some []
  | g :: c' =>
      own ← mapM (slot_seen l) (g_slots g);
      rest ← state_after c' (unclaimed g l);
      Some (own :: rest)
  end.

Lemma occurrences_app s l m : occurrences s (l ++ m) = occurrences s l ++ occurrences s m.
Proof. apply filter_app. Qed.
Lemma unclaimed_app g l m : unclaimed g (l ++ m) = unclaimed g l ++ unclaimed g m.
Proof. apply filter_app. Qed.
Lemma unclaimed_by_app c l m : unclaimed_by c (l ++ m) = unclaimed_by c l ++ unclaimed_by c m.
Proof.
  revert l m; induction c as [|g c IH]; intros l m; [done|].
  cbn [unclaimed_by]. by rewrite unclaimed_app, IH.
Qed.

Lemma slot_seen_other l s name d : name ∉ sl_aliases s -> slot_seen (l ++ [(name, d)]) s = slot_seen l s.
Proof.
  intros Hname. unfold slot_seen. rewrite occurrences_app; unfold occurrences at 2.
  by rewrite filter_cons_False, app_nil_r.
Qed.
Lemma slot_seen_mine l s name d : name ∈ sl_aliases s ->
  slot_seen (l ++ [(name, d)]) s
  = match slot_seen l s with Some None => Some <$> ok_part (slot_value s d) | _ => None end.
Proof.
  intros Hname. unfold slot_seen. rewrite occurrences_app; unfold occurrences at 2.
  rewrite filter_cons_True, filter_nil by done.
  destruct (occurrences s l) as [|[n0 d0] [|[] ?]]; cbn; try done. by destruct (slot_value s d0).
Qed.
Lemma slot_seen_none l m s : slot_seen l s = None -> slot_seen (l ++ m) s = None.
Proof.
  unfold slot_seen; rewrite occurrences_app.
  destruct (occurrences s l) as [|[n0 d0] [|[] ?]]; cbn; try done.
  destruct (occurrences s m) as [|[] ?]; done.
Qed.

Lemma slot_index_elem slots name i :
  slot_index slots name = Some i -> exists s, slots !! i = Some s /\ name ∈ sl_aliases s.
Proof.
  revert i; induction slots as [|s slots IH]; intros i; cbn [slot_index]; [done|].
  case_decide; [intros [= <-]; by exists s|].
  destruct (slot_index slots name) as [j|]; cbn; [|done]. intros [= <-]; apply (IH j); done.
Qed.
Lemma slot_index_none slots name :
  slot_index slots name = None <-> name ∉ concat (map sl_aliases slots).
Proof.
  induction slots as [|s slots IH]; cbn [slot_index map concat]; [by split; [intros _; apply not_elem_of_nil|]|].
  rewrite not_elem_of_app, <- IH. case_decide; [naive_solver|].
  destruct (slot_index slots name); naive_solver.
Qed.

Lemma slots_seen_other slots l name d :
  name ∉ concat (map sl_aliases slots) -> mapM (slot_seen (l ++ [(name, d)])) slots = mapM (slot_seen l) slots.
Proof.
  induction slots as [|s slots IH]; cbn [map concat]; [done|].
  rewrite not_elem_of_app; intros [Hs Hrest]; cbn. by rewrite slot_seen_other, IH.
Qed.
Lemma slots_seen_mine slots l name d i :
  NoDup (concat (map sl_aliases slots)) -> slot_index slots name = Some i ->
  mapM (slot_seen (l ++ [(name, d)])) slots
  = (own ← mapM (slot_seen l) slots;
     s ← slots !! i;
     match own !! i with
     | Some (Some _) => None
     | _ => (fun v => <[i := Some v]> own) <$> ok_part (slot_value s d)
     end).
Proof.
  revert i; induction slots as [|s slots IH]; intros i; cbn [map concat slot_index]; [done|].
  rewrite NoDup_app; intros (_ & Hdis & Hnd). case_decide as Hin.
  - intros [= <-]; cbn. rewrite (slot_seen_mine _ _ _ _ Hin), slots_seen_other by auto.
    destruct (slot_seen l s) as [[v|]|], (mapM (slot_seen l) slots), (slot_value s d); done.
  - destruct (slot_index slots name) as [j|] eqn:Hj; cbn; [|done]; intros [= <-].
    rewrite slot_seen_other by done. destruct (slot_seen l s); cbn; [|done].
    rewrite (IH j) by done. destruct (mapM (slot_seen l) slots) as [own|]; cbn; [|done].
    destruct (slots !! j); cbn; [|done].
    destruct (own !! j) as [[|]|]; cbn; [done| |]; by destruct (ok_part _).
Qed.

(** A name that a group can read is read where the reference counts it, and a
    name that nobody can read changes no state. *)
Lemma state_after_known c : linked c -> forall l name d i, field c name = Some i ->
  (forall st, state_after c l = Some st ->
     exists r, read c st i d = Return r /\ ok_part r = state_after c (l ++ [(name, d)]))
  /\ unclaimed_by c (l ++ [(name, d)]) = unclaimed_by c l.
Proof.
  induction 1 as [g [Hnd _ _] Hflat|g flat c [Hnd _ _] Hflat Hc IH]; intros l name d i; cbn [field]; rewrite Hflat.
  all: destruct (slot_index (g_slots g) name) as [j|] eqn:Hj; [|try done].
  1,2: intros [= <-]; destruct (slot_index_elem _ _ _ Hj) as (s & Hs & Hname);
    assert (Hmine : unclaimed g (l ++ [(name, d)]) = unclaimed g l);
    [rewrite unclaimed_app; unfold unclaimed at 2; rewrite filter_cons_False, filter_nil, app_nil_r; [done|];
     intros Hout%slot_index_none; cbn in Hout; congruence|].
  1,2: split; [|by cbn [unclaimed_by]; rewrite Hmine]; intros st; cbn [state_after];
    rewrite (slots_seen_mine _ _ _ _ _ Hnd Hj), ?Hmine;
    destruct (mapM (slot_seen l) (g_slots g)) as [own|]; cbn; [|done];
    try (destruct (state_after _ _) as [rest|]; cbn; [|done]); intros [= <-];
    cbn [read]; rewrite Hs; eexists; split; [done|]; cbn;
    destruct (own !! j) as [[|]|]; cbn; try done; by destruct (slot_value s d).
  destruct (field c name) as [j|] eqn:Hfield; cbn; [|done]; intros [= <-].
  assert (Hout : name ∉ concat (map sl_aliases (g_slots g))) by by apply slot_index_none.
  assert (Htheirs : unclaimed g (l ++ [(name, d)]) = unclaimed g l ++ [(name, d)])
    by (rewrite unclaimed_app; unfold unclaimed at 2; by rewrite filter_cons_True).
  destruct (IH (unclaimed g l) name d j Hfield) as [Hread Hleft].
  split; [|by cbn [unclaimed_by]; rewrite Htheirs].
  intros st; cbn [state_after]. rewrite slots_seen_other, Htheirs by done.
  destruct (mapM (slot_seen l) (g_slots g)) as [own|]; cbn; [|done].
  destruct (state_after c (unclaimed g l)) as [rest|]; cbn; [|done]; intros [= <-].
  destruct (Hread rest eq_refl) as (r & Hr & Hok).
  cbn [read]. rewrite lookup_ge_None_2, Hflat by lia.
  replace (j + length (g_slots g) - length (g_slots g))%nat with j by lia.
  rewrite Hr; cbn. eexists; split; [done|]. rewrite <- Hok. by destruct r.
Qed.

Lemma state_after_unknown c : linked c -> forall l name d, field c name = None ->
  state_after c (l ++ [(name, d)]) = state_after c l
  /\ unclaimed_by c (l ++ [(name, d)]) = unclaimed_by c l ++ [(name, d)].
Proof.
  induction 1 as [g _ Hflat|g flat c _ Hflat Hc IH]; intros l name d; cbn [field]; rewrite Hflat.
  all: destruct (slot_index (g_slots g) name) eqn:Hj; [done|]; intros Hfield.
  all: assert (Hout : name ∉ concat (map sl_aliases (g_slots g))) by by apply slot_index_none.
  all: assert (Htheirs : unclaimed g (l ++ [(name, d)]) = unclaimed g l ++ [(name, d)])
    by (rewrite unclaimed_app; unfold unclaimed at 2; by rewrite filter_cons_True).
  all: cbn [state_after unclaimed_by]; rewrite slots_seen_other, ?Htheirs by done; try done.
  destruct (field c name) eqn:Hc'; [done|].
  by destruct (IH (unclaimed g l) name d Hc') as [-> ->].
Qed.

(** What has gone wrong stays wrong. *)
Lemma mapM_seen_none slots l m : mapM (slot_seen l) slots = None -> mapM (slot_seen (l ++ m)) slots = None.
Proof.
  rewrite mapM_None, Exists_exists; intros (s & Hin & Hs). eauto using mapM_none, slot_seen_none.
Qed.
Lemma state_after_none c : forall l m, state_after c l = None -> state_after c (l ++ m) = None.
Proof.
  induction c as [|g c IH]; intros l m; [done|]. cbn [state_after].
  destruct (mapM (slot_seen l) (g_slots g)) as [own|] eqn:Hown; cbn; [|by rewrite mapM_seen_none].
  destruct (state_after c (unclaimed g l)) as [rest|] eqn:Hrest; cbn; [done|]; intros _.
  rewrite unclaimed_app, IH by done. by destruct (mapM (slot_seen (l ++ m)) (g_slots g)).
Qed.
Lemma reference_sink_app c l m :
  reference_sink c (l ++ m)
  = foldl (fun sink kv => s ← sink; ok_part (unknown c s kv.1 kv.2)) (reference_sink c l) m.
Proof. apply foldl_app. Qed.
Lemma reference_sink_none c l m : reference_sink c l = None -> reference_sink c (l ++ m) = None.
Proof. rewrite reference_sink_app; intros ->. by induction m. Qed.

Lemma named_entries_cons key value (entries : Entries) :
  named_entries ((key, value) :: entries)
  = match ok_part (read_key key) with
    | Some name => cons (name, value) <$> named_entries entries
    | None => None
    end.
Proof. unfold named_entries; cbn. destruct (read_key key); cbn; [|done]. by destruct (mapM _ entries). Qed.

(** The loop over the entries, from any point on. *)
Lemma visit_entries_after c : linked c -> forall entries l st sink,
  state_after c l = Some st -> reference_sink c (unclaimed_by c l) = Some sink ->
  exists r, visit_entries c st sink entries = Return r
    /\ ok_part r = (named ← named_entries entries;
                    st ← state_after c (l ++ named);
                    sink ← reference_sink c (unclaimed_by c (l ++ named));
                    Some (st, sink)).
Proof.
  intros Hc entries; induction entries as [|[key value] entries IH]; intros l st sink Hst Hsink; cbn [visit_entries].
  { eexists; split; [done|]. cbn. by rewrite app_nil_r, Hst; cbn; rewrite Hsink. }
  rewrite named_entries_cons. destruct (read_key key) as [name|e]; cbn [ok_part]; [|eexists; split; done].
  assert (Happ : forall named : list (string * Deserializer), l ++ (name, value) :: named = (l ++ [(name, value)]) ++ named)
    by (intros; by rewrite <- app_assoc).
  destruct (field c name) as [i|] eqn:Hfield.
  - destruct (state_after_known c Hc l name value i Hfield) as [Hread Hleft].
    destruct (Hread st Hst) as (r & -> & Hok). destruct r as [st'|e]; cbn in Hok.
    + destruct (IH (l ++ [(name, value)]) st' sink) as (r & Hr & Hrok); [done|by rewrite Hleft|].
      exists r; split; [done|]. rewrite Hrok. destruct (named_entries entries); cbn; [|done]. by rewrite <- Happ.
    + eexists; split; [done|]. cbn. destruct (named_entries entries) as [l0|]; cbn; [|done].
      by rewrite (Happ l0), state_after_none.
  - destruct (state_after_unknown c Hc l name value Hfield) as [Hsame Hleft].
    assert (Hnext : reference_sink c (unclaimed_by c (l ++ [(name, value)])) = ok_part (unknown c sink name value))
      by (rewrite Hleft, reference_sink_app, Hsink; done).
    destruct (unknown c sink name value) as [sink'|e]; cbn in Hnext.
    + destruct (IH (l ++ [(name, value)]) st sink') as (r & Hr & Hrok); [by rewrite Hsame|done|].
      exists r; split; [done|]. rewrite Hrok. destruct (named_entries entries); cbn; [|done]. by rewrite <- Happ.
    + eexists; split; [done|]. cbn. destruct (named_entries entries) as [named|]; cbn; [|done].
      rewrite (Happ named), unclaimed_by_app, reference_sink_none by done.
      by destruct (state_after c ((l ++ [(name, value)]) ++ named)).
Qed.

(** The fields of the struct. *)
Lemma slot_seen_missing l s : slot_seen l s = Some None -> occurrences s l = [].
Proof.
  unfold slot_seen. destruct (occurrences s l) as [|[] [|[] ?]]; try done. by destruct (slot_value s d).
Qed.
Lemma reference_slot_seen l s :
  reference_slot s l = (o ← slot_seen l s; match o with Some v => Some v | None => ok_part (slot_missing s) end).
Proof.
  unfold reference_slot, slot_seen. destruct (occurrences s l) as [|[] [|[] ?]]; try done.
  by destruct (slot_value s d).
Qed.
Lemma finish_field_seen g l own inner sink f :
  mapM (slot_seen l) (g_slots g) = Some own ->
  ok_part (finish_field (g_slots g) own inner sink f) = reference_field g l (ok_part inner) sink f.
Proof.
  intros Hown; apply mapM_Some in Hown. destruct f as [member i|member|member|member ty path]; cbn; try done.
  - destruct (g_slots g !! i) as [s|] eqn:Hs; cbn.
    + destruct (Forall2_lookup_l _ _ _ _ _ Hown Hs) as (o & -> & Hseen). rewrite reference_slot_seen, Hseen; cbn.
      destruct o; [done|]. by destruct (slot_missing s).
    + assert (own !! i = None) as ->; [|done].
      apply lookup_ge_None_2; rewrite <- (Forall2_length _ _ _ Hown); by apply lookup_ge_None_1.
  - by destruct inner.
Qed.
Lemma finish_after c : linked c -> forall l sink,
  (forall st, state_after c l = Some st -> ok_part (finish c st sink) = reference_fields c l sink)
  /\ (state_after c l = None -> reference_fields c l sink = None).
Proof.
  assert (Hbad : forall g l sink inner, generated_ok g -> mapM (slot_seen l) (g_slots g) = None ->
            mapM (reference_field g l inner sink) (g_finishes g) = None).
  { intros g l sink inner Hg; rewrite mapM_None, Exists_exists; intros (s & (i & Hs)%list_elem_of_lookup & Hseen).
    destruct (proj1 (ok_slots g Hg i)) as (member & Hin); [by apply lookup_lt_Some in Hs|].
    apply (mapM_none _ _ _ Hin); cbn. rewrite Hs; cbn. by rewrite reference_slot_seen, Hseen. }
  assert (Hgood : forall g l own inner sink, mapM (slot_seen l) (g_slots g) = Some own ->
            ok_part (collect_results (map (finish_field (g_slots g) own inner sink) (g_finishes g)))
            = mapM (reference_field g l (ok_part inner) sink) (g_finishes g)).
  { intros g l own inner sink Hown. rewrite ok_part_collect. apply mapM_ext; intros f. by apply finish_field_seen. }
  induction 1 as [g Hg Hflat|g flat c Hg Hflat Hc IH]; intros l sink; cbn [state_after finish reference_fields].
  - destruct (mapM (slot_seen l) (g_slots g)) as [own|] eqn:Hown; cbn; split; try done; [|by intros _; apply Hbad].
    intros st [= <-]. by rewrite (Hgood g l own).
  - destruct (mapM (slot_seen l) (g_slots g)) as [own|] eqn:Hown; cbn; [|split; [done|]; by intros _; apply Hbad].
    destruct (IH (unclaimed g l) []) as [Hfin Hnone].
    destruct (state_after c (unclaimed g l)) as [rest|]; cbn; split; try done.
    + intros st [= <-]. by rewrite (Hgood g l own), (Hfin rest).
    + intros _; rewrite Hnone by done.
      destruct (proj1 (ok_flat g Hg)) as (member & Hin); [by rewrite Hflat|]. by apply (mapM_none _ _ _ Hin).
Qed.

Lemma state_default_after c : state_after c [] = Some (state_default c).
Proof.
  induction c as [|g c IH]; [done|]. cbn [state_after unclaimed filter list_filter].
  assert (mapM (slot_seen []) (g_slots g) = Some (map (fun _ => None) (g_slots g))) as ->; cbn.
  { induction (g_slots g) as [|s slots IHs]; [done|]. cbn. by rewrite IHs. }
  change (unclaimed g []) with (@nil (string * Deserializer)). by rewrite IH.
Qed.

Lemma linked_chains_agree c d : linked c ->
  exists r, deserialize_map c d = Return r /\ ok_part r = reference c d.
Proof.
  intros Hc; unfold deserialize_map, reference, visit_map.
  destruct (d HMap) as [[]|e]; try (eexists; split; done).
  assert (Hsink : reference_sink c (unclaimed_by c []) = Some []).
  { replace (unclaimed_by c []) with (@nil (string * Deserializer)); [done|]. clear; by induction c. }
  destruct (visit_entries_after c Hc entries [] _ [] (state_default_after c) Hsink) as (r & -> & Hok); cbn.
  eexists; split; [done|]. destruct (named_entries entries) as [named|]; cbn in *; [|by destruct r].
  destruct (finish_after c Hc named []) as [_ Hnone].
  destruct (state_after c named) as [st|] eqn:Hst; cbn in *.
  - destruct (reference_sink c (unclaimed_by c named)) as [sink|]; cbn in *; destruct r as [[st' sink']|e]; try done; cbn.
    simplify_eq/=. by apply (proj1 (finish_after c Hc named sink)).
  - destruct r as [[]|e]; [done|]. cbn. destruct (reference_sink c (unclaimed_by c named)); cbn; [|done].
    by rewrite (proj2 (finish_after c Hc named _)).
Qed.
End Equivalence.

(** Chains of derived groups are complete. *)
Lemma link_linked fuel impls g c :
  generated_ok g -> (forall ty g', impls ty = Some g' -> generated_ok g') -> link fuel impls g = Some c -> linked c.
Proof.
  intros Hg Himpls; revert g c Hg; induction fuel as [|fuel IH]; intros g c Hg; cbn [link]; [done|].
  destruct (g_flat g) as [[m ty]|] eqn:Hflat; [|intros [= <-]; by apply linked_last].
  destruct (impls ty) as [inner|] eqn:Hinner; cbn; [|done].
  destruct (link fuel impls inner) as [c'|] eqn:Hlink; cbn; [|done]. intros [= <-].
  eapply linked_more; eauto.
Qed.

(** ** The derives *)

(** C33: A struct that [DeserializeMap] accepts, whatever groups the compiler finds for
    it among those that [DeserializeFields] accepts, is decoded without a panic and
    with the result of the reference: the same fields from the same maps, and an
    error exactly where the reference has one. *)
Theorem direct_decoding_is_serdes `{AttributeParser, SerdeKit} input impls fuel g c d :
  deserialize_map_derive input = Ok g ->
  (forall ty g', impls ty = Some g' -> exists i, deserialize_fields_derive i = Ok g') ->
  link fuel impls g = Some c ->
  exists r, deserialize_map c d = Return r /\ ok_part r = reference c d.
Proof.
  intros Hg Himpls Hlink. apply linked_chains_agree. eapply link_linked; [by eapply generate_ok| |exact Hlink].
  intros ty g' (i & Hi)%Himpls. by eapply generate_ok.
Qed.

(** A flattened group has no sink of its own, so no name that the struct does not
    know is lost on the way to the sink. *)
Lemma generate_fields_no_sink name fields : forall n n',
  generate_fields name false fields n = Ok n' -> n_extra n = None -> n_extra n' = None.
Proof.
  induction fields as [|f fields IH]; intros n n'; cbn [generate_fields]; [by intros [= ->]|].
  destruct (generate_field name false f n) as [n1|] eqn:Hf; cbn [result_bind]; [|done].
  intros Hrest Hn; apply (IH _ _ Hrest); clear IH Hrest. revert Hf.
  unfold generate_field, reject_recursion, generate_flattened, generate_slot, generate_skipped.
  destruct (mentions _ _); [done|]; cbn [result_bind]; destruct (extra _); [|done]; cbn [result_bind negb orb].
  repeat (case_match; try discriminate); intros; by simplify_eq/=.
Qed.
Lemma groups_have_no_sink `{AttributeParser} input g : deserialize_fields_derive input = Ok g -> g_extra g = None.
Proof.
  unfold deserialize_fields_derive, generate. destruct (validate_attributes _ _); cbn [result_bind]; [|done].
  case_match; [done|]. destruct (di_data input); cbn [result_bind].
  all: try (destruct (validate_fields _); cbn [result_bind]; [|done]).
  all: destruct (from_ast input) as [[[[[] ?|] ?]|]|]; cbn [result_bind ok_or c_data]; try done.
  all: destruct (generate_fields _ _ _ _) as [n|] eqn:Hgen; cbn [result_bind]; [|done]; intros [= <-].
  all: by apply (generate_fields_no_sink _ _ _ _ Hgen).
Qed.

(** The marker of the generated state is no field of the struct: as many attempts
    as there are fields are enough. *)
Lemma longer_marker_fewer (members : list string) (marker : string) (n n' : nat) :
  (n < n')%nat -> marker ∈ members -> String.length marker = n ->
  (length (filter (fun m => n' <= String.length m)%nat members)
   < length (filter (fun m => n <= String.length m)%nat members))%nat.
Proof.
  intros Hn Hin Hlen.
  assert (Hle : forall l : list string, (length (filter (fun m => n' <= String.length m)%nat l)
                <= length (filter (fun m => n <= String.length m)%nat l))%nat).
  { induction l as [|m l IH]; [done|]. rewrite !filter_cons. repeat case_decide; cbn [length]; lia. }
  induction Hin as [m l|m m' l Hin IH]; rewrite !filter_cons.
  - specialize (Hle l). repeat case_decide; cbn [length]; lia.
  - specialize (IH Hlen). repeat case_decide; cbn [length]; lia.
Qed.
Lemma free_marker_fresh members fuel : forall marker,
  (length (filter (fun m => String.length marker <= String.length m)%nat members) <= fuel)%nat ->
  free_marker fuel members marker ∉ members.
Proof.
  induction fuel as [|fuel IH]; intros marker Hfuel; cbn [free_marker].
  - intros Hin. assert (Hm : marker ∈ filter (fun m => String.length marker <= String.length m)%nat members)
      by (apply list_elem_of_filter; split; [lia|done]).
    destruct (filter _ members); [by apply elem_of_nil in Hm|cbn in Hfuel; lia].
  - case_decide as Hin; [|done]. apply IH.
    pose proof (longer_marker_fewer members marker (String.length marker) (S (String.length marker)) ltac:(lia) Hin eq_refl).
    change (String.length ("_" +:+ marker)) with (S (String.length marker)). lia.
Qed.
Lemma markers_are_fresh members : marker_of members ∉ members.
Proof. apply free_marker_fresh, length_filter. Qed.

(** ** A struct of the tests *)

Definition demo_attribute (name : string) (attributes : Attributes) : option Meta :=
  head (filter (fun m => m_path m = name) (concat (map (fun a => default [] a) attributes))).
Definition demo_field (f : FieldSource) : AstField :=
  let value name := demo_attribute name (fs_serde f) ≫= m_value in
  let name := default (fs_member f) (value "rename") in
  {| f_member := fs_member f; f_ty := fs_ty f; f_original := f; f_name := name;
     f_aliases := name :: option_list (value "alias");
     f_default := match demo_attribute "default" (fs_serde f) with
                  | Some m => from_option DefaultPath DefaultDefault (m_value m)
                  | None => DefaultNone
                  end;
     f_flatten := bool_decide (is_Some (demo_attribute "flatten" (fs_serde f)));
     f_deserialize_with := value "deserialize_with";
     f_skip_deserializing := bool_decide (is_Some (demo_attribute "skip_deserializing" (fs_serde f))) |}.
Definition demo_parser : AttributeParser := fun input =>
  match di_data input with
  | SynStruct style fields =>
      Ok (Some {| c_data := AstStruct style (map demo_field fields); c_tag := TagExternal |})
  | _ => Ok None
  end.

Inductive DemoVal := DemoNumber (z : Z) | DemoText (s : string) | DemoNone | DemoSome (v : DemoVal) | DemoNull.

(** A format that hands out the same event on every request but an optional one. *)
Definition demo_format (e : Event) : Deserializer := fun hint =>
  Ok match hint, e with
     | HOption, VUnit => VNone
     | HOption, _ => VSome (fun _ => Ok e)
     | _, _ => e
     end.

Definition demo_ty (ty : syn_type) : string :=
  match ty with
  | TyPath _ segments => from_option fst "" (last segments)
  | TyOther _ => ""
  end.

Definition demo_scalar (ty : syn_type) (d : Deserializer) : result DemoVal DeError :=
  match d HAny with
  | Ok (VU64 z) => if bool_decide (demo_ty ty = "String") then Err (DeInvalidType "a string") else Ok (DemoNumber z)
  | Ok (VStr s) => if bool_decide (demo_ty ty = "u32") then Err (DeInvalidType "u32") else Ok (DemoText s)
  | Ok VUnit => if bool_decide (demo_ty ty = "Value") then Ok DemoNull else Err (DeInvalidType "null")
  | Ok _ => Err (DeInvalidType "a scalar")
  | Err e => Err e
  end.
Definition demo_decode (ty : syn_type) (d : Deserializer) : result DemoVal DeError :=
  if bool_decide (demo_ty ty = "Option") then
    match d HOption with
    | Ok VNone => Ok DemoNone
    | Ok (VSome inner) => map_ok DemoSome (demo_scalar (ty_named "u32") inner)
    | Ok _ => Err (DeInvalidType "an option")
    | Err e => Err e
    end
  else demo_scalar ty d.
#[local] Instance demo_serde : SerdeKit := {|
  Val := DemoVal;
  decode := demo_decode;
  with_fn := fun _ => demo_decode;
  default_of := fun _ => DemoNone;
  default_fn := fun _ => DemoNumber 7;
  ignored_any := fun d => map_ok (fun _ => tt) (d HIgnored);
  decode_unit := fun d => match d HUnit with Ok VUnit => Ok tt | Ok _ => Err (DeInvalidType "unit") | Err e => Err e end |}.
#[local] Existing Instance demo_parser.

Definition demo_item (name value : string) : Meta := {| m_path := name; m_value := Some value |}.
Definition demo_flag (name : string) : Meta := {| m_path := name; m_value := None |}.
Definition demo_member (member : string) (ty : syn_type) (serde : list Meta) (chimera : list Meta) : FieldSource :=
  {| fs_member := member; fs_ty := ty; fs_serde := [Some serde]; fs_chimera := [Some chimera] |}.
Definition demo_struct (name : string) (fields : list FieldSource) : DeriveInput :=
  {| di_ident := name; di_serde := []; di_chimera := []; di_data := SynStruct StructStyle fields |}.

(** [Known] and [Envelope] of [chimera-serde/tests/maps.rs]. *)
Definition demo_known : DeriveInput :=
  demo_struct "Known"
    [demo_member "category" (ty_named "String") [demo_item "rename" "type"; demo_item "alias" "kind"] [];
     demo_member "optional_value" (TyPath None [("Option", Some [ty_named "u16"])]) [demo_item "rename" "optionalValue"] [];
     demo_member "count" (ty_named "usize") [demo_item "default" "default_count"] []].
Definition demo_envelope : DeriveInput :=
  demo_struct "Envelope"
    [demo_member "id" (ty_named "u32") [] [];
     demo_member "known" (ty_named "Known") [demo_flag "flatten"] [];
     demo_member "extra" (TyPath None [("BTreeMap", Some [ty_named "String"; ty_named "Value"])])
       [demo_flag "flatten"] [demo_flag "extra"]].
Definition demo_impls (ty : syn_type) : option Generated :=
  if bool_decide (demo_ty ty = "Known") then ok_part (map_err DeCustom (deserialize_fields_derive demo_known)) else None.

(** [{"z":1,"type":"tcp","optionalValue":null,"id":1,"a":null,"z":2}] *)
Definition demo_map : Deserializer := demo_format (VMap
  [(demo_format (VStr "z"), demo_format (VU64 1)); (demo_format (VStr "type"), demo_format (VStr "tcp"));
   (demo_format (VStr "optionalValue"), demo_format VUnit); (demo_format (VString "id"), demo_format (VU64 1));
   (demo_format (VStr "a"), demo_format VUnit); (demo_format (VStr "z"), demo_format (VU64 2))]).

Lemma direct_decoding_is_serdes_witness :
  exists g c,
    deserialize_map_derive demo_envelope = Ok g /\ link 2 demo_impls g = Some c
    /\ deserialize_map c demo_map
       = Return (Ok [("id", OutVal (DemoNumber 1));
                     ("known", OutGroup [("category", OutVal (DemoText "tcp"));
                                         ("optional_value", OutVal DemoNone); ("count", OutVal (DemoNumber 7))]);
                     ("extra", OutSink [("a", DemoNull); ("z", DemoNumber 2)])])
    /\ exists r, deserialize_map c demo_map = Return r /\ ok_part r = reference c demo_map.
Proof.
  eexists _, _. split; [vm_compute; reflexivity|]. split; [vm_compute; reflexivity|].
  split; [vm_compute; reflexivity|].
  eapply (direct_decoding_is_serdes demo_envelope demo_impls 2).
  - vm_compute; reflexivity.
  - intros ty g'; unfold demo_impls. destruct (bool_decide _); [|intros Hno; discriminate Hno].
    intros Hg'; exists demo_known. revert Hg'.
    destruct (deserialize_fields_derive demo_known); cbn; congruence.
  - vm_compute; reflexivity.
Defined.

(** Both names of one field, a repeated field and a missing one are refused. *)
Lemma bad_maps_are_refused :
  match deserialize_map_derive demo_envelope with
  | Ok g =>
      match link 2 demo_impls g with
      | Some c =>
          forallb (fun entries =>
            match deserialize_map c (demo_format (VMap (map (fun kv => (demo_format (VStr kv.1), demo_format kv.2)) entries))) with
            | Return (Err _) => true
            | _ => false
            end)
            [[("id", VU64 1); ("type", VStr "tcp"); ("kind", VStr "udp")];
             [("id", VU64 1); ("type", VStr "tcp"); ("optionalValue", VUnit); ("optionalValue", VU64 80)];
             [("id", VU64 1); ("type", VStr "tcp"); ("id", VU64 2)];
             [("type", VStr "tcp")]; [("id", VU64 1)];
             [("id", VU64 1); ("type", VStr "tcp"); ("count", VUnit)]]
      | None => false
      end
  | Err _ => false
  end = true.
Proof. vm_compute; reflexivity. Qed.
