(* ===== verification/SerdeScalars.v ===== *)
(** * Direct decoding of scalar enums

    The other half of [crates/chimera-serde-derive] ([untagged.rs]) and of
    [crates/chimera-serde] ([scalar.rs]): enums whose variants are told apart by
    the scalar that stands in their place, open enums of texts, and the helpers
    [from_str] and [number_or_string], with the enums of the API client that use
    them.

    [generate_untagged] is the derive; its answer is the generated code as data:
    an [OpenDecoder] or a [ScalarDecoder].  [visit_scalar] runs the methods that a
    [ScalarDecoder] has, [visit_open] those of an open enum.  [reference_scalar] is
    Serde's own reading of [untagged]: every variant, in the order of declaration,
    on the buffered value. *)

From S2P Require Import Prelude SerdeMaps.
Local Open Scope rust_scope.

(** ** The derive *)

Inductive Kind := KString | KNumber | KBool | KNull.
#[export] Instance Kind_eq_dec : EqDecision Kind.
Proof. solve_decision. Defined.

Definition number_types : list string :=
  ["u8"; "u16"; "u32"; "u64"; "u128"; "usize"; "i8"; "i16"; "i32"; "i64"; "i128"; "isize"; "f32"; "f64"].

Definition inferred_kind (ty : syn_type) : option Kind :=
  match ty with
  | TyPath None segments =>
      match last segments with
      | None => None
      | Some (name, _) =>
          let prefix := map fst (removelast segments) in
          if existsb (fun segment => bool_decide (is_Some segment.2)) segments then None
          else if bool_decide (prefix = [])
               || (bool_decide (name = "String")
                   && (bool_decide (prefix = ["std"; "string"]) || bool_decide (prefix = ["alloc"; "string"])))
               || (bool_decide (name <> "String")
                   && (bool_decide (prefix = ["std"; "primitive"]) || bool_decide (prefix = ["core"; "primitive"])))
          then if bool_decide (name = "String") then Some KString
               else if bool_decide (name = "bool") then Some KBool
               else if bool_decide (name ∈ number_types) then Some KNumber
               else None
          else None
      end
  | _ => None
  end.

(** The [kind] marker of a variant. *)
Fixpoint kind_items (found : option Kind) (items : list Meta) : result (option Kind) string :=
  match items with
  | [] => Ok found
  | item :: rest =>
      if negb (bool_decide (m_path item = "kind")) || bool_decide (is_Some found)
      then Err "expected one kind"
      else match m_value item with
           | Some "string" => kind_items (Some KString) rest
           | Some "number" => kind_items (Some KNumber) rest
           | Some "bool" => kind_items (Some KBool) rest
           | Some _ => Err "unsupported scalar kind"
           | None => Err "expected `=`"
           end
  end.
Fixpoint kind_attributes (found : option Kind) (attributes : Attributes) : result (option Kind) string :=
  match attributes with
  | [] => Ok found
  | None :: _ => Err "the attribute does not parse"
  | Some items :: rest =>
      let? found := kind_items found items in
      kind_attributes found rest
  end.
Definition kind (variant : VariantSource) : result (option Kind) string :=
  kind_attributes None (vs_chimera variant).

(** An open enum: texts of the known variants, and the variant for all others. *)
Record OpenDecoder := {
  o_cases : list (list string * string);
  o_names : list string;
  o_fallback : string }.

(** A scalar enum: the variants that can be read, in order, the null ones without a
    field. *)
Record ScalarDecoder := {
  s_ident : string;
  s_decoded : list (Kind * string * option AstField) }.

Inductive UntaggedDecoder :=
| UntaggedOpen (decoder : OpenDecoder)
| UntaggedScalar (decoder : ScalarDecoder).

(** The loop over the variants of an open enum. *)
Record OpenGen := {
  og_cases : list (list string * string);
  og_names : list string;
  og_seen : list string;
  og_fallback : option string }.
Definition open_start : OpenGen := {| og_cases := []; og_names := []; og_seen := []; og_fallback := None |}.

Definition open_attributes : list string :=
  ["rename"; "alias"; "untagged"; "skip_serializing"; "skip_deserializing"].
Definition open_shape := "expected unit variants followed by one #[serde(untagged)] String fallback".

Definition generate_open_variant (v : AstVariant) (n : OpenGen) : result OpenGen string :=
  let? _ := validate_attributes (vs_serde (v_original v)) open_attributes in
  let? marker := kind (v_original v) in
  if bool_decide (is_Some marker) then Err "open string enums do not use scalar kind markers"
  else if v_skip_deserializing v then Ok n
  else match v_style v, v_fields v with
       | UnitStyle, _ =>
           if v_untagged v then Err open_shape
           else match insert_names (og_seen n) (v_aliases v) with
                | None => Err "overlapping variant names or aliases"
                | Some seen =>
                    Ok {| og_cases := og_cases n ++ [(v_aliases v, v_ident v)];
                          og_names := og_names n ++ [v_name v];
                          og_seen := seen; og_fallback := og_fallback n |}
                end
       | NewtypeStyle, f :: _ =>
           if v_untagged v && bool_decide (inferred_kind (f_ty f) = Some KString)
              && negb (bool_decide (is_Some (og_fallback n)))
           then
             let? _ := validate_attributes (fs_serde (f_original f)) [] in
             Ok {| og_cases := og_cases n; og_names := og_names n; og_seen := og_seen n;
                   og_fallback := Some (v_ident v) |}
           else Err open_shape
       | _, _ => Err open_shape
       end.
Fixpoint generate_open_variants (variants : list AstVariant) (n : OpenGen) : result OpenGen string :=
  match variants with
  | [] => Ok n
  | v :: rest =>
      let? n := generate_open_variant v n in
      generate_open_variants rest n
  end.
Definition generate_open (variants : list AstVariant) : result OpenDecoder string :=
  let? n := generate_open_variants variants open_start in
  let? fallback := ok_or (og_fallback n) "an open string enum requires an untagged String fallback" in
  Ok {| o_cases := og_cases n; o_names := og_names n; o_fallback := fallback |}.

(** The loop over the variants of a scalar enum. *)
Definition scalar_attributes : list string := ["skip_serializing"; "skip_deserializing"].
Definition adapter_attributes : list string := ["with"; "deserialize_with"; "serialize_with"].

Definition newtype_kind (marker : option Kind) (f : AstField) : result Kind string :=
  let? k := ok_or (match marker with Some k => Some k | None => inferred_kind (f_ty f) end)
              "generic or custom fields need an explicit kind on the variant" in
  match f_deserialize_with f with
  | None =>
      if bool_decide (is_Some marker)
         && match inferred_kind (f_ty f) with Some inferred => negb (bool_decide (inferred = k)) | None => false end
      then Err "scalar kind conflicts with the field type"
      else Ok k
  | Some _ =>
      if bool_decide (is_Some marker) then Ok k
      else Err "custom decoders need an explicit scalar kind"
  end.

Definition scalar_shape := "only scalar newtype and null unit variants are supported".

Definition generate_scalar_variant (v : AstVariant) (decoded : list (Kind * string * option AstField))
    : result (list (Kind * string * option AstField)) string :=
  let? _ := validate_attributes (vs_serde (v_original v)) scalar_attributes in
  if v_skip_deserializing v then Ok decoded
  else
    let? marker := kind (v_original v) in
    match v_style v, v_fields v with
    | UnitStyle, _ =>
        if bool_decide (is_Some marker) then Err scalar_shape
        else Ok (decoded ++ [(KNull, v_ident v, None)])
    | NewtypeStyle, f :: _ =>
        let? _ := validate_attributes (fs_serde (f_original f)) adapter_attributes in
        let? k := newtype_kind marker f in
        Ok (decoded ++ [(k, v_ident v, Some f)])
    | _, _ => Err scalar_shape
    end.
Fixpoint generate_scalar_variants (variants : list AstVariant) (decoded : list (Kind * string * option AstField))
    : result (list (Kind * string * option AstField)) string :=
  match variants with
  | [] => Ok decoded
  | v :: rest =>
      let? decoded := generate_scalar_variant v decoded in
      generate_scalar_variants rest decoded
  end.

Definition generate_untagged `{AttributeParser} (input : DeriveInput) : result UntaggedDecoder string :=
  let? _ := validate_attributes (di_serde input) ["untagged"; "rename"; "rename_all"] in
  if negb (bool_decide (di_chimera input = [])) then Err "scalar kind belongs on a variant"
  else
    let? container := from_ast input in
    let? container := ok_or container "expected an enum" in
    match c_data container with
    | AstStruct _ _ => Err "DeserializeUntagged requires an enum"
    | AstEnum variants =>
        if existsb (fun v => existsb (fun f => negb (bool_decide (fs_chimera (f_original f) = []))) (v_fields v)) variants
        then Err "scalar kind belongs on the variant"
        else match c_tag container with
             | TagExternal => map_ok UntaggedOpen (generate_open variants)
             | TagNone =>
                 map_ok (fun decoded => UntaggedScalar {| s_ident := di_ident input; s_decoded := decoded |})
                   (generate_scalar_variants variants [])
             | _ => Err "expected #[serde(untagged)]"
             end
    end.

(** ** Running generated code *)

(** The deserializers of [serde::de::value] around one scalar. *)
Definition scalar_deserializer (e : Event) : Deserializer := fun hint =>
  match hint, e with
  | HEnum, VStr s | HEnum, VBorrowedStr s => Ok (VEnum s)
  | _, _ => Ok e
  end.

(** What tells the kinds apart. *)
Definition event_kind (e : Event) : option Kind :=
  match e with
  | VI64 _ | VU64 _ | VI128 _ | VU128 _ | VF64 _ => Some KNumber
  | VBool _ => Some KBool
  | VStr _ | VBorrowedStr _ | VString _ => Some KString
  | VUnit => Some KNull
  | _ => None
  end.

Section Running.
Context `{SerdeKit}.

(** A decoded enum: the variant and what it carries. *)
Definition Decoded : Type := string * option Val.

Definition variant_value (f : AstField) (d : Deserializer) : result Val DeError :=
  match f_deserialize_with f with
  | Some path => with_fn path (f_ty f) d
  | None => decode (f_ty f) d
  end.

Definition of_kind (k : Kind) (decoded : list (Kind * string * option AstField)) : list (Kind * string * option AstField) :=
  filter (fun candidate => candidate.1.1 = k) decoded.

(** The attempts of one method, in the order of declaration. *)
Fixpoint attempts (decoded : list (Kind * string * option AstField)) (d : Deserializer) : option Decoded :=
  match decoded with
  | [] => None
  | (_, ident, Some f) :: rest =>
      match variant_value f d with
      | Ok value => Some (ident, Some value)
      | Err _ => attempts rest d
      end
  | (_, ident, None) :: rest => attempts rest d
  end.

(** The body of [visit_string]: by reference up to the first plain [String], which
    takes the text itself. *)
Fixpoint owned_attempts (of_string : string -> Val) (decoded : list (Kind * string * option AstField)) (s : string)
    : option Decoded :=
  match decoded with
  | [] => None
  | (_, ident, Some f) :: rest =>
      if bool_decide (inferred_kind (f_ty f) = Some KString) && negb (bool_decide (is_Some (f_deserialize_with f)))
      then Some (ident, Some (of_string s))
      else match variant_value f (scalar_deserializer (VStr s)) with
           | Ok value => Some (ident, Some value)
           | Err _ => owned_attempts of_string rest s
           end
  | (_, ident, None) :: rest => owned_attempts of_string rest s
  end.

Definition no_match (name : string) : string := "data did not match any scalar variant of " +:+ name.

(** The visitor: a method stands only for the kinds that some variant has, and a
    missing one is Serde's type error. *)
Definition visit_scalar (of_string : string -> Val) (dec : ScalarDecoder) (e : Event) : result Decoded DeError :=
  match event_kind e with
  | None => Err (DeInvalidType (no_match (s_ident dec)))
  | Some k =>
      match of_kind k (s_decoded dec) with
      | [] => Err (DeInvalidType (no_match (s_ident dec)))
      | (((_, ident), _) :: _) as candidates =>
          match e with
          | VUnit => Ok (ident, None)
          | VString s => ok_or (owned_attempts of_string candidates s) (DeCustom (no_match (s_ident dec)))
          | _ => ok_or (attempts candidates (scalar_deserializer e)) (DeCustom (no_match (s_ident dec)))
          end
      end
  end.
Definition deserialize_scalar (of_string : string -> Val) (dec : ScalarDecoder) (d : Deserializer) : result Decoded DeError :=
  let? e := d HAny in visit_scalar of_string dec e.

(** Open enums: [StringEnum] and [EnumVisitor].  The text of the fallback is kept
    beside its name. *)
Inductive Opened := Known (ident : string) | Unknown (ident text : string).

Fixpoint known (cases : list (list string * string)) (value : string) : option string :=
  match cases with
  | [] => None
  | (aliases, ident) :: rest => if decide (value ∈ aliases) then Some ident else known rest value
  end.

Definition open_text (dec : OpenDecoder) (s : string) : Opened :=
  match known (o_cases dec) s with
  | Some ident => Known ident
  | None => Unknown (o_fallback dec) s
  end.

Definition expecting_open := "a string or a single unit-variant object".

Definition known_key (dec : OpenDecoder) (key : Deserializer) : result string DeError :=
  match key HIdentifier with
  | Ok (VStr s) | Ok (VBorrowedStr s) | Ok (VString s) =>
      ok_or (known (o_cases dec) s) (DeUnknownVariant s (o_names dec))
  | Ok _ => Err (DeInvalidType "a known unit variant")
  | Err e => Err e
  end.

Definition visit_open (dec : OpenDecoder) (e : Event) : result Opened DeError :=
  match e with
  | VStr s | VBorrowedStr s | VString s => Ok (open_text dec s)
  | VMap [] => Err (DeInvalidLength 0 expecting_open)
  | VMap ((key, value) :: rest) =>
      let? ident := known_key dec key in
      let? _ := decode_unit value in
      match rest with
      | [] => Ok (Known ident)
      | (key, _) :: _ =>
          let? _ := ignored_any key in
          Err (DeInvalidLength 2 expecting_open)
      end
  | _ => Err (DeInvalidType expecting_open)
  end.
Definition deserialize_string_enum (dec : OpenDecoder) (d : Deserializer) : result Opened DeError :=
  let? e := d HAny in visit_open dec e.

(** [from_str]. *)
Definition from_str (parse : string -> result Val string) (d : Deserializer) : result Val DeError :=
  match d HStr with
  | Ok (VStr s) | Ok (VBorrowedStr s) | Ok (VString s) => map_err DeCustom (parse s)
  | Ok _ => Err (DeInvalidType "a string accepted by FromStr")
  | Err e => Err e
  end.

(** ** What [untagged] means

    Every variant in the order of declaration, on the buffered value; [content] is
    Serde's deserializer of a buffered value. *)
Fixpoint reference_scalar (content : Event -> Deserializer) (decoded : list (Kind * string * option AstField)) (e : Event)
    : option Decoded :=
  match decoded with
  | [] => None
  | (_, ident, Some f) :: rest =>
      match variant_value f (content e) with
      | Ok value => Some (ident, Some value)
      | Err _ => reference_scalar content rest e
      end
  | (_, ident, None) :: rest =>
      match e with
      | VUnit => Some (ident, None)
      | _ => reference_scalar content rest e
      end
  end.
End Running.

(** ** The scalar decoder agrees with the reference *)

(** Null variants carry nothing and all others one field, so the [unwrap]s of the
    derive find what they ask for. *)
Definition decoded_ok (decoded : list (Kind * string * option AstField)) : Prop :=
  Forall (fun candidate => candidate.1.1 = KNull <-> candidate.2 = None) decoded.

Lemma inferred_not_null ty : inferred_kind ty <> Some KNull.
Proof. unfold inferred_kind. repeat case_match; done. Qed.
Lemma kind_items_not_null items : forall found found',
  kind_items found items = Ok found' -> found <> Some KNull -> found' <> Some KNull.
Proof.
  induction items as [|item items IH]; intros found found'; cbn [kind_items]; [by intros [= ->]|].
  repeat case_match; try done; intros Hrest _; by apply (IH _ _ Hrest).
Qed.
Lemma kind_attributes_not_null attributes : forall found found',
  kind_attributes found attributes = Ok found' -> found <> Some KNull -> found' <> Some KNull.
Proof.
  induction attributes as [|[items|] attributes IH]; intros found found'; cbn [kind_attributes]; [by intros [= ->]| |done].
  destruct (kind_items found items) as [next|] eqn:Hitems; cbn [result_bind]; [|done].
  eauto using kind_items_not_null.
Qed.
Lemma newtype_kind_not_null marker f k :
  newtype_kind marker f = Ok k -> marker <> Some KNull -> k <> KNull.
Proof.
  unfold newtype_kind. pose proof (inferred_not_null (f_ty f)) as Hinf.
  destruct marker as [m|]; cbn [ok_or result_bind].
  - intros Hk Hm; repeat case_match; simplify_eq; congruence.
  - destruct (inferred_kind (f_ty f)) eqn:E; cbn [ok_or result_bind]; [|done].
    intros Hk _; repeat case_match; simplify_eq; congruence.
Qed.
Lemma generate_scalar_ok variants : forall decoded decoded',
  generate_scalar_variants variants decoded = Ok decoded' -> decoded_ok decoded -> decoded_ok decoded'.
Proof.
  induction variants as [|v variants IH]; intros decoded decoded'; cbn [generate_scalar_variants]; [by intros [= ->]|].
  destruct (generate_scalar_variant v decoded) as [next|] eqn:Hv; cbn [result_bind]; [|done].
  intros Hrest Hdec; apply (IH _ _ Hrest); clear IH Hrest. revert Hv; unfold generate_scalar_variant.
  destruct (validate_attributes _ _); cbn [result_bind]; [|done]. case_match; [by intros [= <-]|].
  destruct (kind _) as [marker|] eqn:Hkind; cbn [result_bind]; [|done].
  destruct (v_style v), (v_fields v) as [|f ?]; try done.
  1: destruct (validate_attributes _ _); cbn [result_bind]; [|done];
     destruct (newtype_kind marker f) as [k|] eqn:Hk; cbn [result_bind]; [|done]; intros [= <-];
     apply Forall_app; split; [done|]; repeat constructor; cbn; [|done];
     intros ->; by destruct (newtype_kind_not_null _ _ _ Hk (kind_attributes_not_null _ _ _ Hkind ltac:(done))).
  all: case_match; [done|]; intros [= <-]; apply Forall_app; split; [done|]; by repeat constructor.
Qed.

Section Agreement.
Context `{SerdeKit} (content : Event -> Deserializer) (of_string : string -> Val).

(** What the annotations promise of a field's decoder: it refuses the other kinds,
    and reads its own alike from a buffer and from the value.  An owned text may be
    lent. *)
Definition lent (e : Event) : Event := match e with VString s => VStr s | _ => e end.
Definition keeps_its_kind (k : Kind) (f : AstField) : Prop :=
  forall e,
    (event_kind e <> Some k -> ok_part (variant_value f (content e)) = None)
    /\ (event_kind e = Some k -> ok_part (variant_value f (content e)) = ok_part (variant_value f (scalar_deserializer (lent e)))).
Definition keep_their_kinds (decoded : list (Kind * string * option AstField)) : Prop :=
  Forall (fun candidate => match candidate.2 with Some f => keeps_its_kind candidate.1.1 f | None => True end) decoded.
(** Serde's decoder of [String] answers with the text. *)
Definition strings_are_texts : Prop :=
  forall f s, inferred_kind (f_ty f) = Some KString -> f_deserialize_with f = None ->
    variant_value f (scalar_deserializer (VStr s)) = Ok (of_string s).

Lemma owned_attempts_lend decoded s : strings_are_texts ->
  owned_attempts of_string decoded s = attempts decoded (scalar_deserializer (VStr s)).
Proof.
  intros Hstr; induction decoded as [|[[k ident] [f|]] decoded IH]; cbn [owned_attempts attempts]; [done| |done].
  case_match eqn:Hplain; [|by rewrite IH].
  apply andb_true_iff in Hplain as [Hty%bool_decide_eq_true Hwith%negb_true_iff%bool_decide_eq_false].
  by rewrite (Hstr f s Hty) by (destruct (f_deserialize_with f); naive_solver).
Qed.

(** The variants of other kinds would have refused the value anyway. *)
Lemma reference_of_kind decoded e k :
  decoded_ok decoded -> keep_their_kinds decoded -> event_kind e = Some k -> k <> KNull ->
  reference_scalar content decoded e = attempts (of_kind k decoded) (scalar_deserializer (lent e)).
Proof.
  intros Hok Hkeep He Hnull; induction decoded as [|[[k' ident] field] decoded IH]; [done|].
  apply Forall_cons in Hok as [Hhead Hok]. apply Forall_cons in Hkeep as [Hfield Hkeep]. cbn in Hhead, Hfield.
  unfold of_kind; rewrite filter_cons; fold (of_kind k decoded); cbn [fst].
  destruct field as [f|]; cbn [reference_scalar].
  - destruct (Hfield e) as [Hother Hown]. case_decide as Hk; cbn [attempts].
    + subst k'; specialize (Hown He). rewrite <- IH by done.
      destruct (variant_value f (content e)), (variant_value f (scalar_deserializer (lent e))); by simplify_eq/=.
    + rewrite <- IH by done. destruct (variant_value f (content e)); [|done].
      by specialize (Hother ltac:(congruence)).
  - destruct Hhead as [_ Hk]. rewrite decide_False by (rewrite Hk; done). rewrite <- IH by done.
    destruct e; by simplify_eq/=.
Qed.

Lemma reference_null decoded :
  decoded_ok decoded -> keep_their_kinds decoded ->
  reference_scalar content decoded VUnit = (fun candidate => (candidate.1.2, None)) <$> head (of_kind KNull decoded).
Proof.
  intros Hok Hkeep; induction decoded as [|[[k' ident] field] decoded IH]; [done|].
  apply Forall_cons in Hok as [Hhead Hok]. apply Forall_cons in Hkeep as [Hfield Hkeep]. cbn in Hhead, Hfield.
  unfold of_kind; rewrite filter_cons; fold (of_kind KNull decoded); cbn [fst].
  destruct field as [f|]; cbn [reference_scalar].
  - rewrite decide_False by naive_solver. rewrite <- IH by done.
    destruct (Hfield VUnit) as [Hother _]. destruct (variant_value f (content VUnit)); [|done].
    by specialize (Hother ltac:(cbn; naive_solver)).
  - by rewrite decide_True by by apply Hhead.
Qed.

Lemma reference_structured decoded e :
  keep_their_kinds decoded -> event_kind e = None -> reference_scalar content decoded e = None.
Proof.
  intros Hkeep He; induction decoded as [|[[k' ident] field] decoded IH]; [done|].
  apply Forall_cons in Hkeep as [Hfield Hkeep]; cbn in Hfield; cbn [reference_scalar].
  destruct field as [f|]; [|by destruct e; auto].
  destruct (Hfield e) as [Hother _]. destruct (variant_value f (content e)); [|auto].
  by specialize (Hother ltac:(congruence)).
Qed.
End Agreement.

(** Whatever a scalar enum is shown, the decoder that [DeserializeUntagged]
    generates answers as Serde's trial of every variant on a buffered copy would:
    the first declared variant that reads the value wins, the variants of other
    kinds, which it never tries, would not have read it, and nothing else is
    accepted.  The hypotheses are what the annotations promise of the decoders. *)
Theorem first_declared_variant_wins `{AttributeParser, SerdeKit} content of_string input dec e :
  generate_untagged input = Ok (UntaggedScalar dec) ->
  keep_their_kinds content (s_decoded dec) -> strings_are_texts of_string ->
  ok_part (visit_scalar of_string dec e) = reference_scalar content (s_decoded dec) e.
Proof.
  intros Hgen Hkeep Hstr.
  assert (Hok : decoded_ok (s_decoded dec)).
  { revert Hgen; unfold generate_untagged.
    repeat (case_match; try done); simplify_eq/=; try done; unfold generate_open, map_ok, result_bind;
      repeat (case_match; try done); intros; simplify_eq/=; eapply generate_scalar_ok; [eassumption|constructor]. }
  unfold visit_scalar. destruct (event_kind e) as [k|] eqn:He; [|by rewrite reference_structured].
  destruct (decide (k = KNull)) as [->|Hk].
  - assert (e = VUnit) as -> by by destruct e. rewrite reference_null by done.
    by destruct (of_kind KNull (s_decoded dec)) as [|[[] ?] ?].
  - rewrite (reference_of_kind _ _ _ _ Hok Hkeep He Hk).
    destruct (of_kind k (s_decoded dec)) as [|[[k' ident] field] rest] eqn:Hcand; [done|].
    destruct e; cbn [event_kind] in He; simplify_eq; cbn [lent]; rewrite ?owned_attempts_lend by done.
    all: by match goal with |- ok_part (ok_or ?o _) = _ => destruct o end.
Qed.

(** ** Open enums *)

Definition open_ok (cases : list (list string * string)) : Prop := NoDup (concat (map fst cases)).

Lemma generate_open_ok variants : forall n n',
  generate_open_variants variants n = Ok n' ->
  (og_seen n ≡ₚ concat (map fst (og_cases n)) /\ NoDup (og_seen n)) ->
  og_seen n' ≡ₚ concat (map fst (og_cases n')) /\ NoDup (og_seen n').
Proof.
  induction variants as [|v variants IH]; intros n n'; cbn [generate_open_variants]; [by intros [= ->]|].
  destruct (generate_open_variant v n) as [next|] eqn:Hv; cbn [result_bind]; [|done].
  intros Hrest Hn; apply (IH _ _ Hrest); clear IH Hrest. revert Hv; unfold generate_open_variant.
  destruct (validate_attributes _ _); cbn [result_bind]; [|done].
  destruct (kind _); cbn [result_bind]; [|done].
  repeat (case_match; try done); unfold result_bind; repeat (case_match; try done); intros; simplify_eq/=; try done.
  all: destruct Hn as [Hseen Hnd].
  all: match goal with Hins : insert_names _ _ = _ |- _ => destruct (insert_names_spec _ _ _ Hins Hnd) as [? Hperm] end.
  all: split; [|done]; rewrite Hperm, Hseen, map_app, concat_app; cbn; rewrite app_nil_r; apply Permutation_app_comm.
Qed.

Lemma known_exact cases aliases ident value :
  open_ok cases -> (aliases, ident) ∈ cases -> value ∈ aliases -> known cases value = Some ident.
Proof.
  unfold open_ok; intros Hnd Hin Hvalue; induction cases as [|[aliases' ident'] cases IH]; [by apply elem_of_nil in Hin|].
  cbn in Hnd; apply NoDup_app in Hnd as (_ & Hdis & Hnd). cbn [known]. apply elem_of_cons in Hin as [[= -> ->]|Hin].
  - by rewrite decide_True.
  - rewrite decide_False; [by apply IH|]. intros Hv. apply (Hdis _ Hv).
    apply list_elem_of_In, in_concat. exists aliases; split; [|by apply list_elem_of_In].
    apply list_elem_of_In, list_elem_of_fmap. by exists (aliases, ident).
Qed.
Lemma known_none cases value :
  (forall aliases ident, (aliases, ident) ∈ cases -> value ∉ aliases) -> known cases value = None.
Proof.
  induction cases as [|[aliases ident] cases IH]; intros Hout; [done|]. cbn [known].
  rewrite decide_False by (eapply Hout; by left). apply IH; intros ? ? Hin; eapply Hout; by right.
Qed.

(** An open enum reads every text, however the format hands it over: one of the
    names of a known variant as that variant, any other as the fallback with the
    text unchanged. *)
Theorem open_enums_read_every_text `{AttributeParser, SerdeKit} input dec e s :
  generate_untagged input = Ok (UntaggedOpen dec) -> e ∈ [VStr s; VBorrowedStr s; VString s] ->
  (forall aliases ident, (aliases, ident) ∈ o_cases dec -> s ∈ aliases -> visit_open dec e = Ok (Known ident))
  /\ ((forall aliases ident, (aliases, ident) ∈ o_cases dec -> s ∉ aliases) ->
      visit_open dec e = Ok (Unknown (o_fallback dec) s)).
Proof.
  intros Hgen He.
  assert (Hok : open_ok (o_cases dec)).
  { revert Hgen; unfold generate_untagged, generate_open.
    repeat (case_match; try done); simplify_eq/=; try done; unfold map_ok, result_bind;
      repeat (case_match; try done); intros; simplify_eq/=.
    all: match goal with Hg : generate_open_variants _ _ = Ok _ |- _ =>
           destruct (generate_open_ok _ _ _ Hg) as [Hseen ?]; [by repeat constructor|] end.
    all: unfold open_ok; by rewrite <- Hseen. }
  assert (Hvisit : visit_open dec e = Ok (open_text dec s)).
  { repeat (apply elem_of_cons in He as [->|He]; [done|]). by apply elem_of_nil in He. }
  rewrite Hvisit; unfold open_text; split.
  - intros aliases ident Hin Hs. by rewrite (known_exact _ _ _ _ Hok Hin Hs).
  - intros Hout. by rewrite known_none.
Qed.

(** The other form is exactly one known name with null behind it. *)
Lemma open_maps_have_one_entry `{SerdeKit} dec entries o :
  visit_open dec (VMap entries) = Ok o ->
  exists key value ident, entries = [(key, value)] /\ known_key dec key = Ok ident
    /\ decode_unit value = Ok tt /\ o = Known ident.
Proof.
  destruct entries as [|[key value] rest]; cbn [visit_open]; [done|].
  destruct (known_key dec key) as [ident|] eqn:Hkey; cbn [result_bind]; [|done].
  destruct (decode_unit value) as [[]|] eqn:Hunit; cbn [result_bind]; [|done].
  destruct rest as [|[key2 ?] rest]; [intros [= <-]; eauto 10|].
  by destruct (ignored_any key2).
Qed.

(** ** Numbers in either form *)

Definition newtype_variant (ident : string) (ty : syn_type) (serde chimera : list Meta) : VariantSource :=
  {| vs_ident := ident; vs_style := NewtypeStyle;
     vs_fields := [{| fs_member := "0"; fs_ty := ty; fs_serde := [Some serde]; fs_chimera := [] |}];
     vs_serde := []; vs_chimera := [Some chimera] |}.
Definition unit_variant (ident : string) : VariantSource :=
  {| vs_ident := ident; vs_style := UnitStyle; vs_fields := []; vs_serde := []; vs_chimera := [] |}.

Definition untagged_enum (ident : string) (variants : list VariantSource) : DeriveInput :=
  {| di_ident := ident; di_serde := [Some [{| m_path := "untagged"; m_value := None |}]]; di_chimera := [];
     di_data := SynEnum variants |}.

Definition by_from_str (path : string) : Meta := {| m_path := "deserialize_with"; m_value := Some path |}.
Definition of_kind_marker (name : string) : Meta := {| m_path := "kind"; m_value := Some name |}.

(** The enum inside [number_or_string]. *)
Definition number_enum (ty : syn_type) : DeriveInput :=
  untagged_enum "Number"
    [newtype_variant "Number" ty [] [of_kind_marker "number"];
     newtype_variant "Text" ty [by_from_str "crate::from_str"] [of_kind_marker "string"]].
(** The enum inside [optional_port] of the API client. *)
Definition port_enum : DeriveInput :=
  untagged_enum "Port"
    [unit_variant "Null"; newtype_variant "Number" (ty_named "u16") [] [];
     newtype_variant "Text" (ty_named "u16") [by_from_str "chimera_serde::from_str"] [of_kind_marker "string"]].

(** What the attribute parser makes of these enums. *)
Definition parsed_field (f : FieldSource) : AstField :=
  {| f_member := fs_member f; f_ty := fs_ty f; f_original := f; f_name := fs_member f; f_aliases := [fs_member f];
     f_default := DefaultNone; f_flatten := false;
     f_deserialize_with := head (omap (fun m => if bool_decide (m_path m = "deserialize_with") then m_value m else None)
                                   (concat (map (default []) (fs_serde f))));
     f_skip_deserializing := false |}.
Definition parsed_variant (v : VariantSource) : AstVariant :=
  {| v_ident := vs_ident v; v_style := vs_style v; v_fields := map parsed_field (vs_fields v); v_original := v;
     v_name := vs_ident v; v_aliases := [vs_ident v]; v_skip_deserializing := false; v_untagged := false |}.
Definition parsed_enum (input : DeriveInput) : result (option AstContainer) string :=
  match di_data input with
  | SynEnum variants => Ok (Some {| c_data := AstEnum (map parsed_variant variants); c_tag := TagNone |})
  | _ => Ok None
  end.

Definition newtype_field (ty : syn_type) (serde : list Meta) : AstField :=
  parsed_field {| fs_member := "0"; fs_ty := ty; fs_serde := [Some serde]; fs_chimera := [] |}.

Definition number_decoder (ty : syn_type) : ScalarDecoder :=
  {| s_ident := "Number";
     s_decoded := [(KNumber, "Number", Some (newtype_field ty []));
                   (KString, "Text", Some (newtype_field ty [by_from_str "crate::from_str"]))] |}.
Definition port_decoder : ScalarDecoder :=
  {| s_ident := "Port";
     s_decoded := [(KNull, "Null", None); (KNumber, "Number", Some (newtype_field (ty_named "u16") []));
                   (KString, "Text", Some (newtype_field (ty_named "u16") [by_from_str "chimera_serde::from_str"]))] |}.

(** A type whose kind is plain to the derive must be a number. *)
Lemma number_enum_is_accepted `{AttributeParser} ty :
  from_ast (number_enum ty) = parsed_enum (number_enum ty) ->
  inferred_kind ty = None \/ inferred_kind ty = Some KNumber ->
  generate_untagged (number_enum ty) = Ok (UntaggedScalar (number_decoder ty)).
Proof.
  intros Hast Hty. unfold generate_untagged. rewrite Hast; cbn.
  unfold newtype_kind; cbn. by destruct Hty as [-> | ->].
Qed.
Lemma port_enum_is_accepted `{AttributeParser} :
  from_ast port_enum = parsed_enum port_enum ->
  generate_untagged port_enum = Ok (UntaggedScalar port_decoder).
Proof. intros Hast. unfold generate_untagged. by rewrite Hast. Qed.

Section Numbers.
Context `{SerdeKit} (of_string : string -> Val) (parse : syn_type -> string -> result Val string).

Definition number_or_string (ty : syn_type) (d : Deserializer) : result Val DeError :=
  let? v := deserialize_scalar of_string (number_decoder ty) d in
  ok_or v.2 (DeCustom "a null variant").

(** [optional_port::deserialize]. *)
Definition optional_port (d : Deserializer) : result (option Val) DeError :=
  map_ok snd (deserialize_scalar of_string port_decoder d).

(** The paths of the two enums lead to [from_str]. *)
Hypothesis paths_resolve : forall path ty d,
  path ∈ ["crate::from_str"; "chimera_serde::from_str"] -> with_fn path ty d = from_str (parse ty) d.

(** What a text or a number stands for. *)
Definition number_of (ty : syn_type) (e : Event) : option Val :=
  match e with
  | VStr s | VBorrowedStr s | VString s => ok_part (map_err DeCustom (parse ty s))
  | VI64 _ | VU64 _ | VI128 _ | VU128 _ | VF64 _ => ok_part (decode ty (scalar_deserializer e))
  | _ => None
  end.

Definition tried (ident : string) (r : result Val DeError) (name : string) : result Decoded DeError :=
  ok_or (match r with Ok v => Some (ident, Some v) | Err _ => None end) (DeCustom (no_match name)).
Lemma visit_number ty e :
  visit_scalar of_string (number_decoder ty) e
  = match event_kind e with
    | Some KNumber => tried "Number" (decode ty (scalar_deserializer e)) "Number"
    | Some KString => tried "Text" (with_fn "crate::from_str" ty (scalar_deserializer (lent e))) "Number"
    | _ => Err (DeInvalidType (no_match "Number"))
    end.
Proof.
  destruct e; try reflexivity. unfold visit_scalar, tried; cbn [event_kind].
  change (of_kind KString (s_decoded (number_decoder ty)))
    with [(KString, "Text", Some (newtype_field ty [by_from_str "crate::from_str"]))].
  cbv beta iota; cbn [owned_attempts]. by rewrite andb_false_r.
Qed.
Lemma visit_port e :
  visit_scalar of_string port_decoder e
  = match event_kind e with
    | Some KNull => Ok ("Null", None)
    | Some KNumber => tried "Number" (decode (ty_named "u16") (scalar_deserializer e)) "Port"
    | Some KString => tried "Text" (with_fn "chimera_serde::from_str" (ty_named "u16") (scalar_deserializer (lent e))) "Port"
    | _ => Err (DeInvalidType (no_match "Port"))
    end.
Proof. by destruct e. Qed.

(** A number is read by its own decoder, a text by [FromStr] and untrimmed, and
    nothing else, null included, is read at all. *)
Lemma numbers_come_in_two_forms ty d e :
  d HAny = Ok e -> ok_part (number_or_string ty d) = number_of ty e.
Proof.
  intros Hd; unfold number_or_string, deserialize_scalar. rewrite Hd; cbn [result_bind].
  rewrite visit_number, paths_resolve by (by left).
  destruct e; cbn [event_kind number_of]; try done.
  1-5: by destruct (decode ty _).
  all: cbn; by destruct (parse _ s).
Qed.

(** A port may be absent, and then it is null. *)
Lemma ports_may_be_null d e :
  d HAny = Ok e ->
  ok_part (optional_port d) = match e with VUnit => Some None | _ => Some <$> number_of (ty_named "u16") e end.
Proof.
  intros Hd; unfold optional_port, deserialize_scalar. rewrite Hd; cbn [result_bind].
  rewrite visit_port, paths_resolve by (right; by left).
  destruct e; cbn [event_kind number_of]; try done.
  1-5: by destruct (decode _ _).
  all: cbn; by destruct (parse _ s).
Qed.
End Numbers.

(** ** Enums of the tests *)

(** The parser of the enums above, and one that marks the last variant as the
    fallback of an open enum. *)
Definition scalar_parser : AttributeParser := parsed_enum.
Definition open_variant (v : VariantSource) : AstVariant :=
  let value name := demo_attribute name (vs_serde v) ≫= m_value in
  let name := default (vs_ident v) (value "rename") in
  {| v_ident := vs_ident v; v_style := vs_style v; v_fields := map parsed_field (vs_fields v); v_original := v;
     v_name := name; v_aliases := name :: option_list (value "alias");
     v_skip_deserializing := bool_decide (is_Some (demo_attribute "skip_deserializing" (vs_serde v)));
     v_untagged := bool_decide (is_Some (demo_attribute "untagged" (vs_serde v))) |}.
Definition open_parser : AttributeParser := fun input =>
  match di_data input with
  | SynEnum variants => Ok (Some {| c_data := AstEnum (map open_variant variants); c_tag := TagExternal |})
  | _ => Ok None
  end.

(** Serde on the types of the tests: integers in their range, Booleans, texts. *)
Definition demo_decode_scalar (ty : syn_type) (d : Deserializer) : result DemoVal DeError :=
  match d HAny with
  | Ok (VI64 z) | Ok (VU64 z) =>
      if bool_decide (demo_ty ty = "u8") && bool_decide (0 <= z < 256)%Z then Ok (DemoNumber z)
      else if bool_decide (demo_ty ty = "u64") && bool_decide (0 <= z < 2 ^ 64)%Z then Ok (DemoNumber z)
      else Err (DeInvalidType "an integer")
  | Ok (VStr s) | Ok (VBorrowedStr s) | Ok (VString s) =>
      if bool_decide (demo_ty ty = "String") then Ok (DemoText s) else Err (DeInvalidType "a string")
  | Ok _ => Err (DeInvalidType "a scalar")
  | Err e => Err e
  end.
#[local] Instance demo_scalars : SerdeKit := {|
  Val := DemoVal;
  decode := demo_decode_scalar;
  with_fn := fun _ => demo_decode_scalar;
  default_of := fun _ => DemoNone;
  default_fn := fun _ => DemoNone;
  ignored_any := fun d => map_ok (fun _ => tt) (d HIgnored);
  decode_unit := fun d => match d HUnit with Ok VUnit => Ok tt | Ok _ => Err (DeInvalidType "unit") | Err e => Err e end |}.
Definition demo_text : string -> @Val demo_scalars := DemoText.
(** Serde's deserializer of a buffered value, as far as these types ask it. *)
Definition demo_content (e : Event) : Deserializer := fun _ => Ok e.

(** Part of [Scalar] of [chimera-serde/tests/untagged.rs]. *)
Definition demo_scalar_enum : DeriveInput :=
  untagged_enum "Scalar"
    [newtype_variant "Small" (ty_named "u8") [] []; newtype_variant "Large" (ty_named "u64") [] [];
     newtype_variant "Text" (ty_named "String") [] []; unit_variant "Null"].

Lemma first_declared_variant_wins_witness :
  exists dec,
    @generate_untagged scalar_parser demo_scalar_enum = Ok (UntaggedScalar dec)
    /\ map (fun e => ok_part (visit_scalar demo_text dec e)) [VU64 255; VU64 256; VI64 (-1); VString "text"; VUnit; VBool true]
       = [Some ("Small", Some (DemoNumber 255)); Some ("Large", Some (DemoNumber 256)); None;
          Some ("Text", Some (DemoText "text")); Some ("Null", None); None]
    /\ ok_part (visit_scalar demo_text dec (VU64 256)) = reference_scalar demo_content (s_decoded dec) (VU64 256).
Proof.
  eexists. split; [vm_compute; reflexivity|]. split; [vm_compute; reflexivity|].
  apply (@first_declared_variant_wins scalar_parser _ demo_content demo_text demo_scalar_enum).
  - vm_compute; reflexivity.
  - repeat (apply Forall_cons; split); [..|apply Forall_nil; exact I]; cbn; try exact I.
    all: intros e; destruct e; split; cbn; try done; by intros [].
  - intros f s Hty Hwith. unfold variant_value. rewrite Hwith; cbn. unfold demo_decode_scalar; cbn.
    rewrite bool_decide_true; [done|]. revert Hty; unfold inferred_kind, demo_ty.
    repeat (case_match; try done); simplify_eq/=; intros; simplify_eq; try done.
    all: repeat match goal with Hb : bool_decide (_ = _) = true |- _ => apply bool_decide_eq_true in Hb end; done.
Defined.

(** [Open] of the same tests. *)
Definition demo_open_enum : DeriveInput :=
  {| di_ident := "Open"; di_serde := []; di_chimera := [];
     di_data := SynEnum
       [{| vs_ident := "Http"; vs_style := UnitStyle; vs_fields := [];
           vs_serde := [Some [demo_item "rename" "HTTP"; demo_item "alias" "web"]]; vs_chimera := [] |};
        {| vs_ident := "Disabled"; vs_style := UnitStyle; vs_fields := [];
           vs_serde := [Some [demo_flag "skip_deserializing"]]; vs_chimera := [] |};
        {| vs_ident := "Other"; vs_style := NewtypeStyle;
           vs_fields := [{| fs_member := "0"; fs_ty := ty_named "String"; fs_serde := []; fs_chimera := [] |}];
           vs_serde := [Some [demo_flag "untagged"]]; vs_chimera := [] |}] |}.

Lemma open_enums_read_every_text_witness :
  exists dec,
    @generate_untagged open_parser demo_open_enum = Ok (UntaggedOpen dec)
    /\ visit_open dec (VStr "web") = Ok (Known "Http")
    /\ visit_open dec (VStr "Disabled") = Ok (Unknown "Other" "Disabled").
Proof.
  eexists. split; [vm_compute; reflexivity|]. split.
  - refine (proj1 (@open_enums_read_every_text open_parser _ demo_open_enum _ (VStr "web") "web" _ _) ["HTTP"; "web"] _ _ _);
      [vm_compute; reflexivity|by left|by left|by right; left].
  - refine (proj2 (@open_enums_read_every_text open_parser _ demo_open_enum _ (VStr "Disabled") "Disabled" _ _) _);
      [vm_compute; reflexivity|by left|].
    intros aliases ident Hin; apply list_elem_of_singleton in Hin as [= -> ->].
    intros Hno; by repeat (apply elem_of_cons in Hno as [?|Hno]; [done|]); apply elem_of_nil in Hno.
Defined.
