(* ===== verification/Access.v ===== *)
(** * Who may talk to a core's controller, and the probes that do

    [controller_access.rs] of the service (the Unix host) and of the manager, and
    [health/probe.rs]: the directory of controller sockets, the permissions of a
    socket, and the probes that pass through them.  Files are those of a host whose
    calls answer arbitrarily ([AccessHost]); a custom probe answers arbitrarily. *)

From S2P Require Import Prelude Text Types PidRecord Paths Health Monitor ApiClient ApiTypes ApiCalls.
Open Scope rust_scope.

(** ** System calls *)

Record Meta := { mt_is_dir : bool; mt_is_symlink : bool; mt_is_socket : bool; mt_uid : N; mt_mode : N }.
Inductive SysCall :=
| CallMkdir (path : string) (mode : N)
| CallLstat (path : string) (answer : result Meta StdError)
| CallChown (path : string) (uid gid : N) (answer : result () StdError)
| CallChmod (path : string) (mode : N) (answer : result () StdError)
| CallCanonicalize (path : string).

(** The calls themselves; [ah_euid] is the user of the process. *)
Class AccessHost (E : Type) := {
  ah_euid : N;
  ah_mkdir : string -> N -> E -> result () StdError * E;
  ah_lstat : string -> E -> result Meta StdError * E;
  ah_chown : string -> N -> N -> E -> result () StdError * E;
  ah_chmod : string -> N -> E -> result () StdError * E;
  ah_canonicalize : string -> E -> result string StdError * E;
}.

(** The state of the host and the calls made so far. *)
Record Disk (E : Type) := { dk_env : E; dk_calls : list SysCall }.
#[global] Arguments dk_env {E}.
#[global] Arguments dk_calls {E}.

Section Disk.
Context {E : Type} `{AccessHost E}.

Definition Io (A : Type) : Type := Disk E -> result A StdError * Disk E.
Definition io_ret {A} (a : A) : Io A := fun d => (Ok a, d).
Definition io_err {A} (e : StdError) : Io A := fun d => (Err e, d).
Definition io_bind {A B} (m : Io A) (k : A -> Io B) : Io B :=
  fun d => let '(r, d) := m d in match r with Ok a => k a d | Err e => (Err e, d) end.
Definition io_call {A} (op : E -> result A StdError * E) (note : result A StdError -> SysCall) : Io A :=
  fun d => let '(r, env) := op (dk_env d) in (r, {| dk_env := env; dk_calls := dk_calls d ++ [note r] |}).

Definition mkdir (path : string) (mode : N) : Io () := io_call (ah_mkdir path mode) (fun _ => CallMkdir path mode).
Definition lstat (path : string) : Io Meta := io_call (ah_lstat path) (CallLstat path).
Definition chown (path : string) (uid gid : N) : Io () := io_call (ah_chown path uid gid) (CallChown path uid gid).
Definition chmod (path : string) (mode : N) : Io () := io_call (ah_chmod path mode) (CallChmod path mode).
Definition canonicalize_path (path : string) : Io string := io_call (ah_canonicalize path) (fun _ => CallCanonicalize path).
End Disk.
Declare Scope io_scope.
Notation "'let!' x ':=' m 'in' k" := (io_bind m (fun x => k)) (at level 200, x pattern, right associativity) : io_scope.
Open Scope io_scope.

(** ** Controller access *)

Inductive ControllerAuthorization := AuthCore | AuthHost.

(** [trait ControllerAccess]. *)
Record ControllerAccess `{ApiKit} (E : Type) := {
  ca_supports_local_ipc : bool;
  ca_pipe_security_descriptor : option string;
  ca_authorize : ApiClient.Host -> N -> ControllerAuthorization -> Io (E := E) ();
}.
#[global] Arguments ca_supports_local_ipc {_ E}.
#[global] Arguments ca_pipe_security_descriptor {_ E}.
#[global] Arguments ca_authorize {_ E}.

Section Access.
Context `{ApiKit} {E : Type} `{AccessHost E}.

Record UnixControllerAccess := { ua_root : string; ua_gid : N; ua_uid : N }.

Definition group_or_other_writable (mode : N) : bool := negb (bool_decide (N.land mode 18 = 0)).
Definition unsafe_directory (m : Meta) (uid : N) : bool :=
  negb (mt_is_dir m) || mt_is_symlink m || negb (bool_decide (mt_uid m = uid)) || group_or_other_writable (mt_mode m).

(** The modes are octal 700, 750 and 660. *)
Definition existing_ok (made : result () StdError) : result () StdError :=
  match made with
  | Err e => if decide (se_kind e = EkAlreadyExists) then Ok tt else Err e
  | Ok _ => Ok tt
  end.
Definition prepare (root : string) (gid : N) : Io UnixControllerAccess :=
  fun d =>
    let '(made, d) := mkdir root 448 d in
    match existing_ok made with
    | Err e => (Err e, d)
    | Ok _ =>
        (let! metadata := lstat root in
         if unsafe_directory metadata ah_euid then io_err (std_error EkOther "unsafe controller directory")
         else
           let! _ := chown root ah_euid gid in
           let! _ := chmod root 488 in
           let! canonical := canonicalize_path root in
           io_ret {| ua_root := canonical; ua_gid := gid; ua_uid := ah_euid |}) d
    end.

Definition directly_inside (root path : string) : bool :=
  match parent path with Some p => path_eq p root | None => false end.
Definition unix_authorize (self : UnixControllerAccess) (host : ApiClient.Host) : Io () :=
  match host with
  | ApiClient.UnixSocket path =>
      if negb (directly_inside (ua_root self) path) then io_err (std_error EkOther "controller escaped its directory")
      else
        let! metadata := lstat path in
        if negb (mt_is_socket metadata) || negb (bool_decide (mt_uid metadata = ua_uid self))
        then io_err (std_error EkOther "unexpected controller owner or file type")
        else
          let! _ := chown path (ua_uid self) (ua_gid self) in
          chmod path 432
  | _ => io_ret tt
  end.
Definition UnixAccess (self : UnixControllerAccess) : ControllerAccess E :=
  {| ca_supports_local_ipc := true; ca_pipe_security_descriptor := None;
     ca_authorize := fun host _ _ => unix_authorize self host |}.
Definition UnavailableControllerAccess : ControllerAccess E :=
  {| ca_supports_local_ipc := false; ca_pipe_security_descriptor := None;
     ca_authorize := fun host _ _ =>
       match host with
       | ApiClient.Http _ => io_ret tt
       | _ => io_err (std_error EkOther "core IPC authorization is unavailable on this host")
       end |}.

(** [controller_access_for_host]: [group] is the gid of the group the
    installation made, if it did. *)
Definition CONTROLLER_ROOT : string := "/var/run/nyanpasu-core".
Definition controller_access_for_host (group : option N) (d : Disk E) : option string * ControllerAccess E * Disk E :=
  match group with
  | None => (None, UnavailableControllerAccess, d)
  | Some gid =>
      let '(prepared, d) := prepare CONTROLLER_ROOT gid d in
      match prepared with
      | Err _ => (None, UnavailableControllerAccess, d)
      | Ok access =>
          let '(path, d) := canonicalize_path CONTROLLER_ROOT d in
          match path with
          | Ok path => (Some path, UnixAccess access, d)
          | Err _ => (None, UnavailableControllerAccess, d)
          end
      end
  end.
End Access.

(** ** Probes *)

Section Probes.
Context `{ApiKit} `{NetKit} {E EH EC : Type} `{AccessHost E} (transport : Transport EH) `{!Decode Version}.

Record ProbeContext := { pc_epoch : Epoch; pc_pid : N; pc_phase : ProbePhase; pc_host : ApiClient.Host }.
Record ControllerVersionProbe := { cvp_client : Client }.

(** The client of the default probe: no retries, the secret of the controller. *)
Definition ControllerVersionProbe_new (local : Url) (host : ApiClient.Host) (secret_ : option string)
    : result ControllerVersionProbe ApiError :=
  let builder := ClientBuilder_new host in
  let builder := match secret_ with Some s => secret s builder | None => builder end in
  map_ok (fun client => {| cvp_client := client |}) (build local builder).

(** Handles: a probe of the host program, the default one, the one that always
    answers, and one behind an authorization. *)
Inductive Probe :=
| CustomProbe (label : string)
| VersionProbe (p : ControllerVersionProbe)
| ProcessAlive
| AuthorizedProbe (access : ControllerAccess E) (mode : ControllerAuthorization) (inner : Probe).
Definition probe_label (p : Probe) : string :=
  match p with
  | CustomProbe label => label
  | VersionProbe _ => "controller-version"
  | ProcessAlive => "process-alive"
  | AuthorizedProbe _ _ _ => "authorized-controller"
  end.

(** What probes touch: the disk, the wire, and the host program's own state. *)
Record Outside := { ou_disk : Disk E; ou_http : HttpState EH; ou_custom : EC }.
Definition with_disk (d : Disk E) (o : Outside) : Outside := {| ou_disk := d; ou_http := ou_http o; ou_custom := ou_custom o |}.
Definition with_http (h : HttpState EH) (o : Outside) : Outside := {| ou_disk := ou_disk o; ou_http := h; ou_custom := ou_custom o |}.
Definition with_custom (c : EC) (o : Outside) : Outside := {| ou_disk := ou_disk o; ou_http := ou_http o; ou_custom := c |}.

Context (custom : string -> ProbeContext -> EC -> ProbeResult * EC).

Definition version_check (p : ControllerVersionProbe) (o : Outside) : ProbeResult * Outside :=
  let '(answer, h) := version transport (cvp_client p) (ou_http o) in
  (match answer with
   | Ok _ => ProbeHealthy
   | Err error => ProbeUnhealthy (Some (ApiError_to_string error))
   end, with_http h o).

Fixpoint check (p : Probe) (context : ProbeContext) (o : Outside) : ProbeResult * Outside :=
  match p with
  | CustomProbe label => let '(answer, c) := custom label context (ou_custom o) in (answer, with_custom c o)
  | VersionProbe p => version_check p o
  | ProcessAlive => (ProbeHealthy, o)
  | AuthorizedProbe access mode inner =>
      let '(allowed, d) := ca_authorize access (pc_host context) (pc_pid context) mode (ou_disk o) in
      match allowed with
      | Err error => (ProbeUnhealthy (Some ("controller authorization failed: " +:+ se_text error)), with_disk d o)
      | Ok _ => check inner context (with_disk d o)
      end
  end.
End Probes.
