(* ===== verification/WindowsAccess.v ===== *)
(** * Permissions of named pipes

    [chimera_ipc/src/utils/acl.rs] and [pipe_security.rs] and the Windows half of
    [controller_access.rs] of the service: security descriptors built from texts of
    SIDs, the policy for the pipe of a core, and the check of a pipe against it.

    Class [SidKit] is the conversion of SIDs and the text of descriptors, as the
    kernel defines them; a descriptor itself is its owner, its group and its list of
    entries, in a buffer of bytes that must hold them.  Class [PipeHost] is the rest
    of the kernel, with arbitrary answers; every change of permissions it is asked
    for is noted. *)

From S2P Require Import Prelude Text Types PidRecord ApiClient Access.
Open Scope rust_scope.

(** ** Security descriptors *)

Definition ADMINISTRATORS_GROUP_SID := "S-1-5-32-544".
Definition SYSTEM_SID := "S-1-5-18".
Definition AUTHENTICATED_USER_SID := "S-1-5-11".
Definition EVERYONE_SID := "S-1-1-0".

Definition GENERIC_ALL : N := 0x10000000.
Definition FILE_GENERIC_READ : N := 0x120089.
Definition FILE_GENERIC_WRITE : N := 0x120116.
Definition FILE_GENERIC_EXECUTE : N := 0x1200A0.
Definition FILE_ALL_ACCESS : N := 0x1F01FF.

(** The sizes of [ACL] and [ACCESS_ALLOWED_ACE], whose last four bytes are the first
    of the SID. *)
Definition size_of_acl : N := 8.
Definition size_of_ace : N := 12.

Record Ace (Sid : Type) := { ace_allow : bool; ace_sid : Sid; ace_mask : N; ace_flags : N }.
Arguments ace_allow {Sid}. Arguments ace_sid {Sid}. Arguments ace_mask {Sid}. Arguments ace_flags {Sid}.
Arguments Build_Ace {Sid}.

(** A buffer initialized for an access list of some size, and what has been added. *)
Record AclBuffer (Sid : Type) := { ab_size : N; ab_used : N; ab_aces : list (Ace Sid) }.
Arguments ab_size {Sid}. Arguments ab_used {Sid}. Arguments ab_aces {Sid}. Arguments Build_AclBuffer {Sid}.

Record SecurityDescriptor (Sid : Type) := { sd_owner : option Sid; sd_group : option Sid; sd_dacl : list (Ace Sid) }.
Arguments sd_owner {Sid}. Arguments sd_group {Sid}. Arguments sd_dacl {Sid}. Arguments Build_SecurityDescriptor {Sid}.

(** [ConvertStringSidToSidW], [GetLengthSid] and the texts of SIDs and rights that
    [ConvertSecurityDescriptorToString...] writes. *)
Class SidKit := {
  Sid : Type;
  sid_of_text : string -> option Sid;
  sid_length : Sid -> N;
  sid_text : Sid -> string;
  rights_text : N -> string;
}.

Section Descriptors.
Context `{SidKit}.

Definition try_from_sid_str (sid : string) (what : string) : result Sid string :=
  ok_or (sid_of_text sid) ("failed to convert " +:+ what).

Definition calculate_ace_size (sid : Sid) : N := size_of_ace + sid_length sid - 4.
Definition calculate_acl_size (sids : list Sid) : N :=
  foldl (fun total sid => total + calculate_ace_size sid) size_of_acl sids + 256.

(** [InitializeAcl]: the size of a list is kept in sixteen bits. *)
Definition initialize_acl (size : N) : result (AclBuffer Sid) string :=
  if decide (2 ^ 16 <= size) then Err "failed to initialize acl"
  else Ok (Build_AclBuffer size size_of_acl []).
(** [AddAccessAllowedAce] refuses an entry that does not fit. *)
Definition add_access_allowed_ace (acl : AclBuffer Sid) (mask : N) (sid : Sid) : result (AclBuffer Sid) string :=
  if decide (ab_size acl < ab_used acl + calculate_ace_size sid) then Err "failed to add access allowed ace"
  else Ok (Build_AclBuffer (ab_size acl) (ab_used acl + calculate_ace_size sid)
             (ab_aces acl ++ [Build_Ace true sid mask 0])).

Fixpoint add_sids_to_acl (acl : AclBuffer Sid) (sids : list (Sid * option N)) : result (AclBuffer Sid) string :=
  match sids with
  | [] => Ok acl
  | (sid, permissions) :: rest =>
      let? acl := add_access_allowed_ace acl (default GENERIC_ALL permissions) sid in
      add_sids_to_acl acl rest
  end.

(** The parameters are in the order of the code: the group before the owner. *)
Definition set_owner_and_group (sd : SecurityDescriptor Sid) (group owner : Sid) : SecurityDescriptor Sid :=
  Build_SecurityDescriptor (Some owner) (Some group) (sd_dacl sd).

Fixpoint convert_sids (sids : list (string * option N)) : result (list (Sid * option N)) string :=
  match sids with
  | [] => Ok []
  | (sid, permissions) :: rest =>
      let? owned := try_from_sid_str sid ("sid string to psid: " +:+ sid) in
      let? rest := convert_sids rest in
      Ok ((owned, permissions) :: rest)
  end.

Definition build_descriptor (sids_and_permissions : list (string * option N)) (owner group : option string)
    : result (SecurityDescriptor Sid) string :=
  let? system_sid := try_from_sid_str SYSTEM_SID "system sid string to psid" in
  let? admins_sid := try_from_sid_str ADMINISTRATORS_GROUP_SID "admins sid string to psid" in
  let? owner_sid := match owner with
                    | Some s => try_from_sid_str s "owner sid string to psid"
                    | None => Ok admins_sid
                    end in
  let? group_sid := match group with
                    | Some s => try_from_sid_str s "group sid string to psid"
                    | None => Ok system_sid
                    end in
  let? sids := convert_sids sids_and_permissions in
  let psids := (owner_sid, None) :: (group_sid, None) :: sids in
  let acl_size := calculate_acl_size (map fst psids) in
  let? acl := initialize_acl (acl_size + 256) in
  let? acl := add_sids_to_acl acl psids in
  Ok (set_owner_and_group (Build_SecurityDescriptor None None (ab_aces acl)) owner_sid group_sid).

(** The text of a descriptor. *)
Definition ace_text (ace : Ace Sid) : string :=
  "(" +:+ (if ace_allow ace then "A" else "D") +:+ ";;" +:+ rights_text (ace_mask ace) +:+ ";;;" +:+ sid_text (ace_sid ace) +:+ ")".
Definition aces_text (aces : list (Ace Sid)) : string := foldr (fun ace rest => ace_text ace +:+ rest) "" aces.
Definition part_text (tag : string) (sid : option Sid) : string :=
  match sid with Some sid => tag +:+ sid_text sid | None => "" end.
Definition descriptor_text (sd : SecurityDescriptor Sid) : string :=
  part_text "O:" (sd_owner sd) +:+ part_text "G:" (sd_group sd) +:+ "D:" +:+ aces_text (sd_dacl sd).

Definition generate_security_descriptor_internal (sids_and_permissions : list (string * option N))
    (owner group : option string) : result string string :=
  map_ok descriptor_text (build_descriptor sids_and_permissions owner group).
Definition generate_windows_security_descriptor (sids : list string) (owner group : option string) : result string string :=
  generate_security_descriptor_internal (map (fun sid => (sid, None)) sids) owner group.
Definition generate_security_descriptor_with_permissions (sids_and_permissions : list (string * N))
    (owner group : option string) : result string string :=
  generate_security_descriptor_internal (map (fun '(sid, p) => (sid, Some p)) sids_and_permissions) owner group.
(** The current user is what the token of the process says. *)
Definition create_default_pipe_security_descriptor (current_user : result string string) : result string string :=
  let? current_user_sid := current_user in
  generate_windows_security_descriptor [current_user_sid] None None.

(** ** The policy for a pipe *)

Record PipeSecurity := { ps_sddl : string }.

Definition PipeSecurity_new (sids : list string) : outcome (result PipeSecurity string) :=
  match generate_security_descriptor_with_permissions
          (map (fun sid => (sid, N.lor FILE_GENERIC_READ FILE_GENERIC_WRITE)) sids) None None with
  | Err e => Return (Err e)
  | Ok descriptor =>
      match split_once "D:" descriptor with
      | Some (_, dacl) => Return (Ok {| ps_sddl := "D:P" +:+ str_replace ";;GA;" ";;FA;" dacl |})
      | None => Panicked "generated DACL"
      end
  end.
End Descriptors.

(** ** A pipe and the policy *)

(** [MapGenericMask] with the mapping of files. *)
Definition map_generic_mask (mask : N) : N :=
  let mask := if N.testbit mask 31 then N.lor mask FILE_GENERIC_READ else mask in
  let mask := if N.testbit mask 30 then N.lor mask FILE_GENERIC_WRITE else mask in
  let mask := if N.testbit mask 29 then N.lor mask FILE_GENERIC_EXECUTE else mask in
  let mask := if N.testbit mask 28 then N.lor mask FILE_ALL_ACCESS else mask in
  N.land mask 0x0FFFFFFF.

Definition READ_CONTROL : N := 0x20000.
Definition WRITE_DAC : N := 0x40000.
Definition FILE_READ_ATTRIBUTES : N := 0x80.

Definition AceEntry : Type := string * N * N.

Section Pipes.
Context `{SidKit}.

(** [entries]: sorted and without duplicates, so two lists agree exactly when they
    are the same set. *)
Fixpoint entries (acl : list (Ace Sid)) : result (gset AceEntry) string :=
  match acl with
  | [] => Ok ∅
  | ace :: rest =>
      if negb (ace_allow ace) then Err "unexpected non-allow pipe ACE"
      else
        let? rest := entries rest in
        Ok ({[ (sid_text (ace_sid ace), map_generic_mask (ace_mask ace), ace_flags ace) ]} ∪ rest)
  end.

(** The kernel: a handle on an open pipe, its server, its list of entries ([None]:
    absent or NULL), and a new list for it. *)
Class PipeHost := {
  ph_state : Type;
  ph_handle : Type;
  ph_parse : string -> result (option (list (Ace Sid))) string;
  ph_open : string -> N -> ph_state -> result ph_handle string * ph_state;
  ph_server : ph_handle -> ph_state -> result N string * ph_state;
  ph_dacl : ph_handle -> ph_state -> result (option (list (Ace Sid))) string * ph_state;
  ph_set : ph_handle -> list (Ace Sid) -> ph_state -> result () string * ph_state;
}.
Context `{PipeHost}.

(** What the code has done to pipes: the handle it asked for the server, and the
    lists it set. *)
Inductive PipeCall :=
| CallServer (handle : ph_handle) (answer : result N string)
| CallDacl (handle : ph_handle) (answer : result (option (list (Ace Sid))) string)
| CallSet (handle : ph_handle) (acl : list (Ace Sid)).
Record Pipes := { pp_state : ph_state; pp_calls : list PipeCall }.
Definition Pio (A : Type) : Type := Pipes -> result A string * Pipes.
Definition pio_lift {A} (r : result A string) : Pio A := fun p => (r, p).
Definition pio_bind {A B} (m : Pio A) (k : A -> Pio B) : Pio B :=
  fun p => let '(r, p) := m p in match r with Ok a => k a p | Err e => (Err e, p) end.
Definition pio_call {A} (op : ph_state -> result A string * ph_state) (note : result A string -> list PipeCall) : Pio A :=
  fun p => let '(r, s) := op (pp_state p) in (r, {| pp_state := s; pp_calls := pp_calls p ++ note r |}).
Notation "'pipe' x ':=' m 'in' k" := (pio_bind m (fun x => k)) (at level 200, x pattern, right associativity).

Definition ensure (condition : bool) (message : string) : Pio () :=
  pio_lift (if condition then Ok tt else Err message).

Definition pipe_open (name : string) (access : N) : Pio ph_handle := pio_call (ph_open name access) (fun _ => []).
Definition pipe_server (handle : ph_handle) : Pio N := pio_call (ph_server handle) (fun r => [CallServer handle r]).
Definition pipe_read (handle : ph_handle) : Pio (option (list (Ace Sid))) :=
  pio_call (ph_dacl handle) (fun r => [CallDacl handle r]).
Definition pipe_set (handle : ph_handle) (acl : list (Ace Sid)) : Pio () :=
  pio_call (ph_set handle acl) (fun _ => [CallSet handle acl]).

(** [Descriptor::dacl]. *)
Definition descriptor_dacl (dacl : option (list (Ace Sid))) : result (list (Ace Sid)) string :=
  ok_or dacl "pipe has an absent or NULL DACL".

Definition pipe_prefix : string :=
  let b := String (Ascii.ascii_of_N 92) "" in b +:+ b +:+ "." +:+ b +:+ "pipe" +:+ b.

(** The change of permissions in [authorize], and the look at its effect. *)
Definition set_and_verify (handle : ph_handle) (desired : list (Ace Sid)) (expected : gset AceEntry) : Pio () :=
  pipe _ := pipe_set handle desired in
  pipe actual := pipe_read handle in
  pipe actual := pio_lift (descriptor_dacl actual) in
  pipe actual := pio_lift (entries actual) in
  ensure (bool_decide (actual = expected)) "pipe DACL verification failed".

(** [PipeSecurity::authorize] of a path that is Unicode. *)
Definition authorize_pipe (security : PipeSecurity) (name : string) (expected_pid : N) (set_permissions : bool) : Pio () :=
  pipe _ := ensure (starts_with pipe_prefix name) "expected a local named pipe" in
  let access := N.lor (N.lor READ_CONTROL FILE_READ_ATTRIBUTES) (if set_permissions then WRITE_DAC else 0) in
  pipe handle := pipe_open name access in
  pipe pid := pipe_server handle in
  pipe _ := ensure (bool_decide (pid = expected_pid))
              ("controller pipe belongs to PID " +:+ show_N pid +:+ ", expected " +:+ show_N expected_pid) in
  pipe desired := pio_lift (ph_parse (ps_sddl security)) in
  pipe desired := pio_lift (descriptor_dacl desired) in
  pipe expected := pio_lift (entries desired) in
  pipe current := pipe_read handle in
  if bool_decide (match descriptor_dacl current with Ok acl => entries acl | Err e => Err e end = Ok expected)
  then pio_lift (Ok tt)
  else
    pipe _ := ensure set_permissions "core did not apply the requested pipe permissions" in
    set_and_verify handle desired expected.

(** [WindowsControllerAccess]. *)
Context `{ApiKit}.
Definition WindowsControllerAccess_authorize (security : PipeSecurity) (host : ApiClient.Host) (pid : N)
    (mode : ControllerAuthorization) : Pio () :=
  match host with
  | ApiClient.NamedPipe path =>
      authorize_pipe security path pid (match mode with AuthHost => true | AuthCore => false end)
  | ApiClient.Http _ => pio_lift (Ok tt)
  | ApiClient.UnixSocket _ => pio_lift (Err "unsupported controller transport")
  end.
Definition pipe_security_descriptor (security : PipeSecurity) : option string := Some (ps_sddl security).
End Pipes.

(** ** Descriptors are built completely *)

Section DescriptorFacts.
Context `{SidKit}.

Definition needed (sids : list (Sid * option N)) : N :=
  foldr (fun sid total => calculate_ace_size (fst sid) + total) 0 sids.

Lemma acl_size_sum (sids : list (Sid * option N)) :
  calculate_acl_size (map fst sids) = size_of_acl + needed sids + 256.
Proof.
  unfold calculate_acl_size. enough (Hsum : forall start,
    foldl (fun total sid => total + calculate_ace_size sid) start (map fst sids) = start + needed sids) by by rewrite Hsum.
  induction sids as [|sid sids IH]; intros start; cbn; [lia|]. rewrite IH. unfold needed; cbn. lia.
Qed.

Definition allowed (sids : list (Sid * option N)) : list (Ace Sid) :=
  map (fun '(sid, permissions) => Build_Ace true sid (default GENERIC_ALL permissions) 0) sids.

(** Entries are added in order as long as there is room for all of them. *)
Lemma add_sids_fit sids : forall acl,
  ab_used acl + needed sids <= ab_size acl ->
  exists acl', add_sids_to_acl acl sids = Ok acl' /\ ab_aces acl' = ab_aces acl ++ allowed sids.
Proof.
  induction sids as [|[sid permissions] sids IH]; intros acl Hroom; cbn [add_sids_to_acl].
  - exists acl. by rewrite app_nil_r.
  - unfold needed in Hroom; cbn in Hroom; fold (needed sids) in Hroom. unfold add_access_allowed_ace.
    rewrite decide_False by lia. cbn [result_bind].
    destruct (IH (Build_AclBuffer (ab_size acl) (ab_used acl + calculate_ace_size sid)
      (ab_aces acl ++ [Build_Ace true sid (default GENERIC_ALL permissions) 0]))) as (acl' & -> & Haces); [cbn; lia|].
    exists acl'; split; [done|]. rewrite Haces; cbn [ab_aces]. by rewrite <- app_assoc.
Qed.

(** A descriptor fails for a text that is no SID or a list that does not fit the
    sixteen bits of its size, and for nothing else: the buffer has room for every
    entry.  When it succeeds, the list gives everything to the owner and the group
    and each listed identity what it was listed with. *)
Theorem descriptors_hold_every_entry (sids : list (string * option N)) owner group system admins parsed :
  sid_of_text SYSTEM_SID = Some system -> sid_of_text ADMINISTRATORS_GROUP_SID = Some admins ->
  convert_sids sids = Ok parsed ->
  let first := default admins (owner ≫= sid_of_text) in
  let second := default system (group ≫= sid_of_text) in
  let all := (first, None) :: (second, None) :: parsed in
  (forall s, owner = Some s -> is_Some (sid_of_text s)) -> (forall s, group = Some s -> is_Some (sid_of_text s)) ->
  if decide (2 ^ 16 <= calculate_acl_size (map fst all) + 256)
  then exists e, build_descriptor sids owner group = Err e
  else exists sd, build_descriptor sids owner group = Ok sd /\ sd_dacl sd = allowed all.
Proof.
  intros Hsystem Hadmins Hparsed first second all Howner Hgroup.
  assert (Hbuild : build_descriptor sids owner group
    = let? acl := initialize_acl (calculate_acl_size (map fst all) + 256) in
      let? acl := add_sids_to_acl acl all in
      Ok (set_owner_and_group (Build_SecurityDescriptor None None (ab_aces acl)) first second)).
  { unfold build_descriptor, try_from_sid_str. rewrite Hsystem, Hadmins; cbn [ok_or result_bind].
    unfold all, first, second. destruct owner as [o|]; [destruct (Howner o eq_refl) as [x Hx]; rewrite Hx|].
    all: destruct group as [g|]; [destruct (Hgroup g eq_refl) as [y Hy]; rewrite Hy|].
    all: cbn [mbind option_bind default ok_or result_bind]; rewrite ?Hx, ?Hy; cbn [ok_or result_bind default];
      rewrite Hparsed; done. }
  rewrite Hbuild. unfold initialize_acl. case_decide; [by eexists|]. cbn [result_bind].
  destruct (add_sids_fit all (Build_AclBuffer (calculate_acl_size (map fst all) + 256) size_of_acl [])) as (acl & -> & Haces);
    [cbn [ab_used ab_size]; rewrite acl_size_sum; lia|].
  cbn [result_bind]. eexists; split; [done|]. cbn. by rewrite Haces.
Qed.

(** Owner and group change places on the way: the descriptor belongs to the one
    that was given as its group. *)
Lemma owner_and_group_change_places sids owner group o g sd :
  build_descriptor sids (Some owner) (Some group) = Ok sd ->
  sid_of_text owner = Some o -> sid_of_text group = Some g ->
  sd_owner sd = Some g /\ sd_group sd = Some o.
Proof.
  unfold build_descriptor, try_from_sid_str. intros Hsd Ho Hg. rewrite Ho, Hg in Hsd; cbn [ok_or] in Hsd.
  unfold result_bind in Hsd. repeat (case_match; try done); by simplify_eq/=.
Qed.
End DescriptorFacts.

(** ** An authorized pipe has the policy *)

Section PipeFacts.
Context `{SidKit, PipeHost}.

Lemma pio_inv {A B} (m : Pio A) (k : A -> Pio B) p r p' :
  pio_bind m k p = (r, p') ->
  (exists a p1, m p = (Ok a, p1) /\ k a p1 = (r, p')) \/ (exists e, m p = (Err e, p') /\ r = Err e).
Proof.
  unfold pio_bind. destruct (m p) as [[a|e] p1]; intros E; [left; eauto|right].
  injection E as <- <-. eauto.
Qed.
Lemma lift_inv {A} (v : result A string) p r p' : pio_lift v p = (r, p') -> r = v /\ p' = p.
Proof. by intros [= <- <-]. Qed.
Lemma ensure_inv c m p r p' : ensure c m p = (r, p') -> p' = p /\ (is_ok r = true -> c = true).
Proof. intros [-> ->]%lift_inv; split; [done|]. by destruct c. Qed.
Lemma call_notes {A} (op : ph_state -> result A string * ph_state) note p r p' :
  pio_call op note p = (r, p') -> pp_calls p' = pp_calls p ++ note r.
Proof. unfold pio_call. destruct (op _). by intros [= <- <-]. Qed.

(** What a check may do: look at the server first, and change permissions only of a
    pipe whose server is the expected process, to the parsed policy, when it may. *)
Definition careful (security : PipeSecurity) (pid : N) (may : bool) (calls : list PipeCall) : Prop :=
  calls = []
  \/ exists handle answer rest, calls = CallServer handle answer :: rest
     /\ Forall (fun c => match c with
                         | CallServer _ _ => False
                         | CallDacl h _ => h = handle /\ answer = Ok pid
                         | CallSet h acl => h = handle /\ answer = Ok pid /\ may = true
                                            /\ ph_parse (ps_sddl security) = Ok (Some acl)
                         end) rest.

Lemma set_and_verify_inv handle desired expected p r p' :
  set_and_verify handle desired expected p = (r, p') ->
  exists rest, pp_calls p' = pp_calls p ++ CallSet handle desired :: rest
    /\ Forall (fun c => match c with CallDacl h _ => h = handle | _ => False end) rest
    /\ (r = Ok tt -> exists acl, rest = [CallDacl handle (Ok (Some acl))] /\ entries acl = Ok expected).
Proof.
  intros [(? & p1 & E1 & E)|(e & E1 & ->)]%pio_inv; apply call_notes in E1; [|by exists []].
  apply pio_inv in E as [(actual & p2 & E2 & E)|(e & E2 & ->)]; apply call_notes in E2; rewrite E1, <- app_assoc in E2;
    [|by eexists; split; [exact E2|]; split; [repeat constructor|]].
  apply pio_inv in E as [(acl & p3 & [Ha ->]%lift_inv & E)|(e & [_ ->]%lift_inv & ->)];
    [|by eexists; split; [exact E2|]; split; [repeat constructor|]].
  apply pio_inv in E as [(found & p4 & [Hf ->]%lift_inv & E)|(e & [_ ->]%lift_inv & ->)];
    [|by eexists; split; [exact E2|]; split; [repeat constructor|]].
  apply ensure_inv in E as [-> Hsame]. eexists; split; [exact E2|]; split; [by repeat constructor|].
  intros ->. specialize (Hsame eq_refl). apply bool_decide_eq_true in Hsame; subst found.
  destruct actual as [actual|]; [|done]. cbn in Ha; injection Ha as ->. by exists actual.
Qed.

(** A pipe passes only if the process behind the very handle that was examined is
    the expected one and the last list of entries read from that handle gives what
    the policy gives; until then its permissions are touched only when the caller
    may set them, and only behind the look at the server. *)
Theorem authorized_pipes_have_the_policy security name pid may p r p' :
  authorize_pipe security name pid may p = (r, p') ->
  exists calls, pp_calls p' = pp_calls p ++ calls /\ careful security pid may calls
    /\ (r = Ok tt ->
        exists desired expected handle final acl,
          ph_parse (ps_sddl security) = Ok (Some desired) /\ entries desired = Ok expected
          /\ head calls = Some (CallServer handle (Ok pid))
          /\ last calls = Some (CallDacl handle (Ok final)) /\ final = Some acl /\ entries acl = Ok expected).
Proof.
  unfold authorize_pipe.
  intros [(? & p1 & E1 & E)|(e & [-> _]%ensure_inv & ->)]%pio_inv;
    [|exists []; split; [by rewrite app_nil_r|split; [by left|done]]].
  apply ensure_inv in E1 as [-> _].
  apply pio_inv in E as [(handle & p2 & E2 & E)|(e & E2 & ->)]; apply call_notes in E2;
    [|exists []; split; [done|split; [by left|done]]].
  rewrite app_nil_r in E2; rewrite <- E2; clear E2.
  apply pio_inv in E as [(server & p3 & E3 & E)|(e & E3 & ->)]; apply call_notes in E3;
    [|eexists; split; [exact E3|split; [right; by eexists _, _, []|done]]].
  assert (Hstop : forall answer, careful security pid may [CallServer handle answer])
    by (intros answer; right; by eexists _, _, []).
  apply pio_inv in E as [(? & p4 & E4 & E)|(e & [-> _]%ensure_inv & ->)]; [|by eexists; split; [exact E3|]].
  apply ensure_inv in E4 as [-> Hpid]. specialize (Hpid eq_refl). apply bool_decide_eq_true in Hpid; subst server.
  apply pio_inv in E as [(desired & p5 & E5 & E)|(e & [_ ->]%lift_inv & ->)]; [|by eexists; split; [exact E3|]].
  apply lift_inv in E5 as [Hparse ->]. symmetry in Hparse.
  apply pio_inv in E as [(acl & p6 & E6 & E)|(e & [_ ->]%lift_inv & ->)]; [|by eexists; split; [exact E3|]].
  apply lift_inv in E6 as [Hacl ->]. destruct desired as [desired|]; [|done]. cbn in Hacl; injection Hacl as ->.
  apply pio_inv in E as [(expected & p7 & E7 & E)|(e & [_ ->]%lift_inv & ->)]; [|by eexists; split; [exact E3|]].
  apply lift_inv in E7 as [Hexp ->]. symmetry in Hexp.
  apply pio_inv in E as [(current & p8 & E8 & E)|(e & E8 & ->)]; apply call_notes in E8; rewrite E3, <- app_assoc in E8; cbn in E8;
    [|eexists; split; [exact E8|split; [right; eexists _, _, _; split; [done|]; by repeat constructor|done]]].
  assert (Hread : forall c, careful security pid may [CallServer handle (Ok pid); CallDacl handle c])
    by (intros c; right; eexists _, _, _; split; [done|]; by repeat constructor).
  case_bool_decide as Hcurrent.
  - apply lift_inv in E as [-> ->]. eexists; split; [exact E8|split; [done|]]. intros _.
    destruct current as [current|]; [|done]. by exists desired, expected, handle, (Some current), current.
  - apply pio_inv in E as [(? & p9 & E9 & E)|(e & [-> _]%ensure_inv & ->)]; [|by eexists; split; [exact E8|]].
    apply ensure_inv in E9 as [-> Hmay]. specialize (Hmay eq_refl).
    destruct (set_and_verify_inv _ _ _ _ _ _ E) as (rest & Hcalls & Hrest & Hdone).
    rewrite E8, <- app_assoc in Hcalls. eexists; split; [exact Hcalls|split].
    + right; eexists _, _, _; split; [done|]. repeat (constructor; [by repeat split|]).
      eapply Forall_impl; [exact Hrest|]. intros []; naive_solver.
    + intros Hr. destruct (Hdone Hr) as (acl & -> & Hacl). by exists desired, expected, handle, (Some acl), acl.
Qed.
End PipeFacts.

(** ** A pipe of the tests *)

#[local] Instance demo_sids : SidKit := {|
  Sid := string;
  sid_of_text := fun s => if starts_with "S-1-" s then Some s else None;
  sid_length := fun _ => 28;
  sid_text := fun s => s;
  rights_text := fun mask => if decide (mask = GENERIC_ALL) then "GA" else show_N mask |}.

Lemma descriptors_hold_every_entry_witness :
  exists sd, build_descriptor [("S-1-5-21-7", Some 1179785)] (Some SYSTEM_SID) None = Ok sd
    /\ sd_dacl sd = allowed [(SYSTEM_SID, None); (SYSTEM_SID, None); ("S-1-5-21-7", Some 1179785)]
    /\ sd_owner sd = Some SYSTEM_SID.
Proof.
  pose proof (descriptors_hold_every_entry [("S-1-5-21-7", Some 1179785)] (Some SYSTEM_SID) None SYSTEM_SID
    ADMINISTRATORS_GROUP_SID [("S-1-5-21-7", Some 1179785)] eq_refl eq_refl eq_refl) as Hbuild.
  destruct Hbuild as (sd & Hsd & Haces); [intros s [= <-]; by eexists|done|].
  exists sd; split; [exact Hsd|]. split; [exact Haces|]. by injection Hsd as <-.
Defined.

(** The policy: everything for the administrators and the system, reading and
    writing for the listed identity. *)
Lemma policy_sample :
  PipeSecurity_new ["S-1-5-21-7"]
  = Return (Ok {| ps_sddl := "D:P(A;;FA;;;S-1-5-32-544)(A;;FA;;;S-1-5-18)(A;;1180063;;;S-1-5-21-7)" |}).
Proof. vm_compute. reflexivity. Qed.

Definition demo_policy : list (Ace Sid) := [Build_Ace true "S-1-5-18" FILE_ALL_ACCESS 0].
#[local] Instance demo_pipe : PipeHost := {|
  ph_state := list (Ace Sid); ph_handle := N;
  ph_parse := fun _ => Ok (Some demo_policy);
  ph_open := fun _ _ s => (Ok 1, s);
  ph_server := fun _ s => (Ok 5, s);
  ph_dacl := fun _ s => (Ok (Some s), s);
  ph_set := fun _ acl _ => (Ok tt, acl) |}.
Definition demo_name : string := pipe_prefix +:+ "core-1".
Definition demo_pipes : Pipes := {| pp_state := []; pp_calls := [] |}.

Lemma authorized_pipes_have_the_policy_witness :
  let '(r, p') := authorize_pipe {| ps_sddl := "D:P" |} demo_name 5 true demo_pipes in
  r = Ok tt /\ pp_state p' = demo_policy
  /\ (authorize_pipe {| ps_sddl := "D:P" |} demo_name 6 true demo_pipes).2.(pp_state) = []
  /\ exists calls, pp_calls p' = [] ++ calls /\ careful {| ps_sddl := "D:P" |} 5 true calls.
Proof.
  destruct (authorize_pipe {| ps_sddl := "D:P" |} demo_name 5 true demo_pipes) as [r p'] eqn:E.
  assert (r = Ok tt /\ pp_state p' = demo_policy) as [Hr Hs].
  { assert (forall v : result () string * Pipes, v = (r, p') -> v.1 = Ok tt /\ v.2.(pp_state) = demo_policy ->
              r = Ok tt /\ pp_state p' = demo_policy) as Hpair by (intros v ->; done).
    apply (Hpair _ E). by vm_compute. }
  split; [exact Hr|]. split; [exact Hs|]. split; [by vm_compute|].
  destruct (authorized_pipes_have_the_policy _ _ _ _ _ _ _ E) as (calls & Hcalls & Hcareful & _).
  exists calls. split; [exact Hcalls|exact Hcareful].
Defined.
