(* ===== verification/Backend.v ===== *)
(** * The process backend

    [runtime/process.rs], the builder of an instance and of its probes
    ([instance.rs]), and the guard of a controller that follows from them. *)

From S2P Require Import Prelude Text Types PidRecord Paths Diff Kind Health Monitor ApiClient ApiTypes ApiCalls Access.
Open Scope rust_scope.

(** [trait NativeStore] and its lease, over a state of its own ([NativeStore.v]
    is the implementation); dropping a lease gives it back. *)
Record StoreOps (L S : Type) := {
  so_data_dir : string;
  so_acquire : CoreKind -> S -> result L Types.Error * S;
  so_drop : L -> S -> S;
  so_check_home : S -> result string Types.Error * S;
}.
#[global] Arguments so_data_dir {L S}.
#[global] Arguments so_acquire {L S}.
#[global] Arguments so_drop {L S}.
#[global] Arguments so_check_home {L S}.

Section Backend.
Context `{ApiKit} {E L S : Type} `{AccessHost E}.
Implicit Types (access : ControllerAccess E).

(** ** The plan of probes *)

Record ProbePlan := {
  pl_controller_access : option (ControllerAccess E);
  pl_readiness : option (Probe (E := E));
  pl_liveness : option (Probe (E := E));
  pl_liveness_with_readiness : bool;
}.
Definition ProbePlan_default : ProbePlan :=
  {| pl_controller_access := None; pl_readiness := None; pl_liveness := None; pl_liveness_with_readiness := false |}.

Record ProcessRuntimeBackend := { rb_probes : ProbePlan; rb_native_store : option (StoreOps L S) }.
Record RuntimeLaunchRequest := {
  lr_capabilities : list Feature;
  lr_effective_spec : InstanceSpec;
  lr_epoch : Epoch;
  lr_host : ApiClient.Host;
  lr_secret : option string;
}.

(** ** [InstanceBuilder] *)

Record InstanceBuilder := {
  ib_spec : InstanceSpec;
  ib_epoch : Epoch;
  ib_host : ApiClient.Host;
  ib_secret : option string;
  ib_readiness_probe : option (Probe (E := E));
  ib_liveness_probe : option (Probe (E := E));
  ib_liveness_with_readiness : bool;
  ib_pipe_security_descriptor : option string;
  ib_native_store : option L;
  ib_source_data_dir : option string;
}.
Definition Instance_builder (spec : InstanceSpec) (epoch : Epoch) (host : ApiClient.Host) (secret_ : option string) : InstanceBuilder :=
  {| ib_spec := spec; ib_epoch := epoch; ib_host := host; ib_secret := secret_; ib_readiness_probe := None; ib_liveness_probe := None;
     ib_liveness_with_readiness := false; ib_pipe_security_descriptor := None; ib_native_store := None; ib_source_data_dir := None |}.
Definition with_probes (readiness liveness : option (Probe (E := E))) (together : bool) (b : InstanceBuilder) : InstanceBuilder :=
  {| ib_spec := ib_spec b; ib_epoch := ib_epoch b; ib_host := ib_host b; ib_secret := ib_secret b; ib_readiness_probe := readiness;
     ib_liveness_probe := liveness; ib_liveness_with_readiness := together;
     ib_pipe_security_descriptor := ib_pipe_security_descriptor b; ib_native_store := ib_native_store b;
     ib_source_data_dir := ib_source_data_dir b |}.
Definition ib_set_readiness_probe (probe : Probe) (b : InstanceBuilder) : InstanceBuilder :=
  with_probes (Some probe) (ib_liveness_probe b) (ib_liveness_with_readiness b) b.
Definition ib_set_liveness_probe (probe : Probe) (b : InstanceBuilder) : InstanceBuilder :=
  with_probes (ib_readiness_probe b) (Some probe) false b.
Definition ib_liveness_with_readiness_probe (b : InstanceBuilder) : InstanceBuilder :=
  with_probes (ib_readiness_probe b) None true b.
Definition ib_set_pipe_security_descriptor (descriptor : option string) (b : InstanceBuilder) : InstanceBuilder :=
  {| ib_spec := ib_spec b; ib_epoch := ib_epoch b; ib_host := ib_host b; ib_secret := ib_secret b;
     ib_readiness_probe := ib_readiness_probe b; ib_liveness_probe := ib_liveness_probe b;
     ib_liveness_with_readiness := ib_liveness_with_readiness b; ib_pipe_security_descriptor := descriptor;
     ib_native_store := ib_native_store b; ib_source_data_dir := ib_source_data_dir b |}.
Definition ib_set_native_store (lease : option L) (source : option string) (b : InstanceBuilder) : InstanceBuilder :=
  {| ib_spec := ib_spec b; ib_epoch := ib_epoch b; ib_host := ib_host b; ib_secret := ib_secret b;
     ib_readiness_probe := ib_readiness_probe b; ib_liveness_probe := ib_liveness_probe b;
     ib_liveness_with_readiness := ib_liveness_with_readiness b; ib_pipe_security_descriptor := ib_pipe_security_descriptor b;
     ib_native_store := lease; ib_source_data_dir := source |}.

Context (local : Url).

Definition api_error (e : ApiError) : Types.Error := ApiErr (ApiError_to_string e).
Definition default_probe (host : ApiClient.Host) (secret_ : option string) : result (Probe (E := E)) Types.Error :=
  map_ok VersionProbe (map_err api_error (ControllerVersionProbe_new local host secret_)).

(** The probes that [spawn_configured] hands to the monitor. *)
Definition configured_probes (b : InstanceBuilder) : result (Probe * option Probe) Types.Error :=
  let? readiness :=
    match ib_readiness_probe b with
    | Some probe => Ok probe
    | None => default_probe (ib_host b) (ib_secret b)
    end in
  Ok (readiness, if ib_liveness_with_readiness b then Some readiness else ib_liveness_probe b).

(** ** [launch] *)

Definition is_pipe (host : ApiClient.Host) : bool := match host with ApiClient.NamedPipe _ => true | _ => false end.
Definition descriptor_for (probes : ProbePlan) (request : RuntimeLaunchRequest) : option string :=
  if is_pipe (lr_host request) && bool_decide (NamedPipeSecurityDescriptor ∈ lr_capabilities request)
  then pl_controller_access probes ≫= (fun access => ca_pipe_security_descriptor access)
  else None.

(** Both probes, each behind an authorization if the host has one. *)
Definition guarded (access : ControllerAccess E) (mode : ControllerAuthorization) (probes : ProbePlan) (request : RuntimeLaunchRequest)
    (b : InstanceBuilder) : result InstanceBuilder Types.Error :=
  let? readiness :=
    match pl_readiness probes with
    | Some probe => Ok probe
    | None => default_probe (lr_host request) (lr_secret request)
    end in
  let liveness := if pl_liveness_with_readiness probes then readiness else default ProcessAlive (pl_liveness probes) in
  Ok (ib_set_liveness_probe (AuthorizedProbe access mode liveness)
        (ib_set_readiness_probe (AuthorizedProbe access mode readiness) b)).
Definition unguarded (probes : ProbePlan) (b : InstanceBuilder) : InstanceBuilder :=
  let b := match pl_readiness probes with Some probe => ib_set_readiness_probe probe b | None => b end in
  let b := match pl_liveness probes with Some probe => ib_set_liveness_probe probe b | None => b end in
  if pl_liveness_with_readiness probes then ib_liveness_with_readiness_probe b else b.
Definition wire_probes (probes : ProbePlan) (mode : ControllerAuthorization) (request : RuntimeLaunchRequest) (b : InstanceBuilder)
    : result InstanceBuilder Types.Error :=
  match pl_controller_access probes with
  | Some access => guarded access mode probes request b
  | None => Ok (unguarded probes b)
  end.

Definition acquire_lease (store : option (StoreOps L S)) (kind : CoreKind) (s : S) : result (option L) Types.Error * S :=
  match store with
  | None => (Ok None, s)
  | Some store => let '(r, s) := so_acquire store kind s in (map_ok Some r, s)
  end.
Definition drop_lease (store : option (StoreOps L S)) (lease : option L) (s : S) : S :=
  match store, lease with Some store, Some lease => so_drop store lease s | _, _ => s end.

(** Everything before [builder.spawn()]. *)
Definition launch_builder (self : ProcessRuntimeBackend) (request : RuntimeLaunchRequest) (s : S)
    : result InstanceBuilder Types.Error * S :=
  let descriptor := descriptor_for (rb_probes self) request in
  let '(lease, s) := acquire_lease (rb_native_store self) (cs_kind (is_core (lr_effective_spec request))) s in
  match lease with
  | Err e => (Err e, s)
  | Ok lease =>
      let mode := if decide (is_Some descriptor) then AuthCore else AuthHost in
      let builder :=
        ib_set_native_store lease (so_data_dir <$> rb_native_store self)
          (ib_set_pipe_security_descriptor descriptor
             (Instance_builder (lr_effective_spec request) (lr_epoch request) (lr_host request) (lr_secret request))) in
      match wire_probes (rb_probes self) mode request builder with
      | Err e => (Err e, drop_lease (rb_native_store self) lease s)
      | Ok builder => (Ok builder, s)
      end
  end.

(** ** [check_config]

    The reader and the printer of YAML, the two file operations and the run of the
    core are arguments. *)
Definition isolated_spec (home : string) (spec : InstanceSpec) : InstanceSpec :=
  with_config_path (path_join home "check.yaml") (with_working_dir home spec).
Definition isolated_document (data_dir : string) (parse : list Byte.byte -> result Mapping string) (print : Mapping -> result string string)
    (spec : InstanceSpec) (bytes : list Byte.byte) : result string Types.Error :=
  let? document := map_err YamlErr (parse bytes) in
  map_err YamlErr (print (rewrite_paths (cs_kind (is_core spec)) document data_dir)).
Definition backend_check_config (self : ProcessRuntimeBackend)
    (read : string -> S -> result (list Byte.byte) IoError * S) (write : string -> string -> S -> result () IoError * S)
    (parse : list Byte.byte -> result Mapping string) (print : Mapping -> result string string)
    (plain : InstanceSpec -> outcome (result () Types.Error)) (with_source : InstanceSpec -> string -> outcome (result () Types.Error))
    (spec : InstanceSpec) (s : S) : outcome (result () Types.Error) * S :=
  match rb_native_store self with
  | None => (plain spec, s)
  | Some store =>
      let '(home, s) := so_check_home store s in
      match home with
      | Err e => (Return (Err e), s)
      | Ok home =>
          let '(bytes, s) := read (is_config_path spec) s in
          match map_err IoErr bytes with
          | Err e => (Return (Err e), s)
          | Ok bytes =>
              match isolated_document (so_data_dir store) parse print spec bytes with
              | Err e => (Return (Err e), s)
              | Ok text =>
                  let '(written, s) := write (path_join home "check.yaml") text s in
                  match map_err IoErr written with
                  | Err e => (Return (Err e), s)
                  | Ok _ => (with_source (isolated_spec home spec) (so_data_dir store), s)
                  end
              end
          end
      end
  end.
End Backend.

(** ** What an authorization touches *)

Section Authorization.
Context `{ApiKit} {E : Type} `{AccessHost E}.
Implicit Types (d : Disk E).

(** What was examined: a socket of ours, directly inside the root. *)
Definition own_socket (self : UnixControllerAccess) (path : string) (m : Meta) : Prop :=
  directly_inside (ua_root self) path = true /\ mt_is_socket m = true /\ mt_uid m = ua_uid self.

(** The calls of an authorization and whether they end well. *)
Inductive authorization (self : UnixControllerAccess) : ApiClient.Host -> list SysCall -> bool -> Prop :=
| auth_other host : (forall path, host <> ApiClient.UnixSocket path) -> authorization self host [] true
| auth_escaped path : directly_inside (ua_root self) path = false -> authorization self (ApiClient.UnixSocket path) [] false
| auth_unseen path e : authorization self (ApiClient.UnixSocket path) [CallLstat path (Err e)] false
| auth_foreign path m : ~ own_socket self path m -> authorization self (ApiClient.UnixSocket path) [CallLstat path (Ok m)] false
| auth_not_given path m e : own_socket self path m ->
    authorization self (ApiClient.UnixSocket path) [CallLstat path (Ok m); CallChown path (ua_uid self) (ua_gid self) (Err e)] false
| auth_given path m moded : own_socket self path m ->
    authorization self (ApiClient.UnixSocket path)
      [CallLstat path (Ok m); CallChown path (ua_uid self) (ua_gid self) (Ok tt); CallChmod path 432 moded] (is_ok moded).

Lemma unix_authorize_calls self host d :
  exists calls, dk_calls (unix_authorize self host d).2 = dk_calls d ++ calls /\
    authorization self host calls (is_ok (unix_authorize self host d).1).
Proof.
  destruct host as [p|p|u]; cbn [unix_authorize].
  1,3: exists []; rewrite app_nil_r; split; [done|]; by constructor.
  destruct (directly_inside (ua_root self) p) eqn:Hin; cbn [negb]; last first.
  { exists []; rewrite app_nil_r; split; [done|]; by apply auth_escaped. }
  unfold io_bind, lstat, chown, chmod, io_call, io_err.
  destruct (ah_lstat p (dk_env d)) as [[m|e] env]; cbn [dk_env dk_calls].
  2: { exists [CallLstat p (Err e)]; split; [done|]; by apply auth_unseen. }
  destruct (mt_is_socket m) eqn:Hs; [case_bool_decide as Hu|]; cbn [negb orb fst snd dk_calls dk_env].
  2,3: exists [CallLstat p (Ok m)]; split; [done|]; apply auth_foreign; unfold own_socket; intuition congruence.
  destruct (ah_chown p (ua_uid self) (ua_gid self) env) as [[[]|e] env2]; cbn [dk_env dk_calls fst snd].
  - destruct (ah_chmod p 432 env2) as [moded env3]; cbn [fst snd dk_calls].
    eexists; split; [by rewrite <- !app_assoc|]; by apply auth_given.
  - eexists; split; [by rewrite <- !app_assoc|]; by apply auth_not_given.
Qed.

(** The directory of the sockets: owner and mode are set only behind a look that
    showed a real directory of ours which nobody else may write, and an access
    comes only from a directory that was examined and set. *)
Lemma prepare_calls root gid d :
  exists calls, dk_calls (prepare root gid d).2 = dk_calls d ++ CallMkdir root 448 :: calls /\
    (forall path uid g answer, CallChown path uid g answer ∈ calls ->
       path = root /\ uid = ah_euid /\ g = gid /\ exists m, CallLstat root (Ok m) ∈ calls /\ unsafe_directory m ah_euid = false) /\
    (forall path mode answer, CallChmod path mode answer ∈ calls -> path = root /\ mode = 488 /\ CallChown root ah_euid gid (Ok tt) ∈ calls) /\
    (forall a, (prepare root gid d).1 = Ok a -> ua_gid a = gid /\ ua_uid a = ah_euid /\ CallChmod root 488 (Ok tt) ∈ calls).
Proof.
  unfold prepare, mkdir, lstat, chown, chmod, canonicalize_path, io_bind, io_call, io_err, io_ret.
  destruct (ah_mkdir root 448 (dk_env d)) as [made env]; cbn [dk_env dk_calls].
  destruct (existing_ok made) as [[]|e]; cbn [fst snd dk_calls dk_env].
  2: { exists []; split_and!; [done | set_solver..| done]. }
  destruct (ah_lstat root env) as [[m|e] env2]; cbn [fst snd dk_calls dk_env].
  2: { exists [CallLstat root (Err e)]; rewrite <- app_assoc; split_and!; [done | set_solver..| done]. }
  destruct (unsafe_directory m ah_euid) eqn:Hsafe; cbn [fst snd dk_calls dk_env].
  { exists [CallLstat root (Ok m)]; rewrite <- app_assoc; split_and!; [done | set_solver..| done]. }
  destruct (ah_chown root ah_euid gid env2) as [[[]|e] env3]; cbn [fst snd dk_calls dk_env].
  2: { exists [CallLstat root (Ok m); CallChown root ah_euid gid (Err e)]; rewrite <- !app_assoc; split_and!; [done | | set_solver | done].
       intros path uid g answer; rewrite !elem_of_cons; intros [|[|]]; set_solver. }
  destruct (ah_chmod root 488 env3) as [[[]|e] env4]; cbn [fst snd dk_calls dk_env].
  2: { exists [CallLstat root (Ok m); CallChown root ah_euid gid (Ok tt); CallChmod root 488 (Err e)]; rewrite <- !app_assoc;
       split_and!; [done | | | done]; intros *; rewrite !elem_of_cons; intros [|[|[|]]]; set_solver. }
  destruct (ah_canonicalize root env4) as [canonical env5]; cbn [fst snd dk_calls dk_env].
  exists [CallLstat root (Ok m); CallChown root ah_euid gid (Ok tt); CallChmod root 488 (Ok tt); CallCanonicalize root].
  destruct canonical; cbn [fst snd dk_calls]; rewrite <- !app_assoc; (split_and!; [done | | |]).
  all: try (intros *; rewrite !elem_of_cons; intros [|[|[|[|]]]]; set_solver).
  all: intros ? [= <-]; set_solver.
Qed.
End Authorization.

(** ** A guarded controller *)

Section Guard.
Context `{ApiKit} `{NetKit} {E EH EC L S : Type} `{AccessHost E} (transport : Transport EH) `{!Decode Version}.
Context (custom : string -> ProbeContext -> EC -> ProbeResult * EC) (local : Url).

(** The default probe sends at most one request, without a secret over a socket. *)
Lemma version_check_sends path secret_ p (o : Outside (E := E) (EH := EH) (EC := EC)) :
  ControllerVersionProbe_new local (ApiClient.UnixSocket path) secret_ = Ok p ->
  exists rqs, ht_sent (ou_http (version_check transport p o).2) = ht_sent (ou_http o) ++ rqs /\ (length rqs <= 1)%nat /\
    Forall (fun rq => rq_method rq = GET /\ rq_authorization rq = None) rqs /\
    ou_disk (version_check transport p o).2 = ou_disk o /\
    ((version_check transport p o).1 = ProbeHealthy -> length rqs = 1%nat).
Proof.
  unfold ControllerVersionProbe_new; intros Hnew.
  assert (Hp : rp_is_retryable (cl_retry_policy (cvp_client p)) = (fun _ _ => false) /\ cl_authorization (cvp_client p) = None).
  { destruct secret_; cbn in Hnew; destruct (build_http_client _); cbn in Hnew; by simplify_eq. }
  destruct Hp as [Hnever Hnoauth].
  pose proof (send_is_attempt transport (cvp_client p) "version" GET true ltac:(by rewrite Hnever) (request (cvp_client p) GET "/version")
                (ou_http o)) as Hsend.
  destruct (attempt_adds transport "version" (request (cvp_client p) GET "/version") (ou_http o)) as [Hsent _].
  unfold version_check, version, json_call, send_json; rewrite Hsend.
  exists (requests_of (request (cvp_client p) GET "/version")).
  unfold request in *; destruct (endpoint (cvp_client p) "/version") as [url|e]; cbn [map_ok requests_of] in *.
  - destruct (attempt _ _ _ _) as [answer h]; cbn [fst snd] in *; destruct (result_bind _ _); cbn; split_and!; try done.
    all: repeat constructor; done.
  - destruct (attempt _ _ _ _) as [answer h] eqn:Ha; cbn in Ha; simplify_eq; cbn in *; rewrite ?app_nil_r; split_and!; try done; by constructor.
Qed.

(** The readiness probe of an instance behind Unix access and no probe of the
    host program's own: the default one, behind the authorization. *)
Lemma launched_readiness (self : ProcessRuntimeBackend (L := L) (S := S)) request s builder s' a path readiness liveness :
  pl_controller_access (rb_probes self) = Some (UnixAccess a) -> pl_readiness (rb_probes self) = None ->
  lr_host request = ApiClient.UnixSocket path -> launch_builder local self request s = (Ok builder, s') ->
  configured_probes local builder = Ok (readiness, liveness) ->
  exists p, ControllerVersionProbe_new local (ApiClient.UnixSocket path) (lr_secret request) = Ok p /\
    readiness = AuthorizedProbe (UnixAccess a) AuthHost (VersionProbe p).
Proof.
  intros Hacc Hready Hhost Hlaunch Hprobes; unfold launch_builder in Hlaunch.
  assert (Hdesc : descriptor_for (rb_probes self) request = None) by (unfold descriptor_for; by rewrite Hhost).
  rewrite Hdesc in Hlaunch; destruct (acquire_lease _ _ _) as [[lease|e] s1]; [|discriminate].
  rewrite decide_False in Hlaunch by (by intros [? ?]).
  unfold wire_probes, guarded in Hlaunch; rewrite Hacc, Hready, Hhost in Hlaunch; unfold default_probe in Hlaunch.
  destruct (ControllerVersionProbe_new local (ApiClient.UnixSocket path) (lr_secret request)) as [p|e]; cbn in Hlaunch; [|discriminate].
  exists p; split; [done|]; simplify_eq; cbn in Hprobes; by simplify_eq.
Qed.

(** C24: behind Unix access the readiness of an instance is asked for only
    behind the guard of its socket.  Every check examines the socket first: it is
    authorized exactly if it lies directly inside the controller directory, is a
    socket of the user of the service, and its owner and mode were then set; only
    such a check sends a request, at most one, without a secret, and is healthy
    only if it did.  A check that is refused asks nobody and is not healthy. *)
Theorem readiness_is_asked_behind_the_guard (self : ProcessRuntimeBackend (L := L) (S := S)) request s builder s' a path
    readiness liveness context o
    (Hacc : pl_controller_access (rb_probes self) = Some (UnixAccess a)) (Hready : pl_readiness (rb_probes self) = None)
    (Hhost : lr_host request = ApiClient.UnixSocket path) (Hcontext : pc_host context = lr_host request)
    (Hlaunch : launch_builder local self request s = (Ok builder, s'))
    (Hprobes : configured_probes local builder = Ok (readiness, liveness)) :
  let '(answer, o') := check transport custom readiness context o in
  exists calls allowed rqs, dk_calls (ou_disk o') = dk_calls (ou_disk o) ++ calls /\
    authorization a (ApiClient.UnixSocket path) calls allowed /\
    ht_sent (ou_http o') = ht_sent (ou_http o) ++ rqs /\
    Forall (fun rq => rq_method rq = GET /\ rq_authorization rq = None) rqs /\
    (length rqs <= if allowed then 1 else 0)%nat /\
    (answer = ProbeHealthy -> allowed = true /\ length rqs = 1%nat).
Proof.
  destruct (launched_readiness _ _ _ _ _ _ _ _ _ Hacc Hready Hhost Hlaunch Hprobes) as (p & Hp & ->).
  cbn [check ca_authorize UnixAccess]; rewrite Hcontext, Hhost.
  destruct (unix_authorize_calls a (ApiClient.UnixSocket path) (ou_disk o)) as (calls & Hcalls & Hauth).
  destruct (unix_authorize a (ApiClient.UnixSocket path) (ou_disk o)) as [[[]|e] d]; cbn [fst snd is_ok] in *.
  - destruct (version_check_sends path _ p (with_disk d o) Hp) as (rqs & Hsent & Hlen & Hrqs & Hdisk & Hhealthy).
    destruct (version_check transport p (with_disk d o)) as [answer o']; cbn [fst snd] in *.
    exists calls, true, rqs; rewrite Hdisk; split_and!; try done. by intros Hans; split; [|apply Hhealthy].
  - exists calls, false, []; cbn; rewrite app_nil_r; split_and!; try done; constructor.
Qed.
End Guard.

(** ** A guarded start *)

Section Demo.
#[local] Existing Instance demo_kit.
#[local] Existing Instance demo_net.

Definition demo_socket : Meta := {| mt_is_dir := false; mt_is_symlink := false; mt_is_socket := true; mt_uid := 0; mt_mode := 511 |}.
#[local] Instance demo_host : AccessHost () :=
  {| ah_euid := 0; ah_mkdir := fun _ _ e => (Ok tt, e); ah_lstat := fun _ e => (Ok demo_socket, e);
     ah_chown := fun _ _ _ e => (Ok tt, e); ah_chmod := fun _ _ e => (Ok tt, e); ah_canonicalize := fun p e => (Ok p, e) |}.
#[local] Instance demo_version : Decode Version :=
  {| decode := fun _ => Ok {| vs_meta := true; vs_version := "v1"; vs_premium := None |}; decode_text := fun _ => Err "not JSON" |}.

Definition demo_access : UnixControllerAccess := {| ua_root := "/run/nyanpasu-core"; ua_gid := 7; ua_uid := 0 |}.
Definition demo_backend : ProcessRuntimeBackend (E := ()) (L := ()) (S := ()) :=
  {| rb_probes := {| pl_controller_access := Some (UnixAccess demo_access); pl_readiness := None; pl_liveness := None;
                     pl_liveness_with_readiness := false |};
     rb_native_store := None |}.
Definition demo_path : string := "/run/nyanpasu-core/core-1.sock".
Definition demo_launch : RuntimeLaunchRequest :=
  {| lr_capabilities := []; lr_effective_spec := sample_spec; lr_epoch := 1%positive; lr_host := ApiClient.UnixSocket demo_path;
     lr_secret := Some "s3cret" |}.
Definition demo_context : ProbeContext :=
  {| pc_epoch := 1%positive; pc_pid := 4242; pc_phase := Readiness; pc_host := ApiClient.UnixSocket demo_path |}.
Definition demo_outside : Outside (E := ()) (EH := nat) (EC := ()) :=
  {| ou_disk := {| dk_env := tt; dk_calls := [] |}; ou_http := {| ht_env := 0%nat; ht_sent := []; ht_slept := [] |}; ou_custom := tt |}.
Definition demo_custom (label : string) (context : ProbeContext) (c : ()) : ProbeResult * () := (ProbeHealthy, c).
Definition demo_built : InstanceBuilder := 
  match (launch_builder demo_local demo_backend demo_launch ()).1 with Ok b => b | Err _ => Instance_builder sample_spec 1%positive (ApiClient.UnixSocket "") None end.
Definition demo_probes : Probe * option Probe :=
  match configured_probes demo_local demo_built with Ok p => p | Err _ => (ProcessAlive, None) end.

Lemma readiness_is_asked_behind_the_guard_witness :
  let '(answer, o') := check demo_transport demo_custom demo_probes.1 demo_context demo_outside in
  answer = ProbeHealthy /\ length (dk_calls (ou_disk o')) = 3%nat /\
  exists calls allowed, authorization demo_access (ApiClient.UnixSocket demo_path) calls allowed /\ dk_calls (ou_disk o') = [] ++ calls.
Proof.
  split; [reflexivity | split; [reflexivity|]].
  destruct (readiness_is_asked_behind_the_guard demo_transport demo_custom demo_local demo_backend demo_launch () demo_built () demo_access
              demo_path demo_probes.1 demo_probes.2 demo_context demo_outside eq_refl eq_refl eq_refl eq_refl eq_refl eq_refl)
    as (calls & allowed & rqs & Hcalls & Hauth & _).
  exists calls, allowed; split; [exact Hauth | exact Hcalls].
Defined.
End Demo.
