(* ===== verification/ManagerBuild.v ===== *)
(** * The construction of a manager

    [CoreManager::build_configured] ([manager/mod.rs]) with the orphan record it
    settles ([reconcile_orphan_record] of [manager/dns_sync.rs]), as a program over
    the host of the manager that notes each step it takes. *)

From S2P Require Import ApiClient Access Backend.
From S2P Require Import ManagerOps.
Open Scope rust_scope.
Open Scope mgr_scope.

(** ** The builder *)

Section Builder.
Context `{ApiKit} {E : Type} `{AccessHost E}.

Definition readiness_probe (probe : Probe) (p : ProbePlan (E := E)) : ProbePlan :=
  {| pl_controller_access := pl_controller_access p; pl_readiness := Some probe; pl_liveness := pl_liveness p;
     pl_liveness_with_readiness := pl_liveness_with_readiness p |}.
Definition liveness_probe (probe : Probe) (p : ProbePlan (E := E)) : ProbePlan :=
  {| pl_controller_access := pl_controller_access p; pl_readiness := pl_readiness p; pl_liveness := Some probe;
     pl_liveness_with_readiness := false |}.
Definition liveness_with_readiness_probe (p : ProbePlan (E := E)) : ProbePlan :=
  {| pl_controller_access := pl_controller_access p; pl_readiness := pl_readiness p; pl_liveness := None;
     pl_liveness_with_readiness := true |}.
(** [probes.controller_access = controller_access.clone()] of [build_configured]. *)
Definition probes_with_access (access : option (ControllerAccess E)) (p : ProbePlan (E := E)) : ProbePlan :=
  {| pl_controller_access := access; pl_readiness := pl_readiness p; pl_liveness := pl_liveness p;
     pl_liveness_with_readiness := pl_liveness_with_readiness p |}.
End Builder.

(** ** The host of a construction *)

Class BuildHost (E : Type) `{ManagerHost E} := {
  bh_store_new : string -> E -> result () Error * E;
  bh_acquire_ownership : E -> result () Error * E;
  bh_sweep_orphans : E -> result N Error * E;
  bh_read_record : E -> result (list Byte.byte) IoError * E;
  bh_parse_record : list Byte.byte -> result DnsOverrideRecord string;
  bh_prepare_log_dir : E -> result string Error * E;
  bh_spawn_log_sink : string -> E -> result () Error * E;
}.

Inductive BuildStep :=
| StepStore
| StepLock (answer : result () Error)
| StepSweep (answer : result N Error)
| StepRestore (record : DnsOverrideRecord) (answer : Timed ())
| StepForget (answer : result () IoError)
| StepLogDir
| StepLogSink.

Section Build.
Context {E : Type} `{BuildHost E}.

Record Build := { bd_env : E; bd_steps : list BuildStep }.
Definition bd_call {A} (op : E -> A * E) (note : A -> BuildStep) (b : Build) : A * Build :=
  let '(a, env) := op (bd_env b) in (a, {| bd_env := env; bd_steps := bd_steps b ++ [note a] |}).
Definition bd_try {A B} (m : result A Error * Build) (k : A -> Build -> result B Error * Build) : result B Error * Build :=
  let '(r, b) := m in match r with Ok a => k a b | Err e => (Err e, b) end.

Definition read_record (b : Build) : result (list Byte.byte) IoError * Build :=
  let '(r, env) := bh_read_record (bd_env b) in (r, {| bd_env := env; bd_steps := bd_steps b |}).

Definition reconcile_orphan_record (b : Build) : Build :=
  let '(bytes, b) := read_record b in
  match bytes with
  | Err _ => b
  | Ok bytes =>
      match bh_parse_record bytes with
      | Err _ => b
      | Ok record =>
          if negb mh_dns then b
          else
            let '(restored, b) := bd_call (mh_dns_restore record) (StepRestore record) b in
            match restored with
            | Done (Ok _) => (bd_call mh_record_remove StepForget b).2
            | Done (Err _) | Elapsed => b
            end
      end
  end.

(** The log archive, subscribed before any instance can exist. *)
Definition build_log_sink (b : Build) : result () Error * Build :=
  if mo_log_sink_enabled mh_options then
    bd_try (bd_call bh_prepare_log_dir (fun _ => StepLogDir) b) (fun dir => bd_call (bh_spawn_log_sink dir) (fun _ => StepLogSink))
  else (Ok tt, b).

Definition build_configured (b : Build) : result (Mgr E) Error * Build :=
  match mo_runtime_dir mh_options with
  | None => (Err (InvalidManagerOptions "runtime_dir is required"), b)
  | Some runtime_dir =>
      bd_try (bd_call (bh_store_new runtime_dir) (fun _ => StepStore) b) (fun _ b =>
      bd_try (bd_call bh_acquire_ownership StepLock b) (fun _ b =>
      match validate_managed_endpoint (default mh_dir (mo_controller_dir mh_options)) (mo_controller_template mh_options) with
      | Err e => (Err e, b)
      | Ok _ =>
          match validate_timeouts mh_options with
          | Err e => (Err e, b)
          | Ok _ =>
              bd_try (bd_call bh_sweep_orphans StepSweep b) (fun max_epoch b =>
              let b := reconcile_orphan_record b in
              bd_try (build_log_sink b) (fun _ b => (Ok (manager_new max_epoch (bd_env b)), b)))
          end
      end))
  end.

(** ** What a construction does *)

(** A record left behind is forgotten only when its override was undone. *)
Inductive orphan : list BuildStep -> Prop :=
| orphan_kept : orphan []
| orphan_tried record answer : answer <> Done (Ok tt) -> orphan [StepRestore record answer]
| orphan_settled record answer : orphan [StepRestore record (Done (Ok tt)); StepForget answer].

Lemma reconcile_orphan_record_steps b :
  exists o, bd_steps (reconcile_orphan_record b) = bd_steps b ++ o /\ orphan o.
Proof.
  unfold reconcile_orphan_record, read_record, bd_call.
  destruct (bh_read_record (bd_env b)) as [[bytes|e] env]; cbn [bd_env bd_steps].
  2: { exists []; rewrite app_nil_r; split; [done | constructor]. }
  destruct (bh_parse_record bytes) as [record|e]; [destruct mh_dns; cbn [negb]|]; cbn [bd_env bd_steps].
  2,3: exists []; rewrite app_nil_r; split; [done | constructor].
  destruct (mh_dns_restore record env) as [[|[[]|e]] env2]; cbn [bd_env bd_steps].
  - eexists; split; [done | by constructor].
  - destruct (mh_record_remove env2) as [forgot env3]; cbn [snd bd_steps].
    eexists; split; [by rewrite <- app_assoc | constructor].
  - eexists; split; [done | by constructor].
Qed.

Lemma build_log_sink_steps b r b' :
  build_log_sink b = (r, b') -> exists l, bd_steps b' = bd_steps b ++ l /\
    l ∈ [[]; [StepLogDir]; [StepLogDir; StepLogSink]] /\
    (r = Ok tt -> l = if mo_log_sink_enabled mh_options then [StepLogDir; StepLogSink] else []).
Proof.
  unfold build_log_sink, bd_try, bd_call; destruct (mo_log_sink_enabled mh_options).
  - destruct (bh_prepare_log_dir (bd_env b)) as [[dir|e] env]; cbn [bd_env bd_steps].
    + destruct (bh_spawn_log_sink dir env) as [spawned env2]; intros [= <- <-]; cbn [bd_steps].
      rewrite <- app_assoc; eexists; split_and!; [done | set_solver | done].
    + intros [= <- <-]; eexists; split_and!; [done | set_solver | done].
  - intros [= <- <-]; exists []; rewrite app_nil_r; split_and!; [done | set_solver | done].
Qed.

(** C25: a construction takes the runtime directory before it touches what an
    earlier manager left there, and only with options it would accept; the
    override such a manager left is undone or its record stays.  A construction
    that answers is in the initial state of the transactions, with every epoch
    number that was found in use below its own. *)
Theorem construction_settles_the_past env r b' (Hbuild : build_configured {| bd_env := env; bd_steps := [] |} = (r, b')) :
  bd_steps b' = [] \/ bd_steps b' = [StepStore] \/
  (exists refused, bd_steps b' = [StepStore; StepLock (Err refused)]) \/ bd_steps b' = [StepStore; StepLock (Ok tt)] \/
  validate_timeouts mh_options = Ok tt /\
  exists swept o l, bd_steps b' = [StepStore; StepLock (Ok tt); StepSweep swept] ++ o ++ l /\ orphan o /\
    l ∈ [[]; [StepLogDir]; [StepLogDir; StepLogSink]] /\
    forall m, r = Ok m -> reachable m /\ exists max_epoch, swept = Ok max_epoch /\ m_ctrl m = Ctrl_new max_epoch /\
      l = if mo_log_sink_enabled mh_options then [StepLogDir; StepLogSink] else [].
Proof.
  unfold build_configured in Hbuild; destruct (mo_runtime_dir mh_options) as [dir|]; [|by simplify_eq; left].
  unfold bd_try at 1, bd_call at 1 in Hbuild; cbn [bd_env bd_steps app] in Hbuild.
  destruct (bh_store_new dir env) as [[[]|e] env1]; [|by simplify_eq; right; left].
  unfold bd_try at 1, bd_call at 1 in Hbuild; cbn [bd_env bd_steps app] in Hbuild.
  destruct (bh_acquire_ownership env1) as [[[]|e] env2]; [|simplify_eq; right; right; left; by eexists].
  destruct (validate_managed_endpoint _ _) as [[]|e]; [|simplify_eq; by right; right; right; left].
  destruct (validate_timeouts mh_options) as [[]|e] eqn:Hopts; [|simplify_eq; by right; right; right; left].
  do 4 right; split; [done|].
  unfold bd_try at 1, bd_call at 1 in Hbuild; cbn [bd_env bd_steps app] in Hbuild.
  destruct (bh_sweep_orphans env2) as [[max_epoch|e] env3].
  2: { simplify_eq; exists (Err e), [], []; split_and!; [done | constructor | set_solver | done]. }
  match type of Hbuild with context [reconcile_orphan_record ?b] => destruct (reconcile_orphan_record_steps b) as (o & Ho & Horphan) end.
  unfold bd_try in Hbuild; destruct (build_log_sink _) as [sink b2] eqn:Hsink.
  destruct (build_log_sink_steps _ _ _ Hsink) as (l & Hl & Hin & Hok); rewrite Ho in Hl; cbn [bd_steps app] in Hl.
  exists (Ok max_epoch), o, l; destruct sink as [[]|e]; simplify_eq; (split_and!; [done | done | done |]); [|done].
  intros m [= <-]; split; [constructor|]; exists max_epoch; split_and!; [done | | by apply Hok].
  unfold manager_new; by destruct (mh_now (bd_env b')).
Qed.
End Build.

(** ** A construction behind a crash *)

Module Crashed.
Import Scripted.

Definition left_record : DnsOverrideRecord :=
  {| dr_interface := "eth0"; dr_previous := ["1.1.1.1"]; dr_applied := ["198.18.0.2"]; dr_runtime_epoch := 41; dr_owner_generation := None;
     dr_state := DnsApplied |}.
#[local] Instance crashed : BuildHost Script :=
  {| bh_store_new := fun _ => answers (Ok tt); bh_acquire_ownership := answers (Ok tt); bh_sweep_orphans := answers (Ok 41);
     bh_read_record := answers (Ok []); bh_parse_record := fun _ => Ok left_record; bh_prepare_log_dir := answers (Ok "/run/core/logs");
     bh_spawn_log_sink := fun _ => answers (Ok tt) |}.
Definition built : result (Mgr Script) Error * Build := build_configured {| bd_env := quick; bd_steps := [] |}.

Example built_steps :
  bd_steps built.2 = [StepStore; StepLock (Ok tt); StepSweep (Ok 41); StepRestore left_record (Done (Ok tt)); StepForget (Ok tt);
                      StepLogDir; StepLogSink].
Proof. reflexivity. Qed.
Lemma construction_settles_the_past_witness :
  length (bd_steps built.2) = 7%nat /\ validate_timeouts mh_options = Ok tt.
Proof.
  split; [reflexivity|].
  destruct (construction_settles_the_past quick built.1 built.2 (surjective_pairing built)) as [Hs|[Hs|[[e Hs]|[Hs|[Hok _]]]]];
    [vm_compute in Hs; discriminate Hs .. | exact Hok].
Defined.
End Crashed.
