(* ===== verification/HostDns.v ===== *)
(** * The DNS controller of macOS

    [dns.rs]: an override is a key of the dynamic store that this controller alone
    writes, through the command [scutil] and, without the rights to write, through
    an [osascript] that asks for a password.  The commands answer arbitrarily; a
    call may also be dropped while one runs. *)

From S2P Require Import ManagerState.
From S2P Require Import Text.
Open Scope rust_scope.

Definition DQ : Ascii.ascii := Ascii.ascii_of_N 34.
Definition SQ : Ascii.ascii := Ascii.ascii_of_N 39.
Definition BS : Ascii.ascii := Ascii.ascii_of_N 92.
Definition NL : string := String (Ascii.ascii_of_N 10) "".

(** [str::replace] with a character. *)
Fixpoint replace_char (c : Ascii.ascii) (by_ s : string) : string :=
  match s with
  | EmptyString => EmptyString
  | String a s => if decide (a = c) then by_ +:+ replace_char c by_ s else String a (replace_char c by_ s)
  end.

(** ** What a document asks for *)

Definition desired_dns_intent (effective : Mapping) : option DnsIntent :=
  dns ← map_get effective "dns" ≫= as_mapping;
  enable ← map_get dns "enable" ≫= as_bool;
  if negb enable then None
  else
    listen ← map_get dns "listen" ≫= as_str;
    '(_, port) ← rsplit_once ":" listen;
    if decide (port = "53") then Some {| di_servers := ["127.0.0.1"] |} else None.

(** ** The script for the password dialog *)

Definition of_chars (l : list Ascii.ascii) : string := fold_right String EmptyString l.
Definition shell_quoted (script : string) : string := of_chars [SQ] +:+ replace_char SQ (of_chars [SQ; BS; SQ; SQ]) script +:+ of_chars [SQ].
Definition shell_line (script : string) : string :=
  "/usr/bin/printf '%s' " +:+ shell_quoted script +:+ " | /usr/sbin/scutil".
Definition applescript_escaped (shell : string) : string :=
  replace_char DQ (of_chars [BS; DQ]) (replace_char BS (of_chars [BS; BS]) shell).
Definition authorization_script (script : string) : string :=
  "do shell script " +:+ of_chars [DQ] +:+ applescript_escaped (shell_line script) +:+ of_chars [DQ] +:+ " with administrator privileges".

(** ** Commands *)

Inductive DnsError := DnsCommand (text : string) | DnsIo (text : string).
Definition DnsError_to_string (e : DnsError) : string :=
  match e with DnsCommand text => "dns command failed: " +:+ text | DnsIo text => text end.

(** What becomes of a command: it does not start or its pipe fails, it ends with
    a status and its output, or the call is dropped first. *)
Inductive Ran := RanIo (text : string) | RanEnded (success : bool) (stdout stderr : string) | RanDropped.
Inductive Spawned := Scutil (script : string) | Osascript (script : string).

(** [None]: the call was dropped. *)
Definition Answered (A : Type) : Type := option (result A DnsError).

Definition validate_scutil_output (stdout : string) (mutating : bool) : result () DnsError :=
  if mutating && negb (bool_decide (trim stdout = "")) then Err (DnsCommand (trim stdout)) else Ok tt.

Section Controller.
Context {E : Type} (run : Spawned -> E -> Ran * E) (elevated_process : bool) (store_key : string).

Record Controller := { dc_authorization_failed : bool; dc_env : E; dc_spawned : list Spawned }.
Definition latch (failed : bool) (c : Controller) : Controller :=
  {| dc_authorization_failed := failed; dc_env := dc_env c; dc_spawned := dc_spawned c |}.
Definition spawn (command : Spawned) (c : Controller) : Ran * Controller :=
  let '(ran, env) := run command (dc_env c) in
  (ran, {| dc_authorization_failed := dc_authorization_failed c; dc_env := env; dc_spawned := dc_spawned c ++ [command] |}).

Definition Act (A : Type) : Type := Controller -> Answered A * Controller.
Definition act_ok {A} (a : A) : Act A := fun c => (Some (Ok a), c).
Definition act_err {A} (e : DnsError) : Act A := fun c => (Some (Err e), c).
Definition act_bind {A B} (m : Act A) (k : A -> Act B) : Act B :=
  fun c => let '(r, c) := m c in
           match r with Some (Ok a) => k a c | Some (Err e) => (Some (Err e), c) | None => (None, c) end.

(** The latch stays set when an elevated command is dropped, fails or complains. *)
Definition scutil (script : string) (mutating : bool) : Act string :=
  fun c =>
    let elevated := mutating && negb elevated_process in
    if elevated && dc_authorization_failed c
    then (Some (Err (DnsCommand "macOS DNS authorization previously failed; restart Chimera to retry")), c)
    else
      let '(ran, c) := if elevated then spawn (Osascript (authorization_script script)) (latch true c)
                       else spawn (Scutil script) c in
      match ran with
      | RanDropped => (None, c)
      | RanIo text => (Some (Err (DnsIo text)), c)
      | RanEnded success stdout stderr =>
          if negb success then (Some (Err (DnsCommand stderr)), if elevated then latch true c else c)
          else match validate_scutil_output stdout mutating with
               | Err e => (Some (Err e), c)
               | Ok _ => (Some (Ok stdout), if elevated then latch false c else c)
               end
      end.

Definition server_of (line : string) : option string :=
  match split_once ":" (trim line) with
  | Some (key, value) => if str_all is_digit (trim key) then Some (trim value) else None
  | None => None
  end.
(** The text of a [show]: no key, a dictionary with its servers, or a complaint. *)
Definition parse_show (output : string) : result (option (list string)) DnsError :=
  if str_contains "No such key" output then Ok None
  else if negb (str_contains "<dictionary>" output) then Err (DnsCommand (trim output))
  else Ok (Some (omap server_of (str_lines output))).
Definition show_script : string := "show " +:+ store_key +:+ NL.
Definition set_script (addresses : string) : string :=
  "d.init" +:+ NL +:+ "d.add ServerAddresses * " +:+ addresses +:+ NL +:+ "set " +:+ store_key +:+ NL.
Definition remove_script : string := "remove " +:+ store_key +:+ NL.

Definition read_back : Act (option (list string)) :=
  act_bind (scutil show_script false) (fun output c => (Some (parse_show output), c)).

(** [debug] renders what was read back. *)
Context (debug : option (list string) -> string).

Definition dns_apply (intent : DnsIntent) (runtime_epoch : Epoch) : Act DnsOverrideRecord :=
  act_bind read_back (fun previous =>
  let previous := default [] previous in
  act_bind (if decide (previous = di_servers intent) then act_ok ""
            else scutil (set_script (str_join " " (di_servers intent))) true) (fun _ =>
  act_bind read_back (fun observed =>
  if decide (observed = Some (di_servers intent)) then
    act_ok {| dr_interface := store_key; dr_previous := previous; dr_applied := di_servers intent;
              dr_runtime_epoch := Epoch_get runtime_epoch; dr_owner_generation := None; dr_state := DnsApplied |}
  else act_err (DnsCommand ("read-back mismatch after apply: " +:+ debug observed))))).

Definition dns_restore (record : DnsOverrideRecord) : Act () :=
  act_bind read_back (fun observed =>
  match observed with
  | None => act_ok tt
  | Some _ =>
      act_bind (scutil remove_script true) (fun _ =>
      act_bind read_back (fun observed =>
      match observed with
      | Some _ => act_err (DnsCommand "read-back still shows the override after restore")
      | None => act_ok tt
      end))
  end).
End Controller.

(** ** The dialog runs the script and nothing else

    How the two interpreters read what they are given: a string literal of
    AppleScript up to its closing quote, and a word of the shell up to a space. *)

Fixpoint applescript_string (s : string) : option (string * string) :=
  match s with
  | EmptyString => None
  | String a rest =>
      if decide (a = DQ) then Some (EmptyString, rest)
      else if decide (a = BS) then
        match rest with
        | String b rest' => (fun '(text, after) => (String b text, after)) <$> applescript_string rest'
        | EmptyString => None
        end
      else (fun '(text, after) => (String a text, after)) <$> applescript_string rest
  end.

Fixpoint shell_word (quoted : bool) (s : string) : option (string * string) :=
  match s with
  | EmptyString => if quoted then None else Some (EmptyString, EmptyString)
  | String a rest =>
      let keep b := fun p : string * string => (String b p.1, p.2) in
      if quoted then
        if decide (a = SQ) then shell_word false rest else keep a <$> shell_word true rest
      else if decide (a = SQ) then shell_word true rest
      else if decide (a = BS) then
        match rest with String b rest' => keep b <$> shell_word false rest' | EmptyString => None end
      else if decide (a = " "%char) then Some (EmptyString, s)
      else keep a <$> shell_word false rest
  end.

Lemma replace_char_app c by_ s t : replace_char c by_ (s +:+ t) = replace_char c by_ s +:+ replace_char c by_ t.
Proof.
  induction s as [|a s IH]; [done|]; rewrite string_app_cons; cbn [replace_char]; case_decide; rewrite IH; [|by rewrite string_app_cons].
  by rewrite string_app_assoc.
Qed.

(** One character at a time. *)
Definition applescript_char (a : Ascii.ascii) : string :=
  if decide (a = BS) then of_chars [BS; BS] else if decide (a = DQ) then of_chars [BS; DQ] else of_chars [a].
Lemma applescript_escaped_cons a text : applescript_escaped (String a text) = applescript_char a +:+ applescript_escaped text.
Proof.
  unfold applescript_escaped; change (String a text) with (of_chars [a] +:+ text); rewrite !replace_char_app; f_equal.
  unfold applescript_char; cbn [replace_char of_chars fold_right]; case_decide; [subst; reflexivity|]; cbn [replace_char].
  by case_decide.
Qed.
Lemma applescript_string_char a rest :
  applescript_string (applescript_char a +:+ rest) = (fun '(text, after) => (String a text, after)) <$> applescript_string rest.
Proof.
  unfold applescript_char; case_decide; [by subst|]; case_decide; [by subst|].
  change (of_chars [a] +:+ rest) with (String a rest); cbn [applescript_string]; by rewrite !decide_False.
Qed.
Lemma applescript_reads_back text after :
  applescript_string (applescript_escaped text +:+ of_chars [DQ] +:+ after) = Some (text, after).
Proof.
  induction text as [|a text IH]; [reflexivity|].
  by rewrite applescript_escaped_cons, <- string_app_assoc, applescript_string_char, IH.
Qed.

Lemma shell_word_char quoted a rest :
  a <> SQ -> quoted = true -> shell_word quoted (String a rest) = (fun p : string * string => (String a p.1, p.2)) <$> shell_word quoted rest.
Proof. intros Ha ->; cbn [shell_word]; by rewrite decide_False. Qed.
Lemma shell_word_quote rest :
  shell_word true (of_chars [SQ; BS; SQ; SQ] +:+ rest) = (fun p : string * string => (String SQ p.1, p.2)) <$> shell_word true rest.
Proof. reflexivity. Qed.
Lemma shell_word_reads_back script after :
  shell_word true (replace_char SQ (of_chars [SQ; BS; SQ; SQ]) script +:+ of_chars [SQ] +:+ String " " after) =
  Some (script, String " " after).
Proof.
  induction script as [|a script IH]; [reflexivity|]; cbn [replace_char]; case_decide as Ha.
  - by rewrite <- string_app_assoc, shell_word_quote, IH, Ha.
  - change (String a ?s +:+ ?t) with (String a (s +:+ t)); by rewrite shell_word_char, IH.
Qed.

(** C27: the password dialog runs exactly the script it was opened for.  Read
    back, its text is one string literal; that literal is a pipeline that prints
    one quoted word into [scutil]; and that word is the script, whatever quotes,
    backslashes and separators are in it. *)
Theorem the_dialog_runs_the_script script :
  exists literal quoted,
    authorization_script script = "do shell script " +:+ of_chars [DQ] +:+ literal /\
    applescript_string literal = Some ("/usr/bin/printf '%s' " +:+ quoted +:+ " | /usr/sbin/scutil", " with administrator privileges") /\
    shell_word false (quoted +:+ " | /usr/sbin/scutil") = Some (script, " | /usr/sbin/scutil").
Proof.
  exists (applescript_escaped (shell_line script) +:+ of_chars [DQ] +:+ " with administrator privileges"), (shell_quoted script).
  split_and!; [done | apply applescript_reads_back |].
  unfold shell_quoted; rewrite <- !string_app_assoc.
  change (shell_word false (of_chars [SQ] +:+ ?s)) with (shell_word true s); apply shell_word_reads_back.
Qed.

(** ** Read-backs and dialogs *)

Section Behaviour.
Context {E : Type} (run : Spawned -> E -> Ran * E) (elevated_process : bool) (store_key : string) (debug : option (list string) -> string).
Implicit Types (c : Controller (E := E)).

(** The last thing done was a look at the key that found [observed]. *)
Definition just_read (observed : option (list string)) c : Prop :=
  exists before env stdout stderr, dc_spawned c = before ++ [Scutil (show_script store_key)] /\
    run (Scutil (show_script store_key)) env = (RanEnded true stdout stderr, dc_env c) /\ parse_show stdout = Ok observed.

Lemma read_back_just_read c observed c' :
  read_back run elevated_process store_key c = (Some (Ok observed), c') -> just_read observed c'.
Proof.
  unfold read_back, act_bind, scutil, spawn; cbn [andb]; destruct (run _ _) as [ran env] eqn:Hrun.
  destruct ran as [text|success stdout stderr|]; cbn; try congruence; destruct success; cbn; [|congruence].
  intros [= Hparse <-]; exists (dc_spawned c), (dc_env c), stdout, stderr; cbn; done.
Qed.

Lemma act_bind_ok {A B} (m : Act (E := E) A) (k : A -> Act B) c b c' :
  act_bind m k c = (Some (Ok b), c') -> exists a c1, m c = (Some (Ok a), c1) /\ k a c1 = (Some (Ok b), c').
Proof. unfold act_bind; destruct (m c) as [[[a|e]|] c1]; intros Heq; try congruence; eauto. Qed.

(** An override is reported only as it was read back.  An [apply] that
    answers has last seen exactly the servers it was asked for under its key and
    records them, and a [restore] that answers has last seen no key. *)
Theorem overrides_are_read_back c :
  (forall intent epoch record c', dns_apply run elevated_process store_key debug intent epoch c = (Some (Ok record), c') ->
     just_read (Some (di_servers intent)) c' /\ dr_interface record = store_key /\ dr_applied record = di_servers intent /\
     dr_runtime_epoch record = Epoch_get epoch) /\
  (forall record c', dns_restore run elevated_process store_key record c = (Some (Ok tt), c') -> just_read None c').
Proof.
  split.
  - intros intent epoch record c' Hok; unfold dns_apply in Hok.
    apply act_bind_ok in Hok as (previous & c1 & _ & Hok); apply act_bind_ok in Hok as (out & c2 & _ & Hok).
    apply act_bind_ok in Hok as (observed & c3 & Hread & Hok); case_decide as Hobs; [|discriminate].
    unfold act_ok in Hok; simplify_eq; split_and!; [by apply read_back_just_read in Hread | done..].
  - intros record c' Hok; unfold dns_restore in Hok; apply act_bind_ok in Hok as ([servers|] & c1 & Hread & Hok).
    + apply act_bind_ok in Hok as (out & c2 & _ & Hok); apply act_bind_ok in Hok as ([|] & c3 & Hread3 & Hok); [discriminate|].
      unfold act_ok in Hok; simplify_eq; by apply read_back_just_read in Hread3.
    + unfold act_ok in Hok; simplify_eq; by apply read_back_just_read in Hread.
Qed.

(** *** The dialog is not opened twice for a refusal *)

Definition is_dialog (s : Spawned) : bool := match s with Osascript _ => true | Scutil _ => false end.
Definition dialogs c : nat := length (filter (fun s => is_dialog s = true) (dc_spawned c)).

(** A step that keeps a set latch and opens no dialog under it. *)
Definition quiet {A} (m : Act (E := E) A) : Prop :=
  forall c, dc_authorization_failed c = true -> dc_authorization_failed (m c).2 = true /\ dialogs (m c).2 = dialogs c.

Lemma quiet_ret {A} (r : Answered A) : quiet (fun c => (r, c)).
Proof. by intros c Hc. Qed.
Lemma quiet_bind {A B} (m : Act (E := E) A) (k : A -> Act B) : quiet m -> (forall a, quiet (k a)) -> quiet (act_bind m k).
Proof.
  intros Hm Hk c Hc; destruct (Hm c Hc) as [H1 H2]; unfold act_bind.
  destruct (m c) as [[[a|e]|] c1]; cbn in *; [|done|done]. destruct (Hk a c1 H1) as [H3 H4]; split; [done | congruence].
Qed.
Lemma quiet_scutil script mutating : quiet (scutil run elevated_process script mutating).
Proof.
  intros c Hc; unfold scutil; destruct (mutating && negb elevated_process); cbn [andb]; [by rewrite Hc|].
  unfold spawn; destruct (run (Scutil script) (dc_env c)) as [ran env].
  assert (Hd : forall b e l, dialogs {| dc_authorization_failed := b; dc_env := e; dc_spawned := l ++ [Scutil script] |} =
                             length (filter (fun s => is_dialog s = true) l)).
  { intros b e l; unfold dialogs; cbn [dc_spawned]; by rewrite filter_app, filter_cons_False, filter_nil, app_nil_r. }
  destruct ran as [text|success stdout stderr|]; cbn [fst snd]; [|destruct success; [destruct (validate_scutil_output _ _)|]|];
    cbn [negb fst snd dc_authorization_failed]; rewrite Hd; done.
Qed.
Lemma quiet_read_back : quiet (read_back run elevated_process store_key).
Proof. apply quiet_bind; [apply quiet_scutil | intros output; apply quiet_ret]. Qed.

Inductive Call := CallApply (intent : DnsIntent) (epoch : Epoch) | CallRestore (record : DnsOverrideRecord).
Definition run_call (call : Call) c : Controller :=
  match call with
  | CallApply intent epoch => (dns_apply run elevated_process store_key debug intent epoch c).2
  | CallRestore record => (dns_restore run elevated_process store_key record c).2
  end.

(** A dialog that was denied, dropped or failed is the last one: the
    command that opened it leaves the latch set, and under the latch no sequence
    of calls opens another. *)
Theorem a_refused_dialog_is_the_last :
  (forall script c r c', elevated_process = false -> scutil run elevated_process script true c = (r, c') ->
     (forall stdout, r <> Some (Ok stdout)) -> dc_authorization_failed c' = true) /\
  (forall calls c, dc_authorization_failed c = true -> dialogs (fold_left (fun c call => run_call call c) calls c) = dialogs c).
Proof.
  split.
  - intros script c r c' -> ; unfold scutil, spawn; cbn [andb negb].
    destruct (dc_authorization_failed c) eqn:Hc; [intros [= <- <-]; done|].
    destruct (run _ _) as [ran env]; destruct ran as [text|success stdout stderr|];
      [|destruct success; [destruct (validate_scutil_output _ _)|]|]; cbn; intros [= <- <-]; try done.
    by intros Hr; destruct (Hr stdout).
  - intros calls; induction calls as [|call calls IH]; intros c Hc; [done|]; cbn [fold_left].
    assert (Hq : dc_authorization_failed (run_call call c) = true /\ dialogs (run_call call c) = dialogs c).
    { destruct call as [intent epoch|record]; cbn [run_call]; revert c Hc.
      - apply quiet_bind; [apply quiet_read_back|]; intros previous; apply quiet_bind.
        { case_decide; [apply quiet_ret | apply quiet_scutil]. }
        intros _; apply quiet_bind; [apply quiet_read_back|]; intros observed; case_decide; apply quiet_ret.
      - apply quiet_bind; [apply quiet_read_back|]; intros [servers|]; [|apply quiet_ret].
        apply quiet_bind; [apply quiet_scutil|]; intros _; apply quiet_bind; [apply quiet_read_back|].
        intros [servers'|]; apply quiet_ret. }
    destruct Hq as [Hlatch Hd]; by rewrite IH.
Qed.
End Behaviour.

(** ** A store that obeys *)

Definition demo_key : string := "State:/Network/Service/nyanpasu-dns/DNS".
(** The environment is the value of the key. *)
Definition demo_run (s : Spawned) (env : option string) : Ran * option string :=
  match s with
  | Osascript script | Scutil script =>
      if str_contains "show" script then
        (RanEnded true (match env with
                        | None => "  No such key" +:+ NL
                        | Some server => "<dictionary> {" +:+ NL +:+ "  ServerAddresses : <array> {" +:+ NL +:+ "    0 : " +:+ server +:+ NL
                                           +:+ "  }" +:+ NL +:+ "}" +:+ NL
                        end) "", env)
      else if str_contains "remove" script then (RanEnded true "" "", None)
      else (RanEnded true "" "", Some "127.0.0.1")
  end.
Definition demo_start : Controller (E := option string) := {| dc_authorization_failed := false; dc_env := None; dc_spawned := [] |}.
Definition demo_intent : DnsIntent := {| di_servers := ["127.0.0.1"] |}.
Definition demo_applied : Answered DnsOverrideRecord * Controller (E := option string) :=
  dns_apply demo_run false demo_key (fun _ => "") demo_intent 7%positive demo_start.
Example demo_apply :
  option_map is_ok demo_applied.1 = Some true /\ length (dc_spawned demo_applied.2) = 3%nat /\ dialogs demo_applied.2 = 1%nat.
Proof. vm_compute. done. Qed.
Example demo_restore :
  (dns_restore demo_run true demo_key {| dr_interface := demo_key; dr_previous := []; dr_applied := ["127.0.0.1"]; dr_runtime_epoch := 7;
      dr_owner_generation := None; dr_state := DnsApplied |} demo_applied.2).1 = Some (Ok tt).
Proof. vm_compute. done. Qed.
Example desired_on_port_53 :
  desired_dns_intent [(VString "dns", VMapping [(VString "enable", VBool true); (VString "listen", VString "0.0.0.0:53")])] = Some demo_intent /\
  desired_dns_intent [(VString "dns", VMapping [(VString "enable", VBool true); (VString "listen", VString "127.0.0.1:1053")])] = None.
Proof. vm_compute. done. Qed.
