(* ===== verification/IpcClient.v ===== *)
(** * The service as its clients call it

    [chimera_ipc/src/client/shortcuts.rs] against [routing/*.rs] of the service: the
    routes, the handlers around the bridge, the envelope on the wire, and what each
    call makes of it.  The bridge behind the handlers is an argument
    ([Bridge.v] models it); JSON is left out up to what it cannot tell apart. *)

From S2P Require Import Prelude Types Control Wire.
Open Scope rust_scope.

(** ** Endpoints and values *)

Inductive Verb := VGet | VPost.
#[export] Instance Verb_eq_dec : EqDecision Verb.
Proof. solve_decision. Defined.

Definition STATUS_ENDPOINT : string := "/status".
Definition CORE_START_ENDPOINT : string := "/core/start".
Definition CORE_CHECK_ENDPOINT : string := "/core/check".
Definition CORE_STOP_ENDPOINT : string := "/core/stop".
Definition CORE_RESTART_ENDPOINT : string := "/core/restart".
Definition CORE_V2_SUBMIT_ENDPOINT : string := "/v2/core/submit".
Definition CORE_V2_OPERATION_ENDPOINT : string := "/v2/core/operation".
Definition CORE_V2_STATUS_ENDPOINT : string := "/v2/core/status".
Definition CORE_V2_API_CONNECTION_ENDPOINT : string := "/v2/core/api-connection".
Definition CORE_V2_EFFECTIVE_CONFIG_ENDPOINT : string := "/v2/core/effective-config".
Definition LOGS_RETRIEVE_ENDPOINT : string := "/logs/retrieve".
Definition LOGS_INSPECT_ENDPOINT : string := "/logs/inspect".
Definition NETWORK_SET_DNS_ENDPOINT : string := "/network/set_dns".
Definition EVENT_URI : string := "/ws/events".

Record CoreStartReq := { csr_core_type : CoreType; csr_config_file : string }.
Record CoreCheckReq := { ccr_core_type : CoreType; ccr_config_file : string }.
Record NetworkSetDnsReq := { nsr_dns_servers : option (list string) }.
Record CoreApiConnection := { cac_instance_id : string; cac_controller : CoreControllerInfo; cac_secret : option string }.
Record CoreEffectiveConfig := { cec_instance_id : string; cec_revision : ConfigRevisionInfo; cec_config : string }.
Record RuntimeInfos := {
  ri_service_data_dir : string;
  ri_service_config_dir : string;
  ri_nyanpasu_config_dir : string;
  ri_nyanpasu_data_dir : string;
}.
Record StatusResBody := { srb_version : string; srb_core_infos : CoreInfos; srb_runtime_infos : RuntimeInfos }.
Record LogsResBody := { lrb_logs : list string }.

Inductive Payload :=
| NoPayload
| StartPayload (req : CoreStartReq)
| CheckPayload (req : CoreCheckReq)
| SubmitPayload (req : CoreSubmitReq)
| OperationPayload (req : CoreOperationReq)
| DnsPayload (req : NetworkSetDnsReq).
(** What a request type reads from the body of another: the two of a file have the
    same fields, a submission names its operation, an absent list of servers is
    [None], and fields that are not asked for are skipped. *)
Definition as_start_req (p : Payload) : option CoreStartReq :=
  match p with
  | StartPayload req => Some req
  | CheckPayload req => Some {| csr_core_type := ccr_core_type req; csr_config_file := ccr_config_file req |}
  | _ => None
  end.
Definition as_check_req (p : Payload) : option CoreCheckReq :=
  match p with
  | CheckPayload req => Some req
  | StartPayload req => Some {| ccr_core_type := csr_core_type req; ccr_config_file := csr_config_file req |}
  | _ => None
  end.
Definition as_submit_req (p : Payload) : option CoreSubmitReq := match p with SubmitPayload req => Some req | _ => None end.
Definition as_operation_req (p : Payload) : option CoreOperationReq :=
  match p with
  | OperationPayload req => Some req
  | SubmitPayload req => Some {| or_operation_id := sr_operation_id req; or_wait_ms := None |}
  | _ => None
  end.
Definition as_dns_req (p : Payload) : option NetworkSetDnsReq :=
  match p with
  | DnsPayload req => Some req
  | NoPayload => None
  | _ => Some {| nsr_dns_servers := None |}
  end.
Inductive Envelope :=
| UnitBody (r : R ())
| OperationBody (r : R OperationInfo)
| CoreBody (r : R CoreInfos)
| ConnectionBody (r : R (option CoreApiConnection))
| ConfigBody (r : R (option CoreEffectiveConfig))
| StatusBody (r : R StatusResBody)
| LogsBody (r : R LogsResBody).

(** ** The handlers ([routing/*.rs]) *)

(** The bridge and the logger, over a state of their own. *)
Record ServiceOps (S : Type) := {
  sv_now : Z;
  sv_version : string;
  sv_runtime : RuntimeInfos;
  sv_start : CoreType -> string -> S -> result () string * S;
  sv_check : CoreType -> string -> S -> result () OpError * S;
  sv_stop : S -> result () string * S;
  sv_restart : S -> result () string * S;
  sv_submit_v2 : CoreSubmitReq -> S -> result OperationInfo OpError * S;
  sv_operation_v2 : CoreOperationReq -> S -> result OperationInfo OpError * S;
  sv_status : S -> CoreInfos * S;
  sv_api_connection : S -> option CoreApiConnection * S;
  sv_effective_config : S -> result (option CoreEffectiveConfig) () * S;
  sv_retrieve_logs : S -> list string * S;
  sv_inspect_logs : S -> list string * S;
  sv_macos : bool;
  sv_get_default_network_hardware_port : S -> result string string * S;
  sv_set_dns : string -> option (list string) -> S -> result () string * S;
}.
#[global] Arguments sv_now {S}.
#[global] Arguments sv_version {S}.
#[global] Arguments sv_runtime {S}.
#[global] Arguments sv_start {S}.
#[global] Arguments sv_check {S}.
#[global] Arguments sv_stop {S}.
#[global] Arguments sv_restart {S}.
#[global] Arguments sv_submit_v2 {S}.
#[global] Arguments sv_operation_v2 {S}.
#[global] Arguments sv_status {S}.
#[global] Arguments sv_api_connection {S}.
#[global] Arguments sv_effective_config {S}.
#[global] Arguments sv_retrieve_logs {S}.
#[global] Arguments sv_inspect_logs {S}.
#[global] Arguments sv_macos {S}.
#[global] Arguments sv_get_default_network_hardware_port {S}.
#[global] Arguments sv_set_dns {S}.

Section Handlers.
Context {S : Type} (service : ServiceOps S).

Definition Handled (A : Type) : Type := N * R A * S.
(** A legacy handler keeps only the text of an error. *)
Definition legacy (answer : result () string) (s : S) : Handled () :=
  match answer with
  | Ok _ => (200, success (sv_now service) tt, s)
  | Err e => (500, other_error (sv_now service) e, s)
  end.
Definition handle_start (req : CoreStartReq) (s : S) : Handled () :=
  let '(answer, s) := sv_start service (csr_core_type req) (csr_config_file req) s in legacy answer s.
Definition handle_stop (s : S) : Handled () := let '(answer, s) := sv_stop service s in legacy answer s.
Definition handle_restart (s : S) : Handled () := let '(answer, s) := sv_restart service s in legacy answer s.
Definition handle_check (req : CoreCheckReq) (s : S) : Handled () :=
  let '(answer, s) := sv_check service (ccr_core_type req) (ccr_config_file req) s in (respond (sv_now service) answer, s).
Definition handle_submit (req : CoreSubmitReq) (s : S) : Handled OperationInfo :=
  let '(answer, s) := sv_submit_v2 service req s in (respond (sv_now service) answer, s).
Definition handle_operation (req : CoreOperationReq) (s : S) : Handled OperationInfo :=
  let '(answer, s) := sv_operation_v2 service req s in (respond (sv_now service) answer, s).
Definition handle_status_v2 (s : S) : Handled CoreInfos :=
  let '(infos, s) := sv_status service s in (200, success (sv_now service) infos, s).
Definition handle_api_connection (s : S) : Handled (option CoreApiConnection) :=
  let '(connection, s) := sv_api_connection service s in (200, success (sv_now service) connection, s).
Definition handle_effective_config (s : S) : Handled (option CoreEffectiveConfig) :=
  let '(answer, s) := sv_effective_config service s in
  match answer with
  | Ok snapshot => (200, success (sv_now service) snapshot, s)
  | Err _ => (500, other_error (sv_now service) "failed to serialize effective configuration", s)
  end.
Definition handle_status (s : S) : Handled StatusResBody :=
  let '(infos, s) := sv_status service s in
  (200, success (sv_now service)
          {| srb_version := sv_version service; srb_core_infos := infos; srb_runtime_infos := sv_runtime service |}, s).
Definition handle_retrieve_logs (s : S) : Handled LogsResBody :=
  let '(logs, s) := sv_retrieve_logs service s in (200, success (sv_now service) {| lrb_logs := logs |}, s).
Definition handle_inspect_logs (s : S) : Handled LogsResBody :=
  let '(logs, s) := sv_inspect_logs service s in (200, success (sv_now service) {| lrb_logs := logs |}, s).
(** [network], of macOS and of everywhere else. *)
Definition handle_set_dns_macos (req : NetworkSetDnsReq) (s : S) : Handled () :=
  let '(port, s) := sv_get_default_network_hardware_port service s in
  match port with
  | Err e => (500, other_error (sv_now service) e, s)
  | Ok default_interface =>
      let '(answer, s) := sv_set_dns service default_interface (nsr_dns_servers req) s in legacy answer s
  end.
Definition handle_set_dns_elsewhere (req : NetworkSetDnsReq) (s : S) : Handled () :=
  (501, other_error (sv_now service) "Not implemented", s).
Definition handle_set_dns (req : NetworkSetDnsReq) (s : S) : Handled () :=
  if sv_macos service then handle_set_dns_macos req s else handle_set_dns_elsewhere req s.

(** [create_router]: the handler of a path and a method.  The other method, a body
    that is not there, one of the wrong shape, an unknown path and a request for
    the socket that does not ask to be upgraded have the statuses of the
    extractors, with nothing a client of this crate would read. *)
Definition Routed : Type := N * option Envelope * S.
Definition answer_with {A} (wrap : R A -> Envelope) (h : Handled A) : Routed :=
  let '(status, r, s) := h in (status, Some (wrap r), s).
Inductive MethodRouter :=
| Get (handler : S -> Routed)
| Post (handler : S -> Routed)
| PostJson {Req : Type} (extract : Payload -> option Req) (handler : Req -> S -> Routed)
| Upgrade.
Definition ROUTES : list (string * MethodRouter) := [
  (STATUS_ENDPOINT, Get (fun s => answer_with StatusBody (handle_status s)));
  (CORE_START_ENDPOINT, PostJson as_start_req (fun req s => answer_with UnitBody (handle_start req s)));
  (CORE_CHECK_ENDPOINT, PostJson as_check_req (fun req s => answer_with UnitBody (handle_check req s)));
  (CORE_STOP_ENDPOINT, Post (fun s => answer_with UnitBody (handle_stop s)));
  (CORE_RESTART_ENDPOINT, Post (fun s => answer_with UnitBody (handle_restart s)));
  (CORE_V2_SUBMIT_ENDPOINT, PostJson as_submit_req (fun req s => answer_with OperationBody (handle_submit req s)));
  (CORE_V2_OPERATION_ENDPOINT, PostJson as_operation_req (fun req s => answer_with OperationBody (handle_operation req s)));
  (CORE_V2_STATUS_ENDPOINT, Get (fun s => answer_with CoreBody (handle_status_v2 s)));
  (CORE_V2_EFFECTIVE_CONFIG_ENDPOINT, Get (fun s => answer_with ConfigBody (handle_effective_config s)));
  (CORE_V2_API_CONNECTION_ENDPOINT, Get (fun s => answer_with ConnectionBody (handle_api_connection s)));
  (LOGS_RETRIEVE_ENDPOINT, Get (fun s => answer_with LogsBody (handle_retrieve_logs s)));
  (LOGS_INSPECT_ENDPOINT, Get (fun s => answer_with LogsBody (handle_inspect_logs s)));
  (NETWORK_SET_DNS_ENDPOINT, PostJson as_dns_req (fun req s => answer_with UnitBody (handle_set_dns req s)));
  (EVENT_URI, Upgrade)].
Fixpoint find_route (path : string) (routes : list (string * MethodRouter)) : option MethodRouter :=
  match routes with
  | [] => None
  | (p, r) :: routes => if (p =? path)%string then Some r else find_route path routes
  end.
Definition dispatch (r : MethodRouter) (verb : Verb) (payload : Payload) (s : S) : Routed :=
  match r, verb with
  | Get handler, VGet => handler s
  | Post handler, VPost => handler s
  | PostJson extract handler, VPost =>
      match payload with
      | NoPayload => (415, None, s)
      | _ => match extract payload with Some req => handler req s | None => (422, None, s) end
      end
  | Upgrade, _ => (400, None, s)
  | _, _ => (405, None, s)
  end.
Definition route (verb : Verb) (path : string) (payload : Payload) (s : S) : Routed :=
  match find_route path ROUTES with
  | Some r => dispatch r verb payload s
  | None => (404, None, s)
  end.
End Handlers.

(** ** The client ([client/mod.rs], [client/shortcuts.rs]) *)

(** The text of an envelope tells a missing value from neither the unit value nor
    an absent answer: all three are [null].  Every other value is taken to come back
    as it was; paths are texts here, while Serde refuses one that is not UTF-8. *)
Definition with_data {A B} (data : option B) (r : R A) : R B :=
  {| r_code := r_code r; r_msg := r_msg r; r_data := data; r_ts := r_ts r; r_error_kind := r_error_kind r; r_retryable := r_retryable r |}.
Definition nullable {A} (r : R (option A)) : R (option A) := with_data (Some <$> mjoin (r_data r)) r.
Definition through_json (e : Envelope) : Envelope :=
  match e with
  | UnitBody r => UnitBody (with_data None r)
  | ConnectionBody r => ConnectionBody (nullable r)
  | ConfigBody r => ConfigBody (nullable r)
  | e => e
  end.

Inductive IpcError :=
| IpcServerResponseFailed (response : R ())
| IpcParseFailed
| IpcNotOk
| IpcErrorResponse (status : N)
| IpcNoContent.

(** [cast_body::<R<Option<()>>>] of an answer with status 500: the envelope of an
    error has no data. *)
Definition error_envelope (e : Envelope) : option (R ()) :=
  let keep {A} (r : R A) := match r_data r with None => Some (with_data None r) | Some _ => None end in
  match e with
  | UnitBody r => keep r
  | OperationBody r => keep r
  | CoreBody r => keep r
  | ConnectionBody r => keep r
  | ConfigBody r => keep r
  | StatusBody r => keep r
  | LogsBody r => keep r
  end.
Definition send_ipc (status : N) (body : option Envelope) : result (option Envelope) IpcError :=
  if decide (400 <= status < 600) then
    if decide (status = 500) then
      match body with
      | None => Err IpcNoContent
      | Some e => match error_envelope (through_json e) with
                  | Some r => Err (IpcServerResponseFailed r)
                  | None => Err IpcParseFailed
                  end
      end
    else Err (IpcErrorResponse status)
  else Ok (through_json <$> body).

(** [cast_body] and [ok()?]; [as_] picks the type the client expects. *)
Definition cast_ok {A} (as_ : Envelope -> option (R A)) (body : option Envelope) : result (R A) IpcError :=
  match body with
  | None => Err IpcNoContent
  | Some e =>
      match as_ e with
      | None => Err IpcParseFailed
      | Some r => map_err (fun _ => IpcNotOk) (R_ok r)
      end
  end.
Definition as_unit (e : Envelope) : option (R ()) := match e with UnitBody r => Some r | _ => None end.
Definition as_operation (e : Envelope) : option (R OperationInfo) := match e with OperationBody r => Some r | _ => None end.
Definition as_core (e : Envelope) : option (R CoreInfos) := match e with CoreBody r => Some r | _ => None end.
Definition as_connection (e : Envelope) : option (R (option CoreApiConnection)) := match e with ConnectionBody r => Some r | _ => None end.
Definition as_config (e : Envelope) : option (R (option CoreEffectiveConfig)) := match e with ConfigBody r => Some r | _ => None end.
Definition as_status (e : Envelope) : option (R StatusResBody) := match e with StatusBody r => Some r | _ => None end.
Definition as_logs (e : Envelope) : option (R LogsResBody) := match e with LogsBody r => Some r | _ => None end.

Section Client.
Context {S : Type} (send : Verb -> string -> Payload -> S -> N * option Envelope * S).

Definition Called (A : Type) : Type := outcome (result A IpcError) * S.
Definition exchange {A} (as_ : Envelope -> option (R A)) (verb : Verb) (path : string) (payload : Payload) (s : S)
    : result (R A) IpcError * S :=
  let '(status, body, s) := send verb path payload s in
  (let? body := send_ipc status body in cast_ok as_ body, s).
(** The answer is only confirmed, or its data unwrapped, or flattened. *)
Definition confirmed (x : result (R ()) IpcError * S) : Called () := (Return (map_ok (fun _ => tt) x.1), x.2).
Definition unwrapped {A} (x : result (R A) IpcError * S) : Called A :=
  (match x.1 with
   | Err e => Return (Err e)
   | Ok r => match r_data r with
             | Some data => Return (Ok data)
             | None => Panicked "called `Option::unwrap()` on a `None` value"
             end
   end, x.2).
Definition flattened {A} (x : result (R (option A)) IpcError * S) : Called (option A) :=
  (Return (map_ok (fun r => mjoin (r_data r)) x.1), x.2).

Definition ipc_status (s : S) : Called StatusResBody := unwrapped (exchange as_status VGet STATUS_ENDPOINT NoPayload s).
Definition start_core (payload : CoreStartReq) (s : S) : Called () :=
  confirmed (exchange as_unit VPost CORE_START_ENDPOINT (StartPayload payload) s).
Definition ipc_check_config (payload : CoreCheckReq) (s : S) : Called () :=
  confirmed (exchange as_unit VPost CORE_CHECK_ENDPOINT (CheckPayload payload) s).
Definition stop_core (s : S) : Called () := confirmed (exchange as_unit VPost CORE_STOP_ENDPOINT NoPayload s).
Definition restart_core (s : S) : Called () := confirmed (exchange as_unit VPost CORE_RESTART_ENDPOINT NoPayload s).
Definition submit_core (payload : CoreSubmitReq) (s : S) : Called OperationInfo :=
  unwrapped (exchange as_operation VPost CORE_V2_SUBMIT_ENDPOINT (SubmitPayload payload) s).
Definition core_operation (payload : CoreOperationReq) (s : S) : Called OperationInfo :=
  unwrapped (exchange as_operation VPost CORE_V2_OPERATION_ENDPOINT (OperationPayload payload) s).
Definition core_status_v2 (s : S) : Called CoreInfos := unwrapped (exchange as_core VGet CORE_V2_STATUS_ENDPOINT NoPayload s).
Definition core_api_connection (s : S) : Called (option CoreApiConnection) :=
  flattened (exchange as_connection VGet CORE_V2_API_CONNECTION_ENDPOINT NoPayload s).
Definition effective_config_v2 (s : S) : Called (option CoreEffectiveConfig) :=
  flattened (exchange as_config VGet CORE_V2_EFFECTIVE_CONFIG_ENDPOINT NoPayload s).
Definition inspect_logs (s : S) : Called LogsResBody := unwrapped (exchange as_logs VGet LOGS_INSPECT_ENDPOINT NoPayload s).
Definition retrieve_logs (s : S) : Called LogsResBody := unwrapped (exchange as_logs VGet LOGS_RETRIEVE_ENDPOINT NoPayload s).
Definition ipc_set_dns (payload : NetworkSetDnsReq) (s : S) : Called () :=
  confirmed (exchange as_unit VPost NETWORK_SET_DNS_ENDPOINT (DnsPayload payload) s).
End Client.

(** *** The event stream *)

(** [connect_event_stream]: what one attempt met, in order: the name of the socket,
    the connection with the code of its failure, the handshake, the delay the backoff
    had next and the time since the start. *)
Section Connect.
Context {Socket Stream : Type}.
Record Attempt := {
  at_name : result () string;
  at_connect : result Socket (option Z);
  at_handshake : Socket -> result Stream string;
  at_backoff : option Z;
  at_elapsed : Z;
}.
Inductive ConnectError := CeName (e : string) | CeHandshake (source : string) | CeIo (code : option Z).
Definition ERROR_PIPE_BUSY : Z := 231.
Definition RETRY_WINDOW_MS : Z := 1000.
(** The result, with the delays slept; [None] while the attempts given did not
    settle it. *)
Fixpoint connect_event_stream (windows : bool) (attempts : list Attempt) : list Z * option (result Stream ConnectError) :=
  match attempts with
  | [] => ([], None)
  | a :: attempts =>
      match at_name a with
      | Err e => ([], Some (Err (CeName e)))
      | Ok _ =>
          match at_connect a with
          | Ok socket => ([], Some (map_err CeHandshake (at_handshake a socket)))
          | Err code =>
              if (windows && bool_decide (code = Some ERROR_PIPE_BUSY))%bool then
                match at_backoff a with
                | None => ([], Some (Err (CeIo code)))
                | Some delay =>
                    if decide (RETRY_WINDOW_MS < at_elapsed a + delay)%Z then ([], Some (Err (CeIo code)))
                    else let '(slept, r) := connect_event_stream windows attempts in (delay :: slept, r)
                end
              else ([], Some (Err (CeIo code)))
          end
      end
  end.

(** Only a busy pipe is tried again, and never past the window: attempts whose clock
    counts the delays slept before them sleep no longer than it in all. *)
Fixpoint clock_counts (slept : Z) (attempts : list Attempt) : Prop :=
  match attempts with
  | [] => True
  | a :: attempts =>
      (slept <= at_elapsed a)%Z /\
      match at_backoff a with
      | Some delay => (0 <= delay)%Z /\ clock_counts (slept + delay) attempts
      | None => True
      end
  end.
Fixpoint total (l : list Z) : Z := match l with [] => 0%Z | x :: l => (x + total l)%Z end.
Lemma retries_stay_in_the_window windows attempts slept :
  (0 <= slept <= RETRY_WINDOW_MS)%Z -> clock_counts slept attempts ->
  (slept + total (connect_event_stream windows attempts).1 <= RETRY_WINDOW_MS)%Z.
Proof.
  revert slept; induction attempts as [|a attempts IH]; intros slept Hs Hc; cbn in *; [lia|].
  destruct Hc as [He Hc].
  destruct (at_name a); [destruct (at_connect a)|]; cbn; try lia.
  destruct (_ && _); cbn; [|lia]; destruct (at_backoff a) as [delay|]; cbn; [|lia].
  case_decide; cbn; [lia|]; destruct Hc as [Hd Hc].
  specialize (IH (slept + delay)%Z ltac:(lia) Hc); destruct (connect_event_stream windows attempts); cbn in *; lia.
Qed.
Lemma elsewhere_nothing_is_retried a attempts :
  (connect_event_stream false (a :: attempts)).1 = [] /\
  connect_event_stream false (a :: attempts) = connect_event_stream false [a].
Proof. cbn; destruct (at_name a); [destruct (at_connect a)|]; done. Qed.
End Connect.

(** What the socket gives, a ping with what became of its pong. *)
Inductive Frame :=
| FText (text : string)
| FBinary (bytes : list Byte.byte)
| FPing (pong : result () string)
| FPong
| FClose
| FRaw
| FFailed (source : string).
Inductive StreamError := StreamWebSocket (source : string) | StreamEventDecode (source : string).

Section Stream.
Context {Event : Type} (decode_text : string -> result Event string) (decode_bytes : list Byte.byte -> result Event string).

Definition decode_event (r : result Event string) : result Event StreamError := map_err StreamEventDecode r.
Fixpoint events (frames : list Frame) : list (result Event StreamError) :=
  match frames with
  | [] => []
  | FText text :: frames => decode_event (decode_text text) :: events frames
  | FBinary bytes :: frames => decode_event (decode_bytes bytes) :: events frames
  | FPing (Ok _) :: frames => events frames
  | FPing (Err source) :: _ => [Err (StreamWebSocket source)]
  | FPong :: frames => events frames
  | FClose :: _ => []
  | FRaw :: frames => events frames
  | FFailed source :: _ => [Err (StreamWebSocket source)]
  end.

(** A failure of the socket ends the stream; an event that does not decode does not. *)
Lemma socket_failures_come_last frames before source after :
  events frames = before ++ Err (StreamWebSocket source) :: after -> after = [].
Proof.
  revert before; induction frames as [|frame frames IH]; intros before Heq; [by destruct before|].
  assert (Hlast : forall e, [Err e] = before ++ Err (StreamWebSocket source) :: after -> after = [] :> list (result Event StreamError)).
  { intros e Hl; destruct before as [|b [|b' before]]; cbn in Hl; congruence. }
  destruct frame as [text|bytes|[[]|e]| | | |e]; cbn in Heq; eauto.
  - destruct before as [|b before]; cbn in Heq; injection Heq as Hb Heq; [by destruct (decode_text text) | eauto].
  - destruct before as [|b before]; cbn in Heq; injection Heq as Hb Heq; [by destruct (decode_bytes bytes) | eauto].
  - by destruct before.
Qed.
End Stream.

(** ** A client reads what the service answered *)

Section RoundTrip.
Context {S : Type} (service : ServiceOps S).

(** The classification of an error, as the envelope carries it. *)
Definition refused (now : Z) (error : OpError) : IpcError := IpcServerResponseFailed (into_envelope now error).
Definition refused_plainly (now : Z) (text : string) : IpcError := IpcServerResponseFailed (other_error now text).

Definition reads {A} (answer : result A IpcError * S) (called : Called (S := S) A) : Prop := called = (Return answer.1, answer.2).
Definition answered {A B} (f : A -> result B IpcError) (x : A * S) : result B IpcError * S := (f x.1, x.2).
Definition op_answer {A} (r : result A OpError) : result A IpcError := map_err (refused (sv_now service)) r.
Definition text_answer (r : result () string) : result () IpcError := map_err (refused_plainly (sv_now service)) r.

Definition dns_of_macos (req : NetworkSetDnsReq) (s : S) : result () string * S :=
  let '(port, s) := sv_get_default_network_hardware_port service s in
  match port with
  | Err e => (Err e, s)
  | Ok default_interface => sv_set_dns service default_interface (nsr_dns_servers req) s
  end.

Lemma exchange_reads {A B} (as_ : Envelope -> option (R A)) (wrap : R B -> Envelope) verb path payload s r (h : Handled (S := S) B) :
  find_route path (ROUTES service) = Some r -> dispatch r verb payload s = answer_with wrap h ->
  exchange (route service) as_ verb path payload s =
  (let? body := send_ipc h.1.1 (Some (wrap h.1.2)) in cast_ok as_ body, h.2).
Proof. unfold exchange, route; intros -> ->; by destruct h as [[status ?] ?]. Qed.
Ltac follow_route := intros; unfold reads, answered; erewrite exchange_reads; [|reflexivity|reflexivity].

(** C38: every call of a client reads exactly what the bridge of the service
    answered behind it, and leaves it as it left itself: the data of a success, and
    the text, the kind and the retryability of a refusal.  No call panics on an
    answer of this service; the one without an implementation on this host reads an
    error. *)
Theorem clients_read_what_the_service_answered s :
  reads (answered (fun infos => Ok {| srb_version := sv_version service; srb_core_infos := infos; srb_runtime_infos := sv_runtime service |})
           (sv_status service s)) (ipc_status (route service) s) /\
  (forall req, reads (answered text_answer (sv_start service (csr_core_type req) (csr_config_file req) s)) (start_core (route service) req s)) /\
  (forall req, reads (answered op_answer (sv_check service (ccr_core_type req) (ccr_config_file req) s)) (ipc_check_config (route service) req s)) /\
  reads (answered text_answer (sv_stop service s)) (stop_core (route service) s) /\
  reads (answered text_answer (sv_restart service s)) (restart_core (route service) s) /\
  (forall req, reads (answered op_answer (sv_submit_v2 service req s)) (submit_core (route service) req s)) /\
  (forall req, reads (answered op_answer (sv_operation_v2 service req s)) (core_operation (route service) req s)) /\
  reads (answered Ok (sv_status service s)) (core_status_v2 (route service) s) /\
  reads (answered Ok (sv_api_connection service s)) (core_api_connection (route service) s) /\
  reads (answered (map_err (fun _ => refused_plainly (sv_now service) "failed to serialize effective configuration"))
           (sv_effective_config service s)) (effective_config_v2 (route service) s) /\
  reads (answered (fun logs => Ok {| lrb_logs := logs |}) (sv_inspect_logs service s)) (inspect_logs (route service) s) /\
  reads (answered (fun logs => Ok {| lrb_logs := logs |}) (sv_retrieve_logs service s)) (retrieve_logs (route service) s) /\
  (forall req, reads (if sv_macos service then answered text_answer (dns_of_macos req s) else (Err (IpcErrorResponse 501), s))
                 (ipc_set_dns (route service) req s)).
Proof.
  split_and!.
  - unfold ipc_status; follow_route; unfold handle_status; destruct (sv_status service s); reflexivity.
  - unfold start_core; follow_route; unfold handle_start; destruct (sv_start service _ _ s) as [[[]|] ?]; reflexivity.
  - unfold ipc_check_config; follow_route; unfold handle_check; destruct (sv_check service _ _ s) as [[[]|] ?]; reflexivity.
  - unfold stop_core; follow_route; unfold handle_stop; destruct (sv_stop service s) as [[[]|] ?]; reflexivity.
  - unfold restart_core; follow_route; unfold handle_restart; destruct (sv_restart service s) as [[[]|] ?]; reflexivity.
  - unfold submit_core; follow_route; unfold handle_submit; destruct (sv_submit_v2 service _ s) as [[?|] ?]; reflexivity.
  - unfold core_operation; follow_route; unfold handle_operation; destruct (sv_operation_v2 service _ s) as [[?|] ?]; reflexivity.
  - unfold core_status_v2; follow_route; unfold handle_status_v2; destruct (sv_status service s); reflexivity.
  - unfold core_api_connection; follow_route; unfold handle_api_connection; destruct (sv_api_connection service s) as [[]]; reflexivity.
  - unfold effective_config_v2; follow_route; unfold handle_effective_config; destruct (sv_effective_config service s) as [[[]|] ?]; reflexivity.
  - unfold inspect_logs; follow_route; unfold handle_inspect_logs; destruct (sv_inspect_logs service s); reflexivity.
  - unfold retrieve_logs; follow_route; unfold handle_retrieve_logs; destruct (sv_retrieve_logs service s); reflexivity.
  - unfold ipc_set_dns; follow_route; unfold handle_set_dns, handle_set_dns_macos, dns_of_macos; destruct (sv_macos service); [|reflexivity].
    destruct (sv_get_default_network_hardware_port service s) as [[port|] s']; [destruct (sv_set_dns service port _ s') as [[[]|] ?]|]; reflexivity.
Qed.
End RoundTrip.
