(* ===== verification/ControlWait.v ===== *)
(** * Waiting on the control plane

    What callers of [control/mod.rs] read of the executor: [OperationHandle::wait],
    [wait_operation], [until_closed] and the answer of [shutdown], over every run of
    the transition system of [Executor]; and the advisory [check], which runs beside
    it. *)

From S2P Require Import Executor.
From S2P Require Bridge.
Open Scope rust_scope.

(** ** The loops *)

(** A handle reads its channel, whenever it changed; [ended]: the sender is gone and
    nothing is left unread.  [None]: it still waits. *)
Definition terminated_error (id : OperationId) : CoreError :=
  with_operation (CoreError_new KInternal "the control executor terminated before the operation completed" false) id.
Fixpoint handle_wait (id : OperationId) (reads : list OperationState) (ended : bool) : option (result OperationOutput CoreError) :=
  match reads with
  | Succeeded output :: _ => Some (Ok output)
  | Failed error :: _ => Some (Err error)
  | (Queued | Running) :: reads => handle_wait id reads ended
  | [] => if ended then Some (Err (terminated_error id)) else None
  end.

(** The long poll: [reads] before the bound elapsed, then the state at its end. *)
Fixpoint wait_terminal (reads : list OperationState) (at_end : OperationState) : OperationState :=
  match reads with
  | [] => at_end
  | state :: reads => if op_terminal state then state else wait_terminal reads at_end
  end.
Definition wait_operation (r : RegistryInner) (id : OperationId) (reads : list OperationState) (at_end : OperationState) : option OperationState :=
  (fun _ => wait_terminal reads at_end) <$> registry_subscribe id r.

(** The channel [done]: its value, and whether its sender was dropped with nothing
    left unread. *)
Fixpoint until_closed (reads : list (bool * bool)) : option ExecutorExit :=
  match reads with
  | [] => None
  | (done_, dropped) :: reads =>
      if done_ then Some Clean else if dropped then Some Died else until_closed reads
  end.

(** [CoreControl::shutdown] behind its latch: with a permit it waits for its own
    operation, without one for the executor that is gone. *)
Definition executor_died : CoreError := CoreError_new KInternal "the control executor died" false.
Definition shutdown_answer (id : OperationId) (permit : bool) (reads : list OperationState) (ended : bool) (exits : list (bool * bool))
    : option (result () CoreError) :=
  if permit then map_ok (fun _ => tt) <$> handle_wait id reads ended
  else (fun exit => match exit with Clean => Ok tt | Died => Err executor_died end) <$> until_closed exits.

(** The outcome of a terminal state. *)
Definition outcome_of (state : OperationState) : option (result OperationOutput CoreError) :=
  match state with
  | Succeeded output => Some (Ok output)
  | Failed error => Some (Err error)
  | _ => None
  end.

Lemma handle_wait_read id reads ended state :
  op_terminal state = true -> state ∈ reads -> (forall st, st ∈ reads -> op_terminal st = true -> st = state) ->
  handle_wait id reads ended = outcome_of state.
Proof.
  induction reads as [|st reads IH]; intros Ht Hin Hall; [by apply elem_of_nil in Hin|].
  destruct (op_terminal st) eqn:Hst.
  - rewrite (Hall st) by (done || by left). by destruct state.
  - assert (state ∈ reads) as Hin'. { apply elem_of_cons in Hin as [->|]; [congruence|done]. }
    destruct st; try done; cbn; apply IH; try done; intros; apply Hall; try done; by right.
Qed.
Lemma handle_wait_none id reads : Forall (fun st => op_terminal st = false) reads -> handle_wait id reads false = None.
Proof. induction 1 as [|st reads Ht _ IH]; [done|]. by destruct st. Qed.

Lemma wait_terminal_read reads final :
  (forall st, st ∈ reads -> op_terminal st = true -> final = st) -> wait_terminal reads final = final.
Proof.
  induction reads as [|st reads IH]; intros Hall; [done|]. cbn.
  destruct (op_terminal st) eqn:Hterm; [symmetry; apply Hall; [by left|done]|]. apply IH. intros st' Hst'. apply Hall. by right.
Qed.

(** ** Over the runs of the executor *)

Section Runs.
Context {Q : Type} `{!BoundedQueue Q ExecutorWork} `{!BoundedQueueLaws Q ExecutorWork}.
Context (capacity : N) (qcap : nat) (default_ipc : LocalIpcSettings) (capacity_live : N.of_nat qcap + 1 <= capacity).
Context (q : Q) (q_capacity : bq_capacity q = qcap) (q_items : bq_items q = []) (q_permits : bq_permits q = 0%nat).
#[local] Notation plane := (Plane Q).
#[local] Notation step := (step capacity default_ipc).
#[local] Notation reached := (reachable capacity default_ipc q).
#[local] Notation invariant := (invariant capacity qcap).

(** The reads of a channel along a run, at any moments of it. *)
Inductive watched (c : N) : plane -> list OperationState -> plane -> Prop :=
| watched_end s : watched c s [] s
| watched_step s s1 reads s' : step s s1 -> watched c s1 reads s' -> watched c s reads s'
| watched_read s reads s' : watched c s reads s' -> watched c s (borrow (p_registry s) c :: reads) s'.

(** The channel [done] of a state: [true] behind a clean exit, gone behind any. *)
Definition done_reads (s : plane) : list (bool * bool) :=
  match p_exec s with
  | EExited Clean => [(true, false); (true, true)]
  | EExited Died => [(false, false); (false, true)]
  | _ => [(false, false)]
  end.
Inductive closing_watched : plane -> list (bool * bool) -> plane -> Prop :=
| closing_end s : closing_watched s [] s
| closing_step s s1 reads s' : step s s1 -> closing_watched s1 reads s' -> closing_watched s reads s'
| closing_read s read reads s' : read ∈ done_reads s -> closing_watched s reads s' -> closing_watched s (read :: reads) s'.

Lemma reached_inv s : reached s -> invariant s.
Proof. by apply reached_invariant. Qed.

(** A write to another operation's channel. *)
Lemma borrow_set_ne r id state c :
  (forall sq c' st, entry r id = Some (sq, c', st) -> c' <> c) -> borrow (registry_set id state r) c = borrow r c.
Proof.
  intros Hne. unfold registry_set. destruct (operations r !! id) as [op|] eqn:Hop; [|done].
  unfold borrow; cbn [chans]. rewrite lookup_insert_ne; [done|]. apply (Hne (ro_sequence op) _ (borrow r (ro_state_tx op))).
  apply entry_Some. by exists op.
Qed.
(** A live operation's write never reaches a terminal channel. *)
Lemma borrow_set_live s id state c :
  invariant s -> id ∈ active s -> op_terminal (borrow (p_registry s) c) = true ->
  borrow (registry_set id state (p_registry s)) c = borrow (p_registry s) c.
Proof.
  intros I Hid Ht. apply borrow_set_ne. intros sq c' st He ->.
  destruct (active_entry capacity qcap s id I Hid) as (sq' & c' & st' & He' & Hl). rewrite He in He'. simplify_eq.
  apply entry_Some in He as (op & _ & _ & _ & Hb). congruence.
Qed.
Lemma borrow_admit {B} id digest (enqueue : B -> result B TrySendError) r b c :
  c < next_chan r -> borrow (Registry_admit capacity id digest enqueue r b).1.2 c = borrow r c.
Proof.
  intros Hc. destruct (admit_spec capacity id digest enqueue r b); cbn [fst snd]; try done.
  - rewrite borrow_insert; [by apply evict_borrow|]. by rewrite (proj2 (next_evict capacity r)).
  - rewrite borrow_bumped; [by apply evict_borrow|]. by rewrite (proj2 (next_evict capacity r)).
Qed.

(** What a handle has read as the end of its operation is its end for good. *)
Lemma terminal_is_final s s' id a :
  reached s -> step s s' -> (id, a) ∈ p_admitted s -> op_terminal (borrow (p_registry s) (ad_state_rx a)) = true ->
  borrow (p_registry s') (ad_state_rx a) = borrow (p_registry s) (ad_state_rx a).
Proof.
  intros Hr%reached_inv Hs Hin Ht. assert (ad_state_rx a < next_chan (p_registry s)) as Hc.
  { pose proof (inv_admitted _ _ _ Hr) as Hall. rewrite Forall_forall in Hall. exact (proj1 (Hall _ Hin)). }
  assert (Hqueued : forall work queue, bq_recv (p_queue s) = Some (work, queue) -> ew_id work ∈ active s).
  { intros work queue Hq. apply bq_recv_Some in Hq as [Hq _]. unfold active, queue_ids. rewrite Hq. apply elem_of_app. right. by left. }
  destruct Hs as [| s before envelope after| | | | | | s n id' | | s work queue _ Hq| | s id' command o He| | s why work queue _ Hq|]; cbn; try done.
  - unfold submit_admit. pose proof (borrow_admit (env_operation_id envelope) (command_digest (resolve_local_ipc default_ipc (env_command envelope)))
      (bq_try_send {| ew_id := env_operation_id envelope; ew_command := resolve_local_ipc default_ipc (env_command envelope) |}) _ (p_queue s) _ Hc) as Hb.
    by destruct (Registry_admit _ _ _ _ _ _) as [[answer registry] queue].
  - unfold shutdown_admit. pose proof (borrow_admit id' (command_digest Shutdown)
      (fun b => Ok (bq_permit_send {| ew_id := id'; ew_command := Shutdown |} b)) _ (p_queue s) _ Hc) as Hb.
    by destruct (Registry_admit _ _ _ _ _ _) as [[answer registry] queue].
  - apply borrow_set_live; [done|by eapply Hqueued|done].
  - apply borrow_set_live; [done| |done]. unfold active, running_ids. rewrite He. by left.
  - apply borrow_set_live; [done|by eapply Hqueued|done].
Qed.
Lemma admitted_stays s s' h : step s s' -> h ∈ p_admitted s -> h ∈ p_admitted s'.
Proof.
  intros Hs Hin. destruct Hs; cbn; try done.
  - unfold submit_admit. destruct (Registry_admit _ _ _ _ _ _) as [[answer registry] queue]. cbn. apply elem_of_app. by right.
  - unfold shutdown_admit. destruct (Registry_admit _ _ _ _ _ _) as [[answer registry] queue]. cbn. apply elem_of_app. by right.
Qed.

(** Along a run every terminal read is the final state. *)
Lemma watched_terminal s reads s' id a :
  reached s -> (id, a) ∈ p_admitted s -> watched (ad_state_rx a) s reads s' ->
  reached s' /\ (id, a) ∈ p_admitted s' /\
  (op_terminal (borrow (p_registry s) (ad_state_rx a)) = true -> borrow (p_registry s') (ad_state_rx a) = borrow (p_registry s) (ad_state_rx a)) /\
  forall st, st ∈ reads -> op_terminal st = true -> borrow (p_registry s') (ad_state_rx a) = st.
Proof.
  intros Hr Hin Hw. induction Hw as [s|s s1 reads s' Hs _ IH|s reads s' Hw IH].
  - split_and!; try done. by intros st ?%elem_of_nil.
  - destruct IH as (Hr' & Hin' & Hkeep & Hall); [by eapply reachable_step|by eapply admitted_stays|].
    split_and!; try done. intros Ht. pose proof (terminal_is_final s s1 id a Hr Hs Hin Ht) as Heq. rewrite <- Heq in Ht |- *. by apply Hkeep.
  - destruct (IH Hr Hin) as (Hr' & Hin' & Hkeep & Hall). split_and!; try done.
    intros st [->|Hst]%elem_of_cons Ht; [by apply Hkeep|by apply Hall].
Qed.

Lemma closing_reads s reads s' exit :
  reached s -> closing_watched s reads s' -> until_closed reads = Some exit -> p_exec s' = EExited exit.
Proof.
  intros Hr Hw. revert exit. induction Hw as [s|s s1 reads s' Hs _ IH|s read reads s' Hin Hw IH]; intros exit; [done| |].
  - intros He. by apply IH; [eapply reachable_step|].
  - assert (Hstay : forall why, p_exec s = EExited why -> p_exec s' = EExited why).
    { clear Hin IH. intros why. revert Hr. induction Hw as [s|s s1 reads s' Hs _ IH|s rd reads s' _ _ IH]; intros Hr He; [done| |by apply IH].
      apply IH; [by eapply reachable_step|]. pose proof (reached_inv _ Hr) as I. destruct (inv_exited _ _ _ I why He) as [Hi Hp].
      inversion Hs; subst; cbn in *; try done; try congruence.
      all: unfold submit_admit, shutdown_admit; by destruct (Registry_admit _ _ _ _ _ _) as [[? ?] ?]. }
    unfold done_reads in Hin. destruct (p_exec s) as [| | | |[|]] eqn:He.
    all: rewrite ?elem_of_cons, ?elem_of_nil in Hin; cbn.
    all: repeat match goal with H : _ \/ _ |- _ => destruct H as [->|H] | H : False |- _ => destruct H end; cbn.
    all: try (by intros ?; apply IH).
    all: intros [= <-]; by apply Hstay.
Qed.

(** Whatever a caller reads of its operation, and whenever: what a wait
    returned is the outcome the operation has at every later moment; a caller that
    reads behind the end of its operation is answered with that outcome, and so is
    the poll, early or at its bound; and behind the exit of the executor every caller
    is answered, by its operation and never by the executor's disappearance.  What
    [until_closed] reports is how the executor exited. *)
Theorem waiters_read_the_outcome s s' id a reads :
  reached s -> (id, a) ∈ p_admitted s -> watched (ad_state_rx a) s reads s' ->
  let final := borrow (p_registry s') (ad_state_rx a) in
  (forall r, handle_wait id reads false = Some r -> outcome_of final = Some r) /\
  (op_terminal final = true ->
     (forall ended, handle_wait id (reads ++ [final]) ended = outcome_of final) /\
     wait_terminal reads final = final) /\
  (forall why, p_exec s' = EExited why ->
     exists r, forall ended, handle_wait id (reads ++ [final]) ended = Some r) /\
  (forall exits exit, closing_watched s exits s' -> until_closed exits = Some exit -> p_exec s' = EExited exit).
Proof.
  intros Hr Hin Hw. destruct (watched_terminal s reads s' id a Hr Hin Hw) as (Hr' & Hin' & _ & Hall). cbv zeta.
  set (final := borrow (p_registry s') (ad_state_rx a)) in *.
  assert (Hend : op_terminal final = true -> forall ended, handle_wait id (reads ++ [final]) ended = outcome_of final).
  { intros Ht ended. apply handle_wait_read; [done|apply elem_of_app; right; by left|].
    intros st [Hst| ->%list_elem_of_singleton]%elem_of_app Hterm; [|done]. by rewrite (Hall st Hst Hterm). }
  split_and!.
  - intros r Hwait. destruct (op_terminal final) eqn:Ht.
    + destruct (Exists_dec (fun st => op_terminal st = true) reads) as [He|Hno].
      * apply Exists_exists in He as (st & Hst & Hterm). rewrite <- Hwait. symmetry. apply handle_wait_read; [done|by rewrite (Hall st Hst Hterm)|].
        intros st' Hst' Hterm'. by rewrite (Hall st' Hst' Hterm').
      * rewrite handle_wait_none in Hwait; [done|]. apply not_Exists_Forall in Hno; [|intros st; apply _].
        eapply Forall_impl; [exact Hno|]. intros st Hst. by apply not_true_iff_false.
    + rewrite handle_wait_none in Hwait; [done|]. apply Forall_forall. intros st Hst.
      destruct (op_terminal st) eqn:Hterm; [|done]. rewrite (Hall st Hst Hterm) in Ht. congruence.
  - intros Ht. split; [by apply Hend|by apply wait_terminal_read].
  - intros why He. assert (Ht : op_terminal final = true).
    { pose proof (reached_inv _ Hr') as I. pose proof (inv_admitted _ _ _ I) as Hadm. rewrite Forall_forall in Hadm.
      destruct (Hadm _ Hin') as [_ [[st E]|[Ht _]]]; [|done].
      pose proof E as (op & _ & _ & _ & Hb)%entry_Some. unfold final. rewrite Hb. destruct (op_terminal st) eqn:Ht; [done|].
      pose proof (inv_live _ _ _ I _ _ _ _ E Ht) as Hact. rewrite (active_exited _ _ s' why I He) in Hact. by apply elem_of_nil in Hact. }
    destruct (outcome_of final) as [r|] eqn:Ho; [|by destruct final]. exists r. intros ended. by rewrite Hend.
  - intros exits exit Hc Hu. exact (closing_reads s exits s' exit Hr Hc Hu).
Qed.
End Runs.

(** ** Advisory checks *)

Record CheckRequest := { cr_core : CoreSpec; cr_config : ConfigInput }.
(** The id, not just the digest. *)
Definition check_source_name (bytes : list Byte.byte) (id : OperationId) : string :=
  "check-source-" +:+ payload_digest bytes +:+ "-" +:+ OperationId_fmt id +:+ ".yaml".

Section Check.
Context {W : Type} (api : ManagerApi W) (source_dir working_dir : string).
Context (check_config : InstanceSpec -> W -> outcome (result () Error) * W) (remove_file : string -> W -> result () IoError * W).

Definition check_spec (request : CheckRequest) (config_path : string) : InstanceSpec :=
  {| is_core := cr_core request; is_config_path := config_path; is_working_dir := working_dir; is_pid_file := None;
     is_options := Bridge.InstanceOptions_default |}.
(** [CoreControl::check], behind its permit, with the id it generated. *)
Definition control_check (id : OperationId) (request : CheckRequest) (w : W) : outcome (result () CoreError) * W :=
  match materialize api source_dir (check_source_name (ci_bytes (cr_config request)) id) (cr_config request) id w with
  | (Err error, w) => (Return (Err error), w)
  | (Ok config_path, w) =>
      match check_config (check_spec request config_path) w with
      | (Panicked message, w) => (Panicked message, w)
      | (Return r, w) =>
          let '(_, w) := remove_file config_path w in
          (Return (map_err (fun error => from_domain error None) r), w)
      end
  end.
End Check.

(** *** Checks beside each other

    The permits of the semaphore, the checks that run with the id each generated, and
    the directory of the sources.  Every check writes, is read and is removed at any
    moment of the others. *)
Inductive CheckPhase := Writing | Reading.
Record RunningCheck := { rc_id : OperationId; rc_bytes : list Byte.byte; rc_phase : CheckPhase }.
Record Checks := { ck_permits : nat; ck_running : list RunningCheck; ck_files : gmap string (list Byte.byte) }.
Definition rc_name (c : RunningCheck) : string := check_source_name (rc_bytes c) (rc_id c).
Definition rc_reading (c : RunningCheck) : RunningCheck := {| rc_id := rc_id c; rc_bytes := rc_bytes c; rc_phase := Reading |}.
Inductive checks_step : Checks -> Checks -> Prop :=
| CsStart s n id bytes :
    ck_permits s = S n -> OperationId_wf id -> id ∉ map rc_id (ck_running s) ->
    checks_step s {| ck_permits := n; ck_running := {| rc_id := id; rc_bytes := bytes; rc_phase := Writing |} :: ck_running s; ck_files := ck_files s |}
| CsWritten s before c after :
    ck_running s = before ++ c :: after -> rc_phase c = Writing ->
    checks_step s {| ck_permits := ck_permits s; ck_running := before ++ rc_reading c :: after; ck_files := <[rc_name c := rc_bytes c]> (ck_files s) |}
| CsRefused s before c after files :
    (* the digest does not match, or the file was not written, or not all of it *)
    ck_running s = before ++ c :: after -> rc_phase c = Writing ->
    (forall name, name <> rc_name c -> files !! name = ck_files s !! name) ->
    checks_step s {| ck_permits := S (ck_permits s); ck_running := before ++ after; ck_files := files |}
| CsChecked s before c after removed :
    ck_running s = before ++ c :: after -> rc_phase c = Reading ->
    checks_step s {| ck_permits := S (ck_permits s); ck_running := before ++ after;
                     ck_files := if removed : bool then delete (rc_name c) (ck_files s) else ck_files s |}.
Definition checks_initial (check_concurrency : nat) (files : gmap string (list Byte.byte)) : Checks :=
  {| ck_permits := check_concurrency; ck_running := []; ck_files := files |}.

Lemma string_app_split (a b c d : string) : String.length a = String.length c -> a +:+ b = c +:+ d -> a = c /\ b = d.
Proof.
  revert c; induction a as [|x a IH]; intros [|y c] Hl H; cbn in Hl; try lia.
  - by rewrite !string_app_nil_l in H.
  - rewrite !string_app_cons in H. injection H as -> H. destruct (IH c ltac:(lia) H) as [-> ->]. done.
Qed.
Lemma check_source_name_inj bytes bytes' id id' :
  OperationId_wf id -> OperationId_wf id' -> check_source_name bytes id = check_source_name bytes' id' -> id = id'.
Proof.
  intros Hw Hw' H. unfold check_source_name in H. apply string_app_split in H as [_ H]; [|done].
  apply string_app_split in H as [_ H]; [|unfold payload_digest; by rewrite !hex_fixed_length].
  apply string_app_split in H as [_ H]; [|done]. apply string_app_inj_r in H.
  pose proof (operation_id_roundtrip id Hw) as Hr. rewrite H, operation_id_roundtrip in Hr by done. congruence.
Qed.

Record checks_ok (limit : nat) (s : Checks) : Prop := {
  co_permits : (ck_permits s + length (ck_running s) = limit)%nat;
  co_ids : NoDup (map rc_id (ck_running s));
  co_wf : Forall (fun c => OperationId_wf (rc_id c)) (ck_running s);
  co_files : Forall (fun c => rc_phase c = Reading -> ck_files s !! rc_name c = Some (rc_bytes c)) (ck_running s);
}.

Lemma other_name before c after d :
  NoDup (map rc_id (before ++ c :: after)) -> Forall (fun c => OperationId_wf (rc_id c)) (before ++ c :: after) ->
  d ∈ before ++ after -> rc_name d <> rc_name c.
Proof.
  intros Hn Hw Hd Heq. rewrite Forall_forall in Hw.
  assert (Hdin : d ∈ before ++ c :: after) by (apply elem_of_app; apply elem_of_app in Hd as [|]; [by left|by right; right]).
  assert (Hcin : c ∈ before ++ c :: after) by (apply elem_of_app; right; by left).
  pose proof (check_source_name_inj _ _ _ _ (Hw d Hdin) (Hw c Hcin) Heq) as Hid.
  rewrite map_app in Hn. cbn in Hn. apply NoDup_app in Hn as (_ & Hba & [Hca _]%NoDup_cons).
  apply elem_of_app in Hd as [Hd|Hd].
  - apply (Hba (rc_id d)); [by apply list_elem_of_fmap_2|]. rewrite Hid. by left.
  - apply Hca. rewrite <- Hid. by apply list_elem_of_fmap_2.
Qed.
Lemma NoDup_middle {A} (before after : list A) c : NoDup (before ++ c :: after) -> NoDup (before ++ after).
Proof.
  intros (Hb & Hba & [_ Ha]%NoDup_cons)%NoDup_app. apply NoDup_app. split_and!; [done| |done].
  intros x Hx Hin. by apply (Hba x Hx); right.
Qed.
Lemma Forall_middle {A} (P : A -> Prop) before after c : Forall P (before ++ c :: after) -> Forall P (before ++ after).
Proof. rewrite !Forall_app. by intros [? [_ ?]%Forall_cons]. Qed.

(** The end of one check, whatever became of its own file. *)
Lemma checks_end limit s before c after files :
  checks_ok limit s -> ck_running s = before ++ c :: after ->
  (forall name, name <> rc_name c -> files !! name = ck_files s !! name) ->
  checks_ok limit {| ck_permits := S (ck_permits s); ck_running := before ++ after; ck_files := files |}.
Proof.
  intros [Hp Hn Hw Hf] Hr Hfiles. rewrite Hr in *. split; cbn.
  - rewrite length_app in *. cbn in Hp. lia.
  - rewrite map_app in *. by apply NoDup_middle in Hn.
  - by apply Forall_middle in Hw.
  - pose proof (Forall_middle _ _ _ _ Hf) as Hf'. rewrite Forall_forall in Hf' |- *. intros d Hd Hread.
    rewrite Hfiles; [by apply Hf'|]. by apply (other_name before c after).
Qed.
Lemma checks_step_ok limit s s' : checks_step s s' -> checks_ok limit s -> checks_ok limit s'.
Proof.
  intros Hs Hok. destruct Hs as [s n id bytes Hperm Hwf Hid|s before c after Hr Hph|s before c after files Hr Hph Hfiles|s before c after removed Hr Hph].
  - destruct Hok as [Hp Hn Hw Hf]. split; cbn; [lia|by apply NoDup_cons|by apply Forall_cons|]. by apply Forall_cons.
  - pose proof Hok as [Hp Hn Hw Hf]. rewrite Hr in *. split; cbn.
    + rewrite length_app in *. cbn in *. lia.
    + by rewrite map_app in *.
    + rewrite Forall_app in *. destruct Hw as [? [? ?]%Forall_cons]. split; [done|]. by apply Forall_cons.
    + pose proof (Forall_middle _ _ _ _ Hf) as Hf'. rewrite Forall_app in Hf'. destruct Hf' as [Hfb Hfa].
      assert (Hkeep : forall d, d ∈ before ++ after -> (rc_phase d = Reading -> ck_files s !! rc_name d = Some (rc_bytes d)) ->
                rc_phase d = Reading -> <[rc_name c := rc_bytes c]> (ck_files s) !! rc_name d = Some (rc_bytes d)).
      { intros d Hd Hold Hread. rewrite lookup_insert_ne; [by apply Hold|]. intros Heq. by apply (other_name before c after d Hn Hw Hd). }
      apply Forall_app. split; [|apply Forall_cons; split].
      * rewrite Forall_forall in Hfb |- *. intros d Hd. apply Hkeep; [apply elem_of_app; by left|by apply Hfb].
      * intros _. unfold rc_name. cbn. by rewrite lookup_insert_eq.
      * rewrite Forall_forall in Hfa |- *. intros d Hd. apply Hkeep; [apply elem_of_app; by right|by apply Hfa].
  - by apply (checks_end limit s before c after).
  - apply (checks_end limit s before c after); [done|done|]. intros name Hne. destruct removed; [by rewrite lookup_delete_ne|done].
Qed.

(** At any number of checks beside each other, of the same bytes or of
    others, failing where they like: no more run than the control plane allows, and
    the source a check is reading is its own, with the bytes it was asked about. *)
Theorem a_check_reads_its_own_source check_concurrency files s :
  rtc checks_step (checks_initial check_concurrency files) s ->
  (length (ck_running s) <= check_concurrency)%nat /\
  forall c, c ∈ ck_running s -> rc_phase c = Reading -> ck_files s !! rc_name c = Some (rc_bytes c).
Proof.
  intros Hr. assert (Hok : checks_ok check_concurrency s).
  { assert (H0 : checks_ok check_concurrency (checks_initial check_concurrency files)).
    { split; cbn; [lia|by apply NoDup_nil|by apply Forall_nil|by apply Forall_nil]. }
    induction Hr as [|s s1 s' Hs _ IH]; [done|]. by apply IH, (checks_step_ok _ s). }
  destruct Hok as [Hp _ _ Hf]. split; [lia|]. intros c Hc. rewrite Forall_forall in Hf. by apply Hf.
Qed.

(** ** Concrete runs *)

Definition handle_1 : AdmittedOp := {| ad_sequence := 0; ad_state_rx := 0 |}.
Lemma demo_watched :
  watched (live_registry_capacity 256 16) plain_ipc (ad_state_rx handle_1) demo_running [borrow (p_registry demo_running) 0] demo_idle.
Proof.
  apply watched_read. eapply watched_step; [|apply watched_end]. apply (answer_turn_step _ op_1 Stop). by vm_compute.
Qed.
Lemma waiters_read_the_outcome_witness :
  demo_reachable demo_running /\ (op_1, handle_1) ∈ p_admitted demo_running /\
  op_terminal (borrow (p_registry demo_idle) 0) = true /\
  handle_wait op_1 ([borrow (p_registry demo_running) 0] ++ [borrow (p_registry demo_idle) 0]) false
  = outcome_of (borrow (p_registry demo_idle) 0).
Proof.
  assert (Hin : (op_1, handle_1) ∈ p_admitted demo_running) by (vm_compute; left).
  split; [exact demo_running_reachable|]. split; [exact Hin|]. split; [vm_compute; reflexivity|].
  pose proof (waiters_read_the_outcome (live_registry_capacity 256 16) 16 plain_ipc ltac:(vm_compute; discriminate) plain_queue
    ltac:(vm_compute; reflexivity) eq_refl eq_refl demo_running demo_idle op_1 handle_1 _ demo_running_reachable Hin demo_watched) as H.
  exact (proj1 (proj1 (proj2 H) ltac:(vm_compute; reflexivity)) false).
Defined.

Definition check_1 : RunningCheck := {| rc_id := op_1; rc_bytes := []; rc_phase := Writing |}.
Definition checks_1 : Checks := {| ck_permits := 1; ck_running := [rc_reading check_1]; ck_files := {[ rc_name check_1 := [] ]} |}.
Lemma a_check_reads_its_own_source_witness :
  rtc checks_step (checks_initial 2 ∅) checks_1 /\ forall c, c ∈ ck_running checks_1 -> rc_phase c = Reading -> ck_files checks_1 !! rc_name c = Some (rc_bytes c).
Proof.
  assert (Hr : rtc checks_step (checks_initial 2 ∅) checks_1).
  { eapply rtc_l; [apply (CsStart (checks_initial 2 ∅) 1 op_1 []); [reflexivity|vm_compute; auto|apply not_elem_of_nil]|].
    eapply rtc_l; [|apply rtc_refl].
    apply (CsWritten {| ck_permits := 1; ck_running := [check_1]; ck_files := ∅ |} [] check_1 []); reflexivity. }
  split; [exact Hr|]. exact (proj2 (a_check_reads_its_own_source 2 ∅ checks_1 Hr)).
Defined.
