(* ===== verification/ServiceCommands.v ===== *)
(** * The command line of the service

    [chimera_service/src/main.rs], [cmds/*.rs], [utils] and the service directories of
    [chimera-utils/src/dirs.rs]: what each command does to the host and in which
    order, who may give it, and what its success stands on.  The service manager of
    the host, its files, programs and processes answer arbitrarily; a run gives what
    was done, in order, beside its answer. *)

From S2P Require Import Prelude Text Types PidRecord Control Wire IpcClient.
Open Scope rust_scope.

(** ** The host *)

Inductive Os := Linux | Macos | Windows.
#[export] Instance Os_eq_dec : EqDecision Os.
Proof. solve_decision. Defined.

(** [service_manager::ServiceStatus]. *)
Inductive ManagedStatus := SsNotInstalled | SsStopped (reason : option string) | SsRunning.
#[export] Instance ManagedStatus_eq_dec : EqDecision ManagedStatus.
Proof. solve_decision. Defined.
(** What [tokio::time::timeout] gives. *)
Inductive InTime (A : Type) := OutOfTime | WithinTime (a : A).
#[global] Arguments OutOfTime {A}.
#[global] Arguments WithinTime {A} a.

Record ServiceInstallCtx := {
  sic_program : string;
  sic_args : list string;
  sic_username : option string;
  sic_working_directory : option string;
  sic_environment : list (string * string);
  sic_autostart : bool;
  sic_disable_restart_on_failure : bool;
}.
Record InstallCommand := { ic_user : string; ic_data_dir : string; ic_config_dir : string; ic_app_dir : string }.
Record ServerContext := { sx_config_dir : string; sx_data_dir : string; sx_app_dir : string; sx_service : bool }.
Record StatusCommand := { stc_json : bool; stc_skip_service_check : bool }.
Record UpdateCommand := { uc_check : bool; uc_from : option string }.

Inductive IpcServiceStatus := IssNotInstalled | IssStopped | IssRunning.
Record StatusInfo := { si_status : IpcServiceStatus; si_server : option StatusResBody }.

(** What depends on the host takes it, and may change it; the text a program printed is
    decoded as [String::from_utf8_lossy] does. *)
Class CommandHost (H V : Type) := {
  ch_os : Os;
  ch_name : string;
  ch_version : string;
  ch_version_parse : string -> option V;
  ch_version_show : V -> string;
  ch_version_gt : V -> V -> bool;
  ch_program_data : option string;
  ch_is_elevated : H -> result bool string * H;
  ch_username : H -> string * H;
  ch_native : H -> result () string * H;
  ch_available : H -> result bool string * H;
  ch_status : H -> result ManagedStatus string * H;
  ch_start : H -> result () string * H;
  ch_stop : H -> result () string * H;
  ch_stop_in_time : H -> InTime (result () string) * H;
  ch_install : ServiceInstallCtx -> H -> result () string * H;
  ch_uninstall : H -> result () string * H;
  ch_exists : string -> H -> bool * H;
  ch_is_file : string -> H -> bool * H;
  ch_create_dir_all : string -> H -> result () string * H;
  ch_copy : string -> string -> H -> result () string * H;
  ch_create : string -> H -> result () string * H;
  ch_read : string -> H -> result string string * H;
  ch_truncate_write : string -> string -> H -> result () string * H;
  ch_set_file_acl : string -> string -> H -> result () string * H;
  ch_security_descriptor : list string -> result string string;
  ch_current_exe : H -> result string string * H;
  ch_home : H -> option string * H;
  ch_processes : H -> list (N * option string) * H;
  ch_own_pid : N;
  ch_kill : N -> H -> () * H;
  ch_output : list string -> H -> result (bool * string) string * H;
  ch_init_logging : bool -> bool -> H -> result () string * H;
  ch_sleep : N -> H -> () * H;
  ch_late : N -> H -> bool * H;
  ch_send : Verb -> string -> Payload -> H -> N * option Envelope * H;
  ch_serve : ServerContext -> H -> result () string * H;
}.

(** What was done: the changes of the host, and what was seen of it on the way. *)
Inductive Effect :=
| EStart | EStop | EInstall (ctx : ServiceInstallCtx) | EUninstall
| ECopy (source target : string) | EMkdir (path : string) | EKill (pid : N)
| ECreateFile (path : string) | EWriteFile (path text : string) | ESetAcl (path sddl : string)
| EAlter (argv : list string)
| ELogFile
| EServe (ctx : ServerContext)
| EKillTree (pid : N) | ERemove (path : string)
| EBuilt | EBind (name : string) | EServing | ECoreShutdown | EDrain
| ESaw (status : ManagedStatus)
| EVersion (version : option string)
| EAsk (argv : list string)
| ESleep (seconds : N)
| ERequest (verb : Verb) (path : string)
| EShow (lines : list string)
| EReport (info : StatusInfo).
Definition changes (e : Effect) : bool :=
  match e with ESaw _ | EVersion _ | EAsk _ | ESleep _ | ERequest _ _ | EShow _ | EReport _ => false | _ => true end.

Inductive CommandError :=
| PermissionDenied
| ServiceNotInstalled
| ServiceAlreadyInstalled
| ServiceAlreadyStopped
| ServiceAlreadyRunning
| JoinError (message : string)
| CmdIo (text : string)
| CmdOther (text : string).

(** ** Commands

    A command answers, or panics, over the host, and tells what it did. *)

Definition Answer (A : Type) : Type := outcome (result A CommandError).
Definition Cmd (H A : Type) : Type := H -> Answer A * H * list Effect.
Section Commands.
Context {H : Type}.

Definition cmd_ret {A} (a : A) : Cmd H A := fun h => (Return (Ok a), h, []).
Definition cmd_err {A} (e : CommandError) : Cmd H A := fun h => (Return (Err e), h, []).
Definition cmd_panic {A} (message : string) : Cmd H A := fun h => (Panicked message, h, []).
Definition cmd_bind {A B} (m : Cmd H A) (k : A -> Cmd H B) : Cmd H B :=
  fun h =>
    let '(a, h, evs) := m h in
    match a with
    | Return (Ok a) => let '(b, h, evs') := k a h in (b, h, evs ++ evs')
    | Return (Err e) => (Return (Err e), h, evs)
    | Panicked message => (Panicked message, h, evs)
    end.
Definition ask {A} (op : H -> A * H) : Cmd H A := fun h => let '(a, h) := op h in (Return (Ok a), h, []).
Definition note (e : Effect) : Cmd H () := fun h => (Return (Ok tt), h, [e]).
(** An [io::Error], a panic, an [anyhow::Error] of an answer. *)
Definition of_io {A} (a : result A string) : Cmd H A :=
  match a with Ok a => cmd_ret a | Err e => cmd_err (CmdIo e) end.
Definition of_other {A} (a : result A string) : Cmd H A :=
  match a with Ok a => cmd_ret a | Err e => cmd_err (CmdOther e) end.
Definition of_context {A} (context : string) (a : result A string) : Cmd H A :=
  match a with Ok a => cmd_ret a | Err _ => cmd_err (CmdOther context) end.
Definition expect {A} (message : string) (a : result A string) : Cmd H A :=
  match a with Ok a => cmd_ret a | Err e => cmd_panic (message +:+ ": " +:+ e) end.
Definition when (b : bool) (m : Cmd H ()) : Cmd H () := if b then m else cmd_ret tt.
(** [tokio::task::spawn_blocking(..).await??]. *)
Definition spawn_blocking {A} (m : Cmd H A) : Cmd H A :=
  fun h =>
    match m h with
    | (Panicked message, h, evs) => (Return (Err (JoinError message)), h, evs)
    | answered => answered
    end.
End Commands.

Declare Scope cmd_scope.
Delimit Scope cmd_scope with cmd.
Notation "'run!' x ':=' m 'in' k" := (cmd_bind m (fun x => k))
  (at level 10, x pattern, m at level 100, k at level 200) : cmd_scope.
Notation "m ;; k" := (cmd_bind m (fun _ => k)) (at level 100, k at level 200, right associativity) : cmd_scope.
Open Scope cmd_scope.

(** ** Names and directories *)

Definition NYANPASU_USER_GROUP : string := "chimera".
Definition backslash : string := String (Ascii.ascii_of_N 92) "".
Section Directories.
Context {H V : Type} `{CommandHost H V}.
(** [PathBuf::join] of a plain name. *)
Definition join_path (base name : string) : string :=
  match ch_os with
  | Windows =>
      if decide (base = "") then name
      else if ends_with backslash base || ends_with "/" base then base +:+ name
      else base +:+ backslash +:+ name
  | _ => path_join base name
  end.
Definition suggest_service_data_dir (placeholder : string) : string :=
  match ch_os with
  | Linux => join_path "/var/lib" placeholder
  | Macos => join_path (join_path "/Library/Application Support" placeholder) "data"
  | Windows =>
      match ch_program_data with
      | Some path => join_path (join_path path placeholder) "data"
      | None => ""
      end
  end.
Definition suggest_service_config_dir (placeholder : string) : option string :=
  match ch_os with
  | Linux => Some (join_path "/etc" placeholder)
  | Macos => Some (join_path (join_path "/Library/Application Support" placeholder) "config")
  | Windows => (fun path => join_path (join_path path placeholder) "config") <$> ch_program_data
  end.
Definition service_data_dir : string := suggest_service_data_dir ch_name.
Definition service_logs_dir : string := join_path (suggest_service_data_dir ch_name) "logs".
Definition service_pid_file : string := join_path (suggest_service_data_dir ch_name) "service.pid".
Definition service_core_runtime_dir : string := join_path service_data_dir "core-runtime".
Definition service_config_dir : Cmd H string :=
  match suggest_service_config_dir ch_name with
  | Some path => cmd_ret path
  | None => cmd_panic "called `Option::unwrap()` on a `None` value"
  end.
Definition binary_name : string := ch_name +:+ match ch_os with Windows => ".exe" | _ => "" end.
End Directories.

Section Handlers.
Context {H V : Type} `{CommandHost H V}.
#[local] Notation Cmd := (Cmd H).

Definition must_check_elevation : Cmd bool :=
  match ch_os with
  | Windows => run! elevated := ask ch_is_elevated in expect "called `Result::unwrap()` on an `Err` value" elevated
  | _ => run! username := ask ch_username in cmd_ret (bool_decide (username = "root"))
  end.
Definition get_service_manager : Cmd () :=
  run! native := ask ch_native in
  of_other native ;;
  run! available := ask ch_available in
  run! available := of_context "service manager is not available, please make sure you are running as root or administrator" available in
  if available : bool then cmd_ret tt else cmd_err (CmdOther "service manager not available").
Definition query : Cmd ManagedStatus :=
  run! answer := ask ch_status in
  run! status := of_io answer in
  note (ESaw status) ;; cmd_ret status.
(** An attempt is on record whatever it answers. *)
Definition doing {A} (e : Effect) (op : H -> A * H) : Cmd A := note e ;; ask op.
Definition doing_io {A} (e : Effect) (op : H -> result A string * H) : Cmd A := run! answer := doing e op in of_io answer.
Definition doing_other {A} (e : Effect) (op : H -> result A string * H) : Cmd A := run! answer := doing e op in of_other answer.
Definition doing_context {A} (context : string) (e : Effect) (op : H -> result A string * H) : Cmd A :=
  run! answer := doing e op in of_context context answer.
Definition sleep (seconds : N) : Cmd () := note (ESleep seconds) ;; ask (ch_sleep seconds).
Definition ensure_dir (path : string) : Cmd () :=
  run! present := ask (ch_exists path) in
  when (negb present) (doing_io (EMkdir path) (ch_create_dir_all path)).

(** *** start, stop, restart, uninstall *)

Definition ManagedStatus_debug (s : ManagedStatus) : string :=
  match s with
  | SsNotInstalled => "NotInstalled"
  | SsStopped None => "Stopped(None)"
  | SsStopped (Some reason) => "Stopped(Some(" +:+ str_debug reason +:+ "))"
  | SsRunning => "Running"
  end.
Definition cmd_start : Cmd () :=
  get_service_manager ;;
  run! status := query in
  match status with
  | SsNotInstalled => cmd_err ServiceNotInstalled
  | SsRunning => cmd_err ServiceAlreadyRunning
  | SsStopped _ =>
      doing_io EStart ch_start ;;
      sleep 3 ;;
      run! status := query in
      if decide (status = SsRunning) then cmd_ret tt
      else cmd_err (CmdOther ("service start failed, status: " +:+ ManagedStatus_debug status))
  end.

(** Behind a stop that took too long, every process with the package in its working
    directory is killed, this one apart. *)
Fixpoint kill_matching (own : N) (processes : list (N * option string)) : Cmd () :=
  match processes with
  | [] => cmd_ret tt
  | (pid, cwd) :: rest =>
      when (match cwd with Some path => str_contains ch_name path && negb (pid =? own) | None => false end)
        (doing (EKill pid) (ch_kill pid)) ;;
      kill_matching own rest
  end.
Definition cmd_stop : Cmd () :=
  get_service_manager ;;
  run! status := query in
  match status with
  | SsNotInstalled => cmd_err ServiceNotInstalled
  | SsStopped _ => cmd_err ServiceAlreadyStopped
  | SsRunning =>
      run! stopped := doing EStop ch_stop_in_time in
      match stopped with
      | WithinTime (Ok _) => cmd_ret tt
      | WithinTime (Err e) => cmd_err (CmdOther e)
      | OutOfTime =>
          run! processes := ask ch_processes in
          kill_matching ch_own_pid processes
      end ;;
      sleep 3 ;;
      get_service_manager ;;
      run! status := query in
      if decide (status = SsStopped None \/ status = SsNotInstalled) then cmd_ret tt
      else cmd_err (CmdOther ("service stop failed, status: " +:+ ManagedStatus_debug status))
  end.
Definition cmd_restart : Cmd () :=
  get_service_manager ;;
  run! status := query in
  match status with
  | SsNotInstalled => cmd_err ServiceNotInstalled
  | SsStopped _ => cmd_start
  | SsRunning => cmd_stop ;; cmd_start
  end.
Definition cmd_uninstall : Cmd () :=
  get_service_manager ;;
  run! status := query in
  match status with
  | SsNotInstalled => cmd_err ServiceNotInstalled
  | SsStopped _ => cmd_ret tt
  | SsRunning => doing_io EStop ch_stop ;; sleep 3
  end ;;
  doing_io EUninstall ch_uninstall ;;
  run! status := query in
  if decide (status = SsNotInstalled) then cmd_ret tt
  else cmd_err (CmdOther ("service uninstall failed, status: " +:+ ManagedStatus_debug status)).

(** *** The group that shares the socket ([utils/os/user.rs]) *)

Definition FAILED_EXECUTE : string := "failed to execute process".
(** A program that reads, or one that alters the host. *)
Definition output (argv : list string) : Cmd (bool * string) :=
  run! answer := doing (EAsk argv) (ch_output argv) in expect FAILED_EXECUTE answer.
Definition output_altering (argv : list string) : Cmd (bool * string) :=
  run! answer := doing (EAlter argv) (ch_output argv) in expect FAILED_EXECUTE answer.
Definition is_nyanpasu_group_exists : Cmd bool :=
  match ch_os with
  | Windows => cmd_ret false
  | Linux => run! (ok, _) := output ["getent"; "group"; NYANPASU_USER_GROUP] in cmd_ret ok
  | Macos => run! (ok, _) := output ["dseditgroup"; "-o"; "read"; NYANPASU_USER_GROUP] in cmd_ret ok
  end.
Definition create_nyanpasu_group : Cmd () :=
  match ch_os with
  | Windows => cmd_ret tt
  | Linux =>
      run! (ok, _) := output_altering ["groupadd"; NYANPASU_USER_GROUP] in
      if ok : bool then cmd_ret tt else cmd_err (CmdOther "failed to create nyanpasu group")
  | Macos =>
      run! (ok, _) := output_altering ["dseditgroup"; "-o"; "create"; NYANPASU_USER_GROUP] in
      if ok : bool then cmd_ret tt else cmd_err (CmdOther "failed to create nyanpasu group")
  end.
Definition is_user_in_nyanpasu_group (username : string) : Cmd bool :=
  match ch_os with
  | Windows => cmd_ret false
  | Linux =>
      run! (_, out) := output ["id"; "-nG"; username] in
      cmd_ret (str_contains NYANPASU_USER_GROUP out)
  | Macos =>
      run! (ok, out) := output ["dseditgroup"; "-o"; "read"; NYANPASU_USER_GROUP] in
      cmd_ret (if ok : bool then str_contains username out else false)
  end.
Definition add_user_to_nyanpasu_group (username : string) : Cmd () :=
  match ch_os with
  | Windows => cmd_ret tt
  | Linux =>
      run! (ok, _) := output_altering ["usermod"; "-aG"; NYANPASU_USER_GROUP; username] in
      if ok : bool then cmd_ret tt else cmd_err (CmdOther "failed to add user to nyanpasu group")
  | Macos =>
      run! (ok, _) := output_altering ["dseditgroup"; "-o"; "edit"; "-a"; username; "-t"; "user"; NYANPASU_USER_GROUP] in
      if ok : bool then cmd_ret tt else cmd_err (CmdOther "failed to add user to nyanpasu group")
  end.

(** *** The access list ([utils/acl.rs]) *)

Definition NL : string := String newline "".
Definition acl_path : Cmd string := run! dir := service_config_dir in cmd_ret (join_path dir "acl.list").
Definition acl_entries (content : string) : list string :=
  filter (fun line => starts_with "S-" line = true) (map trim (str_lines content)).
Fixpoint join_lines (entries : list string) : string :=
  match entries with
  | [] => ""
  | [entry] => entry
  | entry :: rest => entry +:+ NL +:+ join_lines rest
  end.
Definition create_acl_file : Cmd () :=
  run! path := acl_path in
  run! present := ask (ch_exists path) in
  if present : bool then cmd_ret tt
  else
    run! parent := service_config_dir in
    doing_other (EMkdir parent) (ch_create_dir_all parent) ;;
    run! sddl := of_context "failed to generate sddl" (ch_security_descriptor []) in
    doing_context "failed to create acl file" (ECreateFile path) (ch_create path) ;;
    doing_other (ESetAcl path sddl) (ch_set_file_acl path sddl).
Definition read_acl_file : Cmd (list string) :=
  run! path := acl_path in
  run! present := ask (ch_exists path) in
  if negb present then cmd_ret []
  else
    run! answer := ask (ch_read path) in
    run! content := of_context "failed to read acl file" answer in
    cmd_ret (acl_entries content).
Definition write_acl_file (entries : list string) : Cmd () :=
  run! path := acl_path in
  doing_context "failed to write acl file" (EWriteFile path (join_lines entries)) (ch_truncate_write path (join_lines entries)).
(** [BTreeSet]. *)
Fixpoint insert_entry (entry : string) (entries : list string) : list string :=
  match entries with
  | [] => [entry]
  | e :: rest =>
      if String.ltb entry e then entry :: entries
      else if decide (entry = e) then entries
      else e :: insert_entry entry rest
  end.
Definition allow_user (user : string) : Cmd () :=
  create_acl_file ;;
  run! entries := read_acl_file in
  write_acl_file (insert_entry user (foldr insert_entry [] entries)).

(** *** install *)

Definition installed_binary : string :=
  match ch_os with
  | Linux => join_path "/usr/bin" binary_name
  | _ => join_path service_data_dir binary_name
  end.
Definition install_ctx (ctx : InstallCommand) (home : option string) : ServiceInstallCtx :=
  {| sic_program := installed_binary;
     sic_args := ["server"; "--nyanpasu-data-dir"; ic_data_dir ctx; "--nyanpasu-config-dir"; ic_config_dir ctx;
                  "--nyanpasu-app-dir"; ic_app_dir ctx; "--service"];
     sic_username := None; sic_working_directory := Some service_data_dir;
     sic_environment := match home with Some h => [("HOME", h)] | None => [] end;
     sic_autostart := true; sic_disable_restart_on_failure := false |}.
Definition join_group (user : string) : Cmd () :=
  run! present := is_nyanpasu_group_exists in
  when (negb present) create_nyanpasu_group ;;
  run! member := is_user_in_nyanpasu_group user in
  when (negb member) (add_user_to_nyanpasu_group user).
Definition cmd_install (ctx : InstallCommand) : Cmd () :=
  get_service_manager ;;
  run! status := query in
  if decide (status <> SsNotInstalled) then cmd_err ServiceAlreadyInstalled
  else
    run! config_dir := service_config_dir in
    ensure_dir service_data_dir ;;
    ensure_dir config_dir ;;
    run! answer := ask ch_current_exe in
    run! current := of_io answer in
    when (bool_decide (current <> installed_binary))
      (doing_io (ECopy current installed_binary) (ch_copy current installed_binary)) ;;
    match ch_os with Windows => allow_user (ic_user ctx) | _ => join_group (ic_user ctx) end ;;
    run! home := ask ch_home in
    doing_io (EInstall (install_ctx ctx home)) (ch_install (install_ctx ctx home)) ;;
    run! status := query in
    if decide (status = SsNotInstalled) then cmd_err (CmdOther "Service install failed") else cmd_ret tt.

(** *** Requests of the service *)

(** A call of the client, whose answer may come too late. *)
Definition call {A} (verb : Verb) (path : string) (op : H -> Called (S := H) A) : Cmd (result A IpcError) :=
  run! answer := doing (ERequest verb path) op in
  match answer with Return r => cmd_ret r | Panicked message => cmd_panic message end.
Definition IpcError_text (e : IpcError) : string :=
  match e with
  | IpcServerResponseFailed _ => "server response failed"
  | IpcParseFailed => "parse failed"
  | IpcNotOk => "not ok"
  | IpcErrorResponse _ => "error response"
  | IpcNoContent => "no content"
  end.
Definition or_ipc {A} (answer : result A IpcError) : Cmd A :=
  match answer with Ok a => cmd_ret a | Err e => cmd_err (CmdOther (IpcError_text e)) end.

Definition service_status (status : ManagedStatus) : IpcServiceStatus :=
  match status with SsNotInstalled => IssNotInstalled | SsStopped _ => IssStopped | SsRunning => IssRunning end.
Definition query_other : Cmd ManagedStatus :=
  run! answer := ask ch_status in
  run! status := of_other answer in
  note (ESaw status) ;; cmd_ret status.
Definition cmd_status (ctx : StatusCommand) : Cmd () :=
  get_service_manager ;;
  run! status := if stc_skip_service_check ctx then cmd_ret SsRunning else query_other in
  match service_status status with
  | IssRunning =>
      run! late := ask (ch_late 3) in
      run! answer := if late : bool then note (ERequest VGet STATUS_ENDPOINT) ;; cmd_ret None
                     else run! r := call VGet STATUS_ENDPOINT (ipc_status ch_send) in cmd_ret (Some r) in
      note (EReport match answer with
                    | Some (Ok server) => {| si_status := IssRunning; si_server := Some server |}
                    | _ => {| si_status := IssStopped; si_server := None |}
                    end)
  | other => note (EReport {| si_status := other; si_server := None |})
  end.

Inductive RpcCommand :=
| RpcStartCore (core_type : CoreType) (config_file : string)
| RpcStopCore
| RpcRestartCore
| RpcInspectLogs
| RpcRetrieveLogs
| RpcSetDns (dns_servers : option (list string)).
Fixpoint trim_newlines_start (s : string) : string :=
  match s with
  | String a rest => if decide (a = newline) then trim_newlines_start rest else s
  | EmptyString => s
  end.
Fixpoint trim_newlines_end (s : string) : string :=
  match s with
  | EmptyString => EmptyString
  | String a rest =>
      let rest := trim_newlines_end rest in
      if decide (a = newline /\ rest = "") then EmptyString else String a rest
  end.
Definition shown (log : string) : string := trim_newlines_end (trim_newlines_start log).
Definition cmd_rpc (command : RpcCommand) : Cmd () :=
  match command with
  | RpcStartCore core_type config_file =>
      run! r := call VPost CORE_START_ENDPOINT (start_core ch_send {| csr_core_type := core_type; csr_config_file := config_file |}) in or_ipc r
  | RpcStopCore => run! r := call VPost CORE_STOP_ENDPOINT (stop_core ch_send) in or_ipc r
  | RpcRestartCore => run! r := call VPost CORE_RESTART_ENDPOINT (restart_core ch_send) in or_ipc r
  | RpcInspectLogs =>
      run! r := call VGet LOGS_INSPECT_ENDPOINT (inspect_logs ch_send) in
      run! body := or_ipc r in note (EShow (map shown (lrb_logs body)))
  | RpcRetrieveLogs =>
      run! r := call VGet LOGS_RETRIEVE_ENDPOINT (retrieve_logs ch_send) in
      run! body := or_ipc r in note (EShow (map shown (lrb_logs body)))
  | RpcSetDns dns_servers =>
      run! r := call VPost NETWORK_SET_DNS_ENDPOINT (ipc_set_dns ch_send {| nsr_dns_servers := dns_servers |}) in or_ipc r
  end.

(** *** update *)

Inductive UpdatePlan := Seed | ReplaceOffline | StopReplaceStart | UpToDate.
Definition plan_summary (plan : UpdatePlan) : string :=
  match plan with
  | Seed => "would install: no service binary is present"
  | ReplaceOffline => "would replace: the service is not answering"
  | StopReplaceStart => "would update: stop the service, replace the binary, start it again"
  | UpToDate => "up to date: the installed service is not older than the running binary"
  end.
Definition plan_update (binary_exists : bool) (source : V) (installed : option V) : UpdatePlan :=
  if negb binary_exists then Seed
  else match installed with
       | None => ReplaceOffline
       | Some installed => if ch_version_gt source installed then StopReplaceStart else UpToDate
       end.
Definition updated_binary : string := join_path service_data_dir binary_name.
Definition source_path (explicit : option string) : Cmd string :=
  match explicit with
  | Some path => cmd_ret path
  | None => run! answer := ask ch_current_exe in of_io answer
  end.
(** The version of the service that answers, if one does. *)
Definition installed_version : Cmd (option V) :=
  run! answer := call VGet STATUS_ENDPOINT (ipc_status ch_send) in
  let version := match answer with Ok body => Some (srb_version body) | Err _ => None end in
  note (EVersion version) ;; cmd_ret (version ≫= ch_version_parse).
Definition replace_binary (explicit : option string) : Cmd () :=
  run! source := source_path explicit in
  doing_io (ECopy source updated_binary) (ch_copy source updated_binary).
Definition check_source (from : option string) : Cmd () :=
  match from with
  | Some from =>
      run! file := ask (ch_is_file from) in
      if file : bool then cmd_ret tt else cmd_err (CmdOther ("update source does not exist or is not a file: " +:+ from))
  | None => cmd_ret tt
  end.
Definition update_report (source : string) (installed : option V) (plan : UpdatePlan) : list string :=
  ["service binary: " +:+ updated_binary; "update source: " +:+ source;
   "comparison version (running binary): " +:+ ch_version;
   "installed version: " +:+ match installed with Some v => ch_version_show v | None => "unknown (the service did not answer)" end;
   plan_summary plan].
Definition carry_out (plan : UpdatePlan) (from : option string) : Cmd () :=
  match plan with
  | Seed | ReplaceOffline => replace_binary from
  | StopReplaceStart => spawn_blocking cmd_stop ;; replace_binary from ;; spawn_blocking cmd_start
  | UpToDate => cmd_ret tt
  end.
Definition cmd_update (ctx : UpdateCommand) : Cmd () :=
  check_source (uc_from ctx) ;;
  run! binary_exists := ask (ch_exists updated_binary) in
  match ch_version_parse ch_version with
  | None => cmd_err (CmdOther "invalid version")
  | Some client_version =>
      run! installed := if binary_exists : bool then installed_version else cmd_ret None in
      let plan := plan_update binary_exists client_version installed in
      if uc_check ctx then
        run! source := source_path (uc_from ctx) in
        note (EShow (update_report source installed plan))
      else
        ensure_dir service_data_dir ;;
        carry_out plan (uc_from ctx)
  end.

(** *** The command line *)

Inductive Commands :=
| Install (ctx : InstallCommand)
| Uninstall
| Start
| Stop
| Restart
| Server (ctx : ServerContext)
| Status (ctx : StatusCommand)
| Update (ctx : UpdateCommand)
| Rpc (ctx : RpcCommand)
| Completions.
Record Cli := { cli_verbose : bool; cli_version : bool; cli_command : option Commands }.
Definition is_unprivileged (command : option Commands) : bool :=
  match command with
  | None | Some (Status _) | Some (Rpc _) | Some Completions => true
  | Some (Update ctx) => uc_check ctx
  | _ => false
  end.
Definition init_logging (verbose write_file : bool) : Cmd () :=
  when write_file (note ELogFile) ;;
  run! answer := ask (ch_init_logging verbose write_file) in of_other answer.
Definition perform_command (command : option Commands) : Cmd () :=
  match command with
  | Some (Install ctx) => spawn_blocking (cmd_install ctx)
  | Some Uninstall => spawn_blocking cmd_uninstall
  | Some Start => spawn_blocking cmd_start
  | Some Stop => spawn_blocking cmd_stop
  | Some Restart => spawn_blocking cmd_restart
  | Some (Status ctx) => cmd_status ctx
  | Some (Update ctx) => cmd_update ctx
  | Some (Server ctx) => doing_other (EServe ctx) (ch_serve ctx)
  | Some (Rpc ctx) => cmd_rpc ctx
  | Some Completions => note (EShow [])
  | None => note (EShow ["No command specified"])
  end.
Definition is_server (command : option Commands) : bool := match command with Some (Server _) => true | _ => false end.
Definition process (cli : Cli) : Cmd () :=
  run! elevated := if is_unprivileged (cli_command cli) then cmd_ret true else must_check_elevation in
  if negb elevated then cmd_err PermissionDenied
  else
    init_logging (cli_verbose cli) (is_server (cli_command cli)) ;;
    perform_command (cli_command cli).

(** [ExitCode], [handler] and [main]; a version asked for ends the process, and so
    does a panic. *)
Inductive ExitCode :=
| XNormal | XPermissionDenied | XServiceNotInstalled | XServiceAlreadyInstalled | XServiceAlreadyStopped | XServiceAlreadyRunning | XOther.
Definition ExitCode_report (code : ExitCode) : N :=
  match code with
  | XNormal => 0
  | XPermissionDenied => 64
  | XServiceNotInstalled => 100
  | XServiceAlreadyInstalled => 101
  | XServiceAlreadyStopped => 102
  | XServiceAlreadyRunning => 103
  | XOther => 1
  end.
Definition handler (answer : result () CommandError) : ExitCode :=
  match answer with
  | Ok _ => XNormal
  | Err PermissionDenied => XPermissionDenied
  | Err ServiceNotInstalled => XServiceNotInstalled
  | Err ServiceAlreadyInstalled => XServiceAlreadyInstalled
  | Err ServiceAlreadyStopped => XServiceAlreadyStopped
  | Err ServiceAlreadyRunning => XServiceAlreadyRunning
  | Err _ => XOther
  end.
Definition PANIC_EXIT : N := 101.
Definition main (cli : Cli) (h : H) : N * H * list Effect :=
  if cli_version cli then (ExitCode_report XNormal, h, [])
  else
    let '(answer, h, evs) := process cli h in
    (match answer with Return r => ExitCode_report (handler r) | Panicked _ => PANIC_EXIT end, h, evs).
End Handlers.

(** ** What a command does, whatever it answers *)

Section OnlyDoes.
Context {H : Type} (P : Effect -> Prop).
Definition only_does {A} (m : Cmd H A) : Prop := forall h, Forall P (m h).2.
Lemma only_does_ret {A} (a : A) : only_does (cmd_ret a).
Proof. by intros h. Qed.
Lemma only_does_err {A} e : only_does (A := A) (cmd_err e).
Proof. by intros h. Qed.
Lemma only_does_panic {A} message : only_does (A := A) (cmd_panic message).
Proof. by intros h. Qed.
Lemma only_does_ask {A} (op : H -> A * H) : only_does (ask op).
Proof. intros h; unfold ask; by destruct (op h). Qed.
Lemma only_does_note e : P e -> only_does (note e).
Proof. intros He h; by constructor. Qed.
Lemma only_does_bind {A B} (m : Cmd H A) (k : A -> Cmd H B) : only_does m -> (forall a, only_does (k a)) -> only_does (cmd_bind m k).
Proof.
  intros Hm Hk h; unfold cmd_bind; specialize (Hm h); destruct (m h) as [[a h1] evs]; cbn in *.
  destruct a as [[a|]|]; [|done..]; specialize (Hk a h1); destruct (k a h1) as [[b h2] evs']; by apply Forall_app.
Qed.
Lemma only_does_spawn {A} (m : Cmd H A) : only_does m -> only_does (spawn_blocking m).
Proof. intros Hm h; unfold spawn_blocking; specialize (Hm h); by destruct (m h) as [[[a|] h1] evs]. Qed.
End OnlyDoes.
Lemma only_does_run {H A} P (m : Cmd H A) h a h' evs : only_does P m -> m h = (a, h', evs) -> Forall P evs.
Proof. intros Hm E; specialize (Hm h); by rewrite E in Hm. Qed.

(** Walks a command down to its effects. *)
Ltac effects_walk :=
  repeat first
    [ progress (intros; cbn beta iota zeta)
    | apply only_does_ret | apply only_does_err | apply only_does_panic | apply only_does_ask | apply only_does_spawn
    | apply only_does_note; done
    | apply only_does_bind
    | match goal with
      | |- only_does _ (match ?x with _ => _ end) => destruct x
      | |- only_does _ ((match ?x with _ => _ end) _) => destruct x
      end
    | progress unfold get_service_manager, query, query_other, doing_io, doing_other, doing_context, doing, sleep, ensure_dir, when,
        of_io, of_other, of_context, expect, or_ipc, call, output, output_altering ].

(** ** What a command that succeeded did *)

Section Succeeds.
Context {H : Type}.
Lemma bind_ok {A B} (m : Cmd H A) (k : A -> Cmd H B) h b h' evs :
  cmd_bind m k h = (Return (Ok b), h', evs) ->
  exists a h1 e1 e2, m h = (Return (Ok a), h1, e1) /\ k a h1 = (Return (Ok b), h', e2) /\ evs = e1 ++ e2.
Proof.
  unfold cmd_bind; destruct (m h) as [[[[a|]|] h1] e1] eqn:E; intros [=].
  destruct (k a h1) as [[c h2] e2] eqn:Ek; simplify_eq/=. eauto 10.
Qed.
Lemma spawn_ok {A} (m : Cmd H A) h a h' evs : spawn_blocking m h = (Return (Ok a), h', evs) -> m h = (Return (Ok a), h', evs).
Proof. unfold spawn_blocking; by destruct (m h) as [[[]]]. Qed.
(** The last effect of a command. *)
Definition ended (seen : ManagedStatus -> Prop) (evs : list Effect) : Prop :=
  exists before status, evs = before ++ [ESaw status] /\ seen status.
Lemma ended_app seen e1 e2 : ended seen e2 -> ended seen (e1 ++ e2).
Proof. intros (before & status & -> & Hs). exists (e1 ++ before), status. by rewrite <- app_assoc. Qed.
End Succeeds.

Section Properties.
Context {H V : Type} `{CommandHost H V}.

Lemma query_ok h status h' evs : query h = (Return (Ok status), h', evs) -> evs = [ESaw status].
Proof.
  unfold query, cmd_bind, ask, note, cmd_ret, of_io; destruct (ch_status h) as [[s|e] h1]; cbn; intros; by simplify_eq/=.
Qed.

(** Past one bind of a command that succeeded; past its last look. *)
Ltac past E := apply bind_ok in E as (? & ? & ? & ? & _ & E & ->); apply ended_app.
Ltac looked E :=
  apply bind_ok in E as (? & ? & ? & ? & ->%query_ok & E & ->); case_decide; unfold cmd_ret in E; simplify_eq/=; eexists [], _; split; [done|].

Lemma start_confirmed h a h' evs : cmd_start h = (Return (Ok a), h', evs) -> ended (fun s => s = SsRunning) evs.
Proof.
  intros E; unfold cmd_start in E.
  past E.
  apply bind_ok in E as ([| |] & ? & ? & ? & _ & E & ->); apply ended_app; [done| |done].
  do 2 past E; by looked E.
Qed.
Definition stopped (s : ManagedStatus) : Prop := s = SsStopped None \/ s = SsNotInstalled.
Lemma stop_confirmed h a h' evs : cmd_stop h = (Return (Ok a), h', evs) -> ended stopped evs.
Proof.
  intros E; unfold cmd_stop in E.
  past E.
  apply bind_ok in E as ([| |] & ? & ? & ? & _ & E & ->); apply ended_app; [done..|].
  do 4 past E; by looked E.
Qed.
Lemma restart_confirmed h a h' evs : cmd_restart h = (Return (Ok a), h', evs) -> ended (fun s => s = SsRunning) evs.
Proof.
  intros E; unfold cmd_restart in E; past E.
  apply bind_ok in E as ([| |] & ? & ? & ? & _ & E & ->); apply ended_app; [done|by eapply start_confirmed|].
  past E; by eapply start_confirmed.
Qed.
Lemma uninstall_confirmed h a h' evs : cmd_uninstall h = (Return (Ok a), h', evs) -> ended (fun s => s = SsNotInstalled) evs.
Proof.
  intros E; unfold cmd_uninstall in E; do 2 past E.
  apply bind_ok in E as ([] & ? & ? & ? & _ & E & ->); apply ended_app.
  past E; by looked E.
Qed.
Lemma install_confirmed ctx h a h' evs : cmd_install ctx h = (Return (Ok a), h', evs) -> ended (fun s => s <> SsNotInstalled) evs.
Proof.
  intros E; unfold cmd_install in E; past E.
  apply bind_ok in E as (s & ? & ? & ? & _ & E & ->); apply ended_app; case_decide; [done|].
  do 9 past E; by looked E.
Qed.

(** Who may not change the host does not. *)
Definition harmless (e : Effect) : Prop := changes e = false.
Lemma elevation_harmless : only_does harmless must_check_elevation.
Proof. unfold must_check_elevation. effects_walk. Qed.
Lemma status_harmless ctx : only_does harmless (cmd_status ctx).
Proof. unfold cmd_status. effects_walk. Qed.
Lemma rpc_harmless ctx : only_does harmless (cmd_rpc ctx).
Proof. destruct ctx; cbn; effects_walk. Qed.
Lemma update_check_harmless ctx : uc_check ctx = true -> only_does harmless (cmd_update ctx).
Proof. intros Hc; unfold cmd_update, check_source, installed_version, source_path; rewrite Hc. effects_walk. Qed.
Lemma unprivileged_harmless command : is_unprivileged command = true -> only_does harmless (perform_command command).
Proof.
  destruct command as [[]|]; cbn; try done; intros Hu; [apply status_harmless|by apply update_check_harmless|apply rpc_harmless|..];
    by apply only_does_note.
Qed.

(** Where a copy was made, everything before it had succeeded. *)
Definition not_copy (e : Effect) : Prop := match e with ECopy _ _ => False | _ => True end.
Lemma copy_behind (A B pre post : list Effect) s t :
  Forall not_copy A -> A ++ B = pre ++ ECopy s t :: post -> exists pre', pre = A ++ pre' /\ B = pre' ++ ECopy s t :: post.
Proof.
  revert pre; induction A as [|e A IH]; intros pre HA E; cbn in *; [by exists pre|].
  apply Forall_cons in HA as [He HA]; destruct pre as [|e' pre]; cbn in E; injection E as -> E; [done|].
  destruct (IH pre HA E) as (pre' & -> & ->). by exists pre'.
Qed.
Lemma copy_before (A B pre post : list Effect) s t :
  Forall not_copy B -> A ++ B = pre ++ ECopy s t :: post -> exists post', A = pre ++ ECopy s t :: post'.
Proof.
  revert pre; induction A as [|e A IH]; intros pre HB E; cbn in *.
  - subst. apply Forall_app in HB as [_ HB]. by apply Forall_cons in HB as [? _].
  - destruct pre as [|e' pre]; cbn in E; injection E as -> E; [by exists A|]. destruct (IH pre HB E) as [post' ->]. by exists post'.
Qed.
Lemma bind_copied {A B} (m : Cmd H A) (k : A -> Cmd H B) h b h' pre s t post :
  only_does not_copy m -> cmd_bind m k h = (b, h', pre ++ ECopy s t :: post) ->
  exists a h1 e1 pre', m h = (Return (Ok a), h1, e1) /\ k a h1 = (b, h', pre' ++ ECopy s t :: post) /\ pre = e1 ++ pre'.
Proof.
  intros Hm E; unfold cmd_bind in E; specialize (Hm h); destruct (m h) as [[a h1] e1]; cbn in Hm.
  destruct a as [[a|]|]; [|exfalso; injection E as _ _ ->..].
  - destruct (k a h1) as [[c h2] e2] eqn:Ek; injection E as -> -> E.
    destruct (copy_behind _ _ _ _ _ _ Hm E) as (pre' & -> & ->). by exists a, h1, e1, pre'.
  - apply Forall_app in Hm as [_ Hm]. by apply Forall_cons in Hm as [? _].
  - apply Forall_app in Hm as [_ Hm]. by apply Forall_cons in Hm as [? _].
Qed.
Lemma bind_copied_left {A B} (m : Cmd H A) (k : A -> Cmd H B) h b h' pre s t post :
  (forall a, only_does not_copy (k a)) -> cmd_bind m k h = (b, h', pre ++ ECopy s t :: post) ->
  exists a h1 post', m h = (a, h1, pre ++ ECopy s t :: post').
Proof.
  intros Hk E; unfold cmd_bind in E; destruct (m h) as [[a h1] e1].
  destruct a as [[a|]|]; [|injection E as _ _ ->; eauto..].
  specialize (Hk a h1); destruct (k a h1) as [[c h2] e2]; injection E as _ _ E.
  destruct (copy_before _ _ _ _ _ _ Hk E) as [post' ->]. eauto.
Qed.
(** The file that is copied. *)
Definition comes_from (from : option string) (source : string) : Prop :=
  match from with Some path => source = path | None => exists h, (ch_current_exe h).1 = Ok source end.
Lemma source_path_answer from h source h' evs :
  source_path from h = (Return (Ok source), h', evs) -> comes_from from source /\ evs = [].
Proof.
  unfold source_path, cmd_bind, ask, of_io, comes_from; intros E; destruct from; [by injection E as <- _ <-|].
  destruct (ch_current_exe h) as [[] h1] eqn:Eh; unfold cmd_ret, cmd_err in E; simplify_eq/=. split; [|done]. exists h; by rewrite Eh.
Qed.
Lemma replace_copies from h a h' pre s t post :
  replace_binary from h = (a, h', pre ++ ECopy s t :: post) -> t = updated_binary /\ comes_from from s /\ pre = [].
Proof.
  unfold replace_binary; intros E; apply bind_copied in E as (source & h1 & e1 & pre' & E1 & E & ->); [|unfold source_path; effects_walk].
  apply source_path_answer in E1 as [Hs ->].
  unfold doing_io, doing, note, ask, cmd_bind in E; destruct (ch_copy source updated_binary h1) as [[] ?]; cbn in E;
    injection E as _ _ E; destruct pre' as [|? [|]]; by simplify_eq/=.
Qed.
Lemma stop_copies_nothing : only_does not_copy cmd_stop.
Proof.
  assert (Hk : forall own processes, only_does not_copy (kill_matching own processes)).
  { intros own processes; induction processes as [|[pid [cwd|]] rest IH]; cbn; effects_walk; apply IH. }
  unfold cmd_stop. effects_walk. apply Hk.
Qed.
Lemma start_copies_nothing : only_does not_copy cmd_start.
Proof. unfold cmd_start. effects_walk. Qed.
Lemma carry_out_copies plan from h a h' pre s t post :
  carry_out plan from h = (a, h', pre ++ ECopy s t :: post) ->
  t = updated_binary /\ comes_from from s /\ plan <> UpToDate /\ (plan = Seed -> pre = []) /\ (plan = StopReplaceStart -> ended stopped pre).
Proof.
  destruct plan; cbn; intros E; [by apply replace_copies in E as (-> & ? & ->)..| |].
  - apply bind_copied in E as (u & h1 & e1 & pre' & Es%spawn_ok%stop_confirmed & E & ->); [|apply only_does_spawn, stop_copies_nothing].
    apply bind_copied_left in E as (? & ? & ? & E); [|intros _; apply only_does_spawn, start_copies_nothing].
    apply replace_copies in E as (-> & ? & ->). rewrite app_nil_r. done.
  - injection E as _ _ E. by destruct pre.
Qed.

Lemma check_source_silent from : only_does (fun _ => False) (check_source from).
Proof. unfold check_source. effects_walk. Qed.
Lemma installed_version_told h installed h' evs :
  installed_version h = (Return (Ok installed), h', evs) ->
  exists version, evs = [ERequest VGet STATUS_ENDPOINT; EVersion version] /\ installed = version ≫= ch_version_parse.
Proof.
  unfold installed_version, call, doing, note, ask, cmd_bind, cmd_ret, cmd_panic.
  destruct (ipc_status ch_send h) as [[[body|e]|] h1]; cbn; intros E; simplify_eq/=; eauto.
Qed.
Definition is_mkdir (e : Effect) : Prop := match e with EMkdir _ => True | _ => False end.
Lemma ensure_dir_makes_dirs path : only_does is_mkdir (ensure_dir path).
Proof. effects_walk. Qed.
Definition versions (evs : list Effect) : list (option string) :=
  omap (fun e => match e with EVersion version => Some version | _ => None end) evs.
Lemma dirs_tell_no_version evs : Forall is_mkdir evs -> versions evs = [].
Proof. induction 1 as [|[] evs He _ IH]; done. Qed.
Lemma only_does_weaken {A} (P Q : Effect -> Prop) (m : Cmd H A) : (forall e, P e -> Q e) -> only_does P m -> only_does Q m.
Proof. intros HPQ Hm h; eapply Forall_impl; [apply Hm|apply HPQ]. Qed.

(** What an update that copies had learned, and planned. *)
Lemma update_copies ctx h a h' pre s t post :
  uc_check ctx = false -> cmd_update ctx h = (a, h', pre ++ ECopy s t :: post) ->
  exists client plan e1 dirs rest,
    ch_version_parse ch_version = Some client /\ pre = e1 ++ dirs ++ rest /\ Forall is_mkdir dirs /\
    t = updated_binary /\ comes_from (uc_from ctx) s /\ plan <> UpToDate /\ (plan = Seed -> rest = []) /\ (plan = StopReplaceStart -> ended stopped rest) /\
    match e1 with
    | [] => (ch_exists updated_binary (check_source (uc_from ctx) h).1.2).1 = false /\ plan = Seed
    | _ => exists version, e1 = [ERequest VGet STATUS_ENDPOINT; EVersion version] /\
                           plan = plan_update true client (version ≫= ch_version_parse)
    end.
Proof.
  intros Hc E; unfold cmd_update in E; rewrite Hc in E.
  apply bind_copied in E as (u & h1 & e0 & pre1 & E0 & E & ->); [|by eapply only_does_weaken, check_source_silent].
  pose proof (only_does_run _ _ _ _ _ _ (check_source_silent _) E0) as Hs; rewrite E0; destruct e0; [|by apply Forall_cons in Hs as [[] _]].
  apply bind_copied in E as (present & h2 & e2 & pre2 & E2 & E & ->); [|apply only_does_ask].
  unfold ask in E2; cbn; destruct (ch_exists updated_binary h1) as [there h3]; injection E2 as -> -> <-.
  destruct (ch_version_parse ch_version) as [client|]; [|injection E as _ _ E; by destruct pre2].
  apply bind_copied in E as (installed & h4 & e4 & pre4 & E4 & E & ->); [|unfold installed_version; destruct present; effects_walk].
  apply bind_copied in E as (v & h5 & dirs & rest & E5 & E & ->);
    [|eapply only_does_weaken, ensure_dir_makes_dirs; by intros []].
  pose proof (only_does_run _ _ _ _ _ _ (ensure_dir_makes_dirs _) E5) as Hd.
  apply carry_out_copies in E as (-> & Hfrom & Hp & Hseed & Hstop).
  eexists client, _, e4, dirs, rest; do 8 (split; [eassumption || done|]).
  destruct present; cbn in *; [|by injection E4 as <- _ <-].
  apply installed_version_told in E4 as (version & -> & ->). by exists version.
Qed.
Lemma logging_harmless verbose command : is_unprivileged command = true -> only_does harmless (init_logging verbose (is_server command)).
Proof. destruct command as [[]|]; try done; intros _; unfold init_logging; effects_walk. Qed.
End Properties.

(** ** What the commands promise *)

Section Promises.
Context {H V : Type} `{CommandHost H V}.

(** A command that ends with the code of success saw what it promises: behind
    [start] and [restart] the service manager said last that the service runs, behind
    [stop] that it is stopped without a failure or not there, behind [uninstall] that it
    is not installed, behind [install] that it is; whatever the host answered on the
    way. *)
Theorem success_was_seen cli h h' evs :
  cli_version cli = false -> main cli h = (0, h', evs) ->
  match cli_command cli with
  | Some Start | Some Restart => ended (fun s => s = SsRunning) evs
  | Some Stop => ended stopped evs
  | Some Uninstall => ended (fun s => s = SsNotInstalled) evs
  | Some (Install _) => ended (fun s => s <> SsNotInstalled) evs
  | _ => True
  end.
Proof.
  intros Hv E; unfold main in E; rewrite Hv in E; destruct (process cli h) as [[answer h1] evs1] eqn:Ep.
  destruct answer as [[[]|[]]|]; cbn in E; simplify_eq/=.
  unfold process in Ep; apply bind_ok in Ep as ([] & ? & ? & ? & _ & Ep & ->); cbn in Ep; [|done].
  apply bind_ok in Ep as ([] & ? & ? & ? & _ & Ep & ->).
  destruct (cli_command cli) as [[]|]; cbn in Ep; try done; do 2 apply ended_app; apply spawn_ok in Ep;
    eauto using start_confirmed, stop_confirmed, restart_confirmed, uninstall_confirmed, install_confirmed.
Qed.

(** Without elevation nothing is changed: a command that only reads, asks the
    service or reports has no effect on the host, whoever gives it, and any other ends
    in front of its first effect, with the exit code of a permission denied when the
    host told that its caller has none. *)
Theorem unprivileged_runs_change_nothing cli h code h' evs :
  main cli h = (code, h', evs) ->
  is_unprivileged (cli_command cli) = true \/ (must_check_elevation h).1.1 <> Return (Ok true) ->
  Forall harmless evs /\
  (cli_version cli = false -> is_unprivileged (cli_command cli) = false ->
   (must_check_elevation h).1.1 = Return (Ok false) -> code = 64).
Proof.
  unfold main; intros E Hu; destruct (cli_version cli); [by injection E as <- <- <-|].
  destruct (process cli h) as [[answer h1] evs1] eqn:Ep; injection E as <- -> ->.
  destruct (is_unprivileged _) eqn:Hun; split; try done.
  - refine (only_does_run _ _ _ _ _ _ _ Ep). unfold process; rewrite Hun.
    apply only_does_bind; [apply only_does_ret|]; intros []; [|apply only_does_err]; apply only_does_bind; [by apply logging_harmless|intros _; by apply unprivileged_harmless].
  - destruct Hu as [|Hu]; [done|]; unfold process, cmd_bind in Ep; rewrite Hun in Ep.
    pose proof (elevation_harmless h) as He; destruct (must_check_elevation h) as [[[[[]|]|] ?] ?]; cbn in *; try done; simplify_eq; by rewrite ?app_nil_r.
  - intros _ _ Hd; unfold process, cmd_bind in Ep; rewrite Hun in Ep.
    destruct (must_check_elevation h) as [[? ?] ?]; cbn in Hd; subst; cbn in Ep. by injection Ep as <- _ _.
Qed.

(** C40: An update copies over the binary of the data directory and over nothing
    else, and never with [--check].  What it copies is the file of [--from] or, without
    it, the executable of this very program.  It copies unasked only where no binary was;
    where the service told a version that can be read, the version of this program is
    above it and the last thing seen in front of the copy is that the service had stopped.
    Behind [--from] nothing is said of the version of the copied file: nobody looks at it
    ([any_file_is_copied_from]). *)
Theorem updates_replace_only_older_services ctx h a h' pre source target post :
  cmd_update ctx h = (a, h', pre ++ ECopy source target :: post) ->
  target = updated_binary /\ uc_check ctx = false /\ comes_from (uc_from ctx) source /\
  match versions pre with
  | [] => (ch_exists updated_binary (check_source (uc_from ctx) h).1.2).1 = false
  | version :: _ =>
      match version ≫= ch_version_parse with
      | Some installed =>
          (exists client, ch_version_parse ch_version = Some client /\ ch_version_gt client installed = true) /\
          ended stopped pre
      | None => True
      end
  end.
Proof.
  intros E.
  assert (Hc : uc_check ctx = false).
  { destruct (uc_check ctx) eqn:Hc; [|done]. pose proof (update_check_harmless ctx Hc h) as Hh; rewrite E in Hh; cbn in Hh.
    apply Forall_app in Hh as [_ Hh]. by apply Forall_cons in Hh as [? _]. }
  destruct (update_copies _ _ _ _ _ _ _ _ Hc E) as (client & plan & e1 & dirs & rest & Hv & -> & Hd & -> & Hfrom & Hp & Hseed & Hstop & He).
  do 3 (split; [done|]); destruct e1 as [|e e1]; [destruct He as [He ->]|destruct He as (version & [= -> ->] & ->)].
  - rewrite Hseed, app_nil_r by done; cbn. by rewrite dirs_tell_no_version.
  - cbn; destruct (version ≫= ch_version_parse) as [installed|]; [|done]; cbn in Hp, Hstop.
    destruct (ch_version_gt client installed) eqn:Hg; [|done]. split; [eauto|]. by apply (ended_app _ [_; _]), ended_app, Hstop.
Qed.
End Promises.

(** ** The access list *)

Definition sid_char (a : Ascii.ascii) : bool :=
  bool_decide (a = Ascii.ascii_of_N 83 \/ a = Ascii.ascii_of_N 45) || is_digit a.
(** A security identifier: [S-] and numbers behind dashes. *)
Definition is_sid (s : string) : Prop := starts_with "S-" s = true /\ str_all sid_char s = true.

Lemma sid_char_plain a : sid_char a = true -> 45 <= Ascii.N_of_ascii a <= 83.
Proof.
  unfold sid_char, is_digit; intros [Ha%bool_decide_eq_true|Ha]%orb_true_iff.
  - destruct Ha as [-> | ->]; cbn; lia.
  - apply bool_decide_eq_true in Ha; lia.
Qed.
Lemma plain_is_no_space a s : 33 <= Ascii.N_of_ascii a < 128 -> whitespace_prefix (String a s) = None.
Proof.
  intros Ha; unfold whitespace_prefix.
  assert (H1 : forall b c, whitespace_1 (Ascii.N_of_ascii a) = false /\ whitespace_2 (Ascii.N_of_ascii a) b = false /\ whitespace_3 (Ascii.N_of_ascii a) b c = false).
  { intros b c; unfold whitespace_1, whitespace_2, whitespace_3; repeat split; apply bool_decide_eq_false; lia. }
  destruct s as [|b [|c s]]; cbn; destruct (H1 0 0) as [-> _]; [done|..];
    (destruct (H1 (Ascii.N_of_ascii b) 0) as (_ & -> & _)); [done|].
  by destruct (H1 (Ascii.N_of_ascii b) (Ascii.N_of_ascii c)) as (_ & _ & ->).
Qed.
Lemma trim_plain s : str_all (fun a => bool_decide (33 <= Ascii.N_of_ascii a < 128)) s = true -> trim s = s.
Proof.
  intros Hs; unfold trim.
  assert (Hstart : forall s, str_all (fun a => bool_decide (33 <= Ascii.N_of_ascii a < 128)) s = true -> trim_whitespace_start 0 s = s).
  { intros [|a s']; [done|]; intros [Ha%bool_decide_eq_true _]%andb_true_iff; cbn [trim_whitespace_start]; by rewrite plain_is_no_space. }
  rewrite Hstart by done; induction s as [|a s IH]; [done|]; cbn [trim_whitespace_end]; rewrite Hstart by done; cbn.
  f_equal; apply IH; by apply andb_true_iff in Hs as [_ Hs].
Qed.

Lemma sid_trim s : is_sid s -> trim s = s.
Proof. intros [_ Hs]; apply trim_plain; revert Hs; apply str_all_impl; intros a Ha%sid_char_plain; apply bool_decide_eq_true; lia. Qed.
Lemma sid_line s : is_sid s -> str_all line_char s = true.
Proof.
  intros [_ Hs]; revert Hs; apply str_all_impl; intros a Ha%sid_char_plain; unfold line_char; apply andb_true_iff; split.
  - apply negb_true_iff, bool_decide_eq_false; intros ->; cbn in Ha; lia.
  - apply negb_true_iff; destruct (in_range 13 13 a) eqn:E; [|done]; apply in_range_spec in E; lia.
Qed.
Lemma split_lines_last cur s : str_all line_char s = true -> cur +:+ s <> "" -> split_lines cur s = [cur +:+ s].
Proof.
  revert cur; induction s as [|a s IH]; intros cur Hs Hne; cbn [split_lines].
  - rewrite string_app_nil_r in *. by rewrite decide_False.
  - apply andb_true_iff in Hs as [[Ha _]%andb_true_iff Hs]; apply negb_true_iff, bool_decide_eq_false in Ha; rewrite decide_False by done.
    rewrite IH; rewrite <- ?string_app_assoc, ?string_app_cons, ?string_app_nil_l; done.
Qed.
Lemma sid_not_empty s : is_sid s -> s <> "".
Proof. by intros [Hs _] ->. Qed.
Lemma join_lines_read entries : Forall is_sid entries -> str_lines (join_lines entries) = entries.
Proof.
  induction 1 as [|e [|e' rest] He Hr IH]; [done| |].
  - unfold str_lines; cbn. rewrite split_lines_last; rewrite ?string_app_nil_l; by eauto using sid_line, sid_not_empty.
  - change (join_lines (e :: e' :: rest)) with (e +:+ String newline (join_lines (e' :: rest))).
    by rewrite str_lines_line, IH by (by apply sid_line).
Qed.
Lemma entries_read_back entries : Forall is_sid entries -> acl_entries (join_lines entries) = entries.
Proof.
  intros Hs; unfold acl_entries; rewrite join_lines_read by done; induction Hs as [|e entries He Hs IH]; [done|]; cbn [map].
  rewrite sid_trim by done; rewrite filter_cons_True by apply He. by f_equal.
Qed.
Lemma elem_of_insert_entry x e l : x ∈ insert_entry e l <-> x = e \/ x ∈ l.
Proof.
  induction l as [|y l IH]; cbn; [set_solver|]; destruct (String.ltb e y); [set_solver|].
  case_decide; [subst; set_solver|]; rewrite !elem_of_cons, IH; tauto.
Qed.
Lemma elem_of_sorted x l : x ∈ foldr insert_entry [] l <-> x ∈ l.
Proof. induction l as [|e l IH]; cbn; [done|]. by rewrite elem_of_insert_entry, elem_of_cons, IH. Qed.

(** An installation keeps the access of everyone: the list written for a user
    reads back as the one that was there with this user, whatever number of installations
    wrote it before. *)
Theorem the_access_list_keeps_its_users user listed x :
  is_sid user -> Forall is_sid listed ->
  let written := join_lines (insert_entry user (foldr insert_entry [] (acl_entries (join_lines listed)))) in
  x ∈ acl_entries written <-> x = user \/ x ∈ listed.
Proof.
  intros Hu Hl; cbn; rewrite (entries_read_back listed) by done; rewrite entries_read_back.
  - by rewrite elem_of_insert_entry, elem_of_sorted.
  - apply Forall_forall; intros y [->|Hy]%elem_of_insert_entry; [done|].
    rewrite elem_of_sorted in Hy; rewrite Forall_forall in Hl. by apply Hl.
Qed.

(** ** A host *)

(** A service that is there or not, and runs or not; everyone is root. *)
Definition demo_body : StatusResBody :=
  {| srb_version := "2";
     srb_core_infos := {| ci_instance_id := None; ci_type := None; ci_state := WStopped None; ci_state_changed_at := 0; ci_config_path := None;
                          ci_controller := None; ci_health := None; ci_revision := None; ci_detail := None |};
     srb_runtime_infos := {| ri_service_data_dir := ""; ri_service_config_dir := ""; ri_nyanpasu_config_dir := ""; ri_nyanpasu_data_dir := "" |} |}.
Definition demo_host : CommandHost ManagedStatus N := {|
  ch_os := Linux; ch_name := "chimera-service"; ch_version := "3"; ch_version_parse := parse_u64;
  ch_version_show := show_N; ch_version_gt := fun a b => (b <? a)%N; ch_program_data := None;
  ch_is_elevated := fun h => (Ok true, h); ch_username := fun h => ("root", h);
  ch_native := fun h => (Ok tt, h); ch_available := fun h => (Ok true, h); ch_status := fun h => (Ok h, h);
  ch_start := fun _ => (Ok tt, SsRunning); ch_stop := fun _ => (Ok tt, SsStopped None);
  ch_stop_in_time := fun _ => (WithinTime (Ok tt), SsStopped None);
  ch_install := fun _ _ => (Ok tt, SsStopped None); ch_uninstall := fun _ => (Ok tt, SsNotInstalled);
  ch_exists := fun _ h => (true, h); ch_is_file := fun _ h => (true, h); ch_create_dir_all := fun _ h => (Ok tt, h);
  ch_copy := fun _ _ h => (Ok tt, h); ch_create := fun _ h => (Ok tt, h); ch_read := fun _ h => (Ok "", h);
  ch_truncate_write := fun _ _ h => (Ok tt, h); ch_set_file_acl := fun _ _ h => (Ok tt, h);
  ch_security_descriptor := fun _ => Ok ""; ch_current_exe := fun h => (Ok "/tmp/new", h); ch_home := fun h => (Some "/root", h);
  ch_processes := fun h => ([], h); ch_own_pid := 1; ch_kill := fun _ h => (tt, h); ch_output := fun _ h => (Ok (true, "chimera"), h);
  ch_init_logging := fun _ _ h => (Ok tt, h); ch_sleep := fun _ h => (tt, h); ch_late := fun _ h => (false, h);
  ch_send := fun _ _ _ h => (200, Some (StatusBody (success 0 demo_body)), h); ch_serve := fun _ h => (Ok tt, h) |}.
#[local] Existing Instance demo_host.
Definition restart_cli : Cli := {| cli_verbose := false; cli_version := false; cli_command := Some Restart |}.
Lemma success_was_seen_witness : exists evs, main restart_cli SsRunning = (0, SsRunning, evs) /\ ended (fun s => s = SsRunning) evs.
Proof. eexists; split; [vm_compute; reflexivity|]. by apply (success_was_seen restart_cli SsRunning SsRunning). Defined.

Definition status_cli : Cli := {| cli_verbose := false; cli_version := false; cli_command := Some (Status {| stc_json := true; stc_skip_service_check := false |}) |}.
Lemma unprivileged_runs_change_nothing_witness : exists evs, main status_cli SsRunning = (0, SsRunning, evs) /\ Forall harmless evs.
Proof.
  eexists; split; [vm_compute; reflexivity|].
  by apply (unprivileged_runs_change_nothing status_cli SsRunning 0 SsRunning); [vm_compute|left].
Defined.

Definition plain_update : UpdateCommand := {| uc_check := false; uc_from := None |}.
Definition update_before : list Effect :=
  [ERequest VGet STATUS_ENDPOINT; EVersion (Some "2"); ESaw SsRunning; EStop; ESleep 3; ESaw (SsStopped None)].
Definition update_behind : list Effect := [ESaw (SsStopped None); EStart; ESleep 3; ESaw SsRunning].
Lemma updates_replace_only_older_services_witness :
  cmd_update plain_update SsRunning = (Return (Ok tt), SsRunning, update_before ++ ECopy "/tmp/new" updated_binary :: update_behind) /\
  ended stopped update_before.
Proof.
  assert (E : cmd_update plain_update SsRunning
              = (Return (Ok tt), SsRunning, update_before ++ ECopy "/tmp/new" updated_binary :: update_behind)) by (vm_compute; reflexivity).
  split; [exact E|].
  by destruct (updates_replace_only_older_services plain_update SsRunning _ _ update_before "/tmp/new" updated_binary update_behind E) as (_ & _ & _ & _ & Hs).
Defined.

(** The same copy of a file that was asked for: the service told version 2, this
    program is version 3, and the version of the file is never asked for, so a file of
    version 1 takes the place of version 2. *)
Lemma any_file_is_copied_from path :
  cmd_update {| uc_check := false; uc_from := Some path |} SsRunning
  = (Return (Ok tt), SsRunning, update_before ++ ECopy path updated_binary :: update_behind).
Proof. reflexivity. Qed.

Lemma the_access_list_keeps_its_users_witness : is_sid "S-1-5-18" /\ "S-1-5-18" ∈ acl_entries (join_lines (insert_entry "S-1-5-21" (foldr insert_entry [] (acl_entries (join_lines ["S-1-5-18"]))))).
Proof.
  assert (Hs : is_sid "S-1-5-18") by (split; vm_compute; reflexivity).
  split; [done|]. apply (the_access_list_keeps_its_users "S-1-5-21" ["S-1-5-18"]); [split; vm_compute; reflexivity|by constructor|set_solver].
Defined.
