(* ===== verification/ServiceHost.v ===== *)
(** * The service as a process of its host

    [chimera_service/src/cmds/server.rs], [server/mod.rs], [server/logger.rs],
    [win_service.rs], [chimera_ipc/src/server/mod.rs] and the pid files of
    [chimera-utils/src/os/mod.rs]: a server starts behind the one before it, listens,
    and ends, in that order, by taking its core down.  Commands are those of
    [ServiceCommands]; the bridge behind [CoreManager] is [Bridge]'s. *)

From S2P Require Import Prelude Text Types PidRecord Executor ServiceCommands.
Open Scope rust_scope.
Open Scope cmd_scope.

(** ** The host of a server *)

Inductive SelectArm := ServerEnded (answer : result () string) | TokenCancelled | ControlExit (exit : ExecutorExit).
Record RuntimeDirs := {
  rd_service_data_dir : string;
  rd_service_config_dir : string;
  rd_config_dir : string;
  rd_data_dir : string;
  rd_app_dir : string;
}.
(** Paths are bytes, as the system has them.  [sh_exe] is the executable of a process,
    as its lossy text; [sh_shutdown] is [CoreManager::shutdown] once it returned. *)
Class ServerHost (H : Type) := {
  sh_read : string -> H -> option string * H;
  sh_write : string -> string -> H -> result () string * H;
  sh_remove : string -> H -> result () string * H;
  sh_exe : N -> H -> option (option string) * H;
  sh_kill_tree : N -> H -> result () string * H;
  sh_canonicalize : string -> H -> result string string * H;
  sh_controller_access : list string -> H -> result () string * H;
  sh_build : RuntimeDirs -> H -> result () string * H;
  sh_select : H -> SelectArm * H;
  sh_shutdown : H -> () * H;
  sh_drain : H -> InTime (result () string) * H;
}.

(** ** Pid files ([chimera-utils/src/os/mod.rs]) *)

(** [str::to_lowercase], of the letters that decide whether an executable contains one
    of the names asked for here. *)
Definition ascii_lower (a : Ascii.ascii) : Ascii.ascii :=
  let n := Ascii.N_of_ascii a in if bool_decide (65 <= n <= 90) then Ascii.ascii_of_N (n + 32) else a.
Fixpoint lowercase (s : string) : string :=
  match s with EmptyString => EmptyString | String a s => String (ascii_lower a) (lowercase s) end.
(** [u32::from_str]. *)
Definition parse_pid (s : string) : option N := from_str_radix 10 (u32_max + 1) s.

Section PidFiles.
Context {H : Type} `{ServerHost H}.
#[local] Notation Cmd := (Cmd H).
Definition create_pid_file (path : string) (pid : N) : Cmd () :=
  doing_io (EWriteFile path (show_N pid)) (sh_write path (show_N pid)).
Definition pid_in_file (path : string) : Cmd (option N) :=
  run! content := ask (sh_read path) in cmd_ret (parse_pid (trim (default "" content))).
Definition matches (validator : option (list string)) (exe : option string) : bool :=
  match validator with
  | None => true
  | Some names => existsb (fun name => match exe with Some exe => str_contains name (lowercase exe) | None => false end) names
  end.
Definition pid_exists (pid : N) (validator : option (list string)) : Cmd bool :=
  run! process := ask (sh_exe pid) in
  cmd_ret match process with Some exe => matches validator exe | None => false end.
Definition kill_pid (pid : N) (validator : option (list string)) : Cmd () :=
  run! exists_ := pid_exists pid validator in
  when exists_ (doing_io (EKillTree pid) (sh_kill_tree pid)).
Definition kill_by_pid_file (path : string) (validator : option (list string)) : Cmd () :=
  run! pid := pid_in_file path in
  match pid with
  | None => cmd_ret tt
  | Some pid => kill_pid pid validator ;; doing_io (ERemove path) (sh_remove path)
  end.
End PidFiles.

(** ** The listener ([chimera_ipc/src/server/mod.rs], [utils]) *)

Inductive AcceptError := ConnectionRefused | ConnectionAborted | ConnectionReset | AcceptOther.
Definition is_connection_error (e : AcceptError) : bool :=
  match e with ConnectionRefused | ConnectionAborted | ConnectionReset => true | AcceptOther => false end.
(** The seconds slept. *)
Definition handle_accept_error (e : AcceptError) : list N := if is_connection_error e then [] else [1].
(** [None] while the attempts given brought no connection. *)
Fixpoint accept {Stream : Type} (attempts : list (result Stream AcceptError)) : list N * option Stream :=
  match attempts with
  | [] => ([], None)
  | Ok stream :: _ => ([], Some stream)
  | Err e :: attempts => let '(slept, stream) := accept attempts in (handle_accept_error e ++ slept, stream)
  end.

Section Listener.
Context {H V : Type} `{CommandHost H V} `{ServerHost H}.
(** The listener, bound with its name, its mode or its security descriptor. *)
Context (bind : string -> option string -> H -> result () string * H) (serve : H -> result () string * H).
#[local] Notation Cmd := (Cmd H).
Definition get_name_string (placeholder : string) : string :=
  match ch_os with
  | Windows => backslash +:+ backslash +:+ "." +:+ backslash +:+ "pipe" +:+ backslash +:+ placeholder
  | _ => "/var/run/" +:+ placeholder +:+ ".sock"
  end.
Definition remove_socket_if_exists (placeholder : string) : Cmd () :=
  let path := "/var/run/" +:+ placeholder +:+ ".sock" in
  run! present := ask (ch_exists path) in
  when present (doing_io (ERemove path) (sh_remove path)).
(** A program that could not be run is an error here. *)
Definition altered (argv : list string) (failure : string) : Cmd () :=
  run! answer := doing_io (EAlter argv) (ch_output argv) in
  if answer.1 : bool then cmd_ret tt else cmd_err (CmdIo failure).
Definition change_socket_group (placeholder : string) : Cmd () :=
  match ch_os with
  | Windows => cmd_ret tt
  | _ => altered ["chown"; "root:" +:+ NYANPASU_USER_GROUP; "/var/run/" +:+ placeholder +:+ ".sock"] "failed to change socket group"
  end.
Definition change_socket_mode (placeholder : string) : Cmd () :=
  match ch_os with
  | Windows => cmd_ret tt
  | _ => altered ["chmod"; "664"; "/var/run/" +:+ placeholder +:+ ".sock"] "failed to change socket mode"
  end.
Definition create_server (placeholder : string) (sids : list string) : Cmd () :=
  let name := get_name_string placeholder in
  match ch_os with Windows => cmd_ret tt | _ => remove_socket_if_exists placeholder end ;;
  run! descriptor := match ch_os with
                     | Windows => run! sddl := of_context "failed to generate sdsf" (ch_security_descriptor sids) in cmd_ret (Some sddl)
                     | _ => cmd_ret None
                     end in
  doing_io (EBind name) (bind name descriptor) ;;
  change_socket_group placeholder ;;
  change_socket_mode placeholder ;;
  doing_io EServing serve.
End Listener.

(** ** The server ([server/mod.rs], [cmds/server.rs]) *)

Section Server.
Context {H V : Type} `{CommandHost H V} `{ServerHost H}.
#[local] Notation Cmd := (Cmd H).

(** [drain]: a server that takes too long is abandoned. *)
Definition drain_server : Cmd () :=
  run! drained := doing EDrain sh_drain in
  match drained with
  | WithinTime answer => of_other answer
  | OutOfTime => cmd_ret tt
  end.
Definition shut_core_down : Cmd () := doing ECoreShutdown sh_shutdown.
(** The arms of the select. *)
Definition finish (arm : SelectArm) : Cmd () :=
  match arm with
  | ServerEnded answer => shut_core_down ;; of_other answer
  | TokenCancelled => shut_core_down ;; drain_server
  | ControlExit Died => shut_core_down ;; drain_server ;; cmd_err (CmdOther "the core control executor died")
  | ControlExit Clean => shut_core_down ;; drain_server
  end.
Definition utf8_path (path failure : string) : Cmd () :=
  if utf8_valid path then cmd_ret tt else cmd_err (CmdOther failure).
Definition run_server (runtime : RuntimeDirs) (sids : list string) : Cmd () :=
  utf8_path service_core_runtime_dir "core runtime dir is not UTF-8" ;;
  utf8_path (rd_data_dir runtime) "nyanpasu data dir is not UTF-8" ;;
  run! access := ask (sh_controller_access sids) in
  of_other access ;;
  run! built := ask (sh_build runtime) in
  of_other built ;;
  note EBuilt ;;
  run! arm := ask sh_select in
  finish arm.

Definition CORE_NAMES : list string := ["mihomo"; "clash"].
Definition canonical (path : string) : Cmd string := run! answer := ask (sh_canonicalize path) in of_io answer.
(** An error is logged and nothing more. *)
Definition tolerated {A} (m : Cmd A) : Cmd () :=
  fun h => match m h with
           | (Return _, h, evs) => (Return (Ok tt), h, evs)
           | (Panicked message, h, evs) => (Panicked message, h, evs)
           end.
Definition server_inner (ctx : ServerContext) : Cmd () :=
  kill_by_pid_file service_pid_file (Some CORE_NAMES) ;;
  run! config_dir := canonical (sx_config_dir ctx) in
  run! data_dir := canonical (sx_data_dir ctx) in
  run! app_dir := canonical (sx_app_dir ctx) in
  run! service_config := service_config_dir in
  ensure_dir service_data_dir ;;
  ensure_dir service_config ;;
  tolerated (create_pid_file service_pid_file ch_own_pid) ;;
  run! sids := match ch_os with Windows => read_acl_file | _ => cmd_ret [] end in
  run_server {| rd_service_data_dir := service_data_dir; rd_service_config_dir := service_config; rd_config_dir := config_dir;
                rd_data_dir := data_dir; rd_app_dir := app_dir |} sids.
End Server.

(** ** The buffer of the log ([server/logger.rs]) *)

Definition LOG_BUFFER : nat := 100.
(** [BoundedVecDeque::push_back]. *)
Definition push_bounded {A} (capacity : nat) (a : A) (buffer : list A) : list A :=
  if bool_decide (length buffer < capacity)%nat then buffer ++ [a] else drop 1 buffer ++ [a].
Inductive LoggerCall := LWrite (text : string) | LRetrieve | LInspect.
(** The buffer behind a call, and what it answered. *)
Definition logger_call (call : LoggerCall) (buffer : list string) : list string * list string :=
  match call with
  | LWrite text => (push_bounded LOG_BUFFER text buffer, [])
  | LRetrieve => ([], buffer)
  | LInspect => (buffer, buffer)
  end.
Fixpoint logger_calls (calls : list LoggerCall) (buffer : list string) : list string :=
  match calls with [] => buffer | call :: calls => logger_calls calls (logger_call call buffer).1 end.
(** What was written since the buffer was last taken. *)
Fixpoint written (calls : list LoggerCall) (since : list string) : list string :=
  match calls with
  | [] => since
  | LWrite text :: calls => written calls (since ++ [text])
  | LRetrieve :: calls => written calls []
  | LInspect :: calls => written calls since
  end.

(** ** The service of Windows ([win_service.rs]) *)

Inductive ServiceState := StRunning | StStopPending | StStopped.
Inductive ServiceControl := Interrogate | ControlStop | Preshutdown | ControlOther.
(** Whether the token is cancelled, and whether the control is implemented. *)
Definition event_handler (control : ServiceControl) : bool * bool :=
  match control with
  | Interrogate => (false, true)
  | ControlStop | Preshutdown => (true, true)
  | ControlOther => (false, false)
  end.
Record WinRun := {
  wr_register : result () string;
  wr_running : result () string;
  wr_controls : list ServiceControl;
  wr_pending : result () string;
  wr_server_token : bool;       (* the server has left its token when the stop looks for it *)
  wr_ended_alone : bool;        (* the handler ended, or ends, without being asked to *)
  wr_handler_panics : bool;
}.
Inductive WinEnd := WeReturned (answer : result () string) | WePanicked | WeWaiting | WeJoining.
Definition cancelled (controls : list ServiceControl) : bool := existsb (fun c => (event_handler c).1) controls.
(** The states the service manager was told, whether the server was cancelled, and how
    the run ended: [WeWaiting] for a stop, [WeJoining] a server that was never told. *)
Definition run_service (w : WinRun) : list ServiceState * bool * WinEnd :=
  match wr_register w with
  | Err e => ([], false, WeReturned (Err e))
  | Ok _ =>
      match wr_running w with
      | Err e => ([], false, WeReturned (Err e))
      | Ok _ =>
          if negb (cancelled (wr_controls w)) then ([StRunning], false, WeWaiting)
          else match wr_pending w with
          | Err e => ([StRunning; StStopped], false, WeReturned (Err e))
          | Ok _ =>
              if wr_server_token w || wr_ended_alone w then
                ([StRunning; StStopPending; StStopped], wr_server_token w,
                 if wr_handler_panics w then WePanicked else WeReturned (Ok tt))
              else ([StRunning; StStopPending], false, WeJoining)
          end
      end
  end.

(** ** Lemmas *)

Lemma only_does_tolerated {H A} (P : Effect -> Prop) (m : Cmd H A) : only_does P m -> only_does P (tolerated m).
Proof. intros Hm h; unfold tolerated; specialize (Hm h); by destruct (m h) as [[[|] ?] ?]. Qed.
Ltac server_walk :=
  unfold kill_by_pid_file, pid_in_file, kill_pid, pid_exists, create_pid_file, read_acl_file, acl_path, service_config_dir, utf8_path;
  repeat first [progress effects_walk | apply only_does_tolerated].

Section Runs.
Context {H V : Type} `{CommandHost H V} `{ServerHost H}.
#[local] Notation Cmd := (Cmd H).

Lemma bind_run {A B} (m : Cmd A) (k : A -> Cmd B) h b h' evs :
  cmd_bind m k h = (b, h', evs) ->
  exists a h1 e1, m h = (a, h1, e1) /\
    match a with
    | Return (Ok x) => exists e2, k x h1 = (b, h', e2) /\ evs = e1 ++ e2
    | _ => evs = e1 /\ forall y, b <> Return (Ok y)
    end.
Proof.
  unfold cmd_bind; destruct (m h) as [[[[x|]|] h1] e1]; intros E; eexists _, _, _; split; try done; cbn.
  - destruct (k x h1) as [[c h2] e2]; injection E as -> -> <-; eauto.
  - by injection E as <- _ <-.
  - by injection E as <- _ <-.
Qed.


(** Before the manager is there. *)
Definition early (e : Effect) : Prop := match e with EBuilt | ECoreShutdown | EDrain => False | _ => True end.
Definition core_taken_down (a : Answer ()) (evs : list Effect) : Prop :=
  (Forall early evs /\ a <> Return (Ok tt)) \/
  exists before arm h rest,
    evs = before ++ EBuilt :: ECoreShutdown :: rest /\ Forall early before /\ (rest = [] \/ rest = [EDrain]) /\
    (sh_select h).1 = arm /\ (a = Return (Ok tt) -> arm <> ControlExit Died).
Definition takes_core_down (m : Cmd ()) : Prop := forall h a h' evs, m h = (a, h', evs) -> core_taken_down a evs.
Lemma takes_core_down_bind {A} (m : Cmd A) (k : A -> Cmd ()) :
  only_does early m -> (forall x, takes_core_down (k x)) -> takes_core_down (cmd_bind m k).
Proof.
  intros Hm Hk h a h' evs (x & h1 & e1 & E1 & Hx)%bind_run; specialize (Hm h); rewrite E1 in Hm; cbn in Hm.
  destruct x as [[x|]|]; [|destruct Hx as [-> Ha]; left; split; [done|apply Ha]..].
  destruct Hx as (e2 & E2 & ->); destruct (Hk x _ _ _ _ E2) as [[He Ha]|(before & arm & h2 & rest & -> & He & Hr)].
  - left; split; [by apply Forall_app|done].
  - right; exists (e1 ++ before), arm, h2, rest; rewrite <- app_assoc; split; [done|]. by split; [apply Forall_app|].
Qed.
Lemma finish_effects arm h a h' evs :
  finish arm h = (a, h', evs) ->
  (evs = [ECoreShutdown] \/ evs = [ECoreShutdown; EDrain]) /\ (a = Return (Ok tt) -> arm <> ControlExit Died).
Proof.
  unfold finish, shut_core_down, drain_server, doing, note, ask, cmd_bind, of_other, cmd_err, cmd_ret.
  destruct arm as [[]| |[]], (sh_shutdown h) as [? h1]; cbn; [..|destruct (sh_drain h1) as [[|[]] ?]|destruct (sh_drain h1) as [[|[]] ?]|destruct (sh_drain h1) as [[|[]] ?]];
    cbn; intros E; injection E as <- _ <-; auto.
Qed.
Lemma run_server_takes_core_down runtime sids : takes_core_down (run_server runtime sids).
Proof.
  unfold run_server; do 6 (apply takes_core_down_bind; [server_walk|intros ?]).
  intros h a h' evs E; unfold cmd_bind, note, ask in E; destruct (sh_select h) as [arm h1] eqn:Es.
  destruct (finish arm h1) as [[b h2] e2] eqn:Ef; injection E as -> -> <-.
  apply finish_effects in Ef as [He Ha]; right; exists [], arm, h.
  destruct He as [-> | ->]; eexists; split; try done; rewrite Es; auto.
Qed.
End Runs.

Lemma push_bounded_lastn {A} n (a : A) (l : list A) :
  (0 < n)%nat -> push_bounded n a (drop (length l - n) l) = drop (length (l ++ [a]) - n) (l ++ [a]).
Proof.
  intros Hn; unfold push_bounded; rewrite length_drop, length_app; cbn; case_bool_decide as Hlt.
  - rewrite drop_app_le by lia. by replace (length l + 1 - n)%nat with (length l - n)%nat by lia.
  - rewrite drop_app_le by lia. rewrite drop_drop. do 2 f_equal. lia.
Qed.
Lemma logger_calls_written calls since :
  logger_calls calls (drop (length since - LOG_BUFFER) since) = drop (length (written calls since) - LOG_BUFFER) (written calls since).
Proof.
  revert since; induction calls as [|[text| |] calls IH]; intros since; cbn [logger_calls logger_call written fst]; [done|..|apply IH].
  - rewrite push_bounded_lastn by (unfold LOG_BUFFER; lia). apply IH.
  - by apply (IH []).
Qed.

(** ** What a server promises *)

Section Promises.
Context {H V : Type} `{CommandHost H V} `{ServerHost H}.

(** C26: Whatever ends a server that had built its manager, its core is taken down,
    once and next, and connections are waited for only behind that; a server that ended
    well had built it, and was not ended by the death of its control plane. *)
Theorem the_core_goes_down_first ctx h a h' evs :
  server_inner ctx h = (a, h', evs) ->
  (Forall early evs /\ a <> Return (Ok tt)) \/
  exists before arm h1 rest,
    evs = before ++ EBuilt :: ECoreShutdown :: rest /\ Forall early before /\ (rest = [] \/ rest = [EDrain]) /\
    (sh_select h1).1 = arm /\ (a = Return (Ok tt) -> arm <> ControlExit Died).
Proof.
  assert (Ht : takes_core_down (server_inner ctx)); [|apply Ht].
  unfold server_inner, canonical; do 9 (apply takes_core_down_bind; [server_walk|intros ?]); apply run_server_takes_core_down.
Qed.

(** Behind a pid file only the process it names is killed, and only while its
    executable is one of those asked for; the file goes with it, also when the process
    it names is not one of them. *)
Theorem only_the_named_process_is_killed path validator h a h' evs :
  kill_by_pid_file path validator h = (a, h', evs) ->
  match parse_pid (trim (default "" (sh_read path h).1)) with
  | None => evs = [] /\ a = Return (Ok tt)
  | Some pid =>
      let process := (sh_exe pid (sh_read path h).2).1 in
      let wanted := match process with Some exe => matches validator exe | None => false end in
      (evs = (if wanted then [EKillTree pid] else []) ++ [ERemove path]) \/
      (wanted = true /\ evs = [EKillTree pid] /\ a <> Return (Ok tt))
  end.
Proof.
  unfold kill_by_pid_file, pid_in_file, kill_pid, pid_exists, doing_io, doing, note, ask, when, of_io, cmd_bind.
  destruct (sh_read path h) as [content h1]; cbn; destruct (parse_pid _) as [pid|]; cbn; [|by intros E; injection E as <- _ <-].
  destruct (sh_exe pid h1) as [process h2]; cbn.
  destruct (match process with Some exe => matches validator exe | None => false end); cbn.
  - destruct (sh_kill_tree pid h2) as [[] h3]; cbn; [|intros E; injection E as <- _ <-; by right].
    destruct (sh_remove path h3) as [[] h4]; cbn; intros E; injection E as _ _ <-; by left.
  - destruct (sh_remove path h2) as [[] h3]; cbn; intros E; injection E as _ _ <-; by left.
Qed.
End Promises.

(** The buffer holds the last hundred lines since it was taken, in order. *)
Theorem the_buffer_is_the_recent_log calls :
  logger_calls calls [] = drop (length (written calls []) - LOG_BUFFER) (written calls []).
Proof. by rewrite <- (logger_calls_written calls []). Qed.

(** A server was told to be running is told to have stopped whenever the run ends; while
    no stop was asked for, it does not end. *)
Theorem windows_is_told_the_end w :
  let '(told, _, end_) := run_service w in
  match end_ with
  | WeReturned _ | WePanicked => StRunning ∈ told -> last told = Some StStopped
  | WeWaiting => cancelled (wr_controls w) = false
  | WeJoining => wr_server_token w = false /\ wr_ended_alone w = false
  end.
Proof.
  unfold run_service; destruct (wr_register w), (wr_running w), (cancelled (wr_controls w)) eqn:Ec, (wr_pending w); cbn; try set_solver; try done.
  destruct (wr_server_token w), (wr_ended_alone w), (wr_handler_panics w); cbn; done.
Qed.

(** The socket of a Unix host is served only behind its group and its mode. *)
Section Listening.
Context {H V : Type} `{CommandHost H V} `{ServerHost H}.
Theorem nobody_is_served_before_the_mode bind serve placeholder sids h a h' evs :
  ch_os <> Windows -> create_server bind serve placeholder sids h = (a, h', evs) -> EServing ∈ evs ->
  exists before,
    evs = before ++ [EBind (get_name_string placeholder);
                     EAlter ["chown"; "root:" +:+ NYANPASU_USER_GROUP; "/var/run/" +:+ placeholder +:+ ".sock"];
                     EAlter ["chmod"; "664"; "/var/run/" +:+ placeholder +:+ ".sock"];
                     EServing] /\
    Forall (fun e => e = ERemove ("/var/run/" +:+ placeholder +:+ ".sock")) before.
Proof.
  intros Hos; unfold create_server, change_socket_group, change_socket_mode, altered, remove_socket_if_exists, doing_io, doing, note, ask, of_io,
    when, cmd_bind, cmd_ret, cmd_err.
  destruct ch_os; [| |done]; (destruct (ch_exists _ h) as [[] h1]; cbn; [destruct (sh_remove _ h1) as [[] h2]; cbn|]);
    repeat match goal with
    | |- context [bind ?n ?d ?x] => destruct (bind n d x) as [[] ?]; cbn
    | |- context [ch_output ?v ?x] => destruct (ch_output v x) as [[[[] ?]|] ?]; cbn
    | |- context [serve ?x] => destruct (serve x) as [[] ?]; cbn
    end;
    intros E Hin; injection E as _ _ <-; try (exfalso; set_solver);
    (by exists []) || (by eexists [_]; split; [reflexivity|repeat constructor]).
Qed.
End Listening.

(** A service is not among the programs a server starts behind: the one in front of it
    is left running, and its pid file is gone. *)
Lemma a_service_outlives_its_pid_file : matches (Some CORE_NAMES) (Some "/usr/bin/chimera-service") = false.
Proof. vm_compute. reflexivity. Qed.
(** A stop that comes before the server has its token is not heard. *)
Definition early_stop : WinRun :=
  {| wr_register := Ok tt; wr_running := Ok tt; wr_controls := [ControlStop]; wr_pending := Ok tt; wr_server_token := false;
     wr_ended_alone := false; wr_handler_panics := false |}.
Lemma an_early_stop_is_lost : run_service early_stop = ([StRunning; StStopPending], false, WeJoining).
Proof. reflexivity. Qed.

#[local] Existing Instance demo_host.
Definition demo_server : ServerHost ManagedStatus := {|
  sh_read := fun _ h => (Some "7", h); sh_write := fun _ _ h => (Ok tt, h); sh_remove := fun _ h => (Ok tt, h);
  sh_exe := fun _ h => (Some (Some "/opt/Mihomo"), h); sh_kill_tree := fun _ h => (Ok tt, h); sh_canonicalize := fun path h => (Ok path, h);
  sh_controller_access := fun _ h => (Ok tt, h); sh_build := fun _ h => (Ok tt, h); sh_select := fun h => (TokenCancelled, h);
  sh_shutdown := fun h => (tt, h); sh_drain := fun h => (OutOfTime, h) |}.
#[local] Existing Instance demo_server.
Definition demo_context : ServerContext := {| sx_config_dir := "/c"; sx_data_dir := "/d"; sx_app_dir := "/a"; sx_service := true |}.
Lemma the_core_goes_down_first_witness :
  (server_inner demo_context SsRunning).1 = (Return (Ok tt), SsRunning) /\
  exists before rest, (server_inner demo_context SsRunning).2 = before ++ EBuilt :: ECoreShutdown :: rest.
Proof.
  assert (E : (server_inner demo_context SsRunning).1 = (Return (Ok tt), SsRunning)) by (vm_compute; reflexivity).
  split; [exact E|]. destruct (server_inner demo_context SsRunning) as [[a h'] evs] eqn:Er; cbn in *; injection E as -> ->.
  destruct (the_core_goes_down_first demo_context SsRunning _ _ _ Er) as [[_ Hne]|(before & arm & h1 & rest & -> & _)]; [by destruct Hne|by eauto].
Defined.
Lemma only_the_named_process_is_killed_witness :
  (kill_by_pid_file service_pid_file (Some CORE_NAMES) SsRunning).2 = [EKillTree 7; ERemove service_pid_file].
Proof.
  destruct (kill_by_pid_file service_pid_file (Some CORE_NAMES) SsRunning) as [[a h'] evs] eqn:Er.
  pose proof (only_the_named_process_is_killed service_pid_file (Some CORE_NAMES) SsRunning _ _ _ Er) as Hw; cbn in Er, Hw.
  injection Er as <- _ <-. by destruct Hw as [?|(_ & _ & ?)].
Defined.
Lemma nobody_is_served_before_the_mode_witness :
  exists before, (create_server (fun _ _ h => (Ok tt, h)) (fun h => (Ok tt, h)) "x" [] SsRunning).2 = before ++ [EServing].
Proof.
  destruct (create_server (fun _ _ h => (Ok tt, h)) (fun h => (Ok tt, h)) "x" [] SsRunning) as [[a h'] evs] eqn:Er.
  assert (Hos : @ch_os ManagedStatus N demo_host <> Windows) by (cbn; discriminate).
  assert (Hin : EServing ∈ evs) by (cbn in Er; injection Er as _ _ <-; set_solver).
  destruct (nobody_is_served_before_the_mode (fun _ _ h => (Ok tt, h)) (fun h => (Ok tt, h)) "x" [] SsRunning _ _ _ Hos Er Hin)
    as (before & -> & _).
  eexists (before ++ [_; _; _]). by rewrite <- app_assoc.
Defined.
