(* ===== verification/LegacyInstance.v ===== *)
(** * The core instance of the utilities

    [chimera-utils/src/core/instance.rs], [core/utils.rs] and [os/child.rs]: the runner
    of one core that the utilities export beside the process engine.  The command line
    and the dry run of a configuration, what the output of a dry run is cut down to,
    the end of a core in a bounded number of looks, and the threads that keep the
    state of an instance. *)

From stdpp Require Import relations.
From S2P Require Import Prelude Text Paths Wire.
Open Scope rust_scope.

(** ** The command line *)

Definition clash_rs_like (core_type : CoreType) : bool :=
  match core_type with
  | TClash (TClashRust | TClashRustAlpha | TChimeraClient | TChimeraClientAlpha) => true
  | _ => false
  end.
Definition core_command_args (core_type : CoreType) (app_dir config_path : string) (include_mihomo_mode : bool) : outcome (list string) :=
  let mode := match core_type with
              | TClash (TMihomo | TMihomoAlpha) => if include_mihomo_mode then ["-m"] else []
              | _ => []
              end in
  match core_type with
  | TSingBox => Panicked "not implemented: SingBox is not supported yet"
  | _ => Return (mode ++ ["-d"; app_dir] ++ [if clash_rs_like core_type then "-c" else "-f"; config_path])
  end.
Definition core_config_check_args (core_type : CoreType) (app_dir config_path : string) : outcome (list string) :=
  match core_command_args core_type app_dir config_path false with
  | Return args => Return ("-t" :: args)
  | Panicked message => Panicked message
  end.
Definition get_mihomo_safe_paths (windows : bool) (app_dir config_dir : string) (other_paths : option (list string)) : string :=
  str_join (if windows then ";" else ":") ([app_dir; config_dir] ++ default [] other_paths).

(** ** The builder *)

Inductive PathKind := PFile | PDir | POther.
Record LegacyBuilder := {
  ib_core_type : option CoreType;
  ib_binary_path : option string;
  ib_app_dir : option string;
  ib_config_path : option string;
  ib_pid_path : option string;
}.
(** What a path is, if it exists. *)
Definition instance_validate (kind : string -> option PathKind) (self : LegacyBuilder) : result () string :=
  let? _ := match ib_binary_path self with
            | None => Err "binary_path is required"
            | Some path => match kind path with
                           | None | Some PDir => Err ("binary_path " +:+ path +:+ " does not exist or is a directory")
                           | _ => Ok tt
                           end
            end in
  let? _ := match ib_app_dir self with
            | None => Err "app_dir is required"
            | Some path => match kind path with
                           | Some PDir => Ok tt
                           | _ => Err ("app_dir " +:+ path +:+ " does not exist or is not a directory")
                           end
            end in
  let? _ := match ib_config_path self with
            | None => Err "config_path is required"
            | Some path => match kind path with
                           | Some PFile => Ok tt
                           | _ => Err ("config_path " +:+ path +:+ " does not exist or is not a file")
                           end
            end in
  let? _ := ok_or (ib_pid_path self) "pid_path is required" in
  let? _ := ok_or (ib_core_type self) "core_type is required" in
  Ok tt.

(** ** The output of a dry run ([core/utils.rs]) *)

Definition quote_mark : string := String (Ascii.ascii_of_N 34) "".
(** [str::find] and [str::rfind], in bytes. *)
Definition str_find (p s : string) : option nat := (fun '(l, _) => String.length l) <$> split_once p s.
Definition str_rfind (p s : string) : option nat := (fun '(l, _) => String.length l) <$> rsplit_once p s.
(** [s[a..b]]. *)
Definition slice (s : string) (a b : nat) : outcome string :=
  if bool_decide (a <= b <= String.length s)%nat && is_char_boundary s a && is_char_boundary s b
  then Return (String.substring a (b - a) s)
  else Panicked "byte index out of range".
Definition parse_check_output (log : string) : outcome string :=
  let by_error :=
    match str_find "error=" log, default (String.length log) (str_find "path=" log) with
    | Some l, S r => slice log (l + 6) r
    | Some _, O => Panicked "attempt to subtract with overflow"
    | None, _ => Return log
    end in
  match str_find "time=" log, str_find "msg=" log, str_rfind quote_mark log with
  | Some _, Some m, Some mr =>
      let e := match str_find "level=error msg=" log with Some e => (e + 17)%nat | None => (m + 5)%nat end in
      if bool_decide (m < mr)%nat then slice log e mr else by_error
  | _, _, _ => by_error
  end.

Inductive InstanceError := CiIo (text : string) | CfgFailed (text : string) | StateCheckFailed.
(** A program, its arguments and its environment; whether it succeeded, and what it
    printed. *)
Record CheckRun := { ck_program : string; ck_args : list string; ck_env : string * string }.
Section Check.
Context (windows : bool) (output : CheckRun -> result (bool * string * string) string).
Definition LEGACY_SAFE_PATHS_ENV : string := "SAFE_PATHS".
Definition check_config_ (core_type : CoreType) (config_path binary_path app_dir : string) : outcome (result () InstanceError) :=
  match parent config_path with
  | None => Panicked "config_path is not a file"
  | Some config_dir =>
      match core_config_check_args core_type app_dir config_path with
      | Panicked message => Panicked message
      | Return args =>
          match output {| ck_program := binary_path; ck_args := args;
                          ck_env := (LEGACY_SAFE_PATHS_ENV, get_mihomo_safe_paths windows app_dir config_dir None) |} with
          | Err e => Return (Err (CiIo e))
          | Ok (true, _, _) => Return (Ok tt)
          | Ok (false, stdout, stderr) =>
              if clash_rs_like core_type then Return (Err (CfgFailed (stdout +:+ String Text.newline stderr)))
              else match parse_check_output stdout with
                   | Return text => Return (Err (CfgFailed text))
                   | Panicked message => Panicked message
                   end
          end
      end
  end.
Record CoreInstance := { in_core_type : CoreType; in_binary_path : string; in_app_dir : string; in_config_path : string }.
Definition check_config (self : CoreInstance) (config : option string) : outcome (result () InstanceError) :=
  check_config_ (in_core_type self) (default (in_config_path self) config) (in_binary_path self) (in_app_dir self).
End Check.

(** ** The end of a core ([kill], [os/child.rs])

    [looks n] is what the [n]th [try_wait] says: whether the child has ended, and how;
    [CiIo] is a look that failed. *)
Section Kill.
Context (looks : nat -> result (option bool) string).
(** A loop of looks, a tenth of a second apart: the number of the look behind it, and
    whether the child was seen to have ended.  A failed look is passed over in
    [gracefully_kill] and ends [kill]. *)
Fixpoint poll_past (tries n : nat) : nat * bool :=
  match tries with
  | O => (n, false)
  | S tries => match looks n with Ok (Some _) => (S n, true) | _ => poll_past tries (S n) end
  end.
Fixpoint poll_until (tries n : nat) : nat * result bool string :=
  match tries with
  | O => (n, Ok false)
  | S tries =>
      match looks n with
      | Ok (Some _) => (S n, Ok true)
      | Ok None => poll_until tries (S n)
      | Err e => (S n, Err e)
      end
  end.
Definition GRACE_LOOKS : nat := 30.
Definition CONFIRM_LOOKS : nat := 20.
Definition FORCE_LOOKS : nat := 30.
Definition gracefully_kill (signal : result () string) (n : nat) : nat * result () string :=
  match looks n with
  | Ok (Some _) => (S n, Ok tt)
  | _ =>
      match signal with
      | Err e => (S n, Err e)
      | Ok _ =>
          match poll_past GRACE_LOOKS (S n) with
          | (n, true) => (n, Ok tt)
          | (n, false) => (n, Err "Failed to gracefully kill child process")
          end
      end
  end.
Definition force_kill (force : result () string) (n : nat) : nat * result () InstanceError :=
  match force with
  | Err e => (n, Err (CiIo e))
  | Ok _ =>
      match poll_until FORCE_LOOKS n with
      | (n, Ok true) => (n, Ok tt)
      | (n, Ok false) => (n, Err (CiIo "Failed to kill instance: force kill timeout"))
      | (n, Err e) => (n, Err (CiIo e))
      end
  end.
(** [kill] of an instance: [joined] is whether the thread of the graceful kill could be
    joined; the number of looks, and the answer. *)
Definition kill (present joined : bool) (signal force : result () string) : nat * result () InstanceError :=
  if negb present then (0%nat, Err StateCheckFailed)
  else
    let '(n, graceful) := gracefully_kill signal 0 in
    let '(n, gracefully_terminated) :=
      if joined && is_ok graceful then poll_until CONFIRM_LOOKS n else (n, Ok false) in
    match gracefully_terminated with
    | Err e => (n, Err (CiIo e))
    | Ok true => (n, Ok tt)
    | Ok false => force_kill force n
    end.

Lemma poll_past_bound tries n : (n <= (poll_past tries n).1 <= n + tries)%nat.
Proof.
  revert n; induction tries as [|tries IH]; intros n; cbn; [lia|].
  pose proof (IH (S n)); destruct (looks n) as [[]|]; cbn; lia.
Qed.
Lemma poll_until_spec tries n :
  (n <= (poll_until tries n).1 <= n + tries)%nat /\
  ((poll_until tries n).2 = Ok true -> exists k status, looks k = Ok (Some status)).
Proof.
  revert n; induction tries as [|tries IH]; intros n; cbn; [split; [lia|done]|].
  destruct (IH (S n)) as [Hb He]; destruct (looks n) as [[]|] eqn:Hl; cbn; (split; [lia|]); eauto; done.
Qed.
Lemma gracefully_kill_bound signal : ((gracefully_kill signal 0).1 <= 31)%nat.
Proof.
  unfold gracefully_kill; pose proof (poll_past_bound GRACE_LOOKS 1) as Hb; unfold GRACE_LOOKS in *.
  destruct (looks 0) as [[]|], signal; cbn [fst]; try lia; destruct (poll_past 30 1) as [? []]; cbn in *; lia.
Qed.
Definition confirmed_within (bound : nat) (r : nat * result () InstanceError) : Prop :=
  (r.1 <= bound)%nat /\ (r.2 = Ok tt -> exists k status, looks k = Ok (Some status)).
Lemma force_kill_confirmed force n bound : (n + 30 <= bound)%nat -> confirmed_within bound (force_kill force n).
Proof.
  intros Hn; unfold force_kill; destruct force; [|split; [cbn; lia|done]].
  pose proof (poll_until_spec FORCE_LOOKS n) as [Hb Hs]; change FORCE_LOOKS with 30%nat in Hb at 3.
  destruct (poll_until FORCE_LOOKS n) as [m [[]|]]; (split; [cbn in *; lia|]); auto; done.
Qed.
(** A core is said to have ended only when it was seen to have, and every call of [kill]
    answers within eighty-one looks. *)
Theorem a_killed_core_was_seen_dead present joined signal force :
  let r := kill present joined signal force in
  (r.1 <= 81)%nat /\ (r.2 = Ok tt -> exists k status, looks k = Ok (Some status)).
Proof.
  assert (Hk : confirmed_within 81 (kill present joined signal force)); [|exact Hk].
  unfold kill; destruct present; [|split; [cbn; lia|done]]; cbv beta iota delta [negb].
  pose proof (gracefully_kill_bound signal) as Hg; destruct (gracefully_kill signal 0) as [n graceful]; cbn [fst] in Hg.
  pose proof (poll_until_spec CONFIRM_LOOKS n) as [Hb Hs]; change CONFIRM_LOOKS with 20%nat in Hb at 3.
  destruct (joined && is_ok graceful); [|apply force_kill_confirmed; lia].
  destruct (poll_until CONFIRM_LOOKS n) as [m [[]|]]; cbn [fst snd] in Hb, Hs;
    [split; [cbn; lia|auto]|apply force_kill_confirmed; lia|split; [cbn; lia|done]].
Qed.
End Kill.

(** ** The threads of an instance

    A child has two readers of its pipes, which hold the guard; a waiter, which takes it
    exclusively once the child has ended; and a look after a second and a half. *)
Inductive ReaderPhase := RIdle | RReading | RDone.
Inductive WaiterPhase := WWaiting | WTold.
Inductive LookPhase := CAsleep | CSawAlive | CMarked | COver.
Record Child := { c_alive : bool; c_stdout : ReaderPhase; c_stderr : ReaderPhase; c_waiter : WaiterPhase; c_check : LookPhase }.
(** [l_runs] calls of [run] have passed the check of the state and not spawned yet. *)
Record Legacy := { l_running : bool; l_instance : option nat; l_children : list Child; l_runs : nat }.
Definition legacy_initial : Legacy := {| l_running := false; l_instance := None; l_children := []; l_runs := 0 |}.
Definition new_child : Child := {| c_alive := true; c_stdout := RIdle; c_stderr := RIdle; c_waiter := WWaiting; c_check := CAsleep |}.
Definition with_child (i : nat) (c : Child) (s : Legacy) : Legacy :=
  {| l_running := l_running s; l_instance := l_instance s; l_children := <[i := c]> (l_children s); l_runs := l_runs s |}.
Definition with_running (running : bool) (s : Legacy) : Legacy :=
  {| l_running := running; l_instance := l_instance s; l_children := l_children s; l_runs := l_runs s |}.
Definition with_check (p : LookPhase) (c : Child) : Child :=
  {| c_alive := c_alive c; c_stdout := c_stdout c; c_stderr := c_stderr c; c_waiter := c_waiter c; c_check := p |}.
Definition with_readers (out err : ReaderPhase) (c : Child) : Child :=
  {| c_alive := c_alive c; c_stdout := out; c_stderr := err; c_waiter := c_waiter c; c_check := c_check c |}.
Definition dead (c : Child) : Child :=
  {| c_alive := false; c_stdout := c_stdout c; c_stderr := c_stderr c; c_waiter := c_waiter c; c_check := c_check c |}.
Definition told (c : Child) : Child :=
  {| c_alive := c_alive c; c_stdout := c_stdout c; c_stderr := c_stderr c; c_waiter := WTold; c_check := c_check c |}.
Definition reader_next (p : ReaderPhase) : option ReaderPhase :=
  match p with RIdle => Some RReading | RReading => Some RDone | RDone => None end.
Definition guard_free (c : Child) : bool :=
  match c_stdout c, c_stderr c with RReading, _ | _, RReading => false | _, _ => true end.

Inductive Label :=
| RunEntered | RunSpawned | RunFailed | Dies (i : nat) | StdoutMoves (i : nat) | StderrMoves (i : nat)
| WaiterStops (i : nat) | CheckLooks (i : nat) | CheckMarks (i : nat) | Killed.
Definition legacy_step (label : Label) (s : Legacy) : option Legacy :=
  match label with
  | RunEntered =>
      if l_running s then None
      else Some {| l_running := l_running s; l_instance := l_instance s; l_children := l_children s; l_runs := S (l_runs s) |}
  | RunSpawned =>
      match l_runs s with
      | O => None
      | S runs => Some {| l_running := l_running s; l_instance := Some (length (l_children s)); l_children := l_children s ++ [new_child]; l_runs := runs |}
      end
  | RunFailed =>
      match l_runs s with
      | O => None
      | S runs => Some {| l_running := l_running s; l_instance := l_instance s; l_children := l_children s; l_runs := runs |}
      end
  | Dies i => c ← l_children s !! i; if c_alive c then Some (with_child i (dead c) s) else None
  | StdoutMoves i => c ← l_children s !! i; p ← reader_next (c_stdout c); Some (with_child i (with_readers p (c_stderr c) c) s)
  | StderrMoves i => c ← l_children s !! i; p ← reader_next (c_stderr c); Some (with_child i (with_readers (c_stdout c) p c) s)
  | WaiterStops i =>
      c ← l_children s !! i;
      match c_waiter c with
      | WWaiting => if negb (c_alive c) && guard_free c then Some (with_running false (with_child i (told c) s)) else None
      | WTold => None
      end
  | CheckLooks i =>
      c ← l_children s !! i;
      match c_check c with CAsleep => Some (with_child i (with_check (if c_alive c then CSawAlive else COver) c) s) | _ => None end
  | CheckMarks i =>
      c ← l_children s !! i;
      match c_check c with CSawAlive => Some (with_running true (with_child i (with_check CMarked c) s)) | _ => None end
  | Killed =>
      i ← l_instance s; c ← l_children s !! i;
      if c_alive c then None
      else Some {| l_running := false; l_instance := None; l_children := l_children s; l_runs := l_runs s |}
  end.
Definition legacy_reachable (s : Legacy) : Prop := rtc (fun s s' => exists label, legacy_step label s = Some s') legacy_initial s.

Definition survived (c : Child) : Prop := c_check c = CMarked.
Lemma with_child_survives i c c' s :
  l_children s !! i = Some c -> (survived c -> survived c') -> Exists survived (l_children s) -> Exists survived (l_children (with_child i c' s)).
Proof.
  intros Hc Hs [x [(j & Hj)%list_elem_of_lookup Hx]]%Exists_exists; apply Exists_exists; cbn.
  destruct (decide (i = j)) as [->|Hne].
  - exists c'; split; [|rewrite Hc in Hj; injection Hj as ->; auto]. apply list_elem_of_lookup; exists j.
    apply list_lookup_insert_eq; by eapply lookup_lt_Some.
  - exists x; split; [|done]. apply list_elem_of_lookup; exists j. by rewrite list_lookup_insert_ne.
Qed.
Lemma started_survives c s : Exists survived (l_children s) -> Exists survived (l_children s ++ [c]).
Proof. intros Hs; apply Exists_app; by left. Qed.
Lemma legacy_step_survivors label s s' :
  legacy_step label s = Some s' -> (l_running s = true -> Exists survived (l_children s)) ->
  l_running s' = true -> Exists survived (l_children s').
Proof.
  intros E IH Hr; destruct label as [| | |i|i|i|i|i|i|]; cbn in E.
  1: by destruct (l_running s) eqn:Hs; simplify_eq/=.
  1,2: destruct (l_runs s); simplify_eq/=; auto using started_survives.
  7: { destruct (l_instance s) as [i|]; cbn in E; [|done]; destruct (l_children s !! i) as [c|]; cbn in E; [|done]; by destruct (c_alive c); simplify_eq/=. }
  all: destruct (l_children s !! i) as [c|] eqn:Hc; cbn in E; [|done].
  - destruct (c_alive c); simplify_eq/=. by eapply (with_child_survives i); eauto.
  - destruct (reader_next _); simplify_eq/=. by eapply (with_child_survives i); eauto.
  - destruct (reader_next _); simplify_eq/=. by eapply (with_child_survives i); eauto.
  - by destruct (c_waiter c), (negb (c_alive c) && guard_free c); simplify_eq/=.
  - destruct (c_check c) eqn:Hk; simplify_eq/=; eapply (with_child_survives i); eauto; unfold survived; congruence.
  - destruct (c_check c); simplify_eq/=; apply Exists_exists; exists (with_check CMarked c); split; [|done].
    apply list_elem_of_lookup; exists i; apply list_lookup_insert_eq; by eapply lookup_lt_Some.
Qed.
(** An instance is said to run only when a child of it was alive behind its second and a
    half. *)
Theorem running_cores_survived_their_start s : legacy_reachable s -> l_running s = true -> Exists survived (l_children s).
Proof.
  intros Hr; assert (Hi : rtc (fun s s' => exists label, legacy_step label s = Some s') legacy_initial s) by exact Hr.
  revert Hi; apply (rtc_ind_r (fun s => l_running s = true -> Exists survived (l_children s))); [done|].
  intros s1 s2 _ [label Hstep] IH; by eapply legacy_step_survivors.
Qed.

(** *** A core that ends while it is looked at

    The look finds it alive, the waiter stops the instance, and the mark comes last: the
    instance runs without a core, and only [kill] ends that. *)
Fixpoint legacy_steps (labels : list Label) (s : Legacy) : option Legacy :=
  match labels with
  | [] => Some s
  | label :: labels => s' ← legacy_step label s; legacy_steps labels s'
  end.
Lemma legacy_steps_reachable labels s s' : legacy_reachable s -> legacy_steps labels s = Some s' -> legacy_reachable s'.
Proof.
  revert s; induction labels as [|label labels IH]; intros s Hr E; cbn in E; [by injection E as <-|].
  destruct (legacy_step label s) as [s1|] eqn:Hs; cbn in E; [|done]. apply (IH s1); [|done].
  eapply rtc_r; [exact Hr|]. by exists label.
Qed.
Definition late_mark : list Label := [RunEntered; RunSpawned; CheckLooks 0; Dies 0; WaiterStops 0; CheckMarks 0].
Definition runs_nothing : Legacy :=
  {| l_running := true; l_instance := Some 0%nat;
     l_children := [with_check CMarked (told (dead new_child))]; l_runs := 0 |}.
Lemma a_late_mark_runs_nothing : legacy_reachable runs_nothing /\ legacy_step RunEntered runs_nothing = None.
Proof.
  split; [|done]. apply (legacy_steps_reachable late_mark legacy_initial); [apply rtc_refl|by vm_compute].
Qed.
Lemma running_cores_survived_their_start_witness : legacy_reachable runs_nothing /\ Exists survived (l_children runs_nothing).
Proof.
  assert (Hr : legacy_reachable runs_nothing) by (apply (legacy_steps_reachable late_mark legacy_initial); [apply rtc_refl|by vm_compute]).
  split; [done|]. by apply (running_cores_survived_their_start runs_nothing).
Defined.

(** ** What is cut out of the output *)

Lemma parse_samples :
  parse_check_output ("time=now level=error msg=" +:+ quote_mark +:+ "bad port" +:+ quote_mark) = Return "bad port" /\
  parse_check_output "x error=no such file path=/a" = Return "no such file" /\
  parse_check_output "plain" = Return "plain".
Proof. vm_compute. done. Qed.
(** An [error=] at the end of the output panics: the end of the cut lies in front of its
    beginning. *)
Lemma an_empty_error_panics : parse_check_output "error=" = Panicked "byte index out of range".
Proof. reflexivity. Qed.
